(* ===== verification/_CoqProject ===== *)
-Q . S2P
Prelude.v
Wire.v
Zcd.v
Models.v
Monitor.v
Progress.v
Coverage.v
View.v
Planner.v
Failover.v
Link.v
Client.v
Status.v
Stream.v
ApiRoute.v
ApiPick.v
ApiDirectory.v
ApiBody.v
ApiGateway.v
Abi.v
MonitorLoop.v
Telemetry.v
Tls.v
ApiFlow.v
Config.v
ConfigSpec.v
Health.v
Operator.v
Dashboard.v
Runtime.v
RuntimeSpec.v
RuntimeProps.v
SessionState.v
SessionPlan.v
SessionActor.v
SessionLoop.v
SessionInv.v
SessionKept.v
SessionTurn.v
SessionProps.v
MockProtocol.v
MockServer.v
