(* ===== verification/Prelude.v ===== *)
(** * fleet-router: a verification library

    fleet-router is a proxy for the state history protocol (SHiP) of Spring and
    EOSIO nodes.  A listener stands in front of a fleet of upstream nodes, live
    ones that follow the chain and frozen archives that hold a fixed range, and
    serves each client one uninterrupted stream of block results, moving it from
    upstream to upstream as ranges end, nodes fail or blocks turn out bad.

    ** The program and this library

    A monitor per upstream polls its status and stores it in the listener's state
    map; the hub turns the map into a fleet view (tip, coverage of each log, what
    each upstream can serve); a session plans from the view which upstream serves
    the next block, sends it a request, judges every result it gets, and forwards
    it to the client with the head and LIB the fleet has reached.  Beside it, the
    chain API gateway answers HTTP requests of the nodes' chain API from the same
    fleet: it routes each request by its path and the block its body names, and
    tries upstream APIs in order until one settles the answer.  The runtime loads
    and checks the configuration, binds the sockets, hands accepted connections to
    the listener's current generation, and replaces generations when the
    configuration changes.  Telemetry keeps events, samples and the registry of
    sessions; the health endpoints, the operator API and the dashboard show the
    fleet and act on it.

    - [Prelude]: machine widths, the result monad, lists, little-endian bytes,
      comparators and the tactics the other files share.
    - [Wire] models [src/src/ship/mod.rs] and [src/src/ship/wire.rs]: the decoder
      of client messages as a state-and-error monad over a bounds-checked reader
      ([Reader]), the encoders, the classification of upstream messages, and the
      in-place edits of a result (head and LIB, a missing [prev_block]).
    - [Zcd] models [src/src/zcd.rs] and [src/src/functions.rs]: the table-driven
      decoder of status results.
    - [Models] models, of [src/src/models.rs], the state of an upstream
      ([ServerState]), its quarantines and strikes, its endpoint, and the state
      map of a listener.
    - [Monitor] models [apply_status_update] of [src/src/tasks.rs], the handler
      of a status frame, over the state map; [Progress] the other state changes
      of that file, the progress tracker first; [MonitorLoop] the connection loop
      that calls them, a state machine over connects, frames, timers and hints.
    - [Coverage] models the range arithmetic of [src/src/fleet/view.rs].
    - [View] models the rest of that file ([build_view] and what it calls) and,
      of [src/src/fleet/mod.rs], the observed tips and the hub's publication of
      views.  [SoundView] is the interface the planner relies on.
    - [Planner] models [src/src/fleet/planner.rs]: eligibility, runs, the ranking,
      the next step of a stitched session, the pick of a pool session.
    - [Failover] models [src/src/session/failover.rs]: what a link end leads to.
    - [Link] models the state of a link in [src/src/session/link.rs].
    - [Client] models [src/src/session/client.rs] and the requests of [link.rs]:
      what one node would hold for the client ([ClientSide]), the ring of
      delivered blocks ([Ring]), [judge] and [commit].
    - [Status] models [src/src/session/status.rs].
    - [Stream] models the handlers of [src/src/session/mod.rs] that forward or
      drop a result, relay a status, and take a client's ack.
    - [SessionState], [SessionPlan], [SessionActor] and [SessionLoop] model the
      rest of [src/src/session/mod.rs], the actor of one client: its state and
      the monad of its handlers; requests, link ends, plans, holds, waits,
      handoffs and pre-dials; client and upstream messages; dial outcomes,
      timers, published views, operator requests, the event loop, and the ABI
      exchange before it.  [SessionInv], [SessionKept] and [SessionTurn] prove
      its invariant for every handler, by weakest preconditions; [SessionProps]
      defines the states a session reaches ([reach]) and draws the conclusions.
    - [ApiRoute] models [chain_api/route.rs], [hint.rs] and [errors.rs] under
      [src/src]; [ApiPick] [pick.rs], the order in which upstream APIs are tried;
      [ApiDirectory] [directory.rs] and [probe.rs], what is known of each API;
      [ApiBody] the bodies and headers of [upstream.rs] and [socket.rs];
      [ApiGateway] the attempt loop and the pushes of [chain_api/mod.rs];
      [ApiFlow] the flows of the endpoint classes and [handle].
    - [Abi] models [src/src/abi.rs]: the fingerprint of an ABI and the check of its
      variants; [Tls] the configuration, certificate store and reload of
      [src/src/tls.rs].
    - [Config] models the rest of [src/src/models.rs]: the configuration, every
      check of it, what it resolves to, and its warnings; [ConfigSpec] states what
      an accepted configuration is and proves the checks exact.
    - [Runtime] models [src/src/runtime.rs] and [src/src/runtime/config.rs]: the
      generations of a listener, [prepare] and [commit], accepting, draining, the
      reaper, the shutdown, and the change requests of the editor, as a step
      relation over a store of generations; [RuntimeSpec] proves its invariant and
      [RuntimeProps] draws further conclusions.
    - [Telemetry] models [src/src/telemetry.rs]: the event log, the history, the
      registry of sessions and the counter of lifecycle changes.
    - [Health] models the readiness decisions and label texts of
      [src/src/health.rs] and the [Host] policy and text helpers of
      [src/src/http.rs].
    - [Operator] models [src/src/api.rs]: the views, the token, the actions on
      upstreams and sessions; [Dashboard] models [src/src/api/dashboard.rs]: the
      feed of a viewer and its publisher.
    - [MockProtocol] models [src/mock-ship/src/protocol.rs] and [MockServer]
      [clock.rs] and the Spring session of [server.rs] beside it: the node the
      router is tested against, written apart from the router, which here stands
      at the other end of the wire.

    State is passed explicitly: a method that takes [&mut self] takes the state
    last and returns it last (the session actor, whose handlers call each other
    most, in a state monad).  What other tasks do between two reads is an
    environment that answers each read by itself ([SessionEnv], [Turn],
    [Moment], [RuntimeEnv]): nothing relates one read to the next.  In
    [MonitorLoop] and [Operator] the locks one event takes in turn are taken
    together; in [Telemetry] and [Dashboard], where the interleaving is the point,
    each is a step of its own, and a viewer may fall behind at any time.  Integers are [Z] with the width's saturation,
    checks or wrap-around written where the code has them; block positions,
    requests and messages carry well-formedness predicates ([pos_ok],
    [request_ok], [message_ok]) that state what the Rust types enforce.  Instants
    and durations are nanoseconds.  Maps are [gmap]s; where the code iterates a
    [HashMap] and the order could matter the order is a parameter ([Monitor]).

    ** What the theorems show

    - The codec: decoding inverts encoding whatever follows; a truncated message
      is refused as such; what is accepted is bounded by the message; LEB128 is
      read exactly; an edit changes what it says and nothing else; a status body
      is told apart by its length and read field by field.
    - Upstreams: when a failure arms a quarantine and what it excludes; one
      quarantine per block; a status frame changes only its own upstream and
      stores what was sent; online upstreams of a listener are on one chain, also
      when a new generation took over what the previous one observed (of several
      previous ones, when the chain id is pinned); an upstream is stale exactly
      while it has not grown for twelve intervals; an upstream is online only while
      its monitor has an answer from it, or still as a reload handed it over, until
      the first connect or status decides; a monitor has at most one status request
      unanswered, and drops a connection that stays silent.
    - The view: coverage is exactly the union of what the upstreams hold, its
      gaps and offline parts exact; the tip follows its anchors with the LIB at
      or below the head; a view is published exactly when it changed.
    - The planner: a run is exactly the stretch an upstream may serve; a [Serve]
      step is never empty, within the request, the run and the gate, and goes to
      the best candidate, which may serve every block of it (below the first block
      anybody holds, the owner of that block gets the request); it is made whenever
      a ready candidate exists; a gap is
      reported only for a block nobody holds; the pool pick follows its rules.
    - The session, over every reachable state: the client's credit stays in step
      with the upstream's; what is dropped as a replay the client has, or, without
      an id, is below its cursor; where heads are patched, the head and LIB of the
      messages sent never go back; a frozen upstream's results are forwarded only
      in order; a resume asks exactly for what follows; the bytes sent are the
      upstream's but for head, LIB and a filled [prev_block]; status requests are
      answered in order; a block is given up exactly after its budget, which ends
      of links that owe nothing do not touch.
    - The session actor, over every state it reaches whatever its client, the
      hub, the operator and the dials do: a request in progress always has a dial,
      a timer or a link that will go on with it; phase, dial and link agree; a
      frozen leg is read at or before the client's next block and ends after it;
      the loops that drain its queues end.  Published views are sound
      ([SoundView], which [View] shows of every view the hub builds), client
      messages are bytes, and live upstreams conform ([conforming_result]): their
      LIB does not go back, they replace no block at or below it and send none
      past the end of a request.  [MockServer] shows that the mock node conforms,
      as long as it forks above its LIB at blocks it knows, and its LIB does not
      pass a fork within the delay before one block.
    - The chain API: which requests are proxied, and to which APIs, in which
      order; an archive is used only once its position was confirmed against its
      SHiP endpoint; the attempt loop implements a short specification of its
      answer, ends, and sends at most one request that may execute; slots and
      permits are counted exactly; a relayed body loses no byte and is cut exactly
      at its limits; [handle] composes them.
    - The configuration: it is accepted exactly when a specification of it holds
      (limits, distinct upstreams and names, topology, certificates, sockets that
      do not conflict); an accepted one resolves to states and indices that agree;
      a certificate is chosen by exact name, then wildcard, then default, and a
      reload replaces exactly the pairs that changed and load, whatever became of
      the others, and reports every failure; the fingerprint of
      an ABI ignores the order of members, and a compatible one lists a prefix of
      Spring's variants.
    - The runtime, over every interleaving of changes, accepts, ends of connections
      and edits of the file: a connection's generation stays in service with its
      configuration until the connection ends; limits hold across generations,
      exactly; sockets and routing table agree, but in the moment a published
      change switches its sockets and in a shutdown; an unchanged listener keeps its
      generation and a new one inherits what was observed; a change is applied
      whole, over what its request names, or not at all; the control token is never
      shown and survives the editor; a drained generation retires and the shutdown
      ends.

    - What operators see and do: a capture of the registry completes only if no
      session came, went or changed meanwhile but for frames counted; a stitched
      listener is ready for history
      exactly when its coverage is; a control request without the token changes
      nothing, and an action changes one upstream, which the next view shows, and
      neither planner picks an upstream a view shows as disabled; a
      drain asks exactly the sessions to move that another upstream can take; what
      a dashboard viewer has assembled is always a state the router was in, and
      the events still in the log at the next capture are published once, in order.

    - Both ends of the wire: the router's decoder of client messages and the mock
      node's accept the same messages and refuse the others alike (both refuse a
      varuint32 of more than 32 bits, where the node software drops the bits); the router reads back
      what the node encodes; the results of a node's session, through forks, acks and
      new requests, conform, and stay within the client's credit.

    Lemmas record where the code does less than a comment or its own checks say:
    [listener_lib_decreases] in [View], [pool_soft_picks_offline] in [Planner],
    [overlong_refused] in [MockProtocol] and [inherited_chains_mix] in [Monitor].

    ** Bounds and fuel

    These definitions recurse on fuel: the encoder of a varuint32 (five bytes
    hold 32 bits), the lossy UTF-8 decoder (each turn consumes a byte, the fuel is
    the length), the bisection of a slice (the size is halved, the fuel is the
    length), the attempt loop of the chain API (a turn per API of the order, one
    per race it may lose and one more; [attempts_total] shows it is enough), the
    loops that drain a session's queues (a turn per entry and one more;
    [queues_drain]), the node's varuint encoder and its chunks of a message (ten
    bytes, and its length), the looks of a shutdown ([drain_ends]), and the first dials of a session ([MAX_DIAL_ATTEMPTS], the
    bound in the code).  Everything else is structural and total.  Hypotheses bound messages
    by [isize::MAX], which no Rust allocation passes, and histories by [2^32]
    events where a saturating counter is compared with an exact count.

    ** What is not modelled

    Sockets, the HTTP and TLS layers and task scheduling; metric counters and log
    lines; the f64 jitter of a backoff (a function of the environment); the JSON
    reader, the URI parser, the certificate parser and the ABI parser, which are
    third-party libraries (parameters where they are used); serde's defaults for
    the configuration file.  Of the endpoints, the metric series, the JSON of
    [/coverage], the layout of the HTML pages, the framing of server-sent events
    and the routes, which are output texts or declarations to a third-party
    library.  The command line and the signals, which only call what is modelled.
    Of [src/mock-ship], a test tool, the legacy session, the sockets, the mock chain
    API and the test client. *)

From stdpp Require Export base list gmap strings sorting.
From Stdlib Require Export ZArith Lia.
From Stdlib Require Import Permutation.

#[global] Open Scope Z_scope.

(** ** Machine integers

    Every unsigned Rust integer is a [Z]; the width is kept by the operations
    (saturating, checked and wrapping forms) and by range predicates. *)

Definition u8_max : Z := 255.
Definition u16_max : Z := 65535.
Definition u32_max : Z := 4294967295.
Definition u64_max : Z := 18446744073709551615.
Definition u128_max : Z := 2 ^ 128 - 1.

(** [usize] on the 64-bit targets the router is released for. *)
Definition usize_max : Z := u64_max.

(** No Rust allocation, hence no slice, is longer than [isize::MAX] bytes. *)
Definition isize_max : Z := 9223372036854775807.

Definition is_u8 (z : Z) : Prop := 0 <= z <= u8_max.
Definition is_u32 (z : Z) : Prop := 0 <= z <= u32_max.
Definition is_u64 (z : Z) : Prop := 0 <= z <= u64_max.

Definition sat_add (max a b : Z) : Z := Z.min (a + b) max.
Definition sat_sub (a b : Z) : Z := Z.max 0 (a - b).
Definition checked_add (max a b : Z) : option Z :=
  if a + b <=? max then Some (a + b) else None.
Definition checked_mul (max a b : Z) : option Z :=
  if a * b <=? max then Some (a * b) else None.
Definition checked_sub (a b : Z) : option Z :=
  if b <=? a then Some (a - b) else None.
Definition wrapping_mul64 (a b : Z) : Z := (a * b) mod 2 ^ 64.

(** ** Results *)

Inductive result (A E : Type) : Type :=
| Ok (a : A)
| Err (e : E).
Arguments Ok {A E} a.
Arguments Err {A E} e.

Definition rbind {A B E} (r : result A E) (f : A -> result B E) : result B E :=
  match r with Ok a => f a | Err e => Err e end.
Definition rmap {A B E} (f : A -> B) (r : result A E) : result B E :=
  match r with Ok a => Ok (f a) | Err e => Err e end.

Declare Scope router_scope.
Delimit Scope router_scope with router.
Notation "'let?' x := e 'in' k" := (rbind e (fun x => k))
  (at level 10, x pattern, k at level 200) : router_scope.
#[global] Open Scope router_scope.

(** ** Option predicates of the Rust standard library *)

Definition is_some_and {A} (f : A -> bool) (o : option A) : bool :=
  match o with Some a => f a | None => false end.
Definition is_none_or {A} (f : A -> bool) (o : option A) : bool :=
  match o with Some a => f a | None => true end.
Definition is_some {A} (o : option A) : bool :=
  match o with Some _ => true | None => false end.
Definition is_none {A} (o : option A) : bool := negb (is_some o).
Definition map_or {A B} (d : B) (f : A -> B) (o : option A) : B :=
  match o with Some a => f a | None => d end.
Definition or_else {A} (o o' : option A) : option A :=
  match o with Some a => Some a | None => o' end.

Lemma is_some_ex {A} (o : option A) : is_some o = true -> exists a, o = Some a.
Proof. destruct o; [eauto|done]. Qed.

(** Unfolding by one character, where [cbn] leaves [String.append] alone. *)
Lemma append_cons c a b : String.append (String.String c a) b = String.String c (String.append a b).
Proof. done. Qed.

Lemma sum_app (l k : list Z) : foldr Z.add 0 (l ++ k) = foldr Z.add 0 l + foldr Z.add 0 k.
Proof. induction l as [|x l IH]; cbn; [done|]. rewrite IH. lia. Qed.

(** ** Automation *)

Create HintDb router.

(** Turn boolean comparisons of the code into propositions for [lia]. *)
Ltac bools :=
  repeat match goal with
  | H : _ && _ = true |- _ => apply andb_true_iff in H; destruct H
  | H : _ || _ = false |- _ => apply orb_false_iff in H; destruct H
  | H : negb _ = true |- _ => apply negb_true_iff in H
  | H : negb _ = false |- _ => apply negb_false_iff in H
  | H : Z.leb _ _ = true |- _ => apply Z.leb_le in H
  | H : Z.leb _ _ = false |- _ => apply Z.leb_gt in H
  | H : Z.ltb _ _ = true |- _ => apply Z.ltb_lt in H
  | H : Z.ltb _ _ = false |- _ => apply Z.ltb_ge in H
  | H : Z.eqb _ _ = true |- _ => apply Z.eqb_eq in H
  | H : Z.eqb _ _ = false |- _ => apply Z.eqb_neq in H
  | H : bool_decide _ = true |- _ => apply bool_decide_eq_true in H
  | H : bool_decide _ = false |- _ => apply bool_decide_eq_false in H
  end.

(** Case on every boolean comparison in the goal. *)
Ltac cases_bool :=
  repeat match goal with
  | |- context [if ?b then _ else _] => destruct b eqn:?
  end; bools.

Ltac mlia := unfold is_u8, is_u32, is_u64, usize_max, u8_max, u16_max, u32_max,
  u64_max, isize_max, sat_add, sat_sub in *; lia.

(** ** Lists *)

Abbreviation zlen l := (Z.of_nat (length l)).

(** [slice.get(i..j)]. *)
Definition slice_get {A} (l : list A) (i j : Z) : option (list A) :=
  if (0 <=? i) && (i <=? j) && (j <=? zlen l)
  then Some (take (Z.to_nat (j - i)) (drop (Z.to_nat i) l)) else None.

(** [slice.get(i)]. *)
Definition nth_get {A} (l : list A) (i : Z) : option A :=
  if 0 <=? i then l !! Z.to_nat i else None.

(** [slice.first()]. *)
Definition first_get {A} (l : list A) : option A := head l.

Lemma slice_get_some {A} (l : list A) i j :
  0 <= i -> i <= j -> j <= zlen l ->
  slice_get l i j = Some (take (Z.to_nat (j - i)) (drop (Z.to_nat i) l)).
Proof.
  intros. unfold slice_get.
  by rewrite !(proj2 (Z.leb_le _ _)) by lia.
Qed.

Lemma slice_get_none {A} (l : list A) i j :
  i < 0 \/ j < i \/ zlen l < j -> slice_get l i j = None.
Proof.
  intros H. unfold slice_get.
  destruct (_ && _) eqn:E; [|done]. bools. lia.
Qed.

Lemma slice_get_inv {A} (l s : list A) i j :
  slice_get l i j = Some s ->
  0 <= i /\ i <= j /\ j <= zlen l /\ zlen s = j - i
  /\ l = take (Z.to_nat i) l ++ s ++ drop (Z.to_nat j) l.
Proof.
  unfold slice_get. destruct (_ && _) eqn:E; [|done]. bools. intros [= <-].
  split_and!; [lia..|rewrite length_take, length_drop; lia|].
  rewrite <-(take_drop (Z.to_nat i) l) at 1. f_equal.
  rewrite <-(take_drop (Z.to_nat (j - i)) (drop (Z.to_nat i) l)) at 1. f_equal.
  rewrite drop_drop. f_equal. lia.
Qed.

(** ** Little-endian integers ([to_le_bytes] / [from_le_bytes]) *)

Fixpoint le_bytes (n : nat) (v : Z) : list Z :=
  match n with
  | O => []
  | S n => v mod 256 :: le_bytes n (v / 256)
  end.

Fixpoint from_le (l : list Z) : Z :=
  match l with
  | [] => 0
  | b :: l => b + 256 * from_le l
  end.

Lemma length_le_bytes n v : length (le_bytes n v) = n.
Proof. revert v. induction n as [|n IH]; intros v; simpl; auto. Qed.

Lemma le_bytes_u8 n v : Forall is_u8 (le_bytes n v).
Proof.
  revert v. induction n as [|n IH]; intros v; simpl; constructor; auto.
  pose proof (Z.mod_pos_bound v 256). mlia.
Qed.

Lemma from_le_bytes n v : 0 <= v < 256 ^ Z.of_nat n -> from_le (le_bytes n v) = v.
Proof.
  revert v. induction n as [|n IH]; intros v Hv.
  - simpl in *. lia.
  - cbn [le_bytes from_le]. rewrite Nat2Z.inj_succ, Z.pow_succ_r in Hv by lia.
    rewrite IH.
    + pose proof (Z.div_mod v 256). lia.
    + split; [apply Z.div_pos; lia|]. apply Z.div_lt_upper_bound; lia.
Qed.

Lemma from_le_bound l : Forall is_u8 l -> 0 <= from_le l < 256 ^ zlen l.
Proof.
  induction 1 as [|b l Hb _ IH]; [simpl; lia|].
  cbn [from_le length]. rewrite Nat2Z.inj_succ, Z.pow_succ_r by lia. mlia.
Qed.

Lemma le_bytes_from l : Forall is_u8 l -> le_bytes (length l) (from_le l) = l.
Proof.
  induction 1 as [|b l Hb _ IH]; [done|].
  cbn [from_le length le_bytes].
  rewrite (Z.mul_comm 256), Z.mod_add, Z.div_add by lia.
  rewrite Z.mod_small, Z.div_small by mlia. by rewrite Z.add_0_l, IH.
Qed.

(** ** Comparators, sorting and selection

    Rust comparators return an [Ordering]; [ord_then] is [Ordering::then]. *)

Definition ord_then (a b : comparison) : comparison :=
  match a with Eq => b | _ => a end.

Definition on {A B} (f : A -> B) (cmp : B -> B -> comparison) (a b : A) : comparison :=
  cmp (f a) (f b).
Definition cmp_then {A} (c1 c2 : A -> A -> comparison) (a b : A) : comparison :=
  ord_then (c1 a b) (c2 a b).
Definition cmp_rev {A} (c : A -> A -> comparison) (a b : A) : comparison := c b a.

(** [bool::cmp]: [false] is below [true]. *)
Definition bool_cmp (a b : bool) : comparison :=
  match a, b with
  | false, true => Lt
  | true, false => Gt
  | _, _ => Eq
  end.

(** [Option::cmp]: [None] is below every [Some]. *)
Definition option_cmp (a b : option Z) : comparison :=
  match a, b with
  | None, None => Eq
  | None, Some _ => Lt
  | Some _, None => Gt
  | Some x, Some y => Z.compare x y
  end.

(** A comparator that is a total preorder, as [sort_by] and [min_by] ask. *)
Class TotalCmp {A} (cmp : A -> A -> comparison) : Prop := {
  cmp_opp : forall x y, cmp y x = CompOpp (cmp x y);
  cmp_trans : forall x y z, cmp x y <> Gt -> cmp y z <> Gt -> cmp x z <> Gt;
}.

Fixpoint insert_by {A} (cmp : A -> A -> comparison) (x : A) (l : list A) : list A :=
  match l with
  | [] => [x]
  | y :: l' =>
      match cmp x y with
      | Gt => y :: insert_by cmp x l'
      | _ => x :: y :: l'
      end
  end.

(** [slice::sort_by]: stable. *)
Definition sort_by {A} (cmp : A -> A -> comparison) (l : list A) : list A :=
  foldr (insert_by cmp) [] l.

(** [Iterator::min_by]: the first of the minimal elements. *)
Definition min_by {A} (cmp : A -> A -> comparison) (l : list A) : option A :=
  match l with
  | [] => None
  | x :: l =>
      Some (foldl (fun m y => match cmp m y with Gt => y | _ => m end) x l)
  end.

(** [Iterator::max_by]: the last of the maximal elements. *)
Definition max_by {A} (cmp : A -> A -> comparison) (l : list A) : option A :=
  match l with
  | [] => None
  | x :: l =>
      Some (foldl (fun m y => match cmp m y with Gt => m | _ => y end) x l)
  end.

(** [Iterator::min] / [max] on integers. *)
Definition min_list (l : list Z) : option Z := min_by Z.compare l.
Definition max_list (l : list Z) : option Z := max_by Z.compare l.

#[export] Instance Zcompare_total : TotalCmp Z.compare.
Proof.
  split.
  - intros x y. apply Z.compare_antisym.
  - intros x y z Hxy Hyz. change (x <= z). change (x <= y) in Hxy.
    change (y <= z) in Hyz. lia.
Qed.

#[export] Instance bool_cmp_total : TotalCmp bool_cmp.
Proof. split; intros; repeat match goal with b : bool |- _ => destruct b end; done. Qed.

#[export] Instance option_cmp_total : TotalCmp option_cmp.
Proof.
  split.
  - intros [x|] [y|]; try done. apply (cmp_opp (cmp := Z.compare)).
  - intros [x|] [y|] [z|]; try done. apply (cmp_trans (cmp := Z.compare)).
Qed.

#[global] Typeclasses Opaque on cmp_then cmp_rev.

#[export] Instance on_total {A B} (f : A -> B) cmp `{!TotalCmp cmp} : TotalCmp (on f cmp).
Proof.
  split.
  - intros x y. apply (cmp_opp (cmp := cmp)).
  - intros x y z. apply (cmp_trans (cmp := cmp)).
Qed.

#[export] Instance cmp_rev_total {A} (cmp : A -> A -> comparison) `{!TotalCmp cmp} :
  TotalCmp (cmp_rev cmp).
Proof.
  split.
  - intros x y. apply (cmp_opp (cmp := cmp)).
  - intros x y z Hxy Hyz. exact (cmp_trans (cmp := cmp) z y x Hyz Hxy).
Qed.

Lemma cmp_eq_trans {A} (cmp : A -> A -> comparison) `{!TotalCmp cmp} x y z :
  cmp x y <> Gt -> cmp y z <> Gt -> cmp x z = Eq -> cmp x y = Eq /\ cmp y z = Eq.
Proof.
  intros Hxy Hyz Hxz.
  assert (Hzx : cmp z x <> Gt) by (rewrite (cmp_opp x z), Hxz; done).
  pose proof (cmp_trans y z x Hyz Hzx) as Hyx.
  pose proof (cmp_trans z x y Hzx Hxy) as Hzy.
  rewrite (cmp_opp x y) in Hyx. rewrite (cmp_opp y z) in Hzy.
  destruct (cmp x y), (cmp y z); simpl in *; done.
Qed.

#[export] Instance cmp_then_total {A} (c1 c2 : A -> A -> comparison)
  `{!TotalCmp c1, !TotalCmp c2} : TotalCmp (cmp_then c1 c2).
Proof.
  split.
  - intros x y. unfold cmp_then, ord_then.
    rewrite (cmp_opp (cmp := c1) x y), (cmp_opp (cmp := c2) x y). by destruct (c1 x y).
  - intros x y z. unfold cmp_then, ord_then. intros Hxy Hyz.
    assert (H1 : c1 x y <> Gt) by (by destruct (c1 x y)).
    assert (H2 : c1 y z <> Gt) by (by destruct (c1 y z)).
    pose proof (cmp_trans x y z H1 H2). destruct (c1 x z) eqn:E; try done.
    destruct (cmp_eq_trans c1 x y z H1 H2 E) as [E1 E2].
    rewrite E1 in Hxy. rewrite E2 in Hyz. by apply cmp_trans with y.
Qed.

Lemma cmp_refl {A} (cmp : A -> A -> comparison) `{!TotalCmp cmp} x : cmp x x = Eq.
Proof. pose proof (cmp_opp x x). destruct (cmp x x); done. Qed.

Lemma cmp_not_gt_total {A} (cmp : A -> A -> comparison) `{!TotalCmp cmp} x y :
  cmp x y = Gt -> cmp y x <> Gt.
Proof. intros H. rewrite (cmp_opp x y), H. done. Qed.

(** *** Sorting *)

Lemma insert_by_perm {A} cmp (x : A) l : Permutation (insert_by cmp x l) (x :: l).
Proof.
  induction l as [|y l IH]; simpl; [done|].
  destruct (cmp x y); try done. rewrite IH. apply Permutation_swap.
Qed.

Lemma sort_by_perm {A} cmp (l : list A) : Permutation (sort_by cmp l) l.
Proof.
  induction l as [|x l IH]; [done|]. unfold sort_by in *. cbn [foldr].
  by rewrite insert_by_perm, IH.
Qed.

Lemma elem_of_sort_by {A} cmp (x : A) l : x ∈ sort_by cmp l <-> x ∈ l.
Proof. by rewrite (sort_by_perm cmp l). Qed.

Lemma insert_by_sorted {A} (cmp : A -> A -> comparison) `{!TotalCmp cmp} x l :
  StronglySorted (fun a b => cmp a b <> Gt) l ->
  StronglySorted (fun a b => cmp a b <> Gt) (insert_by cmp x l).
Proof.
  induction 1 as [|y l Hs IH Hy]; simpl; [by repeat constructor|].
  destruct (cmp x y) eqn:E.
  1,2: constructor; [by constructor|]; constructor; [by rewrite E|];
       eapply Forall_impl; [exact Hy|]; intros z Hz; apply cmp_trans with y; [by rewrite E|done].
  constructor; [done|]. rewrite insert_by_perm. constructor; [|done].
  by apply cmp_not_gt_total.
Qed.

Lemma sort_by_sorted {A} (cmp : A -> A -> comparison) `{!TotalCmp cmp} l :
  StronglySorted (fun a b => cmp a b <> Gt) (sort_by cmp l).
Proof.
  induction l as [|x l IH]; [constructor|]. by apply insert_by_sorted.
Qed.

(** *** Minimum and maximum *)

Lemma min_by_none {A} cmp (l : list A) : min_by cmp l = None <-> l = [].
Proof. by destruct l. Qed.

Lemma min_by_elem {A} cmp (l : list A) m : min_by cmp l = Some m -> m ∈ l.
Proof.
  destruct l as [|x l]; [done|]. intros [= <-]. revert x. induction l as [|y l IH]; intros x; cbn; [set_solver|].
  specialize (IH (match cmp x y with Gt => y | _ => x end)). destruct (cmp x y); set_solver.
Qed.

(** The minimum under a comparator that is a total preorder on the elements
    that satisfy [P]. *)
Section min_on.
Context {A} (cmp : A -> A -> comparison) (P : A -> Prop)
  (Hopp : forall x y, cmp y x = CompOpp (cmp x y))
  (Htrans : forall x y z, P x -> P y -> P z ->
     cmp x y <> Gt -> cmp y z <> Gt -> cmp x z <> Gt).

Lemma fold_min_on l x :
  P x -> Forall P l ->
  let m := foldl (fun m y => match cmp m y with Gt => y | _ => m end) x l in
  m ∈ x :: l /\ forall y, y ∈ x :: l -> cmp m y <> Gt.
Proof.
  assert (forall z, cmp z z = Eq) as Hrefl.
  { intros z. pose proof (Hopp z z). destruct (cmp z z); done. }
  assert (forall y z, cmp y z = Gt -> cmp z y <> Gt) as Hflip.
  { intros y z E. rewrite (Hopp y z), E. done. }
  revert x. induction l as [|a l IH]; intros x Hx Hl; cbn [foldl].
  - split; [constructor|]. intros y ->%list_elem_of_singleton. by rewrite Hrefl.
  - inversion Hl as [|? ? Ha Hl']; subst.
    set (x' := match cmp x a with Gt => a | _ => x end).
    assert (Hx' : (x' = x \/ x' = a) /\ cmp x' x <> Gt /\ cmp x' a <> Gt).
    { subst x'. destruct (cmp x a) eqn:E; rewrite ?Hrefl, ?E; split_and!; auto; done. }
    destruct Hx' as (Hx1 & Hx2 & Hx3).
    assert (P x') as HPx' by (destruct Hx1 as [-> | ->]; done).
    destruct (IH x' HPx' Hl') as [Hin Hmin]. clearbody x'.
    set (m := foldl _ x' l) in *.
    assert (P m) as HPm.
    { rewrite Forall_forall in Hl'. apply elem_of_cons in Hin as [->|Hin]; auto. }
    assert (cmp m x' <> Gt) as Hmx by (apply Hmin; constructor).
    split.
    + rewrite !elem_of_cons. apply elem_of_cons in Hin as [->|Hin]; [|auto].
      destruct Hx1; auto.
    + intros y Hy. rewrite !elem_of_cons in Hy. destruct Hy as [->|[->|Hy]].
      * by apply (Htrans m x' x).
      * by apply (Htrans m x' a).
      * apply Hmin. by constructor.
Qed.

Lemma min_by_on l m :
  Forall P l -> min_by cmp l = Some m -> m ∈ l /\ forall y, y ∈ l -> cmp m y <> Gt.
Proof.
  destruct l as [|x l]; [done|]. intros Hl [= <-]. inversion Hl; subst. by apply fold_min_on.
Qed.
End min_on.

Lemma existsb_ext {A} (f g : A -> bool) l :
  (forall x, x ∈ l -> f x = g x) -> existsb f l = existsb g l.
Proof.
  induction l as [|x l IH]; [done|]. intros H. cbn [existsb].
  rewrite (H x) by constructor. f_equal. apply IH. intros y Hy. apply H. by constructor.
Qed.

(** A comparator that is a total preorder on the elements that satisfy [P]. *)
Definition total_on {A} (P : A -> Prop) (cmp : A -> A -> comparison) : Prop :=
  (forall x y, cmp y x = CompOpp (cmp x y))
  /\ (forall x y z, P x -> P y -> P z -> cmp x y <> Gt -> cmp y z <> Gt -> cmp x z <> Gt).

Lemma total_on_cmp {A} (P : A -> Prop) cmp `{!TotalCmp cmp} : total_on P cmp.
Proof. split; [apply cmp_opp|]. intros x y z _ _ _. apply cmp_trans. Qed.

Lemma total_on_then {A} (P : A -> Prop) c1 c2 :
  total_on P c1 -> total_on P c2 -> total_on P (cmp_then c1 c2).
Proof.
  intros [O1 T1] [O2 T2]. split.
  - intros x y. unfold cmp_then, ord_then. rewrite (O1 x y), (O2 x y). by destruct (c1 x y).
  - intros x y z Px Py Pz. unfold cmp_then, ord_then. intros Hxy Hyz.
    assert (H1 : c1 x y <> Gt) by (by destruct (c1 x y)).
    assert (H2 : c1 y z <> Gt) by (by destruct (c1 y z)).
    pose proof (T1 x y z Px Py Pz H1 H2). destruct (c1 x z) eqn:E; try done.
    assert (H3 : c1 z x <> Gt) by (rewrite (O1 x z), E; done).
    pose proof (T1 y z x Py Pz Px H2 H3) as Hyx. pose proof (T1 z x y Pz Px Py H3 H1) as Hzy.
    rewrite (O1 x y) in Hyx. rewrite (O1 y z) in Hzy.
    destruct (c1 x y), (c1 y z); try done. by apply (T2 x y z).
Qed.

Lemma min_by_total_on {A} (P : A -> Prop) cmp l m :
  total_on P cmp -> Forall P l -> min_by cmp l = Some m ->
  m ∈ l /\ forall y, y ∈ l -> cmp m y <> Gt.
Proof. intros [Ho Ht]. by apply min_by_on. Qed.

Lemma min_by_some {A} (cmp : A -> A -> comparison) `{!TotalCmp cmp} l m :
  min_by cmp l = Some m -> m ∈ l /\ forall y, y ∈ l -> cmp m y <> Gt.
Proof.
  apply (min_by_on cmp (fun _ => True)).
  - apply cmp_opp.
  - intros x y z _ _ _. apply cmp_trans.
  - by apply Forall_true.
Qed.

Lemma max_by_min_by {A} (cmp : A -> A -> comparison) `{!TotalCmp cmp} l m :
  max_by cmp l = Some m -> m ∈ l /\ forall y, y ∈ l -> cmp y m <> Gt.
Proof.
  destruct l as [|x l]; [done|]. intros [= <-]. revert x.
  induction l as [|a l IH]; intros x; cbn [foldl].
  - split; [constructor|]. intros y ->%list_elem_of_singleton. by rewrite (cmp_refl cmp).
  - set (x' := match cmp x a with Gt => x | _ => a end).
    destruct (IH x') as [Hin Hmax].
    assert (Hx' : x' ∈ [x; a] /\ cmp x x' <> Gt /\ cmp a x' <> Gt).
    { subst x'. destruct (cmp x a) eqn:E; rewrite ?(cmp_refl cmp x), ?E; split_and!;
        rewrite ?(cmp_refl cmp a); try (by repeat constructor); try done;
        by apply cmp_not_gt_total. }
    destruct Hx' as (Hx1 & Hx2 & Hx3). apply elem_of_cons in Hin.
    split; [destruct Hin as [->|?]; [|by repeat constructor]; revert Hx1; clear;
      rewrite !elem_of_cons, elem_of_nil; tauto|].
    intros y Hy. rewrite !elem_of_cons in Hy.
    destruct Hy as [->|[->|Hy']].
    + eapply cmp_trans; [done|apply Hmax; constructor].
    + eapply cmp_trans; [done|apply Hmax; constructor].
    + apply Hmax. by constructor.
Qed.

Lemma min_list_some l m : min_list l = Some m -> m ∈ l /\ forall y, y ∈ l -> m <= y.
Proof. apply (min_by_some Z.compare). Qed.

Lemma max_list_some l m : max_list l = Some m -> m ∈ l /\ forall y, y ∈ l -> y <= m.
Proof. intros H. by apply (max_by_min_by Z.compare) in H. Qed.

Lemma max_list_none l : max_list l = None <-> l = [].
Proof. by destruct l. Qed.

Lemma min_list_none l : min_list l = None <-> l = [].
Proof. by destruct l. Qed.

(** *** Sorting by a comparator that is total on the elements *)

Section sort_on.
Context {A} (P : A -> Prop) (cmp : A -> A -> comparison) (Htot : total_on P cmp).

Lemma insert_by_sorted_on x l :
  P x -> Forall P l ->
  StronglySorted (fun a b => cmp a b <> Gt) l ->
  StronglySorted (fun a b => cmp a b <> Gt) (insert_by cmp x l).
Proof.
  destruct Htot as [Ho Ht]. intros Hx Hl. induction 1 as [|y l Hs IH Hy]; cbn; [by repeat constructor|].
  inversion Hl as [|? ? HPy HPl]; subst.
  assert (cmp x y <> Gt -> StronglySorted (fun a b => cmp a b <> Gt) (x :: y :: l)) as Hfront.
  { intros Hxy. constructor; [by constructor|]. constructor; [done|].
    rewrite Forall_forall in Hy, HPl |- *. intros z Hz. apply (Ht x y z); auto. }
  destruct (cmp x y) eqn:E; [by apply Hfront..|].
  constructor; [by apply IH|]. rewrite insert_by_perm. constructor; [|done].
  rewrite (Ho x y), E. done.
Qed.

Lemma sort_by_sorted_on l :
  Forall P l -> StronglySorted (fun a b => cmp a b <> Gt) (sort_by cmp l).
Proof.
  induction 1 as [|x l Hx Hl IH]; [constructor|]. cbn.
  apply insert_by_sorted_on; [done| |done]. by rewrite (sort_by_perm cmp l).
Qed.
End sort_on.

(** ** Filtering and updating lists *)

Lemma elem_of_List_filter {A} (f : A -> bool) x l :
  x ∈ List.filter f l <-> x ∈ l /\ f x = true.
Proof. rewrite !list_elem_of_In. apply filter_In. Qed.

Lemma NoDup_lfilter {A} (f : A -> bool) l : NoDup l -> NoDup (List.filter f l).
Proof.
  induction 1 as [|x l Hx _ IH]; [constructor|]. cbn. destruct (f x); [|done].
  constructor; [|done]. rewrite elem_of_List_filter. naive_solver.
Qed.

(** A filter over a disjunction of exclusive tests is the two filters. *)
Lemma lfilter_or {A} (f g : A -> bool) l :
  (forall x, x ∈ l -> f x = true -> g x = false) ->
  Permutation (List.filter (fun x => f x || g x) l) (List.filter f l ++ List.filter g l).
Proof.
  induction l as [|x l IH]; intros H; [done|]. cbn.
  assert (forall y, y ∈ l -> f y = true -> g y = false) as Hl by (intros y Hy; apply H; by right).
  pose proof (H x (list_elem_of_here x l)) as Hx.
  destruct (f x) eqn:Ef, (g x) eqn:Eg; cbn; [naive_solver|by rewrite IH| |by apply IH].
  rewrite IH by done. apply Permutation_middle.
Qed.

Lemma lfilter_ext {A} (f g : A -> bool) l :
  (forall x, x ∈ l -> f x = g x) -> List.filter f l = List.filter g l.
Proof.
  induction l as [|x l IH]; intros H; [done|]. cbn. rewrite (H x) by by left.
  rewrite IH; [done|]. intros y Hy. apply H. by right.
Qed.

Lemma elem_of_list_update {A} (i : nat) (x y : A) (l : list A) :
  y ∈ <[i := x]> l -> y = x \/ y ∈ l.
Proof.
  revert i. induction l as [|z l IH]; intros [|i]; cbn; rewrite ?elem_of_cons; [naive_solver..|].
  intros [->|H]; [auto|]. apply IH in H. tauto.
Qed.

Lemma NoDup_list_update {A} (i : nat) (x : A) (l : list A) : NoDup l -> x ∉ l -> NoDup (<[i := x]> l).
Proof.
  intros Hl. revert i. induction Hl as [|y l Hy Hl IH]; intros [|i] Hx; cbn; [constructor..| |].
  - constructor; [|done]. intros H. apply Hx. by right.
  - apply not_elem_of_cons in Hx as [Hxy Hx]. constructor; [|by apply IH].
    intros [->|H]%elem_of_list_update; [|done]. done.
Qed.

(** What an update at another place leaves. *)
Lemma elem_of_list_update_ne {A} (i j : nat) (x y : A) (l : list A) :
  l !! j = Some y -> j <> i -> y ∈ <[i := x]> l.
Proof.
  intros Hj Hne. apply list_elem_of_lookup. exists j. by rewrite list_lookup_insert_ne.
Qed.

Lemma existsb_elem {A} (f : A -> bool) l : existsb f l = true <-> exists x, x ∈ l /\ f x = true.
Proof.
  rewrite List.existsb_exists. split; intros (x & Hx & ?); exists x; by rewrite list_elem_of_In in *.
Qed.

Lemma existsb_none {A} (f : A -> bool) l : existsb f l = false <-> forall x, x ∈ l -> f x = false.
Proof.
  rewrite <-not_true_iff_false, existsb_elem. split.
  - intros H x Hx. apply not_true_iff_false. intros ?. apply H. eauto.
  - intros H (x & Hx & Hf). rewrite H in Hf; done.
Qed.

Lemma find_elem {A} (f : A -> bool) l x : List.find f l = Some x -> x ∈ l /\ f x = true.
Proof. intros [H1 H2]%List.find_some. by rewrite list_elem_of_In. Qed.

Lemma find_exists {A} (f : A -> bool) l : (exists x, x ∈ l /\ f x = true) -> is_Some (List.find f l).
Proof.
  intros (x & Hx & Hf). destruct (List.find f l) eqn:E; [by eexists|].
  apply list_elem_of_In in Hx. apply (List.find_none _ _ E) in Hx. congruence.
Qed.

Lemma filter_length {A} (f : A -> bool) l : (length (List.filter f l) <= length l)%nat.
Proof. induction l as [|x l IH]; [done|]. cbn. destruct (f x); cbn; lia. Qed.

Lemma NoDup_map_inj {A B} (f : A -> B) l x y :
  NoDup (map f l) -> x ∈ l -> y ∈ l -> f x = f y -> x = y.
Proof.
  induction l as [|z l IH]; [by intros _ ?%elem_of_nil|]. cbn. intros [Hz Hnd]%NoDup_cons.
  assert (forall x, x ∈ l -> f x <> f z) as Hne.
  { intros w Hw E. apply Hz. rewrite <-E. by apply list_elem_of_fmap_2. }
  intros [->|Hx]%elem_of_cons [->|Hy]%elem_of_cons E; [done|exfalso; by eapply Hne|exfalso; by eapply Hne|auto].
Qed.
