(* ===== verification/Wire.v ===== *)
(** * The SHiP wire codec

    Models [src/src/ship/mod.rs] (the value types [BlockPos] and [Range]) and
    [src/src/ship/wire.rs] (the codec).  A byte is a [Z] in [0, 255], a message
    a list of bytes.  [Reader], the bounds-checked cursor, is a state-and-error
    monad; every decoder below is the code's sequence of reads in that monad.

    The theorems: every encoder is inverted by its decoder whatever bytes
    follow, every strict prefix of an encoding is refused, a decoded varuint is
    the LEB128 value of the bytes it consumed, and the two in-place edits of an
    upstream frame change the fields they name and nothing else. *)

From S2P Require Import Prelude.

(** ** Value types ([ship/mod.rs]) *)

Record BlockPos := mkPos { num : Z; block_id : list Z }.

Record Range := mkRange { rbegin : Z; rend : Z }.

Definition range_is_empty (r : Range) : bool := rend r <=? rbegin r.

Definition range_contains (r : Range) (n : Z) : bool :=
  (rbegin r <=? n) && (n <? rend r).

#[export] Instance BlockPos_eq_dec : EqDecision BlockPos.
Proof. solve_decision. Defined.
#[export] Instance Range_eq_dec : EqDecision Range.
Proof. solve_decision. Defined.

(** ** Constants *)

Definition REQ_STATUS_V0 : Z := 0.
Definition REQ_BLOCKS_V0 : Z := 1.
Definition REQ_ACK : Z := 2.
Definition REQ_BLOCKS_V1 : Z := 3.
Definition REQ_STATUS_V1 : Z := 4.

Definition RES_STATUS_V0 : Z := 0.
Definition RES_BLOCKS_V0 : Z := 1.
Definition RES_BLOCKS_V1 : Z := 2.
Definition RES_STATUS_V1 : Z := 3.

Definition POS_LEN : Z := 36.
Definition HEAD_LIB_END : Z := 1 + 2 * POS_LEN.
Definition STATUS_V0_LEN : Z := 121.
Definition STATUS_V0_MIN_LEN : Z := STATUS_V0_LEN - 32.
Definition STATUS_V1_LEN : Z := 129.
Definition MAX_POSITIONS : Z := 1024 * 1024.

(** ** Messages *)

Record BlocksRequest := mkBlocksRequest {
  br_v1 : bool;
  br_start : Z;
  br_end : Z;
  max_in_flight : Z;
  have_positions : list BlockPos;
  irreversible_only : bool;
  fetch_block : bool;
  fetch_traces : bool;
  fetch_deltas : bool;
  fetch_finality_data : bool;
}.

Inductive ClientMsg :=
| CStatus (v1 : bool)
| CBlocks (r : BlocksRequest)
| CAck (n : Z).

Inductive DecodeError :=
| Empty
| BadVarint
| Truncated
| BadBool (b : Z)
| UnknownVariant (i : Z)
| TooManyPositions (n : Z).

(** The fixed part of a [get_blocks_result_v0/v1], through [prev_block]. *)
Record ResultHead := mkResultHead {
  rh_v1 : bool;
  rh_head : BlockPos;
  rh_lib : BlockPos;
  this_block : option BlockPos;
  prev_block : option BlockPos;
  fields_at : Z;
}.

Inductive UpstreamMsg :=
| UStatus (v1 : bool)
| UBlocks (h : ResultHead)
| UOther.

Record Presence := mkPresence {
  p_block : bool;
  p_traces : bool;
  p_deltas : bool;
  p_finality : bool;
}.

Record StatusBody := mkStatusBody {
  sb_head : BlockPos;
  sb_lib : BlockPos;
  sb_trace : Range;
  sb_chain_state : Range;
  sb_finality : Range;
  sb_chain_id : list Z;
}.

(** Width of a [bytes?] length prefix. *)
Inductive LenWidth := LU32 | LU64.

(** ** The reader monad *)

Module Reader.

Record t := mk { buf : list Z; pos : Z }.

Definition M (A : Type) : Type := t -> result (A * t) DecodeError.

#[global] Instance M_ret : MRet M := fun A a r => Ok (a, r).
#[global] Instance M_bind : MBind M := fun A B k m r =>
  match m r with Ok (a, r') => k a r' | Err e => Err e end.
Definition throw {A} (e : DecodeError) : M A := fun _ => Err e.

Definition new (b : list Z) (p : Z) : t := mk b p.

(** Reading the [pos] field. *)
Definition position : M Z := fun r => Ok (pos r, r).

Definition remaining : M Z := fun r => Ok (sat_sub (zlen (buf r)) (pos r), r).

Definition take (n : Z) : M (list Z) := fun r =>
  match checked_add usize_max (pos r) n with
  | None => Err Truncated
  | Some e =>
      match slice_get (buf r) (pos r) e with
      | None => Err Truncated
      | Some bytes => Ok (bytes, mk (buf r) e)
      end
  end.

(** [take(N)?.try_into()]: the slice becomes an array when its length is [N]. *)
Definition array (n : Z) : M (list Z) :=
  bytes ← take n;
  if zlen bytes =? n then mret bytes else throw Truncated.

Definition u8 : M Z :=
  bytes ← array 1;
  match bytes with [byte] => mret byte | _ => throw Truncated end.

Definition u32 : M Z := bytes ← array 4; mret (from_le bytes).

Definition bool : M bool :=
  byte ← u8;
  if byte =? 0 then mret false
  else if byte =? 1 then mret true
  else throw (BadBool byte).

Definition block_pos : M BlockPos :=
  n ← u32; i ← array 32; mret (mkPos n i).

Definition optional_pos : M (option BlockPos) :=
  present ← bool;
  if present : Datatypes.bool then (p ← block_pos; mret (Some p)) else mret None.

(** [x << s] on a [w]-bit unsigned integer. *)
Definition shl (w x s : Z) : Z := Z.shiftl x s mod 2 ^ w.

(** The loop of [varuint32]/[varuint64]: the bytes at [shifts], then a last
    byte of at most [top] at [last_shift]. *)
Fixpoint varuint_loop (w top last_shift : Z) (shifts : list Z) (value : Z) : M Z :=
  match shifts with
  | [] =>
      last ← u8;
      if top <? last then throw BadVarint
      else mret (Z.lor value (shl w last last_shift))
  | shift :: shifts =>
      byte ← u8;
      let value := Z.lor value (shl w (Z.land byte 0x7f) shift) in
      if Z.land byte 0x80 =? 0 then mret value
      else varuint_loop w top last_shift shifts value
  end.

Definition varuint32 : M Z := varuint_loop 32 0x0f 28 [0; 7; 14; 21] 0.

Definition varuint64 : M Z :=
  varuint_loop 64 0x01 63 [0; 7; 14; 21; 28; 35; 42; 49; 56] 0.

Definition optional_bytes (width : LenWidth) : M Datatypes.bool :=
  present ← bool;
  if negb present then mret false
  else
    len ← match width with LU32 => varuint32 | LU64 => varuint64 end;
    (* [usize::try_from] *)
    if usize_max <? len then throw Truncated
    else _ ← take len; mret true.

End Reader.


(** ** Decoding client requests *)

(** The [have_positions] vector: the count is checked against the protocol
    bound and against the bytes left before anything is allocated. *)
Fixpoint block_positions (count : nat) : Reader.M (list BlockPos) :=
  match count with
  | O => mret []
  | S count => p ← Reader.block_pos; ps ← block_positions count; mret (p :: ps)
  end.

Definition positions_checked (count : Z) : Reader.M (list BlockPos) :=
  if MAX_POSITIONS <? count then Reader.throw (TooManyPositions count)
  else
    left ← Reader.remaining;
    if left / POS_LEN <? count then Reader.throw Truncated
    else block_positions (Z.to_nat count).

Definition decode_blocks_request (v1 : bool) : Reader.M BlocksRequest :=
  start ← Reader.u32;
  end_ ← Reader.u32;
  mif ← Reader.u32;
  count ← Reader.varuint32;
  ps ← positions_checked count;
  irr ← Reader.bool;
  fb ← Reader.bool;
  ft ← Reader.bool;
  fd ← Reader.bool;
  ff ← (if v1 then Reader.bool else mret false);
  mret (mkBlocksRequest v1 start end_ mif ps irr fb ft fd ff).

Definition decode_variant : Reader.M ClientMsg :=
  index ← Reader.varuint32;
  if index =? REQ_STATUS_V0 then mret (CStatus false)
  else if index =? REQ_BLOCKS_V0 then r ← decode_blocks_request false; mret (CBlocks r)
  else if index =? REQ_ACK then n ← Reader.u32; mret (CAck n)
  else if index =? REQ_BLOCKS_V1 then r ← decode_blocks_request true; mret (CBlocks r)
  else if index =? REQ_STATUS_V1 then mret (CStatus true)
  else Reader.throw (UnknownVariant index).

Definition decode_client (b : list Z) : result ClientMsg DecodeError :=
  match b with
  | [] => Err Empty
  | _ => rmap fst (decode_variant (Reader.new b 0))
  end.

(** ** Encoding *)

Definition put_u32 (out : list Z) (value : Z) : list Z := out ++ le_bytes 4 value.

Definition put_pos (out : list Z) (p : BlockPos) : list Z :=
  put_u32 out (num p) ++ block_id p.

(** The [loop] of [put_varuint32]; [value] loses seven bits per turn, so a
    [u32] is done within five. *)
Fixpoint put_varuint32_loop (fuel : nat) (out : list Z) (value : Z) : list Z :=
  match fuel with
  | O => out
  | S fuel =>
      let byte := Z.land value 0x7f in
      let value := Z.shiftr value 7 in
      if value =? 0 then out ++ [byte]
      else put_varuint32_loop fuel (out ++ [Z.lor byte 0x80]) value
  end.

Definition put_varuint32 (out : list Z) (value : Z) : list Z :=
  put_varuint32_loop 5 out value.

(** [u8::from(bool)]. *)
Definition u8_of_bool (b : bool) : Z := if b then 1 else 0.

(** [x as u32]: truncation. *)
Definition as_u32 (x : Z) : Z := x mod 2 ^ 32.

Definition encode_blocks_request (r : BlocksRequest) : list Z :=
  let out := put_varuint32 [] (if br_v1 r then REQ_BLOCKS_V1 else REQ_BLOCKS_V0) in
  let out := put_u32 out (br_start r) in
  let out := put_u32 out (br_end r) in
  let out := put_u32 out (max_in_flight r) in
  let out := put_varuint32 out (as_u32 (zlen (have_positions r))) in
  let out := foldl put_pos out (have_positions r) in
  let out := out ++ [u8_of_bool (irreversible_only r)] in
  let out := out ++ [u8_of_bool (fetch_block r)] in
  let out := out ++ [u8_of_bool (fetch_traces r)] in
  let out := out ++ [u8_of_bool (fetch_deltas r)] in
  if br_v1 r then out ++ [u8_of_bool (fetch_finality_data r)] else out.

Definition encode_ack (n : Z) : list Z := put_u32 (put_varuint32 [] REQ_ACK) n.

Definition encode_status_request (v1 : bool) : list Z :=
  put_varuint32 [] (if v1 then REQ_STATUS_V1 else REQ_STATUS_V0).

Definition encode_status (v1 : bool) (s : StatusBody) : list Z :=
  let out := [if v1 then RES_STATUS_V1 else RES_STATUS_V0] in
  let out := put_pos out (sb_head s) in
  let out := put_pos out (sb_lib s) in
  let out := put_u32 out (rbegin (sb_trace s)) in
  let out := put_u32 out (rend (sb_trace s)) in
  let out := put_u32 out (rbegin (sb_chain_state s)) in
  let out := put_u32 out (rend (sb_chain_state s)) in
  let out := out ++ sb_chain_id s in
  if v1 then put_u32 (put_u32 out (rbegin (sb_finality s))) (rend (sb_finality s))
  else out.

(** ** Upstream results *)

Definition decode_result_head_body : Reader.M ResultHead :=
  index ← Reader.u8;
  head ← Reader.block_pos;
  lib ← Reader.block_pos;
  this ← Reader.optional_pos;
  prev ← Reader.optional_pos;
  at_ ← Reader.position;
  mret (mkResultHead (index =? RES_BLOCKS_V1) head lib this prev at_).

Definition decode_result_head (b : list Z) : result ResultHead DecodeError :=
  rmap fst (decode_result_head_body (Reader.new b 0)).

Definition classify_upstream (b : list Z) : UpstreamMsg :=
  match b with
  | index :: _ =>
      if (index =? RES_STATUS_V0) && (STATUS_V0_MIN_LEN <=? zlen b) then UStatus false
      else if (index =? RES_STATUS_V1) && (STATUS_V1_LEN <=? zlen b) then UStatus true
      else if (index =? RES_BLOCKS_V0) || (index =? RES_BLOCKS_V1) then
        match decode_result_head b with Ok h => UBlocks h | Err _ => UOther end
      else UOther
  | [] => UOther
  end.

Definition presence_body (v1 : bool) : Reader.M Presence :=
  block ← Reader.optional_bytes LU32;
  traces ← Reader.optional_bytes LU64;
  deltas ← Reader.optional_bytes LU64;
  finality ← (if v1 then Reader.optional_bytes LU64 else mret false);
  mret (mkPresence block traces deltas finality).

Definition result_presence (b : list Z) (h : ResultHead) : result Presence DecodeError :=
  rmap fst (presence_body (rh_v1 h) (Reader.new b (fields_at h))).

Definition head_lib_body : Reader.M (BlockPos * BlockPos) :=
  head ← Reader.block_pos; lib ← Reader.block_pos; mret (head, lib).

Definition read_head_lib (frame : list Z) : option (BlockPos * BlockPos) :=
  match slice_get frame 0 HEAD_LIB_END with
  | None => None
  | Some b =>
      match head_lib_body (Reader.new b 1) with
      | Ok (hl, _) => Some hl
      | Err _ => None
      end
  end.

(** The two [copy_from_slice] calls on a 36-byte slot. *)
Definition write_pos (slot : list Z) (p : BlockPos) : list Z :=
  le_bytes 4 (num p) ++ block_id p ++ drop 36 slot.

(** [f(&mut buf[i..j])]: the slice is replaced, the rest of [buf] kept. *)
Definition update_slice (buf : list Z) (i j : nat) (f : list Z -> list Z) : list Z :=
  take i buf ++ f (take (j - i) (drop i buf)) ++ drop j buf.

Definition patch_head_lib (frame : list Z) (head lib : BlockPos) : list Z :=
  if zlen frame <? HEAD_LIB_END then frame
  else
    let buf := update_slice frame 1 37 (fun slot => write_pos slot head) in
    update_slice buf 37 73 (fun slot => write_pos slot lib).

Definition set_prev (h : ResultHead) (prev : BlockPos) : ResultHead :=
  mkResultHead (rh_v1 h) (rh_head h) (rh_lib h) (this_block h) (Some prev)
    (fields_at h + POS_LEN).

Definition insert_prev_block (frame : list Z) (h : ResultHead) (prev : BlockPos)
  : option (list Z * ResultHead) :=
  if is_none (this_block h) || is_some (prev_block h) then None
  else
    match checked_sub (fields_at h) 1 with
    | None => None
    | Some flag =>
        if negb (bool_decide (nth_get frame flag = Some 0)) then None
        else
          let out := take (Z.to_nat flag) frame ++ [1]
            ++ write_pos (repeat 0 36) prev
            ++ drop (Z.to_nat (fields_at h)) frame in
          Some (out, set_prev h prev)
    end.

(** ** Well-formedness: the ranges the Rust types enforce *)

Definition pos_ok (p : BlockPos) : Prop :=
  is_u32 (num p) /\ length (block_id p) = 32%nat /\ Forall is_u8 (block_id p).

Definition request_ok (r : BlocksRequest) : Prop :=
  is_u32 (br_start r) /\ is_u32 (br_end r) /\ is_u32 (max_in_flight r)
  /\ Forall pos_ok (have_positions r)
  /\ zlen (have_positions r) <= MAX_POSITIONS
  /\ (br_v1 r = false -> fetch_finality_data r = false).

(** A message the router can hold in memory. *)
Definition message_ok (b : list Z) : Prop := Forall is_u8 b /\ zlen b <= isize_max.

(** ** What a decoder does on a message

    [reads p xs a]: whatever surrounds them, [p] turns the bytes [xs] into [a]
    and stops after them, and [p] reports [Truncated] when the message ends
    inside [xs]. *)
Definition reads {A} (p : Reader.M A) (xs : list Z) (a : A) : Prop :=
  (forall pre post, zlen (pre ++ xs ++ post) <= isize_max ->
     p (Reader.mk (pre ++ xs ++ post) (zlen pre))
     = Ok (a, Reader.mk (pre ++ xs ++ post) (zlen pre + zlen xs)))
  /\ (forall pre cut z zs, xs = cut ++ z :: zs -> zlen (pre ++ cut) <= isize_max ->
     p (Reader.mk (pre ++ cut) (zlen pre)) = Err Truncated).

(** [consumes p]: whatever [p] accepts, it accepts because of a segment it
    [reads]. *)
Definition consumes {A} (p : Reader.M A) : Prop :=
  forall pre rest a r,
    zlen (pre ++ rest) <= isize_max ->
    p (Reader.mk (pre ++ rest) (zlen pre)) = Ok (a, r) ->
    exists xs post, rest = xs ++ post
      /\ r = Reader.mk (pre ++ rest) (zlen pre + zlen xs)
      /\ reads p xs a.

(** [relocatable p]: the outcome of [p] depends on the bytes from the cursor
    on only, errors included. *)
Definition relocatable {A} (p : Reader.M A) : Prop :=
  forall pre pre' rest,
    zlen (pre ++ rest) <= isize_max -> zlen (pre' ++ rest) <= isize_max ->
    match p (Reader.mk (pre ++ rest) (zlen pre)) with
    | Ok (a, r) => exists xs post, rest = xs ++ post
        /\ r = Reader.mk (pre ++ rest) (zlen pre + zlen xs)
        /\ p (Reader.mk (pre' ++ rest) (zlen pre'))
           = Ok (a, Reader.mk (pre' ++ rest) (zlen pre' + zlen xs))
    | Err e => p (Reader.mk (pre' ++ rest) (zlen pre')) = Err e
    end.

(** The reference reading of LEB128: seven bits a byte, least significant
    first; every byte but the last has its top bit set. *)
Fixpoint leb_value (xs : list Z) : Z :=
  match xs with [] => 0 | b :: xs => b mod 128 + 128 * leb_value xs end.
Fixpoint leb_shape (xs : list Z) : Prop :=
  match xs with
  | [] => False
  | [b] => b < 128
  | b :: xs => 128 <= b /\ leb_shape xs
  end.

Create HintDb wire.

Ltac zlens := rewrite ?length_app in *; cbn [length] in *; rewrite ?length_app in *.

(** *** Closure of the three predicates *)

Lemma reads_ret {A} (a : A) : reads (mret a) [] a.
Proof.
  split.
  - intros pre post _. cbn. by rewrite Z.add_0_r.
  - intros pre cut z zs Hz. by destruct cut.
Qed.

Lemma reads_bind {A B} (p : Reader.M A) (k : A -> Reader.M B) xs ys a b :
  reads p xs a -> reads (k a) ys b -> reads (p ≫= k) (xs ++ ys) b.
Proof.
  intros [Hp Hp'] [Hk Hk']. split.
  - intros pre post Hl. unfold mbind, Reader.M_bind.
    rewrite <-app_assoc, Hp by (zlens; lia).
    specialize (Hk (pre ++ xs) post). rewrite <-!app_assoc in Hk.
    replace (zlen (pre ++ xs)) with (zlen pre + zlen xs) in Hk by (zlens; lia).
    rewrite Hk by (zlens; lia). do 2 f_equal. f_equal. zlens; lia.
  - intros pre cut z zs Hcut Hl. unfold mbind, Reader.M_bind.
    apply app_eq_inv in Hcut as [(k0 & -> & Hk0)|(k0 & -> & Hk0)].
    + destruct k0 as [|z' k0].
      * (* the cut is exactly at the end of [xs] *)
        cbn in Hk0. rewrite app_nil_r in *.
        specialize (Hp pre []). rewrite app_nil_r in Hp. rewrite Hp by (zlens; lia).
        specialize (Hk' (pre ++ cut) [] z zs). rewrite app_nil_r in Hk'.
        replace (zlen pre + zlen cut) with (zlen (pre ++ cut)) by (zlens; lia).
        apply Hk'; [by subst|done].
      * by rewrite (Hp' pre cut z' k0).
    + rewrite app_assoc. specialize (Hp pre k0). rewrite app_assoc in Hp.
      rewrite Hp by (zlens; lia).
      replace (zlen pre + zlen xs) with (zlen (pre ++ xs)) by (zlens; lia).
      apply (Hk' (pre ++ xs) k0 z zs); [by subst|zlens; lia].
Qed.

Lemma reads_bind_nil {A B} (p : Reader.M A) (k : A -> Reader.M B) xs a b :
  reads p xs a -> reads (k a) [] b -> reads (p ≫= k) xs b.
Proof. intros. rewrite <-(app_nil_r xs). by apply reads_bind with a. Qed.

Lemma consumes_ret {A} (a : A) : consumes (mret a).
Proof.
  intros pre rest a' r Hl [= -> <-]. exists [], rest. split_and!; [done| |apply reads_ret].
  cbn. by rewrite Z.add_0_r.
Qed.

Lemma consumes_throw {A} e : consumes (Reader.throw e : Reader.M A).
Proof. intros pre rest a' r Hl [=]. Qed.

Lemma consumes_bind {A B} (p : Reader.M A) (k : A -> Reader.M B) :
  consumes p -> (forall a, consumes (k a)) -> consumes (p ≫= k).
Proof.
  intros Hp Hk pre rest b r Hl. unfold mbind, Reader.M_bind.
  destruct (p _) as [[a r1]|] eqn:E; [|done]. intros Hr.
  destruct (Hp _ _ _ _ Hl E) as (xs & rest' & -> & -> & Hreads).
  replace (zlen pre + zlen xs) with (zlen (pre ++ xs)) in Hr by (zlens; lia).
  rewrite app_assoc in Hr.
  apply Hk in Hr as (ys & post & -> & -> & Hreads'); [|by rewrite <-app_assoc].
  exists (xs ++ ys), post. split_and!.
  - by rewrite app_assoc.
  - rewrite !app_assoc. f_equal. zlens; lia.
  - by apply reads_bind with a.
Qed.

Lemma relocatable_ret {A} (a : A) : relocatable (mret a).
Proof.
  intros pre pre' rest Hl Hl'. cbn. exists [], rest.
  by rewrite !Z.add_0_r.
Qed.

Lemma relocatable_throw {A} e : relocatable (Reader.throw e : Reader.M A).
Proof. by intros pre pre' rest Hl Hl'. Qed.

Lemma relocatable_bind {A B} (p : Reader.M A) (k : A -> Reader.M B) :
  relocatable p -> (forall a, relocatable (k a)) -> relocatable (p ≫= k).
Proof.
  intros Hp Hk pre pre' rest Hl Hl'. unfold mbind, Reader.M_bind.
  specialize (Hp pre pre' rest Hl Hl').
  destruct (p (Reader.mk (pre ++ rest) _)) as [[a r]|e]; [|by rewrite Hp].
  destruct Hp as (xs & post & -> & -> & ->).
  specialize (Hk a (pre ++ xs) (pre' ++ xs) post).
  rewrite <-!app_assoc in Hk. specialize (Hk Hl Hl').
  replace (zlen (pre ++ xs)) with (zlen pre + zlen xs) in Hk by (zlens; lia).
  replace (zlen (pre' ++ xs)) with (zlen pre' + zlen xs) in Hk by (zlens; lia).
  destruct (k a _) as [[b r]|e]; [|done].
  destruct Hk as (ys & post' & -> & -> & ->).
  exists (xs ++ ys), post'. rewrite (length_app xs ys), Nat2Z.inj_add, !Z.add_assoc.
  by rewrite app_assoc.
Qed.

#[export] Hint Resolve reads_ret consumes_ret consumes_throw consumes_bind
  relocatable_ret relocatable_throw relocatable_bind : wire.

(** *** Primitive reads *)

Lemma take_ok pre xs post n :
  zlen xs = n -> zlen (pre ++ xs ++ post) <= isize_max ->
  Reader.take n (Reader.mk (pre ++ xs ++ post) (zlen pre))
  = Ok (xs, Reader.mk (pre ++ xs ++ post) (zlen pre + zlen xs)).
Proof.
  intros <- Hl. unfold Reader.take, checked_add. cbn [Reader.pos Reader.buf].
  rewrite (proj2 (Z.leb_le _ _)) by (zlens; mlia).
  rewrite slice_get_some by (zlens; lia).
  rewrite Nat2Z.id, drop_app_length.
  replace (Z.to_nat _) with (length xs) by lia. by rewrite take_app_length.
Qed.

Lemma take_short pre rest n :
  zlen rest < n -> Reader.take n (Reader.mk (pre ++ rest) (zlen pre)) = Err Truncated.
Proof.
  intros Hn. unfold Reader.take. cbn [Reader.pos Reader.buf].
  destruct (checked_add _ _ _) as [e|] eqn:E; [|done].
  unfold checked_add in E. destruct (_ <=? _); simplify_eq.
  rewrite slice_get_none; [done|]. zlens; lia.
Qed.

Lemma reads_take n xs : zlen xs = n -> reads (Reader.take n) xs xs.
Proof.
  intros Hn. split.
  - intros. by apply take_ok.
  - intros pre cut z zs -> Hl. apply take_short. zlens; lia.
Qed.

(** A [take] either finds its bytes or reports [Truncated]. *)
Lemma take_cases n (pre rest : list Z) :
  0 <= n -> zlen (pre ++ rest) <= isize_max ->
  (exists xs post, rest = xs ++ post /\ zlen xs = n) \/ zlen rest < n.
Proof.
  intros Hn Hl. destruct (decide (zlen rest < n)) as [|Hge]; [by right|left].
  exists (take (Z.to_nat n) rest), (drop (Z.to_nat n) rest).
  split; [by rewrite take_drop|rewrite length_take; lia].
Qed.

Lemma consumes_take n : 0 <= n -> consumes (Reader.take n).
Proof.
  intros Hn pre rest a r Hl.
  destruct (take_cases n pre rest Hn Hl) as [(xs & post & -> & Hxs)|Hs].
  - rewrite take_ok by done. intros [= <- <-]. exists xs, post. by eauto using reads_take.
  - by rewrite take_short.
Qed.

Lemma relocatable_take n : 0 <= n -> relocatable (Reader.take n).
Proof.
  intros Hn pre pre' rest Hl Hl'.
  destruct (take_cases n pre rest Hn Hl) as [(xs & post & -> & Hxs)|Hs].
  - rewrite !take_ok by done. eauto.
  - by rewrite !take_short.
Qed.

Lemma reads_array n xs : zlen xs = n -> reads (Reader.array n) xs xs.
Proof.
  intros Hn. eapply reads_bind_nil; [by apply reads_take|]. cbn.
  rewrite (proj2 (Z.eqb_eq _ _)) by done. apply reads_ret.
Qed.

Lemma reads_u8 b : reads Reader.u8 [b] b.
Proof. eapply reads_bind_nil; [by apply reads_array|apply reads_ret]. Qed.

Lemma reads_u32 v : is_u32 v -> reads Reader.u32 (le_bytes 4 v) v.
Proof.
  intros Hv. eapply reads_bind_nil; [by apply reads_array|].
  rewrite from_le_bytes by (cbn; mlia). apply reads_ret.
Qed.

Lemma reads_bool b : reads Reader.bool [u8_of_bool b] b.
Proof. eapply reads_bind_nil; [apply reads_u8|]. destruct b; apply reads_ret. Qed.

Lemma reads_block_pos p : pos_ok p -> reads Reader.block_pos (le_bytes 4 (num p) ++ block_id p) p.
Proof.
  intros (Hn & Hi & _). eapply reads_bind; [by apply reads_u32|].
  eapply reads_bind_nil; [apply reads_array; lia|]. destruct p. apply reads_ret.
Qed.

Lemma consumes_array n : 0 <= n -> consumes (Reader.array n).
Proof.
  intros Hn. apply consumes_bind; [by apply consumes_take|].
  intros a. destruct (_ =? _); auto with wire.
Qed.
Lemma relocatable_array n : 0 <= n -> relocatable (Reader.array n).
Proof.
  intros Hn. apply relocatable_bind; [by apply relocatable_take|].
  intros a. destruct (_ =? _); auto with wire.
Qed.

Ltac wire_auto :=
  repeat first
    [ progress intros
    | apply consumes_bind | apply relocatable_bind
    | apply consumes_ret | apply relocatable_ret
    | apply consumes_throw | apply relocatable_throw
    | (apply consumes_array || apply relocatable_array
       || apply consumes_take || apply relocatable_take); lia
    | solve [auto with wire]
    | case_match ].

Lemma consumes_u8 : consumes Reader.u8.
Proof. unfold Reader.u8. wire_auto. Qed.
Lemma relocatable_u8 : relocatable Reader.u8.
Proof. unfold Reader.u8. wire_auto. Qed.
#[export] Hint Resolve consumes_u8 relocatable_u8 : wire.

Lemma consumes_u32 : consumes Reader.u32.
Proof. unfold Reader.u32. wire_auto. Qed.
Lemma consumes_bool : consumes Reader.bool.
Proof. unfold Reader.bool. wire_auto. Qed.
Lemma relocatable_bool : relocatable Reader.bool.
Proof. unfold Reader.bool. wire_auto. Qed.
#[export] Hint Resolve consumes_u32 consumes_bool relocatable_bool : wire.

Lemma consumes_block_pos : consumes Reader.block_pos.
Proof. unfold Reader.block_pos. wire_auto. Qed.
#[export] Hint Resolve consumes_block_pos : wire.
Lemma consumes_optional_pos : consumes Reader.optional_pos.
Proof. unfold Reader.optional_pos. wire_auto. Qed.
#[export] Hint Resolve consumes_optional_pos : wire.

Lemma relocatable_varuint_loop w top ls shifts value :
  relocatable (Reader.varuint_loop w top ls shifts value).
Proof. revert value. induction shifts as [|s shifts IH]; intros value; cbn; wire_auto. Qed.
#[export] Hint Resolve relocatable_varuint_loop : wire.


(** *** Varuints *)

Lemma lor_shiftl_add v x s : 0 <= s -> 0 <= v < 2 ^ s -> Z.lor v (Z.shiftl x s) = v + x * 2 ^ s.
Proof.
  intros Hs Hv. rewrite <-Z.shiftl_mul_pow2 by done. symmetry. apply Z.add_nocarry_lor.
  apply Z.bits_inj'. intros n Hn. rewrite Z.land_spec, Z.shiftl_spec, Z.bits_0 by done.
  destruct (decide (n < s)).
  - rewrite (Z.testbit_neg_r x) by lia. by rewrite andb_false_r.
  - assert (Z.testbit v n = false) as ->; [|done].
    destruct (decide (v = 0)) as [->|]; [by rewrite Z.bits_0|].
    apply Z.bits_above_log2; [lia|].
    assert (Z.log2 v < s) by (apply Z.log2_lt_pow2; lia). lia.
Qed.

Lemma lor_shl w v x s :
  0 <= s -> 0 <= v < 2 ^ s -> 0 <= x -> x * 2 ^ s < 2 ^ w ->
  Z.lor v (Reader.shl w x s) = v + x * 2 ^ s.
Proof.
  intros Hs Hv Hx Hw. unfold Reader.shl. rewrite Z.mod_small.
  - by apply lor_shiftl_add.
  - rewrite Z.shiftl_mul_pow2 by done. split; [|done].
    apply Z.mul_nonneg_nonneg; [done|apply Z.pow_nonneg; lia].
Qed.

Lemma land_7f b : Z.land b 0x7f = b mod 128.
Proof. change 0x7f with (Z.ones 7). by rewrite Z.land_ones. Qed.

(** A statement about a byte is checked on the 256 of them. *)
Lemma byte_forall (P : Z -> bool) :
  forallb P (seqZ 0 256) = true -> forall b, is_u8 b -> P b = true.
Proof.
  intros H b Hb. rewrite forallb_forall in H. apply H, list_elem_of_In, elem_of_seqZ. mlia.
Qed.

Lemma land_80 b : is_u8 b -> (Z.land b 0x80 =? 0) = (b <? 128).
Proof.
  intros Hb. apply eqb_prop.
  by apply (byte_forall (fun b => eqb (Z.land b 0x80 =? 0) (b <? 128))).
Qed.

Fixpoint steps (s : Z) (shifts : list Z) (ls : Z) : Prop :=
  match shifts with [] => s = ls | x :: r => x = s /\ steps (s + 7) r ls end.

Lemma steps_le s shifts ls : steps s shifts ls -> s <= ls.
Proof.
  revert s. induction shifts as [|x r IH]; cbn; intros s; [lia|].
  intros [_ H%IH]. lia.
Qed.

Lemma leb_value_nonneg xs : 0 <= leb_value xs.
Proof.
  induction xs as [|b xs IH]; cbn [leb_value]; [lia|].
  pose proof (Z.mod_pos_bound b 128). lia.
Qed.

Section varuint.
Context (w ls : Z) (Hls : 0 <= ls < w) (Hw : w - ls <= 7).
#[local] Abbreviation loop := (Reader.varuint_loop w (2 ^ (w - ls) - 1) ls).

Lemma pow_split s : 0 <= s <= ls -> 2 ^ w = 2 ^ s * 2 ^ (w - s).
Proof. intros. rewrite <-Z.pow_add_r by lia. f_equal. lia. Qed.

(** One turn of the loop adds seven bits. *)
Lemma varuint_turn s value b :
  0 <= s -> s + 7 <= ls -> 0 <= value < 2 ^ s ->
  Z.lor value (Reader.shl w (Z.land b 0x7f) s) = value + b mod 128 * 2 ^ s
  /\ 0 <= value + b mod 128 * 2 ^ s < 2 ^ (s + 7).
Proof.
  intros Hs Hle Hv. rewrite land_7f. pose proof (Z.mod_pos_bound b 128 eq_refl).
  assert (2 ^ (s + 7) = 128 * 2 ^ s) as Hp by (rewrite Z.pow_add_r by lia; lia).
  assert (2 ^ (s + 7) <= 2 ^ w) by (apply Z.pow_le_mono_r; lia).
  split; [apply lor_shl; nia|nia].
Qed.

Lemma leb_value_step b xs s :
  0 <= s -> s + 7 <= w ->
  b mod 128 + 128 * leb_value xs < 2 ^ (w - s) <-> leb_value xs < 2 ^ (w - (s + 7)).
Proof.
  intros Hs Hle. pose proof (Z.mod_pos_bound b 128 eq_refl).
  assert (2 ^ (w - s) = 128 * 2 ^ (w - (s + 7))) as ->.
  { replace (w - s) with (w - (s + 7) + 7) by lia. rewrite Z.pow_add_r by lia. lia. }
  lia.
Qed.

Lemma varuint_last s value b :
  s = ls -> 0 <= value < 2 ^ s -> 0 <= b ->
  b < 2 ^ (w - s) -> Z.lor value (Reader.shl w b ls) = value + b * 2 ^ s.
Proof.
  intros -> Hv Hb Hlt. apply lor_shl; try lia.
  rewrite (pow_split ls) by lia. nia.
Qed.

Lemma top_lt_128 : 2 ^ (w - ls) <= 128.
Proof. change 128 with (2 ^ 7). apply Z.pow_le_mono_r; lia. Qed.

Lemma reads_varuint_loop shifts s value xs :
  steps s shifts ls -> 0 <= s -> 0 <= value < 2 ^ s ->
  Forall is_u8 xs -> leb_shape xs -> (length xs <= S (length shifts))%nat ->
  leb_value xs < 2 ^ (w - s) ->
  reads (loop shifts value) xs (value + leb_value xs * 2 ^ s).
Proof.
  revert s value xs. induction shifts as [|x shifts IH]; cbn [steps Reader.varuint_loop];
    intros s value xs Hsteps Hs Hv Hu Hshape Hlen Hlt; destruct xs as [|b xs]; try done;
    inversion Hu as [|? ? Hb Hu']; subst.
  - destruct xs; [|cbn in Hlen; lia]. cbn in Hshape, Hlt |- *.
    rewrite Z.mod_small, Z.add_0_r in * by mlia.
    eapply reads_bind_nil; [apply reads_u8|]. cbn.
    rewrite (proj2 (Z.ltb_ge _ _)) by lia.
    rewrite (varuint_last ls) by (try done; mlia). apply reads_ret.
  - destruct Hsteps as [-> Hsteps]. pose proof (steps_le _ _ _ Hsteps).
    destruct (varuint_turn s value b) as [Ht Hr]; try lia.
    change (b :: xs) with ([b] ++ xs) at 1. eapply reads_bind; [apply reads_u8|].
    cbn [leb_value] in Hlt |- *. rewrite Ht, land_80 by done.
    assert (2 ^ (s + 7) = 128 * 2 ^ s) as Hp by (rewrite Z.pow_add_r by lia; lia).
    destruct xs as [|b' xs].
    + cbn in Hshape |- *. rewrite (proj2 (Z.ltb_lt _ _)) by done.
      rewrite Z.add_0_r. apply reads_ret.
    + destruct Hshape as [Hc Hshape]. rewrite (proj2 (Z.ltb_ge _ _)) by done.
      apply leb_value_step in Hlt; [|lia..].
      cbn [length] in Hlen. specialize (IH _ _ (b' :: xs) Hsteps ltac:(lia) Hr Hu' Hshape).
      replace (value + (b mod 128 + 128 * leb_value (b' :: xs)) * 2 ^ s)
        with (value + b mod 128 * 2 ^ s + leb_value (b' :: xs) * 2 ^ (s + 7))
        by (rewrite Hp; ring).
      apply IH; [cbn; lia|done].
Qed.

(** Conversely, what the loop accepts has the shape and the value of LEB128. *)
Lemma varuint_loop_inv shifts s value pre xs v :
  steps s shifts ls -> 0 <= s -> 0 <= value < 2 ^ s -> Forall is_u8 xs ->
  zlen (pre ++ xs) <= isize_max ->
  loop shifts value (Reader.mk (pre ++ xs) (zlen pre))
  = Ok (v, Reader.mk (pre ++ xs) (zlen pre + zlen xs)) ->
  leb_shape xs /\ (length xs <= S (length shifts))%nat
  /\ leb_value xs < 2 ^ (w - s) /\ v = value + leb_value xs * 2 ^ s.
Proof.
  revert s value pre xs. induction shifts as [|x shifts IH];
    cbn [steps Reader.varuint_loop]; intros s value pre xs Hsteps Hs Hv Hu Hl;
    unfold mbind, Reader.M_bind; pose proof top_lt_128;
    (destruct xs as [|b xs];
      [by rewrite (proj2 (reads_u8 0) pre [] 0 []) by (zlens; done)|]);
    inversion Hu as [|? ? Hb Hu']; subst;
    change (b :: xs) with ([b] ++ xs) in Hl |- *; rewrite (proj1 (reads_u8 b) pre xs) by done.
  - destruct (_ <? b) eqn:E; [done|]. bools. unfold mret, Reader.M_ret.
    intros [= <- Hlen]. zlens. destruct xs; [|cbn in Hlen; lia]. cbn.
    rewrite Z.mod_small, Z.add_0_r by mlia.
    rewrite (varuint_last ls) by (try done; mlia). split_and!; [lia|lia|lia|done].
  - destruct Hsteps as [-> Hsteps]. pose proof (steps_le _ _ _ Hsteps).
    destruct (varuint_turn s value b) as [Ht Hr]; try lia.
    rewrite Ht, land_80 by done.
    assert (2 ^ (s + 7) = 128 * 2 ^ s) as Hp by (rewrite Z.pow_add_r by lia; lia).
    assert (128 <= 2 ^ (w - s)).
    { change 128 with (2 ^ 7). apply Z.pow_le_mono_r; lia. }
    destruct (b <? 128) eqn:E; bools.
    + unfold mret, Reader.M_ret. intros [= <- Hlen]. zlens.
      destruct xs; [|cbn in Hlen; lia]. cbn. rewrite Z.add_0_r.
      pose proof (Z.mod_pos_bound b 128 eq_refl). split_and!; [lia|lia|lia|done].
    + intros Hrun. rewrite app_assoc in Hrun.
      replace (zlen pre + zlen [b]) with (zlen (pre ++ [b])) in Hrun by (zlens; lia).
      replace (zlen pre + zlen ([b] ++ xs)) with (zlen (pre ++ [b]) + zlen xs) in Hrun
        by (zlens; lia).
      apply (IH (s + 7)) in Hrun as (Hsh & Hlen & Hlt & ->); try done; try lia;
        [|by rewrite <-app_assoc].
      cbn [app leb_value length]. split_and!; [by destruct xs|lia| |rewrite Hp; ring].
      apply leb_value_step; [lia..|done].
Qed.

End varuint.

(** LEB128 bytes of at most [k] groups and of value [v]. *)
Definition leb_encodes (k : nat) (max : Z) (xs : list Z) (v : Z) : Prop :=
  leb_shape xs /\ (length xs <= k)%nat /\ leb_value xs <= max /\ v = leb_value xs.

Lemma reads_varuint32 xs v :
  Forall is_u8 xs -> leb_encodes 5 u32_max xs v -> reads Reader.varuint32 xs v.
Proof.
  intros Hu (Hs & Hl & Hv & ->).
  pose proof (reads_varuint_loop 32 28 ltac:(lia) ltac:(lia) [0; 7; 14; 21] 0 0 xs) as H.
  cbn [Z.add] in H. rewrite Z.pow_0_r, Z.mul_1_r in H. apply H; try done.
  change (2 ^ (32 - 0)) with 4294967296. mlia.
Qed.

Lemma leb_encodes_reads32 xs v :
  message_ok xs -> reads Reader.varuint32 xs v -> leb_encodes 5 u32_max xs v.
Proof.
  intros [Hu Hl] [Hr _]. specialize (Hr [] []). cbn in Hr. rewrite app_nil_r in Hr.
  pose proof (varuint_loop_inv 32 28 ltac:(lia) ltac:(lia) [0; 7; 14; 21] 0 0 [] xs v) as H.
  cbn [app length Z.of_nat] in H. rewrite Z.add_0_l in H.
  destruct H as (Hs & Hlen & Hlt & Hv); try done; [by apply Hr|].
  rewrite Z.pow_0_r, Z.mul_1_r in Hv. change (2 ^ (32 - 0)) with 4294967296 in Hlt.
  unfold leb_encodes. cbn in Hlen. split_and!; [done|lia|mlia|lia].
Qed.

Lemma put_varuint32_loop_spec fuel out v :
  0 <= v < 128 ^ Z.of_nat fuel -> (0 < fuel)%nat ->
  exists xs, put_varuint32_loop fuel out v = out ++ xs /\ Forall is_u8 xs
    /\ leb_encodes fuel v xs v.
Proof.
  unfold leb_encodes.
  revert out v. induction fuel as [|fuel IH]; intros out v Hv Hf; [lia|].
  cbn [put_varuint32_loop]. rewrite land_7f, Z.shiftr_div_pow2 by lia.
  change (2 ^ 7) with 128. pose proof (Z.mod_pos_bound v 128 eq_refl).
  pose proof (Z.div_mod v 128). destruct (v / 128 =? 0) eqn:E; bools.
  - exists [v mod 128]. cbn [leb_value leb_shape length]. rewrite Z.mod_mod by lia.
    split_and!; try lia; [done|]. repeat constructor; mlia.
  - rewrite Nat2Z.inj_succ, Z.pow_succ_r in Hv by lia.
    assert (0 <= v / 128 < 128 ^ Z.of_nat fuel).
    { split; [apply Z.div_pos; lia|apply Z.div_lt_upper_bound; lia]. }
    destruct fuel as [|fuel]; [cbn in *; lia|].
    destruct (IH (out ++ [Z.lor (v mod 128) 0x80]) (v / 128)) as (xs & -> & Hu & Hs & Hl & _ & Hval);
      [done|lia|].
    replace (Z.lor (v mod 128) 128) with (v mod 128 + 128)
      by (symmetry; apply (lor_shiftl_add (v mod 128) 1 7); lia).
    exists ((v mod 128 + 128) :: xs).
    assert ((v mod 128 + 128) mod 128 = v mod 128) as Hmod.
    { rewrite <-(Z.mul_1_l 128) at 2. rewrite Z.mod_add by lia. by apply Z.mod_mod. }
    cbn [leb_value length]. rewrite Hmod, <-Hval. split_and!; try lia.
    + by rewrite <-app_assoc.
    + constructor; [mlia|done].
    + destruct xs; [done|]. split; [lia|done].
Qed.

Lemma put_varuint32_spec out v :
  is_u32 v -> exists xs, put_varuint32 out v = out ++ xs /\ Forall is_u8 xs
    /\ (length xs <= 5)%nat /\ reads Reader.varuint32 xs v.
Proof.
  intros Hv. destruct (put_varuint32_loop_spec 5 out v) as (xs & Heq & Hu & Hleb).
  { change (128 ^ Z.of_nat 5) with 34359738368. mlia. }
  { lia. }
  exists xs. destruct Hleb as (Hs & Hl & Hle & Hval).
  split_and!; try done. apply reads_varuint32; [done|].
  unfold leb_encodes. split_and!; try done. mlia.
Qed.

(** *** The positions vector *)

Lemma pos_len p : pos_ok p -> zlen (le_bytes 4 (num p) ++ block_id p) = POS_LEN.
Proof. intros (_ & Hi & _). zlens. rewrite Hi. done. Qed.

Definition pos_bytes (p : BlockPos) : list Z := le_bytes 4 (num p) ++ block_id p.

Lemma put_pos_app out p : put_pos out p = out ++ pos_bytes p.
Proof. unfold put_pos, put_u32, pos_bytes. by rewrite app_assoc. Qed.

Lemma foldl_put_pos out ps : foldl put_pos out ps = out ++ concat (map pos_bytes ps).
Proof.
  revert out. induction ps as [|p ps IH]; intros out; cbn [foldl map concat].
  - by rewrite app_nil_r.
  - by rewrite IH, put_pos_app, app_assoc.
Qed.

Lemma length_positions ps :
  Forall pos_ok ps -> zlen (concat (map pos_bytes ps)) = POS_LEN * zlen ps.
Proof.
  induction 1 as [|p ps Hp _ IH]; [done|]. cbn [map concat length].
  apply pos_len in Hp. fold (pos_bytes p) in Hp. zlens. lia.
Qed.

Lemma reads_block_positions ps :
  Forall pos_ok ps -> reads (block_positions (length ps)) (concat (map pos_bytes ps)) ps.
Proof.
  induction 1 as [|p ps Hp _ IH]; cbn [block_positions length map concat]; [apply reads_ret|].
  eapply reads_bind; [by apply reads_block_pos|].
  eapply reads_bind_nil; [done|apply reads_ret].
Qed.

Lemma reads_positions_checked ps :
  Forall pos_ok ps -> zlen ps <= MAX_POSITIONS ->
  reads (positions_checked (zlen ps)) (concat (map pos_bytes ps)) ps.
Proof.
  intros Hps Hmax. pose proof (reads_block_positions ps Hps) as [Hr Ht].
  pose proof (length_positions ps Hps) as Hlen. unfold POS_LEN in *.
  unfold positions_checked. rewrite (proj2 (Z.ltb_ge _ _)) by lia.
  split.
  - intros pre post Hl.
    unfold mbind, Reader.M_bind, Reader.remaining. cbn [Reader.buf Reader.pos].
    rewrite (proj2 (Z.ltb_ge _ _)), Nat2Z.id by
      (apply Z.div_le_lower_bound; [done|]; unfold POS_LEN, sat_sub; zlens; lia).
    by apply Hr.
  - intros pre cut z zs Heq Hl.
    unfold mbind, Reader.M_bind, Reader.remaining. cbn [Reader.buf Reader.pos].
    assert (zlen cut < 36 * zlen ps) by (rewrite Heq in Hlen; zlens; lia).
    rewrite (proj2 (Z.ltb_lt _ _)); [done|].
    apply Z.div_lt_upper_bound; [done|]. unfold POS_LEN, sat_sub. zlens; lia.
Qed.

(** *** Client messages *)

(** The encoder of each client message. *)
Definition encode_client (m : ClientMsg) : list Z :=
  match m with
  | CStatus v1 => encode_status_request v1
  | CBlocks r => encode_blocks_request r
  | CAck n => encode_ack n
  end.

Definition client_msg_ok (m : ClientMsg) : Prop :=
  match m with CStatus _ => True | CBlocks r => request_ok r | CAck n => is_u32 n end.

Lemma reads_index i : 0 <= i < 128 -> reads Reader.varuint32 [i] i.
Proof.
  intros Hi. apply reads_varuint32; [repeat constructor; mlia|].
  unfold leb_encodes. cbn. rewrite Z.mod_small by lia. split_and!; mlia.
Qed.

Lemma reads_if_bool (v1 b : bool) :
  (v1 = false -> b = false) ->
  reads (if v1 then Reader.bool else mret false) (if v1 then [u8_of_bool b] else []) b.
Proof. intros H. destruct v1; [apply reads_bool|rewrite H by done; apply reads_ret]. Qed.

Lemma reads_blocks_body r vs :
  request_ok r -> reads Reader.varuint32 vs (zlen (have_positions r)) ->
  reads (decode_blocks_request (br_v1 r))
    (le_bytes 4 (br_start r) ++ le_bytes 4 (br_end r) ++ le_bytes 4 (max_in_flight r)
     ++ vs ++ concat (map pos_bytes (have_positions r))
     ++ [u8_of_bool (irreversible_only r)] ++ [u8_of_bool (fetch_block r)]
     ++ [u8_of_bool (fetch_traces r)] ++ [u8_of_bool (fetch_deltas r)]
     ++ (if br_v1 r then [u8_of_bool (fetch_finality_data r)] else [])) r.
Proof.
  intros (Hs & He & Hm & Hps & Hmax & Hf) Hvs. unfold decode_blocks_request.
  repeat first [eapply reads_bind; [by apply reads_u32|]
    | eapply reads_bind; [exact Hvs|]
    | eapply reads_bind; [by apply reads_positions_checked|]
    | eapply reads_bind; [apply reads_bool|]].
  eapply reads_bind_nil; [by apply reads_if_bool|]. destruct r. apply reads_ret.
Qed.

Lemma encode_blocks_request_flat r vs :
  zlen (have_positions r) <= MAX_POSITIONS ->
  (forall out, put_varuint32 out (zlen (have_positions r)) = out ++ vs) ->
  encode_blocks_request r
  = [if br_v1 r then 3 else 1] ++ le_bytes 4 (br_start r) ++ le_bytes 4 (br_end r)
    ++ le_bytes 4 (max_in_flight r) ++ vs ++ concat (map pos_bytes (have_positions r))
    ++ [u8_of_bool (irreversible_only r)] ++ [u8_of_bool (fetch_block r)]
    ++ [u8_of_bool (fetch_traces r)] ++ [u8_of_bool (fetch_deltas r)]
    ++ (if br_v1 r then [u8_of_bool (fetch_finality_data r)] else []).
Proof.
  intros Hmax Hvs. unfold encode_blocks_request.
  assert (as_u32 (zlen (have_positions r)) = zlen (have_positions r)) as ->.
  { apply Z.mod_small. unfold MAX_POSITIONS in Hmax. lia. }
  rewrite Hvs, foldl_put_pos. unfold put_u32. destruct (br_v1 r); by rewrite <-?app_assoc.
Qed.

Lemma put_varuint32_app v :
  is_u32 v -> exists vs, (forall out, put_varuint32 out v = out ++ vs)
    /\ reads Reader.varuint32 vs v /\ (0 < length vs)%nat.
Proof.
  intros Hv. destruct (put_varuint32_spec [] v Hv) as (vs & Heq & Hu & Hl & Hr).
  exists vs. split_and!; [|done|].
  - assert (forall fuel out w, put_varuint32_loop fuel out w = out ++ put_varuint32_loop fuel [] w)
      as Happ.
    { induction fuel as [|fuel IH]; intros out w; cbn [put_varuint32_loop];
        [by rewrite app_nil_r|]. destruct (_ =? 0); [done|].
      rewrite IH, (IH ([] ++ _)). by rewrite <-app_assoc. }
    intros out. unfold put_varuint32. rewrite Happ. f_equal. exact Heq.
  - destruct vs; [|cbn; lia]. by pose proof (proj1 Hr [] [] ltac:(done)).
Qed.

Lemma reads_variant m :
  client_msg_ok m -> reads decode_variant (encode_client m) m.
Proof.
  unfold decode_variant. destruct m as [v1|r|n]; cbn [client_msg_ok encode_client].
  - intros _. destruct v1;
      (eapply reads_bind_nil; [by apply reads_index|apply reads_ret]).
  - intros Hr. pose proof Hr as (_ & _ & _ & _ & Hmax & _). unfold MAX_POSITIONS in Hmax.
    destruct (put_varuint32_app (zlen (have_positions r))) as (vs & Happ & Hvs & _); [mlia|].
    rewrite (encode_blocks_request_flat r vs) by done.
    eapply reads_bind; [apply reads_index; destruct (br_v1 r); lia|].
    pose proof (reads_blocks_body r vs Hr Hvs) as Hb.
    destruct (br_v1 r); cbn [Z.eqb];
      (eapply reads_bind_nil; [exact Hb|apply reads_ret]).
  - intros Hn. change (encode_ack n) with ([2] ++ le_bytes 4 n).
    eapply reads_bind; [by apply reads_index|].
    eapply reads_bind_nil; [by apply reads_u32|apply reads_ret].
Qed.

Lemma decode_client_reads xs m :
  reads decode_variant xs m ->
  (forall post, xs <> [] -> zlen (xs ++ post) <= isize_max -> decode_client (xs ++ post) = Ok m)
  /\ (forall cut z zs, xs = cut ++ z :: zs -> zlen cut <= isize_max ->
      decode_client cut = Err (if decide (cut = []) then Empty else Truncated)).
Proof.
  intros [Hr Ht]. split.
  - intros post Hne Hl. specialize (Hr [] post Hl). cbn [app] in Hr.
    change (zlen []) with 0 in Hr. unfold decode_client.
    destruct (xs ++ post) eqn:E; [by destruct xs|]. unfold Reader.new. by rewrite Hr.
  - intros cut z zs Heq Hl. specialize (Ht [] cut z zs Heq Hl). cbn [app] in Ht.
    change (zlen []) with 0 in Ht.
    unfold decode_client. destruct cut; [done|]. unfold Reader.new. by rewrite Ht.
Qed.

(** *** What an accepted message satisfies *)

(** [yields b p P]: over the message [b], every value [p] returns satisfies [P]. *)
Definition yields {A} (b : list Z) (p : Reader.M A) (P : A -> Prop) : Prop :=
  forall pos a r, 0 <= pos <= zlen b -> p (Reader.mk b pos) = Ok (a, r) ->
    P a /\ Reader.buf r = b /\ 0 <= Reader.pos r <= zlen b.

Lemma yields_ret {A} b (a : A) (P : A -> Prop) : P a -> yields b (mret a) P.
Proof. intros HP pos a' r Hpos [= <- <-]. done. Qed.

Lemma yields_throw {A} b e (P : A -> Prop) : yields b (Reader.throw e) P.
Proof. intros pos a' r Hpos [=]. Qed.

Lemma yields_bind {A B} b (p : Reader.M A) (k : A -> Reader.M B) (P : A -> Prop) (Q : B -> Prop) :
  yields b p P -> (forall a, P a -> yields b (k a) Q) -> yields b (p ≫= k) Q.
Proof.
  intros Hp Hk pos c r Hpos. unfold mbind, Reader.M_bind.
  destruct (p _) as [[a r1]|] eqn:E; [|done]. intros Hr.
  destruct (Hp _ _ _ Hpos E) as (Ha & Hbuf & Hpos').
  destruct r1 as [b1 pos1]. cbn in *. subst b1. by apply (Hk a Ha pos1).
Qed.

Lemma yields_consumes {A} b (p : Reader.M A) :
  zlen b <= isize_max -> consumes p ->
  yields b p (fun a => exists pre xs post, b = pre ++ xs ++ post /\ reads p xs a).
Proof.
  intros Hl Hc pos a r Hpos Hr.
  assert (b = take (Z.to_nat pos) b ++ drop (Z.to_nat pos) b) as Hb by by rewrite take_drop.
  assert (pos = zlen (take (Z.to_nat pos) b)) as Hp by (rewrite length_take; lia).
  rewrite Hb in Hr at 1. rewrite Hp in Hr at 3.
  apply Hc in Hr as (xs & post & Hrest & -> & Hreads); [|by rewrite <-Hb].
  rewrite <-Hb. cbn [Reader.buf Reader.pos].
  rewrite Hrest in Hb. split_and!; [by eauto|done|lia|].
  rewrite Hb at 2. zlens; lia.
Qed.

Lemma consumes_varuint_loop w top ls shifts value :
  consumes (Reader.varuint_loop w top ls shifts value).
Proof. revert value. induction shifts as [|s shifts IH]; intros value; cbn; wire_auto. Qed.
#[export] Hint Resolve consumes_varuint_loop : wire.

Lemma yields_weaken {A} b (p : Reader.M A) (P Q : A -> Prop) :
  yields b p P -> (forall a, P a -> Q a) -> yields b p Q.
Proof. intros Hp HPQ pos a r Hpos Hr. destruct (Hp pos a r Hpos Hr) as (? & ? & ?). auto. Qed.

Section accepted.
Context (b : list Z) (Hb : message_ok b).

Lemma yields_array n :
  0 <= n -> yields b (Reader.array n) (fun xs => Forall is_u8 xs /\ zlen xs = n).
Proof.
  intros Hn pos a r Hpos Hr. destruct Hb as [Hu Hl].
  pose proof (yields_consumes b _ Hl (consumes_array n Hn) pos a r Hpos Hr)
    as ((pre & xs & post & Heq & Hreads) & Hbuf & Hp). split; [|done].
  revert Hr. unfold Reader.array, mbind, Reader.M_bind, Reader.take. cbn.
  destruct (checked_add _ _ _); [|done]. destruct (slice_get _ _ _) as [s|] eqn:Es; [|done].
  destruct (_ =? _) eqn:El; [|done]. intros [= <- _]. bools. split; [|done].
  apply slice_get_inv in Es as (_ & _ & _ & _ & Heq'). rewrite Heq' in Hu.
  by apply Forall_app in Hu as [_ [? _]%Forall_app].
Qed.

Lemma yields_u32 : yields b Reader.u32 is_u32.
Proof.
  eapply yields_bind; [by apply yields_array|]. intros xs [Hu Hlen]. apply yields_ret.
  apply from_le_bound in Hu. rewrite Hlen in Hu. change (256 ^ 4) with 4294967296 in Hu. mlia.
Qed.

Lemma yields_block_pos : yields b Reader.block_pos pos_ok.
Proof.
  eapply yields_bind; [apply yields_u32|]. intros n Hn.
  eapply yields_bind; [by apply yields_array|]. intros i [Hu Hlen]. apply yields_ret.
  split_and!; cbn; [done|lia|done].
Qed.

Lemma yields_bool : yields b Reader.bool (fun _ => True).
Proof.
  destruct Hb as [_ Hl]. eapply yields_weaken; [by apply yields_consumes, consumes_bool|done].
Qed.

Lemma yields_varuint32 : yields b Reader.varuint32 is_u32.
Proof.
  pose proof Hb as [Hu Hl].
  eapply yields_weaken; [apply yields_consumes; [done|apply consumes_varuint_loop]|].
  intros v (pre & xs & post & Heq & Hreads). subst b.
  apply Forall_app in Hu as [_ [Hu _]%Forall_app].
  apply leb_encodes_reads32 in Hreads as (_ & _ & Hle & ->); [|split; [done|zlens; lia]].
  split; [apply leb_value_nonneg|done].
Qed.

Lemma yields_block_positions n :
  yields b (block_positions n) (fun ps => Forall pos_ok ps /\ length ps = n).
Proof.
  induction n as [|n IH]; cbn; [by apply yields_ret|].
  eapply yields_bind; [apply yields_block_pos|]. intros p Hp.
  eapply yields_bind; [apply IH|]. intros ps [Hps Hlen]. apply yields_ret.
  split; [by constructor|cbn; lia].
Qed.

Lemma yields_positions count :
  0 <= count -> yields b (positions_checked count) (fun ps => Forall pos_ok ps
    /\ zlen ps <= MAX_POSITIONS /\ POS_LEN * zlen ps <= zlen b).
Proof.
  intros Hc. unfold positions_checked. destruct (_ <? count) eqn:E; [apply yields_throw|]. bools.
  intros pos a r Hpos. unfold mbind, Reader.M_bind, Reader.remaining.
  cbn [Reader.buf Reader.pos]. destruct (_ <? count) eqn:E'; [done|]. bools. intros Hr.
  destruct (yields_block_positions _ _ _ _ Hpos Hr) as ((Hps & Hlen) & Hrest).
  split; [|done]. split_and!; [done|lia|].
  assert (count <= zlen b / POS_LEN).
  { etransitivity; [exact E'|]. apply Z.div_le_mono; [done|]. unfold sat_sub. lia. }
  pose proof (Z.mul_div_le (zlen b) POS_LEN). unfold POS_LEN in *. lia.
Qed.

Lemma yields_blocks_request v1 :
  yields b (decode_blocks_request v1) (fun r => request_ok r
    /\ POS_LEN * zlen (have_positions r) <= zlen b).
Proof.
  unfold decode_blocks_request.
  eapply yields_bind; [apply yields_u32|]. intros start Hs.
  eapply yields_bind; [apply yields_u32|]. intros end_ He.
  eapply yields_bind; [apply yields_u32|]. intros mif Hm.
  eapply yields_bind; [apply yields_varuint32|]. intros count Hc.
  eapply yields_bind; [apply yields_positions; mlia|]. intros ps (Hps & Hmax & Hlen).
  do 4 (eapply yields_bind; [apply yields_bool|]; intros ? _).
  eapply (yields_bind _ _ _ (fun ff => v1 = false -> ff = false)).
  { destruct v1; [|by apply yields_ret]. eapply yields_weaken; [apply yields_bool|done]. }
  intros ff Hff. apply yields_ret. done.
Qed.

Lemma yields_variant :
  yields b decode_variant (fun m => client_msg_ok m
    /\ forall r, m = CBlocks r -> POS_LEN * zlen (have_positions r) <= zlen b).
Proof.
  unfold decode_variant. eapply yields_bind; [apply yields_varuint32|]. intros i _.
  repeat case_match; try apply yields_throw; try (by apply yields_ret).
  - eapply yields_bind; [apply yields_blocks_request|]. intros r [Hr Hl]. apply yields_ret.
    split; [done|]. by intros r' [= <-].
  - eapply yields_bind; [apply yields_u32|]. intros n Hn. by apply yields_ret.
  - eapply yields_bind; [apply yields_blocks_request|]. intros r [Hr Hl]. apply yields_ret.
    split; [done|]. by intros r' [= <-].
Qed.
End accepted.

(** ** Theorems: client requests *)

(** C39: every client message, encoded by its encoder and followed by any bytes,
    is decoded back to itself. *)
Theorem client_roundtrip (m : ClientMsg) (post : list Z) :
  client_msg_ok m -> zlen (encode_client m ++ post) <= isize_max ->
  decode_client (encode_client m ++ post) = Ok m.
Proof.
  intros Hm Hl. apply decode_client_reads; [by apply reads_variant| |done].
  intros Hnil. pose proof (proj1 (reads_variant m Hm) [] []) as Hr.
  rewrite Hnil in Hr. by specialize (Hr ltac:(done)).
Qed.

(** A client message cut anywhere short of its end is refused: as [Empty]
    when no byte is left and as [Truncated] otherwise; it is never mistaken for
    another message. *)
Theorem client_truncated (m : ClientMsg) (cut : list Z) (z : Z) (zs : list Z) :
  client_msg_ok m -> encode_client m = cut ++ z :: zs -> zlen cut <= isize_max ->
  decode_client cut = Err (if decide (cut = []) then Empty else Truncated).
Proof.
  intros Hm. eapply decode_client_reads. by apply reads_variant.
Qed.

Lemma decode_client_yields b m :
  message_ok b -> decode_client b = Ok m ->
  client_msg_ok m
  /\ forall r, m = CBlocks r -> POS_LEN * zlen (have_positions r) <= zlen b.
Proof.
  intros Hb. unfold decode_client. destruct b as [|x b]; [done|].
  destruct (decode_variant _) as [[m' r]|] eqn:E; [|done]. intros [= ->].
  eapply yields_variant in E; [|done|cbn; lia]. by destruct E.
Qed.

(** Whatever bytes a client sends, an accepted request has every field in
    range, at most [MAX_POSITIONS] positions, and no more positions than the
    message has bytes for: the decoder allocates no more than the input backs. *)
Theorem decode_client_bounded (b : list Z) (m : ClientMsg) :
  message_ok b -> decode_client b = Ok m ->
  client_msg_ok m
  /\ forall r, m = CBlocks r -> POS_LEN * zlen (have_positions r) <= zlen b.
Proof. apply decode_client_yields. Qed.

(** [varuint32] accepts exactly the LEB128 encodings of at most five bytes
    whose value fits in 32 bits, canonical or not, and returns that value. *)
Theorem varuint32_leb128 (xs : list Z) (v : Z) :
  message_ok xs -> reads Reader.varuint32 xs v <-> leb_encodes 5 u32_max xs v.
Proof.
  intros Hxs. split; [by apply leb_encodes_reads32|apply reads_varuint32, Hxs].
Qed.

(** ** Block results *)

(** [accepts p f ok]: when [p] succeeds with [a], the bytes at the cursor start
    with [f a], [a] satisfies [ok], and the cursor moves past them. *)
Definition accepts {A} (p : Reader.M A) (f : A -> list Z) (ok : A -> Prop) : Prop :=
  forall pre rest a r, zlen (pre ++ rest) <= isize_max -> Forall is_u8 rest ->
    p (Reader.mk (pre ++ rest) (zlen pre)) = Ok (a, r) ->
    exists post, rest = f a ++ post /\ ok a
      /\ r = Reader.mk ((pre ++ f a) ++ post) (zlen (pre ++ f a)).

Lemma accepts_array n : 0 <= n -> accepts (Reader.array n) (fun a => a) (fun a => zlen a = n /\ Forall is_u8 a).
Proof.
  intros Hn pre rest a r Hl Hu. unfold Reader.array, mbind, Reader.M_bind.
  destruct (take_cases n pre rest Hn Hl) as [(xs & post & -> & Hxs)|Hs].
  - rewrite take_ok by done. destruct (_ =? _); [|done]. intros [= <- <-].
    apply Forall_app in Hu as [Hu _]. exists post.
    rewrite length_app, Nat2Z.inj_add, <-app_assoc. done.
  - by rewrite take_short.
Qed.

Lemma accepts_bind {A B C} (p : Reader.M A) (k : A -> Reader.M B) f ok g ok' (c : A -> B -> C) h ok'' :
  accepts p f ok -> (forall a, ok a -> accepts (k a) (g a) (ok' a)) ->
  (forall a b, h (c a b) = f a ++ g a b) -> (forall a b, ok a -> ok' a b -> ok'' (c a b)) ->
  accepts (a ← p; b ← k a; mret (c a b)) h ok''.
Proof.
  intros Hp Hk Hh Hok pre rest x r Hl Hu. unfold mbind, Reader.M_bind.
  destruct (p _) as [[a r1]|] eqn:E; [|done].
  destruct (Hp _ _ _ _ Hl Hu E) as (post & -> & Ha & ->).
  apply Forall_app in Hu as [_ Hu]. rewrite app_assoc in Hl.
  destruct (k a _) as [[b r2]|] eqn:E2; [|done].
  destruct (Hk a Ha _ _ _ _ Hl Hu E2) as (post' & -> & Hb & ->).
  intros [= <- <-]. exists post'. rewrite Hh, <-!app_assoc. auto.
Qed.

Lemma accepts_ret {A} (a : A) ok : ok a -> accepts (mret a) (fun _ => []) ok.
Proof.
  intros Hok pre rest x r Hl Hu [= <- <-]. exists rest. by rewrite app_nil_r.
Qed.

Lemma accepts_u8 : accepts Reader.u8 (fun b => [b]) is_u8.
Proof.
  intros pre rest x r Hl Hu. unfold Reader.u8, mbind, Reader.M_bind.
  destruct (Reader.array 1 _) as [[xs r1]|] eqn:E; [|done].
  apply accepts_array in E as (post & -> & [Hlen Hxs] & ->); try done.
  destruct xs as [|y [|]]; try done. intros [= <- <-]. inversion Hxs; subst. by exists post.
Qed.

Lemma accepts_u32 : accepts Reader.u32 (le_bytes 4) is_u32.
Proof.
  intros pre rest x r Hl Hu. unfold Reader.u32, mbind, Reader.M_bind.
  destruct (Reader.array 4 _) as [[xs r1]|] eqn:E; [|done].
  apply accepts_array in E as (post & -> & [Hlen Hxs] & ->); try done.
  intros [= <- <-]. pose proof (from_le_bound xs Hxs) as Hb. rewrite Hlen in Hb.
  change (256 ^ 4) with 4294967296 in Hb. exists post.
  replace 4%nat with (length xs) by lia. rewrite le_bytes_from by done. split_and!; try done; mlia.
Qed.

Lemma accepts_bool : accepts Reader.bool (fun b => [u8_of_bool b]) (fun _ => True).
Proof.
  intros pre rest x r Hl Hu. unfold Reader.bool, mbind, Reader.M_bind.
  destruct (Reader.u8 _) as [[b r1]|] eqn:E; [|done].
  apply accepts_u8 in E as (post & -> & Hb & ->); try done.
  destruct (b =? 0) eqn:E0; [|destruct (b =? 1) eqn:E1; [|done]]; bools; subst b;
    intros [= <- <-]; by exists post.
Qed.

Lemma accepts_block_pos : accepts Reader.block_pos pos_bytes pos_ok.
Proof.
  unfold Reader.block_pos. eapply accepts_bind; [apply accepts_u32|..].
  - intros n _. by apply (accepts_array 32).
  - done.
  - intros n i Hn [Hi Hu]. split_and!; cbn; [done|lia|done].
Qed.

(** The bytes of an optional position. *)
Definition opt_bytes (o : option BlockPos) : list Z :=
  match o with None => [0] | Some p => 1 :: pos_bytes p end.
Definition opt_ok (o : option BlockPos) : Prop :=
  match o with None => True | Some p => pos_ok p end.

Lemma accepts_optional_pos : accepts Reader.optional_pos opt_bytes opt_ok.
Proof.
  intros pre rest x r Hl Hu. unfold Reader.optional_pos, mbind, Reader.M_bind.
  destruct (Reader.bool _) as [[b r1]|] eqn:E; [|done].
  apply accepts_bool in E as (post & -> & _ & ->); try done.
  apply Forall_app in Hu as [_ Hu]. rewrite app_assoc in Hl. destruct b.
  - destruct (Reader.block_pos _) as [[p r2]|] eqn:E; [|done].
    apply accepts_block_pos in E as (post' & -> & Hp & ->); try done.
    intros [= <- <-]. exists post'. by rewrite <-!app_assoc.
  - intros [= <- <-]. by exists post.
Qed.

Lemma reads_optional_pos o :
  opt_ok o -> reads Reader.optional_pos (opt_bytes o) o.
Proof.
  intros Hok. unfold Reader.optional_pos. destruct o as [p|].
  - change (opt_bytes (Some p)) with ([u8_of_bool true] ++ pos_bytes p).
    eapply reads_bind; [apply reads_bool|].
    eapply reads_bind_nil; [by apply reads_block_pos|apply reads_ret].
  - eapply (reads_bind_nil _ _ [u8_of_bool false]); [apply reads_bool|apply reads_ret].
Qed.

(** The layout of a block result through [prev_block]. *)
Definition head_bytes (index : Z) (h : ResultHead) : list Z :=
  [index] ++ pos_bytes (rh_head h) ++ pos_bytes (rh_lib h)
  ++ opt_bytes (this_block h) ++ opt_bytes (prev_block h).
Definition head_ok (index : Z) (h : ResultHead) : Prop :=
  pos_ok (rh_head h) /\ pos_ok (rh_lib h) /\ opt_ok (this_block h) /\ opt_ok (prev_block h)
  /\ rh_v1 h = (index =? RES_BLOCKS_V1) /\ fields_at h = zlen (head_bytes index h).

(** [frame], a result whose head is [h], with the head [h'] in its place: its index and
    every byte after the head are kept. *)
Definition rebuilt (frame : list Z) (h h' : ResultHead) : list Z :=
  head_bytes (List.hd 0 frame) h' ++ drop (Z.to_nat (fields_at h)) frame.

Lemma rebuilt_flat index h h' post :
  head_ok index h -> rebuilt (head_bytes index h ++ post) h h' = head_bytes index h' ++ post.
Proof.
  intros (_ & _ & _ & _ & _ & Hat). unfold rebuilt. rewrite Hat, Nat2Z.id, drop_app_length. done.
Qed.

Lemma decode_result_head_fwd index h post :
  head_ok index h -> zlen (head_bytes index h ++ post) <= isize_max ->
  decode_result_head (head_bytes index h ++ post) = Ok h.
Proof.
  intros (Hh & Hl & Ht & Hp & Hv & Hat) Hlen.
  set (fields := i ← Reader.u8; hd ← Reader.block_pos; lb ← Reader.block_pos;
    t ← Reader.optional_pos; p ← Reader.optional_pos;
    (mret (i, hd, lb, t, p) : Reader.M _)).
  assert (reads fields (head_bytes index h)
    (index, rh_head h, rh_lib h, this_block h, prev_block h)) as [Hr _].
  { unfold fields, head_bytes. eapply reads_bind; [apply reads_u8|].
    do 2 (eapply reads_bind; [by apply reads_block_pos|]).
    eapply reads_bind; [by apply reads_optional_pos|].
    eapply reads_bind_nil; [by apply reads_optional_pos|].
    apply reads_ret. }
  specialize (Hr [] post Hlen). cbn [app] in Hr. revert Hr.
  unfold decode_result_head, decode_result_head_body, fields, mbind, Reader.M_bind, Reader.new.
  change (zlen (@nil Z)) with 0.
  repeat (match goal with |- context [match ?m with Ok _ => _ | Err _ => _ end] =>
    destruct m as [[? ?]|] eqn:?; [|done] end).
  intros [= -> -> -> -> -> ->].
  match goal with H : Reader.position _ = Ok _ |- _ => injection H as <- <- end.
  destruct h. cbn in Hat, Hv |- *. by rewrite Hat, Hv.
Qed.

Lemma decode_result_head_inv b h :
  message_ok b -> decode_result_head b = Ok h ->
  exists index post, b = head_bytes index h ++ post /\ head_ok index h.
Proof.
  intros [Hu Hl]. unfold decode_result_head, decode_result_head_body, mbind, Reader.M_bind.
  unfold Reader.new. change b with ([] ++ b) in Hl |- *. change 0 with (zlen (@nil Z)).
  destruct (Reader.u8 _) as [[i r1]|] eqn:E; [|done].
  apply accepts_u8 in E as (b1 & -> & _ & ->); try done.
  apply Forall_app in Hu as [_ Hu]. rewrite app_assoc in Hl.
  destruct (Reader.block_pos _) as [[hd r2]|] eqn:E; [|done].
  apply accepts_block_pos in E as (b2 & -> & Hhd & ->); try done.
  apply Forall_app in Hu as [_ Hu]. rewrite app_assoc in Hl.
  destruct (Reader.block_pos _) as [[lb r3]|] eqn:E; [|done].
  apply accepts_block_pos in E as (b3 & -> & Hlb & ->); try done.
  apply Forall_app in Hu as [_ Hu]. rewrite app_assoc in Hl.
  destruct (Reader.optional_pos _) as [[t r4]|] eqn:E; [|done].
  apply accepts_optional_pos in E as (b4 & -> & Ht & ->); try done.
  apply Forall_app in Hu as [_ Hu]. rewrite app_assoc in Hl.
  destruct (Reader.optional_pos _) as [[p r5]|] eqn:E; [|done].
  apply accepts_optional_pos in E as (b5 & -> & Hp & ->); try done.
  intros [= <-]. exists i, b5. unfold head_bytes, head_ok. cbn [rh_head rh_lib this_block prev_block].
  split_and!; try done; by rewrite <-!app_assoc.
Qed.

(** [classify_upstream] sees a block result exactly where the layout is. *)
Lemma classify_blocks_inv b h :
  message_ok b -> classify_upstream b = UBlocks h ->
  exists index post, b = head_bytes index h ++ post /\ head_ok index h
    /\ (index = RES_BLOCKS_V0 \/ index = RES_BLOCKS_V1).
Proof.
  intros Hb. unfold classify_upstream. destruct b as [|x b]; [done|].
  destruct (_ && _); [done|]. destruct (_ && _); [done|].
  destruct (_ || _) eqn:E; [|done]. apply orb_true_iff in E.
  destruct (decode_result_head _) eqn:Eh; [|done]. intros [= ->].
  apply decode_result_head_inv in Eh as (i & post & Heq & Hok); [|done].
  exists i, post. split_and!; try done. unfold head_bytes in Heq. injection Heq as -> _.
  destruct E; bools; auto.
Qed.

Lemma classify_blocks_fwd index h post :
  head_ok index h -> index = RES_BLOCKS_V0 \/ index = RES_BLOCKS_V1 ->
  zlen (head_bytes index h ++ post) <= isize_max ->
  classify_upstream (head_bytes index h ++ post) = UBlocks h.
Proof.
  intros Hok Hi Hl. pose proof (decode_result_head_fwd index h post Hok Hl) as Hd.
  unfold classify_upstream, head_bytes in *. cbn [app] in *. rewrite Hd.
  by destruct Hi as [-> | ->].
Qed.

Lemma pos_bytes_length p : pos_ok p -> length (pos_bytes p) = 36%nat.
Proof. intros Hp. apply pos_len in Hp. unfold pos_bytes, POS_LEN in *. lia. Qed.

Lemma write_pos_full slot p : length slot = 36%nat -> write_pos slot p = pos_bytes p.
Proof.
  intros Hs. unfold write_pos, pos_bytes. rewrite (drop_ge slot) by lia.
  by rewrite app_nil_r.
Qed.

Lemma update_slice_app (a slot c : list Z) i j f :
  length a = i -> length slot = (j - i)%nat -> (i <= j)%nat ->
  update_slice (a ++ slot ++ c) i j f = a ++ f slot ++ c.
Proof.
  intros Ha Hs Hij. unfold update_slice.
  rewrite take_app_length', drop_app_length' by done.
  rewrite take_app_length' by done. rewrite (app_assoc a slot c).
  rewrite drop_app_length' by (rewrite length_app; lia). done.
Qed.

Lemma patch_flat index hs ls post head lib :
  length hs = 36%nat -> length ls = 36%nat -> pos_ok head -> pos_ok lib ->
  patch_head_lib ([index] ++ hs ++ ls ++ post) head lib
  = [index] ++ pos_bytes head ++ pos_bytes lib ++ post.
Proof.
  intros Hh Hl Hhead Hlib. unfold patch_head_lib, HEAD_LIB_END, POS_LEN.
  rewrite (proj2 (Z.ltb_ge _ _)) by (zlens; lia).
  rewrite (update_slice_app [index] hs) by (cbn; lia). rewrite write_pos_full by done.
  apply pos_bytes_length in Hhead.
  rewrite (app_assoc [index] (pos_bytes head)), (update_slice_app _ ls) by (zlens; lia).
  rewrite write_pos_full by done. by rewrite <-!app_assoc.
Qed.

Lemma frame_split (b : list Z) :
  HEAD_LIB_END <= zlen b -> exists index hs ls post,
    b = [index] ++ hs ++ ls ++ post /\ length hs = 36%nat /\ length ls = 36%nat.
Proof.
  unfold HEAD_LIB_END, POS_LEN. intros Hb. destruct b as [|x b]; [cbn in Hb; lia|].
  exists x, (take 36 b), (take 36 (drop 36 b)), (drop 36 (drop 36 b)).
  cbn [length] in Hb. rewrite !length_take, !length_drop, !take_drop. split_and!; [done|lia..].
Qed.

(** *** Theorems: editing an upstream frame *)

Lemma patch_keeps_shape (frame : list Z) (head lib : BlockPos) :
  pos_ok head -> pos_ok lib ->
  length (patch_head_lib frame head lib) = length frame
  /\ first_get (patch_head_lib frame head lib) = first_get frame
  /\ drop 73 (patch_head_lib frame head lib) = drop 73 frame.
Proof.
  intros Hh Hl. destruct (decide (HEAD_LIB_END <= zlen frame)) as [E|E].
  - destruct (frame_split frame E) as (i & hs & ls & post & -> & Hhs & Hls).
    rewrite patch_flat by done. apply pos_bytes_length in Hh, Hl.
    split_and!; [zlens; lia|done|]. rewrite !app_assoc, !drop_app_length' by (zlens; lia). done.
  - unfold patch_head_lib. rewrite (proj2 (Z.ltb_lt _ _)) by lia. done.
Qed.

Lemma read_head_lib_flat index head lib post :
  pos_ok head -> pos_ok lib -> zlen ([index] ++ pos_bytes head ++ pos_bytes lib ++ post) <= isize_max ->
  read_head_lib ([index] ++ pos_bytes head ++ pos_bytes lib ++ post) = Some (head, lib).
Proof.
  intros Hh Hl Hlen.
  pose proof (pos_bytes_length _ Hh) as Hh36. pose proof (pos_bytes_length _ Hl) as Hl36.
  unfold read_head_lib, HEAD_LIB_END, POS_LEN. rewrite slice_get_some by (zlens; lia).
  change (Z.to_nat (1 + 2 * 36 - 0)) with 73%nat. change (drop (Z.to_nat 0)) with (@drop Z 0).
  rewrite drop_0, !app_assoc, take_app_length' by (zlens; lia).
  assert (reads head_lib_body (pos_bytes head ++ pos_bytes lib) (head, lib)) as [Hr _].
  { eapply reads_bind; [by apply reads_block_pos|].
    eapply reads_bind_nil; [by apply reads_block_pos|apply reads_ret]. }
  specialize (Hr [index] []). rewrite app_nil_r in Hr.
  unfold Reader.new. rewrite <-app_assoc. change 1 with (zlen [index]) at 1. rewrite Hr; [done|].
  zlens. mlia.
Qed.

(** After [patch_head_lib] the frame reads back as the new head and LIB,
    its length, its index byte and every byte from offset 73 are the ones it
    had; a frame too short for the two positions is returned as it was. *)
Theorem patch_head_lib_exact (frame : list Z) (head lib : BlockPos) :
  pos_ok head -> pos_ok lib -> zlen frame <= isize_max ->
  let frame' := patch_head_lib frame head lib in
  length frame' = length frame
  /\ first_get frame' = first_get frame
  /\ drop 73 frame' = drop 73 frame
  /\ (if HEAD_LIB_END <=? zlen frame then read_head_lib frame' = Some (head, lib)
      else frame' = frame).
Proof.
  intros Hh Hl Hlen. cbv zeta. destruct (patch_keeps_shape frame head lib Hh Hl) as (H1 & H2 & H3).
  split_and!; [done..|]. clear H1 H2 H3. destruct (_ <=? _) eqn:E; bools.
  - destruct (frame_split frame E) as (i & hs & ls & post & -> & Hhs & Hls).
    rewrite patch_flat by done. apply read_head_lib_flat; [done|done|].
    pose proof (pos_bytes_length _ Hh). pose proof (pos_bytes_length _ Hl). zlens; lia.
  - unfold patch_head_lib. rewrite (proj2 (Z.ltb_lt _ _)) by done. done.
Qed.

Definition set_head_lib (h : ResultHead) (head lib : BlockPos) : ResultHead :=
  mkResultHead (rh_v1 h) head lib (this_block h) (prev_block h) (fields_at h).


Lemma take_neg n r : n < 0 -> Reader.take n r = Err Truncated.
Proof.
  intros Hn. unfold Reader.take. destruct (checked_add _ _ _) as [e|] eqn:E; [|done].
  unfold checked_add in E. destruct (_ <=? _); simplify_eq.
  rewrite slice_get_none; [done|lia].
Qed.

Lemma relocatable_take_any n : relocatable (Reader.take n).
Proof.
  destruct (decide (0 <= n)); [by apply relocatable_take|].
  intros pre pre' rest _ _. by rewrite !take_neg by lia.
Qed.
#[export] Hint Resolve relocatable_take_any : wire.

Lemma relocatable_optional_bytes width : relocatable (Reader.optional_bytes width).
Proof.
  unfold Reader.optional_bytes.
  assert (relocatable (match width with LU32 => Reader.varuint32 | LU64 => Reader.varuint64 end)).
  { destruct width; apply relocatable_varuint_loop. }
  wire_auto.
Qed.
#[export] Hint Resolve relocatable_optional_bytes : wire.

Lemma relocatable_presence v1 : relocatable (presence_body v1).
Proof. unfold presence_body. wire_auto. Qed.

(** The payload fields of a result depend on the bytes from [fields_at] on. *)
Lemma presence_relocates pre pre' rest h h' :
  fields_at h = zlen pre -> fields_at h' = zlen pre' -> rh_v1 h' = rh_v1 h ->
  zlen (pre ++ rest) <= isize_max -> zlen (pre' ++ rest) <= isize_max ->
  result_presence (pre' ++ rest) h' = result_presence (pre ++ rest) h.
Proof.
  intros Hat Hat' Hv Hl Hl'. unfold result_presence, Reader.new. rewrite Hat, Hat', Hv.
  pose proof (relocatable_presence (rh_v1 h) pre pre' rest Hl Hl') as Hr.
  destruct (presence_body _ (Reader.mk (pre ++ rest) _)) as [[a r]|e].
  - by destruct Hr as (? & ? & _ & _ & ->).
  - by rewrite Hr.
Qed.

(** Patching keeps what a frame is: a status result stays one, and a block
    result stays a block result with the new head and LIB, the same
    [this_block] and [prev_block], and the same payload fields. *)
Lemma patch_head_lib_classify (frame : list Z) (head lib : BlockPos) :
  message_ok frame -> pos_ok head -> pos_ok lib ->
  let frame' := patch_head_lib frame head lib in
  match classify_upstream frame with
  | UStatus v1 => classify_upstream frame' = UStatus v1
  | UBlocks h =>
      classify_upstream frame' = UBlocks (set_head_lib h head lib)
      /\ result_presence frame' (set_head_lib h head lib) = result_presence frame h
      /\ frame' = rebuilt frame h (set_head_lib h head lib)
  | UOther => True
  end.
Proof.
  intros Hm Hh Hl. cbv zeta. destruct (classify_upstream frame) as [v1|h|] eqn:E; [| |done].
  - destruct (patch_keeps_shape frame head lib Hh Hl) as (Hlen & Hfst & _).
    revert E Hlen Hfst. unfold classify_upstream.
    destruct frame as [|x b]; [done|]. destruct (patch_head_lib _ _ _) as [|y b']; [done|].
    intros E Hlen [= ->]. cbn [length] in *. rewrite Hlen. revert E.
    repeat (case_match; try (intros; done)).
  - destruct (classify_blocks_inv _ _ Hm E) as (i & post & -> & Hok & Hi).
    pose proof Hok as (Hh0 & Hl0 & Ht & Hp & Hv & Hat).
    assert (head_ok i (set_head_lib h head lib)) as Hok'.
    { unfold head_ok, head_bytes in *.
      cbn [set_head_lib rh_head rh_lib this_block prev_block rh_v1 fields_at].
      split_and!; try done. rewrite Hat. apply pos_bytes_length in Hh0, Hl0, Hh, Hl. zlens; lia. }
    assert (patch_head_lib (head_bytes i h ++ post) head lib
      = head_bytes i (set_head_lib h head lib) ++ post) as ->.
    { unfold head_bytes. rewrite <-!app_assoc, patch_flat by auto using pos_bytes_length.
      done. }
    assert (zlen (head_bytes i (set_head_lib h head lib) ++ post) <= isize_max) as Hlen.
    { destruct Hm as [_ Hm]. pose proof (proj2 (proj2 (proj2 (proj2 (proj2 Hok'))))) as Ha.
      cbn [set_head_lib fields_at] in Ha. zlens. lia. }
    split; [by apply classify_blocks_fwd|]. split; [|by rewrite rebuilt_flat].
    apply presence_relocates; try done; [|apply Hm]. apply Hok'.
Qed.

Lemma insert_prev_flat front post h prev :
  is_some (this_block h) = true -> prev_block h = None -> fields_at h = zlen front + 1 ->
  insert_prev_block (front ++ [0] ++ post) h prev
  = Some (front ++ [1] ++ pos_bytes prev ++ post, set_prev h prev).
Proof.
  intros Ht Hp Hat. unfold insert_prev_block, is_none. rewrite Ht, Hp. cbn [is_some negb orb].
  unfold checked_sub. rewrite (proj2 (Z.leb_le _ _)) by lia.
  replace (fields_at h - 1) with (zlen front) by lia.
  rewrite bool_decide_true; cbn [negb].
  2: { unfold nth_get. rewrite (proj2 (Z.leb_le _ _)), Nat2Z.id by lia.
       cbn [app]. by rewrite list_lookup_middle. }
  rewrite write_pos_full by apply repeat_length.
  rewrite Nat2Z.id, take_app_length, Hat, (app_assoc front [0] post).
  by rewrite drop_app_length' by (zlens; lia).
Qed.

(** [insert_prev_block] succeeds exactly on a block result that has a
    [this_block] and no [prev_block]. The new message, 36 bytes longer,
    classifies as the returned head, which differs from the old one in
    [prev_block] only, and its payload fields are the same. *)
Lemma insert_prev_block_exact (frame : list Z) (h : ResultHead) (prev : BlockPos) :
  message_ok frame -> zlen frame + POS_LEN <= isize_max -> pos_ok prev ->
  classify_upstream frame = UBlocks h ->
  match insert_prev_block frame h prev with
  | Some (frame', h') =>
      this_block h <> None /\ prev_block h = None
      /\ h' = set_prev h prev
      /\ classify_upstream frame' = UBlocks h'
      /\ result_presence frame' h' = result_presence frame h
      /\ zlen frame' = zlen frame + POS_LEN
      /\ frame' = rebuilt frame h h'
  | None => this_block h = None \/ prev_block h <> None
  end.
Proof.
  intros Hm Hbig Hprev E.
  destruct (classify_blocks_inv _ _ Hm E) as (i & post & -> & Hok & Hi).
  pose proof Hok as (Hh0 & Hl0 & Ht & Hp & Hv & Hat).
  destruct (this_block h) as [t|] eqn:Et; [|unfold insert_prev_block; rewrite Et; by left].
  destruct (prev_block h) as [p|] eqn:Ep; [unfold insert_prev_block; rewrite Et, Ep; by right|].
  set (front := [i] ++ pos_bytes (rh_head h) ++ pos_bytes (rh_lib h) ++ opt_bytes (this_block h)).
  assert (head_bytes i h = front ++ [0]) as Hfront.
  { unfold head_bytes, front. rewrite Ep, Et. by rewrite <-!app_assoc. }
  assert (head_bytes i (set_prev h prev) = front ++ [1] ++ pos_bytes prev) as Hb'.
  { unfold head_bytes, front. cbn [set_prev rh_head rh_lib this_block prev_block].
    by rewrite <-!app_assoc. }
  assert (rebuilt (head_bytes i h ++ post) h (set_prev h prev) = head_bytes i (set_prev h prev) ++ post) as Hre
    by (by apply rebuilt_flat).
  rewrite Hfront in Hm, Hbig, Hat, Hre |- *. pose proof (pos_bytes_length _ Hprev) as Hp36.
  unfold POS_LEN in *.
  assert (head_ok i (set_prev h prev)) as Hok'.
  { unfold head_ok. rewrite Hb'. cbn [set_prev rh_head rh_lib this_block prev_block rh_v1 fields_at].
    rewrite Et. split_and!; try done. rewrite Hat. unfold POS_LEN. zlens; lia. }
  rewrite <-(app_assoc front) in Hre |- *. rewrite insert_prev_flat;
    [|by rewrite Et|done|rewrite Hat; zlens; lia].
  replace (front ++ [1] ++ pos_bytes prev ++ post) with (head_bytes i (set_prev h prev) ++ post)
    by (rewrite Hb'; by rewrite <-!app_assoc).
  assert (zlen (head_bytes i (set_prev h prev) ++ post) <= isize_max) as Hlen.
  { rewrite Hb'. zlens; lia. }
  split_and!; try done.
  - by apply classify_blocks_fwd.
  - rewrite app_assoc. apply presence_relocates; try done; [apply Hok'|apply Hm].
  - rewrite Hb'. zlens; lia.
Qed.

Lemma insert_prev_bytes frame h prev frame' h' :
  Forall is_u8 frame -> pos_ok prev -> insert_prev_block frame h prev = Some (frame', h') ->
  Forall is_u8 frame'.
Proof.
  intros Hf (Hn & _ & Hid). unfold insert_prev_block. destruct (_ || _); [done|].
  destruct (checked_sub _ _) as [flag|]; [|done]. destruct (negb _); [done|]. intros Heq.
  assert (frame' = take (Z.to_nat flag) frame ++ [1] ++ write_pos (repeat 0 36) prev
    ++ drop (Z.to_nat (fields_at h)) frame) as -> by congruence. clear Heq. unfold write_pos.
  repeat (apply Forall_app; split).
  - by apply Forall_take.
  - apply Forall_singleton. mlia.
  - apply le_bytes_u8.
  - done.
  - apply Forall_drop, Forall_forall. intros x Hx. apply list_elem_of_In, repeat_spec in Hx. subst x. mlia.
  - by apply Forall_drop.
Qed.

(** ** Witnesses *)

Definition sample_pos (n : Z) : BlockPos := mkPos n (repeat 7 32).
Definition sample_request : BlocksRequest :=
  mkBlocksRequest true 100 u32_max 50 [sample_pos 98; sample_pos 99] false true false true true.
Definition sample_frame : list Z :=
  [1] ++ pos_bytes (sample_pos 1000) ++ pos_bytes (sample_pos 990)
  ++ opt_bytes (Some (sample_pos 500)) ++ opt_bytes None ++ [1; 2; 9; 9; 0; 0].

Definition sample_head : ResultHead :=
  mkResultHead false (sample_pos 1000) (sample_pos 990) (Some (sample_pos 500)) None 111.

Ltac u8s := repeat (apply Forall_cons; split; [by vm_compute|]); apply Forall_nil; exact I.

Lemma sample_pos_ok n : is_u32 n -> pos_ok (sample_pos n).
Proof. intros. split_and!; [done|done|]. cbn. u8s. Qed.

Lemma sample_request_ok : request_ok sample_request.
Proof.
  split_and!; try (cbn; mlia); try done.
  repeat constructor; try (cbn; mlia); u8s.
Qed.

Lemma sample_frame_ok : message_ok sample_frame.
Proof. split; [vm_compute; u8s|vm_compute; congruence]. Qed.

Lemma client_roundtrip_witness :
  decode_client (encode_client (CBlocks sample_request) ++ [1; 2]) = Ok (CBlocks sample_request).
Proof.
  apply (client_roundtrip (CBlocks sample_request) [1; 2]).
  - exact sample_request_ok.
  - vm_compute. congruence.
Defined.

Lemma client_truncated_witness : decode_client [2; 5; 0] = Err Truncated.
Proof.
  apply (client_truncated (CAck 5) [2; 5; 0] 0 [0]).
  - cbn. mlia.
  - reflexivity.
  - vm_compute. congruence.
Defined.

Lemma decode_client_bounded_witness :
  request_ok sample_request
  /\ POS_LEN * 2 <= zlen (encode_blocks_request sample_request).
Proof.
  destruct (decode_client_bounded (encode_blocks_request sample_request) (CBlocks sample_request))
    as [H1 H2].
  - split; [vm_compute; u8s|vm_compute; congruence].
  - vm_compute. reflexivity.
  - split; [exact H1|]. apply (H2 sample_request). reflexivity.
Defined.

(** A non-canonical encoding of 1. *)
Lemma varuint32_leb128_witness : reads Reader.varuint32 [0x81; 0x00] 1.
Proof.
  apply (varuint32_leb128 [0x81; 0x00] 1).
  - split; [u8s|vm_compute; congruence].
  - unfold leb_encodes. vm_compute. repeat split; try congruence. lia.
Defined.

Lemma patch_head_lib_exact_witness :
  read_head_lib (patch_head_lib sample_frame (sample_pos 2000) (sample_pos 1990))
  = Some (sample_pos 2000, sample_pos 1990).
Proof.
  destruct (patch_head_lib_exact sample_frame (sample_pos 2000) (sample_pos 1990))
    as (_ & _ & _ & H); [apply sample_pos_ok; mlia..|vm_compute; congruence|exact H].
Defined.
