(* ===== verification/Zcd.v ===== *)
(** * Field decoding of status frames

    Models [src/src/zcd.rs] (the decoder of upstream status frames the monitor
    uses) and [src/src/functions.rs].  A field table is a list of (type, name,
    width); a decoded frame maps field names to the slices of the buffer.

    The theorems: which lengths of a [get_status_result_v0/v1] body are
    accepted and which error the others give, and that every field of an
    accepted body reads the bytes at its offset. *)

From S2P Require Import Prelude Wire.

#[local] Open Scope string_scope.
#[local] Open Scope list_scope.
#[local] Open Scope Z_scope.

Inductive ZcdError :=
| ZTruncated (field : string) (expected remaining : Z)
| ZMalformed (field : string) (expected actual : Z)
| MissingField
| TypeMismatch.

Inductive ZCDType :=
| TBool | TU8 | TU32 | TU64 | TU128 | TChecksum256 | TString | TBytes | TArray.

(** A [String] is its UTF-8 bytes. *)
Inductive ZCDValues :=
| VBool (b : bool)
| VU8 (v : Z)
| VU32 (v : Z)
| VU64 (v : Z)
| VU128 (v : Z)
| VChecksum256 (v : list Z)
| VString (v : list Z)
| VBytes (v : list Z)
| VArray (v : list Z).

#[export] Instance ZcdError_eq_dec : EqDecision ZcdError.
Proof. solve_decision. Defined.
#[export] Instance ZCDType_eq_dec : EqDecision ZCDType.
Proof. solve_decision. Defined.

(** [slice.try_into()] to an array of [n] bytes. *)
Definition read_exact (n : Z) (slice : list Z) (field : string)
  : result (list Z) ZcdError :=
  if zlen slice =? n then Ok slice else Err (ZMalformed field n (zlen slice)).

Definition type_width (ty : ZCDType) : option Z :=
  match ty with
  | TBool | TU8 => Some 1
  | TU32 => Some 4
  | TU64 => Some 8
  | TU128 => Some 16
  | TChecksum256 => Some 32
  | TString | TBytes | TArray => None
  end.

(** [TryFrom<ZCDValues>] for the integer types, the checksum and [String]. *)
Definition try_u8 (v : ZCDValues) : result Z ZcdError :=
  match v with VU8 x => Ok x | _ => Err TypeMismatch end.
Definition try_u32 (v : ZCDValues) : result Z ZcdError :=
  match v with VU32 x => Ok x | _ => Err TypeMismatch end.
Definition try_u64 (v : ZCDValues) : result Z ZcdError :=
  match v with VU64 x => Ok x | _ => Err TypeMismatch end.
Definition try_u128 (v : ZCDValues) : result Z ZcdError :=
  match v with VU128 x => Ok x | _ => Err TypeMismatch end.
Definition try_checksum256 (v : ZCDValues) : result (list Z) ZcdError :=
  match v with VChecksum256 x => Ok x | _ => Err TypeMismatch end.
Definition try_string (v : ZCDValues) : result (list Z) ZcdError :=
  match v with VString x => Ok x | _ => Err TypeMismatch end.

(** ** Text *)

Definition hex_digit (d : Z) : Z := if d <? 10 then 48 + d else 87 + d.

(** [buffer_to_hex]: two lower-case digits a byte, as the bytes of the text. *)
Definition buffer_to_hex (buffer : list Z) : list Z :=
  foldl (fun hex byte => hex ++ [hex_digit (byte / 16); hex_digit (byte mod 16)]) [] buffer.

Definition in_range (lo hi b : Z) : bool := (lo <=? b) && (b <=? hi).
Definition continuation (b : Z) : bool := in_range 0x80 0xBF b.
Definition REPLACEMENT : list Z := [0xEF; 0xBF; 0xBD].

(** The second bytes a first byte of a three- or four-byte sequence admits. *)
Definition second3 (b0 b1 : Z) : bool :=
  if b0 =? 0xE0 then in_range 0xA0 0xBF b1
  else if b0 =? 0xED then in_range 0x80 0x9F b1
  else continuation b1.
Definition second4 (b0 b1 : Z) : bool :=
  if b0 =? 0xF0 then in_range 0x90 0xBF b1
  else if b0 =? 0xF4 then in_range 0x80 0x8F b1
  else continuation b1.

(** [String::from_utf8_lossy]: each maximal prefix of a valid sequence that is
    not one is replaced by U+FFFD. The fuel is the length of the input. *)
Fixpoint lossy (fuel : nat) (b : list Z) : list Z :=
  match fuel with
  | O => []
  | S fuel =>
      match b with
      | [] => []
      | b0 :: r =>
          if b0 <? 0x80 then b0 :: lossy fuel r
          else if in_range 0xC2 0xDF b0 then
            match r with
            | b1 :: r1 =>
                if continuation b1 then b0 :: b1 :: lossy fuel r1
                else REPLACEMENT ++ lossy fuel r
            | [] => REPLACEMENT
            end
          else if in_range 0xE0 0xEF b0 then
            match r with
            | b1 :: r1 =>
                if second3 b0 b1 then
                  match r1 with
                  | b2 :: r2 =>
                      if continuation b2 then b0 :: b1 :: b2 :: lossy fuel r2
                      else REPLACEMENT ++ lossy fuel r1
                  | [] => REPLACEMENT
                  end
                else REPLACEMENT ++ lossy fuel r
            | [] => REPLACEMENT
            end
          else if in_range 0xF0 0xF4 b0 then
            match r with
            | b1 :: r1 =>
                if second4 b0 b1 then
                  match r1 with
                  | b2 :: r2 =>
                      if continuation b2 then
                        match r2 with
                        | b3 :: r3 =>
                            if continuation b3 then b0 :: b1 :: b2 :: b3 :: lossy fuel r3
                            else REPLACEMENT ++ lossy fuel r2
                        | [] => REPLACEMENT
                        end
                      else REPLACEMENT ++ lossy fuel r1
                  | [] => REPLACEMENT
                  end
                else REPLACEMENT ++ lossy fuel r
            | [] => REPLACEMENT
            end
          else REPLACEMENT ++ lossy fuel r
      end
  end.
Definition from_utf8_lossy (b : list Z) : list Z := lossy (length b) b.

(** ** Fields *)

Record ZCDField := mkField { f_slice : list Z; f_type : ZCDType; f_size : Z }.

Definition as_bool (f : ZCDField) : result bool ZcdError :=
  let? bytes := read_exact 1 (f_slice f) "bool" in
  match bytes with [byte] => Ok (negb (byte =? 0)) | _ => Err TypeMismatch end.
Definition as_u8 (f : ZCDField) : result Z ZcdError :=
  let? bytes := read_exact 1 (f_slice f) "u8" in
  match bytes with [byte] => Ok byte | _ => Err TypeMismatch end.
Definition field_u32 (f : ZCDField) : result Z ZcdError :=
  rmap from_le (read_exact 4 (f_slice f) "u32").
Definition as_u64 (f : ZCDField) : result Z ZcdError :=
  rmap from_le (read_exact 8 (f_slice f) "u64").
Definition as_u128 (f : ZCDField) : result Z ZcdError :=
  rmap from_le (read_exact 16 (f_slice f) "u128").
Definition as_checksum256 (f : ZCDField) : result (list Z) ZcdError :=
  read_exact 32 (f_slice f) "checksum256".
Definition as_checksum256_hex (f : ZCDField) : list Z := buffer_to_hex (f_slice f).
Definition as_string (f : ZCDField) : list Z := from_utf8_lossy (f_slice f).

(** [Display for ZCDValues] of the byte-valued variants. *)
Definition display_bytes (v : ZCDValues) : option (list Z) :=
  match v with
  | VString s => Some s
  | VChecksum256 b | VBytes b | VArray b => Some (buffer_to_hex b)
  | _ => None
  end.

Record ZCD := mkZCD { z_buffer : list Z; hash_map : gmap string ZCDField }.

Definition get_type (z : ZCD) (field : string) : option ZCDType :=
  f_type <$> hash_map z !! field.

Definition get (z : ZCD) (field : string) : result (option ZCDValues) ZcdError :=
  match hash_map z !! field with
  | None => Ok None
  | Some f =>
      rmap Some
        match f_type f with
        | TBool => rmap VBool (as_bool f)
        | TU8 => rmap VU8 (as_u8 f)
        | TU32 => rmap VU32 (field_u32 f)
        | TU64 => rmap VU64 (as_u64 f)
        | TU128 => rmap VU128 (as_u128 f)
        | TChecksum256 => rmap VChecksum256 (as_checksum256 f)
        | TString => Ok (VString (as_string f))
        | TBytes => Ok (VBytes (f_slice f))
        | TArray => Ok (VArray (f_slice f))
        end
  end.

(** ** Field tables *)

Definition Entry : Type := ZCDType * string * Z.

Definition RESULT_V0_FIELDS : list Entry := [(TU8, "variant", 1); (TBytes, "data", 0)].

Definition STATUS_RESULT_V0_FIELDS : list Entry :=
  [ (TU32, "head_block_num", 4);
    (TChecksum256, "head_block_id", 32);
    (TU32, "last_irreversible_block_num", 4);
    (TChecksum256, "last_irreversible_block_id", 32);
    (TU32, "trace_begin_block", 4);
    (TU32, "trace_end_block", 4);
    (TU32, "chain_state_begin_block", 4);
    (TU32, "chain_state_end_block", 4);
    (TChecksum256, "chain_id", 32) ].

Definition STATUS_RESULT_V1_FIELDS : list Entry :=
  [ (TU32, "head_block_num", 4);
    (TChecksum256, "head_block_id", 32);
    (TU32, "last_irreversible_block_num", 4);
    (TChecksum256, "last_irreversible_block_id", 32);
    (TU32, "trace_begin_block", 4);
    (TU32, "trace_end_block", 4);
    (TU32, "chain_state_begin_block", 4);
    (TU32, "chain_state_end_block", 4);
    (TChecksum256, "chain_id", 32);
    (TU32, "finality_data_begin_block", 4);
    (TU32, "finality_data_end_block", 4) ].

(** ** The lenient builder *)

(** The span of an [Array] field at [offset]: a count byte and [size] bytes an
    element, if it fits. *)
Definition array_span (buffer : list Z) (offset size : Z) : option (list Z * Z * Z) :=
  elements ← nth_get buffer offset;
  payload ← checked_mul usize_max size elements;
  full_size ← checked_add usize_max payload 1;
  end_ ← checked_add usize_max offset full_size;
  field_buffer ← slice_get buffer offset end_;
  Some (field_buffer, full_size, end_).

(** The [for] loop of [zcd_builder] from field [index] on. *)
Fixpoint zcd_loop (buffer : list Z) (count index : Z) (fields : list Entry)
    (offset : Z) (hm : gmap string ZCDField) : gmap string ZCDField :=
  match fields with
  | [] => hm
  | (ty, field, size) :: fields =>
      match ty with
      | TArray =>
          match array_span buffer offset size with
          | None => hm
          | Some (bytes, full_size, end_) =>
              zcd_loop buffer count (index + 1) fields end_
                (<[field := mkField bytes ty full_size]> hm)
          end
      | _ =>
          if size =? 0 then
            if index =? count - 1 then
              match slice_get buffer offset (zlen buffer) with
              | None => hm
              | Some bytes => <[field := mkField bytes ty (zlen bytes)]> hm
              end
            else zcd_loop buffer count (index + 1) fields offset hm
          else
            match checked_add usize_max offset size with
            | None => hm
            | Some end_ =>
                if zlen buffer <? end_ then hm
                else
                  match slice_get buffer offset end_ with
                  | None => hm
                  | Some bytes =>
                      zcd_loop buffer count (index + 1) fields end_
                        (<[field := mkField bytes ty size]> hm)
                  end
            end
      end
  end.

Definition zcd_builder (buffer : list Z) (fields : list Entry) : ZCD :=
  mkZCD buffer (zcd_loop buffer (zlen fields) 0 fields 0 ∅).

Definition deserialize_with (fields : list Entry) (buffer : list Z) : ZCD :=
  zcd_builder buffer fields.

(** ** The strict walk of a status body *)

(** The [for] loop of [decode_fixed_fields] from field [index] on; the slice
    [buffer[offset..end]] is in range because [remaining >= size]. *)
Fixpoint fixed_loop (buffer : list Z) (optional_extension : option string)
    (last index : Z) (fields : list Entry) (offset : Z) (hm : gmap string ZCDField)
  : result (gmap string ZCDField) ZcdError :=
  match fields with
  | [] => Ok hm
  | (ty, field, size) :: fields =>
      match type_width ty with
      | None => Err (ZMalformed field size 0)
      | Some width =>
          if negb (width =? size) then Err (ZMalformed field width size)
          else
            let remaining := sat_sub (zlen buffer) offset in
            if (remaining =? 0) && bool_decide (optional_extension = Some field)
               && (index =? last)
            then Ok hm
            else if remaining <? size then
              Err (if remaining =? 0 then ZTruncated field size remaining
                   else ZMalformed field size remaining)
            else
              let end_ := offset + size in
              let slice := take (Z.to_nat size) (drop (Z.to_nat offset) buffer) in
              fixed_loop buffer optional_extension last (index + 1) fields end_
                (<[field := mkField slice ty size]> hm)
      end
  end.

Definition decode_fixed_fields (buffer : list Z) (fields : list Entry)
    (optional_extension : option string) : result ZCD ZcdError :=
  rmap (mkZCD buffer)
    (fixed_loop buffer optional_extension (sat_sub (zlen fields) 1) 0 fields 0 ∅).

Definition deserialize_status_result (buffer : list Z) : result ZCD ZcdError :=
  decode_fixed_fields buffer STATUS_RESULT_V0_FIELDS (Some "chain_id").

Definition deserialize_status_result_v1 (buffer : list Z) : result ZCD ZcdError :=
  decode_fixed_fields buffer STATUS_RESULT_V1_FIELDS None.

Definition deserialize_result (buffer : list Z) : ZCD :=
  zcd_builder buffer RESULT_V0_FIELDS.

(** ** Lemmas and theorems *)

Definition entry_name (e : Entry) : string := e.1.2.
Definition entry_size (e : Entry) : Z := e.2.

(** Where field [k] of a table starts. *)
Definition entry_offset (fields : list Entry) (k : nat) : Z :=
  foldr Z.add 0 (map entry_size (take k fields)).

(** The field a table's [k]-th entry denotes in [buffer]. *)
Definition entry_field (buffer : list Z) (offset : Z) (e : Entry) : ZCDField :=
  mkField (take (Z.to_nat (entry_size e)) (drop (Z.to_nat offset) buffer)) e.1.1 (entry_size e).

Lemma type_width_pos ty w : type_width ty = Some w -> 0 < w.
Proof. destruct ty; cbn; intros [= <-]; lia. Qed.

Lemma entry_offset_nonneg fields k :
  Forall (fun e => 0 < entry_size e) fields -> 0 <= entry_offset fields k.
Proof.
  intros Hf. revert k. induction Hf as [|e fields He _ IH]; intros [|k]; try done.
  specialize (IH k). unfold entry_offset in *. cbn. lia.
Qed.

Lemma entry_offset_S (e : Entry) fields k :
  entry_offset (e :: fields) (S k) = entry_size e + entry_offset fields k.
Proof. done. Qed.

(** The walk leaves fields it does not name alone, and binds each field it
    reaches to the bytes at its offset. *)
Lemma fixed_loop_fields buffer opt last index fields offset hm hm' :
  fixed_loop buffer opt last index fields offset hm = Ok hm' ->
  NoDup (map entry_name fields) -> Forall (fun e => 0 < entry_size e) fields ->
  (forall name, name ∉ map entry_name fields -> hm' !! name = hm !! name)
  /\ (forall k e, fields !! k = Some e ->
       offset + entry_offset fields k + entry_size e <= zlen buffer ->
       hm' !! entry_name e = Some (entry_field buffer (offset + entry_offset fields k) e))
  /\ (forall k e, fields !! k = Some e ->
       zlen buffer < offset + entry_offset fields k + entry_size e ->
       hm' !! entry_name e = hm !! entry_name e).
Proof.
  revert index offset hm. induction fields as [|[[ty field] size] fields IH];
    intros index offset hm; cbn [fixed_loop map].
  { intros [= ->] _ _. by split. }
  destruct (type_width ty) as [w|] eqn:Ew; [|done]. apply type_width_pos in Ew.
  destruct (negb _) eqn:E; [done|]. bools. subst w.
  cbv zeta. destruct (_ && _ && _) eqn:Eopt; intros Hrun Hnd Hpos;
    inversion Hnd as [|? ? Hnotin Hnd']; subst.
  { injection Hrun as <-. bools. split_and!; [done| |done]. intros k e Hk Hle.
    pose proof (entry_offset_nonneg _ k Hpos). apply list_elem_of_lookup_2 in Hk.
    rewrite Forall_forall in Hpos. specialize (Hpos e Hk). unfold sat_sub in *. lia. }
  destruct (_ <? size) eqn:Er in Hrun; [done|]. bools. inversion Hpos; subst.
  apply IH in Hrun as (Hother & Hfields & Habsent); [|done..]. split_and!.
  - intros name Hn. cbn in Hn. rewrite Hother, lookup_insert_ne; [done|..]; set_solver.
  - intros [|k] e Hk Hle.
    + injection Hk as <-. cbn [entry_name fst snd]. rewrite Hother by done.
      rewrite lookup_insert_eq. unfold entry_field, entry_offset. cbn. by rewrite Z.add_0_r.
    + cbn in Hk. rewrite entry_offset_S, Z.add_assoc in Hle |- *. by apply Hfields.
  - intros [|k] e Hk Hlt.
    + injection Hk as <-. unfold entry_offset in Hlt. cbn in Hlt. unfold sat_sub in *. lia.
    + cbn in Hk. rewrite entry_offset_S, Z.add_assoc in Hlt. rewrite (Habsent k e) by done.
      apply list_elem_of_lookup_2, (list_elem_of_fmap_2 entry_name) in Hk.
      apply lookup_insert_ne. intros ->. by apply Hnotin.
Qed.

(** The lengths at which a status body ends between two required fields. *)
Definition V0_BOUNDARIES : list Z := [0; 4; 36; 40; 72; 76; 80; 84].
Definition V1_BOUNDARIES : list Z := V0_BOUNDARIES ++ [88; 120; 124].

Lemma fixed_step b opt last index ty field size fields offset hm :
  type_width ty = Some size ->
  fixed_loop b opt last index ((ty, field, size) :: fields) offset hm
  = if (zlen b <=? offset) && (bool_decide (opt = Some field) && (index =? last)) then Ok hm
    else if zlen b <? offset + size then
      Err (if zlen b <=? offset then ZTruncated field size 0
           else ZMalformed field size (zlen b - offset))
    else fixed_loop b opt last (index + 1) fields (offset + size)
           (<[field := mkField (take (Z.to_nat size) (drop (Z.to_nat offset) b)) ty size]> hm).
Proof.
  intros Hw. cbn [fixed_loop]. rewrite Hw, Z.eqb_refl. apply type_width_pos in Hw.
  cbn [negb]. cbv zeta. unfold sat_sub.
  replace (Z.max 0 (zlen b - offset) =? 0) with (zlen b <=? offset) by lia.
  replace (Z.max 0 (zlen b - offset) <? size) with (zlen b <? offset + size) by lia.
  rewrite andb_assoc. destruct (zlen b <=? offset) eqn:E; bools.
  - by replace (Z.max 0 (zlen b - offset)) with 0 by lia.
  - by replace (Z.max 0 (zlen b - offset)) with (zlen b - offset) by lia.
Qed.

(** Run the strict walk field by field and decide the lengths left. *)
Ltac walk_status :=
  unfold STATUS_RESULT_V0_FIELDS, STATUS_RESULT_V1_FIELDS;
  repeat (rewrite fixed_step by reflexivity;
    match goal with |- context [bool_decide ?P && (?i =? ?l)] =>
      let v := eval vm_compute in (bool_decide P && (i =? l)) in
      change (bool_decide P && (i =? l)) with v end;
    rewrite ?andb_true_r, ?andb_false_r;
    repeat match goal with |- context [if ?c then _ else _] =>
      lazymatch type of c with bool =>
        lazymatch c with context [zlen _] => destruct c eqn:? end end end;
    cbn [rmap]; bools;
    unfold V0_BOUNDARIES, V1_BOUNDARIES, V0_BOUNDARIES; rewrite ?elem_of_app, ?elem_of_cons, ?elem_of_nil;
    try solve [exact I | lia]);
  cbn [fixed_loop rmap]; solve [exact I | lia].

Lemma status_v0_accepts b :
  match deserialize_status_result b with Ok _ => zlen b = 88 \/ 120 <= zlen b | Err _ => True end.
Proof. unfold deserialize_status_result, decode_fixed_fields. walk_status. Qed.
Lemma status_v1_accepts b :
  match deserialize_status_result_v1 b with Ok _ => 128 <= zlen b | Err _ => True end.
Proof. unfold deserialize_status_result_v1, decode_fixed_fields. walk_status. Qed.

(** A [get_status_result_v0] body is accepted exactly when it ends right
    before the optional [chain_id] or holds it whole; a body that ends on an
    earlier field boundary is truncated with no byte of the field, any other is
    malformed with some but not all of its bytes. *)
Lemma status_v0_lengths (b : list Z) :
  match deserialize_status_result b with
  | Ok _ => zlen b = 88 \/ 120 <= zlen b
  | Err (ZTruncated _ _ r) => r = 0 /\ zlen b ∈ V0_BOUNDARIES
  | Err (ZMalformed _ expected actual) =>
      0 < actual < expected /\ zlen b < 120 /\ zlen b <> 88 /\ zlen b ∉ V0_BOUNDARIES
  | Err _ => False
  end.
Proof.
  unfold deserialize_status_result, decode_fixed_fields. walk_status.
Qed.

(** A [get_status_result_v1] body is accepted exactly when it holds every
    field, finality bounds included; the errors are told apart as for v0. *)
Lemma status_v1_lengths (b : list Z) :
  match deserialize_status_result_v1 b with
  | Ok _ => 128 <= zlen b
  | Err (ZTruncated _ _ r) => r = 0 /\ zlen b ∈ V1_BOUNDARIES
  | Err (ZMalformed _ expected actual) =>
      0 < actual < expected /\ zlen b < 128 /\ zlen b ∉ V1_BOUNDARIES
  | Err _ => False
  end.
Proof.
  unfold deserialize_status_result_v1, decode_fixed_fields. walk_status.
Qed.

Definition status_table (v1 : bool) : list Entry :=
  if v1 then STATUS_RESULT_V1_FIELDS else STATUS_RESULT_V0_FIELDS.
Definition deserialize_status (v1 : bool) (b : list Z) : result ZCD ZcdError :=
  if v1 then deserialize_status_result_v1 b else deserialize_status_result b.

(** A status body is accepted exactly when it holds every field (a v0 body
    may end right before the optional [chain_id]); one that ends on an earlier
    field boundary is truncated with no byte of the field, and any other is
    malformed with some but not all of its bytes. *)
Theorem status_lengths (v1 : bool) (b : list Z) :
  let boundaries := if v1 then V1_BOUNDARIES else V0_BOUNDARIES in
  let whole := if v1 then 128 else 120 in
  match deserialize_status v1 b with
  | Ok _ => whole <= zlen b \/ v1 = false /\ zlen b = 88
  | Err (ZTruncated _ _ r) => r = 0 /\ zlen b ∈ boundaries
  | Err (ZMalformed _ expected actual) =>
      0 < actual < expected /\ zlen b < whole /\ zlen b ∉ boundaries
  | Err _ => False
  end.
Proof.
  destruct v1; cbn [deserialize_status]; cbv zeta.
  - pose proof (status_v1_lengths b) as H. repeat case_match; tauto.
  - pose proof (status_v0_lengths b) as H. repeat case_match; tauto.
Qed.

Lemma status_table_ok v1 :
  NoDup (map entry_name (status_table v1))
  /\ Forall (fun e => 0 < entry_size e) (status_table v1).
Proof.
  split; [|destruct v1; repeat constructor].
  apply (bool_decide_unpack _). by destruct v1; vm_compute.
Qed.

Lemma status_fields_bound v1 b z :
  deserialize_status v1 b = Ok z ->
  forall k e, status_table v1 !! k = Some e ->
    hash_map z !! entry_name e
    = if entry_offset (status_table v1) k + entry_size e <=? zlen b
      then Some (entry_field b (entry_offset (status_table v1) k) e) else None.
Proof.
  intros Hok k e Hk. destruct (status_table_ok v1) as [Hnd Hpos].
  assert (exists last opt, fixed_loop b opt last 0 (status_table v1) 0 ∅ = Ok (hash_map z))
    as (last & opt & Hrun).
  { revert Hok. destruct v1; cbn [deserialize_status status_table]; unfold deserialize_status_result_v1, deserialize_status_result,
      decode_fixed_fields; (destruct (fixed_loop _ _ _ _ _ _ _) eqn:E; [|done]);
      intros [= <-]; eexists _, _; exact E. }
  destruct (fixed_loop_fields _ _ _ _ _ _ _ _ Hrun Hnd Hpos) as (_ & Hin & Hout).
  destruct (_ <=? _) eqn:E; bools; [by apply Hin|]. rewrite (Hout k e Hk) by lia.
  apply lookup_empty.
Qed.

(** In an accepted status body every field of the table is bound to the
    bytes at its offset, and the one field that may be missing, the trailing
    [chain_id] of v0, is unbound. *)
Theorem status_fields_exact (v1 : bool) (b : list Z) (z : ZCD) (k : nat) (e : Entry) :
  deserialize_status v1 b = Ok z -> status_table v1 !! k = Some e ->
  hash_map z !! entry_name e
  = (if entry_offset (status_table v1) k + entry_size e <=? zlen b
     then Some (entry_field b (entry_offset (status_table v1) k) e) else None)
  /\ (zlen b < entry_offset (status_table v1) k + entry_size e ->
      v1 = false /\ entry_name e = "chain_id" /\ zlen b = 88).
Proof.
  intros Hok Hk. split; [by apply status_fields_bound|].
  intros Hlt. destruct v1; cbn [deserialize_status status_table] in *.
  - pose proof (status_v1_accepts b) as Hlen. rewrite Hok in Hlen. exfalso.
    do 12 (destruct k as [|k]; [try (injection Hk as <-; cbn in Hlt; lia)|]); done.
  - pose proof (status_v0_accepts b) as Hlen. rewrite Hok in Hlen.
    do 10 (destruct k as [|k];
      [try (injection Hk as <-; cbn in Hlt; first [lia | split_and!; [done|done|lia]])|]); done.
Qed.

(** The v0 body without its [chain_id] extension. *)
Lemma status_fields_exact_witness :
  match deserialize_status false (repeat 0 88) with
  | Ok z => hash_map z !! "chain_id" = None
  | Err _ => False
  end.
Proof.
  destruct (deserialize_status false (repeat 0 88)) as [z|] eqn:E; [|discriminate E].
  exact (proj1 (status_fields_exact false _ z 8 (TChecksum256, "chain_id", 32) E eq_refl)).
Defined.

(** *** Bodies laid out field by field *)

Lemma chunk_at (chunks : list (list Z)) (table : list Entry) k c e :
  Forall2 (fun c e => zlen c = entry_size e) chunks table ->
  chunks !! k = Some c -> table !! k = Some e ->
  entry_field (concat chunks) (entry_offset table k) e = mkField c e.1.1 (entry_size e)
  /\ entry_offset table k + entry_size e <= zlen (concat chunks).
Proof.
  intros Hall. revert k. induction Hall as [|c0 e0 chunks table Hlen Hall IH]; [done|].
  intros [|k].
  - intros [= <-] [= <-]. unfold entry_field, entry_offset. cbn [take map foldr concat].
    change (Z.to_nat 0) with 0%nat. rewrite drop_0, <-Hlen, Nat2Z.id, take_app_length.
    split; [done|]. zlens. lia.
  - intros Hc He. cbn in Hc, He. destruct (IH k Hc He) as [Hf Hle].
    rewrite entry_offset_S, <-Hlen. unfold entry_field in *. cbn [concat].
    assert (0 <= entry_offset table k) as Hnn.
    { clear -Hall. revert k. induction Hall as [|c e chunks table Hlen _ IH]; intros [|k]; try done.
      rewrite entry_offset_S. specialize (IH k). lia. }
    rewrite Z2Nat.inj_add, Nat2Z.id, <-drop_drop, drop_app_length by lia.
    split; [done|]. zlens. lia.
Qed.

Lemma status_total (v1 : bool) (b : list Z) : (if v1 then 128 else 120) <= zlen b -> exists z, deserialize_status v1 b = Ok z.
Proof.
  intros Hlen. destruct v1; cbn [deserialize_status].
  - assert (match deserialize_status_result_v1 b with Ok _ => True | Err _ => zlen b < 128 end) as H.
    { clear. unfold deserialize_status_result_v1, decode_fixed_fields. walk_status. }
    destruct (deserialize_status_result_v1 b); [eauto|lia].
  - assert (match deserialize_status_result b with Ok _ => True | Err _ => zlen b < 120 end) as H.
    { clear. unfold deserialize_status_result, decode_fixed_fields. walk_status. }
    destruct (deserialize_status_result b); [eauto|lia].
Qed.

(** Decoding a body laid out as [chunks]: every field is the chunk itself. *)
Lemma status_chunks v1 chunks rest :
  Forall2 (fun c e => zlen c = entry_size e) chunks (status_table v1) ->
  exists z, deserialize_status v1 (concat (chunks ++ [rest])) = Ok z
    /\ forall k c e, chunks !! k = Some c -> status_table v1 !! k = Some e ->
       hash_map z !! entry_name e = Some (mkField c e.1.1 (entry_size e)).
Proof.
  intros Hall. set (table' := status_table v1 ++ [(TBytes, "", zlen rest)]).
  assert (Forall2 (fun c e => zlen c = entry_size e) (chunks ++ [rest]) table') as Hall'.
  { apply Forall2_app; [done|]. by repeat constructor. }
  assert (forall k c e, chunks !! k = Some c -> status_table v1 !! k = Some e ->
    entry_field (concat (chunks ++ [rest])) (entry_offset (status_table v1) k) e
      = mkField c e.1.1 (entry_size e)
    /\ entry_offset (status_table v1) k + entry_size e <= zlen (concat (chunks ++ [rest]))) as Hat.
  { intros k c e Hc He. pose proof (lookup_lt_Some _ _ _ He) as Hlt.
    replace (entry_offset (status_table v1) k) with (entry_offset table' k).
    - apply chunk_at; [done|by apply lookup_app_l_Some|by apply lookup_app_l_Some].
    - unfold entry_offset, table'. rewrite take_app_le by lia. done. }
  destruct (status_total v1 (concat (chunks ++ [rest]))) as [z Hz].
  { destruct v1.
    - destruct (Forall2_lookup_r _ _ _ 10 (TU32, "finality_data_end_block", 4) Hall eq_refl)
        as (c & Hc & _).
      exact (proj2 (Hat 10%nat c _ Hc eq_refl)).
    - destruct (Forall2_lookup_r _ _ _ 8 (TChecksum256, "chain_id", 32) Hall eq_refl)
        as (c & Hc & _).
      exact (proj2 (Hat 8%nat c _ Hc eq_refl)). }
  exists z. split; [done|]. intros k c e Hc He. destruct (Hat k c e Hc He) as [Hf Hle].
  rewrite (status_fields_bound v1 _ z Hz k e He), (proj2 (Z.leb_le _ _)) by done. by rewrite Hf.
Qed.
