(* ===== verification/Models.v ===== *)
(** * Upstream state

    Models [src/src/models.rs]: the declared upstreams ([Role], [Topology] and
    the policies), and [ServerState], what the router knows about one upstream:
    the reported block ranges, the block-range exclusions ("quarantines") and
    the operations on them.

    Times: an [Instant] is a number of nanoseconds, a [Duration] too. The fields
    of [ServerState] copied from the configuration are grouped in [ServerCfg]
    and the ones a status result reports in [Reported]. Shared atomics are the
    values they hold, and [went_offline_wakes] counts [notify_waiters] calls.

    The theorems: when a failure arms an exclusion and what it then excludes,
    that exclusions stay unique and unexpired, and that marking an upstream
    offline keeps its coverage. *)

From S2P Require Import Prelude Wire Zcd.

(** ** Declared upstreams *)

Inductive Role := Live | Frozen.
#[export] Instance Role_eq_dec : EqDecision Role.
Proof. solve_decision. Defined.
Definition is_live (r : Role) : bool := match r with Live => true | Frozen => false end.

Inductive Topology := TAuto | TPool | TStitched.
Inductive ResolvedTopology := RPool | RStitched.
#[export] Instance Topology_eq_dec : EqDecision Topology.
Proof. solve_decision. Defined.
#[export] Instance ResolvedTopology_eq_dec : EqDecision ResolvedTopology.
Proof. solve_decision. Defined.

Inductive HistoryPreference := HPFrozen | HPAny.
Inductive AbiMismatch := AbiWarn | AbiExclude.
#[export] Instance HistoryPreference_eq_dec : EqDecision HistoryPreference.
Proof. solve_decision. Defined.
#[export] Instance AbiMismatch_eq_dec : EqDecision AbiMismatch.
Proof. solve_decision. Defined.

Definition default_predial_blocks : Z := 2000.
Definition default_gap_wait_ms : Z := 30000.

Record StitchingPolicy := mkStitching {
  history_preference : HistoryPreference;
  predial_blocks : Z;
  gap_wait_ms : Z;
  patch_head_lib_flag : bool;
  abi_file : option string;
  abi_mismatch : AbiMismatch;
}.

Definition default_stitching : StitchingPolicy :=
  mkStitching HPFrozen default_predial_blocks default_gap_wait_ms true None AbiWarn.

(** A server as declared in [config.json]. *)
Record Server := mkServer {
  sv_name : string;
  sv_endpoint : string;
  sv_enabled : bool;
  sv_role : Role;
  sv_range : option Range;
  sv_max_sessions : option Z;
  sv_priority : Z;
  sv_weight : Z;
  sv_api_endpoint : option string;
}.

Definition has_enabled_frozen (servers : list Server) : bool :=
  existsb (fun s => sv_enabled s && bool_decide (sv_role s = Frozen)) servers.

Definition resolve (t : Topology) (servers : list Server) : ResolvedTopology :=
  match t with
  | TPool => RPool
  | TStitched => RStitched
  | TAuto => if has_enabled_frozen servers then RStitched else RPool
  end.

(** ** Block-range exclusions *)

Record BlockFailureQuarantine := mkPolicy {
  q_strikes : Z;
  q_window_secs : Z;
  q_ttl_secs : Z;
  q_range : Z;
}.

Record BlockQuarantine := mkQuarantine { bq_block : Z; bq_range : Z; bq_until : Z }.

Record BlockStrike := mkStrike { bs_block : Z; bs_at : Z }.

Definition covers (q : BlockQuarantine) (block : Z) : bool :=
  match checked_add u32_max (bq_block q) (bq_range q) with
  | Some end_ => (bq_block q <=? block) && (block <? end_)
  | None => bq_block q <=? block
  end.

Definition active (q : BlockQuarantine) (now : Z) : bool := now <? bq_until q.

Definition from_secs (s : Z) : Z := s * 1000000000.

(** The last [Instant] of the 64-bit Unix targets: [i64] seconds. *)
Definition instant_max : Z := 9223372036854775807 * 1000000000 + 999999999.

Definition quarantine_deadline (now ttl_secs : Z) : Z :=
  match checked_add instant_max now (from_secs ttl_secs) with
  | Some t => t
  | None =>
      match checked_add instant_max now (from_secs (86400 * 365)) with
      | Some t => t
      | None => now
      end
  end.

(** ** Upstream state *)

Record ServerCfg := mkServerCfg {
  s_name : string;
  s_index : Z;
  s_role : Role;
  s_declared : option Range;
  s_max_sessions : option Z;
  s_priority : Z;
  s_weight : Z;
  expected_chain_id : option (list Z);
  require_chain_id : bool;
}.

Record Reported := mkReported {
  trace_begin_block : Z;
  trace_end_block : Z;
  chain_state_begin_block : Z;
  chain_state_end_block : Z;
  finality_data_begin_block : Z;
  finality_data_end_block : Z;
  s_head : option BlockPos;
  s_lib : option BlockPos;
}.
#[export] Instance Reported_eq_dec : EqDecision Reported.
Proof. solve_decision. Defined.

Record MonitorWarnings := mkWarnings {
  looks_frozen : bool;
  frozen_advanced : bool;
  w_range_mismatch : bool;
  w_abi_fp : option Z;
}.

Record AbiEntry := mkAbi { abi_text : string; abi_fp : Z; abi_compatible : bool }.

Record ServerState := mkServerState {
  cfg : ServerCfg;
  connections : Z;
  went_offline_wakes : Z;
  enabled : bool;
  operator_disabled : bool;
  online : bool;
  stale : bool;
  chain_id_unverified_warned : bool;
  chain_id : option (list Z);
  reported : Reported;
  ranges_known : bool;
  block_failures : Z;
  block_strikes : list BlockStrike;
  quarantines : list BlockQuarantine;
  status_at : option Z;
  status_head_reference : option Z;
  head_lag_blocks : option Z;
  status_v1 : option bool;
  abi : option AbiEntry;
  offline_since : option Z;
  no_block_log : bool;
  warned : MonitorWarnings;
}.

(** Field updates. *)
Definition set_connections (v : Z) (s : ServerState) : ServerState :=
  mkServerState (cfg s) v (went_offline_wakes s) (enabled s) (operator_disabled s) (online s)
    (stale s) (chain_id_unverified_warned s) (chain_id s) (reported s) (ranges_known s)
    (block_failures s) (block_strikes s) (quarantines s) (status_at s) (status_head_reference
    s) (head_lag_blocks s) (status_v1 s) (abi s) (offline_since s) (no_block_log s) (warned
    s).
Definition set_went_offline_wakes (v : Z) (s : ServerState) : ServerState :=
  mkServerState (cfg s) (connections s) v (enabled s) (operator_disabled s) (online s) (stale
    s) (chain_id_unverified_warned s) (chain_id s) (reported s) (ranges_known s)
    (block_failures s) (block_strikes s) (quarantines s) (status_at s) (status_head_reference
    s) (head_lag_blocks s) (status_v1 s) (abi s) (offline_since s) (no_block_log s) (warned
    s).
Definition set_enabled (v : bool) (s : ServerState) : ServerState :=
  mkServerState (cfg s) (connections s) (went_offline_wakes s) v (operator_disabled s) (online
    s) (stale s) (chain_id_unverified_warned s) (chain_id s) (reported s) (ranges_known s)
    (block_failures s) (block_strikes s) (quarantines s) (status_at s) (status_head_reference
    s) (head_lag_blocks s) (status_v1 s) (abi s) (offline_since s) (no_block_log s) (warned
    s).
Definition set_operator_disabled (v : bool) (s : ServerState) : ServerState :=
  mkServerState (cfg s) (connections s) (went_offline_wakes s) (enabled s) v (online s) (stale
    s) (chain_id_unverified_warned s) (chain_id s) (reported s) (ranges_known s)
    (block_failures s) (block_strikes s) (quarantines s) (status_at s) (status_head_reference
    s) (head_lag_blocks s) (status_v1 s) (abi s) (offline_since s) (no_block_log s) (warned
    s).
Definition set_online (v : bool) (s : ServerState) : ServerState :=
  mkServerState (cfg s) (connections s) (went_offline_wakes s) (enabled s) (operator_disabled
    s) v (stale s) (chain_id_unverified_warned s) (chain_id s) (reported s) (ranges_known s)
    (block_failures s) (block_strikes s) (quarantines s) (status_at s) (status_head_reference
    s) (head_lag_blocks s) (status_v1 s) (abi s) (offline_since s) (no_block_log s) (warned
    s).
Definition set_stale (v : bool) (s : ServerState) : ServerState :=
  mkServerState (cfg s) (connections s) (went_offline_wakes s) (enabled s) (operator_disabled
    s) (online s) v (chain_id_unverified_warned s) (chain_id s) (reported s) (ranges_known s)
    (block_failures s) (block_strikes s) (quarantines s) (status_at s) (status_head_reference
    s) (head_lag_blocks s) (status_v1 s) (abi s) (offline_since s) (no_block_log s) (warned
    s).
Definition set_chain_id_unverified_warned (v : bool) (s : ServerState) : ServerState :=
  mkServerState (cfg s) (connections s) (went_offline_wakes s) (enabled s) (operator_disabled
    s) (online s) (stale s) v (chain_id s) (reported s) (ranges_known s) (block_failures s)
    (block_strikes s) (quarantines s) (status_at s) (status_head_reference s) (head_lag_blocks
    s) (status_v1 s) (abi s) (offline_since s) (no_block_log s) (warned s).
Definition set_chain_id (v : option (list Z)) (s : ServerState) : ServerState :=
  mkServerState (cfg s) (connections s) (went_offline_wakes s) (enabled s) (operator_disabled
    s) (online s) (stale s) (chain_id_unverified_warned s) v (reported s) (ranges_known s)
    (block_failures s) (block_strikes s) (quarantines s) (status_at s) (status_head_reference
    s) (head_lag_blocks s) (status_v1 s) (abi s) (offline_since s) (no_block_log s) (warned
    s).
Definition set_reported (v : Reported) (s : ServerState) : ServerState :=
  mkServerState (cfg s) (connections s) (went_offline_wakes s) (enabled s) (operator_disabled
    s) (online s) (stale s) (chain_id_unverified_warned s) (chain_id s) v (ranges_known s)
    (block_failures s) (block_strikes s) (quarantines s) (status_at s) (status_head_reference
    s) (head_lag_blocks s) (status_v1 s) (abi s) (offline_since s) (no_block_log s) (warned
    s).
Definition set_ranges_known (v : bool) (s : ServerState) : ServerState :=
  mkServerState (cfg s) (connections s) (went_offline_wakes s) (enabled s) (operator_disabled
    s) (online s) (stale s) (chain_id_unverified_warned s) (chain_id s) (reported s) v
    (block_failures s) (block_strikes s) (quarantines s) (status_at s) (status_head_reference
    s) (head_lag_blocks s) (status_v1 s) (abi s) (offline_since s) (no_block_log s) (warned
    s).
Definition set_block_failures (v : Z) (s : ServerState) : ServerState :=
  mkServerState (cfg s) (connections s) (went_offline_wakes s) (enabled s) (operator_disabled
    s) (online s) (stale s) (chain_id_unverified_warned s) (chain_id s) (reported s)
    (ranges_known s) v (block_strikes s) (quarantines s) (status_at s) (status_head_reference
    s) (head_lag_blocks s) (status_v1 s) (abi s) (offline_since s) (no_block_log s) (warned
    s).
Definition set_block_strikes (v : list BlockStrike) (s : ServerState) : ServerState :=
  mkServerState (cfg s) (connections s) (went_offline_wakes s) (enabled s) (operator_disabled
    s) (online s) (stale s) (chain_id_unverified_warned s) (chain_id s) (reported s)
    (ranges_known s) (block_failures s) v (quarantines s) (status_at s) (status_head_reference
    s) (head_lag_blocks s) (status_v1 s) (abi s) (offline_since s) (no_block_log s) (warned
    s).
Definition set_quarantines (v : list BlockQuarantine) (s : ServerState) : ServerState :=
  mkServerState (cfg s) (connections s) (went_offline_wakes s) (enabled s) (operator_disabled
    s) (online s) (stale s) (chain_id_unverified_warned s) (chain_id s) (reported s)
    (ranges_known s) (block_failures s) (block_strikes s) v (status_at s)
    (status_head_reference s) (head_lag_blocks s) (status_v1 s) (abi s) (offline_since s)
    (no_block_log s) (warned s).
Definition set_status_at (v : option Z) (s : ServerState) : ServerState :=
  mkServerState (cfg s) (connections s) (went_offline_wakes s) (enabled s) (operator_disabled
    s) (online s) (stale s) (chain_id_unverified_warned s) (chain_id s) (reported s)
    (ranges_known s) (block_failures s) (block_strikes s) (quarantines s) v
    (status_head_reference s) (head_lag_blocks s) (status_v1 s) (abi s) (offline_since s)
    (no_block_log s) (warned s).
Definition set_status_head_reference (v : option Z) (s : ServerState) : ServerState :=
  mkServerState (cfg s) (connections s) (went_offline_wakes s) (enabled s) (operator_disabled
    s) (online s) (stale s) (chain_id_unverified_warned s) (chain_id s) (reported s)
    (ranges_known s) (block_failures s) (block_strikes s) (quarantines s) (status_at s) v
    (head_lag_blocks s) (status_v1 s) (abi s) (offline_since s) (no_block_log s) (warned s).
Definition set_head_lag_blocks (v : option Z) (s : ServerState) : ServerState :=
  mkServerState (cfg s) (connections s) (went_offline_wakes s) (enabled s) (operator_disabled
    s) (online s) (stale s) (chain_id_unverified_warned s) (chain_id s) (reported s)
    (ranges_known s) (block_failures s) (block_strikes s) (quarantines s) (status_at s)
    (status_head_reference s) v (status_v1 s) (abi s) (offline_since s) (no_block_log s)
    (warned s).
Definition set_status_v1 (v : option bool) (s : ServerState) : ServerState :=
  mkServerState (cfg s) (connections s) (went_offline_wakes s) (enabled s) (operator_disabled
    s) (online s) (stale s) (chain_id_unverified_warned s) (chain_id s) (reported s)
    (ranges_known s) (block_failures s) (block_strikes s) (quarantines s) (status_at s)
    (status_head_reference s) (head_lag_blocks s) v (abi s) (offline_since s) (no_block_log s)
    (warned s).
Definition set_abi (v : option AbiEntry) (s : ServerState) : ServerState :=
  mkServerState (cfg s) (connections s) (went_offline_wakes s) (enabled s) (operator_disabled
    s) (online s) (stale s) (chain_id_unverified_warned s) (chain_id s) (reported s)
    (ranges_known s) (block_failures s) (block_strikes s) (quarantines s) (status_at s)
    (status_head_reference s) (head_lag_blocks s) (status_v1 s) v (offline_since s)
    (no_block_log s) (warned s).
Definition set_offline_since (v : option Z) (s : ServerState) : ServerState :=
  mkServerState (cfg s) (connections s) (went_offline_wakes s) (enabled s) (operator_disabled
    s) (online s) (stale s) (chain_id_unverified_warned s) (chain_id s) (reported s)
    (ranges_known s) (block_failures s) (block_strikes s) (quarantines s) (status_at s)
    (status_head_reference s) (head_lag_blocks s) (status_v1 s) (abi s) v (no_block_log s)
    (warned s).
Definition set_no_block_log (v : bool) (s : ServerState) : ServerState :=
  mkServerState (cfg s) (connections s) (went_offline_wakes s) (enabled s) (operator_disabled
    s) (online s) (stale s) (chain_id_unverified_warned s) (chain_id s) (reported s)
    (ranges_known s) (block_failures s) (block_strikes s) (quarantines s) (status_at s)
    (status_head_reference s) (head_lag_blocks s) (status_v1 s) (abi s) (offline_since s) v
    (warned s).
Definition set_warned (v : MonitorWarnings) (s : ServerState) : ServerState :=
  mkServerState (cfg s) (connections s) (went_offline_wakes s) (enabled s) (operator_disabled
    s) (online s) (stale s) (chain_id_unverified_warned s) (chain_id s) (reported s)
    (ranges_known s) (block_failures s) (block_strikes s) (quarantines s) (status_at s)
    (status_head_reference s) (head_lag_blocks s) (status_v1 s) (abi s) (offline_since s)
    (no_block_log s) v.

(** Projections through the groups. *)
Definition role (s : ServerState) : Role := s_role (cfg s).
Definition declared (s : ServerState) : option Range := s_declared (cfg s).
Definition st_head (s : ServerState) : option BlockPos := s_head (reported s).
Definition st_lib (s : ServerState) : option BlockPos := s_lib (reported s).

Definition no_report : Reported := mkReported 0 0 0 0 0 0 None None.
Definition no_warnings : MonitorWarnings := mkWarnings false false false None.

Definition with_cfg (c : ServerCfg) : ServerState :=
  mkServerState c 0 0 true false false false false None no_report false 0 [] []
    None None None None None None false no_warnings.

Definition with_chain_policy (expected : option (list Z)) (require : bool) : ServerState :=
  with_cfg (mkServerCfg EmptyString 0 Live None None 0 1 expected require).
Definition with_expected_chain_id (expected : option (list Z)) : ServerState :=
  with_chain_policy expected false.
Definition new_state : ServerState := with_expected_chain_id None.

Definition mark_offline (now : Z) (s : ServerState) : ServerState :=
  let s := set_status_head_reference None s in
  let s := set_head_lag_blocks None s in
  let s := if online s
           then set_went_offline_wakes (went_offline_wakes s + 1) (set_online false s)
           else s in
  let s := set_chain_id None s in
  if is_none (offline_since s) then set_offline_since (Some now) s else s.

Definition ranges_usable (s : ServerState) : bool :=
  ranges_known s || (bool_decide (role s = Frozen) && is_some (declared s)).

(** The [fits] closure of [range_mismatch]. *)
Definition log_fits (declared r : Range) : bool :=
  let begin_ok := (rbegin r =? rbegin declared)
                  || ((rbegin declared =? 1) && (rbegin r =? 2)) in
  let end_ok := (rend r =? rend declared)
                || bool_decide (checked_add u32_max (rend r) 1 = Some (rend declared)) in
  begin_ok && end_ok && negb (range_is_empty r).

Definition range_mismatch (s : ServerState) : bool :=
  match declared s with
  | Some d =>
      if ranges_known s then
        let r := reported s in
        let trace := mkRange (trace_begin_block r) (trace_end_block r) in
        let chain_state := mkRange (chain_state_begin_block r) (chain_state_end_block r) in
        let tail_served := Z.max (rend trace) (rend chain_state) =? rend d in
        negb (log_fits d trace && log_fits d chain_state && tail_served)
      else false
  | None => false
  end.

Definition reported_end (s : ServerState) : Z :=
  Z.max (Z.max (trace_end_block (reported s)) (chain_state_end_block (reported s)))
    (finality_data_end_block (reported s)).

Definition routable (s : ServerState) : bool := enabled s && negb (operator_disabled s).

Definition prune_expired_quarantines (now : Z) (s : ServerState) : ServerState :=
  set_quarantines (List.filter (fun q => active q now) (quarantines s)) s.

Definition quarantined_for (block now : Z) (s : ServerState) : bool * ServerState :=
  let s := prune_expired_quarantines now s in
  (existsb (fun q => covers q block) (quarantines s), s).

Definition any_quarantine_active (now : Z) (s : ServerState) : bool * ServerState :=
  let s := prune_expired_quarantines now s in
  (negb (bool_decide (quarantines s = [])), s).

Definition active_quarantine_block (now : Z) (s : ServerState) : option Z * ServerState :=
  let s := prune_expired_quarantines now s in
  (min_list (map bq_block (quarantines s)), s).

Definition clear_quarantines (s : ServerState) : ServerState :=
  set_block_strikes [] (set_quarantines [] s).

Definition record_block_failure (block now : Z) (policy : option BlockFailureQuarantine)
    (s : ServerState) : bool * ServerState :=
  let s := set_block_failures (sat_add u64_max (block_failures s) 1) s in
  let s := prune_expired_quarantines now s in
  match policy with
  | None => (false, s)
  | Some p =>
      let '(quarantined, s) := quarantined_for block now s in
      if quarantined then (false, s)
      else
        let window := from_secs (q_window_secs p) in
        let strikes := block_strikes s ++ [mkStrike block now] in
        let strikes := List.filter (fun st => sat_sub now (bs_at st) <=? window) strikes in
        let s := set_block_strikes strikes s in
        let count := zlen (List.filter (fun st => bs_block st =? block) strikes) in
        if count <? q_strikes p then (false, s)
        else
          let s := set_block_strikes
                     (List.filter (fun st => negb (bs_block st =? block)) (block_strikes s)) s in
          let s := set_quarantines
                     (List.filter (fun q => negb (bq_block q =? block)) (quarantines s)) s in
          let s := set_quarantines
                     (quarantines s
                      ++ [mkQuarantine block (q_range p) (quarantine_deadline now (q_ttl_secs p))]) s in
          (true, s)
  end.

(** ** The state map of a listener *)

(** [char::is_whitespace] on the ASCII range. *)
Definition is_space (c : Ascii.ascii) : bool :=
  match Ascii.nat_of_ascii c with
  | 9%nat | 10%nat | 11%nat | 12%nat | 13%nat | 32%nat => true
  | _ => false
  end.

(** [str::trim]. *)
Fixpoint trim_start (s : string) : string :=
  match s with
  | EmptyString => EmptyString
  | String.String c s' => if is_space c then trim_start s' else s
  end.
Fixpoint trim_end (s : string) : string :=
  match s with
  | EmptyString => EmptyString
  | String.String c s' =>
      match trim_end s' with
      | EmptyString => if is_space c then EmptyString else String.String c EmptyString
      | t => String.String c t
      end
  end.
Definition trim (s : string) : string := trim_end (trim_start s).

(** [str::split_once]: the text before and after the first occurrence. *)
Fixpoint split_once (sep s : string) : option (string * string) :=
  if String.prefix sep s
  then Some (EmptyString, String.substring (String.length sep) (String.length s) s)
  else
    match s with
    | EmptyString => None
    | String.String c s' =>
        match split_once sep s' with
        | Some (a, b) => Some (String.String c a, b)
        | None => None
        end
    end.

Definition code (c : Ascii.ascii) : Z := Z.of_nat (Ascii.nat_of_ascii c).
Definition is_upper (c : Ascii.ascii) : bool := (65 <=? code c) && (code c <=? 90).
Definition is_ascii_alphabetic (c : Ascii.ascii) : bool :=
  is_upper c || ((97 <=? code c) && (code c <=? 122)).
Definition is_ascii_alphanumeric (c : Ascii.ascii) : bool :=
  is_ascii_alphabetic c || ((48 <=? code c) && (code c <=? 57)).
Definition lower (c : Ascii.ascii) : Ascii.ascii :=
  if is_upper c then Ascii.ascii_of_nat (Ascii.nat_of_ascii c + 32) else c.
Fixpoint to_ascii_lowercase (s : string) : string :=
  match s with
  | EmptyString => EmptyString
  | String.String c s => String.String (lower c) (to_ascii_lowercase s)
  end.
Fixpoint all_chars (f : Ascii.ascii -> bool) (s : string) : bool :=
  match s with
  | EmptyString => true
  | String.String c s => f c && all_chars f s
  end.

Definition is_uri_scheme (scheme : string) : bool :=
  match scheme with
  | String.String c rest =>
      is_ascii_alphabetic c
      && all_chars (fun c => is_ascii_alphanumeric c
           || (code c =? 43) || (code c =? 45) || (code c =? 46)) rest
  | EmptyString => false
  end.

Definition dial_url (endpoint : string) : string :=
  let endpoint := trim endpoint in
  match split_once "://" endpoint with
  | Some (scheme, rest) =>
      if is_uri_scheme scheme
      then String.append (to_ascii_lowercase scheme) (String.append "://" rest)
      else String.append "ws://" endpoint
  | None => String.append "ws://" endpoint
  end.

Definition ws_url (s : Server) : string := dial_url (sv_endpoint s).

(** [endpoint.trim().is_empty()] is: every character is white space. *)
Fixpoint blank (s : string) : bool :=
  match s with
  | EmptyString => true
  | String.String c s => is_space c && blank s
  end.

Definition has_ship_endpoint (s : Server) : bool := negb (blank (sv_endpoint s)).

Definition state_of_server (expected : option (list Z)) (require : bool) (index : Z)
    (s : Server) : ServerState :=
  with_cfg (mkServerCfg (sv_name s) index (sv_role s) (sv_range s) (sv_max_sessions s)
    (sv_priority s) (Z.max (sv_weight s) 1) expected require).

Definition shipped (servers : list Server) : list Server :=
  List.filter (fun s => sv_enabled s && has_ship_endpoint s) servers.

(** The pairs in config order; [collect] builds the map, a later duplicate
    endpoint replacing an earlier one. *)
Definition state_entries (servers : list Server) (expected : option (list Z)) (require : bool)
  : list (string * ServerState) :=
  imap (fun i s => (sv_endpoint s, state_of_server expected require (Z.of_nat i) s))
    (shipped servers).

Definition collect {A} (l : list (string * A)) : gmap string A :=
  foldl (fun m kv => <[kv.1 := kv.2]> m) ∅ l.

Definition build_state_db_with_chain_id (servers : list Server)
    (expected : option (list Z)) (require : bool) : gmap string ServerState :=
  collect (state_entries servers expected require).

Definition build_config_db (servers : list Server) : gmap string Server :=
  collect (map (fun s => (sv_endpoint s, s)) (shipped servers)).

(** ** Settings shared by the tasks of a listener *)

Record StaticConfig := mkStaticConfig {
  sf_upstream_reconnect_ms : Z;
  sf_upstream_monitoring_ms : Z;
  sf_upstream_status_ms : Z;
  sf_connect_timeout_ms : Z;
  sf_max_message_bytes : Z;
}.
#[export] Instance StaticConfig_eq_dec : EqDecision StaticConfig.
Proof. solve_decision. Defined.

Record ProxyLimits := mkLimits {
  handshake_timeout_ms : Z;
  idle_timeout_ms : Z;
  upstream_liveness_timeout_ms : Z;
  max_message_bytes : Z;
  max_client_message_bytes : Z;
  stall_timeout_ms : Z;
  connect_timeout_ms : Z;
}.
#[export] Instance ProxyLimits_eq_dec : EqDecision ProxyLimits.
Proof. solve_decision. Defined.

(** ** Specifications *)

(** Block [block] is excluded at [now]. *)
Definition excluded (s : ServerState) (block now : Z) : Prop :=
  exists q, q ∈ quarantines s /\ active q now = true /\ covers q block = true.

(** The strikes at [block] that are within the window of [now]. *)
Definition recent_strikes (p : BlockFailureQuarantine) (block now : Z) (l : list BlockStrike) : Z :=
  zlen (List.filter (fun st => (sat_sub now (bs_at st) <=? from_secs (q_window_secs p))
                               && (bs_block st =? block)) l).

(** The exclusion a failure arms. *)
Definition armed_quarantine (p : BlockFailureQuarantine) (block now : Z) : BlockQuarantine :=
  mkQuarantine block (q_range p) (quarantine_deadline now (q_ttl_secs p)).

Definition quarantines_ok (s : ServerState) : Prop := NoDup (map bq_block (quarantines s)).

(** A run of failures at one block. *)
Fixpoint failures (block : Z) (policy : option BlockFailureQuarantine) (times : list Z)
    (s : ServerState) : list bool * ServerState :=
  match times with
  | [] => ([], s)
  | t :: times =>
      let '(b, s) := record_block_failure block t policy s in
      let '(bs, s) := failures block policy times s in
      (b :: bs, s)
  end.

(** ** Lemmas *)

Lemma filter_filter_andb {A} (f g : A -> bool) l :
  List.filter f (List.filter g l) = List.filter (fun x => g x && f x) l.
Proof.
  induction l as [|x l IH]; cbn; [done|].
  destruct (g x) eqn:E; cbn; [destruct (f x); by rewrite IH|done].
Qed.

Lemma NoDup_map_filter {A B} (f : A -> B) g l :
  NoDup (map f l) -> NoDup (map f (List.filter g l)).
Proof.
  induction l as [|x l IH]; cbn; [done|]. intros Hnd. inversion Hnd as [|? ? Hx Hnd']; subst.
  destruct (g x); [|by apply IH]. cbn. constructor; [|by apply IH].
  intros Hin. apply Hx. apply list_elem_of_fmap in Hin as (y & -> & Hy).
  apply elem_of_List_filter in Hy as [Hy _]. by apply list_elem_of_fmap_2.
Qed.

Lemma existsb_excluded s block now :
  existsb (fun q => covers q block) (List.filter (fun q => active q now) (quarantines s)) = true
  <-> excluded s block now.
Proof.
  rewrite existsb_exists. unfold excluded. split.
  - intros (q & Hq & Hc). apply list_elem_of_In, elem_of_List_filter in Hq as [Hq Ha]. eauto.
  - intros (q & Hq & Ha & Hc). exists q. split; [|done].
    apply list_elem_of_In, elem_of_List_filter. done.
Qed.

Lemma prune_twice now l :
  List.filter (fun q => active q now) (List.filter (fun q => active q now) l)
  = List.filter (fun q => active q now) l.
Proof.
  rewrite filter_filter_andb. apply filter_ext. intros q. by destruct (active q now).
Qed.

(** [record_block_failure] with a policy, on the three branches. *)
Lemma record_block_failure_cases block now p s :
  let s1 := set_quarantines (List.filter (fun q => active q now) (quarantines s))
              (set_block_failures (sat_add u64_max (block_failures s) 1) s) in
  let kept := List.filter (fun st => sat_sub now (bs_at st) <=? from_secs (q_window_secs p))
                (block_strikes s ++ [mkStrike block now]) in
  (excluded s block now /\ record_block_failure block now (Some p) s = (false, s1))
  \/ (~ excluded s block now
      /\ recent_strikes p block now (block_strikes s ++ [mkStrike block now]) < q_strikes p
      /\ record_block_failure block now (Some p) s = (false, set_block_strikes kept s1))
  \/ (~ excluded s block now
      /\ q_strikes p <= recent_strikes p block now (block_strikes s ++ [mkStrike block now])
      /\ record_block_failure block now (Some p) s
         = (true, set_quarantines
              (List.filter (fun q => negb (bq_block q =? block)) (quarantines s1)
               ++ [armed_quarantine p block now])
              (set_block_strikes
                 (List.filter (fun st => negb (bs_block st =? block)) kept) s1))).
Proof.
  cbv zeta. unfold record_block_failure, quarantined_for, prune_expired_quarantines.
  cbn [quarantines set_quarantines set_block_failures]. rewrite prune_twice.
  destruct (existsb _ _) eqn:E.
  - left. split; [by apply existsb_excluded|done].
  - right. assert (~ excluded s block now) as Hne.
    { rewrite <-existsb_excluded. by rewrite E. }
    unfold recent_strikes. rewrite <-filter_filter_andb.
    cbn [block_strikes set_quarantines set_block_failures set_block_strikes].
    destruct (_ <? q_strikes p) eqn:Ec; bools; [left|right]; done.
Qed.

Lemma covers_start p block now :
  is_u32 block -> 0 < q_range p -> covers (armed_quarantine p block now) block = true.
Proof.
  intros Hb Hr. unfold covers, checked_add, armed_quarantine. cbn [bq_block bq_range].
  destruct (_ <=? u32_max) eqn:E; lia.
Qed.

Lemma deadline_later now ttl :
  0 < ttl -> now + from_secs (86400 * 365) <= instant_max -> now < quarantine_deadline now ttl.
Proof.
  intros Ht Hn. unfold quarantine_deadline, checked_add, from_secs in *.
  destruct (_ <=? _) eqn:E; [lia|]. destruct (now + 86400 * 365 * 1000000000 <=? _) eqn:E'; cbv iota beta; lia.
Qed.

Lemma List_filter_all {A} (f : A -> bool) l : (forall x, x ∈ l -> f x = true) -> List.filter f l = l.
Proof.
  induction l as [|x l IH]; cbn; [done|]. intros H. rewrite (H x) by constructor.
  rewrite IH; [done|]. intros y Hy. apply H. by constructor.
Qed.

Lemma recent_all p block now l :
  Forall (fun st => bs_block st = block /\ now - bs_at st <= from_secs (q_window_secs p)) l ->
  0 <= q_window_secs p -> recent_strikes p block now l = zlen l.
Proof.
  intros Hl Hw. unfold recent_strikes. rewrite List_filter_all; [done|].
  intros st Hst. rewrite Forall_forall in Hl. destruct (Hl st Hst) as [<- Hat].
  unfold sat_sub, from_secs in *. lia.
Qed.

(** A failure arms an exclusion exactly when quarantine is configured, the
    block is not excluded already, and this failure is at least the
    [strikes]-th at the block within the window; a failure that does not arm
    leaves the unexpired exclusions as they were. Either way the failure is
    counted and the upstream stays as online as it was. *)
Theorem record_block_failure_arms (block now : Z) (policy : option BlockFailureQuarantine)
    (s : ServerState) :
  let '(armed, s') := record_block_failure block now policy s in
  (armed = true <-> exists p, policy = Some p /\ ~ excluded s block now
     /\ q_strikes p <= recent_strikes p block now (block_strikes s ++ [mkStrike block now]))
  /\ (armed = false -> quarantines s' = List.filter (fun q => active q now) (quarantines s))
  /\ block_failures s' = sat_add u64_max (block_failures s) 1
  /\ online s' = online s.
Proof.
  destruct policy as [p|].
  - destruct (record_block_failure_cases block now p s) as [[Hx ->]|[(Hx & Hlt & ->)|(Hx & Hle & ->)]];
      (split_and!; [|done..]); (split; [try done|]).
    + by intros (p' & _ & Hn & _).
    + intros (p' & [= <-] & _ & Hle). lia.
    + eauto.
    + done.
  - cbn. split_and!; try done. split; [done|]. by intros (p & [=] & _).
Qed.

(** Once armed at block K, the upstream is excluded for K from the instant
    of arming until the deadline, and for no block outside [K, K + range) other
    than those an earlier exclusion still covers. *)
Theorem armed_excludes (block now t b : Z) (p : BlockFailureQuarantine) (s : ServerState) :
  is_u32 block -> 0 <= q_range p -> now <= t ->
  let '(armed, s') := record_block_failure block now (Some p) s in
  armed = true ->
  (excluded s' b t <->
   (block <= b < block + q_range p \/ (u32_max < block + q_range p /\ block <= b))
     /\ t < quarantine_deadline now (q_ttl_secs p)
   \/ exists q, q ∈ quarantines s /\ bq_block q <> block /\ active q t = true /\ covers q b = true).
Proof.
  intros Hb Hr Ht.
  destruct (record_block_failure_cases block now p s) as [[Hx ->]|[(Hx & Hlt & ->)|(Hx & Hle & ->)]];
    try done. intros _. unfold excluded. cbn [quarantines set_quarantines set_block_strikes].
  assert (forall q, active q t = true -> active q now = true) as Hact.
  { intros q. unfold active. rewrite !Z.ltb_lt. lia. }
  assert (covers (armed_quarantine p block now) b = true <->
    block <= b < block + q_range p \/ (u32_max < block + q_range p /\ block <= b)) as Hcov.
  { unfold covers, checked_add, armed_quarantine. cbn [bq_block bq_range].
    destruct (_ <=? u32_max) eqn:E; rewrite ?andb_true_iff, ?Z.leb_le, ?Z.ltb_lt; lia. }
  split.
  - intros (q & Hq & Ha & Hc). apply elem_of_app in Hq as [Hq|Hq].
    + right. apply elem_of_List_filter in Hq as [Hq Hne].
      apply elem_of_List_filter in Hq as [Hq _]. bools. eauto.
    + left. apply list_elem_of_singleton in Hq as ->. rewrite Hcov in Hc.
      split; [done|]. unfold active in Ha. by bools.
  - intros [[Hc Hu]|(q & Hq & Hne & Ha & Hc)].
    + exists (armed_quarantine p block now). split_and!.
      * apply elem_of_app. right. by apply list_elem_of_singleton.
      * unfold active. by apply Z.ltb_lt.
      * by apply Hcov.
    + exists q. split_and!; [|done|done]. apply elem_of_app. left.
      rewrite !elem_of_List_filter. split_and!; auto. by apply negb_true_iff, Z.eqb_neq.
Qed.

Lemma quarantines_ok_prune now s : quarantines_ok s -> quarantines_ok (prune_expired_quarantines now s).
Proof. apply NoDup_map_filter. Qed.

(** No operation on the exclusions ever leaves two exclusions for the same
    block. *)
Theorem quarantines_stay_unique (block now : Z) (policy : option BlockFailureQuarantine)
    (s : ServerState) :
  quarantines_ok s ->
  quarantines_ok (record_block_failure block now policy s).2
  /\ quarantines_ok (quarantined_for block now s).2
  /\ quarantines_ok (any_quarantine_active now s).2
  /\ quarantines_ok (active_quarantine_block now s).2
  /\ quarantines_ok (clear_quarantines s) /\ quarantines_ok (mark_offline now s).
Proof.
  intros Hs. split_and!; try (by apply quarantines_ok_prune).
  - destruct policy as [p|]; [|by apply quarantines_ok_prune].
    destruct (record_block_failure_cases block now p s) as [[Hx ->]|[(Hx & Hlt & ->)|(Hx & Hle & ->)]];
      unfold quarantines_ok; simpl; try (by apply NoDup_map_filter).
    rewrite List.map_app. apply NoDup_app. split_and!; [|intros x Hx1 Hx2|by apply NoDup_singleton].
    + by apply NoDup_map_filter, NoDup_map_filter.
    + apply list_elem_of_fmap in Hx1 as (q & -> & Hq).
      apply elem_of_List_filter in Hq as [_ Hq]. bools.
      apply list_elem_of_singleton in Hx2. cbn in Hx2. done.
  - by apply NoDup_nil.
  - unfold quarantines_ok, mark_offline. by repeat case_match.
Qed.

Lemma not_excluded_nil s block now : quarantines s = [] -> ~ excluded s block now.
Proof. intros Hq (q & Hin & _). rewrite Hq in Hin. by apply elem_of_nil in Hin. Qed.

Section strikes.
Context (block : Z) (p : BlockFailureQuarantine) (Hw : 0 <= q_window_secs p).

Lemma failure_step t s :
  quarantines s = [] ->
  Forall (fun st => bs_block st = block /\ t - bs_at st <= from_secs (q_window_secs p))
    (block_strikes s ++ [mkStrike block t]) ->
  exists s', record_block_failure block t (Some p) s
      = (q_strikes p <=? zlen (block_strikes s) + 1, s')
    /\ (zlen (block_strikes s) + 1 < q_strikes p ->
        quarantines s' = [] /\ block_strikes s' = block_strikes s ++ [mkStrike block t]).
Proof.
  intros Hq Hall. pose proof (recent_all p block t _ Hall Hw) as Hrecent.
  rewrite length_app in Hrecent. cbn [length] in Hrecent.
  destruct (record_block_failure_cases block t p s) as [[Hx _]|[(_ & Hlt & ->)|(_ & Hle & ->)]].
  - by apply not_excluded_nil in Hx.
  - eexists. split; [f_equal; symmetry; apply Z.leb_gt; lia|]. intros _.
    split; [simpl; by rewrite Hq|]. simpl. apply List_filter_all. intros st Hst.
    rewrite Forall_forall in Hall. destruct (Hall st Hst) as [_ Hat].
    apply Z.leb_le. unfold sat_sub. apply Z.max_lub; [|done]. unfold from_secs. lia.
  - eexists. split; [f_equal; symmetry; apply Z.leb_le; lia|]. lia.
Qed.

Lemma failures_run earlier times s :
  quarantines s = [] -> block_strikes s = map (mkStrike block) earlier ->
  (forall t t', t ∈ earlier ++ times -> t' ∈ earlier ++ times ->
     t - t' <= from_secs (q_window_secs p)) ->
  zlen earlier + zlen times = q_strikes p -> times <> [] ->
  (failures block (Some p) times s).1 = repeat false (pred (length times)) ++ [true].
Proof.
  revert earlier s. induction times as [|t times IH]; intros earlier s Hq Hs Hwin Hlen Hne; [done|].
  destruct (failure_step t s Hq) as (s' & Hrec & Hrest).
  { rewrite Hs. change [mkStrike block t] with (map (mkStrike block) [t]).
    rewrite <-List.map_app. apply Forall_fmap, Forall_forall. intros t' Ht'. split; [done|].
    apply Hwin; [apply elem_of_app; right; constructor|].
    rewrite elem_of_app, elem_of_cons. apply elem_of_app in Ht' as [?|Ht']; [by left|].
    apply list_elem_of_singleton in Ht' as ->. by right; left. }
  rewrite Hs, length_map in *. cbn [failures]. rewrite Hrec. cbn [length] in Hlen.
  destruct times as [|t2 times].
  - cbn [length] in Hlen. rewrite (proj2 (Z.leb_le _ _)) by lia. done.
  - cbn [length] in Hlen. rewrite (proj2 (Z.leb_gt _ _)) by lia.
    destruct Hrest as [Hq' Hs']; [lia|].
    specialize (IH (earlier ++ [t]) s' Hq'). rewrite <-app_assoc in IH.
    specialize (IH ltac:(by rewrite Hs', List.map_app) Hwin).
    specialize (IH ltac:(zlens; lia) ltac:(done)).
    destruct (failures _ _ _ _) as [bs s'']. cbn [fst] in IH |- *. by rewrite IH.
Qed.
End strikes.

(** From a clean state, [strikes] failures at one block that all fall in
    one window arm the exclusion at the last of them and at no earlier one. *)
Theorem strikes_arm_once (block : Z) (p : BlockFailureQuarantine) (times : list Z)
    (s : ServerState) :
  0 <= q_window_secs p -> quarantines s = [] -> block_strikes s = [] ->
  (forall t t', t ∈ times -> t' ∈ times -> t - t' <= from_secs (q_window_secs p)) ->
  zlen times = q_strikes p -> times <> [] ->
  (failures block (Some p) times s).1 = repeat false (pred (length times)) ++ [true].
Proof. intros Hw Hq Hs Hwin Hlen Hne. by apply (failures_run block p Hw []). Qed.

(** ** Witnesses *)

Definition sample_policy : BlockFailureQuarantine := mkPolicy 3 300 600 10.

Lemma armed_excludes_witness :
  excluded (record_block_failure 100 5 (Some (mkPolicy 1 300 600 10)) new_state).2 105 6.
Proof.
  pose proof (armed_excludes 100 5 6 105 (mkPolicy 1 300 600 10) new_state
    ltac:(mlia) ltac:(cbn; lia) ltac:(lia)) as H.
  apply H; [reflexivity|]. left. split; [left; cbn; lia|vm_compute; reflexivity].
Defined.

Lemma quarantines_stay_unique_witness :
  quarantines_ok (record_block_failure 100 5 (Some (mkPolicy 1 300 600 10)) new_state).2.
Proof.
  apply (quarantines_stay_unique 100 5 (Some (mkPolicy 1 300 600 10)) new_state).
  apply NoDup_nil. exact I.
Defined.

Lemma strikes_arm_once_witness :
  (failures 100 (Some sample_policy) [7; 8; 9] new_state).1 = [false; false; true].
Proof.
  apply (strikes_arm_once 100 sample_policy [7; 8; 9] new_state); try reflexivity.
  - cbn. lia.
  - intros t t' Ht Ht'. rewrite !elem_of_cons, elem_of_nil in Ht, Ht'.
    unfold from_secs. cbn. lia.
  - discriminate.
Defined.
