(* ===== verification/Monitor.v ===== *)
(** * The upstream monitor: applying a status result

    Models the status handling of [src/src/tasks.rs]: [apply_status_update],
    which decodes an upstream's binary frame and updates its [ServerState] in
    the listener's state map, and the helpers it calls.

    The state map is a [gmap]; the order in which the Rust [HashMap] iterates is
    a parameter, [iter], of which only what the standard library documents is
    assumed: it visits every entry once.

    The theorems: a status the codec encodes is stored field by field; a frame
    that is not an accepted status changes nothing; no frame touches another
    upstream; and every reachable state map, of a listener's first generation or of one
    that took over the states of another, has one chain id. *)

From S2P Require Import Prelude Wire Zcd Models.

#[local] Open Scope string_scope.
#[local] Open Scope list_scope.
#[local] Open Scope Z_scope.

Definition require_u32 (z : ZCD) (field : string) : result Z ZcdError :=
  let? v := get z field in
  match v with
  | Some (VU32 value) => Ok value
  | _ => Err (ZTruncated field 4 0)
  end.

Definition require_id (z : ZCD) (field : string) : result (list Z) ZcdError :=
  let? v := get z field in
  match v with
  | Some (VChecksum256 value) => Ok value
  | _ => Err (ZTruncated field 32 0)
  end.

(** The fields [apply_status_update] reads from a status body. *)
Record StatusFields := mkStatusFields {
  f_head : BlockPos;
  f_lib : BlockPos;
  f_trace : Z * Z;
  f_chain_state : Z * Z;
  f_finality : option (Z * Z);
  f_chain_id : option (list Z);
}.

(** The reads after the head number, in the code's order. *)
Definition read_fields (variant head_block_num : Z) (z : ZCD) : result StatusFields ZcdError :=
  let? head_id := require_id z "head_block_id" in
  let? lib_num := require_u32 z "last_irreversible_block_num" in
  let? lib_id := require_id z "last_irreversible_block_id" in
  let? trace_begin := require_u32 z "trace_begin_block" in
  let? trace_end := require_u32 z "trace_end_block" in
  let? chain_begin := require_u32 z "chain_state_begin_block" in
  let? chain_end := require_u32 z "chain_state_end_block" in
  let? finality :=
    (if variant =? 3 then
       let? b := require_u32 z "finality_data_begin_block" in
       let? e := require_u32 z "finality_data_end_block" in
       Ok (Some (b, e))
     else Ok None) in
  let? cid := get z "chain_id" in
  let reported_chain_id := match cid with Some (VChecksum256 bytes) => Some bytes | _ => None end in
  Ok (mkStatusFields (mkPos head_block_num head_id) (mkPos lib_num lib_id)
        (trace_begin, trace_end) (chain_begin, chain_end) finality reported_chain_id).

(** The ranges, head and LIB a status puts in the state. *)
Definition reported_of (f : StatusFields) : Reported :=
  let fin := default (0, 0) (f_finality f) in
  mkReported (f_trace f).1 (f_trace f).2 (f_chain_state f).1 (f_chain_state f).2
    fin.1 fin.2 (Some (f_head f)) (Some (f_lib f)).

(** [warn_role_hints]: which one-time warnings are logged. *)
Definition warn_role_hints (previous_end : option Z) (s : ServerState) : ServerState :=
  if negb (bool_decide (role s = Frozen)) then s
  else
    let s :=
      if negb (frozen_advanced (warned s))
         && is_some_and (fun previous => previous <? reported_end s) previous_end
      then set_warned (mkWarnings (looks_frozen (warned s)) true
                         (w_range_mismatch (warned s)) (w_abi_fp (warned s))) s
      else s in
    set_warned (mkWarnings (looks_frozen (warned s)) (frozen_advanced (warned s))
                  (range_mismatch s) (w_abi_fp (warned s))) s.

(** The part of the handler after the [chain_id] check accepted the status. *)
Definition store_status (variant now : Z) (f : StatusFields) (s : ServerState) : ServerState :=
  let s := match f_chain_id f with Some cid => set_chain_id (Some cid) s | None => s end in
  let s := if no_block_log s && (negb (online s) || bool_decide (reported_of f <> reported s))
           then set_no_block_log false s else s in
  let previous_end := if ranges_known s then Some (reported_end s) else None in
  let s := set_enabled true s in
  let s := set_online true s in
  let s := set_reported (reported_of f) s in
  let s := set_ranges_known true s in
  let s := set_status_at (Some now) s in
  let s := set_head_lag_blocks
             (if bool_decide (role s = Live)
              then Some (sat_sub (default (num (f_head f)) (status_head_reference s))
                                 (num (f_head f)))
              else None) s in
  let s := set_status_v1 (Some (variant =? 3)) s in
  let s := set_offline_since None s in
  warn_role_hints previous_end s.

(** The [chain_id] check: the state to go on with, or the upstream marked
    offline. *)
Definition check_chain_id (now : Z) (peer_chain_id reported_chain_id : option (list Z))
    (s : ServerState) : bool * ServerState :=
  match reported_chain_id with
  | Some actual =>
      let s := set_chain_id_unverified_warned false s in
      match expected_chain_id (cfg s) with
      | Some expected =>
          if bool_decide (actual = expected) then (true, s) else (false, mark_offline now s)
      | None =>
          match peer_chain_id with
          | Some pool_cid =>
              if bool_decide (actual = pool_cid) then (true, s) else (false, mark_offline now s)
          | None => (true, s)
          end
      end
  | None =>
      if is_some (expected_chain_id (cfg s)) && require_chain_id (cfg s)
      then (false, mark_offline now s)
      else (true, set_chain_id_unverified_warned true s)
  end.

Section monitor.

Context (iter : gmap string ServerState -> list (string * ServerState)).

(** The first [chain_id] among the online peers, in iteration order. *)
Fixpoint first_chain_id (endpoint : string) (entries : list (string * ServerState))
  : option (list Z) :=
  match entries with
  | [] => None
  | (ep, s) :: entries =>
      if negb (bool_decide (ep = endpoint)) && online s then
        or_else (chain_id s) (first_chain_id endpoint entries)
      else first_chain_id endpoint entries
  end.

Definition peer_chain_id (endpoint : string) (db : gmap string ServerState) : option (list Z) :=
  first_chain_id endpoint (iter db).

Definition apply_fields (variant now : Z) (endpoint : string) (f : StatusFields)
    (db : gmap string ServerState) : gmap string ServerState :=
  match db !! endpoint with
  | None => db
  | Some s =>
      let '(ok, s) := check_chain_id now (peer_chain_id endpoint db) (f_chain_id f) s in
      <[endpoint := if ok : bool then store_status variant now f s else s]> db
  end.

(** The decoding part of the handler: [Ok None] for another result,
    [Ok (Some (variant, None))] for a status whose head is 0. *)
Definition decode_status_frame (bin_msg : list Z)
  : result (option (Z * option StatusFields)) ZcdError :=
  let result_message := deserialize_result bin_msg in
  let? v := get result_message "variant" in
  match v with
  | Some (VU8 variant) =>
      let? d := get result_message "data" in
      match d with
      | Some (VBytes bytes) =>
          if (variant =? 0) || (variant =? 3) then
            let? z := (if variant =? 0 then deserialize_status_result bytes
                       else deserialize_status_result_v1 bytes) in
            let? head_block_num := require_u32 z "head_block_num" in
            if head_block_num =? 0 then Ok (Some (variant, None))
            else let? f := read_fields variant head_block_num z in Ok (Some (variant, Some f))
          else Ok None
      | _ => Err MissingField
      end
  | _ => Ok None
  end.

Definition apply_status_update (bin_msg : list Z) (now : Z) (endpoint : string)
    (db : gmap string ServerState) : result (option Z) ZcdError * gmap string ServerState :=
  match decode_status_frame bin_msg with
  | Err e => (Err e, db)
  | Ok None => (Ok None, db)
  | Ok (Some (variant, None)) => (Ok (Some variant), db)
  | Ok (Some (variant, Some f)) => (Ok (Some variant), apply_fields variant now endpoint f db)
  end.

(** The other operations of the monitor and the sessions on the map. *)
Definition update_state (f : ServerState -> ServerState) (endpoint : string)
    (db : gmap string ServerState) : gmap string ServerState := alter f endpoint db.

(** *** A new generation of a listener *)

(** The fields of an upstream that come from its configuration are kept; the rest
    is the sample's. *)
Definition keep_configured (configured sample : ServerState) : ServerState :=
  let c := cfg configured in
  let s := sample in
  mkServerState
    (mkServerCfg (s_name c) (s_index c) (s_role c) (s_declared c) (s_max_sessions c) (s_priority c) (s_weight c)
       (Models.expected_chain_id (cfg s)) (require_chain_id (cfg s)))
    (connections s) (went_offline_wakes s) (enabled s) (operator_disabled s) (online s) (stale s)
    (chain_id_unverified_warned s) (chain_id s) (reported s) (ranges_known s) (block_failures s) (block_strikes s)
    (quarantines s) (status_at s) (status_head_reference s) (head_lag_blocks s) (status_v1 s) (abi s)
    (offline_since s) (no_block_log s) (warned s).

(** [old]: the map of the previous generation, [states]: that of the new one. *)
Definition inherit_states (old states : gmap string ServerState) : gmap string ServerState :=
  map_imap (fun endpoint state =>
    Some (match old !! endpoint with Some sample => keep_configured state sample | None => state end)) states.

Inductive step : gmap string ServerState -> gmap string ServerState -> Prop :=
| step_status bin_msg now endpoint db :
    step db (apply_status_update bin_msg now endpoint db).2
| step_offline now endpoint db : step db (update_state (mark_offline now) endpoint db)
| step_failure block now policy endpoint db :
    step db (update_state (fun s => (record_block_failure block now policy s).2) endpoint db)
| step_clear endpoint db : step db (update_state clear_quarantines endpoint db).

(** The maps of a listener's generations: a new generation starts with its configured
    states, takes over those of a previous one with the same chain settings, of several
    if the chain id is pinned ([inherited_chains_mix] shows why not otherwise), and goes
    on by steps. *)
Inductive reachable : list Server -> option (list Z) -> bool -> gmap string ServerState -> Prop :=
| reach_start servers expected require :
    reachable servers expected require (build_state_db_with_chain_id servers expected require)
| reach_inherit servers servers' expected require db old :
    reachable servers expected require db -> reachable servers' expected require old ->
    db = build_state_db_with_chain_id servers expected require \/ is_Some expected ->
    reachable servers expected require (inherit_states old db)
| reach_step servers expected require db db' :
    reachable servers expected require db -> step db db' -> reachable servers expected require db'.

(** One chain: an offline upstream has no chain id, a chain id is the pinned
    one if there is one, and the online ones agree. *)
Record one_chain (expected : option (list Z)) (db : gmap string ServerState) : Prop := {
  oc_expected : forall k s, db !! k = Some s -> expected_chain_id (cfg s) = expected;
  oc_offline : forall k s, db !! k = Some s -> online s = false -> chain_id s = None;
  oc_pinned : forall k s c e, db !! k = Some s -> chain_id s = Some c ->
    expected = Some e -> c = e;
  oc_agree : forall k k' s s' c c', db !! k = Some s -> db !! k' = Some s' ->
    chain_id s = Some c -> chain_id s' = Some c' -> c = c';
}.

End monitor.

(** ** Lemmas on the state map *)

Lemma store_status_facts variant now f s :
  let s' := store_status variant now f s in
  cfg s' = cfg s /\ online s' = true /\ enabled s' = true /\ ranges_known s' = true
  /\ reported s' = reported_of f /\ status_v1 s' = Some (variant =? 3)
  /\ offline_since s' = None
  /\ chain_id s' = or_else (f_chain_id f) (chain_id s).
Proof.
  cbv zeta. unfold store_status, warn_role_hints.
  destruct (f_chain_id f); repeat case_match; split_and!; reflexivity.
Qed.

Lemma mark_offline_facts now s :
  cfg (mark_offline now s) = cfg s /\ online (mark_offline now s) = false
  /\ chain_id (mark_offline now s) = None /\ reported (mark_offline now s) = reported s
  /\ ranges_known (mark_offline now s) = ranges_known s.
Proof.
  unfold mark_offline. destruct (online _) eqn:E; destruct (is_none _); split_and!; try done;
    simpl in *; exact E.
Qed.

Lemma record_block_failure_frame block now policy s :
  let s' := (record_block_failure block now policy s).2 in
  cfg s' = cfg s /\ online s' = online s /\ chain_id s' = chain_id s.
Proof.
  cbv zeta. destruct policy as [p|]; [|done].
  destruct (record_block_failure_cases block now p s) as [[Hx ->]|[(Hx & Hlt & ->)|(Hx & Hle & ->)]];
    done.
Qed.

Lemma collect_lookup {A} (l : list (string * A)) k v :
  collect l !! k = Some v -> (k, v) ∈ l.
Proof.
  unfold collect. induction l as [|[k' v'] l IH] using rev_ind.
  - cbn. by rewrite lookup_empty.
  - rewrite foldl_app. cbn [foldl fst snd]. rewrite elem_of_app.
    destruct (decide (k' = k)) as [->|Hne].
    + rewrite lookup_insert_eq. intros [= ->]. right. by apply list_elem_of_singleton.
    + rewrite lookup_insert_ne by done. intros H%IH. by left.
Qed.

Lemma build_state_lookup servers expected require k s :
  build_state_db_with_chain_id servers expected require !! k = Some s ->
  exists i sv, s = state_of_server expected require i sv /\ sv ∈ shipped servers.
Proof.
  intros H%collect_lookup. apply list_elem_of_lookup_1 in H as [i Hi].
  unfold state_entries in Hi. rewrite list_lookup_imap in Hi.
  destruct (shipped servers !! i) as [sv|] eqn:E; [|done]. injection Hi as <- <-.
  apply list_elem_of_lookup_2 in E. eauto.
Qed.

Section proofs.
Context (iter : gmap string ServerState -> list (string * ServerState))
  (iter_entries : forall m, Permutation (iter m) (map_to_list m)).

Lemma first_chain_id_some ep entries c :
  first_chain_id ep entries = Some c ->
  exists k s, (k, s) ∈ entries /\ k <> ep /\ online s = true /\ chain_id s = Some c.
Proof.
  induction entries as [|[k s] entries IH]; cbn [first_chain_id]; [done|].
  assert ((exists k s, (k, s) ∈ entries /\ k <> ep /\ online s = true /\ chain_id s = Some c) ->
    exists k0 s0, (k0, s0) ∈ (k, s) :: entries /\ k0 <> ep /\ online s0 = true
      /\ chain_id s0 = Some c) as Hlift.
  { intros (k0 & s0 & Hin & Hr). exists k0, s0. split; [by constructor|done]. }
  destruct (_ && _) eqn:E; [|auto]. bools.
  destruct (chain_id s) as [c'|] eqn:Ec; cbn; [|auto]. intros [= ->].
  exists k, s. split_and!; [constructor|done|done|done].
Qed.

Lemma first_chain_id_none ep entries k s :
  first_chain_id ep entries = None -> (k, s) ∈ entries -> k <> ep -> online s = true ->
  chain_id s = None.
Proof.
  induction entries as [|[k' s'] entries IH]; cbn [first_chain_id]; intros Hn Hin Hne Hon.
  { by apply elem_of_nil in Hin. }
  apply elem_of_cons in Hin as [Hin|Hin].
  - injection Hin as <- <-. rewrite bool_decide_false, Hon in Hn by done. cbn in Hn.
    destruct (chain_id s); [done|done].
  - apply IH; try done. destruct (_ && _); [|done]. by destruct (chain_id s').
Qed.

Lemma peer_chain_id_cases ep db :
  match peer_chain_id iter ep db with
  | Some c => exists k s, k <> ep /\ db !! k = Some s /\ online s = true /\ chain_id s = Some c
  | None => forall k s, k <> ep -> db !! k = Some s -> online s = true -> chain_id s = None
  end.
Proof.
  unfold peer_chain_id. destruct (first_chain_id _ _) as [c|] eqn:E.
  - apply first_chain_id_some in E as (k & s & Hin & Hr). rewrite iter_entries in Hin.
    apply elem_of_map_to_list in Hin. naive_solver.
  - intros k s Hne Hk. apply (first_chain_id_none _ _ k s E); [|done].
    by rewrite iter_entries, elem_of_map_to_list.
Qed.

(** What [check_chain_id] does to the state it is given. *)
Lemma check_chain_id_cases now peer reported s :
  let '(ok, s') := check_chain_id now peer reported s in
  cfg s' = cfg s
  /\ (if ok : bool
      then online s' = online s /\ chain_id s' = chain_id s
        /\ (forall c, reported = Some c ->
              match expected_chain_id (cfg s) with
              | Some e => c = e
              | None => forall p, peer = Some p -> c = p
              end)
      else online s' = false /\ chain_id s' = None).
Proof.
  unfold check_chain_id. destruct reported as [actual|].
  - destruct (expected_chain_id _) as [e|] eqn:Ee; [|destruct peer as [pool|]];
      cbn [cfg set_chain_id_unverified_warned] in Ee;
      try (case_bool_decide as Hd).
    all: try (destruct (mark_offline_facts now (set_chain_id_unverified_warned false s))
      as (Hc & Ho & Hi & _); split_and!; done).
    all: split_and!; try done; intros c [= <-]; naive_solver.
  - destruct (_ && _); [|done].
    destruct (mark_offline_facts now s) as (Hc & Ho & Hi & _). done.
Qed.

(** The state an update leaves at [endpoint]. *)
Lemma apply_fields_lookup variant now ep f db k :
  apply_fields iter variant now ep f db !! k
  = if bool_decide (k = ep) then
      (fun s => let '(ok, s) := check_chain_id now (peer_chain_id iter ep db) (f_chain_id f) s in
                if ok : bool then store_status variant now f s else s) <$> db !! ep
    else db !! k.
Proof.
  unfold apply_fields. case_bool_decide as Hk.
  - subst k. destruct (db !! ep) as [s|] eqn:E; [|by rewrite E].
    destruct (check_chain_id _ _ _ s) as [ok s'] eqn:Ec. rewrite lookup_insert_eq.
    cbn. by rewrite Ec.
  - destruct (db !! ep) as [s|]; [|done]. destruct (check_chain_id _ _ _ s) as [ok s'].
    by rewrite lookup_insert_ne.
Qed.
(** *** Preservation of [one_chain] *)

(** Replacing one entry keeps the invariant when the new state does. *)
Lemma one_chain_insert expected db ep s' :
  one_chain expected db ->
  expected_chain_id (cfg s') = expected ->
  (online s' = false -> chain_id s' = None) ->
  (forall c, chain_id s' = Some c ->
     (forall e, expected = Some e -> c = e)
     /\ (forall k s c', k <> ep -> db !! k = Some s -> chain_id s = Some c' -> c = c')) ->
  one_chain expected (<[ep := s']> db).
Proof.
  intros [H1 H2 H3 H4] He Ho Hc. split.
  - intros k s Hk. apply lookup_insert_Some in Hk as [[_ <-]|[_ Hk]]; eauto.
  - intros k s Hk. apply lookup_insert_Some in Hk as [[_ <-]|[_ Hk]]; eauto.
  - intros k s c e Hk Hs Hexp.
    apply lookup_insert_Some in Hk as [[_ <-]|[_ Hk]]; [by apply (Hc c Hs)|eauto].
  - intros k k' s1 s2 c c' Hk Hk' Hs1 Hs2.
    apply lookup_insert_Some in Hk as [[-> <-]|[Hne Hk]];
    apply lookup_insert_Some in Hk' as [[-> <-]|[Hne' Hk']]; try by simplify_eq.
    + by apply (proj2 (Hc c Hs1) k' s2).
    + symmetry. by apply (proj2 (Hc c' Hs2) k s1).
    + by apply (H4 k k' s1 s2).
Qed.

Lemma one_chain_alter expected db ep f :
  one_chain expected db ->
  (forall s, cfg (f s) = cfg s) ->
  (forall s, chain_id (f s) = None \/ (chain_id (f s) = chain_id s /\ online (f s) = online s)) ->
  one_chain expected (update_state f ep db).
Proof.
  intros Hoc Hcfg Hch. unfold update_state.
  destruct (db !! ep) as [s|] eqn:E; [|by rewrite alter_id by (rewrite E; done)].
  replace (alter f ep db) with (<[ep := f s]> db)
    by (apply map_eq; intros k; destruct (decide (k = ep)) as [->|];
        rewrite ?lookup_insert_eq, ?lookup_alter_eq, ?lookup_insert_ne, ?lookup_alter_ne by done;
        rewrite ?E; done).
  apply one_chain_insert; [done| | |].
  - rewrite Hcfg. by apply (oc_expected _ _ Hoc ep).
  - destruct (Hch s) as [?|[-> ->]]; [done|]. by apply (oc_offline _ _ Hoc ep).
  - intros c Hc. destruct (Hch s) as [Hn|[Heq _]]; [congruence|]. rewrite Heq in Hc. split.
    + intros e. by apply (oc_pinned _ _ Hoc ep s).
    + intros k s2 c' Hne Hk Hc'. by apply (oc_agree _ _ Hoc ep k s s2).
Qed.

Lemma one_chain_apply expected variant now ep f db :
  one_chain expected db -> one_chain expected (apply_fields iter variant now ep f db).
Proof.
  intros Hoc. unfold apply_fields. destruct (db !! ep) as [s|] eqn:E; [|done].
  pose proof (check_chain_id_cases now (peer_chain_id iter ep db) (f_chain_id f) s) as Hck.
  pose proof (peer_chain_id_cases ep db) as Hpeer.
  destruct (check_chain_id _ _ _ s) as [ok s1]. destruct Hck as [Hcfg Hck].
  pose proof (oc_expected _ _ Hoc ep s E) as Hexp.
  apply one_chain_insert; [done| | |].
  - destruct ok; rewrite ?(proj1 (store_status_facts variant now f s1)), Hcfg; done.
  - destruct ok; [|naive_solver].
    by rewrite (proj1 (proj2 (store_status_facts variant now f s1))).
  - destruct ok; [|naive_solver]. destruct Hck as (Hon & Hcid & Hrep).
    destruct (store_status_facts variant now f s1) as (_ & _ & _ & _ & _ & _ & _ & ->).
    rewrite Hcid, Hexp in *. destruct (f_chain_id f) as [actual|]; cbn.
    + intros c [= ->]. specialize (Hrep c eq_refl). split.
      * intros e He. by rewrite He in Hrep.
      * intros k s2 c' Hne Hk Hc'. destruct expected as [e|].
        -- rewrite Hrep. symmetry. by apply (oc_pinned _ _ Hoc k s2).
        -- assert (online s2 = true) as Hon2.
           { destruct (online s2) eqn:Eo; [done|].
             rewrite (oc_offline _ _ Hoc k s2 Hk Eo) in Hc'. done. }
           destruct (peer_chain_id iter ep db) as [p|].
           ++ destruct Hpeer as (k3 & s3 & _ & Hk3 & _ & Hc3). rewrite (Hrep p eq_refl).
              by apply (oc_agree _ _ Hoc k3 k s3 s2).
           ++ by rewrite (Hpeer k s2 Hne Hk Hon2) in Hc'.
    + intros c Hc. split.
      * intros e He. by apply (oc_pinned _ _ Hoc ep s c e).
      * intros k s2 c' Hne Hk Hc'. by apply (oc_agree _ _ Hoc ep k s s2).
Qed.

Lemma one_chain_step expected db db' :
  step iter db db' -> one_chain expected db -> one_chain expected db'.
Proof.
  intros Hs Hoc. destruct Hs as [b now ep db|now ep db|block now policy ep db|ep db].
  - unfold apply_status_update. destruct (decode_status_frame b) as [[[v [f|]]|]|]; try done.
    by apply one_chain_apply.
  - apply one_chain_alter; [done|intros s; apply mark_offline_facts|].
    intros s. left. apply mark_offline_facts.
  - apply one_chain_alter; [done|intros s; apply record_block_failure_frame|].
    intros s. right. destruct (record_block_failure_frame block now policy s) as (_ & ? & ?). done.
  - apply one_chain_alter; [done|done|]. intros s. by right.
Qed.

Lemma one_chain_start servers expected require :
  one_chain expected (build_state_db_with_chain_id servers expected require).
Proof.
  split.
  1: intros k s (i & sv & -> & _)%build_state_lookup; done.
  1: intros k s (i & sv & -> & _)%build_state_lookup; done.
  1: intros k s c e (i & sv & -> & _)%build_state_lookup; done.
  intros k k' s s' c c' (i & sv & -> & _)%build_state_lookup. done.
Qed.

Lemma inherit_lookup old db k s :
  inherit_states old db !! k = Some s ->
  exists st, db !! k = Some st
    /\ (old !! k = None /\ s = st
        \/ exists sample, old !! k = Some sample /\ chain_id s = chain_id sample /\ online s = online sample
             /\ Models.expected_chain_id (cfg s) = Models.expected_chain_id (cfg sample)).
Proof.
  unfold inherit_states. rewrite map_lookup_imap. destruct (db !! k) as [st|]; cbn; [|done].
  intros [= <-]. exists st. split; [done|]. destruct (old !! k) as [sample|]; [right; by exists sample|by left].
Qed.

Lemma one_chain_inherit expected old db :
  one_chain expected db -> one_chain expected old ->
  (forall k s, db !! k = Some s -> chain_id s = None) \/ is_Some expected ->
  one_chain expected (inherit_states old db).
Proof.
  intros Hdb Hold Hnew.
  assert (forall k s c e, inherit_states old db !! k = Some s -> chain_id s = Some c -> expected = Some e -> c = e) as Hpin.
  { intros k s c e (st & Hst & [[_ ->]|(sample & Hs & Hc & _)])%inherit_lookup.
    - by apply (oc_pinned _ _ Hdb k).
    - rewrite Hc. by apply (oc_pinned _ _ Hold k). }
  split.
  - intros k s (st & Hst & [[_ ->]|(sample & Hs & _ & _ & ->)])%inherit_lookup;
      [by apply (oc_expected _ _ Hdb k)|by apply (oc_expected _ _ Hold k)].
  - intros k s (st & Hst & [[_ ->]|(sample & Hs & -> & -> & _)])%inherit_lookup;
      [by apply (oc_offline _ _ Hdb k)|by apply (oc_offline _ _ Hold k)].
  - exact Hpin.
  - intros k k' s s' c c' Hk Hk' Hc Hc'. destruct Hnew as [Hnew|[e He]].
    2: { by rewrite (Hpin k s c e Hk Hc He), (Hpin k' s' c' e Hk' Hc' He). }
    apply inherit_lookup in Hk as (st & Hst & [[_ ->]|(x & Hx & Hcx & _)]); [by rewrite (Hnew k st Hst) in Hc|].
    apply inherit_lookup in Hk' as (st' & Hst' & [[_ ->]|(x' & Hx' & Hcx' & _)]); [by rewrite (Hnew k' st' Hst') in Hc'|].
    apply (oc_agree _ _ Hold k k' x x'); congruence.
Qed.

(** C36: in every state map a listener reaches, whatever frames its upstreams
    send and however the map is iterated, every known chain id is the pinned
    one, the online upstreams agree on it, and an offline upstream has none.  A
    new generation may have started from the states of a previous one, or of
    several when the chain id is pinned. *)
Theorem pool_has_one_chain (servers : list Server) (expected : option (list Z))
    (require : bool) (db : gmap string ServerState) :
  reachable iter servers expected require db -> one_chain expected db.
Proof.
  induction 1 as [|servers servers' expected require db old _ IH _ IHo Hnew|servers expected require db db' _ IH Hs].
  - apply one_chain_start.
  - apply one_chain_inherit; [done|done|]. destruct Hnew as [->|?]; [left|by right].
    by intros k s (i & sv & -> & _)%build_state_lookup.
  - by apply (one_chain_step _ _ _ Hs).
Qed.

(** A frame from one upstream changes that upstream's entry only, adds and
    removes none, and changes nothing at all when it is not an accepted status
    (an error, another result, or a status whose head is 0). *)
Theorem status_update_frame (bin_msg : list Z) (now : Z) (ep k : string)
    (db : gmap string ServerState) :
  let '(res, db') := apply_status_update iter bin_msg now ep db in
  (k <> ep -> db' !! k = db !! k)
  /\ (is_Some (db' !! ep) <-> is_Some (db !! ep))
  /\ ((forall v f, decode_status_frame bin_msg <> Ok (Some (v, Some f))) -> db' = db)
  /\ (forall e, res = Err e -> db' = db).
Proof.
  unfold apply_status_update. destruct (decode_status_frame bin_msg) as [[[v [f|]]|]|] eqn:E;
    try done.
  split_and!.
  - intros Hne. rewrite apply_fields_lookup. by rewrite bool_decide_false.
  - rewrite apply_fields_lookup, bool_decide_true by done. by rewrite fmap_is_Some.
  - intros Hn. by destruct (Hn v f).
  - done.
Qed.

End proofs.

(** ** A status the codec encodes, read by the monitor *)

Definition body_ok (s : StatusBody) : Prop :=
  pos_ok (sb_head s) /\ pos_ok (sb_lib s)
  /\ is_u32 (rbegin (sb_trace s)) /\ is_u32 (rend (sb_trace s))
  /\ is_u32 (rbegin (sb_chain_state s)) /\ is_u32 (rend (sb_chain_state s))
  /\ is_u32 (rbegin (sb_finality s)) /\ is_u32 (rend (sb_finality s))
  /\ length (sb_chain_id s) = 32%nat.

(** The fields the monitor should read from the encoding of a body. *)
Definition fields_of (v1 : bool) (s : StatusBody) : StatusFields :=
  mkStatusFields (sb_head s) (sb_lib s)
    (rbegin (sb_trace s), rend (sb_trace s))
    (rbegin (sb_chain_state s), rend (sb_chain_state s))
    (if v1 then Some (rbegin (sb_finality s), rend (sb_finality s)) else None)
    (Some (sb_chain_id s)).

Definition status_chunks_of (v1 : bool) (s : StatusBody) : list (list Z) :=
  [ le_bytes 4 (num (sb_head s)); block_id (sb_head s);
    le_bytes 4 (num (sb_lib s)); block_id (sb_lib s);
    le_bytes 4 (rbegin (sb_trace s)); le_bytes 4 (rend (sb_trace s));
    le_bytes 4 (rbegin (sb_chain_state s)); le_bytes 4 (rend (sb_chain_state s));
    sb_chain_id s ]
  ++ (if v1 then [le_bytes 4 (rbegin (sb_finality s)); le_bytes 4 (rend (sb_finality s))] else []).

Lemma encode_status_chunks v1 s post :
  encode_status v1 s ++ post
  = (if v1 then 3 else 0) :: concat (status_chunks_of v1 s ++ [post]).
Proof.
  unfold encode_status, status_chunks_of, put_pos, put_u32. rewrite concat_app.
  destruct v1; cbn [concat app]; rewrite ?app_nil_r, <-?app_assoc; cbn [app];
    rewrite ?app_nil_r, <-?app_assoc; done.
Qed.

Lemma deserialize_result_cons i rest :
  zlen (i :: rest) <= isize_max ->
  get (deserialize_result (i :: rest)) "variant" = Ok (Some (VU8 i))
  /\ get (deserialize_result (i :: rest)) "data" = Ok (Some (VBytes rest)).
Proof.
  intros Hl. unfold deserialize_result, zcd_builder, RESULT_V0_FIELDS. cbn [zcd_loop].
  change (1 =? 0) with false. cbv iota.
  unfold checked_add. change (0 + 1 <=? usize_max) with true. cbv iota.
  rewrite (proj2 (Z.ltb_ge _ _)) by (zlens; lia).
  rewrite slice_get_some by (zlens; lia). cbn [zcd_loop].
  change (0 =? 0) with true. change (zlen _ - 1) with 1. change (0 + 1 =? 1) with true. cbv iota.
  rewrite slice_get_some by (zlens; lia).
  replace (Z.to_nat (zlen (i :: rest) - (0 + 1))) with (length rest) by (zlens; lia).
  change (Z.to_nat (0 + 1)) with 1%nat. rewrite (skipn_cons 0), drop_0, firstn_all. unfold get. cbn [hash_map]. split.
  - rewrite lookup_insert_ne, lookup_insert_eq by done. done.
  - rewrite lookup_insert_eq. done.
Qed.

Lemma require_u32_chunk z field v :
  is_u32 v -> hash_map z !! field = Some (mkField (le_bytes 4 v) TU32 4) ->
  require_u32 z field = Ok v.
Proof.
  intros Hv H. unfold require_u32, get. rewrite H. cbn [f_type].
  unfold field_u32, read_exact. cbn [f_slice]. rewrite length_le_bytes. cbn [Z.of_nat Z.eqb Pos.eqb].
  change (Z.of_nat 4 =? 4) with true. cbn [rmap rbind].
  rewrite from_le_bytes by (cbn; mlia). done.
Qed.

Lemma require_id_chunk z field v :
  length v = 32%nat -> hash_map z !! field = Some (mkField v TChecksum256 32) ->
  require_id z field = Ok v /\ get z field = Ok (Some (VChecksum256 v)).
Proof.
  intros Hv H. unfold require_id, get. rewrite H. cbn [f_type].
  unfold as_checksum256, read_exact. cbn [f_slice]. rewrite Hv.
  change (Z.of_nat 32 =? 32) with true. done.
Qed.

Lemma decode_encoded_status v1 s post :
  body_ok s -> zlen (encode_status v1 s ++ post) <= isize_max ->
  decode_status_frame (encode_status v1 s ++ post)
  = Ok (Some (if v1 then 3 else 0,
              if num (sb_head s) =? 0 then None else Some (fields_of v1 s))).
Proof.
  intros Hok Hl. rewrite encode_status_chunks in Hl |- *.
  destruct (deserialize_result_cons _ _ Hl) as [Hvar Hdata].
  unfold decode_status_frame. rewrite Hvar. cbn [rbind]. rewrite Hdata. cbn [rbind].
  destruct Hok as ((Hhn & Hhi & _) & (Hln & Hli & _) & Ht1 & Ht2 & Hc1 & Hc2 & Hf1 & Hf2 & Hcid).
  destruct (status_chunks v1 (status_chunks_of v1 s) post) as (z & Hz & Hfield).
  { destruct v1; repeat constructor; cbn -[le_bytes]; rewrite ?length_le_bytes; lia. }
  assert ((if (if v1 then 3 else 0) =? 0
           then deserialize_status_result (concat (status_chunks_of v1 s ++ [post]))
           else deserialize_status_result_v1 (concat (status_chunks_of v1 s ++ [post]))) = Ok z)
    as Hdes by (destruct v1; exact Hz).
  rewrite Hdes. replace (((if v1 then 3 else 0) =? 0) || ((if v1 then 3 else 0) =? 3))
    with true by (by destruct v1). cbn [rbind].
  assert (forall k c e, status_chunks_of false s !! k = Some c -> status_table false !! k = Some e ->
    hash_map z !! entry_name e = Some (mkField c e.1.1 (entry_size e))) as Hf0.
  { intros k c e Hc He. apply (Hfield k); destruct v1;
      [by apply (lookup_app_l_Some _ [_; _])|done| |done].
    change (status_table true) with (status_table false ++ [(TU32, "finality_data_begin_block", 4);
      (TU32, "finality_data_end_block", 4)]). by apply lookup_app_l_Some. }
  rewrite (require_u32_chunk z "head_block_num" _ Hhn (Hf0 0%nat _ _ eq_refl eq_refl)). cbn [rbind].
  destruct (num (sb_head s) =? 0); [done|]. unfold read_fields.
  rewrite (proj1 (require_id_chunk z "head_block_id" _ Hhi (Hf0 1%nat _ _ eq_refl eq_refl))). cbn [rbind].
  rewrite (require_u32_chunk z "last_irreversible_block_num" _ Hln (Hf0 2%nat _ _ eq_refl eq_refl)). cbn [rbind].
  rewrite (proj1 (require_id_chunk z "last_irreversible_block_id" _ Hli (Hf0 3%nat _ _ eq_refl eq_refl))). cbn [rbind].
  rewrite (require_u32_chunk z "trace_begin_block" _ Ht1 (Hf0 4%nat _ _ eq_refl eq_refl)). cbn [rbind].
  rewrite (require_u32_chunk z "trace_end_block" _ Ht2 (Hf0 5%nat _ _ eq_refl eq_refl)). cbn [rbind].
  rewrite (require_u32_chunk z "chain_state_begin_block" _ Hc1 (Hf0 6%nat _ _ eq_refl eq_refl)). cbn [rbind].
  rewrite (require_u32_chunk z "chain_state_end_block" _ Hc2 (Hf0 7%nat _ _ eq_refl eq_refl)). cbn [rbind].
  unfold fields_of. destruct v1; cbn [Z.eqb Pos.eqb].
  - rewrite (require_u32_chunk z "finality_data_begin_block" _ Hf1 (Hfield 9%nat _ _ eq_refl eq_refl)). cbn [rbind].
    rewrite (require_u32_chunk z "finality_data_end_block" _ Hf2 (Hfield 10%nat _ _ eq_refl eq_refl)). cbn [rbind].
    rewrite (proj2 (require_id_chunk z "chain_id" _ Hcid (Hf0 8%nat _ _ eq_refl eq_refl))). cbn [rbind].
    by destruct (sb_head s), (sb_lib s).
  - cbn [rbind].
    rewrite (proj2 (require_id_chunk z "chain_id" _ Hcid (Hf0 8%nat _ _ eq_refl eq_refl))). cbn [rbind].
    by destruct (sb_head s), (sb_lib s).
Qed.

(** What one router's [encode_status] writes, another's monitor stores:
    when the chain id is the pinned one, or the one of the online peers in an
    unpinned pool, the upstream is online with exactly the encoded ranges, head,
    LIB and chain id, whatever bytes follow the encoding. *)
Theorem encoded_status_stored (iter : gmap string ServerState -> list (string * ServerState))
    (v1 : bool) (body : StatusBody) (post : list Z) (now : Z) (ep : string)
    (db : gmap string ServerState) (s : ServerState) :
  body_ok body -> num (sb_head body) <> 0 ->
  zlen (encode_status v1 body ++ post) <= isize_max ->
  db !! ep = Some s ->
  match expected_chain_id (cfg s) with
  | Some e => e = sb_chain_id body
  | None => forall p, peer_chain_id iter ep db = Some p -> p = sb_chain_id body
  end ->
  let '(res, db') := apply_status_update iter (encode_status v1 body ++ post) now ep db in
  res = Ok (Some (if v1 then 3 else 0))
  /\ exists s', db' !! ep = Some s' /\ online s' = true /\ ranges_known s' = true
     /\ chain_id s' = Some (sb_chain_id body) /\ status_v1 s' = Some v1
     /\ reported s' = mkReported (rbegin (sb_trace body)) (rend (sb_trace body))
          (rbegin (sb_chain_state body)) (rend (sb_chain_state body))
          (if v1 then rbegin (sb_finality body) else 0)
          (if v1 then rend (sb_finality body) else 0)
          (Some (sb_head body)) (Some (sb_lib body)).
Proof.
  intros Hok Hnz Hl Hs Hchain. unfold apply_status_update.
  rewrite decode_encoded_status, (proj2 (Z.eqb_neq _ _)) by done. split; [done|].
  rewrite apply_fields_lookup, bool_decide_true, Hs by done. cbn [fmap option_fmap option_map].
  assert (exists s1, check_chain_id now (peer_chain_id iter ep db) (Some (sb_chain_id body)) s
    = (true, s1)) as [s1 Hck].
  { unfold check_chain_id. cbn [cfg set_chain_id_unverified_warned].
    destruct (expected_chain_id (cfg s)) as [e|].
    - subst e. rewrite bool_decide_true by done. eauto.
    - destruct (peer_chain_id iter ep db) as [p|]; [|eauto].
      rewrite (Hchain p), bool_decide_true by done. eauto. }
  change (f_chain_id (fields_of v1 body)) with (Some (sb_chain_id body)). rewrite Hck.
  destruct (store_status_facts (if v1 then 3 else 0) now (fields_of v1 body) s1)
    as (_ & Hon & _ & Hrk & Hrep & Hv & _ & Hcid).
  eexists. split_and!; [done|done|done|by rewrite Hcid|by rewrite Hv; destruct v1|].
  rewrite Hrep. by destruct v1.
Qed.

(** ** Witnesses *)

Definition sample_server : Server :=
  mkServer "archive-1" "10.0.0.1:8080" true Frozen (Some (mkRange 1 1000)) None 0 1 None.
Definition sample_db : gmap string ServerState :=
  build_state_db_with_chain_id [sample_server] None false.
Definition sample_body : StatusBody :=
  mkStatusBody (sample_pos 999) (sample_pos 999) (mkRange 2 1000) (mkRange 2 1000)
    (mkRange 0 0) (repeat 7 32).

Lemma sample_body_ok : body_ok sample_body.
Proof. split_and!; try (cbn; mlia); try (apply sample_pos_ok; mlia); reflexivity. Qed.

Lemma pool_has_one_chain_witness :
  one_chain None (apply_status_update map_to_list (encode_status true sample_body) 5
    "10.0.0.1:8080" sample_db).2.
Proof.
  apply (pool_has_one_chain map_to_list (fun m => Permutation_refl _) [sample_server] None false).
  eapply reach_step; [apply reach_start|apply step_status].
Defined.

(** Without a pinned chain id, a generation that takes over upstreams of two earlier ones
    can hold upstreams of two chains online, until the next status of either. *)
Definition other_server : Server :=
  mkServer "archive-2" "10.0.0.2:8080" true Frozen (Some (mkRange 1 1000)) None 0 1 None.
Definition other_body : StatusBody :=
  mkStatusBody (sample_pos 999) (sample_pos 999) (mkRange 2 1000) (mkRange 2 1000) (mkRange 0 0) (repeat 8 32).

Lemma inherited_chains_mix :
  let one := (apply_status_update map_to_list (encode_status true sample_body) 5 "10.0.0.1:8080" sample_db).2 in
  let two := (apply_status_update map_to_list (encode_status true other_body) 5 "10.0.0.2:8080"
                (build_state_db_with_chain_id [other_server] None false)).2 in
  let db := inherit_states two (inherit_states one
              (build_state_db_with_chain_id [sample_server; other_server] None false)) in
  (fun s => (online s, chain_id s)) <$> db !! "10.0.0.1:8080" = Some (true, Some (repeat 7 32))
  /\ (fun s => (online s, chain_id s)) <$> db !! "10.0.0.2:8080" = Some (true, Some (repeat 8 32)).
Proof. split; vm_compute; reflexivity. Qed.

Lemma encoded_status_stored_witness :
  exists s', (apply_status_update map_to_list (encode_status true sample_body ++ []) 5
      "10.0.0.1:8080" sample_db).2 !! "10.0.0.1:8080" = Some s'
    /\ online s' = true /\ trace_end_block (reported s') = 1000.
Proof.
  pose proof (encoded_status_stored map_to_list true sample_body [] 5 "10.0.0.1:8080" sample_db
    (state_of_server None false 0 sample_server) sample_body_ok) as H.
  specialize (H ltac:(vm_compute; discriminate) ltac:(vm_compute; discriminate)
    ltac:(vm_compute; reflexivity)).
  specialize (H ltac:(cbn; intros p Hp; vm_compute in Hp; discriminate Hp)).
  destruct (apply_status_update _ _ _ _ _) as [res db'].
  destruct H as (_ & s' & Hs & Hon & _ & _ & _ & Hrep). exists s'.
  rewrite Hrep. split; [exact Hs|]. split; [exact Hon|reflexivity].
Defined.
