(* ===== verification/Progress.v ===== *)
(** * The monitor between status replies

    Models the rest of the state changes of [src/src/tasks.rs]: the progress
    tracker that flags upstreams stale, the handshake ABI a monitor stores, the
    head a status is compared with, the fallback to status v0, the upstream
    marked offline, and the reconnect backoff.  The connection loop that
    makes these changes is in [MonitorLoop].

    [tick] visits every entry of the state map once and the entries do not
    interact, so it is a map over them; [pool_abi_fingerprint] counts over the
    entries in an order that does not matter.

    The theorem: a live upstream is stale exactly from the interval in which it
    has not grown for [STALE_THRESHOLD] intervals until it grows again, a frozen
    one never. *)

From S2P Require Import Prelude Wire Models Monitor.

Definition STALE_THRESHOLD : Z := 12.

(** A stale live upstream that reports what an archive reports. *)
Definition state_looks_frozen (s : ServerState) : bool :=
  match st_head s, st_lib s with
  | Some head, Some lib =>
      (0 <? num head) && (num head =? num lib)
      && bool_decide (checked_add u32_max (num head) 1 = Some (reported_end s))
  | _, _ => false
  end.

(** One entry of the tracker: the last end seen and the intervals without
    growth. *)
Record TrackEntry := mkEntry { e_last : Z; e_counter : Z }.

(** The one-time hint that a stale upstream looks like an archive. *)
Definition hint_frozen (s : ServerState) : ServerState :=
  if stale s && negb (looks_frozen (warned s)) && state_looks_frozen s
  then set_warned (mkWarnings true (frozen_advanced (warned s)) (w_range_mismatch (warned s))
                     (w_abi_fp (warned s))) s
  else s.

(** The body of the loop of [tick] for one upstream: its entry, its state, and
    whether it advanced. *)
Definition tick_one (e : TrackEntry) (s : ServerState) : TrackEntry * ServerState * bool :=
  let end_ := chain_state_end_block (reported s) in
  if bool_decide (role s = Frozen) then (mkEntry end_ 0, set_stale false s, false)
  else
    if e_last e <? end_ then (mkEntry end_ 0, hint_frozen (set_stale false s), true)
    else
      let counter := sat_add u32_max (e_counter e) 1 in
      (mkEntry (e_last e) counter,
       hint_frozen (if (counter =? STALE_THRESHOLD) && negb (stale s) then set_stale true s else s),
       false).

Definition ProgressTracker : Type := gmap string TrackEntry.

(** [entry(..).or_insert(0)]. *)
Definition entry_of (tr : ProgressTracker) (server : string) : TrackEntry :=
  default (mkEntry 0 0) (tr !! server).

Definition tick (tr : ProgressTracker) (db : gmap string ServerState)
  : ProgressTracker * gmap string ServerState * Z :=
  (map_imap (fun k s => Some (tick_one (entry_of tr k) s).1.1) db ∪ tr,
   map_imap (fun k s => Some (tick_one (entry_of tr k) s).1.2) db,
   zlen (List.filter (fun e : string * ServerState => (tick_one (entry_of tr e.1) e.2).2)
           (map_to_list db))).

(** ** Single updates *)

Definition monitor_mark_offline (endpoint : string) (now : Z) (db : gmap string ServerState)
  : gmap string ServerState := alter (mark_offline now) endpoint db.

Definition mark_status_v0_only (endpoint : string) (db : gmap string ServerState)
  : gmap string ServerState := alter (set_status_v1 (Some false)) endpoint db.

Definition capture_head_reference (endpoint : string) (db : gmap string ServerState)
  : gmap string ServerState :=
  let reference :=
    max_list (omap (fun e : string * ServerState =>
      if negb (bool_decide (e.1 = endpoint)) && online e.2 && negb (operator_disabled e.2)
         && bool_decide (role e.2 = Live)
      then num <$> st_head e.2 else None) (map_to_list db)) in
  alter (set_status_head_reference reference) endpoint db.

(** ** The handshake ABI *)

(** A fingerprint, how many sent it, and the lowest index that did. *)
Definition Count : Type := Z * (Z * Z).

Fixpoint count_fp (fp index : Z) (counts : list Count) : list Count :=
  match counts with
  | [] => [(fp, (1, Z.min usize_max index))]
  | (fp', (n, lowest)) :: rest =>
      if fp' =? fp then (fp', (n + 1, Z.min lowest index)) :: rest
      else (fp', (n, lowest)) :: count_fp fp index rest
  end.

Definition fp_cmp : Count -> Count -> comparison :=
  cmp_then (on (fun c : Count => c.2.1) Z.compare) (cmp_rev (on (fun c : Count => c.2.2) Z.compare)).

Definition pool_abi_fingerprint (db : gmap string ServerState) (endpoint : string) : option Z :=
  let counts :=
    foldl (fun counts (e : string * ServerState) =>
        if bool_decide (e.1 = endpoint) then counts
        else match abi e.2 with
             | Some a => count_fp (abi_fp a) (s_index (cfg e.2)) counts
             | None => counts
             end) [] (map_to_list db) in
  fst <$> max_by fp_cmp counts.

Definition store_abi (endpoint : string) (entry : AbiEntry) (db : gmap string ServerState)
  : gmap string ServerState :=
  let pool_fp := pool_abi_fingerprint db endpoint in
  alter (fun s =>
    let w := warned s in
    let fp :=
      match pool_fp with
      | Some pool =>
          if pool =? abi_fp entry then None
          else if bool_decide (w_abi_fp w = Some (abi_fp entry)) then w_abi_fp w
          else Some (abi_fp entry)
      | None => None
      end in
    set_abi (Some entry)
      (set_warned (mkWarnings (looks_frozen w) (frozen_advanced w) (w_range_mismatch w) fp) s))
    endpoint db.

Definition MAX_BACKOFF_MS : Z := 30000.

Definition backoff_delay (reconnect_ms attempts : Z) : Z * Z :=
  (Z.min (Z.min (reconnect_ms * Z.shiftl 1 (Z.min attempts 5)) u64_max) MAX_BACKOFF_MS,
   sat_add u32_max attempts 1).

(** ** Staleness *)

(** The intervals at the end of a history of ends (newest first) that brought
    no new highest end. *)
Fixpoint highest (ends : list Z) : Z :=
  match ends with [] => 0 | e :: ends => Z.max e (highest ends) end.

Fixpoint quiet (ends : list Z) : Z :=
  match ends with
  | [] => 0
  | e :: rest => if highest rest <? e then 0 else 1 + quiet rest
  end.

(** A monitored upstream over the intervals: what else happens to its state
    between two ticks keeps its role and its flag. *)
Inductive ticked : list ServerState -> TrackEntry -> ServerState -> Prop :=
| ticked_new s : stale s = false -> ticked [] (mkEntry 0 0) s
| ticked_between states e s s' :
    ticked states e s -> role s' = role s -> stale s' = stale s -> ticked states e s'
| ticked_tick states e s e' s' updated :
    ticked states e s -> tick_one e s = (e', s', updated) -> ticked (s :: states) e' s'.

Definition ends_of (states : list ServerState) : list Z :=
  map (fun s => chain_state_end_block (reported s)) states.

Lemma hint_frozen_keeps s : role (hint_frozen s) = role s /\ stale (hint_frozen s) = stale s.
Proof. unfold hint_frozen. by destruct (_ && _). Qed.

Lemma tick_one_role e s : role (tick_one e s).1.2 = role s.
Proof.
  unfold tick_one. destruct (bool_decide _); [done|]. destruct (_ <? _); cbn [fst snd].
  - by rewrite (proj1 (hint_frozen_keeps _)).
  - rewrite (proj1 (hint_frozen_keeps _)). by destruct (_ && _).
Qed.

(** [tick_one] on a live upstream, as far as staleness goes. *)
Lemma tick_one_live e s :
  role s = Live ->
  let end_ := chain_state_end_block (reported s) in
  let '(e', s', _) := tick_one e s in
  e_last e' = Z.max (e_last e) end_
  /\ (if e_last e <? end_ then e_counter e' = 0 /\ stale s' = false
      else e_counter e' = sat_add u32_max (e_counter e) 1
           /\ stale s' = (e_counter e' =? STALE_THRESHOLD) || stale s).
Proof.
  intros Hr. cbv zeta. unfold tick_one. rewrite bool_decide_false by (by rewrite Hr).
  destruct (e_last e <? _) eqn:E; bools; cbn [e_last e_counter]; (split; [lia|]).
  - split; [done|]. by rewrite (proj2 (hint_frozen_keeps _)).
  - split; [done|]. rewrite (proj2 (hint_frozen_keeps _)).
    destruct (_ =? STALE_THRESHOLD), (stale s) eqn:Es; cbn; done.
Qed.

Lemma quiet_bounds ends : 0 <= quiet ends <= zlen ends.
Proof. induction ends as [|e ends IH]; cbn [quiet length]; [lia|]. destruct (_ <? _); lia. Qed.

Lemma highest_nonneg ends : 0 <= highest ends.
Proof. induction ends; cbn; lia. Qed.

(** What the tracker knows of a live upstream after any history. *)
Lemma ticked_live states e s :
  ticked states e s -> zlen states <= u32_max ->
  (forall s', s' ∈ s :: states -> role s' = Live) ->
  e_last e = highest (ends_of states) /\ e_counter e = quiet (ends_of states)
  /\ stale s = (STALE_THRESHOLD <=? quiet (ends_of states)).
Proof.
  induction 1 as [s Hs|states e s s' Ht IH Hr Hst|states e s e' s' updated Ht IH Htick];
    intros Hlen Hlive.
  - by rewrite Hs.
  - rewrite Hst. apply IH; [done|]. intros s0 Hs0. apply elem_of_cons in Hs0 as [->|Hs0].
    + rewrite <-Hr. apply Hlive. constructor.
    + apply Hlive. by constructor.
  - cbn [length] in Hlen. destruct IH as (H1 & H2 & H3); [lia| |].
    { intros s0 Hs0. apply Hlive. apply elem_of_cons. by right. }
    assert (role s = Live) as Hr by (apply Hlive; apply elem_of_cons; right; constructor).
    pose proof (tick_one_live e s Hr) as Hone. rewrite Htick in Hone. cbv zeta in Hone.
    cbn [ends_of map highest quiet]. fold (ends_of states). rewrite H1 in Hone.
    destruct Hone as [-> Hone]. pose proof (quiet_bounds (ends_of states)) as Hq.
    assert (length (ends_of states) = length states) as Hl by apply length_map. rewrite Hl in Hq.
    split; [lia|].
    destruct (_ <? _) eqn:E; bools; destruct Hone as [Hc ->]; [done|].
    rewrite Hc, H2, H3. unfold sat_add, STALE_THRESHOLD. split; [lia|].
    destruct (12 <=? quiet (ends_of states)) eqn:E1, (12 <=? 1 + quiet (ends_of states)) eqn:E2;
      rewrite ?orb_true_r, ?orb_false_r; bools; try done; try lia; apply Z.eqb_eq + apply Z.eqb_neq; lia.
Qed.

(** Staleness: over any sequence of up to [2^32] monitoring intervals, with
    the state changing in any way between them but for its role and this flag, a
    live upstream is flagged stale exactly when the last [STALE_THRESHOLD]
    intervals or more brought no new highest [chain_state_end_block]; and a tick
    never leaves a frozen upstream stale. *)
Theorem stale_exact (states : list ServerState) (e : TrackEntry) (s : ServerState) :
  ticked states e s -> zlen states <= u32_max ->
  ((forall s', s' ∈ s :: states -> role s' = Live) ->
   stale s = (STALE_THRESHOLD <=? quiet (ends_of states)))
  /\ (forall e0 s0, role s0 = Frozen -> stale (tick_one e0 s0).1.2 = false).
Proof.
  intros Ht Hlen. split.
  - intros Hlive. by destruct (ticked_live states e s Ht Hlen Hlive) as (_ & _ & ?).
  - intros e0 s0 Hr. unfold tick_one. by rewrite bool_decide_true.
Qed.

(** [tick] does to each upstream what [tick_one] does to it, and keeps the
    others' entries. *)
Lemma tick_lookup tr db k :
  let '(tr', db', _) := tick tr db in
  db' !! k = (fun s => (tick_one (entry_of tr k) s).1.2) <$> db !! k
  /\ tr' !! k = match db !! k with
                | Some s => Some (tick_one (entry_of tr k) s).1.1
                | None => tr !! k
                end.
Proof.
  unfold tick, ProgressTracker in *. cbv beta iota. rewrite lookup_union, !map_lookup_imap. split.
  - by destruct (db !! k).
  - destruct (db !! k) as [s|]; cbn; [by destruct (tr !! k)|by destruct (tr !! k)].
Qed.

(** ** Witnesses *)

(** An upstream that reports nothing, ticked over and over. *)
Definition silent_ticks (n : nat) : TrackEntry * ServerState :=
  Nat.iter n (fun es => (tick_one es.1 es.2).1) (mkEntry 0 0, new_state).
Fixpoint silent_states (n : nat) : list ServerState :=
  match n with O => [] | S n => (silent_ticks n).2 :: silent_states n end.

Lemma silent_ticked n : ticked (silent_states n) (silent_ticks n).1 (silent_ticks n).2.
Proof.
  induction n as [|n IH]; [by constructor|]. cbn [silent_states].
  change (silent_ticks (S n)) with (tick_one (silent_ticks n).1 (silent_ticks n).2).1.
  apply (ticked_tick _ _ _ _ _ (tick_one (silent_ticks n).1 (silent_ticks n).2).2 IH).
  by destruct (tick_one _ _) as [[??]?].
Qed.

Lemma silent_live n s : s ∈ (silent_ticks n).2 :: silent_states n -> role s = Live.
Proof.
  assert (forall m, role (silent_ticks m).2 = Live) as H.
  { induction m as [|m IH]; [done|].
    change (silent_ticks (S m)) with (tick_one (silent_ticks m).1 (silent_ticks m).2).1.
    by rewrite tick_one_role. }
  rewrite elem_of_cons. intros [->|Hs]; [apply H|]. revert Hs.
  induction n as [|n IH]; cbn [silent_states]; [by intros ?%elem_of_nil|].
  rewrite elem_of_cons. intros [->|Hs]; [apply H|auto].
Qed.

Lemma stale_exact_witness : stale (silent_ticks 11).2 = false /\ stale (silent_ticks 12).2 = true.
Proof.
  split.
  - rewrite (proj1 (stale_exact _ _ _ (silent_ticked 11) ltac:(vm_compute; discriminate))
      (silent_live 11)). vm_compute. reflexivity.
  - rewrite (proj1 (stale_exact _ _ _ (silent_ticked 12) ltac:(vm_compute; discriminate))
      (silent_live 12)). vm_compute. reflexivity.
Defined.
