(* ===== verification/Coverage.v ===== *)
(** * Sticky coverage of a log

    Models the range algebra of [src/src/fleet/view.rs]: [merge], [subtract],
    [uncovered], [coverage] and [LogCoverage].

    The abstract view of a list of ranges is the set of blocks it holds,
    [holds]; the theorems say which set each operation computes, and that every
    list it returns is normal: sorted, disjoint and not touching. *)

From S2P Require Import Prelude Wire.

Record LogCoverage := mkCoverage {
  components : list Range;
  top : Range;
  gaps : list Range;
  offline_only : list Range;
  live_tail_begin : option Z;
}.

(** [Range::default()]. *)
Definition empty_range : Range := mkRange 0 0.

Definition no_coverage : LogCoverage := mkCoverage [] empty_range [] [] None.

Definition cov_has (c : LogCoverage) (n : Z) : bool :=
  is_some_and (fun begin_ => begin_ <=? n) (live_tail_begin c)
  || existsb (fun r => range_contains r n) (components c).

Definition offline_blocks (c : LogCoverage) : Z :=
  foldr Z.add 0 (map (fun r => sat_sub (rend r) (rbegin r)) (offline_only c)).

(** The key [(r.begin, r.end)], compared lexicographically. *)
Definition range_cmp : Range -> Range -> comparison :=
  cmp_then (on rbegin Z.compare) (on rend Z.compare).

(** The [for] loop of [merge]; [merged] is the vector, last element first. *)
Fixpoint merge_loop (merged : list Range) (sorted : list Range) : list Range :=
  match sorted with
  | [] => merged
  | r :: sorted =>
      match merged with
      | last :: merged' =>
          if rbegin r <=? rend last
          then merge_loop (mkRange (rbegin last) (Z.max (rend last) (rend r)) :: merged') sorted
          else merge_loop (r :: merged) sorted
      | [] => merge_loop [r] sorted
      end
  end.

Definition merge (segs : list Range) : list Range :=
  let sorted := sort_by range_cmp (List.filter (fun r => negb (range_is_empty r)) segs) in
  rev (merge_loop [] sorted).

(** The [for] loop of [subtract] from [cursor] on; the ranges pushed. *)
Fixpoint subtract_loop (top_end cursor : Z) (covered : list Range) : list Range :=
  match covered with
  | [] => [mkRange cursor top_end]
  | c :: covered =>
      if rend c <=? cursor then subtract_loop top_end cursor covered
      else if top_end <=? rbegin c then [mkRange cursor top_end]
      else
        (if cursor <? rbegin c then [mkRange cursor (rbegin c)] else [])
        ++ (if top_end <=? rend c then []
            else subtract_loop top_end (rend c) covered)
  end.

Definition subtract (top : Range) (covered : list Range) : list Range :=
  if range_is_empty top then [] else subtract_loop (rend top) (rbegin top) covered.

Definition uncovered (ranges covered : list Range) : list Range :=
  let covered := merge covered in
  flat_map (fun r => subtract r covered) (merge ranges).

(** [components.windows(2)] as the holes between neighbours. *)
Fixpoint holes (components : list Range) : list Range :=
  match components with
  | a :: ((b :: _) as rest) => mkRange (rend a) (rbegin b) :: holes rest
  | _ => []
  end.

Definition coverage (segs online : list Range) (live_tail : option Z) : LogCoverage :=
  let components := merge segs in
  let top := default empty_range (last components) in
  mkCoverage components top (holes components) (subtract top (merge online)) live_tail.

(** ** Specification *)

Definition holds (l : list Range) (n : Z) : Prop :=
  exists r, r ∈ l /\ rbegin r <= n < rend r.

(** Sorted, disjoint, not touching and without empty ranges. *)
Definition normal (l : list Range) : Prop :=
  StronglySorted (fun a b => rend a < rbegin b) l /\ Forall (fun r => rbegin r < rend r) l.

(** The same, last range first. *)
Definition normal_rev (l : list Range) : Prop :=
  StronglySorted (fun a b => rend b < rbegin a) l /\ Forall (fun r => rbegin r < rend r) l.

(** ** Lemmas *)

Lemma range_contains_spec r n : range_contains r n = true <-> rbegin r <= n < rend r.
Proof. unfold range_contains. rewrite andb_true_iff, Z.leb_le, Z.ltb_lt. done. Qed.

Lemma holds_nil n : ~ holds [] n.
Proof. intros (r & Hr & _). by apply elem_of_nil in Hr. Qed.

Lemma holds_cons r l n : holds (r :: l) n <-> (rbegin r <= n < rend r) \/ holds l n.
Proof.
  unfold holds. split.
  - intros (x & Hx & Hn). apply elem_of_cons in Hx as [->|Hx]; eauto.
  - intros [Hn|(x & Hx & Hn)]; [exists r|exists x]; rewrite elem_of_cons; auto.
Qed.

Lemma holds_app l k n : holds (l ++ k) n <-> holds l n \/ holds k n.
Proof.
  induction l as [|r l IH]; cbn [app].
  - split; [by right|]. intros [[]%holds_nil|]; done.
  - rewrite !holds_cons, IH. tauto.
Qed.

Lemma holds_perm l k n : Permutation l k -> holds l n -> holds k n.
Proof. intros Hp (r & Hr & Hn). exists r. by rewrite <-Hp. Qed.

Lemma holds_rev l n : holds (rev l) n <-> holds l n.
Proof. split; apply holds_perm; [symmetry|]; apply Permutation_rev. Qed.

Lemma holds_filter_nonempty l n :
  holds (List.filter (fun r => negb (range_is_empty r)) l) n <-> holds l n.
Proof.
  induction l as [|r l IH]; cbn [List.filter]; [done|].
  unfold range_is_empty at 1. destruct (_ <=? _) eqn:E; cbn [negb]; rewrite !holds_cons, ?IH; [|done].
  bools. split; [by right|]. intros [?|]; [lia|done].
Qed.

Lemma StronglySorted_app_iff {A} (R : A -> A -> Prop) l k :
  StronglySorted R (l ++ k) <->
  StronglySorted R l /\ StronglySorted R k /\ (forall a b, a ∈ l -> b ∈ k -> R a b).
Proof.
  induction l as [|x l IH]; cbn [app].
  - split; [|by intros (_ & ? & _)]. intros Hk. split_and!; [constructor|done|].
    intros a b Ha. by apply elem_of_nil in Ha.
  - split.
    + intros H. inversion H as [|? ? Hs Hall]; subst. apply IH in Hs as (Hl & Hk & Hlk).
      apply Forall_app in Hall as [Hxl Hxk]. split_and!; [by constructor|done|].
      intros a b Ha Hb. apply elem_of_cons in Ha as [->|Ha]; [|auto].
      rewrite Forall_forall in Hxk. auto.
    + intros (Hl & Hk & Hlk). inversion Hl as [|? ? Hl' Hall]; subst. constructor.
      * apply IH. split_and!; [done|done|]. intros a b Ha. apply Hlk. by constructor.
      * apply Forall_app. split; [done|]. apply Forall_forall. intros b Hb.
        apply Hlk; [constructor|done].
Qed.

Lemma StronglySorted_weaken {A} (R R' : A -> A -> Prop) l :
  (forall a b, R a b -> R' a b) -> StronglySorted R l -> StronglySorted R' l.
Proof.
  intros HR. induction 1 as [|x l _ IH Hx]; constructor; [done|].
  eapply Forall_impl; [exact Hx|]. apply HR.
Qed.

Lemma normal_rev_rev l : normal_rev l -> normal (rev l).
Proof.
  intros [Hs Hf]. split; [|by apply Forall_rev].
  clear Hf. induction l as [|r l IH]; cbn; [constructor|].
  inversion Hs as [|? ? Hs' Hall]; subst. apply StronglySorted_app_iff. split_and!.
  - auto.
  - repeat constructor.
  - intros a b Ha ->%list_elem_of_singleton. rewrite Forall_forall in Hall. apply Hall.
    by rewrite <-Permutation_rev in Ha.
Qed.

Lemma normal_app l k :
  normal (l ++ k) <-> normal l /\ normal k /\ (forall a b, a ∈ l -> b ∈ k -> rend a < rbegin b).
Proof. unfold normal. rewrite StronglySorted_app_iff, Forall_app. tauto. Qed.

(** *** [merge] *)

(** The ranges still to merge start no lower than the last one merged. *)
Definition from_last (merged sorted : list Range) : Prop :=
  match merged with
  | [] => True
  | last :: _ => Forall (fun r => rbegin last <= rbegin r) sorted
  end.

Lemma merge_loop_spec sorted merged :
  normal_rev merged -> from_last merged sorted ->
  StronglySorted (fun a b => rbegin a <= rbegin b) sorted ->
  Forall (fun r => rbegin r < rend r) sorted ->
  normal_rev (merge_loop merged sorted)
  /\ forall n, holds (merge_loop merged sorted) n <-> holds merged n \/ holds sorted n.
Proof.
  revert merged. induction sorted as [|r sorted IH]; intros merged Hn Hf Hs He; cbn [merge_loop].
  { split; [done|]. intros n. split; [by left|]. intros [|[]%holds_nil]; done. }
  inversion Hs as [|? ? Hs' Hr]; inversion He as [|? ? Her He']; subst.
  destruct merged as [|last merged].
  - destruct (IH [r]) as [H1 H2]; [by repeat constructor|done..|].
    split; [done|]. intros n. rewrite H2, !holds_cons. pose proof (holds_nil n). tauto.
  - destruct Hn as [Hsr Hne]. inversion Hsr as [|? ? Hsr' Hall]; inversion Hne as [|? ? Hl Hne']; subst.
    inversion Hf as [|? ? Hlr Hf']; subst. destruct (_ <=? _) eqn:E; bools.
    + edestruct (IH (mkRange (rbegin last) (Z.max (rend last) (rend r)) :: merged)) as [H1 H2];
        [split; constructor; cbn; try done; lia|done..|].
      split; [done|]. intros n. rewrite H2, !holds_cons. cbn [rbegin rend].
      assert (rbegin last <= n < Z.max (rend last) (rend r) <->
        (rbegin last <= n < rend last) \/ (rbegin r <= n < rend r)) as -> by lia. tauto.
    + destruct (IH (r :: last :: merged)) as [H1 H2]; [|done..|].
      { split; [|by constructor]. constructor; [done|]. constructor; [lia|].
        eapply Forall_impl; [exact Hall|]. cbn. lia. }
      split; [done|]. intros n. rewrite H2, !holds_cons. tauto.
Qed.

#[export] Instance range_cmp_total : TotalCmp range_cmp.
Proof. unfold range_cmp. apply _. Qed.

Lemma range_cmp_begin a b : range_cmp a b <> Gt -> rbegin a <= rbegin b.
Proof.
  unfold range_cmp, cmp_then, on, ord_then. destruct (Z.compare_spec (rbegin a) (rbegin b)); try lia.
  done.
Qed.

Lemma merge_spec segs : normal (merge segs) /\ forall n, holds (merge segs) n <-> holds segs n.
Proof.
  unfold merge. set (f := List.filter _ segs).
  destruct (merge_loop_spec (sort_by range_cmp f) []) as [Hn Hh].
  - split; constructor.
  - done.
  - eapply StronglySorted_weaken; [apply range_cmp_begin|]. apply (sort_by_sorted range_cmp).
  - apply Forall_forall. intros r Hr. apply elem_of_sort_by in Hr.
    unfold f in Hr. apply list_elem_of_In, filter_In in Hr as [_ Hr].
    unfold range_is_empty in Hr. bools. lia.
  - split; [by apply normal_rev_rev|]. intros n. rewrite holds_rev, Hh.
    rewrite <-(holds_filter_nonempty segs). fold f. split.
    + intros [[]%holds_nil|H]. by apply (holds_perm _ _ _ (sort_by_perm range_cmp f)).
    + intros H. right. eapply holds_perm; [symmetry; apply sort_by_perm|done].
Qed.

(** *** [subtract] *)

Lemma holds_above l lo n :
  Forall (fun r => lo < rbegin r) l -> holds l n -> lo < n.
Proof.
  intros Hl (r & Hr & Hn). rewrite Forall_forall in Hl. specialize (Hl r Hr). cbn in Hl. lia.
Qed.

Definition within (lo hi : Z) (l : list Range) : Prop :=
  Forall (fun r => lo <= rbegin r /\ rend r <= hi) l.

Lemma normal_singleton a b : a < b -> normal [mkRange a b].
Proof. intros H. split; repeat constructor. exact H. Qed.

Lemma holds_singleton a b n : holds [mkRange a b] n <-> a <= n < b.
Proof. rewrite holds_cons. cbn. pose proof (holds_nil n). tauto. Qed.

Lemma subtract_loop_spec te covered cursor :
  normal covered -> cursor < te ->
  normal (subtract_loop te cursor covered)
  /\ within cursor te (subtract_loop te cursor covered)
  /\ forall n, holds (subtract_loop te cursor covered) n
       <-> cursor <= n < te /\ ~ holds covered n.
Proof.
  intros Hn. revert cursor. induction covered as [|c covered IH]; intros cursor Hlt;
    cbn [subtract_loop].
  { split_and!; [by apply normal_singleton|repeat constructor; cbn; lia|].
    intros n. rewrite holds_singleton. pose proof (holds_nil n). tauto. }
  destruct Hn as [Hs Hf]. inversion Hs as [|? ? Hs' Hall]; inversion Hf as [|? ? Hc Hf']; subst.
  specialize (IH (conj Hs' Hf')).
  assert (forall n, holds covered n -> rend c < n) as Habove by (intros n; by apply holds_above).
  destruct (rend c <=? cursor) eqn:E1; bools.
  { destruct (IH cursor Hlt) as (H1 & H2 & H3). split_and!; [done..|].
    intros n. rewrite H3, holds_cons. split; [|tauto]. intros [? ?]. split; [done|].
    intros [?|?]; [lia|done]. }
  destruct (te <=? rbegin c) eqn:E2; bools.
  { split_and!; [by apply normal_singleton|repeat constructor; cbn; lia|].
    intros n. rewrite holds_singleton, holds_cons. split; [|tauto]. intros ?. split; [done|].
    intros [?|Hh%Habove]; lia. }
  assert (normal (if cursor <? rbegin c then [mkRange cursor (rbegin c)] else [])
    /\ within cursor (rbegin c) (if cursor <? rbegin c then [mkRange cursor (rbegin c)] else [])
    /\ forall n, holds (if cursor <? rbegin c then [mkRange cursor (rbegin c)] else []) n
       <-> cursor <= n < rbegin c) as (Hp1 & Hp2 & Hp3).
  { destruct (cursor <? rbegin c) eqn:E3; bools.
    - split_and!; [by apply normal_singleton|repeat constructor; cbn; lia|].
      intros n. apply holds_singleton.
    - split_and!; [split; constructor|constructor|]. intros n. pose proof (holds_nil n). split; [done|lia]. }
  assert (normal (if te <=? rend c then [] else subtract_loop te (rend c) covered)
    /\ within (rend c) te (if te <=? rend c then [] else subtract_loop te (rend c) covered)
    /\ forall n, holds (if te <=? rend c then [] else subtract_loop te (rend c) covered) n
       <-> rend c <= n < te /\ ~ holds covered n) as (Hq1 & Hq2 & Hq3).
  { destruct (te <=? rend c) eqn:E3; bools; [|by apply IH].
    split_and!; [split; constructor|constructor|]. intros n. pose proof (holds_nil n). split; [done|lia]. }
  split_and!.
  - apply normal_app. split_and!; [done|done|]. intros a b Ha Hb. unfold within in *.
    rewrite Forall_forall in Hp2, Hq2. specialize (Hp2 a Ha). specialize (Hq2 b Hb). cbn in *. lia.
  - apply Forall_app. split; [eapply Forall_impl; [exact Hp2|]|eapply Forall_impl; [exact Hq2|]];
      cbn; lia.
  - intros n. rewrite holds_app, Hp3, Hq3, holds_cons. split.
    + intros [?|[? Hh]]; (split; [lia|]); intros [?|Hh'].
      * lia.
      * apply Habove in Hh'. lia.
      * lia.
      * done.
    + intros [? Hh]. destruct (decide (n < rbegin c)); [left; lia|right].
      split; [|tauto]. destruct (decide (n < rend c)); [|lia]. exfalso. apply Hh. left. lia.
Qed.

Lemma subtract_spec top covered :
  normal covered ->
  normal (subtract top covered) /\ within (rbegin top) (rend top) (subtract top covered)
  /\ forall n, holds (subtract top covered) n <-> rbegin top <= n < rend top /\ ~ holds covered n.
Proof.
  intros Hn. unfold subtract, range_is_empty. destruct (_ <=? _) eqn:E; bools.
  - split_and!; [split; constructor|constructor|]. intros n. pose proof (holds_nil n). split; [done|lia].
  - by apply subtract_loop_spec.
Qed.

Lemma flat_map_subtract_spec rs covered :
  normal rs -> normal covered ->
  normal (flat_map (fun r => subtract r covered) rs)
  /\ (forall x, x ∈ flat_map (fun r => subtract r covered) rs ->
        exists r, r ∈ rs /\ rbegin r <= rbegin x /\ rend x <= rend r)
  /\ forall n, holds (flat_map (fun r => subtract r covered) rs) n
       <-> holds rs n /\ ~ holds covered n.
Proof.
  intros Hn Hc. induction rs as [|r rs IH]; cbn [flat_map].
  { split_and!; [split; constructor|by intros x Hx%elem_of_nil|].
    intros n. pose proof (holds_nil n). tauto. }
  apply (normal_app [r] rs) in Hn as (_ & Hn & Hr).
  destruct (IH Hn) as (H1 & H2 & H3). destruct (subtract_spec r covered Hc) as (S1 & S2 & S3).
  unfold within in S2. rewrite Forall_forall in S2. split_and!.
  - apply normal_app. split_and!; [done|done|]. intros a b Ha Hb.
    destruct (H2 b Hb) as (r' & Hr' & ? & _). specialize (S2 a Ha).
    specialize (Hr r r' ltac:(constructor) Hr'). lia.
  - intros x Hx. apply elem_of_app in Hx as [Hx|Hx].
    + exists r. split; [constructor|by apply S2].
    + destruct (H2 x Hx) as (r' & ? & ?). exists r'. split; [by constructor|done].
  - intros n. rewrite holds_app, holds_cons, S3, H3. tauto.
Qed.

(** *** Holes and the top component *)

Lemma normal_last_max l r n :
  normal l -> last l = Some r -> holds l n -> n < rend r.
Proof.
  intros Hn Hl Hh. apply last_Some in Hl as [l' ->]. apply normal_app in Hn as (_ & Hn & Hlt).
  apply holds_app in Hh as [(x & Hx & ?)|Hh].
  - specialize (Hlt x r Hx ltac:(constructor)). destruct Hn as [_ Hn]. inversion Hn; subst. lia.
  - destruct Hh as (x & ->%list_elem_of_singleton & ?). lia.
Qed.

Lemma holes_spec l n :
  normal l ->
  holds (holes l) n <-> ~ holds l n /\ (exists m, m < n /\ holds l m) /\ (exists m, n < m /\ holds l m).
Proof.
  intros Hn. induction l as [|a l IH]; cbn [holes].
  { pose proof (holds_nil n). split; [done|]. intros (_ & (m & _ & []%holds_nil) & _). }
  destruct Hn as [Hs Hf]. inversion Hs as [|? ? Hs' Hall]; inversion Hf as [|? ? Ha Hf']; subst.
  specialize (IH (conj Hs' Hf')).
  assert (forall m, holds l m -> rend a < m) as Habove by (intros m; by apply holds_above).
  destruct l as [|b l].
  { split; [by intros []%holds_nil|]. rewrite holds_cons. intros (H1 & (m & Hm & H2) & (m' & Hm' & H3)).
    apply holds_cons in H2 as [H2|[]%holds_nil]. apply holds_cons in H3 as [H3|[]%holds_nil].
    exfalso. apply H1. left. lia. }
  rewrite holds_cons, IH. cbn [rbegin rend]. inversion Hf' as [|? ? Hb _]; subst.
  inversion Hs' as [|? ? _ Hballs]; subst.
  assert (holds (b :: l) (rbegin b)) as Hbb by (apply holds_cons; left; lia).
  assert (forall m, holds (b :: l) m -> rbegin b <= m) as Hmin.
  { intros m Hm. apply holds_cons in Hm as [Hm|Hm]; [lia|].
    assert (rend b < m) by (by apply (holds_above l)). lia. }
  split.
  - intros [Hn|(H1 & (m & Hm & H2) & (m' & Hm' & H3))]; split_and!.
    + rewrite holds_cons. intros [?|Hh%Hmin]; lia.
    + exists (rbegin a). split; [lia|]. apply holds_cons. left. lia.
    + exists (rbegin b). split; [lia|]. apply holds_cons. by right.
    + rewrite holds_cons. intros [?|?]; [|done]. apply Habove in H2. lia.
    + exists m. split; [done|]. apply holds_cons. by right.
    + exists m'. split; [done|]. apply holds_cons. by right.
  - intros (H1 & (m & Hm & H2) & (m' & Hm' & H3)). rewrite holds_cons in H1, H2, H3.
    destruct (decide (n < rbegin b)).
    + left. destruct H2 as [H2|H2%Hmin]; [|lia]. destruct (decide (n < rend a)); [|lia].
      exfalso. apply H1. left. lia.
    + right. split_and!; [tauto| |].
      * exists (rbegin b). split; [|done]. destruct (decide (n = rbegin b)) as [->|]; [tauto|lia].
      * exists m'. split; [done|]. destruct H3 as [?|?]; [|done]. apply Habove in Hbb. lia.
Qed.

(** *** Normal lists are canonical *)

Lemma normal_cons_inv a l :
  normal (a :: l) -> rbegin a < rend a /\ normal l /\ (forall n, holds l n -> rend a < n).
Proof.
  intros [Hs Hf]. inversion Hs as [|? ? Hs' Hall]; inversion Hf as [|? ? Ha Hf']; subst.
  split_and!; [done|done|]. intros n. by apply holds_above.
Qed.

(** The first range of a normal list, from the set of its blocks. *)
Lemma normal_head a l n :
  normal (a :: l) ->
  (rbegin a <= n < rend a -> holds (a :: l) n) /\ ~ holds (a :: l) (rend a)
  /\ (holds (a :: l) n -> rbegin a <= n).
Proof.
  intros (Ha & Hn & Hab)%normal_cons_inv. rewrite !holds_cons. split_and!.
  - by left.
  - intros [?|H%Hab]; lia.
  - intros [?|H%Hab]; lia.
Qed.

Lemma normal_unique l k : normal l -> normal k -> (forall n, holds l n <-> holds k n) -> l = k.
Proof.
  revert k. induction l as [|a l IH]; intros [|b k] Hl Hk Heq.
  - done.
  - exfalso. apply normal_cons_inv in Hk as (Hb & _ & _).
    apply (holds_nil (rbegin b)), Heq, holds_cons. left. lia.
  - exfalso. apply normal_cons_inv in Hl as (Ha & _ & _).
    apply (holds_nil (rbegin a)), Heq, holds_cons. left. lia.
  - pose proof (normal_cons_inv _ _ Hl) as (Ha & Hl' & Hal).
    pose proof (normal_cons_inv _ _ Hk) as (Hb & Hk' & Hbk).
    assert (rbegin a = rbegin b) as Hbeg.
    { assert (rbegin b <= rbegin a) by (apply (normal_head b k), Heq, (normal_head a l); [done|done|lia]).
      assert (rbegin a <= rbegin b) by (apply (normal_head a l), Heq, (normal_head b k); [done|done|lia]).
      lia. }
    assert (rend a = rend b) as Hend.
    { destruct (Z.lt_trichotomy (rend a) (rend b)) as [Hlt|[?|Hlt]]; [|done|]; exfalso.
      - destruct (normal_head a l (rend a) Hl) as (_ & Hno & _). apply Hno, Heq, holds_cons. left. lia.
      - destruct (normal_head b k (rend b) Hk) as (_ & Hno & _). apply Hno, Heq, holds_cons. left. lia. }
    f_equal; [destruct a, b; cbn in *; congruence|].
    apply IH; [done|done|]. intros n. specialize (Heq n). rewrite !holds_cons in Heq. split.
    + intros Hh. pose proof (Hal n Hh). destruct (proj1 Heq (or_intror Hh)); [lia|done].
    + intros Hh. pose proof (Hbk n Hh). destruct (proj2 Heq (or_intror Hh)); [lia|done].
Qed.

Lemma cov_has_coverage segs online tail n :
  cov_has (coverage segs online tail) n = true
  <-> holds segs n \/ exists b, tail = Some b /\ b <= n.
Proof.
  destruct (merge_spec segs) as [_ Hh]. unfold cov_has. cbn -[merge].
  rewrite orb_true_iff, existsb_exists, <-Hh. split.
  - intros [H|(r & Hr & Hc)].
    + right. destruct tail as [b|]; [|done]. cbn in H. bools. eauto.
    + left. apply range_contains_spec in Hc. exists r. by rewrite list_elem_of_In.
  - intros [(r & Hr & Hc)|(b & -> & Hb)].
    + right. exists r. rewrite <-list_elem_of_In, range_contains_spec. done.
    + left. by apply Z.leb_le.
Qed.

(** ** Theorems *)

(** [merge] returns the canonical list of its blocks: sorted, disjoint, not
    touching, no empty range, holding exactly the blocks of the input; so the
    order and the overlaps of the input never matter. *)
Theorem merge_canonical (segs segs' : list Range) :
  normal (merge segs) /\ (forall n, holds (merge segs) n <-> holds segs n)
  /\ ((forall n, holds segs n <-> holds segs' n) -> merge segs = merge segs').
Proof.
  destruct (merge_spec segs) as [Hn Hh]. destruct (merge_spec segs') as [Hn' Hh'].
  split_and!; [done|done|]. intros Heq. apply normal_unique; [done|done|].
  intros n. by rewrite Hh, Hh'.
Qed.

(** [uncovered] is set difference: a canonical list of exactly the blocks of
    [ranges] that no range of [covered] holds. *)
Theorem uncovered_exact (ranges covered : list Range) :
  normal (uncovered ranges covered)
  /\ forall n, holds (uncovered ranges covered) n <-> holds ranges n /\ ~ holds covered n.
Proof.
  unfold uncovered. destruct (merge_spec ranges) as [Hn Hh]. destruct (merge_spec covered) as [Hn' Hh'].
  destruct (flat_map_subtract_spec (merge ranges) (merge covered) Hn Hn') as (H1 & _ & H3).
  split; [done|]. intros n. by rewrite H3, Hh, Hh'.
Qed.

(** The coverage of a log: the components hold exactly the segments'
    blocks; [top] is the highest component; the gaps are exactly the blocks
    missing between two covered ones; [offline_only] is the part of [top] no
    online segment holds; membership adds the open-ended live tail. *)
Theorem coverage_exact (segs online : list Range) (tail : option Z) (n : Z) :
  let c := coverage segs online tail in
  (holds (components c) n <-> holds segs n)
  /\ (holds (gaps c) n <->
      ~ holds segs n /\ (exists m, m < n /\ holds segs m) /\ (exists m, n < m /\ holds segs m))
  /\ (holds (offline_only c) n <-> rbegin (top c) <= n < rend (top c) /\ ~ holds online n)
  /\ (holds segs n -> holds [top c] n \/ n < rbegin (top c))
  /\ (cov_has c n = true <-> holds segs n \/ exists b, tail = Some b /\ b <= n).
Proof.
  destruct (merge_spec segs) as [Hn Hh]. destruct (merge_spec online) as [Hn' Hh'].
  cbn -[merge]. split_and!.
  - apply Hh.
  - rewrite holes_spec by done. setoid_rewrite Hh. done.
  - destruct (subtract_spec (default empty_range (last (merge segs))) (merge online) Hn') as (_ & _ & H).
    by rewrite H, Hh'.
  - rewrite <-Hh. intros Hseg. destruct (last (merge segs)) as [r|] eqn:E.
    + cbn. pose proof (normal_last_max _ _ _ Hn E Hseg). rewrite holds_cons.
      destruct (decide (n < rbegin r)); [by right|left; left; lia].
    + apply last_None in E. rewrite E in Hseg. by apply holds_nil in Hseg.
  - apply cov_has_coverage.
Qed.
