(* ===== verification/View.v ===== *)
(** * Fleet view

    Models the rest of [src/src/fleet/view.rs] (the immutable snapshot sessions
    plan with) and, from [src/src/fleet/mod.rs], [ObservedTip] and the hub's
    [rebuild]/[fresh_tip].

    [build_view] is the code's pure function of the state map, the observed tips
    and the hub's memory. [SoundView] is what the planner relies on: each log's
    coverage is the union of the coverage of the enabled known upstreams.

    The theorems: [build_view] gives a sound view; the published LIB is never
    above the head and the high-water mark never decreases; the canonical ABI is
    sticky while a live upstream serves it; observed tips only grow. *)

From S2P Require Import Prelude Wire Models Coverage.

Inductive Log := Trace | ChainState | Finality.
#[export] Instance Log_eq_dec : EqDecision Log.
Proof. solve_decision. Defined.
Definition ALL_LOGS : list Log := [Trace; ChainState; Finality].

Record UpstreamView := mkUp {
  u_index : Z;
  u_endpoint : string;
  u_name : string;
  u_url : string;
  u_role : Role;
  u_enabled : bool;
  u_operator_disabled : bool;
  u_online : bool;
  u_stale : bool;
  u_known : bool;
  u_trace : Range;
  u_chain_state : Range;
  u_finality : Range;
  u_head : option BlockPos;
  u_lib : option BlockPos;
  u_connections : Z;
  u_max_sessions : option Z;
  u_priority : Z;
  u_weight : Z;
  u_quarantines : list BlockQuarantine;
  u_abi_fp : option Z;
  u_abi_ok : bool;
  u_legacy_status : bool;
  u_monitor_offline_since : option Z;
  u_no_block_log : bool;
}.

Definition set_abi_ok (b : bool) (u : UpstreamView) : UpstreamView :=
  mkUp (u_index u) (u_endpoint u) (u_name u) (u_url u) (u_role u) (u_enabled u)
    (u_operator_disabled u) (u_online u) (u_stale u) (u_known u) (u_trace u)
    (u_chain_state u) (u_finality u) (u_head u) (u_lib u) (u_connections u)
    (u_max_sessions u) (u_priority u) (u_weight u) (u_quarantines u) (u_abi_fp u) b
    (u_legacy_status u) (u_monitor_offline_since u) (u_no_block_log u).

Definition u_routable (u : UpstreamView) : bool := u_enabled u && negb (u_operator_disabled u).

Definition u_range (u : UpstreamView) (log : Log) : Range :=
  match log with
  | Trace => u_trace u
  | ChainState => u_chain_state u
  | Finality => u_finality u
  end.

Definition has_log (u : UpstreamView) (log : Log) : bool :=
  let r := u_range u log in
  match u_role u with
  | Live => 0 <? rend r
  | Frozen => negb (range_is_empty r)
  end.

Definition ids_begin (u : UpstreamView) : option Z :=
  min_list (map (fun log => rbegin (u_range u log)) (List.filter (has_log u) ALL_LOGS)).

Definition max_end (u : UpstreamView) : Z :=
  default 0 (max_list (map (fun log => rend (u_range u log)) (List.filter (has_log u) ALL_LOGS))).

Definition u_covers (u : UpstreamView) (log : Log) (n : Z) : bool :=
  let r := u_range u log in
  match u_role u with
  | Live => (0 <? rend r) && (rbegin r <=? n)
  | Frozen => range_contains r n
  end.

Definition covers_ids (u : UpstreamView) (n : Z) : bool :=
  existsb (fun log => u_covers u log n) ALL_LOGS.

Definition at_capacity_besides (u : UpstreamView) (own : Z) : bool :=
  is_some_and (fun max => max <=? sat_sub (u_connections u) own) (u_max_sessions u).

Definition at_capacity (u : UpstreamView) : bool := at_capacity_besides u 0.

Definition quarantined_at (u : UpstreamView) (n now : Z) : bool :=
  existsb (fun q => active q now && covers q n) (u_quarantines u).

Inductive AbiSource := AFile | ALive (i : Z) | AProvisional (i : Z).
#[export] Instance AbiSource_eq_dec : EqDecision AbiSource.
Proof. solve_decision. Defined.

Record FleetView := mkView {
  v_generation : Z;
  v_topology : ResolvedTopology;
  v_chain_id : option (list Z);
  v_head : option BlockPos;
  v_lib : option BlockPos;
  v_trace : LogCoverage;
  v_chain_state : LogCoverage;
  v_finality : LogCoverage;
  v_ids : LogCoverage;
  v_upstreams : list UpstreamView;
  v_abi : option AbiEntry;
  v_abi_source : option AbiSource;
  v_frozen_unknown : Z;
  v_status_ready : bool;
  v_live_configured : bool;
  v_online : Z;
  v_live_online : Z;
  v_live_overlap : option Z * option Z;
  v_anchors : list nat;
}.

Definition empty_view (topology : ResolvedTopology) (chain : option (list Z)) : FleetView :=
  mkView 0 topology chain None None no_coverage no_coverage no_coverage no_coverage []
    None None 0 false false 0 0 (None, None) [].

Definition cov (v : FleetView) (log : Log) : LogCoverage :=
  match log with
  | Trace => v_trace v
  | ChainState => v_chain_state v
  | Finality => v_finality v
  end.

(** [up]: the position [index] when it holds that upstream, else a search. *)
Definition up (v : FleetView) (index : Z) : option UpstreamView :=
  match nth_get (v_upstreams v) index with
  | Some u => if u_index u =? index then Some u
              else List.find (fun u => u_index u =? index) (v_upstreams v)
  | None => List.find (fun u => u_index u =? index) (v_upstreams v)
  end.

(** The segment [u] contributes to the coverage of [log]. *)
Definition log_segment (u : UpstreamView) (log : Log) (head : option BlockPos) : option Range :=
  if negb (has_log u log) then None
  else
    let r := u_range u log in
    match u_role u with
    | Live =>
        Some (mkRange (rbegin r)
          (map_or (rend r) (fun h => Z.max (rend r) (sat_add u32_max (num h) 1)) head))
    | Frozen => Some r
    end.

Record UpstreamStatic := mkStatic { st_endpoint : string; st_name : string; st_url : string }.

Record HubMemory := mkMem {
  m_generation : Z;
  lib_hwm : option BlockPos;
  last_tip : option BlockPos * option BlockPos;
  canonical : option (AbiEntry * AbiSource);
  head_seen : option Z;
  head_advanced_at : Z;
  warned_abi : gmap Z Z;
  warned_frozen_end : gset Z;
}.

Definition new_memory (now : Z) : HubMemory := mkMem 0 None (None, None) None None now ∅ ∅.

Definition note_head (head : option BlockPos) (now : Z) (m : HubMemory) : HubMemory :=
  match head with
  | Some h =>
      if is_none_or (fun seen => seen <? num h) (head_seen m)
      then mkMem (m_generation m) (lib_hwm m) (last_tip m) (canonical m) (Some (num h)) now
             (warned_abi m) (warned_frozen_end m)
      else m
  | None => m
  end.

Record BuildCtx := mkCtx {
  bc_topology : ResolvedTopology;
  pinned_chain_id : option (list Z);
  abi_pin : option AbiEntry;
  bc_abi_mismatch : AbiMismatch;
  statics : list UpstreamStatic;
}.

Definition max_by_num (a b : option BlockPos) : option BlockPos :=
  match a, b with
  | Some x, Some y => if num x <? num y then Some y else Some x
  | Some x, None => Some x
  | None, y => y
  end.

Definition upstream_view (ctx : BuildCtx) (endpoint : string) (s : ServerState) : UpstreamView :=
  let '(ep, name, url) :=
    match nth_get (statics ctx) (s_index (cfg s)) with
    | Some st =>
        if bool_decide (st_endpoint st = endpoint) then (st_endpoint st, st_name st, st_url st)
        else (endpoint, s_name (cfg s), dial_url endpoint)
    | None => (endpoint, s_name (cfg s), dial_url endpoint)
    end in
  let r := reported s in
  let '(trace, chain_state, finality) :=
    if ranges_known s then
      (mkRange (trace_begin_block r) (trace_end_block r),
       mkRange (chain_state_begin_block r) (chain_state_end_block r),
       mkRange (finality_data_begin_block r) (finality_data_end_block r))
    else
      match role s, declared s with
      | Frozen, Some d => (d, d, empty_range)
      | _, _ => (empty_range, empty_range, empty_range)
      end in
  mkUp (s_index (cfg s)) ep name url (role s) (enabled s) (operator_disabled s) (online s)
    (stale s) (ranges_usable s) trace chain_state finality (st_head s) (st_lib s)
    (connections s) (s_max_sessions (cfg s)) (s_priority (cfg s))
    (Z.max (s_weight (cfg s)) 1) (quarantines s) (abi_fp <$> abi s) true
    (bool_decide (status_v1 s = Some false)) (offline_since s) (no_block_log s).

(** The tips as [ObservedTip::get] returns them, by upstream index. *)
Definition Tips : Type := list (option (BlockPos * BlockPos)).

Definition tip_of (tips : Tips) (index : Z) : option (BlockPos * BlockPos) :=
  default None (nth_get tips index).

Definition anchor_max (upstreams : list UpstreamView) (tips : Tips) (anchors : list nat)
  : option BlockPos * option BlockPos :=
  foldl (fun acc u =>
      let tip := tip_of tips (u_index u) in
      (max_by_num acc.1 (max_by_num (u_head u) (fst <$> tip)),
       max_by_num acc.2 (max_by_num (u_lib u) (snd <$> tip))))
    (None, None) (omap (fun pos => upstreams !! pos) anchors).

(** Positions of the elements that satisfy [f], from [i] on. *)
Fixpoint positions {A} (f : A -> bool) (i : nat) (l : list A) : list nat :=
  match l with
  | [] => []
  | x :: l => if f x then i :: positions f (S i) l else positions f (S i) l
  end.

Definition live_on (u : UpstreamView) : bool :=
  u_routable u && bool_decide (u_role u = Live) && u_online u.

Definition choose_anchors (upstreams : list UpstreamView) : list nat :=
  let on := positions live_on 0 upstreams in
  let fresh := List.filter (fun pos => map_or false (fun u => negb (u_stale u)) (upstreams !! pos)) on in
  match fresh with [] => on | _ => fresh end.

(** The LIB shown with [head]: the mark, but never above the head. *)
Definition clamp_lib (head : BlockPos) (lib : option BlockPos) : option BlockPos :=
  (fun l => if num head <? num l then head else l) <$> lib.

Definition set_lib_hwm (v : option BlockPos) (m : HubMemory) : HubMemory :=
  mkMem (m_generation m) v (last_tip m) (canonical m) (head_seen m) (head_advanced_at m)
    (warned_abi m) (warned_frozen_end m).
Definition set_last_tip (v : option BlockPos * option BlockPos) (m : HubMemory) : HubMemory :=
  mkMem (m_generation m) (lib_hwm m) v (canonical m) (head_seen m) (head_advanced_at m)
    (warned_abi m) (warned_frozen_end m).
Definition set_canonical (v : option (AbiEntry * AbiSource)) (m : HubMemory) : HubMemory :=
  mkMem (m_generation m) (lib_hwm m) (last_tip m) v (head_seen m) (head_advanced_at m)
    (warned_abi m) (warned_frozen_end m).
Definition set_generation (v : Z) (m : HubMemory) : HubMemory :=
  mkMem v (lib_hwm m) (last_tip m) (canonical m) (head_seen m) (head_advanced_at m)
    (warned_abi m) (warned_frozen_end m).

Definition fleet_tip (upstreams : list UpstreamView) (tips : Tips) (live_configured : bool)
    (m : HubMemory) : (option BlockPos * option BlockPos * list nat) * HubMemory :=
  let anchors := choose_anchors upstreams in
  let '(head, lib) :=
    match anchors with
    | _ :: _ => anchor_max upstreams tips anchors
    | [] =>
        if negb live_configured then
          let newest := foldl (fun acc u => max_by_num acc (u_head u)) None
            (List.filter (fun u => u_enabled u && u_known u && bool_decide (u_role u = Frozen))
               upstreams) in
          (newest, newest)
        else last_tip m
    end in
  let '(head, lib) := match head with None => last_tip m | Some _ => (head, lib) end in
  match head with
  | None => ((None, None, anchors), m)
  | Some head =>
      let lib := max_by_num lib (lib_hwm m) in
      let m := set_lib_hwm lib m in
      let lib := clamp_lib head lib in
      ((Some head, lib, anchors), set_last_tip (Some head, lib) m)
  end.

Definition fresh_tip (v : FleetView) (tips : Tips) (now : Z) (m : HubMemory)
  : (option BlockPos * option BlockPos) * HubMemory :=
  let '(anchor_head, anchor_lib) := anchor_max (v_upstreams v) tips (v_anchors v) in
  match max_by_num (v_head v) anchor_head with
  | None => ((None, None), m)
  | Some head =>
      let lib := max_by_num (max_by_num (v_lib v) anchor_lib) (lib_hwm m) in
      let m := set_lib_hwm lib m in
      let lib := clamp_lib head lib in
      let m := note_head (Some head) now m in
      let m := if is_none_or (fun l => num l <? num head) (last_tip m).1
               then set_last_tip (Some head, lib) m else m in
      ((Some head, lib), m)
  end.

Definition live_overlap (upstreams : list UpstreamView) (log : Log) : option Z :=
  frozen_end ← max_list (map (fun u => rend (u_range u log))
    (List.filter (fun u => u_enabled u && u_known u && bool_decide (u_role u = Frozen)
                           && has_log u log) upstreams));
  live_begin ← min_list (map (fun u => rbegin (u_range u log))
    (List.filter (fun u => u_enabled u && u_known u && u_online u && bool_decide (u_role u = Live)
                           && has_log u log) upstreams));
  Some (frozen_end - live_begin).

(** The online upstreams of a role with their ABIs. *)
Definition online_with_abi (r : Role) (upstreams : list UpstreamView) (abis : list (option AbiEntry))
  : list (UpstreamView * AbiEntry) :=
  omap (fun ua : UpstreamView * option AbiEntry =>
      if u_routable ua.1 && u_online ua.1 && bool_decide (u_role ua.1 = r)
      then (fun a => (ua.1, a)) <$> ua.2 else None)
    (zip upstreams abis).

(** [a <= b] on [Option<u32>], where [None] is the least. *)
Definition opt_le (a b : option Z) : bool :=
  match option_cmp a b with Gt => false | _ => true end.

Definition best_live (l : list (UpstreamView * AbiEntry)) : option (UpstreamView * AbiEntry) :=
  foldl (fun best (ua : UpstreamView * AbiEntry) =>
      match best with
      | Some b => if opt_le (num <$> u_head ua.1) (num <$> u_head b.1) then best else Some ua
      | None => Some ua
      end) None l.

(** One entry of [counts]: fingerprint, count, index of the first upstream. *)
Record AbiCount := mkCount { ac_fp : Z; ac_count : Z; ac_index : Z; ac_abi : AbiEntry }.

Fixpoint count_abi (u : UpstreamView) (a : AbiEntry) (counts : list AbiCount) : list AbiCount :=
  match counts with
  | [] => [mkCount (abi_fp a) 1 (u_index u) a]
  | c :: counts =>
      if ac_fp c =? abi_fp a
      then mkCount (ac_fp c) (ac_count c + 1) (ac_index c) (ac_abi c) :: counts
      else c :: count_abi u a counts
  end.

Definition count_cmp : AbiCount -> AbiCount -> comparison :=
  cmp_then (on ac_count Z.compare) (cmp_rev (on ac_index Z.compare)).

Definition choose_canonical (ctx : BuildCtx) (upstreams : list UpstreamView)
    (abis : list (option AbiEntry)) (current : option (AbiEntry * AbiSource))
  : option (AbiEntry * AbiSource) :=
  match abi_pin ctx with
  | Some pin => Some (pin, AFile)
  | None =>
      let live := online_with_abi Live upstreams abis in
      let sticky :=
        match current with
        | Some (entry, ALive _) =>
            existsb (fun ua : UpstreamView * AbiEntry =>
              bool_decide (u_abi_fp ua.1 = Some (abi_fp entry))) live
        | _ => false
        end in
      if sticky then current
      else
        match best_live live with
        | Some (u, a) => Some (a, ALive (u_index u))
        | None =>
            match current with
            | Some c => Some c
            | None =>
                let counts := foldl (fun counts (ua : UpstreamView * AbiEntry) =>
                    count_abi ua.1 ua.2 counts) [] (online_with_abi Frozen upstreams abis) in
                (fun c => (ac_abi c, AProvisional (ac_index c))) <$> max_by count_cmp counts
            end
        end
  end.

Definition canonical_abi (ctx : BuildCtx) (upstreams : list UpstreamView)
    (abis : list (option AbiEntry)) (m : HubMemory)
  : option (AbiEntry * AbiSource) * HubMemory :=
  let next := choose_canonical ctx upstreams abis (canonical m) in
  (next, set_canonical next m).

(** [warn_stitched]: which upstreams have been warned about. *)
Definition warn_stitched (upstreams : list UpstreamView)
    (canonical_ : option (AbiEntry * AbiSource)) (live_lib : option BlockPos)
    (m : HubMemory) : HubMemory :=
  let wa :=
    match canonical_ with
    | Some (entry, _) =>
        foldl (fun (wa : gmap Z Z) u =>
            match u_abi_fp u with
            | Some fp => if fp =? abi_fp entry then delete (u_index u) wa
                         else <[u_index u := fp]> wa
            | None => delete (u_index u) wa
            end) (warned_abi m) upstreams
    | None => warned_abi m
    end in
  let wf :=
    match live_lib with
    | Some lib =>
        foldl (fun (wf : gset Z) u =>
            if num lib + 1 <? max_end u then {[u_index u]} ∪ wf else wf)
          (warned_frozen_end m)
          (List.filter (fun u => u_enabled u && u_known u && bool_decide (u_role u = Frozen)) upstreams)
    | None => warned_frozen_end m
    end in
  mkMem (m_generation m) (lib_hwm m) (last_tip m) (canonical m) (head_seen m)
    (head_advanced_at m) wa wf.

(** *** The coverage closure of [build_view] *)

Record CovAcc := mkAcc { acc_segs : list Range; acc_online : list Range; acc_tail : option Z }.

Definition cov_log (head : option BlockPos) (u : UpstreamView) (acc : CovAcc) (log : Log) : CovAcc :=
  match log_segment u log head with
  | None => acc
  | Some seg =>
      mkAcc (acc_segs acc ++ [seg])
        (if u_online u && negb (u_operator_disabled u) then acc_online acc ++ [seg]
         else acc_online acc)
        (if bool_decide (u_role u = Live) then
           let begin_ := rbegin (u_range u log) in
           Some (map_or begin_ (fun t => Z.min t begin_) (acc_tail acc))
         else acc_tail acc)
  end.

Definition cov_of (upstreams : list UpstreamView) (head : option BlockPos) (logs : list Log)
  : LogCoverage :=
  let acc := foldl (fun acc u => foldl (cov_log head u) acc logs) (mkAcc [] [] None)
    (List.filter (fun u => u_enabled u && u_known u) upstreams) in
  coverage (acc_segs acc) (acc_online acc) (acc_tail acc).

(** The order of [build_view]: by index, then by endpoint. *)
Definition state_cmp : string * ServerState -> string * ServerState -> comparison :=
  cmp_then (on (fun e => s_index (cfg e.2)) Z.compare) (on fst String.compare).

Definition count_if {A} (f : A -> bool) (l : list A) : Z := zlen (List.filter f l).

(** [build_view]; the map's entries are sorted, so its own order is immaterial. *)
Definition build_view (ctx : BuildCtx) (states : gmap string ServerState) (tips : Tips)
    (now : Z) (m : HubMemory) : FleetView * HubMemory :=
  let sorted := sort_by state_cmp (map_to_list states) in
  let upstreams := map (fun e => upstream_view ctx e.1 e.2) sorted in
  let abis := map (fun e => abi e.2) sorted in
  let chain_ids := map (fun e => chain_id e.2) sorted in
  let live_configured := existsb (fun u => u_enabled u && bool_decide (u_role u = Live)) upstreams in
  let '(head, lib, anchors, m) := fleet_tip upstreams tips live_configured m in
  let m := note_head head now m in
  let frozen_unknown := count_if (fun u => u_enabled u && bool_decide (u_role u = Frozen)
                                           && negb (u_known u)) upstreams in
  let '(canonical_, m) :=
    match bc_topology ctx with
    | RStitched => canonical_abi ctx upstreams abis m
    | RPool => (None, m)
    end in
  let upstreams' :=
    match canonical_, bc_abi_mismatch ctx with
    | Some (entry, _), AbiExclude =>
        map (fun u => set_abi_ok (bool_decide (u_abi_fp u = Some (abi_fp entry))) u) upstreams
    | _, _ => upstreams
    end in
  let m :=
    match bc_topology ctx with
    | RStitched =>
        warn_stitched upstreams' canonical_ (if live_configured then lib else None) m
    | RPool => m
    end in
  let chain :=
    or_else (pinned_chain_id ctx)
      (first_get (omap (fun uc : UpstreamView * option (list Z) =>
         if u_online uc.1 then uc.2 else None) (zip upstreams' chain_ids))) in
  (mkView (m_generation m) (bc_topology ctx) chain head lib
     (cov_of upstreams head [Trace]) (cov_of upstreams head [ChainState])
     (cov_of upstreams head [Finality]) (cov_of upstreams head ALL_LOGS)
     upstreams' (fst <$> canonical_) (snd <$> canonical_)
     frozen_unknown
     (is_some head && is_some lib && (frozen_unknown =? 0))
     live_configured
     (count_if (fun u => u_routable u && u_online u) upstreams)
     (count_if (fun u => u_routable u && u_online u && bool_decide (u_role u = Live)) upstreams)
     (live_overlap upstreams Trace, live_overlap upstreams ChainState)
     anchors, m).

(** ** Segments for the coverage report *)

Record CoverageSegment := mkSegment { seg_range : Range; seg_upstreams : list nat }.

(** [Vec::dedup]: neighbours that are equal collapse. *)
Fixpoint dedup (l : list Z) : list Z :=
  match l with
  | a :: ((b :: _) as rest) => if a =? b then dedup rest else a :: dedup rest
  | _ => l
  end.

Definition segment_parts (v : FleetView) (log : Log) : list (nat * Range) :=
  omap (fun pu : nat * UpstreamView =>
      if u_enabled pu.2 && u_known pu.2
      then (fun r => (pu.1, r)) <$> log_segment pu.2 log (v_head v) else None)
    (imap pair (v_upstreams v)).

(** Fold one window into the segments, last segment first. *)
Definition push_segment (parts : list (nat * Range)) (out : list CoverageSegment) (range : Range)
  : list CoverageSegment :=
  let members := map fst (List.filter (fun pr : nat * Range =>
      (rbegin pr.2 <=? rbegin range) && (rend range <=? rend pr.2)) parts) in
  match members with
  | [] => out
  | _ =>
      match out with
      | last :: out' =>
          if (rend (seg_range last) =? rbegin range) && bool_decide (seg_upstreams last = members)
          then mkSegment (mkRange (rbegin (seg_range last)) (rend range)) members :: out'
          else mkSegment range members :: out
      | [] => [mkSegment range members]
      end
  end.

Fixpoint windows (bounds : list Z) : list Range :=
  match bounds with
  | a :: ((b :: _) as rest) => mkRange a b :: windows rest
  | _ => []
  end.

Definition segments (v : FleetView) (log : Log) : list CoverageSegment :=
  let parts := segment_parts v log in
  let bounds := dedup (sort_by Z.compare (flat_map (fun pr : nat * Range =>
    [rbegin pr.2; rend pr.2]) parts)) in
  rev (foldl (push_segment parts) [] (windows bounds)).

(** ** Observed tips ([fleet/mod.rs]) *)

Record ObservedTip := mkTip {
  t_head_num : Z;
  t_lib_num : Z;
  t_inner : option (BlockPos * BlockPos);
}.

Definition new_tip : ObservedTip := mkTip 0 0 None.

Definition observe (head lib : BlockPos) (t : ObservedTip) : ObservedTip :=
  if (num head <=? t_head_num t) && (num lib <=? t_lib_num t) then t
  else
    let '(head, lib) :=
      match t_inner t with
      | Some (seen_head, seen_lib) =>
          (if num seen_head <? num head then head else seen_head,
           if num seen_lib <? num lib then lib else seen_lib)
      | None => (head, lib)
      end in
    mkTip (num head) (num lib) (Some (head, lib)).

(** ** The hub *)

Record FleetHub := mkHub { hub_view : FleetView; hub_mem : HubMemory }.

#[export] Instance BlockQuarantine_eq_dec : EqDecision BlockQuarantine.
Proof. solve_decision. Defined.
#[export] Instance LogCoverage_eq_dec : EqDecision LogCoverage.
Proof. solve_decision. Defined.
#[export] Instance UpstreamView_eq_dec : EqDecision UpstreamView.
Proof. solve_decision. Defined.

(** [PartialEq for UpstreamView] compares the counters by address, which is the
    same for every view of one upstream; their values are left out. *)
Definition without_connections (u : UpstreamView) : UpstreamView :=
  mkUp (u_index u) (u_endpoint u) (u_name u) (u_url u) (u_role u) (u_enabled u)
    (u_operator_disabled u) (u_online u) (u_stale u) (u_known u) (u_trace u)
    (u_chain_state u) (u_finality u) (u_head u) (u_lib u) 0
    (u_max_sessions u) (u_priority u) (u_weight u) (u_quarantines u) (u_abi_fp u) (u_abi_ok u)
    (u_legacy_status u) (u_monitor_offline_since u) (u_no_block_log u).

Definition same_content (a b : FleetView) : bool :=
  bool_decide (v_topology a = v_topology b)
  && bool_decide (v_chain_id a = v_chain_id b)
  && bool_decide (v_head a = v_head b)
  && bool_decide (v_lib a = v_lib b)
  && bool_decide (v_trace a = v_trace b)
  && bool_decide (v_chain_state a = v_chain_state b)
  && bool_decide (v_finality a = v_finality b)
  && bool_decide (v_ids a = v_ids b)
  && bool_decide (map without_connections (v_upstreams a) = map without_connections (v_upstreams b))
  && bool_decide (abi_fp <$> v_abi a = abi_fp <$> v_abi b)
  && bool_decide (v_abi_source a = v_abi_source b)
  && (v_frozen_unknown a =? v_frozen_unknown b)
  && eqb (v_status_ready a) (v_status_ready b)
  && eqb (v_live_configured a) (v_live_configured b)
  && (v_online a =? v_online b)
  && (v_live_online a =? v_live_online b)
  && bool_decide (v_live_overlap a = v_live_overlap b)
  && bool_decide (v_anchors a = v_anchors b).

Definition with_generation (g : Z) (v : FleetView) : FleetView :=
  mkView g (v_topology v) (v_chain_id v) (v_head v) (v_lib v) (v_trace v) (v_chain_state v)
    (v_finality v) (v_ids v) (v_upstreams v) (v_abi v) (v_abi_source v) (v_frozen_unknown v)
    (v_status_ready v) (v_live_configured v) (v_online v) (v_live_online v) (v_live_overlap v)
    (v_anchors v).

Definition rebuild (ctx : BuildCtx) (states : gmap string ServerState) (tips : Tips) (now : Z)
    (hub : FleetHub) : FleetHub :=
  let '(view, m) := build_view ctx states tips now (hub_mem hub) in
  if same_content view (hub_view hub) then mkHub (hub_view hub) m
  else
    let m := set_generation (m_generation m + 1) m in
    mkHub (with_generation (m_generation m) view) m.

Definition head_age (now : Z) (hub : FleetHub) : Z :=
  sat_sub now (head_advanced_at (hub_mem hub)).

(** ** The interface of a view

    What the planner relies on: the coverage of a log is the union of what the
    enabled known upstreams cover. *)
Definition upstream_covers (v : FleetView) (log : Log) (n : Z) : Prop :=
  exists u, u ∈ v_upstreams v /\ u_enabled u = true /\ u_known u = true /\ u_covers u log n = true.

Class SoundView (v : FleetView) : Prop := {
  sv_cov : forall log n, cov_has (cov v log) n = true <-> upstream_covers v log n;
  sv_ids : forall n, cov_has (v_ids v) n = true <-> exists log, upstream_covers v log n;
}.

(** ** Coverage is the union *)

Lemma covers_segment u log head n :
  u_covers u log n = true <->
  exists seg, log_segment u log head = Some seg
    /\ match u_role u with
       | Live => rbegin (u_range u log) <= n
       | Frozen => rbegin seg <= n < rend seg
       end.
Proof.
  unfold u_covers, log_segment, has_log, range_is_empty, range_contains. destruct (u_role u).
  - destruct (0 <? _) eqn:E; cbn [negb andb].
    + rewrite Z.leb_le. split; [eauto|]. by intros (seg & _ & ?).
    + split; [done|]. by intros (seg & [=] & _).
  - rewrite andb_true_iff, Z.leb_le, Z.ltb_lt. destruct (_ <=? _) eqn:E; cbn [negb]; bools.
    + split; [lia|]. by intros (seg & [=] & _).
    + split; [eauto|]. by intros (seg & [= <-] & ?).
Qed.

(** What one upstream adds to the accumulator. *)
Definition tail_below (t : option Z) (n : Z) : Prop := exists b, t = Some b /\ b <= n.

Lemma live_segment_begin u log head seg :
  u_role u = Live -> log_segment u log head = Some seg -> rbegin seg = rbegin (u_range u log).
Proof. unfold log_segment. intros ->. case_match; [done|]. by intros [= <-]. Qed.

Lemma cov_log_spec head u log acc n :
  (holds (acc_segs (cov_log head u acc log)) n \/ tail_below (acc_tail (cov_log head u acc log)) n)
  <-> (holds (acc_segs acc) n \/ tail_below (acc_tail acc) n) \/ u_covers u log n = true.
Proof.
  rewrite (covers_segment u log head). unfold cov_log.
  destruct (log_segment u log head) as [seg|] eqn:E; cbn [acc_segs acc_tail].
  2: { split; [by left|]. intros [?|(seg & [=] & _)]; done. }
  rewrite holds_app, holds_cons. pose proof (holds_nil n). unfold tail_below.
  destruct (u_role u) eqn:Er.
  - rewrite bool_decide_true by done. pose proof (live_segment_begin _ _ _ _ Er E) as Hb.
    split.
    + intros [[?|[?|?]]|(b & [= <-] & Hle)]; [by left; left|right; exists seg; split; [done|lia]|done|].
      destruct (acc_tail acc) as [t|]; cbn in Hle.
      * destruct (Z.min_dec t (rbegin (u_range u log))) as [Hm|Hm]; rewrite Hm in Hle;
          [left; right; eauto|right; eauto].
      * right. eauto.
    + intros [[?|(b & Hb' & Hle)]|(seg' & [= <-] & Hle)].
      * by left; left.
      * right. eexists. split; [done|]. rewrite Hb'. cbn. lia.
      * right. eexists. split; [done|]. destruct (acc_tail acc); cbn; lia.
  - rewrite bool_decide_false by done. split.
    + intros [[?|[?|?]]|?]; [by left; left|right; eauto|done|by left; right].
    + intros [[?|?]|(seg' & [= <-] & Hle)]; [by left; left|by right|left; right; by left].
Qed.

Lemma cov_logs_spec head u logs acc n :
  let acc' := foldl (cov_log head u) acc logs in
  (holds (acc_segs acc') n \/ tail_below (acc_tail acc') n)
  <-> (holds (acc_segs acc) n \/ tail_below (acc_tail acc) n)
      \/ exists log, log ∈ logs /\ u_covers u log n = true.
Proof.
  cbv zeta. revert acc. induction logs as [|log logs IH]; intros acc; cbn [foldl].
  - split; [by left|]. intros [?|(l & []%elem_of_nil & _)]; done.
  - rewrite IH, cov_log_spec. setoid_rewrite elem_of_cons. naive_solver.
Qed.

Lemma cov_of_spec upstreams head logs n :
  cov_has (cov_of upstreams head logs) n = true <->
  exists u log, u ∈ upstreams /\ u_enabled u = true /\ u_known u = true
    /\ log ∈ logs /\ u_covers u log n = true.
Proof.
  unfold cov_of. rewrite cov_has_coverage. fold (tail_below
    (acc_tail (foldl (fun acc u => foldl (cov_log head u) acc logs) (mkAcc [] [] None)
      (List.filter (fun u => u_enabled u && u_known u) upstreams))) n).
  assert (forall us acc, let acc' := foldl (fun acc u => foldl (cov_log head u) acc logs) acc us in
    (holds (acc_segs acc') n \/ tail_below (acc_tail acc') n)
    <-> (holds (acc_segs acc) n \/ tail_below (acc_tail acc) n)
        \/ exists u log, u ∈ us /\ log ∈ logs /\ u_covers u log n = true) as Hfold.
  { intros us. induction us as [|u us IH]; intros acc; cbn [foldl].
    - split; [by left|]. intros [?|(u & log & []%elem_of_nil & _)]; done.
    - rewrite IH, cov_logs_spec. setoid_rewrite elem_of_cons. naive_solver. }
  rewrite Hfold. cbn [acc_segs acc_tail]. pose proof (holds_nil n). split.
  - intros [[?|(b & [=] & _)]|(u & log & Hu & Hl & Hc)]; [done|].
    apply elem_of_List_filter in Hu as [Hu Hf]. bools. eauto 10.
  - intros (u & log & Hu & He & Hk & Hl & Hc). right. exists u, log. split_and!; try done.
    apply elem_of_List_filter. by rewrite He, Hk.
Qed.

Lemma set_abi_ok_covers b u log n : u_covers (set_abi_ok b u) log n = u_covers u log n.
Proof. by destruct log. Qed.

(** [upstreams'] of [build_view] covers what [upstreams] does. *)
Lemma excluded_covers upstreams (canonical_ : option (AbiEntry * AbiSource)) mm log n :
  let upstreams' := match canonical_, mm with
    | Some (entry, _), AbiExclude =>
        map (fun u => set_abi_ok (bool_decide (u_abi_fp u = Some (abi_fp entry))) u) upstreams
    | _, _ => upstreams end in
  (exists u, u ∈ upstreams' /\ u_enabled u = true /\ u_known u = true /\ u_covers u log n = true)
  <-> exists u, u ∈ upstreams /\ u_enabled u = true /\ u_known u = true /\ u_covers u log n = true.
Proof.
  cbv zeta. destruct canonical_ as [[entry source]|]; [|done]. destruct mm; [done|]. split.
  - intros (u & Hu & He & Hk & Hc). apply list_elem_of_fmap in Hu as (u0 & -> & Hu0).
    exists u0. rewrite set_abi_ok_covers in Hc. done.
  - intros (u & Hu & He & Hk & Hc).
    exists (set_abi_ok (bool_decide (u_abi_fp u = Some (abi_fp entry))) u).
    rewrite set_abi_ok_covers. split_and!; [|done..].
    apply list_elem_of_fmap. eauto.
Qed.

(** The shape of [build_view] with its intermediate results named. *)
Lemma build_view_parts ctx states tips now m :
  exists upstreams head lib anchors m1 (canonical_ : option (AbiEntry * AbiSource)) live,
    upstreams = map (fun e => upstream_view ctx e.1 e.2) (sort_by state_cmp (map_to_list states))
    /\ fleet_tip upstreams tips live m = (head, lib, anchors, m1)
    /\ let v := (build_view ctx states tips now m).1 in
       v_head v = head /\ v_lib v = lib /\ v_anchors v = anchors
       /\ v_trace v = cov_of upstreams head [Trace]
       /\ v_chain_state v = cov_of upstreams head [ChainState]
       /\ v_finality v = cov_of upstreams head [Finality]
       /\ v_ids v = cov_of upstreams head ALL_LOGS
       /\ v_upstreams v = match canonical_, bc_abi_mismatch ctx with
            | Some (entry, _), AbiExclude =>
                map (fun u => set_abi_ok (bool_decide (u_abi_fp u = Some (abi_fp entry))) u) upstreams
            | _, _ => upstreams end
       /\ lib_hwm (build_view ctx states tips now m).2 = lib_hwm m1
       /\ last_tip (build_view ctx states tips now m).2 = last_tip m1
       /\ v_status_ready v = is_some head && is_some lib && (v_frozen_unknown v =? 0).
Proof.
  unfold build_view.
  set (upstreams := map (fun e => upstream_view ctx e.1 e.2) (sort_by state_cmp (map_to_list states))).
  set (live := existsb _ upstreams).
  destruct (fleet_tip upstreams tips live m) as [[[head lib] anchors] m1] eqn:Et.
  assert (forall h now m, lib_hwm (note_head h now m) = lib_hwm m
    /\ last_tip (note_head h now m) = last_tip m) as Hnote.
  { intros h t m'. unfold note_head. destruct h; [|done]. by destruct (is_none_or _ _). }
  destruct (bc_topology ctx) eqn:Etop.
  - exists upstreams, head, lib, anchors, m1, None, live.
    cbn -[cov_of note_head fleet_tip]. split_and!; try done; apply Hnote.
  - unfold canonical_abi.
    exists upstreams, head, lib, anchors, m1, (choose_canonical ctx upstreams
      (map (fun e => abi e.2) (sort_by state_cmp (map_to_list states)))
      (canonical (note_head head now m1))), live.
    cbn -[cov_of note_head fleet_tip choose_canonical]. split_and!; try done; apply Hnote.
Qed.

(** [build_view] makes sound views: what the clients of a view rely on. *)
#[export] Instance build_view_SoundView (ctx : BuildCtx) (states : gmap string ServerState) (tips : Tips)
    (now : Z) (m : HubMemory) : SoundView (build_view ctx states tips now m).1.
Proof.
  destruct (build_view_parts ctx states tips now m)
    as (ups & head & lib & anchors & m1 & can & live & _ & _ & Hv).
  cbv zeta in Hv. destruct Hv as (_ & _ & _ & Ht & Hc & Hf & Hi & Hu & _).
  split; unfold upstream_covers; rewrite Hu.
  - intros log n. unfold cov. rewrite Ht, Hc, Hf.
    rewrite (excluded_covers ups can (bc_abi_mismatch ctx) log n).
    destruct log; rewrite cov_of_spec; setoid_rewrite list_elem_of_singleton; naive_solver.
  - intros n. setoid_rewrite (excluded_covers ups can (bc_abi_mismatch ctx)).
    rewrite Hi, cov_of_spec. split.
    + intros (u & log & ? & ? & ? & _ & ?). eauto 10.
    + intros (log & u & ? & ? & ? & ?). exists u, log. split_and!; try done.
      unfold ALL_LOGS. destruct log; repeat (constructor || done); by repeat constructor.
Qed.

Lemma elem_of_sorted_states (states : gmap string ServerState) e s :
  (e, s) ∈ sort_by state_cmp (map_to_list states) <-> states !! e = Some s.
Proof. by rewrite elem_of_sort_by, elem_of_map_to_list. Qed.

(** The upstreams of a view come from the states, and only [u_abi_ok] may differ
    from [upstream_view]. *)
Lemma elem_of_build_view_ups ctx states tips now m :
  exists ok : UpstreamView -> bool, forall u,
    u ∈ v_upstreams (build_view ctx states tips now m).1 <->
    exists e s, states !! e = Some s
      /\ u = set_abi_ok (ok (upstream_view ctx e s)) (upstream_view ctx e s).
Proof.
  destruct (build_view_parts ctx states tips now m)
    as (ups & head & lib & anchors & m1 & can & live & Hups & _ & Hv).
  cbv zeta in Hv. destruct Hv as (_ & _ & _ & _ & _ & _ & _ & Hu & _). rewrite Hu. clear Hu.
  assert (forall u, u ∈ ups <-> exists e s, states !! e = Some s /\ u = upstream_view ctx e s) as Hin.
  { intros u. rewrite Hups, list_elem_of_fmap. split.
    - intros ([e s] & -> & He%elem_of_sorted_states). eauto.
    - intros (e & s & He & ->). exists (e, s). by rewrite elem_of_sorted_states. }
  assert (forall e s, set_abi_ok true (upstream_view ctx e s) = upstream_view ctx e s) as Htrue.
  { intros e s. unfold upstream_view. by repeat case_match. }
  destruct can as [[entry src]|]; [destruct (bc_abi_mismatch ctx)|].
  2: exists (fun u => bool_decide (u_abi_fp u = Some (abi_fp entry))).
  2: setoid_rewrite list_elem_of_fmap; setoid_rewrite Hin; naive_solver.
  all: exists (fun _ => true); setoid_rewrite Htrue; apply Hin.
Qed.

Lemma upstream_covers_states ctx states tips now m log n :
  upstream_covers (build_view ctx states tips now m).1 log n <->
  exists e s, states !! e = Some s /\ enabled s = true /\ ranges_usable s = true
    /\ u_covers (upstream_view ctx e s) log n = true.
Proof.
  destruct (elem_of_build_view_ups ctx states tips now m) as [ok Hok]. unfold upstream_covers.
  assert (forall e s, u_enabled (upstream_view ctx e s) = enabled s
    /\ u_known (upstream_view ctx e s) = ranges_usable s) as Hf.
  { intros e s. unfold upstream_view. by repeat case_match. }
  setoid_rewrite Hok. split.
  - intros (u & (e & s & Hs & ->) & He & Hk & Hc). rewrite set_abi_ok_covers in Hc.
    destruct (Hf e s) as [E1 E2]. exists e, s. cbn in He, Hk. by rewrite <-E1, <-E2.
  - intros (e & s & Hs & He & Hk & Hc). destruct (Hf e s) as [E1 E2].
    exists (set_abi_ok (ok (upstream_view ctx e s)) (upstream_view ctx e s)).
    rewrite set_abi_ok_covers. cbn [u_enabled u_known set_abi_ok]. rewrite E1, E2. eauto 10.
Qed.

(** C37: the coverage of a view is that of the monitored states: a log covers a
    block exactly when some enabled upstream with usable ranges covers it (a live
    one being open-ended above its begin), and a block's id is known exactly when
    some log of some such upstream covers it. *)
Theorem build_view_exact (ctx : BuildCtx) (states : gmap string ServerState) (tips : Tips)
    (now : Z) (m : HubMemory) (n : Z) :
  let v := (build_view ctx states tips now m).1 in
  let covered log := exists e s, states !! e = Some s /\ enabled s = true
    /\ ranges_usable s = true /\ u_covers (upstream_view ctx e s) log n = true in
  (forall log, cov_has (cov v log) n = true <-> covered log)
  /\ (cov_has (v_ids v) n = true <-> exists log, covered log).
Proof.
  cbv zeta. split.
  - intros log. rewrite sv_cov. apply upstream_covers_states.
  - rewrite sv_ids. by setoid_rewrite upstream_covers_states.
Qed.

(** Upstreams of one view have distinct indices when the states do. *)
Lemma build_view_indices ctx states tips now m u w :
  (forall e1 s1 e2 s2, states !! e1 = Some s1 -> states !! e2 = Some s2 ->
     s_index (cfg s1) = s_index (cfg s2) -> e1 = e2) ->
  u ∈ v_upstreams (build_view ctx states tips now m).1 ->
  w ∈ v_upstreams (build_view ctx states tips now m).1 -> u_index u = u_index w -> u = w.
Proof.
  intros Hinj. destruct (elem_of_build_view_ups ctx states tips now m) as [ok Hok]. rewrite !Hok.
  assert (forall e s, u_index (upstream_view ctx e s) = s_index (cfg s)) as Hi.
  { intros e s. unfold upstream_view. by repeat case_match. }
  intros (e1 & s1 & H1 & ->) (e2 & s2 & H2 & ->). cbn [u_index set_abi_ok]. rewrite !Hi.
  intros Heq. pose proof (Hinj _ _ _ _ H1 H2 Heq) as ->. by simplify_eq.
Qed.

(** ** The fleet tip *)

(** [a] is at or below [b] by block number; nothing is below everything. *)
Definition pos_le (a b : option BlockPos) : Prop :=
  forall x, a = Some x -> exists y, b = Some y /\ num x <= num y.

#[export] Instance pos_le_preorder : PreOrder pos_le.
Proof.
  split.
  - intros a x ->. eauto with lia.
  - intros a b c Hab Hbc x Hx. destruct (Hab x Hx) as (y & Hy & ?).
    destruct (Hbc y Hy) as (z & Hz & ?). exists z. split; [done|lia].
Qed.

Lemma max_by_num_l a b : pos_le a (max_by_num a b).
Proof.
  intros x ->. destruct b as [y|]; cbn; [|eauto with lia].
  destruct (_ <? _) eqn:E; bools; [exists y|exists x]; split; try done; lia.
Qed.

Lemma max_by_num_r a b : pos_le b (max_by_num a b).
Proof.
  intros y ->. destruct a as [x|]; cbn; [|eauto with lia].
  destruct (_ <? _) eqn:E; bools; [exists y|exists x]; split; try done; lia.
Qed.
#[export] Hint Resolve max_by_num_l max_by_num_r : router.

Lemma max_by_num_cases a b : max_by_num a b = a \/ max_by_num a b = b.
Proof. destruct a as [x|], b as [y|]; cbn; auto. destruct (_ <? _); auto. Qed.

Lemma clamp_lib_le head lib l : clamp_lib head lib = Some l -> num l <= num head.
Proof.
  destruct lib as [x|]; cbn; [|done]. intros [= <-]. destruct (_ <? _) eqn:E; bools; lia.
Qed.

(** A tip the router shows: a LIB only with a head, and never above it. *)
Definition tip_ok (head lib : option BlockPos) : Prop :=
  forall l, lib = Some l -> exists h, head = Some h /\ num l <= num h.

Lemma fleet_tip_ok upstreams tips live m head lib anchors m' :
  fleet_tip upstreams tips live m = (head, lib, anchors, m') ->
  tip_ok head lib /\ pos_le (lib_hwm m) (lib_hwm m').
Proof.
  unfold fleet_tip. intros Ht.
  repeat (case_match; simplify_eq); try (split; [done|reflexivity]);
    (split; [intros l' Hl'; eexists; split; [done|by eapply clamp_lib_le]|]); cbn;
    eauto with router.
Qed.

Lemma fresh_tip_ok v tips now m head lib m' :
  fresh_tip v tips now m = (head, lib, m') ->
  tip_ok head lib /\ pos_le (lib_hwm m) (lib_hwm m') /\ pos_le (v_head v) head.
Proof.
  unfold fresh_tip. destruct (anchor_max _ _ _) as [ah al].
  destruct (max_by_num (v_head v) ah) as [h|] eqn:E; intros [= <- <- <-].
  - split_and!.
    + intros l Hl. eexists. split; [done|]. by eapply clamp_lib_le.
    + repeat case_match; apply max_by_num_r.
    + rewrite <-E. apply max_by_num_l.
  - split_and!; [done|reflexivity|]. rewrite <-E. apply max_by_num_l.
Qed.

(** Every tip the router shows, from a view or refreshed from the observed
    tips, has its LIB at or below its head; the LIB high-water mark never
    decreases, and a refreshed head is never below the view's. *)
Theorem tips_ordered (ctx : BuildCtx) (states : gmap string ServerState) (tips : Tips)
    (now : Z) (m : HubMemory) (v : FleetView) :
  tip_ok (v_head (build_view ctx states tips now m).1) (v_lib (build_view ctx states tips now m).1)
  /\ pos_le (lib_hwm m) (lib_hwm (build_view ctx states tips now m).2)
  /\ let '(head, lib, m') := fresh_tip v tips now m in
     tip_ok head lib /\ pos_le (lib_hwm m) (lib_hwm m') /\ pos_le (v_head v) head.
Proof.
  destruct (build_view_parts ctx states tips now m)
    as (ups & head & lib & anchors & m1 & can & live & _ & Ht & Hv).
  cbv zeta in Hv. destruct Hv as (-> & -> & _ & _ & _ & _ & _ & _ & -> & _).
  apply fleet_tip_ok in Ht as [? ?]. split_and!; [done|done|].
  destruct (fresh_tip v tips now m) as [[h l] m'] eqn:E. by apply fresh_tip_ok in E.
Qed.

(** *** The anchors and the newest head *)

Lemma elem_of_positions {A} (f : A -> bool) i l pos :
  pos ∈ positions f i l <-> exists x, (i <= pos)%nat /\ l !! (pos - i)%nat = Some x /\ f x = true.
Proof.
  revert i. induction l as [|y l IH]; intros i; cbn [positions].
  - split; [by intros []%elem_of_nil|]. by intros (x & _ & ? & _).
  - assert (pos ∈ positions f (S i) l <->
      exists x, (S i <= pos)%nat /\ (y :: l) !! (pos - i)%nat = Some x /\ f x = true) as Hrec.
    { rewrite IH. split; intros (x & Hle & Hx & Hf); exists x; (split; [done|]);
        replace (pos - i)%nat with (S (pos - S i)) in * by lia; done. }
    destruct (f y) eqn:E; [rewrite elem_of_cons|]; rewrite Hrec; split.
    + intros [->|(x & ? & ?)].
      * exists y. rewrite Nat.sub_diag. split_and!; [lia|done|done].
      * exists x. split; [lia|done].
    + intros (x & Hle & Hx & Hf). destruct (decide (pos = i)) as [|]; [by left|right].
      exists x. split; [lia|done].
    + intros (x & ? & ?). exists x. split; [lia|done].
    + intros (x & Hle & Hx & Hf). destruct (decide (pos = i)) as [->|].
      * rewrite Nat.sub_diag in Hx. injection Hx as ->. congruence.
      * exists x. split; [lia|done].
Qed.

Lemma choose_anchors_spec upstreams pos :
  pos ∈ choose_anchors upstreams ->
  exists u, upstreams !! pos = Some u /\ live_on u = true
    /\ (u_stale u = true -> forall pos' u', upstreams !! pos' = Some u' -> live_on u' = true ->
        u_stale u' = true).
Proof.
  unfold choose_anchors.
  set (on := positions live_on 0 upstreams).
  set (fresh := List.filter _ on). intros Hpos.
  assert (pos ∈ on) as Hon.
  { destruct fresh eqn:E; [done|]. rewrite <-E in Hpos. by apply elem_of_List_filter in Hpos as [? _]. }
  apply elem_of_positions in Hon as (u & _ & Hu & Hl). rewrite Nat.sub_0_r in Hu.
  exists u. split_and!; [done|done|]. intros Hst pos' u' Hu' Hl'.
  destruct (u_stale u') eqn:Est; [done|]. exfalso.
  assert (pos' ∈ fresh) as Hf.
  { apply elem_of_List_filter. split.
    - apply elem_of_positions. exists u'. rewrite Nat.sub_0_r. split_and!; [lia|done|done].
    - rewrite Hu'. cbn. by rewrite Est. }
  destruct fresh as [|p0 fr] eqn:E; [by apply elem_of_nil in Hf|].
  rewrite <-E in Hpos. apply elem_of_List_filter in Hpos as [_ Hp]. rewrite Hu in Hp. cbn in Hp.
  by rewrite Hst in Hp.
Qed.

Lemma anchor_max_ub upstreams tips anchors pos u :
  pos ∈ anchors -> upstreams !! pos = Some u ->
  pos_le (u_head u) (anchor_max upstreams tips anchors).1
  /\ pos_le (fst <$> tip_of tips (u_index u)) (anchor_max upstreams tips anchors).1
  /\ pos_le (u_lib u) (anchor_max upstreams tips anchors).2
  /\ pos_le (snd <$> tip_of tips (u_index u)) (anchor_max upstreams tips anchors).2.
Proof.
  intros Hpos Hu. unfold anchor_max. set (step := fun acc u => _).
  assert (u ∈ omap (fun pos => upstreams !! pos) anchors) as Hin.
  { apply list_elem_of_omap. eauto. }
  assert (forall us acc, pos_le acc.1 (foldl step acc us).1 /\ pos_le acc.2 (foldl step acc us).2)
    as Hmono.
  { intros us. induction us as [|x us IH]; intros acc; cbn [foldl]; [split; reflexivity|].
    destruct (IH (step acc x)) as [H1 H2]. split; (etransitivity; [|eassumption]); cbn;
      apply max_by_num_l. }
  generalize (@None BlockPos, @None BlockPos) as acc.
  revert Hin. generalize (omap (fun pos => upstreams !! pos) anchors) as us.
  induction us as [|x us IH]; intros Hin acc; [by apply elem_of_nil in Hin|].
  apply elem_of_cons in Hin as [->|Hin]; [|by apply IH]. cbn [foldl].
  destruct (Hmono us (step acc x)) as [H1 H2]. cbn in H1, H2.
  split_and!; (etransitivity; [|eassumption]); (etransitivity; [|apply max_by_num_r]);
    eauto with router.
Qed.

(** The fleet tip is anchored on the online live upstreams in service, the
    ones that are not stale whenever there is one, and is at or above the head
    and the LIB each of them reported and each that was observed on its links. *)
Theorem fleet_tip_newest (upstreams : list UpstreamView) (tips : Tips) (live : bool)
    (m : HubMemory) (pos : nat) (u : UpstreamView) :
  let '(head, lib, anchors, m') := fleet_tip upstreams tips live m in
  pos ∈ anchors -> upstreams !! pos = Some u ->
  live_on u = true
  /\ (u_stale u = true -> forall pos' u', upstreams !! pos' = Some u' -> live_on u' = true ->
      u_stale u' = true)
  /\ pos_le (u_head u) head /\ pos_le (fst <$> tip_of tips (u_index u)) head
  /\ (is_some (anchor_max upstreams tips anchors).1 = true ->
      pos_le (u_lib u) (lib_hwm m') /\ pos_le (snd <$> tip_of tips (u_index u)) (lib_hwm m')).
Proof.
  destruct (fleet_tip upstreams tips live m) as [[[head lib] anchors] m'] eqn:E. intros Hpos Hu.
  assert (anchors = choose_anchors upstreams) as ->.
  { revert E. unfold fleet_tip. by repeat (case_match; simplify_eq); intros; simplify_eq. }
  destruct (choose_anchors_spec _ _ Hpos) as (u' & Hu' & Hl & Hst). simplify_eq.
  split_and!; [done|done|..];
    destruct (anchor_max_ub upstreams tips _ pos u Hpos Hu) as (H1 & H2 & H3 & H4);
    revert E; unfold fleet_tip;
    (destruct (choose_anchors upstreams) as [|p0 ps] eqn:Ea; [by apply elem_of_nil in Hpos|]);
    destruct (anchor_max upstreams tips (p0 :: ps)) as [ah al]; cbn in H1, H2, H3, H4 |- *;
    destruct ah as [h|]; intros E; try (simplify_eq; done).
  - destruct (u_head u) as [x|]; [|done]. by destruct (H1 x eq_refl) as (y & [=] & _).
  - destruct (tip_of tips (u_index u)) as [x|]; [|done].
    by destruct (H2 x.1 eq_refl) as (y & [=] & _).
  - intros _. simplify_eq. cbn. split; (etransitivity; [eassumption|apply max_by_num_l]).
Qed.

(** ** The canonical ABI *)

Lemma opt_le_trans a b c : opt_le a b = true -> opt_le b c = true -> opt_le a c = true.
Proof.
  unfold opt_le. intros Hab Hbc.
  assert (option_cmp a c <> Gt) as H.
  { apply (cmp_trans (cmp := option_cmp)) with b; [by destruct (option_cmp a b)|by destruct (option_cmp b c)]. }
  by destruct (option_cmp a c).
Qed.

Lemma opt_le_total a b : opt_le a b = false -> opt_le b a = true.
Proof.
  unfold opt_le. rewrite (cmp_opp (cmp := option_cmp) a b). by destruct (option_cmp a b).
Qed.

Lemma opt_le_refl a : opt_le a a = true.
Proof. unfold opt_le. by rewrite (cmp_refl option_cmp). Qed.

Definition head_num (ua : UpstreamView * AbiEntry) : option Z := num <$> u_head ua.1.

Lemma best_live_spec l :
  match best_live l with
  | Some b => b ∈ l /\ forall x, x ∈ l -> opt_le (head_num x) (head_num b) = true
  | None => l = []
  end.
Proof.
  assert (forall l acc b, foldl (fun best ua => match best with
      | Some b => if opt_le (head_num ua) (head_num b) then best else Some ua
      | None => Some ua end) (Some acc) l = Some b ->
    (b = acc \/ b ∈ l) /\ opt_le (head_num acc) (head_num b) = true
    /\ forall x, x ∈ l -> opt_le (head_num x) (head_num b) = true) as Hfold.
  { clear l. induction l as [|y l IH]; intros acc b; cbn [foldl].
    - intros [= ->]. split_and!; [by left|apply opt_le_refl|by intros x ?%elem_of_nil].
    - destruct (opt_le (head_num y) (head_num acc)) eqn:E; intros H;
        destruct (IH _ _ H) as (H1 & H2 & H3); setoid_rewrite elem_of_cons; split_and!.
      + tauto.
      + done.
      + intros x [->|Hx]; [by eapply opt_le_trans|auto].
      + tauto.
      + apply opt_le_total in E. by eapply opt_le_trans.
      + intros x [->|Hx]; auto. }
  assert (forall l acc, foldl (fun best ua => match best with
      | Some b => if opt_le (head_num ua) (head_num b) then best else Some ua
      | None => Some ua end) (Some acc) l <> None) as Hsome.
  { clear. induction l as [|y l IH]; intros acc; cbn [foldl]; [done|]. by destruct (opt_le _ _). }
  unfold best_live. destruct l as [|x l]; [done|]. cbn [foldl].
  destruct (foldl _ (Some x) l) as [b|] eqn:E; [|by destruct (Hsome l x)].
  destruct (Hfold l x b E) as (H1 & H2 & H3). rewrite elem_of_cons. split; [done|].
  intros y [->|Hy]%elem_of_cons; auto.
Qed.

#[export] Instance count_cmp_total : TotalCmp count_cmp.
Proof. unfold count_cmp. apply _. Qed.

(** Every counted ABI is one an upstream of the list serves. *)
Lemma count_abi_from l counts c :
  c ∈ foldl (fun counts (ua : UpstreamView * AbiEntry) => count_abi ua.1 ua.2 counts) counts l ->
  (exists c0, c0 ∈ counts /\ ac_abi c = ac_abi c0 /\ ac_index c = ac_index c0)
  \/ exists ua, ua ∈ l /\ ac_abi c = ua.2 /\ ac_index c = u_index ua.1.
Proof.
  revert counts. induction l as [|ua l IH]; intros counts; cbn [foldl]; [by eauto|].
  intros Hc. apply IH in Hc as [(c0 & Hc0 & H1 & H2)|(ua' & Hua & H)].
  - assert ((exists c1, c1 ∈ counts /\ ac_abi c0 = ac_abi c1 /\ ac_index c0 = ac_index c1)
      \/ (ac_abi c0 = ua.2 /\ ac_index c0 = u_index ua.1)) as [(c1 & ? & ? & ?)|[? ?]].
    { clear -Hc0. induction counts as [|d counts IH]; cbn [count_abi] in Hc0.
      - apply list_elem_of_singleton in Hc0 as ->. by right.
      - destruct (_ =? _).
        + apply elem_of_cons in Hc0 as [->|Hc0]; left; [exists d|exists c0];
            (split; [rewrite elem_of_cons; auto|done]).
        + apply elem_of_cons in Hc0 as [->|Hc0].
          * left. exists d. split; [constructor|done].
          * destruct (IH Hc0) as [(c1 & ? & ? & ?)|?]; [|by right]. left. exists c1.
            split; [by constructor|done]. }
    + left. exists c1. split; [done|]. split; congruence.
    + right. exists ua. split; [constructor|]. split; congruence.
  - right. exists ua'. split; [by constructor|done].
Qed.

(** The canonical ABI: a pinned file wins; otherwise a live ABI stays while
    an online live upstream in service still serves it; otherwise it is the ABI
    of the online live upstream with the highest head; a remembered ABI is kept
    when no live upstream has one; only with none remembered is it, as
    provisional, an ABI an online frozen upstream serves. *)
Theorem canonical_abi_policy (ctx : BuildCtx) (upstreams : list UpstreamView)
    (abis : list (option AbiEntry)) (current : option (AbiEntry * AbiSource)) :
  let live := online_with_abi Live upstreams abis in
  let res := choose_canonical ctx upstreams abis current in
  (forall pin, abi_pin ctx = Some pin -> res = Some (pin, AFile))
  /\ (abi_pin ctx = None ->
      (forall e i, current = Some (e, ALive i) ->
         (exists ua, ua ∈ live /\ u_abi_fp ua.1 = Some (abi_fp e)) -> res = current)
      /\ (live <> [] -> (forall e i, current = Some (e, ALive i) ->
            forall ua, ua ∈ live -> u_abi_fp ua.1 <> Some (abi_fp e)) ->
          exists ua, ua ∈ live /\ res = Some (ua.2, ALive (u_index ua.1))
            /\ forall x, x ∈ live -> opt_le (head_num x) (head_num ua) = true)
      /\ (live = [] -> current <> None -> res = current)
      /\ (live = [] -> current = None -> forall e src, res = Some (e, src) ->
          exists ua, ua ∈ online_with_abi Frozen upstreams abis
            /\ e = ua.2 /\ src = AProvisional (u_index ua.1))).
Proof.
  cbv zeta. unfold choose_canonical. destruct (abi_pin ctx) as [pin|]; [split; [naive_solver|done]|].
  split; [done|]. intros _. set (live := online_with_abi Live upstreams abis).
  pose proof (best_live_spec live) as Hbest. split_and!.
  - intros e i -> (ua & Hua & Hfp).
    assert (existsb (fun ua : UpstreamView * AbiEntry =>
      bool_decide (u_abi_fp ua.1 = Some (abi_fp e))) live = true) as ->; [|done].
    apply existsb_exists. exists ua. rewrite <-list_elem_of_In, bool_decide_eq_true. done.
  - intros Hne Hold.
    assert ((match current with
        | Some (entry, ALive _) => existsb (fun ua : UpstreamView * AbiEntry =>
              bool_decide (u_abi_fp ua.1 = Some (abi_fp entry))) live
        | _ => false end) = false) as ->.
    { destruct current as [[e [|i|i]]|]; try done. apply not_true_is_false.
      rewrite existsb_exists. intros (ua & Hua & Hd). apply bool_decide_eq_true in Hd.
      apply list_elem_of_In in Hua. by apply (Hold e i eq_refl ua). }
    destruct (best_live live) as [[u a]|]; [|done]. destruct Hbest as [Hin Hmax].
    exists (u, a). done.
  - intros Hl Hc. rewrite Hl in *. cbn [existsb]. destruct current as [[e src]|]; [|done].
    destruct src; done.
  - intros Hl -> e src. rewrite Hl. cbn [best_live foldl].
    destruct (max_by count_cmp _) as [c|] eqn:E; [|done]. intros [= <- <-].
    apply (max_by_min_by count_cmp) in E as [Hc _]. apply count_abi_from in Hc as [(c0 & Hc0 & _)|H].
    + by apply elem_of_nil in Hc0.
    + destruct H as (ua & Hua & Ha & Hi). exists ua. rewrite Ha, Hi. done.
Qed.

(** ** Observed tips *)

Definition tip_inv (t : ObservedTip) : Prop :=
  match t_inner t with
  | None => t_head_num t = 0 /\ t_lib_num t = 0
  | Some (h, l) => t_head_num t = num h /\ t_lib_num t = num l
  end.

Definition observe_all (frames : list (BlockPos * BlockPos)) (t : ObservedTip) : ObservedTip :=
  foldl (fun t f => observe f.1 f.2 t) t frames.

Lemma observe_step h l t :
  tip_inv t -> 0 <= num h -> 0 <= num l -> 0 <= t_head_num t -> 0 <= t_lib_num t ->
  tip_inv (observe h l t)
  /\ t_head_num (observe h l t) = Z.max (t_head_num t) (num h)
  /\ t_lib_num (observe h l t) = Z.max (t_lib_num t) (num l).
Proof.
  unfold tip_inv, observe. intros Hinv Hh Hl Ht Ht'.
  destruct (_ && _) eqn:E; [bools; split_and!; [done|lia|lia]|].
  destruct (t_inner t) as [[sh sl]|]; destruct Hinv as [E1 E2].
  - cbn. rewrite E1, E2. destruct (num sh <? num h) eqn:A, (num sl <? num l) eqn:B; bools;
      cbn; split_and!; lia.
  - cbn. rewrite E1, E2 in *. split_and!; lia.
Qed.

(** Whatever frames are observed, in any order, the tip holds the highest
    head number and the highest LIB number among them, and the fast path's
    counters always agree with the stored pair. *)
Theorem observed_tip_is_max (frames : list (BlockPos * BlockPos)) :
  Forall (fun f => 0 <= num f.1 /\ 0 <= num f.2) frames ->
  let t := observe_all frames new_tip in
  tip_inv t
  /\ t_head_num t = foldr Z.max 0 (map (fun f => num f.1) frames)
  /\ t_lib_num t = foldr Z.max 0 (map (fun f => num f.2) frames).
Proof.
  intros Hall. cbv zeta.
  assert (forall fs t, Forall (fun f => 0 <= num f.1 /\ 0 <= num f.2) fs -> tip_inv t ->
    0 <= t_head_num t -> 0 <= t_lib_num t ->
    tip_inv (observe_all fs t)
    /\ t_head_num (observe_all fs t) = Z.max (t_head_num t) (foldr Z.max 0 (map (fun f => num f.1) fs))
    /\ t_lib_num (observe_all fs t) = Z.max (t_lib_num t) (foldr Z.max 0 (map (fun f => num f.2) fs)))
    as Hgen.
  { induction fs as [|[h l] fs IH]; intros t Hf Hinv H1 H2; cbn [observe_all foldl map foldr fst snd].
    - unfold observe_all. cbn. split_and!; [done|lia|lia].
    - inversion Hf as [|? ? [Hh Hl] Hf']; subst. cbn in Hh, Hl.
      destruct (observe_step h l t Hinv Hh Hl H1 H2) as (Hi & E1 & E2).
      destruct (IH (observe h l t) Hf' Hi) as (Hi' & E1' & E2'); [lia|lia|].
      unfold observe_all in *. cbn [foldl fst snd]. split_and!; [done|lia|lia]. }
  destruct (Hgen frames new_tip Hall) as (H1 & H2 & H3); [done|done|done|].
  split_and!; [done|..]; rewrite ?H2, ?H3; cbn.
  - apply Z.max_r. clear. induction frames; cbn; lia.
  - apply Z.max_r. clear. induction frames; cbn; lia.
Qed.

(** ** Publishing *)

Definition hub_ok (hub : FleetHub) : Prop :=
  v_generation (hub_view hub) = m_generation (hub_mem hub).

Lemma build_view_generation ctx states tips now m :
  v_generation (build_view ctx states tips now m).1 = m_generation m
  /\ m_generation (build_view ctx states tips now m).2 = m_generation m.
Proof.
  assert (forall ups t l m, m_generation (fleet_tip ups t l m).2 = m_generation m) as Htip.
  { intros ups t l m0. unfold fleet_tip. by repeat (case_match; simplify_eq). }
  assert (forall h t m, m_generation (note_head h t m) = m_generation m) as Hnote.
  { intros h t m0. unfold note_head. by repeat case_match. }
  unfold build_view.
  match goal with |- context [fleet_tip ?u ?t ?l ?m] => specialize (Htip u t l m);
    destruct (fleet_tip u t l m) as [[[head lib] anchors] m1] end.
  cbn in Htip. specialize (Hnote head now m1). destruct (bc_topology ctx).
  - cbn -[note_head cov_of]. by rewrite Hnote, Htip.
  - unfold canonical_abi, warn_stitched. cbn -[note_head cov_of choose_canonical].
    by rewrite Hnote, Htip.
Qed.

(** A rebuild publishes a view exactly when the content changed, and each
    published view's generation is the previous one plus one; otherwise the
    published view stays the same one. *)
Theorem rebuild_publishes (ctx : BuildCtx) (states : gmap string ServerState) (tips : Tips)
    (now : Z) (hub : FleetHub) :
  hub_ok hub ->
  let hub' := rebuild ctx states tips now hub in
  let view := (build_view ctx states tips now (hub_mem hub)).1 in
  hub_ok hub'
  /\ (if same_content view (hub_view hub) then hub_view hub' = hub_view hub
      else hub_view hub' = with_generation (v_generation (hub_view hub) + 1) view).
Proof.
  unfold hub_ok. intros Hok. cbv zeta. unfold rebuild.
  destruct (build_view_generation ctx states tips now (hub_mem hub)) as [Hg Hm].
  destruct (build_view ctx states tips now (hub_mem hub)) as [view m]. cbn [fst snd] in *.
  destruct (same_content view (hub_view hub)); cbn.
  - split; [congruence|done].
  - split; [done|]. by rewrite Hm, Hok.
Qed.

(** ** The LIB a listener shows can decrease

    [FleetHub::fresh_tip] is documented as never decreasing the listener LIB,
    and [fleet_tip] as never below the high-water mark; the mark is kept, but
    the LIB shown is clamped to the head, so it follows a head that regresses. *)

Definition live_state (index head_num lib_num : Z) (on : bool) : ServerState :=
  let c := mkServerCfg EmptyString index Live None None 0 1 None false in
  let s := set_reported (mkReported 1 (head_num + 1) 1 (head_num + 1) 0 0
             (Some (sample_pos head_num)) (Some (sample_pos lib_num))) (with_cfg c) in
  set_ranges_known true (set_online on s).

Definition sample_ctx : BuildCtx := mkCtx RPool None None AbiWarn [].

Definition before_failure : gmap string ServerState :=
  <["a"%string := live_state 0 100 90 true]> (<["b"%string := live_state 1 80 70 true]> ∅).
Definition after_failure : gmap string ServerState :=
  <["a"%string := live_state 0 100 90 false]> (<["b"%string := live_state 1 80 70 true]> ∅).

(** With one upstream at head 100 and LIB 90 gone offline and the other at head
    80, the LIB the listener shows goes from 90 to 80. *)
Lemma listener_lib_decreases :
  let '(v1, m1) := build_view sample_ctx before_failure [] 0 (new_memory 0) in
  let '(v2, m2) := build_view sample_ctx after_failure [] 1 m1 in
  v_lib v1 = Some (sample_pos 90) /\ v_lib v2 = Some (sample_pos 80).
Proof. vm_compute. split; reflexivity. Qed.

(** ** Witnesses *)

Lemma observed_tip_is_max_witness :
  t_head_num (observe_all [(sample_pos 7, sample_pos 3); (sample_pos 5, sample_pos 4)] new_tip) = 7.
Proof.
  destruct (observed_tip_is_max [(sample_pos 7, sample_pos 3); (sample_pos 5, sample_pos 4)])
    as (_ & H & _); [repeat constructor; cbn; lia|exact H].
Defined.

Lemma rebuild_publishes_witness :
  v_generation (hub_view (rebuild sample_ctx before_failure [] 0
    (mkHub (empty_view RPool None) (new_memory 0)))) = 1.
Proof.
  pose proof (rebuild_publishes sample_ctx before_failure [] 0
    (mkHub (empty_view RPool None) (new_memory 0)) eq_refl) as [_ H].
  cbv zeta in H.
  replace (same_content _ _) with false in H by (vm_compute; reflexivity).
  rewrite H. reflexivity.
Defined.
