(* ===== verification/Planner.v ===== *)
(** * Routing decisions

    Models [src/src/fleet/planner.rs] (every decision but the log lines) and
    [fnv1a64] of [src/src/abi.rs].  An [Instant] is a number; the connection
    counters are the values read when the ranking is made.

    The theorems: a run [run_end] computes is exactly the stretch of blocks an
    upstream may serve; a [Serve] step is never empty, stays within the request,
    the run and the gate, and goes to the best-ranked candidate; [serve_on]
    agrees with it; the operator preference is a total preorder. They are proved
    for any sound view ([SoundView]). *)

From S2P Require Import Prelude Wire Models Coverage View.

(** ** Requests *)

Record Need := mkNeed { n_traces : bool; n_deltas : bool; n_finality : bool; n_block : bool }.

Definition need_of (r : BlocksRequest) : Need :=
  mkNeed (fetch_traces r) (fetch_deltas r) (br_v1 r && fetch_finality_data r) (fetch_block r).

Record Shape := mkShape { sh_need : Need; sh_end : Z; sh_irreversible_only : bool }.

Definition shape_of (r : BlocksRequest) : Shape :=
  mkShape (need_of r) (br_end r) (irreversible_only r).

Inductive Union := Sticky | Online.

(** ** Exclusions of a session *)

Record Excludes := mkExcludes { ex_soft : option string; ex_hard : list (string * Z) }.

Definition hard_active (ex : Excludes) (endpoint : string) (now : Z) : bool :=
  existsb (fun eu : string * Z => bool_decide (eu.1 = endpoint) && (now <? eu.2)) (ex_hard ex).

(** [now + ttl], or a year from now when that overflows. *)
Definition hard_deadline (now ttl : Z) : Z :=
  match checked_add instant_max now ttl with
  | Some t => t
  | None => now + from_secs (86400 * 365)
  end.

Definition add_hard (ex : Excludes) (endpoint : string) (ttl now : Z) : Excludes :=
  let kept := List.filter (fun eu : string * Z =>
      (now <? eu.2) && negb (bool_decide (eu.1 = endpoint))) (ex_hard ex) in
  mkExcludes (ex_soft ex) (kept ++ [(endpoint, hard_deadline now ttl)]).

(** ** Steps *)

Record ServeStep := mkServe {
  ss_up : Z;
  ss_endpoint : string;
  ss_role : Role;
  ss_start : Z;
  ss_req_end : Z;
}.

Inductive HoldWhy := WhyOffline | WhyQuarantined | WhyAtCapacity | WhyBusy.

Inductive Step :=
| Serve (s : ServeStep)
| Hold (block : Z) (why : HoldWhy) (bounded : bool)
| Wait (block : Z)
| Gap (block : Z)
| StepDone.

(** ** Hashing *)

Definition FNV_OFFSET : Z := 0xcbf29ce484222325.
Definition FNV_PRIME : Z := 0x00000100000001b3.

Definition fnv1a64 (bytes : list Z) : Z :=
  foldl (fun hash byte => wrapping_mul64 (Z.lxor hash byte) FNV_PRIME) FNV_OFFSET bytes.

(** [str::as_bytes]. *)
Fixpoint as_bytes (s : string) : list Z :=
  match s with
  | EmptyString => []
  | String.String c s => code c :: as_bytes s
  end.

Definition rendezvous (session_id : Z) (endpoint : string) : Z :=
  fnv1a64 (le_bytes 8 session_id ++ as_bytes endpoint).

(** ** Eligibility *)

Definition union_has (v : FleetView) (union : Union) (n : Z) (log : Log) : bool :=
  match union with
  | Sticky => cov_has (cov v log) n
  | Online => existsb (fun w => u_routable w && u_online w && u_covers w log n) (v_upstreams v)
  end.

Definition eligible_with (v : FleetView) (u : UpstreamView) (need : Need) (n : Z) (union : Union)
    (now : Z) (check_quarantine : bool) : bool :=
  if negb (u_routable u) || negb (u_known u) || negb (u_abi_ok u) then false
  else if check_quarantine && quarantined_at u n now then false
  else
    let has := union_has v union n in
    if n_traces need && has Trace && negb (u_covers u Trace n) then false
    else if n_deltas need && has ChainState && negb (u_covers u ChainState n) then false
    else if n_finality need && has Finality && negb (u_covers u Finality n) then false
    else if (has Trace || has ChainState || has Finality) && negb (covers_ids u n) then false
    else true.

Definition eligible (v : FleetView) (u : UpstreamView) (need : Need) (n : Z) (union : Union)
    (now : Z) : bool := eligible_with v u need n union now true.

Definition eligible_ignoring_quarantine (v : FleetView) (u : UpstreamView) (need : Need) (n : Z)
    (union : Union) (now : Z) : bool := eligible_with v u need n union now false.

(** ** Preference between upstreams *)

(** [conns * weight] as a [u128]; at most 96 bits, so it never wraps. *)
Definition load (conns weight : Z) : Z := conns * weight.

Definition preference (a : UpstreamView) (a_conns : Z) (b : UpstreamView) (b_conns : Z)
  : comparison :=
  let a_weight := Z.max (u_weight a) 1 in
  let b_weight := Z.max (u_weight b) 1 in
  ord_then (Z.compare (u_priority a) (u_priority b))
    (ord_then (Z.compare (load a_conns b_weight) (load b_conns a_weight))
       (Z.compare b_weight a_weight)).

Definition can_take_over (u : UpstreamView) (next_block : option Z) (now : Z) : bool :=
  u_routable u && u_online u && u_known u && u_abi_ok u && negb (at_capacity u)
  && is_none_or (fun block =>
       negb (quarantined_at u block now)
       && match u_role u with
          | Live => u_covers u Trace block
          | Frozen => covers_ids u block
          end) next_block.

Definition lagging_for (v : FleetView) (u : UpstreamView) (n lag : Z) : bool :=
  (0 <? lag) && bool_decide (u_role u = Live)
  && match u_head u, v_head v with
     | Some h, Some f => (sat_add u32_max (num h) lag <? num f) && (num h <? n)
     | _, _ => false
     end.

(** ** Runs *)

Definition quarantine_bounds (u : UpstreamView) (now : Z) : list Z :=
  flat_map (fun q => bq_block q :: match checked_add u32_max (bq_block q) (bq_range q) with
                                   | Some e => [e]
                                   | None => []
                                   end)
    (List.filter (fun q => active q now) (u_quarantines u)).

Definition log_bounds (w : UpstreamView) (log : Log) : list Z :=
  if negb (has_log w log) then []
  else
    let r := u_range w log in
    rbegin r :: if bool_decide (u_role w = Frozen) then [rend r] else [].

Definition breakpoints (v : FleetView) (u : UpstreamView) (now : Z) : list Z :=
  flat_map (fun w => flat_map (log_bounds w) ALL_LOGS)
    (List.filter (fun w => u_enabled w && u_known w) (v_upstreams v))
  ++ quarantine_bounds u now
  ++ match components (v_ids v) with first :: _ => [rbegin first] | [] => [] end.

(** Another upstream that holds blocks and could take the stream at [b]. *)
Definition holder (v : FleetView) (u : UpstreamView) (need : Need) (now b : Z) (w : UpstreamView)
  : bool :=
  negb (u_index w =? u_index u) && negb (u_no_block_log w) && u_online w
  && negb (at_capacity w) && eligible v w need b Sticky now.

Definition run_cap (u : UpstreamView) : Z :=
  match u_role u with Frozen => max_end u | Live => u32_max end.

(** The [for] loop of [run_end]. *)
Fixpoint run_loop (v : FleetView) (u : UpstreamView) (need : Need) (now cap : Z) (yields : bool)
    (bps : list Z) : Z :=
  match bps with
  | [] => cap
  | b :: bps =>
      if cap <=? b then cap
      else if negb (eligible v u need b Sticky now) then b
      else if yields && existsb (holder v u need now b) (v_upstreams v) then b
      else run_loop v u need now cap yields bps
  end.

Definition run_yields (u : UpstreamView) (need : Need) : bool := n_block need && u_no_block_log u.

Definition run_bps (v : FleetView) (u : UpstreamView) (need : Need) (from now : Z) : list Z :=
  let bps := breakpoints v u now
    ++ (if run_yields u need
        then flat_map (fun w => quarantine_bounds w now)
               (List.filter (fun w => negb (u_index w =? u_index u)) (v_upstreams v))
        else []) in
  dedup (sort_by Z.compare (List.filter (fun b => from <? b) bps)).

Definition run_end (v : FleetView) (u : UpstreamView) (need : Need) (from now : Z) : Z :=
  run_loop v u need now (run_cap u) (run_yields u need) (run_bps v u need from now).

Fixpoint tip_loop (us : list UpstreamView) (any : bool) : bool :=
  match us with
  | [] => any
  | u :: us => if bool_decide (u_role u = Frozen) then false else tip_loop us true
  end.

Definition tip_region (v : FleetView) (from : Z) : bool :=
  tip_loop (List.filter (fun u => u_enabled u && u_known u && covers_ids u from) (v_upstreams v))
    false.

(** ** The next step *)

Definition first_id (v : FleetView) : option Z := rbegin <$> first_get (components (v_ids v)).

Definition candidate (v : FleetView) (u : UpstreamView) (sh : Shape) (from : Z) (ex : Excludes)
    (now : Z) : bool :=
  if hard_active ex (u_endpoint u) now then false
  else
    let ids_begin_ := first_id v in
    if is_some_and (fun b => from <? b) ids_begin_
    then u_routable u && u_known u && u_abi_ok u && bool_decide (ids_begin u = ids_begin_)
    else eligible v u (sh_need sh) from Sticky now.

Definition gated_end (u : UpstreamView) (tip : option BlockPos * option BlockPos) (sh : Shape)
    (from run : Z) : option Z :=
  if negb (bool_decide (u_role u = Frozen)) then Some run
  else
    let gate := if sh_irreversible_only sh then tip.2 else tip.1 in
    match gate with
    | Some g => if from <=? num g then Some (Z.min run (sat_add u32_max (num g) 1)) else None
    | None => None
    end.

(** [Ord] of byte arrays: lexicographic. *)
Fixpoint lex_cmp (a b : list Z) : comparison :=
  match a, b with
  | [], [] => Eq
  | [], _ => Lt
  | _, [] => Gt
  | x :: a, y :: b => ord_then (Z.compare x y) (lex_cmp a b)
  end.

Record Ranked := mkRanked {
  k_up : UpstreamView;
  k_head : list Z;
  k_conns : Z;
  k_run : Z;
  k_hash : Z;
}.

Definition rank_cmp (a b : Ranked) : comparison :=
  ord_then (lex_cmp (k_head a) (k_head b))
    (ord_then (Z.compare (u_priority (k_up a)) (u_priority (k_up b)))
       (ord_then (Z.compare (k_run b) (k_run a))
          (ord_then (preference (k_up a) (k_conns a) (k_up b) (k_conns b))
             (Z.compare (k_hash a) (k_hash b))))).

(** The session's own slots on [u]. *)
Definition mine (own : list Z) (u : UpstreamView) : Z := count_if (fun i => i =? u_index u) own.

Definition full (own : list Z) (u : UpstreamView) : bool := at_capacity_besides u (mine own u).

Definition ranked_of (v : FleetView) (sh : Shape) (from : Z) (ex : Excludes) (own : list Z)
    (sid : Z) (pol : StitchingPolicy) (lag now : Z) (u : UpstreamView) : Ranked :=
  mkRanked u
    [ u8_of_bool (negb (u_online u));
      u8_of_bool (u_stale u || lagging_for v u from lag);
      u8_of_bool (full own u);
      u8_of_bool (n_block (sh_need sh) && u_no_block_log u);
      match history_preference pol, u_role u with HPFrozen, Live => 1 | _, _ => 0 end;
      u8_of_bool (bool_decide (ex_soft ex = Some (u_endpoint u))) ]
    (sat_sub (u_connections u) (mine own u))
    (Z.min (run_end v u (sh_need sh) from now) (sh_end sh))
    (rendezvous sid (u_endpoint u)).

Definition next_step (v : FleetView) (tip : option BlockPos * option BlockPos) (sh : Shape)
    (from : Z) (ex : Excludes) (own : list Z) (sid : Z) (pol : StitchingPolicy) (lag : Z)
    (allow_offline : bool) (now : Z) : Step :=
  if sh_end sh <=? from then StepDone
  else
    let ids_begin_ := first_id v in
    let below := is_some_and (fun b => from <? b) ids_begin_ in
    let unknown_hold := Hold from WhyOffline true in
    if negb below && negb (cov_has (v_ids v) from) then
      if is_none ids_begin_
         || ((rend (top (v_ids v)) <=? from) && is_none (live_tail_begin (v_ids v)))
      then Wait from
      else if 0 <? v_frozen_unknown v then unknown_hold
      else Gap from
    else if below && (0 <? v_frozen_unknown v) then unknown_hold
    else
      let cands := List.filter (fun u => candidate v u sh from ex now) (v_upstreams v) in
      match min_by rank_cmp (map (ranked_of v sh from ex own sid pol lag now) cands) with
      | None =>
          let why :=
            if existsb (fun u => hard_active ex (u_endpoint u) now) (v_upstreams v) then WhyBusy
            else if existsb (fun u => u_enabled u && u_operator_disabled u && covers_ids u from)
                      (v_upstreams v) then WhyOffline
            else WhyQuarantined in
          Hold from why (negb (tip_region v from))
      | Some chosen =>
          let best := k_up chosen in
          if negb (u_online best) && negb allow_offline
          then Hold from WhyOffline (negb (tip_region v from))
          else
            match gated_end best tip sh from (k_run chosen) with
            | None => Wait from
            | Some req_end =>
                if full own best then Hold from WhyAtCapacity (negb (tip_region v from))
                else Serve (mkServe (u_index best) (u_endpoint best) (u_role best) from req_end)
            end
      end.

Definition serve_on (v : FleetView) (tip : option BlockPos * option BlockPos) (sh : Shape)
    (from : Z) (upi : Z) (ex : Excludes) (now : Z) : option ServeStep :=
  if sh_end sh <=? from then None
  else
    let below := is_some_and (fun b => from <? b) (first_id v) in
    if (negb below && negb (cov_has (v_ids v) from)) || (below && (0 <? v_frozen_unknown v))
    then None
    else
      u ← up v upi;
      if negb (candidate v u sh from ex now) then None
      else
        let run := Z.min (run_end v u (sh_need sh) from now) (sh_end sh) in
        req_end ← gated_end u tip sh from run;
        if from <? req_end
        then Some (mkServe (u_index u) (u_endpoint u) (u_role u) from req_end) else None.

(** ** Pool sessions *)

Record PoolRanked := mkPoolRanked {
  pr_up : UpstreamView;
  pr_offline : bool;
  pr_rank : Z;
  pr_conns : Z;
  pr_hash : Z;
}.

Definition pool_candidate (v : FleetView) (route : option (Need * Z)) (ex : Excludes)
    (failover : bool) (now : Z) (u : UpstreamView) : bool :=
  u_routable u && (u_online u || failover) && negb (hard_active ex (u_endpoint u) now)
  && negb (at_capacity u)
  && is_none_or (fun nb : Need * Z => negb (quarantined_at u nb.2 now)) route.

Definition pool_rank_of (v : FleetView) (route : option (Need * Z)) (lag now : Z)
    (u : UpstreamView) : Z :=
  match route with
  | None => u8_of_bool (u_stale u || lagging_for v u u32_max lag)
  | Some (need, b) =>
      let covers_ := eligible_ignoring_quarantine v u need b Online now in
      u8_of_bool (negb covers_) * 2 + u8_of_bool (u_stale u || lagging_for v u b lag)
  end.

Definition pool_cmp (a b : PoolRanked) : comparison :=
  ord_then (bool_cmp (pr_offline a) (pr_offline b))
    (ord_then (Z.compare (pr_rank a) (pr_rank b))
       (ord_then (preference (pr_up a) (pr_conns a) (pr_up b) (pr_conns b))
          (Z.compare (pr_hash a) (pr_hash b)))).

Definition pool_ranked (v : FleetView) (route : option (Need * Z)) (sid lag now : Z)
    (u : UpstreamView) : PoolRanked :=
  mkPoolRanked u (negb (u_online u)) (pool_rank_of v route lag now u) (u_connections u)
    (rendezvous sid (u_endpoint u)).

Definition pool_rank (v : FleetView) (route : option (Need * Z)) (ex : Excludes)
    (failover : bool) (sid lag now : Z) : option (Z * Z) :=
  let ranked := map (pool_ranked v route sid lag now)
    (List.filter (pool_candidate v route ex failover now) (v_upstreams v)) in
  best ← min_by pool_cmp ranked;
  let pick :=
    if bool_decide (ex_soft ex = Some (u_endpoint (pr_up best))) then
      default best (min_by pool_cmp
        (List.filter (fun c => negb (bool_decide (u_endpoint (pr_up c) = u_endpoint (pr_up best)))
                               && (pr_rank c <=? pr_rank best)) ranked))
    else best in
  Some (u_index (pr_up pick), pr_rank pick).

Definition pool_pick (v : FleetView) (route : option (Need * Z)) (ex : Excludes)
    (failover : bool) (sid lag now : Z) : option Z :=
  fst <$> pool_rank v route ex failover sid lag now.

(** ** Orders *)

#[export] Instance lex_cmp_total : TotalCmp lex_cmp.
Proof.
  split.
  - intros x. induction x as [|a x IH]; intros [|b y]; try done.
    cbn. rewrite (Z.compare_antisym a b). unfold ord_then.
    destruct (a ?= b); cbn; auto.
  - intros x. induction x as [|a x IH]; intros [|b y] [|c z]; try done. cbn. unfold ord_then.
    destruct (Z.compare_spec a b), (Z.compare_spec b c), (Z.compare_spec a c); try done; try lia.
    apply IH.
Qed.

(** The keys [preference] compares, of an upstream with its connections. *)
Definition load_cmp (a b : UpstreamView * Z) : comparison :=
  Z.compare (load a.2 (Z.max (u_weight b.1) 1)) (load b.2 (Z.max (u_weight a.1) 1)).

Lemma load_le_trans ca wa cb wb cc wc :
  0 <= ca -> 0 <= cb -> 0 <= cc -> 0 < wa -> 0 < wb -> 0 < wc ->
  ca * wb <= cb * wa -> cb * wc <= cc * wb -> ca * wc <= cc * wa.
Proof.
  intros ? ? ? Ha Hb Hc H1 H2.
  assert (ca * wb * wc <= cb * wa * wc) by nia.
  assert (cb * wc * wa <= cc * wb * wa) by nia.
  assert (wb * (ca * wc) <= wb * (cc * wa)) by nia. nia.
Qed.

Lemma load_eq_trans ca wa cb wb cc wc :
  0 <= ca -> 0 <= cb -> 0 <= cc -> 0 < wa -> 0 < wb -> 0 < wc ->
  ca * wb <= cb * wa -> cb * wc <= cc * wb -> ca * wc = cc * wa ->
  ca * wb = cb * wa /\ cb * wc = cc * wb.
Proof.
  intros ? ? ? Ha Hb Hc H1 H2 H3.
  assert (cc * wb <= cb * wc).
  { apply (load_le_trans cc wc ca wa cb wb); lia. }
  assert (cb * wa <= ca * wb).
  { apply (load_le_trans cb wb cc wc ca wa); lia. }
  lia.
Qed.

(** [preference] as one comparator on (upstream, connections). *)
Definition pref_cmp (a b : UpstreamView * Z) : comparison := preference a.1 a.2 b.1 b.2.

Definition conns_ok (a : UpstreamView * Z) : Prop := 0 <= a.2.

Lemma preference_antisym a ca b cb : preference b cb a ca = CompOpp (preference a ca b cb).
Proof.
  unfold preference, ord_then. rewrite (Z.compare_antisym (u_priority a)).
  destruct (u_priority a ?= u_priority b); cbn; try done.
  rewrite (Z.compare_antisym (load ca _)). destruct (load ca _ ?= load cb _); cbn; try done.
  apply Z.compare_antisym.
Qed.

Lemma preference_trans a ca b cb c cc :
  0 <= ca -> 0 <= cb -> 0 <= cc ->
  preference a ca b cb <> Gt -> preference b cb c cc <> Gt -> preference a ca c cc <> Gt.
Proof.
  unfold preference, ord_then, load. intros Ha Hb Hc.
  set (wa := Z.max (u_weight a) 1). set (wb := Z.max (u_weight b) 1). set (wc := Z.max (u_weight c) 1).
  assert (0 < wa /\ 0 < wb /\ 0 < wc) as (Hwa & Hwb & Hwc) by (subst wa wb wc; lia).
  clearbody wa wb wc.
  destruct (Z.compare_spec (u_priority a) (u_priority b)),
    (Z.compare_spec (u_priority b) (u_priority c)),
    (Z.compare_spec (u_priority a) (u_priority c)); try done; try lia.
  pose proof (load_le_trans ca wa cb wb cc wc Ha Hb Hc Hwa Hwb Hwc) as Hle.
  pose proof (load_eq_trans ca wa cb wb cc wc Ha Hb Hc Hwa Hwb Hwc) as Heq.
  destruct (Z.compare_spec (ca * wb) (cb * wa)), (Z.compare_spec (cb * wc) (cc * wb)),
    (Z.compare_spec (ca * wc) (cc * wa)); try done; try lia.
  destruct (Z.compare_spec wb wa), (Z.compare_spec wc wb), (Z.compare_spec wc wa); try done; lia.
Qed.

(** ** Eligibility between breakpoints *)

Lemma union_has_sticky v n log :
  SoundView v -> union_has v Sticky n log = true <-> upstream_covers v log n.
Proof. intros Hv. apply sv_cov. Qed.

(** No breakpoint of [l] in [(n, n']]. *)
Definition no_break (l : list Z) (n n' : Z) : Prop := forall b, b ∈ l -> ~ (n < b <= n').

Lemma no_break_app l k n n' : no_break (l ++ k) n n' <-> no_break l n n' /\ no_break k n n'.
Proof. unfold no_break. setoid_rewrite elem_of_app. naive_solver. Qed.

Lemma no_break_flat_map {A} (f : A -> list Z) l n n' x :
  no_break (flat_map f l) n n' -> x ∈ l -> no_break (f x) n n'.
Proof.
  intros H Hx b Hb. apply H. apply list_elem_of_In, in_flat_map. exists x.
  by rewrite <-!list_elem_of_In.
Qed.

Lemma covers_const w log n n' :
  n <= n' -> no_break (log_bounds w log) n n' -> u_covers w log n' = u_covers w log n.
Proof.
  intros Hn. unfold log_bounds, u_covers, has_log, range_is_empty, range_contains, no_break.
  destruct (u_role w).
  - destruct (0 <? _) eqn:E; cbn [negb andb]; [|done]. intros Hb.
    specialize (Hb (rbegin (u_range w log)) ltac:(constructor)). lia.
  - destruct (_ <=? _) eqn:E; cbn [negb]; [intros _; lia|]. rewrite bool_decide_true by done. intros Hb.
    pose proof (Hb (rbegin (u_range w log)) ltac:(constructor)).
    pose proof (Hb (rend (u_range w log)) ltac:(right; constructor)). lia.
Qed.

Lemma quarantined_const u n n' now :
  n <= n' -> no_break (quarantine_bounds u now) n n' ->
  quarantined_at u n' now = quarantined_at u n now.
Proof.
  unfold quarantined_at, quarantine_bounds. intros Hn. induction (u_quarantines u) as [|q qs IH]; [done|].
  cbn [List.filter existsb]. destruct (active q now) eqn:E; [|apply IH].
  cbn [flat_map]. rewrite no_break_app. intros [Hq Hr]. rewrite (IH Hr). f_equal. cbn [andb].
  unfold covers, checked_add in *. pose proof (Hq (bq_block q) ltac:(constructor)).
  destruct (_ <=? u32_max) eqn:E'; [|lia].
  pose proof (Hq (bq_block q + bq_range q) ltac:(right; constructor)). lia.
Qed.

Section runs.
Context (v : FleetView) `{Hv : SoundView v}.

Lemma upstream_bounds w log n n' :
  no_break (flat_map (fun w => flat_map (log_bounds w) ALL_LOGS)
    (List.filter (fun w => u_enabled w && u_known w) (v_upstreams v))) n n' ->
  w ∈ v_upstreams v -> u_enabled w = true -> u_known w = true ->
  no_break (log_bounds w log) n n'.
Proof.
  intros Hb Hw He Hk. eapply (no_break_flat_map (log_bounds w) ALL_LOGS).
  - eapply (no_break_flat_map (fun w => flat_map (log_bounds w) ALL_LOGS)); [exact Hb|].
    apply elem_of_List_filter. by rewrite He, Hk.
  - destruct log; unfold ALL_LOGS; repeat (constructor || done); by repeat constructor.
Qed.

Lemma eligible_const u need n n' now :
  u ∈ v_upstreams v -> n <= n' -> no_break (breakpoints v u now) n n' ->
  eligible v u need n' Sticky now = eligible v u need n Sticky now.
Proof.
  intros Hu Hn. unfold breakpoints. rewrite !no_break_app. intros (Hlogs & Hq & _).
  unfold eligible, eligible_with.
  destruct (u_routable u) eqn:Er; [|done]. destruct (u_known u) eqn:Ek; [|done].
  assert (u_enabled u = true) as He by (unfold u_routable in Er; by bools).
  rewrite (quarantined_const u n n' now) by done.
  assert (forall log, u_covers u log n' = u_covers u log n) as Hcov.
  { intros log. apply covers_const; [done|]. by apply upstream_bounds. }
  assert (forall log, union_has v Sticky n' log = union_has v Sticky n log) as Hhas.
  { intros log. apply Bool.eq_iff_eq_true. rewrite !union_has_sticky by done.
    unfold upstream_covers. split; intros (w & Hw & Hew & Hkw & Hc); exists w; split_and!; try done;
      rewrite <-Hc; [symmetry|]; apply covers_const; auto; by apply upstream_bounds. }
  unfold covers_ids. cbn [existsb ALL_LOGS]. by rewrite !Hcov, !Hhas.
Qed.

(** What holds at the start, at every boundary the loop passes and between two
    boundaries, holds along the run. *)
Lemma run_loop_inv (P : Z -> Prop) u need now cap yields bps start :
  StronglySorted Z.le bps -> Forall (fun b => start <= b) bps ->
  (forall n n', start <= n <= n' -> no_break bps n n' -> P n -> P n') ->
  (forall b, b ∈ bps -> eligible v u need b Sticky now = true ->
     yields && existsb (holder v u need now b) (v_upstreams v) = false -> P b) ->
  P start -> forall n, start <= n < run_loop v u need now cap yields bps -> P n.
Proof.
  revert start. induction bps as [|b bps IH]; intros start Hs Hge Hconst Hb Hst n; cbn [run_loop].
  { intros Hn. apply (Hconst start n); [lia| |done]. by intros b' ?%elem_of_nil. }
  inversion Hs as [|? ? Hs' Hle]; inversion Hge as [|? ? Hsb Hge']; subst.
  rewrite Forall_forall in Hle.
  assert (forall n, start <= n < b -> P n) as Hbefore.
  { intros n' Hn'. apply (Hconst start n'); [lia| |done].
    intros b' Hin ?. apply elem_of_cons in Hin as [->|Hin]; [lia|]. specialize (Hle b' Hin). lia. }
  destruct (cap <=? b) eqn:Ec; bools; [intros; apply Hbefore; lia|].
  destruct (eligible v u need b Sticky now) eqn:Eb; cbn [negb]; [|auto].
  destruct (yields && _) eqn:Ey; [auto|]. intros Hn.
  destruct (decide (n < b)); [apply Hbefore; lia|]. apply (IH b); try done.
  - by apply Forall_forall.
  - intros n1 n2 Hn12 Hnb. apply Hconst; [lia|].
    intros b' Hin ?. apply elem_of_cons in Hin as [->|Hin]; [lia|]. by apply (Hnb b' Hin).
  - intros b' Hb'. apply Hb. by constructor.
  - apply Hb; [constructor|done|done].
  - lia.
Qed.

Lemma run_loop_stop u need now cap yields bps :
  let r := run_loop v u need now cap yields bps in
  r = cap
  \/ r ∈ bps /\ r < cap
     /\ (eligible v u need r Sticky now = false
         \/ yields = true /\ exists w, w ∈ v_upstreams v /\ holder v u need now r w = true).
Proof.
  induction bps as [|b bps IH]; cbn [run_loop]; [by left|]. cbv zeta in *.
  destruct (cap <=? b) eqn:Ec; bools; [by left|].
  destruct (eligible v u need b Sticky now) eqn:Eb; cbn [negb].
  2: { right. split_and!; [constructor|done|by left]. }
  destruct (yields && _) eqn:Ey.
  - bools. right. split_and!; [constructor|done|]. right. split; [done|].
    rewrite existsb_exists in *. match goal with H : exists _, _ |- _ => destruct H as (w & Hw & Hh) end.
    exists w. by rewrite list_elem_of_In.
  - destruct IH as [?|(Hin & Hr)]; [by left|right]. split; [by constructor|done].
Qed.
End runs.

Lemma elem_of_dedup l x : x ∈ dedup l <-> x ∈ l.
Proof.
  induction l as [|a [|b l] IH]; [done|done|]. cbn [dedup]. fold (dedup (b :: l)).
  destruct (a =? b) eqn:E; bools.
  - subst b. rewrite IH, !elem_of_cons. tauto.
  - rewrite !(elem_of_cons _ x), IH, elem_of_cons. tauto.
Qed.

Lemma dedup_sorted l : StronglySorted Z.le l -> StronglySorted Z.le (dedup l).
Proof.
  induction l as [|a [|b l] IH]; [done|done|]. intros Hs. inversion Hs as [|? ? Hs' Hle]; subst.
  cbn [dedup]. fold (dedup (b :: l)). destruct (_ =? _); [by apply IH|].
  constructor; [by apply IH|]. apply Forall_forall. intros x Hx.
  rewrite Forall_forall in Hle. by apply Hle, elem_of_dedup.
Qed.

Lemma elem_of_run_bps v u need from now b :
  b ∈ run_bps v u need from now -> from < b.
Proof.
  unfold run_bps. rewrite elem_of_dedup. intros Hb.
  apply elem_of_sort_by, elem_of_List_filter in Hb as [_ Hb]. by bools.
Qed.

Lemma breakpoints_run_bps v u need from now b :
  b ∈ breakpoints v u now -> from < b -> b ∈ run_bps v u need from now.
Proof.
  intros Hb Hlt. apply elem_of_dedup, elem_of_sort_by, elem_of_List_filter.
  split; [apply elem_of_app; by left|]. by apply Z.ltb_lt.
Qed.

Lemma run_bps_sorted v u need from now : StronglySorted Z.le (run_bps v u need from now).
Proof. apply dedup_sorted, (sort_by_sorted Z.compare). Qed.

Lemma run_bps_above v u need from now : Forall (fun b => from <= b) (run_bps v u need from now).
Proof. apply Forall_forall. intros b Hb%elem_of_run_bps. lia. Qed.

Lemma run_bps_no_break v u need from now n n' :
  from <= n -> no_break (run_bps v u need from now) n n' -> no_break (breakpoints v u now) n n'.
Proof. intros Hf Hn b Hb Hlt. apply (Hn b); [apply breakpoints_run_bps; [done|lia]|lia]. Qed.

(** A run that yields breaks at the quarantines of the others too. *)
Lemma run_bps_others v u w need from now n n' :
  run_yields u need = true -> w ∈ v_upstreams v -> u_index w <> u_index u ->
  from <= n -> no_break (run_bps v u need from now) n n' -> no_break (breakpoints v w now) n n'.
Proof.
  intros Hy Hw Hi Hf Hn b Hb Hlt. apply (Hn b); [|lia].
  apply elem_of_dedup, elem_of_sort_by, elem_of_List_filter.
  split; [|apply Z.ltb_lt; lia]. rewrite Hy. unfold breakpoints in *.
  rewrite !elem_of_app in Hb |- *. rewrite elem_of_app. destruct Hb as [Hb|[Hb|Hb]]; [tauto| |tauto].
  right. apply list_elem_of_In, in_flat_map. exists w. rewrite <-!list_elem_of_In. split; [|done].
  apply elem_of_List_filter. split; [done|]. apply negb_true_iff. lia.
Qed.

Lemma run_end_sound v `{!SoundView v} u need from now n :
  u ∈ v_upstreams v -> eligible v u need from Sticky now = true ->
  from <= n < run_end v u need from now -> eligible v u need n Sticky now = true.
Proof.
  intros Hu He. apply (run_loop_inv v (fun n => eligible v u need n Sticky now = true)); try done.
  - apply run_bps_sorted.
  - apply run_bps_above.
  - intros n1 n2 Hn Hnb H1. rewrite (eligible_const v u need n1 n2 now); [done|done|lia|].
    apply (run_bps_no_break v u need from); [lia|done].
Qed.

Lemma holder_const v `{!SoundView v} u w need from now n n' :
  run_yields u need = true -> w ∈ v_upstreams v -> from <= n <= n' ->
  no_break (run_bps v u need from now) n n' ->
  holder v u need now n' w = holder v u need now n w.
Proof.
  intros Hy Hw Hn Hnb. unfold holder. destruct (u_index w =? u_index u) eqn:Ei; [done|]. bools.
  f_equal. apply (eligible_const v); [done|lia|].
  apply (run_bps_others v u w need from); [done|done|done|lia|done].
Qed.

Lemma run_end_no_holder v `{!SoundView v} u need from now n :
  run_yields u need = true ->
  existsb (holder v u need now from) (v_upstreams v) = false ->
  from <= n < run_end v u need from now ->
  existsb (holder v u need now n) (v_upstreams v) = false.
Proof.
  intros Hy He. apply (run_loop_inv v
    (fun n => existsb (holder v u need now n) (v_upstreams v) = false)); try done.
  - apply run_bps_sorted.
  - apply run_bps_above.
  - intros n1 n2 Hn Hnb H1. rewrite <-H1. apply existsb_ext. intros w Hw.
    by apply (holder_const v u w need from).
  - intros b _ _. by rewrite Hy.
Qed.

Lemma run_end_stop v u need from now :
  let r := run_end v u need from now in
  r = run_cap u
  \/ from < r < run_cap u
     /\ (eligible v u need r Sticky now = false
         \/ run_yields u need = true
            /\ exists w, w ∈ v_upstreams v /\ holder v u need now r w = true).
Proof.
  cbv zeta. unfold run_end.
  destruct (run_loop_stop v u need now (run_cap u) (run_yields u need) (run_bps v u need from now))
    as [->|(Hin & Hlt & Hr)]; [by left|right]. apply elem_of_run_bps in Hin. by split.
Qed.

Lemma run_end_above v u need from now : from < run_cap u -> from < run_end v u need from now.
Proof.
  intros Hcap. unfold run_end.
  destruct (run_loop_stop v u need now (run_cap u) (run_yields u need) (run_bps v u need from now))
    as [->|(Hin & _)]; [done|]. by apply elem_of_run_bps in Hin.
Qed.

(** ** Ranking *)

Lemma rank_cmp_total : total_on (fun r => 0 <= k_conns r) rank_cmp.
Proof.
  change rank_cmp with (cmp_then (on k_head lex_cmp)
    (cmp_then (on (fun r => u_priority (k_up r)) Z.compare)
      (cmp_then (cmp_rev (on k_run Z.compare))
        (cmp_then (fun a b => preference (k_up a) (k_conns a) (k_up b) (k_conns b))
          (on k_hash Z.compare))))).
  do 3 (apply total_on_then; [apply total_on_cmp; apply _|]).
  apply total_on_then; [|apply total_on_cmp; apply _].
  split; [intros; apply preference_antisym|]. intros x y z. apply preference_trans.
Qed.

Lemma pool_cmp_total : total_on (fun r => 0 <= pr_conns r) pool_cmp.
Proof.
  change pool_cmp with (cmp_then (on pr_offline bool_cmp)
    (cmp_then (on pr_rank Z.compare)
      (cmp_then (fun a b => preference (pr_up a) (pr_conns a) (pr_up b) (pr_conns b))
        (on pr_hash Z.compare)))).
  do 2 (apply total_on_then; [apply total_on_cmp; apply _|]).
  apply total_on_then; [|apply total_on_cmp; apply _].
  split; [intros; apply preference_antisym|]. intros x y z. apply preference_trans.
Qed.

(** *** A candidate has something to send *)

Lemma max_end_ge u log : has_log u log = true -> rend (u_range u log) <= max_end u.
Proof.
  intros Hl. unfold max_end.
  assert (rend (u_range u log) ∈ map (fun log => rend (u_range u log))
    (List.filter (has_log u) ALL_LOGS)) as Hin.
  { apply list_elem_of_fmap. exists log. split; [done|]. apply elem_of_List_filter. split; [|done].
    unfold ALL_LOGS. destruct log; repeat (constructor || done); by repeat constructor. }
  destruct (max_list _) as [mx|] eqn:E.
  - apply max_list_some in E as [_ Hmax]. by apply Hmax.
  - apply max_list_none in E. rewrite E in Hin. by apply elem_of_nil in Hin.
Qed.

Lemma covers_ids_max_end u n : u_role u = Frozen -> covers_ids u n = true -> n < max_end u.
Proof.
  intros Hr Hc. unfold covers_ids in Hc. apply existsb_exists in Hc as (log & _ & Hc).
  unfold u_covers in Hc. rewrite Hr in Hc. apply range_contains_spec in Hc.
  pose proof (max_end_ge u log) as Hm. unfold has_log, range_is_empty in Hm. rewrite Hr in Hm.
  specialize (Hm ltac:(apply negb_true_iff, Z.leb_gt; lia)). lia.
Qed.

Lemma ids_begin_max_end u b : u_role u = Frozen -> ids_begin u = Some b -> b < max_end u.
Proof.
  intros Hr Hb. unfold ids_begin in Hb. apply min_list_some in Hb as [Hin _].
  apply list_elem_of_fmap in Hin as (log & -> & Hlog). apply elem_of_List_filter in Hlog as [_ Hl].
  pose proof (max_end_ge u log Hl). unfold has_log, range_is_empty in Hl. rewrite Hr in Hl. bools. lia.
Qed.

Lemma eligible_covers_ids v `{!SoundView v} u need n now :
  cov_has (v_ids v) n = true -> eligible v u need n Sticky now = true -> covers_ids u n = true.
Proof.
  intros Hids He. apply sv_ids in Hids as [log Hlog]. apply sv_cov in Hlog.
  assert (union_has v Sticky n Trace || union_has v Sticky n ChainState
          || union_has v Sticky n Finality = true) as Hany.
  { change (cov_has (cov v log) n) with (union_has v Sticky n log) in Hlog.
    destruct log; rewrite Hlog, ?orb_true_r; done. }
  revert He. unfold eligible, eligible_with. cbv zeta. rewrite Hany.
  destruct (covers_ids u n); [done|]. cbn [negb andb].
  repeat (case_match; [done|]). done.
Qed.

(** What [next_step] and [serve_on] test before they rank. *)
Definition servable (v : FleetView) (from : Z) : bool :=
  let below := is_some_and (fun b => from <? b) (first_id v) in
  (below || cov_has (v_ids v) from) && negb (below && (0 <? v_frozen_unknown v)).

Lemma candidate_cap v `{!SoundView v} u sh from ex now :
  servable v from = true -> candidate v u sh from ex now = true -> from < u32_max ->
  from < run_cap u.
Proof.
  unfold servable, candidate, run_cap. intros Hs Hc Hu.
  destruct (u_role u) eqn:Er; [done|].
  destruct (hard_active _ _ _); [done|]. destruct (is_some_and _ _) eqn:Eb.
  - bools. destruct (first_id v) as [b|]; [|done]. cbn in Eb. bools.
    match goal with H : ids_begin u = Some b |- _ => pose proof (ids_begin_max_end u b Er H) end. lia.
  - cbn in Hs. rewrite andb_true_r in Hs. apply covers_ids_max_end; [done|].
    eapply (eligible_covers_ids v); [exact Hs|exact Hc].
Qed.

(** ** Runs are exact *)

(** C8: for a sound view, every block of a run is one the upstream may serve;
    a run never passes the upstream's cap, and one that stops below it stops at
    a block the upstream may not serve or, for an upstream without a block log,
    at a block another upstream that keeps one could serve; no such holder could
    have served an earlier block of the run either, when none could at its start. *)
Theorem run_end_exact (v : FleetView) (Hv : SoundView v) (u : UpstreamView) (need : Need)
    (from now : Z) :
  u ∈ v_upstreams v -> eligible v u need from Sticky now = true ->
  let r := run_end v u need from now in
  (forall n, from <= n < r -> eligible v u need n Sticky now = true)
  /\ (r = run_cap u
      \/ from < r < run_cap u
         /\ (eligible v u need r Sticky now = false
             \/ run_yields u need = true
                /\ exists w, w ∈ v_upstreams v /\ holder v u need now r w = true))
  /\ (run_yields u need = true ->
      existsb (holder v u need now from) (v_upstreams v) = false ->
      forall n, from <= n < r -> existsb (holder v u need now n) (v_upstreams v) = false).
Proof.
  intros Hu He r. split_and!.
  - intros n. by apply run_end_sound.
  - apply run_end_stop.
  - intros Hy Hh n. by apply run_end_no_holder.
Qed.

(** ** The next step *)

(** The block the tip lets a frozen upstream be asked up to. *)
Definition gate_of (tip : option BlockPos * option BlockPos) (sh : Shape) : option BlockPos :=
  if sh_irreversible_only sh then tip.2 else tip.1.

Lemma gated_end_spec u tip sh from run e :
  gated_end u tip sh from run = Some e ->
  e <= run
  /\ (u_role u = Frozen -> exists g, gate_of tip sh = Some g /\ from <= num g /\ e <= num g + 1)
  /\ (from < run -> from < u32_max -> from < e).
Proof.
  unfold gated_end, gate_of. destruct (u_role u); cbn [bool_decide negb].
  - rewrite bool_decide_false by done. cbn. intros [= ->]. split_and!; [lia|done|lia].
  - rewrite bool_decide_true by done. cbn. destruct (if sh_irreversible_only sh then _ else _) as [g|];
      [|done]. destruct (from <=? num g) eqn:Eg; [|done]. bools. intros [= <-].
    unfold sat_add. split_and!; [lia| |lia]. intros _. exists g. split_and!; [done|lia|lia].
Qed.

Lemma rank_nonneg v sh from ex own sid pol lag now l :
  Forall (fun r => 0 <= k_conns r) (map (ranked_of v sh from ex own sid pol lag now) l).
Proof. apply Forall_map, Forall_true. intros u. cbn. unfold sat_sub. lia. Qed.

(** The [min_by] of the ranking picks a candidate no other one precedes. *)
Lemma best_ranked v sh from ex own sid pol lag now r :
  min_by rank_cmp (map (ranked_of v sh from ex own sid pol lag now)
    (List.filter (fun u => candidate v u sh from ex now) (v_upstreams v))) = Some r ->
  exists u, u ∈ v_upstreams v /\ candidate v u sh from ex now = true
    /\ r = ranked_of v sh from ex own sid pol lag now u
    /\ forall w, w ∈ v_upstreams v -> candidate v w sh from ex now = true ->
         rank_cmp r (ranked_of v sh from ex own sid pol lag now w) <> Gt.
Proof.
  intros Hm. apply (min_by_total_on (fun r => 0 <= k_conns r)) in Hm as [Hin Hmin];
    [|apply rank_cmp_total|apply rank_nonneg].
  apply list_elem_of_fmap in Hin as (u & -> & Hu). apply elem_of_List_filter in Hu as [Hu Hc].
  exists u. split_and!; try done. intros w Hw Hcw. apply Hmin, list_elem_of_fmap.
  exists w. split; [done|]. by apply elem_of_List_filter.
Qed.

Lemma not_servable_spec v from :
  servable v from = false ->
  let below := is_some_and (fun b => from <? b) (first_id v) in
  negb below && negb (cov_has (v_ids v) from) = true
  \/ negb below && negb (cov_has (v_ids v) from) = false /\ below && (0 <? v_frozen_unknown v) = true.
Proof.
  unfold servable. cbv zeta. destruct (is_some_and _ _), (cov_has _ _), (0 <? _); cbn; auto.
Qed.

Lemma servable_spec v from :
  servable v from = true ->
  let below := is_some_and (fun b => from <? b) (first_id v) in
  negb below && negb (cov_has (v_ids v) from) = false /\ below && (0 <? v_frozen_unknown v) = false.
Proof.
  unfold servable. cbv zeta. destruct (is_some_and _ _), (cov_has _ _), (0 <? _); cbn; auto.
Qed.

Section step.
Context (v : FleetView) (tip : option BlockPos * option BlockPos) (sh : Shape) (from : Z)
  (ex : Excludes) (own : list Z) (sid : Z) (pol : StitchingPolicy) (lag : Z) (allow : bool) (now : Z).

Notation the_step := (next_step v tip sh from ex own sid pol lag allow now).
Notation the_rank u := (ranked_of v sh from ex own sid pol lag now u).
Notation is_candidate u := (candidate v u sh from ex now = true).

(** What one candidate gets: the rest of [next_step] once it is chosen. *)
Definition outcome (u : UpstreamView) : Step :=
  if negb (u_online u) && negb allow then Hold from WhyOffline (negb (tip_region v from))
  else
    match gated_end u tip sh from (Z.min (run_end v u (sh_need sh) from now) (sh_end sh)) with
    | None => Wait from
    | Some e =>
        if full own u then Hold from WhyAtCapacity (negb (tip_region v from))
        else Serve (mkServe (u_index u) (u_endpoint u) (u_role u) from e)
    end.

(** [next_step] past its guards: the outcome of the best candidate, or the hold
    that says why there is none. *)
Lemma next_step_chosen :
  from < sh_end sh -> servable v from = true ->
  (exists u, u ∈ v_upstreams v /\ is_candidate u /\ the_step = outcome u
     /\ forall w, w ∈ v_upstreams v -> is_candidate w -> rank_cmp (the_rank u) (the_rank w) <> Gt)
  \/ (forall w, w ∈ v_upstreams v -> candidate v w sh from ex now = false)
     /\ exists why bounded, the_step = Hold from why bounded.
Proof.
  intros Hf Hs. apply servable_spec in Hs as [H1 H2]. unfold next_step.
  rewrite (proj2 (Z.leb_gt _ _)) by done. cbv zeta. rewrite H1, H2.
  destruct (min_by _ _) as [r|] eqn:Em.
  - left. apply best_ranked in Em as (u & Hu & Hc & -> & Hmin). by exists u.
  - right. split; [|eauto]. intros w Hw.
    destruct (candidate v w sh from ex now) eqn:Ec; [|done].
    assert (w ∈ List.filter (fun u => candidate v u sh from ex now) (v_upstreams v)) as Hin
      by (by apply elem_of_List_filter).
    destruct (List.filter _ _); [by apply elem_of_nil in Hin|done].
Qed.

Lemma next_step_guarded :
  the_step = (if sh_end sh <=? from then StepDone
    else if servable v from then the_step
    else if is_some_and (fun b => from <? b) (first_id v) || cov_has (v_ids v) from
    then Hold from WhyOffline true
    else if is_none (first_id v)
      || ((rend (top (v_ids v)) <=? from) && is_none (live_tail_begin (v_ids v))) then Wait from
    else if 0 <? v_frozen_unknown v then Hold from WhyOffline true else Gap from).
Proof.
  unfold next_step, servable. cbv zeta. destruct (sh_end sh <=? from); [done|].
  destruct (is_some_and _ _), (cov_has _ _), (0 <? _); done.
Qed.

Lemma serve_inv s :
  the_step = Serve s ->
  from < sh_end sh /\ servable v from = true
  /\ exists u, u ∈ v_upstreams v /\ is_candidate u /\ outcome u = Serve s
     /\ forall w, w ∈ v_upstreams v -> is_candidate w -> rank_cmp (the_rank u) (the_rank w) <> Gt.
Proof.
  intros Hstep. rewrite next_step_guarded in Hstep.
  destruct (sh_end sh <=? from) eqn:Ee; [done|]. destruct (servable v from) eqn:Es.
  2: { by repeat case_match. }
  bools. split_and!; [done|done|].
  destruct next_step_chosen as [(u & Hu & Hc & Ho & Hmin)|(_ & ? & ? & Hh)]; try done; [|congruence].
  exists u. rewrite <-Ho. done.
Qed.

Lemma outcome_serves u s :
  outcome u = Serve s ->
  s = mkServe (u_index u) (u_endpoint u) (u_role u) from (ss_req_end s)
  /\ (u_online u = true \/ allow = true) /\ full own u = false
  /\ gated_end u tip sh from (Z.min (run_end v u (sh_need sh) from now) (sh_end sh))
     = Some (ss_req_end s).
Proof.
  unfold outcome. destruct (negb (u_online u) && negb allow) eqn:Eo; [done|].
  destruct (gated_end _ _ _ _ _) as [e|]; [|done]. destruct (full own u); [done|].
  intros [= <-]. cbn. split_and!; try done. destruct (u_online u), allow; auto.
Qed.

(** The range a candidate is asked for is not empty. *)
Lemma candidate_range (Hv : SoundView v) u e :
  from < sh_end sh -> sh_end sh <= u32_max -> servable v from = true ->
  is_candidate u ->
  gated_end u tip sh from (Z.min (run_end v u (sh_need sh) from now) (sh_end sh)) = Some e ->
  from < e <= sh_end sh /\ e <= run_end v u (sh_need sh) from now
  /\ (u_role u = Frozen -> exists g, gate_of tip sh = Some g /\ from <= num g /\ e <= num g + 1).
Proof.
  intros Hf Hmax Hs Hc He. apply gated_end_spec in He as (Hle & Hg & Hlt).
  assert (from < run_end v u (sh_need sh) from now).
  { apply run_end_above. apply (candidate_cap v u sh from ex now); [done|done|lia]. }
  split_and!; [apply Hlt; lia|lia|lia|done].
Qed.

Lemma candidate_eligible u :
  is_candidate u -> is_some_and (fun b => from <? b) (first_id v) = false ->
  eligible v u (sh_need sh) from Sticky now = true.
Proof. unfold candidate. intros Hc Hb. destruct (hard_active _ _ _); [done|]. by rewrite Hb in Hc. Qed.

(** C7: when [next_step] serves, for a sound view and a request whose end is a
    [u32]: the upstream is a candidate no other candidate ranks before, online
    unless offline ones are allowed, with a free slot; the range asked starts at
    the block asked, is not empty, and stays within the request, the run and,
    for a frozen upstream, one past the gate. From the first block any upstream
    holds on, the upstream may serve every block of it; below that block nobody holds
    the block asked, and the upstream is one that holds the first, neither disabled
    nor excluded, of an accepted ABI. *)
Theorem next_step_serves (Hv : SoundView v) (s : ServeStep) :
  sh_end sh <= u32_max -> the_step = Serve s ->
  exists u, u ∈ v_upstreams v /\ is_candidate u
    /\ s = mkServe (u_index u) (u_endpoint u) (u_role u) from (ss_req_end s)
    /\ (u_online u = true \/ allow = true) /\ full own u = false
    /\ from < ss_req_end s <= sh_end sh /\ ss_req_end s <= run_end v u (sh_need sh) from now
    /\ (u_role u = Frozen ->
        exists g, gate_of tip sh = Some g /\ from <= num g /\ ss_req_end s <= num g + 1)
    /\ (if is_some_and (fun b => from <? b) (first_id v)
        then ids_begin u = first_id v /\ u_routable u = true /\ u_known u = true /\ u_abi_ok u = true
             /\ hard_active ex (u_endpoint u) now = false
        else forall n, from <= n < ss_req_end s -> eligible v u (sh_need sh) n Sticky now = true)
    /\ forall w, w ∈ v_upstreams v -> is_candidate w -> rank_cmp (the_rank u) (the_rank w) <> Gt.
Proof.
  intros Hmax Hstep. apply serve_inv in Hstep as (Hf & Hs & u & Hu & Hc & Ho & Hmin).
  apply outcome_serves in Ho as (Hsv & Hon & Hfull & He).
  destruct (candidate_range Hv u _ Hf Hmax Hs Hc He) as (Hrange & Hrun & Hgate).
  exists u. split_and!; try done; try lia. destruct (is_some_and _ _) eqn:Hb.
  - unfold candidate in Hc. rewrite Hb in Hc. destruct (hard_active _ _ _); [done|]. bools. done.
  - intros n Hn. apply (run_end_sound v u _ from); [done|by apply candidate_eligible|lia].
Qed.
End step.

(** ** [serve_on] *)

(** The upstreams of a view have distinct indices. *)
Definition unique_index (v : FleetView) : Prop :=
  forall u w, u ∈ v_upstreams v -> w ∈ v_upstreams v -> u_index u = u_index w -> u = w.

Lemma find_unique v u :
  unique_index v -> u ∈ v_upstreams v ->
  List.find (fun w => u_index w =? u_index u) (v_upstreams v) = Some u.
Proof.
  intros Hun Hu. destruct (List.find _ _) as [w|] eqn:E.
  - apply find_some in E as [Hw Hi]. apply list_elem_of_In in Hw. bools.
    by rewrite (Hun w u).
  - apply list_elem_of_In in Hu. pose proof (find_none _ _ E u Hu) as Hn. cbn in Hn. lia.
Qed.

Lemma up_unique v u : unique_index v -> u ∈ v_upstreams v -> up v (u_index u) = Some u.
Proof.
  intros Hun Hu. unfold up. destruct (nth_get _ _) as [w|] eqn:E; [|by apply find_unique].
  destruct (u_index w =? u_index u) eqn:Ei; [|by apply find_unique]. bools.
  unfold nth_get in E. case_match; [|done]. apply list_elem_of_lookup_2 in E. by rewrite (Hun w u).
Qed.

(** The upstream [next_step] serves from is one [serve_on] accepts, with the
    same range, in a sound view with distinct upstream indices. *)
Theorem serve_on_agrees (v : FleetView) (Hv : SoundView v)
    (tip : option BlockPos * option BlockPos) (sh : Shape) (from : Z) (ex : Excludes)
    (own : list Z) (sid : Z) (pol : StitchingPolicy) (lag : Z) (allow : bool) (now : Z)
    (s : ServeStep) :
  unique_index v -> sh_end sh <= u32_max ->
  next_step v tip sh from ex own sid pol lag allow now = Serve s ->
  serve_on v tip sh from (ss_up s) ex now = Some s.
Proof.
  intros Hun Hmax Hstep. apply serve_inv in Hstep as (Hf & Hs & u & Hu & Hc & Ho & _).
  apply outcome_serves in Ho as (Hsv & _ & _ & He).
  destruct (candidate_range v tip sh from ex now Hv u _ Hf Hmax Hs Hc He) as (Hrange & _).
  unfold serve_on. rewrite (proj2 (Z.leb_gt _ _)) by done. cbv zeta.
  destruct (servable_spec v from Hs) as [-> ->]. cbn [orb].
  rewrite Hsv at 1. cbn [ss_up]. rewrite (up_unique v u) by done. cbn [mbind option_bind].
  rewrite Hc. cbn [negb]. rewrite He. cbn [mbind option_bind].
  rewrite (proj2 (Z.ltb_lt _ _)) by lia. by rewrite <-Hsv.
Qed.

(** ** Progress *)

Lemma lex_le_first a x b y : lex_cmp (a :: x) (b :: y) <> Gt -> a <= b /\ (a = b -> lex_cmp x y <> Gt).
Proof.
  cbn. unfold ord_then. destruct (Z.compare_spec a b); intros; split; try done; lia.
Qed.

Lemma ord_then_not_gt a b : ord_then a b <> Gt -> a <> Gt.
Proof. by destruct a. Qed.

Lemma rank_head r1 r2 : rank_cmp r1 r2 <> Gt -> lex_cmp (k_head r1) (k_head r2) <> Gt.
Proof. apply ord_then_not_gt. Qed.

Lemma u8_of_bool_le b c : u8_of_bool b <= u8_of_bool c -> c = false -> b = false.
Proof. by destruct b, c. Qed.

(** What comes first in the ranking of a candidate that is online, fresh and has
    a free slot is so too. *)
Lemma best_ready v sh from ex own sid pol lag now u w :
  rank_cmp (ranked_of v sh from ex own sid pol lag now u)
    (ranked_of v sh from ex own sid pol lag now w) <> Gt ->
  u_online w = true -> u_stale w || lagging_for v w from lag = false -> full own w = false ->
  u_online u = true /\ full own u = false.
Proof.
  intros Hr%rank_head Hon Hst Hf. cbn [k_head ranked_of] in Hr.
  rewrite Hon, Hst, Hf in Hr. cbn [negb] in Hr.
  apply lex_le_first in Hr as [H1 Hr].
  assert (negb (u_online u) = false) as H1' by (by apply (u8_of_bool_le _ false)).
  rewrite H1' in Hr. specialize (Hr eq_refl). apply lex_le_first in Hr as [H2 Hr].
  assert (u_stale u || lagging_for v u from lag = false) as H2' by (by apply (u8_of_bool_le _ false)).
  rewrite H2' in Hr. specialize (Hr eq_refl). apply lex_le_first in Hr as [H3 _].
  split; [by apply negb_false_iff|]. by apply (u8_of_bool_le _ false).
Qed.

(** C13: a session makes progress when it can: while blocks are left to send, if
    the block is one the fleet holds (or below the first it holds, with every
    frozen range known), the gate is at or above it, and some candidate is
    online, neither stale nor lagging, with a free slot, then [next_step] serves. *)
Theorem next_step_progress (v : FleetView) (tip : option BlockPos * option BlockPos) (sh : Shape)
    (from : Z) (ex : Excludes) (own : list Z) (sid : Z) (pol : StitchingPolicy) (lag : Z)
    (allow : bool) (now : Z) (g : BlockPos) (w : UpstreamView) :
  from < sh_end sh -> servable v from = true ->
  gate_of tip sh = Some g -> from <= num g ->
  w ∈ v_upstreams v -> candidate v w sh from ex now = true ->
  u_online w = true -> u_stale w || lagging_for v w from lag = false -> full own w = false ->
  exists s, next_step v tip sh from ex own sid pol lag allow now = Serve s.
Proof.
  intros Hf Hs Hg Hng Hw Hc Hon Hst Hfull.
  destruct (next_step_chosen v tip sh from ex own sid pol lag allow now Hf Hs)
    as [(u & _ & _ & -> & Hmin)|(Hnone & _)]; [|by rewrite (Hnone w Hw) in Hc].
  destruct (best_ready v sh from ex own sid pol lag now u w) as [Hu Hfu]; try done; [by apply Hmin|].
  unfold outcome. rewrite Hu, Hfu. cbn [negb andb].
  unfold gated_end, gate_of in *. destruct (negb _); [eauto|].
  rewrite Hg. rewrite (proj2 (Z.leb_le _ _)) by done. eauto.
Qed.

(** C14: [next_step] reports a gap only for a block that is gone: the request
    has not ended, every frozen range is known, the block is at or above the
    first block the fleet holds, and no log of any enabled upstream with known
    ranges covers it. *)
Theorem gap_is_real (v : FleetView) (Hv : SoundView v) (tip : option BlockPos * option BlockPos)
    (sh : Shape) (from : Z) (ex : Excludes) (own : list Z) (sid : Z) (pol : StitchingPolicy)
    (lag : Z) (allow : bool) (now n : Z) :
  next_step v tip sh from ex own sid pol lag allow now = Gap n ->
  n = from /\ from < sh_end sh /\ v_frozen_unknown v <= 0
  /\ (exists b, first_id v = Some b /\ b <= from)
  /\ forall log, ~ upstream_covers v log from.
Proof.
  rewrite next_step_guarded. destruct (sh_end sh <=? from) eqn:Ee; [done|]. bools.
  destruct (servable v from) eqn:Es.
  { destruct (next_step_chosen v tip sh from ex own sid pol lag allow now)
      as [(u & _ & _ & -> & _)|(_ & ? & ? & ->)]; try done.
    unfold outcome. by repeat case_match. }
  destruct (is_some_and _ _ || cov_has _ _) eqn:Ec; [done|]. destruct (is_none _ || _) eqn:Ew; [done|].
  destruct (0 <? _) eqn:Eu; [done|]. intros [= <-]. apply orb_false_iff in Ec as [Eb Ec].
  apply orb_false_iff in Ew as [En _]. destruct (first_id v) as [b|]; [|done]. cbn in Eb. bools.
  split_and!; [done|done|done|by exists b|]. intros log Hl.
  assert (cov_has (v_ids v) from = true) by (apply sv_ids; eauto). congruence.
Qed.

(** ** Exclusions and pool sessions *)

(** After [add_hard], at any time from then on, the endpoint is excluded
    exactly until its new deadline and every other endpoint exactly as before. *)
Lemma add_hard_exact (ex : Excludes) (endpoint e : string) (ttl now t : Z) :
  now <= t ->
  hard_active (add_hard ex endpoint ttl now) e t
  = if bool_decide (e = endpoint) then t <? hard_deadline now ttl else hard_active ex e t.
Proof.
  intros Ht. unfold hard_active, add_hard. cbn [ex_hard]. rewrite existsb_app. cbn [existsb fst snd].
  rewrite orb_false_r. set (d := hard_deadline now ttl). clearbody d.
  assert (existsb (fun eu : string * Z => bool_decide (eu.1 = e) && (t <? eu.2))
      (List.filter (fun eu : string * Z => (now <? eu.2) && negb (bool_decide (eu.1 = endpoint)))
         (ex_hard ex))
    = existsb (fun eu : string * Z => bool_decide (eu.1 = e) && (t <? eu.2)) (ex_hard ex)
      && negb (bool_decide (e = endpoint))) as ->.
  { induction (ex_hard ex) as [|[e' d'] l IH]; [done|]. cbn [List.filter existsb fst snd].
    rewrite andb_orb_distrib_l, <-IH.
    destruct (now <? d') eqn:En, (bool_decide (e' = endpoint)) eqn:E1, (bool_decide (e' = e)) eqn:E2;
      cbn [existsb andb negb fst snd]; rewrite ?E2; cbn [andb orb];
      repeat match goal with H : bool_decide _ = true |- _ => apply bool_decide_eq_true in H; subst end;
      repeat match goal with H : bool_decide _ = false |- _ => rewrite H end; bools;
      rewrite ?bool_decide_true by done; cbn [negb]; rewrite ?andb_false_r, ?andb_true_r; try done.
    all: assert (t <? d' = false) as -> by lia; done. }
  destruct (bool_decide (e = endpoint)) eqn:Ee.
  - apply bool_decide_eq_true in Ee as ->. rewrite bool_decide_true by done.
    by rewrite andb_false_r.
  - rewrite andb_true_r. apply bool_decide_eq_false in Ee. rewrite bool_decide_false by congruence.
    by rewrite orb_false_r.
Qed.

Section pool.
Context (v : FleetView) (route : option (Need * Z)) (ex : Excludes) (failover : bool) (sid lag now : Z).
Context (Hconn : Forall (fun u => 0 <= u_connections u) (v_upstreams v)).

Notation f := (pool_ranked v route sid lag now).
Notation rank := (pool_rank_of v route lag now).
Notation cand u := (u ∈ v_upstreams v /\ pool_candidate v route ex failover now u = true).
Notation ranked := (map f (List.filter (pool_candidate v route ex failover now) (v_upstreams v))).

Lemma elem_of_pool_ranked r : r ∈ ranked <-> exists u, cand u /\ r = f u.
Proof. rewrite list_elem_of_fmap. setoid_rewrite elem_of_List_filter. naive_solver. Qed.

Lemma pool_conns r : r ∈ ranked -> 0 <= pr_conns r.
Proof.
  intros (u & [Hu _] & ->)%elem_of_pool_ranked. rewrite Forall_forall in Hconn. by apply Hconn.
Qed.

(** The best of any part of the ranking. *)
Lemma pool_min l r :
  (forall x, x ∈ l -> x ∈ ranked) -> min_by pool_cmp l = Some r ->
  r ∈ l /\ forall y, y ∈ l -> pool_cmp r y <> Gt.
Proof.
  intros Hl. apply (min_by_total_on (fun r => 0 <= pr_conns r)); [apply pool_cmp_total|].
  apply Forall_forall. intros x Hx. by apply pool_conns, Hl.
Qed.

(** The peers a session that just left [best] may go to. *)
Definition peers (best : UpstreamView) : list PoolRanked :=
  List.filter (fun c => negb (bool_decide (u_endpoint (pr_up c) = u_endpoint best))
                        && (pr_rank c <=? rank best)) ranked.

Lemma elem_of_peers best r :
  r ∈ peers best <-> exists w, cand w /\ r = f w
    /\ u_endpoint w <> u_endpoint best /\ rank w <= rank best.
Proof.
  unfold peers. rewrite elem_of_List_filter, elem_of_pool_ranked. split.
  - intros [(w & Hw & ->) He]. cbn [pr_up pr_rank pool_ranked] in He. bools. eauto 10.
  - intros (w & Hw & -> & He & Hr). split; [eauto|]. cbn [pr_up pr_rank pool_ranked].
    rewrite bool_decide_false by done. cbn. by apply Z.leb_le.
Qed.
End pool.

(** *** Only routable upstreams are planned *)

Lemma candidate_routable v u sh from ex now : candidate v u sh from ex now = true -> u_routable u = true.
Proof.
  unfold candidate, eligible, eligible_with. destruct (u_routable u); [done|].
  destruct (hard_active _ _ _); [done|]. by destruct (is_some_and _ _).
Qed.

Lemma up_elem v i u : up v i = Some u -> u ∈ v_upstreams v /\ u_index u = i.
Proof.
  assert (List.find (fun u => u_index u =? i) (v_upstreams v) = Some u -> u ∈ v_upstreams v /\ u_index u = i) as Hf.
  { intros [Hin Hi]%find_some. apply list_elem_of_In in Hin. bools. done. }
  unfold up. destruct (nth_get _ _) as [w|] eqn:E; [|exact Hf].
  destruct (u_index w =? i) eqn:Ei; [|exact Hf]. intros [= <-]. bools. split; [|done].
  unfold nth_get in E. case_match; [|done]. by apply list_elem_of_lookup_2 in E.
Qed.

Lemma next_step_routable v tip sh from ex own sid pol lag allow now s :
  next_step v tip sh from ex own sid pol lag allow now = Serve s ->
  exists u, u ∈ v_upstreams v /\ u_endpoint u = ss_endpoint s /\ u_routable u = true.
Proof.
  intros (_ & _ & u & Hu & Hc & Ho & _)%serve_inv. apply outcome_serves in Ho as (-> & _).
  exists u. split_and!; [done|done|]. by eapply candidate_routable.
Qed.

Lemma serve_on_routable v tip sh from i ex now s :
  serve_on v tip sh from i ex now = Some s ->
  exists u, u ∈ v_upstreams v /\ u_endpoint u = ss_endpoint s /\ u_routable u = true.
Proof.
  unfold serve_on. destruct (_ <=? _); [done|]. destruct (_ || _); [done|].
  destruct (up v i) as [u|] eqn:Eu; cbn; [|done]. destruct (candidate v u sh from ex now) eqn:Ec; cbn; [|done].
  destruct (gated_end _ _ _ _ _) as [e|]; cbn; [|done]. destruct (_ <? _); [|done]. intros [= <-].
  exists u. apply up_elem in Eu as [? _]. split_and!; [done|done|]. by eapply candidate_routable.
Qed.

Lemma pool_pick_routable v route ex failover sid lag now i :
  pool_pick v route ex failover sid lag now = Some i ->
  exists u, u ∈ v_upstreams v /\ u_index u = i /\ u_routable u = true.
Proof.
  unfold pool_pick, pool_rank. set (ranked := map _ _).
  assert (forall r, r ∈ ranked -> exists u, u ∈ v_upstreams v /\ u_index u = u_index (pr_up r) /\ u_routable u = true) as Hr.
  { intros r (u & [Hu Hc] & ->)%elem_of_pool_ranked. exists u. unfold pool_candidate in Hc. bools. done. }
  destruct (min_by pool_cmp ranked) as [best|] eqn:Eb; cbn; [|done]. apply min_by_elem in Eb. intros [= <-].
  destruct (bool_decide _); [|by apply Hr]. destruct (min_by _ _) as [r|] eqn:Em; cbn; [|by apply Hr].
  apply min_by_elem, elem_of_List_filter in Em as [Em _]. by apply Hr.
Qed.

(** What a pool session is given: nothing exactly when there is no
    candidate; otherwise a candidate with its rank, which is the best-ranked one
    unless that is the endpoint the session just left, in which case it is
    another endpoint of no worse rank if there is one. *)
Theorem pool_rank_exact (v : FleetView) (route : option (Need * Z)) (ex : Excludes)
    (failover : bool) (sid lag now : Z) :
  Forall (fun u => 0 <= u_connections u) (v_upstreams v) ->
  let cand u := u ∈ v_upstreams v /\ pool_candidate v route ex failover now u = true in
  let rank := pool_rank_of v route lag now in
  match pool_rank v route ex failover sid lag now with
  | None => forall u, ~ cand u
  | Some (i, r) =>
      exists u best, cand u /\ u_index u = i /\ rank u = r /\ cand best
      /\ (forall w, cand w -> pool_cmp (pool_ranked v route sid lag now best)
            (pool_ranked v route sid lag now w) <> Gt)
      /\ rank u <= rank best
      /\ (ex_soft ex <> Some (u_endpoint best) -> u = best)
      /\ (ex_soft ex = Some (u_endpoint u) ->
          forall w, cand w -> u_endpoint w <> u_endpoint u -> rank best < rank w)
  end.
Proof.
  intros Hconn. cbv zeta. unfold pool_rank.
  destruct (min_by _ _) as [b|] eqn:Em; cbn [mbind option_bind].
  2: { intros u Hu. destruct (map _ _) eqn:El; [|done].
       assert (pool_ranked v route sid lag now u ∈ []) as []%elem_of_nil.
       rewrite <-El. apply elem_of_pool_ranked. eauto. }
  apply (pool_min v route ex failover sid lag now Hconn) in Em as [Hb Hmin]; [|done].
  apply elem_of_pool_ranked in Hb as (best & Hbest & ->). cbn [pr_up pr_rank pool_ranked].
  setoid_rewrite elem_of_pool_ranked in Hmin.
  case_bool_decide as Hsoft.
  2: { exists best, best. repeat (split; [done || lia || (intros; apply Hmin; eauto)|]).
       intros; congruence. }
  fold (peers v route ex failover sid lag now best).
  destruct (min_by pool_cmp (peers v route ex failover sid lag now best)) as [c|] eqn:Ec;
    cbn [default].
  - apply (pool_min v route ex failover sid lag now Hconn) in Ec as [Hc _].
    2: { intros x Hx. by apply elem_of_List_filter in Hx as [? _]. }
    apply elem_of_peers in Hc as (w & Hw & -> & He & Hr).
    exists w, best. repeat (split; [done || (intros; apply Hmin; eauto)|]).
    intros; congruence.
  - exists best, best. repeat (split; [done || lia || (intros; apply Hmin; eauto)|]).
    intros _ w Hw He.
    destruct (decide (pool_rank_of v route lag now w <= pool_rank_of v route lag now best)); [|lia].
    assert (pool_ranked v route sid lag now w ∈ peers v route ex failover sid lag now best) as Hfw
      by (apply elem_of_peers; eauto 10).
    destruct (peers _ _ _ _ _ _ _ _); [by apply elem_of_nil in Hfw|done].
Qed.

(** The operator preference between upstreams is a total preorder on
    connection counts, whatever the priorities and weights: it is antisymmetric
    as a comparison and transitive; and within a priority tier it never prefers
    the upstream with more connections per unit of weight. *)
Lemma preference_order (a b c : UpstreamView) (ca cb cc : Z) :
  0 <= ca -> 0 <= cb -> 0 <= cc ->
  preference b cb a ca = CompOpp (preference a ca b cb)
  /\ (preference a ca b cb <> Gt -> preference b cb c cc <> Gt -> preference a ca c cc <> Gt)
  /\ (u_priority a < u_priority b -> preference a ca b cb = Lt)
  /\ (u_priority a = u_priority b -> preference a ca b cb <> Gt ->
      ca * Z.max (u_weight b) 1 <= cb * Z.max (u_weight a) 1).
Proof.
  intros Ha Hb Hc. split_and!.
  - apply preference_antisym.
  - by apply preference_trans.
  - intros Hlt. unfold preference. by rewrite (proj2 (Z.compare_lt_iff _ _) Hlt).
  - intros Heq. unfold preference, ord_then, load. rewrite Heq, Z.compare_refl.
    destruct (Z.compare_spec (ca * Z.max (u_weight b) 1) (cb * Z.max (u_weight a) 1)); try done; lia.
Qed.

(** ** The last resort

    [pool_pick] with [failover = true] is documented to take an offline upstream
    as a last resort. When the session's failed upstream is the best candidate
    the peers are filtered by rank, which does not count being online. *)

(** With one upstream online and the other offline, a failover session that just
    left the online one is given the offline one. *)
Lemma pool_soft_picks_offline :
  let v := (build_view sample_ctx after_failure [] 0 (new_memory 0)).1 in
  u_online <$> up v 0 = Some false /\ u_online <$> up v 1 = Some true
  /\ pool_pick v None (mkExcludes None []) true 7 0 0 = Some 1
  /\ pool_pick v None (mkExcludes (Some "b"%string) []) true 7 0 0 = Some 0.
Proof. vm_compute. done. Qed.

(** ** Witnesses *)

(** Two live upstreams, blocks 1 to 100 and 1 to 80; a request for blocks 10 to
    50. *)
Definition sample_view : FleetView := (build_view sample_ctx before_failure [] 0 (new_memory 0)).1.
Definition sample_shape : Shape := mkShape (mkNeed true true false false) 50 false.
Definition sample_tip : option BlockPos * option BlockPos :=
  (Some (sample_pos 100), Some (sample_pos 90)).
Definition no_excludes : Excludes := mkExcludes None [].
Definition sample_up (i : Z) : UpstreamView :=
  upstream_view sample_ctx (if i =? 0 then "a"%string else "b"%string)
    (live_state i (if i =? 0 then 100 else 80) (if i =? 0 then 90 else 70) true).

Lemma sample_up_in i : i = 0 \/ i = 1 -> sample_up i ∈ v_upstreams sample_view.
Proof.
  change (v_upstreams sample_view) with [sample_up 0; sample_up 1].
  intros [-> | ->]; repeat constructor.
Qed.

Lemma sample_unique : unique_index sample_view.
Proof.
  intros u w. change (v_upstreams sample_view) with [sample_up 0; sample_up 1].
  rewrite !elem_of_cons, !elem_of_nil. intros [->|[->|[]]] [->|[->|[]]]; done.
Qed.

Lemma run_end_exact_witness :
  eligible sample_view (sample_up 0) (sh_need sample_shape) 77 Sticky 0 = true.
Proof.
  destruct (run_end_exact sample_view _ (sample_up 0) (sh_need sample_shape) 10 0) as [H _].
  - by apply sample_up_in; left.
  - vm_compute. reflexivity.
  - apply H. split; vm_compute; [discriminate|reflexivity].
Defined.

Lemma next_step_serves_witness :
  exists u, u ∈ v_upstreams sample_view /\ u_online u = true /\ full [] u = false.
Proof.
  destruct (next_step_serves sample_view sample_tip sample_shape 10 no_excludes [] 7
    default_stitching 0 false 0 _ (mkServe 1 "b" Live 10 50)) as (u & Hu & _ & _ & [Hon|Hon] & Hf & _).
  - vm_compute. discriminate.
  - vm_compute. reflexivity.
  - by exists u.
  - done.
Defined.

Lemma serve_on_agrees_witness :
  serve_on sample_view sample_tip sample_shape 10 1 no_excludes 0 = Some (mkServe 1 "b" Live 10 50).
Proof.
  apply (serve_on_agrees sample_view _ sample_tip sample_shape 10 no_excludes [] 7
    default_stitching 0 false 0 (mkServe 1 "b" Live 10 50)).
  - apply sample_unique.
  - vm_compute. discriminate.
  - vm_compute. reflexivity.
Defined.

Lemma next_step_progress_witness :
  exists s, next_step sample_view sample_tip sample_shape 10 no_excludes [] 7
    default_stitching 0 false 0 = Serve s.
Proof.
  apply (next_step_progress sample_view sample_tip sample_shape 10 no_excludes [] 7
    default_stitching 0 false 0 (sample_pos 100) (sample_up 1));
    try (vm_compute; reflexivity); try (vm_compute; discriminate).
  by apply sample_up_in; right.
Defined.

(** Two frozen upstreams with blocks 2 to 1000 and 1101 to 2000 leave a hole. *)
Definition frozen_state (index b e : Z) : ServerState :=
  set_ranges_known true (set_reported (mkReported b e b e 0 0 None None)
    (with_cfg (mkServerCfg EmptyString index Frozen None None 0 1 None false))).
Definition holed : gmap string ServerState :=
  <["a"%string := frozen_state 0 2 1001]> (<["b"%string := frozen_state 1 1101 2001]> ∅).
Definition holed_view : FleetView := (build_view sample_ctx holed [] 0 (new_memory 0)).1.

Lemma gap_is_real_witness : ~ upstream_covers holed_view Trace 1050.
Proof.
  apply (gap_is_real holed_view _ sample_tip (mkShape (mkNeed true true false false) 1500 false) 1050
    no_excludes [] 7 default_stitching 0 false 0 1050).
  vm_compute. reflexivity.
Defined.

Lemma pool_rank_exact_witness :
  exists u, u ∈ v_upstreams sample_view /\ u_index u = 1.
Proof.
  pose proof (pool_rank_exact sample_view None (mkExcludes (Some "a"%string) []) true 7 0 0) as H.
  cbv zeta in H.
  replace (pool_rank sample_view None (mkExcludes (Some "a"%string) []) true 7 0 0)
    with (Some (1, 0)) in H by (vm_compute; reflexivity).
  destruct H as (u & best & [Hu _] & Hi & _); [|by exists u].
  change (v_upstreams sample_view) with [sample_up 0; sample_up 1].
  repeat constructor; vm_compute; discriminate.
Defined.
