(* ===== verification/Failover.v ===== *)
(** * What a link end leads to

    Models [src/src/session/failover.rs]: the ways a link can end, the table
    that decides between closing the client and failing over, the budget of
    failures a session may spend on one block, the backoffs, and the strike
    recorded against an upstream.  Durations and instants are nanoseconds.
    [jitter], which multiplies by an [f64], is not modelled.

    The theorem about the budget is over sequences of link ends, forwarded
    results and requests: a session gives up on a block exactly when the budget
    is spent by charged failures at that block alone.  [plan_of_end] is the part
    of [Session::on_link_end] (session/mod.rs) that touches the budget, the
    early return of a link that owes nothing included; SessionPlan.v has the
    whole handler and the lemma that it plans exactly this. *)

From stdpp Require Import pretty.
From S2P Require Import Prelude Models View Planner.

#[local] Open Scope Z_scope.

Definition from_millis (ms : Z) : Z := ms * 1000000.

Definition MAX_SAME_BLOCK_FAILURES : Z := 5.
Definition CLIENT_INDUCED_WINDOW : Z := from_secs 5.
Definition CLEAN_DELAY : Z := from_millis 100.
Definition DIAL_EXCLUSION : Z := from_secs 2.
Definition MOVE_EXCLUSION : Z := from_secs 10.
Definition UNCOVERED_EXCLUSION : Z := from_secs 30.
Definition ABI_EXCLUSION : Z := from_secs 300.

(** ** Backoffs *)

Definition same_block_backoff (failures : Z) : Z :=
  let shift := Z.min (sat_sub failures 1) 5 in
  from_millis (Z.min (Z.shiftl 100 shift) 3200).

Definition hold_backoff (attempt : Z) : Z := same_block_backoff (sat_add u32_max attempt 1).

Definition BLOCKLESS_MOVE_BACKOFF : Z := from_secs 1.
Definition BLOCKLESS_MOVE_BACKOFF_MAX : Z := from_secs 60.

(** [Duration::MAX], in nanoseconds. *)
Definition duration_max : Z := u64_max * 1000000000 + 999999999.

Definition blockless_move_backoff (moves : Z) : Z :=
  if moves =? 0 then 0
  else Z.min (Z.min (BLOCKLESS_MOVE_BACKOFF * Z.shiftl 1 (Z.min (moves - 1) 16)) duration_max)
         BLOCKLESS_MOVE_BACKOFF_MAX.

(** ** Close reasons *)

(** [format!] of a [u32]. *)
Definition show_u32 (n : Z) : string := pretty (Z.to_N n).

Definition block_unavailable_reason (block : Z) : string :=
  "block " +:+ show_u32 block +:+ " unavailable on all upstreams".

Definition hold_close_reason (why : HoldWhy) (block : Z) : string :=
  match why with
  | WhyOffline | WhyQuarantined => block_unavailable_reason block
  | WhyAtCapacity | WhyBusy => "upstream capacity exhausted for block " +:+ show_u32 block
  end.

(** ** The same-block budget *)

Record SameBlockPlan := mkSameBlockPlan {
  close_reason : option string;
  plan_delay : Z;
  plan_failures : Z;
}.

Definition passthrough (delay : Z) : SameBlockPlan := mkSameBlockPlan None delay 0.

(** The failures at [block], this one included. *)
Definition failures_at (stuck_at : option (Z * Z)) (block : Z) : Z :=
  match stuck_at with
  | Some (stuck_block, seen) => if stuck_block =? block then sat_add u32_max seen 1 else 1
  | None => 1
  end.

(** [stuck_at] is the block a session is stuck at and the failures there. *)
Definition plan_same_block_failover (stuck_at : option (Z * Z)) (budget : bool)
    (next_block : option Z) (delay : Z) : SameBlockPlan * option (Z * Z) :=
  if negb budget then (passthrough delay, stuck_at)
  else
    match next_block with
    | None => (passthrough delay, stuck_at)
    | Some block =>
        let failures := failures_at stuck_at block in
        ((if MAX_SAME_BLOCK_FAILURES <=? failures
          then mkSameBlockPlan (Some (block_unavailable_reason block)) CLEAN_DELAY failures
          else mkSameBlockPlan None (same_block_backoff failures) failures),
         Some (block, failures))
    end.

(** ** Link ends *)

Inductive ViolationKind :=
  VIdless | VGap | VRewind | VMissingField | VCredit | VVariant | VDiscontinuity.

Inductive UpEnd :=
| Unclean
| Clean (code : Z)
| EndIdle
| Stall
| MonitorOffline
| Violation (kind : ViolationKind)
| Uncovered
| Discontinuity
| TooLarge
| SendFailed
| Silent
| Moved
| NoBlockLog.

Inductive FailoverReason :=
  RUnclean | RClean | RIdle | RStall | ROffline | RViolation | RUncovered | RDiscontinuity
| RSend | RSilent | ROperator | RNoBlockLog.

Inductive Exclusion := ExNone | ExSoft | ExHard (ttl : Z).

Inductive EndAction :=
| CloseClient (code : Z) (reason : string) (too_large : bool)
| FailoverTo (strike budget : bool) (delay : Z) (exclusion : Exclusion) (reason : FailoverReason).

Record EndFacts := mkEndFacts { ef_role : Role; ef_unknown_forwarded_at : option Z }.

Definition classify (end_ : UpEnd) (facts : EndFacts) (cursor now : Z) : EndAction :=
  match end_ with
  | Unclean =>
      if is_some_and (fun at_ => sat_sub now at_ <=? CLIENT_INDUCED_WINDOW)
           (ef_unknown_forwarded_at facts)
      then CloseClient 1003 "unsupported request" false
      else FailoverTo true true CLEAN_DELAY ExSoft RUnclean
  | Clean _ => FailoverTo false false CLEAN_DELAY ExNone RClean
  | EndIdle => FailoverTo false false CLEAN_DELAY ExNone RIdle
  | Stall =>
      match ef_role facts with
      | Live => FailoverTo false false CLEAN_DELAY ExSoft RStall
      | Frozen => FailoverTo true true CLEAN_DELAY ExSoft RStall
      end
  | MonitorOffline => FailoverTo false false CLEAN_DELAY ExSoft ROffline
  | Violation _ => FailoverTo true true CLEAN_DELAY ExSoft RViolation
  | Uncovered => FailoverTo false false 0 (ExHard UNCOVERED_EXCLUSION) RUncovered
  | Discontinuity => FailoverTo false false 0 (ExHard UNCOVERED_EXCLUSION) RDiscontinuity
  | TooLarge =>
      CloseClient 1011 ("block " +:+ show_u32 cursor +:+ " exceeds max_message_bytes") true
  | SendFailed => FailoverTo false false CLEAN_DELAY (ExHard DIAL_EXCLUSION) RSend
  | Silent => FailoverTo false false CLEAN_DELAY ExSoft RSilent
  | Moved => FailoverTo false false CLEAN_DELAY ExSoft ROperator
  | NoBlockLog => FailoverTo false false 0 ExSoft RNoBlockLog
  end.

(** [note_block_failure]: the strike in the state map, and the view rebuilt from
    it. *)
Definition note_block_failure (ctx : BuildCtx) (tips : Tips) (endpoint : string) (block : Z)
    (policy : option BlockFailureQuarantine) (now : Z)
    (db : gmap string ServerState) (hub : FleetHub) : gmap string ServerState * FleetHub :=
  match db !! endpoint with
  | None => (db, hub)
  | Some s =>
      let db := <[endpoint := (record_block_failure block now policy s).2]> db in
      (db, rebuild ctx db tips now hub)
  end.

(** ** The budget over a session's life

    What the session does with [stuck_at]: a link end plans against it, a
    forwarded result at or past the block clears it, a new request clears it. *)

Definition stuck_after_result (stuck_at : option (Z * Z)) (block : option Z) : option (Z * Z) :=
  match stuck_at, block with
  | Some (stuck, _), Some n => if stuck <=? n then None else stuck_at
  | _, _ => stuck_at
  end.

(** The ends that only drop a link which owes nothing. *)
Definition quiet_end (e : UpEnd) : bool :=
  match e with
  | Unclean | Clean _ | EndIdle | Stall | MonitorOffline | SendFailed | Silent | Moved | NoBlockLog =>
      true
  | Violation _ | Uncovered | Discontinuity | TooLarge => false
  end.

(** A link owes nothing: no request is in progress, or it is a frozen leg that
    is done. *)
Definition link_finished (role : Role) (in_progress leg_done : bool) : bool :=
  negb in_progress || (bool_decide (role = Frozen) && leg_done).

(** What bears on the budget: a link end (with what its handler reads: whether a
    request is in progress, whether the leg is done, the facts of the link, the
    client's cursor, and as its next block if it has a request), a forwarded
    result, a new client request. *)
Record EndSeen := mkEndSeen {
  es_end : UpEnd;
  es_facts : EndFacts;
  es_in_progress : bool;
  es_leg_done : bool;
  es_cursor : Z;
  es_next_block : option Z;
  es_now : Z;
}.

Inductive BudgetEvent :=
| EvEnd (e : EndSeen)
| EvResult (block : option Z)
| EvRequest.

Section budget.
Context (stitched : bool).

(** A stitched session only drops a link that owes nothing and ends quietly. *)
Definition dropped_quietly (e : EndSeen) : bool :=
  stitched && link_finished (ef_role (es_facts e)) (es_in_progress e) (es_leg_done e)
  && quiet_end (es_end e).

(** The plan of a link end, if its handler comes to make one, and the budget
    after it. *)
Definition plan_of_end (stuck_at : option (Z * Z)) (e : EndSeen)
    : option SameBlockPlan * option (Z * Z) :=
  if dropped_quietly e then (None, stuck_at)
  else
    match classify (es_end e) (es_facts e) (es_cursor e) (es_now e) with
    | CloseClient _ _ _ => (None, stuck_at)
    | FailoverTo _ budget delay _ _ =>
        let '(plan, stuck_at) := plan_same_block_failover stuck_at budget (es_next_block e) delay in
        (Some plan, stuck_at)
    end.

Definition budget_step (stuck_at : option (Z * Z)) (e : BudgetEvent) : option (Z * Z) :=
  match e with
  | EvEnd e => (plan_of_end stuck_at e).2
  | EvResult block => stuck_after_result stuck_at block
  | EvRequest => None
  end.

(** Whether an end is charged to its block: the link still owed something (or
    the listener is a pool), and the upstream broke it off, stalled a frozen leg
    or broke the archive contract. *)
Definition charged (e : EndSeen) : bool :=
  match es_end e with
  | Unclean =>
      negb (dropped_quietly e)
      && negb (is_some_and (fun at_ => sat_sub (es_now e) at_ <=? CLIENT_INDUCED_WINDOW)
                 (ef_unknown_forwarded_at (es_facts e)))
  | Stall => negb (dropped_quietly e) && bool_decide (ef_role (es_facts e) = Frozen)
  | Violation _ => true
  | _ => false
  end.

(** The charged ends at block [b] since it was last passed, the request
    replaced, or another block charged; the newest event first. *)
Fixpoint streak (b : Z) (events : list BudgetEvent) : Z :=
  match events with
  | [] => 0
  | EvEnd e :: events =>
      match es_next_block e with
      | Some b' =>
          if charged e then (if b' =? b then 1 + streak b events else 0) else streak b events
      | None => streak b events
      end
  | EvResult (Some n) :: events => if b <=? n then 0 else streak b events
  | EvResult None :: events => streak b events
  | EvRequest :: events => 0
  end.

Lemma plan_of_end_charged stuck_at e :
  charged e = true ->
  plan_of_end stuck_at e =
    (Some (plan_same_block_failover stuck_at true (es_next_block e) CLEAN_DELAY).1,
     (plan_same_block_failover stuck_at true (es_next_block e) CLEAN_DELAY).2).
Proof.
  assert (forall p : SameBlockPlan * option (Z * Z),
    (let '(plan, stuck_at) := p in (Some plan, stuck_at)) = (Some p.1, p.2)) as Hp by (by intros []).
  unfold charged, plan_of_end. destruct (es_end e) eqn:Ee; intros Hc; try done; cbn [classify].
  - apply andb_prop in Hc as [->%negb_true_iff ->%negb_true_iff]. apply Hp.
  - apply andb_prop in Hc as [->%negb_true_iff ->%bool_decide_eq_true]. apply Hp.
  - unfold dropped_quietly. rewrite Ee, andb_false_r. apply Hp.
Qed.

(** An end that is not charged plans no close and leaves the budget alone. *)
Lemma plan_of_end_free stuck_at e :
  charged e = false ->
  (plan_of_end stuck_at e).2 = stuck_at
  /\ (forall plan, (plan_of_end stuck_at e).1 = Some plan -> close_reason plan = None).
Proof.
  unfold charged, plan_of_end. destruct (dropped_quietly e) eqn:Ed; [done|].
  destruct (es_end e); cbn [classify negb andb]; intros Hc; try done;
    try (split; [done|by intros ? [= <-]]).
  - apply negb_false_iff in Hc as ->. done.
  - apply bool_decide_eq_false in Hc. destruct (ef_role (es_facts e)); [|done].
    split; [done|by intros ? [= <-]].
Qed.

Lemma streak_bounds b events : 0 <= streak b events <= zlen events.
Proof.
  induction events as [|e events IH]; [done|]. cbn [length].
  destruct e as [e|[?|]|]; cbn [streak]; repeat case_match; lia.
Qed.

(** [stuck_at] holds the streak of the block it names, and any other block has
    none. *)
Definition stuck_inv (events : list BudgetEvent) (stuck_at : option (Z * Z)) : Prop :=
  match stuck_at with
  | Some (b, seen) => forall b', streak b' events = if b' =? b then seen else 0
  | None => forall b', streak b' events = 0
  end.

Lemma failures_at_streak events stuck_at b :
  zlen events < u32_max -> stuck_inv events stuck_at ->
  failures_at stuck_at b = 1 + streak b events.
Proof.
  unfold stuck_inv, failures_at. intros Hlen Hinv. pose proof (streak_bounds b events).
  destruct stuck_at as [[b0 seen]|]; rewrite Hinv in *; [|done].
  rewrite (Z.eqb_sym b0 b). destruct (b =? b0); [|done]. unfold sat_add. lia.
Qed.

Lemma budget_step_inv events stuck_at e :
  zlen events < u32_max -> stuck_inv events stuck_at ->
  stuck_inv (e :: events) (budget_step stuck_at e).
Proof.
  intros Hlen Hinv. destruct e as [e|block|]; cbn [budget_step].
  - destruct (charged e) eqn:Ec.
    2: { rewrite (proj1 (plan_of_end_free stuck_at e Ec)). unfold stuck_inv in *.
         destruct stuck_at as [[b seen]|]; intros b'; cbn [streak]; rewrite Ec;
           destruct (es_next_block e); apply Hinv. }
    rewrite plan_of_end_charged by done. destruct (es_next_block e) as [blk|] eqn:En; cbn.
    + intros b'. rewrite En, Ec, (failures_at_streak events), (Z.eqb_sym blk b') by done.
      destruct (b' =? blk) eqn:E; bools; by subst.
    + unfold stuck_inv in *. destruct stuck_at as [[b seen]|]; intros b'; cbn [streak]; rewrite En; apply Hinv.
  - unfold stuck_inv in *. destruct stuck_at as [[b seen]|], block as [n|]; cbn [streak stuck_after_result];
      try done.
    + destruct (b <=? n) eqn:E; intros b'; destruct (b' <=? n) eqn:E'; rewrite ?Hinv;
        destruct (b' =? b) eqn:E''; bools; done || lia.
    + intros b'. destruct (b' <=? n); [done|apply Hinv].
  - cbn. done.
Qed.

Lemma budget_run_inv events :
  zlen events <= u32_max -> stuck_inv events (foldr (fun e s => budget_step s e) None events).
Proof.
  induction events as [|e events IH]; [done|]. cbn [length]. intros Hlen. cbn [foldr].
  apply budget_step_inv; [lia|]. apply IH. lia.
Qed.

(** C40: the failover budget, over any history of link ends, forwarded results
    and requests (newest first, fewer than [2^32]): a link end closes the client
    for an unavailable block exactly when it is charged to the block, the client
    has a request, and it is at least the fifth charged end at that block with
    no result at or past the block, no new request and no charge at another
    block in between.  An end is charged when the upstream broke the link off
    (not right after an unsupported request), stalled a frozen leg or broke the
    archive contract, and the link was not one a stitched session only drops
    because it owed nothing. *)
Theorem budget_closes_exactly (events : list BudgetEvent) (e : EndSeen) :
  zlen events < u32_max ->
  let stuck_at := foldr (fun e s => budget_step s e) None events in
  let closes :=
    match (plan_of_end stuck_at e).1 with
    | Some plan => is_some (close_reason plan)
    | None => false
    end in
  closes = true <->
  charged e = true
  /\ exists b, es_next_block e = Some b /\ MAX_SAME_BLOCK_FAILURES <= 1 + streak b events.
Proof.
  intros Hlen. cbv zeta. pose proof (budget_run_inv events ltac:(lia)) as Hinv.
  set (stuck_at := foldr _ None events) in *. destruct (charged e) eqn:Ec.
  2: { split; [|by intros []]. pose proof (proj2 (plan_of_end_free stuck_at e Ec)) as Hf.
       destruct (plan_of_end stuck_at e).1 as [plan|]; [|done]. by rewrite (Hf _ eq_refl). }
  rewrite plan_of_end_charged by done. destruct (es_next_block e) as [b|]; cbn.
  2: { split; [done|]. intros (_ & b & [=] & _). }
  rewrite (failures_at_streak events) by done.
  destruct (MAX_SAME_BLOCK_FAILURES <=? 1 + streak b events) eqn:E; bools; cbn; split; try done.
  - intros _. eauto.
  - intros (_ & b' & [= <-] & ?). lia.
Qed.
End budget.

(** Four unclean drops at block 9, a clean close, a drop of a link that owed
    nothing and a result below it; then the fifth drop. *)
Definition sample_end (end_ : UpEnd) (owing : bool) (b : Z) : EndSeen :=
  mkEndSeen end_ (mkEndFacts Live None) owing false b (Some b) 0.
Definition sample_events : list BudgetEvent :=
  [EvResult (Some 8); EvEnd (sample_end (Clean 1000) true 9); EvEnd (sample_end Unclean false 9)]
  ++ repeat (EvEnd (sample_end Unclean true 9)) 4.

Lemma budget_closes_exactly_witness :
  match (plan_of_end true (foldr (fun e s => budget_step true s e) None sample_events)
           (sample_end Unclean true 9)).1 with
  | Some plan => is_some (close_reason plan)
  | None => false
  end = true.
Proof.
  apply (budget_closes_exactly true sample_events (sample_end Unclean true 9));
    [vm_compute; reflexivity|].
  split; [reflexivity|]. exists 9. split; [reflexivity|vm_compute; discriminate].
Defined.
