(* ===== verification/Link.v ===== *)
(** * The upstream side of a session

    Models the part of [src/src/session/link.rs] that holds no socket: the
    cursor the router infers for an upstream, the request a link serves, the
    link's state, and the decisions made from them (whether a socket can take a
    new request, whether it owes blocks, how a stream ended).  Instants are
    nanoseconds; a counter that only grows ([frames], [keepalives_seen]) is
    unbounded here, as it takes longer than the program runs to wrap 64 bits. *)

From S2P Require Import Prelude Wire Models Failover.

(** [ConnectionGuard]: a slot is one unit of the counter, given back on drop. *)
Definition guard_acquire (counter : Z) : Z := counter + 1.
Definition guard_drop (counter : Z) : Z :=
  match checked_sub counter 1 with Some c => c | None => counter end.

Inductive UpCursor := Exact (u : Z) | Uncertain (lo hi : Z).

Inductive Purpose := PInitial | PHandoff | PFailover | PReroute.

Definition resumes (p : Purpose) : bool :=
  match p with PFailover | PHandoff => true | _ => false end.

#[export] Instance Purpose_eq_dec : EqDecision Purpose.
Proof. solve_decision. Defined.
#[export] Instance UpCursor_eq_dec : EqDecision UpCursor.
Proof. solve_decision. Defined.

Record LinkReq := mkLinkReq {
  lr_start : Z;
  lr_end : Z;
  lr_clamped : bool;
  lr_irreversible_only : bool;
  lr_purpose : Purpose;
  lr_sent_at : Z;
}.

Record BlocklessCheck := mkBlockless { bc_generation : Z; bc_until : Z; bc_next : Z }.

Definition due (b : BlocklessCheck) (generation cursor now : Z) : bool :=
  negb (generation =? bc_generation b) || (bc_until b <=? cursor) || (bc_next b <=? now).

(** Everything the router tracks about one link, apart from its socket. *)
Record LinkState := mkLinkState {
  l_up : Z;
  l_role : Role;
  l_req : option LinkReq;
  l_up_cursor : UpCursor;
  l_first_result_pending : bool;
  l_resume_floor : option Z;
  l_expect_ids_from : Z;
  l_keepalives_seen : Z;
  l_last_head : option BlockPos;
  l_last_lib : option BlockPos;
  l_close_code : option Z;
  l_unknown_forwarded_at : option Z;
  l_became_owed_at : Z;
  l_was_owed : bool;
  l_stall_recheck : option Z;
  l_stall_kept : option Z;
  l_frames : Z;
  l_linger_until : option Z;
  l_ping_at : option Z;
  l_probe_until : option Z;
  l_data_ms : Z;
  l_pong_ms : option Z;
  l_upstream_online : bool;
  l_blockless_checked : option BlocklessCheck;
}.

Definition l_set_req (v : option LinkReq) (st : LinkState) : LinkState :=
  mkLinkState (l_up st) (l_role st) v (l_up_cursor st) (l_first_result_pending st)
    (l_resume_floor st) (l_expect_ids_from st) (l_keepalives_seen st) (l_last_head st)
    (l_last_lib st) (l_close_code st) (l_unknown_forwarded_at st) (l_became_owed_at st)
    (l_was_owed st) (l_stall_recheck st) (l_stall_kept st) (l_frames st) (l_linger_until st)
    (l_ping_at st) (l_probe_until st) (l_data_ms st) (l_pong_ms st) (l_upstream_online st)
    (l_blockless_checked st).
Definition l_set_up_cursor (v : UpCursor) (st : LinkState) : LinkState :=
  mkLinkState (l_up st) (l_role st) (l_req st) v (l_first_result_pending st)
    (l_resume_floor st) (l_expect_ids_from st) (l_keepalives_seen st) (l_last_head st)
    (l_last_lib st) (l_close_code st) (l_unknown_forwarded_at st) (l_became_owed_at st)
    (l_was_owed st) (l_stall_recheck st) (l_stall_kept st) (l_frames st) (l_linger_until st)
    (l_ping_at st) (l_probe_until st) (l_data_ms st) (l_pong_ms st) (l_upstream_online st)
    (l_blockless_checked st).
Definition l_set_first_result_pending (v : bool) (st : LinkState) : LinkState :=
  mkLinkState (l_up st) (l_role st) (l_req st) (l_up_cursor st) v (l_resume_floor st)
    (l_expect_ids_from st) (l_keepalives_seen st) (l_last_head st) (l_last_lib st)
    (l_close_code st) (l_unknown_forwarded_at st) (l_became_owed_at st) (l_was_owed st)
    (l_stall_recheck st) (l_stall_kept st) (l_frames st) (l_linger_until st) (l_ping_at st)
    (l_probe_until st) (l_data_ms st) (l_pong_ms st) (l_upstream_online st)
    (l_blockless_checked st).
Definition l_set_resume_floor (v : option Z) (st : LinkState) : LinkState :=
  mkLinkState (l_up st) (l_role st) (l_req st) (l_up_cursor st) (l_first_result_pending st)
    v (l_expect_ids_from st) (l_keepalives_seen st) (l_last_head st) (l_last_lib st)
    (l_close_code st) (l_unknown_forwarded_at st) (l_became_owed_at st) (l_was_owed st)
    (l_stall_recheck st) (l_stall_kept st) (l_frames st) (l_linger_until st) (l_ping_at st)
    (l_probe_until st) (l_data_ms st) (l_pong_ms st) (l_upstream_online st)
    (l_blockless_checked st).
Definition l_set_expect_ids_from (v : Z) (st : LinkState) : LinkState :=
  mkLinkState (l_up st) (l_role st) (l_req st) (l_up_cursor st) (l_first_result_pending st)
    (l_resume_floor st) v (l_keepalives_seen st) (l_last_head st) (l_last_lib st)
    (l_close_code st) (l_unknown_forwarded_at st) (l_became_owed_at st) (l_was_owed st)
    (l_stall_recheck st) (l_stall_kept st) (l_frames st) (l_linger_until st) (l_ping_at st)
    (l_probe_until st) (l_data_ms st) (l_pong_ms st) (l_upstream_online st)
    (l_blockless_checked st).
Definition l_set_keepalives_seen (v : Z) (st : LinkState) : LinkState :=
  mkLinkState (l_up st) (l_role st) (l_req st) (l_up_cursor st) (l_first_result_pending st)
    (l_resume_floor st) (l_expect_ids_from st) v (l_last_head st) (l_last_lib st)
    (l_close_code st) (l_unknown_forwarded_at st) (l_became_owed_at st) (l_was_owed st)
    (l_stall_recheck st) (l_stall_kept st) (l_frames st) (l_linger_until st) (l_ping_at st)
    (l_probe_until st) (l_data_ms st) (l_pong_ms st) (l_upstream_online st)
    (l_blockless_checked st).
Definition l_set_last_head (v : option BlockPos) (st : LinkState) : LinkState :=
  mkLinkState (l_up st) (l_role st) (l_req st) (l_up_cursor st) (l_first_result_pending st)
    (l_resume_floor st) (l_expect_ids_from st) (l_keepalives_seen st) v (l_last_lib st)
    (l_close_code st) (l_unknown_forwarded_at st) (l_became_owed_at st) (l_was_owed st)
    (l_stall_recheck st) (l_stall_kept st) (l_frames st) (l_linger_until st) (l_ping_at st)
    (l_probe_until st) (l_data_ms st) (l_pong_ms st) (l_upstream_online st)
    (l_blockless_checked st).
Definition l_set_last_lib (v : option BlockPos) (st : LinkState) : LinkState :=
  mkLinkState (l_up st) (l_role st) (l_req st) (l_up_cursor st) (l_first_result_pending st)
    (l_resume_floor st) (l_expect_ids_from st) (l_keepalives_seen st) (l_last_head st) v
    (l_close_code st) (l_unknown_forwarded_at st) (l_became_owed_at st) (l_was_owed st)
    (l_stall_recheck st) (l_stall_kept st) (l_frames st) (l_linger_until st) (l_ping_at st)
    (l_probe_until st) (l_data_ms st) (l_pong_ms st) (l_upstream_online st)
    (l_blockless_checked st).
Definition l_set_became_owed_at (v : Z) (st : LinkState) : LinkState :=
  mkLinkState (l_up st) (l_role st) (l_req st) (l_up_cursor st) (l_first_result_pending st)
    (l_resume_floor st) (l_expect_ids_from st) (l_keepalives_seen st) (l_last_head st)
    (l_last_lib st) (l_close_code st) (l_unknown_forwarded_at st) v (l_was_owed st)
    (l_stall_recheck st) (l_stall_kept st) (l_frames st) (l_linger_until st) (l_ping_at st)
    (l_probe_until st) (l_data_ms st) (l_pong_ms st) (l_upstream_online st)
    (l_blockless_checked st).
Definition l_set_frames (v : Z) (st : LinkState) : LinkState :=
  mkLinkState (l_up st) (l_role st) (l_req st) (l_up_cursor st) (l_first_result_pending st)
    (l_resume_floor st) (l_expect_ids_from st) (l_keepalives_seen st) (l_last_head st)
    (l_last_lib st) (l_close_code st) (l_unknown_forwarded_at st) (l_became_owed_at st)
    (l_was_owed st) (l_stall_recheck st) (l_stall_kept st) v (l_linger_until st)
    (l_ping_at st) (l_probe_until st) (l_data_ms st) (l_pong_ms st) (l_upstream_online st)
    (l_blockless_checked st).
Definition l_set_linger_until (v : option Z) (st : LinkState) : LinkState :=
  mkLinkState (l_up st) (l_role st) (l_req st) (l_up_cursor st) (l_first_result_pending st)
    (l_resume_floor st) (l_expect_ids_from st) (l_keepalives_seen st) (l_last_head st)
    (l_last_lib st) (l_close_code st) (l_unknown_forwarded_at st) (l_became_owed_at st)
    (l_was_owed st) (l_stall_recheck st) (l_stall_kept st) (l_frames st) v (l_ping_at st)
    (l_probe_until st) (l_data_ms st) (l_pong_ms st) (l_upstream_online st)
    (l_blockless_checked st).
Definition l_set_ping_at (v : option Z) (st : LinkState) : LinkState :=
  mkLinkState (l_up st) (l_role st) (l_req st) (l_up_cursor st) (l_first_result_pending st)
    (l_resume_floor st) (l_expect_ids_from st) (l_keepalives_seen st) (l_last_head st)
    (l_last_lib st) (l_close_code st) (l_unknown_forwarded_at st) (l_became_owed_at st)
    (l_was_owed st) (l_stall_recheck st) (l_stall_kept st) (l_frames st) (l_linger_until st)
    v (l_probe_until st) (l_data_ms st) (l_pong_ms st) (l_upstream_online st)
    (l_blockless_checked st).
Definition l_set_probe_until (v : option Z) (st : LinkState) : LinkState :=
  mkLinkState (l_up st) (l_role st) (l_req st) (l_up_cursor st) (l_first_result_pending st)
    (l_resume_floor st) (l_expect_ids_from st) (l_keepalives_seen st) (l_last_head st)
    (l_last_lib st) (l_close_code st) (l_unknown_forwarded_at st) (l_became_owed_at st)
    (l_was_owed st) (l_stall_recheck st) (l_stall_kept st) (l_frames st) (l_linger_until st)
    (l_ping_at st) v (l_data_ms st) (l_pong_ms st) (l_upstream_online st)
    (l_blockless_checked st).
Definition l_set_data_ms (v : Z) (st : LinkState) : LinkState :=
  mkLinkState (l_up st) (l_role st) (l_req st) (l_up_cursor st) (l_first_result_pending st)
    (l_resume_floor st) (l_expect_ids_from st) (l_keepalives_seen st) (l_last_head st)
    (l_last_lib st) (l_close_code st) (l_unknown_forwarded_at st) (l_became_owed_at st)
    (l_was_owed st) (l_stall_recheck st) (l_stall_kept st) (l_frames st) (l_linger_until st)
    (l_ping_at st) (l_probe_until st) v (l_pong_ms st) (l_upstream_online st)
    (l_blockless_checked st).
Definition l_set_pong_ms (v : option Z) (st : LinkState) : LinkState :=
  mkLinkState (l_up st) (l_role st) (l_req st) (l_up_cursor st) (l_first_result_pending st)
    (l_resume_floor st) (l_expect_ids_from st) (l_keepalives_seen st) (l_last_head st)
    (l_last_lib st) (l_close_code st) (l_unknown_forwarded_at st) (l_became_owed_at st)
    (l_was_owed st) (l_stall_recheck st) (l_stall_kept st) (l_frames st) (l_linger_until st)
    (l_ping_at st) (l_probe_until st) (l_data_ms st) v (l_upstream_online st)
    (l_blockless_checked st).
Definition l_set_blockless_checked (v : option BlocklessCheck) (st : LinkState) : LinkState :=
  mkLinkState (l_up st) (l_role st) (l_req st) (l_up_cursor st) (l_first_result_pending st)
    (l_resume_floor st) (l_expect_ids_from st) (l_keepalives_seen st) (l_last_head st)
    (l_last_lib st) (l_close_code st) (l_unknown_forwarded_at st) (l_became_owed_at st)
    (l_was_owed st) (l_stall_recheck st) (l_stall_kept st) (l_frames st) (l_linger_until st)
    (l_ping_at st) (l_probe_until st) (l_data_ms st) (l_pong_ms st) (l_upstream_online st)
    v.

Definition new_link_state (up : Z) (role : Role) (now : Z) : LinkState :=
  mkLinkState up role None (Exact 0) false None 0 0 None None None None now false None None 0
    None None None 0 None false None.

Definition note_frame (read_ms : Z) (liveness_pong : bool) (st : LinkState) : LinkState :=
  let st := l_set_ping_at None st in
  let st := l_set_probe_until None st in
  if liveness_pong then l_set_pong_ms (Some read_ms) st
  else l_set_pong_ms None (l_set_data_ms read_ms st).

Definition data_activity_ms (st : LinkState) (read_ms : Z) : Z :=
  if bool_decide (l_pong_ms st = Some read_ms) then l_data_ms st else read_ms.

Definition leg_done (st : LinkState) : bool :=
  match l_req st, l_up_cursor st with
  | None, _ => true
  | Some req, Exact u => lr_end req <=? u
  | Some _, Uncertain _ _ => false
  end.

Definition end_kind (st : LinkState) : UpEnd :=
  match l_close_code st with Some code => Clean code | None => Unclean end.

Definition settled (st : LinkState) (legacy_status : bool) : bool :=
  match l_req st with
  | None => true
  | Some req =>
      match l_up_cursor st with
      | Exact u =>
          if lr_end req <=? u then
            match l_role st with
            | Frozen => true
            | Live =>
                is_some_and (fun lib => lr_end req <=? num lib + 1) (l_last_lib st)
                && (l_keepalives_seen st =? 0) && negb legacy_status
            end
          else false
      | Uncertain _ _ => false
      end
  end.

Definition quiescent (st : LinkState) (pre_credit : Z) (legacy_status : bool) : bool :=
  (pre_credit =? 0) || settled st legacy_status.

(** The cursor [owed] judges by: an uncertain one at its upper bound. *)
Definition upper (cur : UpCursor) : Z :=
  match cur with Exact u => u | Uncertain _ hi => hi end.

Definition owed (st : LinkState) (credit : Z) (fleet_gate : bool -> option Z) : bool :=
  match l_req st with
  | None => false
  | Some req =>
      if credit =? 0 then false
      else
        let u := upper (l_up_cursor st) in
        if lr_end req <=? u then false
        else
          match l_role st with
          | Frozen => true
          | Live =>
              let own := if lr_irreversible_only req then l_last_lib st else l_last_head st in
              is_some_and (fun g => u <=? num g) own
              || is_some_and (fun g => u <=? g) (fleet_gate (lr_irreversible_only req))
          end
  end.

Record Target := mkTarget { tg_topology : ResolvedTopology; tg_ids_begin : option Z }.

(** ** Links *)

Lemma guard_inverse c : 0 <= c -> guard_drop (guard_acquire c) = c.
Proof. unfold guard_drop, guard_acquire, checked_sub. intros ?.
  destruct (1 <=? c + 1) eqn:E; bools; lia.
Qed.

(** A leg that is done owes nothing. *)
Lemma leg_done_not_owed st credit gate : leg_done st = true -> owed st credit gate = false.
Proof.
  unfold leg_done, owed. destruct (l_req st) as [req|]; [|done].
  destruct (l_up_cursor st) as [u|]; [|done]. cbn [upper]. intros ->. by destruct (credit =? 0).
Qed.

(** A settled link's leg is done: a link reused for another request had nothing
    left to send for the old one. *)
Lemma settled_leg_done st legacy : settled st legacy = true -> leg_done st = true.
Proof.
  unfold settled, leg_done. destruct (l_req st) as [req|]; [|done].
  destruct (l_up_cursor st) as [u|]; [|done]. by destruct (lr_end req <=? u).
Qed.
