(* ===== verification/Client.v ===== *)
(** * The client side of a session

    Models [src/src/session/client.rs] (the mirror of what one node would hold
    for the client, and the rules applied to every upstream result) and, of
    [src/src/session/link.rs], the request a link is sent.  A credit or a cursor
    is a [u32] with the saturation the code writes; [delivered_for_request]
    counts in 64 bits and is unbounded here.

    A [VecDeque] is a list, front first.  [DeliveredRing::get] searches its two
    slices; where the deque wraps is an argument, [wrap], of the search.

    The theorems: the ring stays sorted and bounded and its search is exact
    wherever the deque wraps; the head and LIB a client is shown never go back;
    a result dropped as a replay is one the client has; a frozen upstream's
    forwarded results are exactly the client's next blocks; a resume asks for
    exactly what follows. *)

From S2P Require Import Prelude Wire Models View Failover Link.

Definition MAX_PENDING_CLIENT_BYTES : Z := 64 * 1024.
Definition DELIVERED_CAP : Z := 4096.
Definition RESUME_POSITIONS : Z := 1024.

(** ** Client frames held during a failover *)

Module Pending.
Section pending.
Context {Message : Type} (len : Message -> Z).

Record t := mk { frames : list Message; bytes : Z }.

Definition new : t := mk [] 0.

Definition accounted (msg : Message) : Z := Z.max (len msg) 1.

Definition buffered (p : t) : Z := bytes p.

Definition try_push (msg : Message) (p : t) : bool * t :=
  let n := accounted msg in
  if MAX_PENDING_CLIENT_BYTES <? sat_add usize_max (bytes p) n then (false, p)
  else (true, mk (frames p ++ [msg]) (bytes p + n)).

Definition pop_front (p : t) : option Message * t :=
  match frames p with
  | [] => (None, p)
  | msg :: rest => (Some msg, mk rest (sat_sub (bytes p) (accounted msg)))
  end.

(** The bytes held are those of the frames, and never more than the cap. *)
Definition ok (p : t) : Prop :=
  bytes p = foldr (fun m n => accounted m + n) 0 (frames p)
  /\ bytes p <= MAX_PENDING_CLIENT_BYTES.

Lemma accounted_pos m : 1 <= accounted m.
Proof. unfold accounted. lia. Qed.

Lemma sum_nonneg l : 0 <= foldr (fun m n => accounted m + n) 0 l.
Proof. induction l as [|m l IH]; cbn; [lia|]. pose proof (accounted_pos m). lia. Qed.

Lemma ok_new : ok new.
Proof. split; [done|]. cbn. unfold MAX_PENDING_CLIENT_BYTES. lia. Qed.

Lemma sum_snoc l m :
  foldr (fun m n => accounted m + n) 0 (l ++ [m])
  = foldr (fun m n => accounted m + n) 0 l + accounted m.
Proof. induction l as [|x l IH]; cbn [foldr app]; lia. Qed.

Lemma cap_below_usize : MAX_PENDING_CLIENT_BYTES < usize_max.
Proof. done. Qed.

Lemma ok_try_push msg p : ok p -> ok (try_push msg p).2.
Proof.
  intros [Hb Hc]. unfold try_push. destruct (_ <? _) eqn:E; [done|]. apply Z.ltb_ge in E.
  pose proof cap_below_usize. unfold sat_add in E. split; cbn [snd frames bytes]; [|lia].
  rewrite sum_snoc. lia.
Qed.

Lemma ok_pop_front p : ok p -> ok (pop_front p).2.
Proof.
  intros Hok. unfold pop_front. destruct (frames p) as [|m l] eqn:E; [done|].
  destruct Hok as [Hb Hc]. rewrite E in Hb. cbn [foldr] in Hb.
  pose proof (sum_nonneg l). pose proof (accounted_pos m).
  split; cbn [snd frames bytes]; unfold sat_sub; lia.
Qed.
End pending.
End Pending.

(** ** The blocks delivered *)

Fixpoint drop_while {A} (f : A -> bool) (l : list A) : list A :=
  match l with
  | [] => []
  | x :: rest => if f x then drop_while f rest else l
  end.

(** [while back().is_some_and(f) { pop_back() }]. *)
Definition pop_back_while {A} (f : A -> bool) (l : list A) : list A :=
  reverse (drop_while f (reverse l)).

Module Ring.

Definition truncate_from (n : Z) (buf : list BlockPos) : list BlockPos :=
  pop_back_while (fun back => n <=? num back) buf.

(** The pruning loop of [push]. *)
Fixpoint prune (lib : Z) (buf : list BlockPos) : list BlockPos :=
  match buf with
  | f :: ((_ :: _) as rest) => if num f <=? lib then prune lib rest else buf
  | _ => buf
  end.

(** The cap loop of [push]. *)
Fixpoint cap (buf : list BlockPos) : list BlockPos :=
  match buf with
  | [] => []
  | _ :: rest => if DELIVERED_CAP <? zlen buf then cap rest else buf
  end.

Definition push (p : BlockPos) (lib : option BlockPos) (buf : list BlockPos) : list BlockPos :=
  let buf := pop_back_while (fun back => num p <=? num back) buf in
  let buf := buf ++ [p] in
  let buf := match lib with Some lib => prune (num lib) buf | None => buf end in
  cap buf.

(** [slice::binary_search_by_key]: the standard library's bisection; [size] is
    halved each turn, so as much fuel as elements is enough. *)
Fixpoint bisect (fuel : nat) (key : Z) (s : list BlockPos) (base size : Z) : Z :=
  match fuel with
  | O => base
  | S fuel =>
      if size <=? 1 then base
      else
        let half := size / 2 in
        let mid := base + half in
        let base := match nth_get s mid with
                    | Some p => match Z.compare (num p) key with Gt => base | _ => mid end
                    | None => base
                    end in
        bisect fuel key s base (size - half)
  end.

Definition binary_search (key : Z) (s : list BlockPos) : option BlockPos :=
  match s with
  | [] => None
  | _ =>
      match nth_get s (bisect (length s) key s 0 (zlen s)) with
      | Some p => if num p =? key then Some p else None
      | None => None
      end
  end.

Definition get (wrap : nat) (n : Z) (buf : list BlockPos) : option (list Z) :=
  let find s := block_id <$> binary_search n s in
  or_else (find (take wrap buf)) (find (drop wrap buf)).

Definition reversible_tail (lib below max : Z) (buf : list BlockPos) : list BlockPos :=
  reverse (take (Z.to_nat max)
    (List.filter (fun p => (lib <? num p) && (num p <? below)) (reverse buf))).

End Ring.

(** ** What one node would hold for the client *)

Record ClientSide := mkClient {
  c_req : option BlocksRequest;
  c_credit : Z;
  c_cursor : Z;
  c_delivered_for_request : Z;
  c_head_sent : option BlockPos;
  c_lib_sent : option BlockPos;
  c_delivered : list BlockPos;
  c_irr_hwm : option Z;
  c_last : option BlockPos;
  c_client_abi_fp : Z;
}.

Definition c_set_req (v : option BlocksRequest) (c : ClientSide) : ClientSide :=
  mkClient v (c_credit c) (c_cursor c) (c_delivered_for_request c) (c_head_sent c)
    (c_lib_sent c) (c_delivered c) (c_irr_hwm c) (c_last c) (c_client_abi_fp c).
Definition c_set_credit (v : Z) (c : ClientSide) : ClientSide :=
  mkClient (c_req c) v (c_cursor c) (c_delivered_for_request c) (c_head_sent c)
    (c_lib_sent c) (c_delivered c) (c_irr_hwm c) (c_last c) (c_client_abi_fp c).
Definition c_set_cursor (v : Z) (c : ClientSide) : ClientSide :=
  mkClient (c_req c) (c_credit c) v (c_delivered_for_request c) (c_head_sent c)
    (c_lib_sent c) (c_delivered c) (c_irr_hwm c) (c_last c) (c_client_abi_fp c).
Definition c_set_delivered_for_request (v : Z) (c : ClientSide) : ClientSide :=
  mkClient (c_req c) (c_credit c) (c_cursor c) v (c_head_sent c) (c_lib_sent c)
    (c_delivered c) (c_irr_hwm c) (c_last c) (c_client_abi_fp c).
Definition c_set_head_sent (v : option BlockPos) (c : ClientSide) : ClientSide :=
  mkClient (c_req c) (c_credit c) (c_cursor c) (c_delivered_for_request c) v (c_lib_sent c)
    (c_delivered c) (c_irr_hwm c) (c_last c) (c_client_abi_fp c).
Definition c_set_lib_sent (v : option BlockPos) (c : ClientSide) : ClientSide :=
  mkClient (c_req c) (c_credit c) (c_cursor c) (c_delivered_for_request c) (c_head_sent c) v
    (c_delivered c) (c_irr_hwm c) (c_last c) (c_client_abi_fp c).
Definition c_set_delivered (v : list BlockPos) (c : ClientSide) : ClientSide :=
  mkClient (c_req c) (c_credit c) (c_cursor c) (c_delivered_for_request c) (c_head_sent c)
    (c_lib_sent c) v (c_irr_hwm c) (c_last c) (c_client_abi_fp c).
Definition c_set_irr_hwm (v : option Z) (c : ClientSide) : ClientSide :=
  mkClient (c_req c) (c_credit c) (c_cursor c) (c_delivered_for_request c) (c_head_sent c)
    (c_lib_sent c) (c_delivered c) v (c_last c) (c_client_abi_fp c).
Definition c_set_last (v : option BlockPos) (c : ClientSide) : ClientSide :=
  mkClient (c_req c) (c_credit c) (c_cursor c) (c_delivered_for_request c) (c_head_sent c)
    (c_lib_sent c) (c_delivered c) (c_irr_hwm c) v (c_client_abi_fp c).

Definition new_client : ClientSide := mkClient None 0 0 0 None None [] None None 0.

Definition ack (n : Z) (c : ClientSide) : Z * ClientSide :=
  let before := c_credit c in
  let credit := sat_add u32_max before n in
  (credit - before, c_set_credit credit c).

Definition new_request (r : BlocksRequest) (c : ClientSide) : Z * ClientSide :=
  let pre := c_credit c in
  let c := c_set_credit (max_in_flight r) c in
  let c := c_set_cursor (br_start r) c in
  let c := c_set_delivered_for_request 0 c in
  let c := c_set_delivered (Ring.truncate_from (br_start r) (c_delivered c)) c in
  (pre, c_set_req (Some r) c).

Definition charge (c : ClientSide) : bool * ClientSide :=
  match checked_sub (c_credit c) 1 with
  | Some left_ => (false, c_set_credit left_ c)
  | None => (true, c)
  end.

Definition last_irreversible (c : ClientSide) : option BlockPos :=
  match c_last c with
  | Some last => if is_some_and (fun w => num last <=? w) (c_irr_hwm c) then Some last else None
  | None => None
  end.

Definition request_is_empty (r : BlocksRequest) : bool :=
  (br_end r <=? br_start r)
  && negb (existsb (fun p => num p <? Z.min (br_start r) (br_end r)) (have_positions r)).

Definition in_progress (c : ClientSide) : bool :=
  is_some_and (fun r => negb (request_is_empty r) && (c_cursor c <? br_end r)) (c_req c).

Definition is_dup (wrap : nat) (n : Z) (this : option BlockPos) (c : ClientSide) : bool :=
  match this with
  | Some p =>
      match Ring.get wrap n (c_delivered c) with
      | Some id => bool_decide (id = block_id p)
      | None => is_some_and (fun w => n <=? w) (c_irr_hwm c)
      end
  | None => true
  end.

Definition mono (x : BlockPos) (sent : option BlockPos) : BlockPos :=
  match sent with
  | Some s => if num x <? num s then s else x
  | None => x
  end.

Definition head_lib_for (role : Role) (head lib : BlockPos) (fleet : option (BlockPos * BlockPos))
    (patch : bool) (c : ClientSide) : option (BlockPos * BlockPos) * ClientSide :=
  let '(h, l) :=
    match role, fleet with
    | Frozen, Some (fh, fl) => (fh, fl)
    | _, _ => (head, lib)
    end in
  let h := mono h (c_head_sent c) in
  let l := mono l (c_lib_sent c) in
  let l := if num h <? num l then h else l in
  let c := c_set_head_sent (Some h) c in
  let c := c_set_lib_sent (Some l) c in
  (if patch && (negb (bool_decide (h = head)) || negb (bool_decide (l = lib)))
   then Some (h, l) else None, c).

(** ** Judging a result *)

Inductive ResultKind := KBlock | KIdLess | KKeepAlive | KIdLessUncertain.

#[export] Instance ResultKind_eq_dec : EqDecision ResultKind.
Proof. solve_decision. Defined.

Record Classified := mkClassified { cl_n : option Z; cl_advance : bool; cl_kind : ResultKind }.

Definition classify_result (h : ResultHead) (cursor : UpCursor) (lr : LinkReq) : Classified :=
  let gate := if lr_irreversible_only lr then num (rh_lib h) else num (rh_head h) in
  match this_block h, cursor with
  | Some p, _ => mkClassified (Some (num p)) true KBlock
  | None, Exact u =>
      if (u <=? gate) && (u <? lr_end lr) then mkClassified (Some u) true KIdLess
      else mkClassified None false KKeepAlive
  | None, Uncertain _ _ => mkClassified None false KIdLessUncertain
  end.

Inductive Lacks := LacksNothing | LacksBlock | LacksData.

Record Forward := mkForward {
  fw_cls : Classified;
  fw_fork : bool;
  fw_jump : bool;
  fw_discontinuity : bool;
  fw_variant_mismatch : bool;
  fw_no_block : bool;
}.

Inductive Judgement :=
| JForward (fw : Forward)
| JDuplicate (advance_to : option Z)
| JEnd (end_ : UpEnd).

(** The checks of [judge] on a frozen upstream's result: the violation, or
    whether only its [block] is missing. *)
Definition frozen_check (st : LinkState) (creq : BlocksRequest) (h : ResultHead)
    (cls : Classified) (lacks : Z -> Lacks) : ViolationKind + bool :=
  if negb (eqb (rh_v1 h) (br_v1 creq)) then inl VVariant
  else
    match cl_kind cls, cl_n cls with
    | KKeepAlive, _ | KIdLessUncertain, _ => inl VIdless
    | KIdLess, Some n => if l_expect_ids_from st <=? n then inl VIdless else inr false
    | KBlock, Some n =>
        match lacks n with
        | LacksData => inl VMissingField
        | LacksBlock => inr true
        | LacksNothing => inr false
        end
    | _, None => inr false
    end.

(** Whether [this] follows [last] by number but names another block as its
    predecessor. *)
Definition breaks (h : ResultHead) (last : BlockPos) : bool :=
  match this_block h, prev_block h with
  | Some this, Some prev =>
      bool_decide (checked_add u32_max (num last) 1 = Some (num this))
      && negb (bool_decide (block_id prev = block_id last))
  | _, _ => false
  end.

(** The last delivered block the first result of a leg is held against: any at a
    seam the router made, else an irreversible one for a frozen upstream. *)
Definition held_against (c : ClientSide) (st : LinkState) (lr : LinkReq) : option BlockPos :=
  if l_first_result_pending st && resumes (lr_purpose lr) then c_last c
  else if bool_decide (l_role st = Frozen) && l_first_result_pending st then last_irreversible c
  else None.

Definition judge (wrap : nat) (c : ClientSide) (st : LinkState) (creq : BlocksRequest)
    (lr : LinkReq) (h : ResultHead) (lacks : Z -> Lacks) (alternative : Z -> bool) : Judgement :=
  let cls := classify_result h (l_up_cursor st) lr in
  let frozen := bool_decide (l_role st = Frozen) in
  let violation kind := JEnd (Violation kind) in
  match (if frozen then frozen_check st creq h cls lacks else inr false) with
  | inl kind => violation kind
  | inr no_block =>
      let k := c_cursor c in
      let seam := l_first_result_pending st && resumes (lr_purpose lr) in
      (* the rest of the rules, once the number is judged *)
      let rest (fork jump : bool) :=
        let fw discontinuity :=
          mkForward cls fork jump discontinuity
            (negb frozen && negb (eqb (rh_v1 h) (br_v1 creq))) no_block in
        let credit discontinuity :=
          if frozen && (c_credit c =? 0) then violation VCredit
          else JForward (fw discontinuity) in
        match held_against c st lr with
        | Some last =>
            if breaks h last then
              if frozen then violation VDiscontinuity
              else if ((0 <? c_delivered_for_request c) || is_some (last_irreversible c))
                      && alternative k
              then JEnd Discontinuity
              else credit true
            else credit false
        | None => credit false
        end in
      match cl_n cls with
      | None => rest false false
      | Some n =>
          if n <? k then
            if is_some (l_resume_floor st) && is_dup wrap n (this_block h) c
            then JDuplicate (if cl_advance cls then Some (sat_add u32_max n 1) else None)
            else if frozen then violation VRewind
            else rest true false
          else if k <? n then
            if frozen then violation VGap
            else if seam && alternative k then JEnd Uncovered
            else rest false true
          else rest false false
      end
  end.

Definition commit (h : ResultHead) (fw : Forward) (c : ClientSide) (st : LinkState)
  : ClientSide * LinkState :=
  let cls := fw_cls fw in
  let c :=
    match fw_fork fw, cl_n cls with
    | true, Some n => c_set_delivered (Ring.truncate_from n (c_delivered c)) c
    | _, _ => c
    end in
  let '(c, st) :=
    match cl_advance cls, cl_n cls with
    | true, Some n =>
        let next := sat_add u32_max n 1 in
        (c_set_cursor next c, l_set_up_cursor (Exact next) st)
    | _, _ =>
        if bool_decide (cl_kind cls = KKeepAlive)
        then (c, l_set_keepalives_seen (l_keepalives_seen st + 1) st) else (c, st)
    end in
  let c :=
    match this_block h with
    | Some p =>
        let c := c_set_delivered (Ring.push p (c_lib_sent c) (c_delivered c)) c in
        let c := c_set_last (Some p) c in
        if is_some_and (fun l => num p <=? num l) (c_lib_sent c)
        then c_set_irr_hwm (Some (map_or (num p) (fun w => Z.max w (num p)) (c_irr_hwm c))) c
        else c
    | None => c
    end in
  let c := c_set_delivered_for_request (c_delivered_for_request c + 1) c in
  let st := l_set_frames (l_frames st + 1) st in
  let st := l_set_last_head (Some (rh_head h)) st in
  let st := l_set_last_lib (Some (rh_lib h)) st in
  let st := l_set_first_result_pending false st in
  let st :=
    if is_some_and (fun floor => is_some_and (fun n => floor <=? n) (cl_n cls)) (l_resume_floor st)
    then l_set_resume_floor None st else st in
  (c, st).

(** ** The request a link is sent *)

Definition positions_for (c : ClientSide) (creq : BlocksRequest) (role : Role) (fresh : bool)
    (start : Z) (target : Target) : list BlockPos :=
  match role, fresh with
  | Frozen, _ => []
  | Live, true =>
      match tg_topology target with
      | RPool => have_positions creq
      | RStitched =>
          List.filter (fun p => (num p <? start)
                                && is_some_and (fun b => b <=? num p) (tg_ids_begin target))
            (have_positions creq)
      end
  | Live, false =>
      if irreversible_only creq then []
      else Ring.reversible_tail (map_or 0 num (c_lib_sent c)) (c_cursor c) RESUME_POSITIONS
             (c_delivered c)
  end.

Definition build_request (c : ClientSide) (creq : BlocksRequest) (st : LinkState) (end_ : Z)
    (purpose : Purpose) (target : Target) (now : Z) : BlocksRequest * LinkState :=
  let fresh := c_delivered_for_request c =? 0 in
  let start := if fresh then br_start creq else c_cursor c in
  let positions := positions_for c creq (l_role st) fresh start target in
  let lo := min_list (List.filter (fun n => n <? start) (map num positions)) in
  let st := l_set_req (Some (mkLinkReq start end_ (end_ <? br_end creq) (irreversible_only creq)
                               purpose now)) st in
  let st := l_set_up_cursor (match lo with Some lo => Uncertain lo start | None => Exact start end) st in
  let st := l_set_resume_floor
              (if negb fresh && (bool_decide (purpose = PFailover) || negb (bool_decide (positions = [])))
               then Some (c_cursor c) else None) st in
  let st := l_set_expect_ids_from
              (match l_role st with Frozen => default 0 (tg_ids_begin target) | Live => 0 end) st in
  let st := l_set_first_result_pending true st in
  let st := l_set_became_owed_at now st in
  let st := l_set_linger_until None st in
  let st := l_set_blockless_checked None st in
  (mkBlocksRequest (br_v1 creq) start end_ (c_credit c) positions (irreversible_only creq)
     (fetch_block creq) (fetch_traces creq) (fetch_deltas creq) (fetch_finality_data creq), st).

(** ** The ring of delivered blocks *)

Section lists.
Context {A : Type} (f : A -> bool).

Lemma drop_while_app l k :
  drop_while f (l ++ k) = match drop_while f l with [] => drop_while f k | r => r ++ k end.
Proof. induction l as [|x l IH]; [done|]. cbn. by destruct (f x). Qed.

Lemma pop_back_while_cons x l :
  pop_back_while f (x :: l) =
  match pop_back_while f l with [] => if f x then [] else [x] | r => x :: r end.
Proof.
  unfold pop_back_while. rewrite reverse_cons, drop_while_app.
  destruct (drop_while f (reverse l)) as [|y r]; [cbn; by destruct (f x)|].
  rewrite reverse_app, reverse_singleton. cbn [app]. destruct (reverse (y :: r)) eqn:E; [|done].
  apply (f_equal length) in E. by rewrite length_reverse in E.
Qed.
End lists.

(** Ascending by block number. *)
Abbreviation ascending := (StronglySorted (fun a b : BlockPos => num a < num b)).

Lemma ascending_app l k :
  ascending (l ++ k) <-> ascending l /\ ascending k /\ forall a b, a ∈ l -> b ∈ k -> num a < num b.
Proof.
  induction l as [|x l IH]; cbn [app].
  { split; [intros H; split_and!; [constructor|done|by intros a b ?%elem_of_nil]|by intros (_ & ? & _)]. }
  split.
  - intros Hs. inversion Hs as [|? ? Hs' Hall]; subst. apply IH in Hs' as (Hl & Hk & Hlk).
    apply Forall_app in Hall as [H1 H2]. rewrite Forall_forall in H2. split_and!; [|done|].
    + by constructor.
    + intros a b Ha Hb. apply elem_of_cons in Ha as [->|Ha]; auto.
  - intros (Hs & Hk & Hlk). inversion Hs as [|? ? Hs' Hall]; subst. constructor.
    + apply IH. split_and!; [done|done|]. intros a b Ha. apply Hlk. by constructor.
    + apply Forall_app. split; [done|]. apply Forall_forall. intros b. apply Hlk. constructor.
Qed.

Lemma ascending_inj l a b : ascending l -> a ∈ l -> b ∈ l -> num a = num b -> a = b.
Proof.
  induction 1 as [|x l Hs IH Hall]; [by intros ?%elem_of_nil|]. rewrite Forall_forall in Hall.
  rewrite !elem_of_cons. intros [->|Ha] [->|Hb] Heq; auto.
  - specialize (Hall b Hb). lia.
  - specialize (Hall a Ha). lia.
Qed.

Lemma ascending_filter P l : ascending l -> ascending (List.filter P l).
Proof.
  induction 1 as [|x l Hs IH Hall]; [constructor|]. cbn. destruct (P x); [|done].
  constructor; [done|]. apply Forall_forall. intros y Hy. apply elem_of_List_filter in Hy as [Hy _].
  rewrite Forall_forall in Hall. auto.
Qed.

Lemma ascending_suffix l k : l `suffix_of` k -> ascending k -> ascending l.
Proof. intros [p ->] (_ & ? & _)%ascending_app. done. Qed.

Lemma filter_below_all n l : Forall (fun p => n <= num p) l -> List.filter (fun p => num p <? n) l = [].
Proof. induction 1; cbn; [done|]. by replace (_ <? _) with false by lia. Qed.

(** Truncation keeps exactly the blocks below. *)
Lemma truncate_filter n buf :
  ascending buf -> Ring.truncate_from n buf = List.filter (fun p => num p <? n) buf.
Proof.
  unfold Ring.truncate_from. induction 1 as [|x l Hs IH Hall]; [done|].
  rewrite pop_back_while_cons, IH. cbn [List.filter].
  destruct (num x <? n) eqn:E; bools.
  - destruct (List.filter _ l); [|done]. by replace (n <=? num x) with false by lia.
  - rewrite filter_below_all; [by replace (n <=? num x) with true by lia|].
    eapply Forall_impl; [exact Hall|]. cbn. intros y ?. lia.
Qed.

Lemma prune_suffix lib buf : Ring.prune lib buf `suffix_of` buf.
Proof.
  induction buf as [|x [|y l] IH]; try done. cbn [Ring.prune]. destruct (_ <=? _); [|done].
  by apply suffix_cons_r.
Qed.

(** Pruning only drops blocks at or below the LIB. *)
Lemma prune_keeps lib buf p : p ∈ buf -> lib < num p -> p ∈ Ring.prune lib buf.
Proof.
  induction buf as [|x [|y l] IH]; try done. intros Hp Hlt. cbn [Ring.prune].
  destruct (num x <=? lib) eqn:E; bools; [|done].
  apply elem_of_cons in Hp as [->|Hp]; [lia|]. by apply IH.
Qed.

Lemma cap_drop buf : Ring.cap buf = drop (length buf - Z.to_nat DELIVERED_CAP) buf.
Proof.
  induction buf as [|x l IH]; [done|]. cbn [Ring.cap]. destruct (_ <? _) eqn:E; bools.
  - rewrite IH. cbn [length] in *. replace (S (length l) - Z.to_nat DELIVERED_CAP)%nat
      with (S (length l - Z.to_nat DELIVERED_CAP)) by lia. done.
  - replace (length (x :: l) - _)%nat with O by lia. done.
Qed.

Lemma cap_suffix buf : Ring.cap buf `suffix_of` buf.
Proof. rewrite cap_drop. exists (take (length buf - Z.to_nat DELIVERED_CAP) buf). by rewrite take_drop. Qed.

Lemma cap_length buf : zlen (Ring.cap buf) <= DELIVERED_CAP.
Proof. rewrite cap_drop, length_drop. assert (0 <= DELIVERED_CAP) by done. lia. Qed.

(** What [push] makes of the ring, before the front is dropped. *)
Definition replaced (p : BlockPos) (buf : list BlockPos) : list BlockPos :=
  List.filter (fun q => num q <? num p) buf ++ [p].

Lemma ascending_replaced p buf : ascending buf -> ascending (replaced p buf).
Proof.
  intros Hs. apply ascending_app. split_and!.
  - by apply ascending_filter.
  - repeat constructor.
  - intros a b [_ Ha]%elem_of_List_filter ->%list_elem_of_singleton. by bools.
Qed.

Lemma push_suffix p lib buf : ascending buf -> Ring.push p lib buf `suffix_of` replaced p buf.
Proof.
  intros Hs. unfold Ring.push. fold (Ring.truncate_from (num p) buf). rewrite truncate_filter by done.
  fold (replaced p buf). etrans; [apply cap_suffix|]. destruct lib; [apply prune_suffix|done].
Qed.

Lemma push_ascending p lib buf : ascending buf -> ascending (Ring.push p lib buf).
Proof. intros Hs. eapply ascending_suffix; [by apply push_suffix|by apply ascending_replaced]. Qed.

Lemma push_length p lib buf : zlen (Ring.push p lib buf) <= DELIVERED_CAP.
Proof. apply cap_length. Qed.

Lemma truncate_ascending n buf : ascending buf -> ascending (Ring.truncate_from n buf).
Proof. intros Hs. rewrite truncate_filter by done. by apply ascending_filter. Qed.

(** *** The search *)

Lemma ascending_lookup l (i j : nat) a b :
  ascending l -> l !! i = Some a -> l !! j = Some b -> (i < j)%nat -> num a < num b.
Proof.
  intros Hs. revert i j. induction Hs as [|x l Hs IH Hall]; [done|]. intros [|i] [|j]; cbn; try lia.
  - intros [= <-] Hj _. rewrite Forall_forall in Hall. apply Hall. by eapply list_elem_of_lookup_2.
  - intros Hi Hj Hij. eapply IH; [done|done|lia].
Qed.

(** The bisection ends at a position no block below [key]'s position is past:
    if [key] is in the slice it is there. *)
Lemma bisect_spec key s fuel base size j p :
  ascending s -> s !! j = Some p -> num p = key ->
  0 <= base -> 1 <= size <= Z.of_nat fuel -> base + size <= zlen s ->
  base <= Z.of_nat j < base + size ->
  Ring.bisect fuel key s base size = Z.of_nat j.
Proof.
  intros Hs Hj Hp. revert base size. induction fuel as [|fuel IH]; intros base size; [lia|].
  intros Hb Hsz Hlen Hin. cbn [Ring.bisect]. destruct (size <=? 1) eqn:E; bools; [lia|].
  pose proof (Z.div_pos size 2 ltac:(lia) ltac:(lia)).
  pose proof (Z.div_lt size 2 ltac:(lia) ltac:(lia)).
  pose proof (Z.mul_div_le size 2 ltac:(lia)).
  assert (1 <= size / 2) by (apply Z.div_le_lower_bound; lia).
  set (half := size / 2) in *. clearbody half.
  destruct (lookup_lt_is_Some_2 s (Z.to_nat (base + half))) as [m Hm]; [lia|].
  unfold nth_get. rewrite (proj2 (Z.leb_le 0 (base + half))) by lia. rewrite Hm.
  assert (num m <= key <-> base + half <= Z.of_nat j) as Hside.
  { subst key. destruct (Z.lt_trichotomy (base + half) (Z.of_nat j)) as [Hlt|[Heq|Hgt]].
    - pose proof (ascending_lookup s _ _ m p Hs Hm Hj ltac:(lia)). lia.
    - assert (Z.to_nat (base + half) = j) as E' by lia. rewrite E' in Hm. simplify_eq. lia.
    - pose proof (ascending_lookup s _ _ p m Hs Hj Hm ltac:(lia)). lia. }
  destruct (Z.compare_spec (num m) key); apply IH; lia.
Qed.

Lemma binary_search_spec key s p :
  ascending s -> Ring.binary_search key s = Some p <-> p ∈ s /\ num p = key.
Proof.
  intros Hs. split.
  - unfold Ring.binary_search. destruct s as [|x s]; [done|].
    destruct (nth_get _ _) as [q|] eqn:E; [|done]. destruct (num q =? key) eqn:E'; [|done].
    intros [= ->]. bools. split; [|done]. unfold nth_get in E.
    destruct (0 <=? _); [by eapply list_elem_of_lookup_2|done].
  - intros [[j Hj]%list_elem_of_lookup_1 Hp].
    assert (Ring.bisect (length s) key s 0 (zlen s) = Z.of_nat j) as Hb.
    { apply (bisect_spec key s _ 0 _ j p); try done; try lia; apply lookup_lt_Some in Hj; lia. }
    unfold Ring.binary_search. rewrite Hb. unfold nth_get.
    rewrite (proj2 (Z.leb_le 0 _)) by lia. rewrite Nat2Z.id, Hj.
    destruct s; [done|]. by rewrite (proj2 (Z.eqb_eq _ _)).
Qed.

Lemma get_spec wrap n buf id :
  ascending buf -> Ring.get wrap n buf = Some id <-> mkPos n id ∈ buf.
Proof.
  intros Hs. assert (ascending (take wrap buf) /\ ascending (drop wrap buf)) as [Ht Hd].
  { rewrite <-(take_drop wrap buf) in Hs. by apply ascending_app in Hs as (? & ? & _). }
  assert (forall s, ascending s -> (exists id', block_id <$> Ring.binary_search n s = Some id'
      /\ forall i, mkPos n i ∈ s <-> i = id')
    \/ block_id <$> Ring.binary_search n s = None /\ forall i, mkPos n i ∉ s) as Hfind.
  { intros s Hss. destruct (Ring.binary_search n s) as [[m i]|] eqn:E.
    - left. apply binary_search_spec in E as [Hin Hm]; [|done]. cbn in Hm. subst m.
      exists i. split; [done|]. intros i'. split; [|by intros ->].
      intros Hi'. by assert (mkPos n i' = mkPos n i) as [=] by (by eapply ascending_inj).
    - right. split; [done|]. intros i Hi.
      assert (Ring.binary_search n s = Some (mkPos n i)) by (by apply binary_search_spec). congruence. }
  rewrite <-(take_drop wrap buf) at 2. rewrite elem_of_app. unfold Ring.get.
  destruct (Hfind _ Ht) as [(i1 & -> & H1)|(-> & H1)]; cbn [or_else].
  - rewrite H1. split; [intros [= ->]; by left|].
    intros [->|Hin]; [done|]. exfalso.
    rewrite <-(take_drop wrap buf) in Hs. apply ascending_app in Hs as (_ & _ & Hlt).
    specialize (Hlt (mkPos n i1) (mkPos n id)). cbn in Hlt. rewrite H1 in Hlt.
    specialize (Hlt eq_refl Hin). lia.
  - destruct (Hfind _ Hd) as [(i2 & -> & H2)|(-> & H2)].
    + rewrite H2. split; [intros [= ->]; by right|]. intros [?%H1|<-]; done.
    + split; [done|]. intros [?%H1|?%H2]; done.
Qed.

(** The ring of delivered blocks: pushing a block keeps it ascending and
    within its cap, keeps exactly a final part of the blocks below the new one
    followed by it, and loses none above the LIB unless the cap is reached; and a
    lookup finds exactly the remembered blocks, wherever the deque wraps. *)
Theorem ring_exact (buf : list BlockPos) (p : BlockPos) (lib : option BlockPos) (wrap : nat)
    (n : Z) (id : list Z) :
  ascending buf ->
  let buf' := Ring.push p lib buf in
  ascending buf' /\ zlen buf' <= DELIVERED_CAP
  /\ buf' `suffix_of` List.filter (fun q => num q <? num p) buf ++ [p]
  /\ (forall q, q ∈ buf -> num q < num p -> is_none_or (fun l => num l <? num q) lib = true ->
        zlen buf < DELIVERED_CAP -> q ∈ buf')
  /\ (Ring.get wrap n buf' = Some id <-> mkPos n id ∈ buf').
Proof.
  intros Hs. cbv zeta. split_and!.
  - by apply push_ascending.
  - apply push_length.
  - by apply push_suffix.
  - intros q Hq Hlt Hlib Hlen. unfold Ring.push. fold (Ring.truncate_from (num p) buf).
    rewrite truncate_filter by done. fold (replaced p buf).
    assert (q ∈ replaced p buf) as Hin.
    { apply elem_of_app. left. apply elem_of_List_filter. split; [done|]. by apply Z.ltb_lt. }
    assert (zlen (replaced p buf) <= DELIVERED_CAP) as Hl.
    { unfold replaced. rewrite length_app. cbn [length].
      pose proof (filter_length (fun q => num q <? num p) buf). lia. }
    rewrite cap_drop. destruct lib as [l|]; cbn in Hlib.
    + pose proof (suffix_length _ _ (prune_suffix (num l) (replaced p buf))).
      replace (_ - _)%nat with O by lia. bools. by apply prune_keeps.
    + by replace (_ - _)%nat with O by lia.
  - by apply get_spec, push_ascending.
Qed.

(** ** Judgements *)

Lemma frozen_check_ok st creq h cls lacks no_block :
  frozen_check st creq h cls lacks = inr no_block ->
  rh_v1 h = br_v1 creq
  /\ (cl_kind cls = KIdLess -> forall n, cl_n cls = Some n -> n < l_expect_ids_from st)
  /\ cl_kind cls <> KKeepAlive /\ cl_kind cls <> KIdLessUncertain
  /\ (cl_kind cls = KBlock -> forall n, cl_n cls = Some n ->
      lacks n <> LacksData /\ (no_block = true <-> lacks n = LacksBlock)).
Proof.
  intros Hf. unfold frozen_check in Hf. destruct (eqb _ _) eqn:Ev; cbn in Hf; [|done].
  apply eqb_prop in Ev. split; [done|].
  destruct (cl_kind cls) eqn:Ek, (cl_n cls) as [n|] eqn:En; try done; split_and!; try done.
  - intros _ n' [= <-]. by destruct (lacks n); simplify_eq; split.
  - intros _ n' [= <-]. destruct (_ <=? n) eqn:E; [done|]. by bools.
Qed.

(** A classified result has a number unless it is a keep-alive, and an id
    exactly when it is a block. *)
Lemma classify_result_spec h cur lr :
  let cls := classify_result h cur lr in
  (forall p, this_block h = Some p -> cls = mkClassified (Some (num p)) true KBlock)
  /\ (this_block h = None -> cl_kind cls <> KBlock)
  /\ (cl_kind cls = KBlock \/ cl_kind cls = KIdLess ->
      exists n, cl_n cls = Some n /\ cl_advance cls = true)
  /\ (cl_kind cls = KKeepAlive \/ cl_kind cls = KIdLessUncertain ->
      cl_n cls = None /\ cl_advance cls = false).
Proof.
  cbv zeta. unfold classify_result. destruct (this_block h) as [p|].
  { split_and!; [by intros ? [= ->]|done|eauto|by intros [[=]|[=]]]. }
  destruct cur as [u|lo hi]; [|split_and!; try done; by intros [[=]|[=]]].
  destruct (_ && _); split_and!; try done; [eauto|by intros [[=]|[=]]|by intros [[=]|[=]]].
Qed.

(** C11: what a frozen upstream may have forwarded: a result is passed on only if
    its version is the request's, it stands for exactly the client's next block,
    the client has credit, it lacks no advertised data, an id is missing only
    below the first block whose id the upstream knows, and the first result of
    a leg does not contradict the block delivered before. *)
Theorem frozen_forward_exact (wrap : nat) (c : ClientSide) (st : LinkState) (creq : BlocksRequest)
    (lr : LinkReq) (h : ResultHead) (lacks : Z -> Lacks) (alternative : Z -> bool) (fw : Forward) :
  l_role st = Frozen -> judge wrap c st creq lr h lacks alternative = JForward fw ->
  rh_v1 h = br_v1 creq
  /\ cl_n (fw_cls fw) = Some (c_cursor c) /\ cl_advance (fw_cls fw) = true
  /\ c_credit c <> 0
  /\ fw_fork fw = false /\ fw_jump fw = false /\ fw_discontinuity fw = false
  /\ match this_block h with
     | Some p => num p = c_cursor c /\ lacks (c_cursor c) <> LacksData
                 /\ (fw_no_block fw = true <-> lacks (c_cursor c) = LacksBlock)
     | None => c_cursor c < l_expect_ids_from st
     end
  /\ (forall last, held_against c st lr = Some last -> breaks h last = false).
Proof.
  intros Hr Hj. unfold judge in Hj. cbv zeta in Hj.
  rewrite (bool_decide_true (l_role st = Frozen)) in Hj by done.
  destruct (classify_result_spec h (l_up_cursor st) lr) as (Hsome & Hnone & Hn & Hk).
  set (cls := classify_result h (l_up_cursor st) lr) in *.
  destruct (frozen_check st creq h cls lacks) as [kind|no_block] eqn:Ef; [done|].
  apply frozen_check_ok in Ef as (Hv & Hid & Hka & Hiu & Hl).
  destruct (cl_n cls) as [n|] eqn:En.
  2: { destruct (cl_kind cls); try done; destruct Hn as (? & ? & _); auto; done. }
  destruct (n <? c_cursor c) eqn:E1; [by destruct (_ && _)|].
  destruct (c_cursor c <? n) eqn:E2; [done|]. bools. assert (n = c_cursor c) as -> by lia.
  cbn [andb negb] in Hj.
  assert (held_against c st lr = None \/ exists last, held_against c st lr = Some last
    /\ breaks h last = false) as Hheld.
  { destruct (held_against c st lr) as [last|]; [|by left].
    destruct (breaks h last) eqn:Eb; [done|]. eauto. }
  assert (fw = mkForward cls false false false false no_block /\ c_credit c <> 0) as [-> Hc].
  { destruct (c_credit c =? 0) eqn:E; bools.
    - repeat case_match; done.
    - split; [|done]. repeat case_match; simplify_eq; done. }
  cbn. split_and!; try done.
  - destruct Hn as (? & ? & ?); [|done]. destruct (cl_kind cls); auto; done.
  - destruct (this_block h) as [p|] eqn:Et.
    + rewrite (Hsome p eq_refl) in *. cbn in En, Hl. simplify_eq. split; [done|].
      apply Hl; done.
    + apply Hid; [|done]. specialize (Hnone eq_refl). by destruct (cl_kind cls).
  - intros last Hlast. destruct Hheld as [?|(last' & ? & ?)]; congruence.
Qed.

(** ** Requests *)

Lemma filter_reverse {A} (f : A -> bool) l : List.filter f (reverse l) = reverse (List.filter f l).
Proof.
  induction l as [|x l IH]; [done|]. rewrite reverse_cons, List.filter_app, IH. cbn [List.filter].
  destruct (f x); [by rewrite reverse_cons|by rewrite app_nil_r].
Qed.

(** The tail is the newest part of the window. *)
Lemma reversible_tail_spec lib below max buf :
  let window := List.filter (fun p => (lib <? num p) && (num p <? below)) buf in
  Ring.reversible_tail lib below max buf = drop (length window - Z.to_nat max) window.
Proof.
  cbv zeta. unfold Ring.reversible_tail. rewrite filter_reverse, take_reverse, reverse_involutive. done.
Qed.

Lemma min_below_spec start l :
  match min_list (List.filter (fun n => n <? start) (map num l)) with
  | Some lo => lo < start /\ (exists p, p ∈ l /\ num p = lo)
               /\ forall p, p ∈ l -> lo <= num p \/ start <= num p
  | None => forall p, p ∈ l -> start <= num p
  end.
Proof.
  destruct (min_list _) as [lo|] eqn:E.
  - apply min_list_some in E as [Hin Hmin]. apply elem_of_List_filter in Hin as [Hin Hlt]. bools.
    apply list_elem_of_fmap in Hin as (p & -> & Hp). split_and!; [done|eauto|].
    intros q Hq. destruct (decide (num q < start)) as [Hlt'|]; [left|right; lia].
    apply Hmin, elem_of_List_filter. split; [by apply list_elem_of_fmap_2|]. by apply Z.ltb_lt.
  - apply min_list_none in E. intros p Hp. destruct (decide (start <= num p)) as [|Hlt]; [done|].
    assert (num p ∈ List.filter (fun n => n <? start) (map num l)) as Hin.
    { apply elem_of_List_filter. split; [by apply list_elem_of_fmap_2|]. apply Z.ltb_lt. lia. }
    rewrite E in Hin. by apply elem_of_nil in Hin.
Qed.

(** The version and flags of a request. *)
Definition shape_flags (r : BlocksRequest) : bool * bool * bool * bool * bool * bool :=
  (br_v1 r, irreversible_only r, fetch_block r, fetch_traces r, fetch_deltas r,
   fetch_finality_data r).

(** C12: a resume asks for exactly what follows: once something of the request
    was delivered, the request sent to any link starts at the client's cursor,
    carries the client's credit and flags, and none but the newest reversible
    blocks the client has (none to a frozen upstream or for irreversible-only
    streams); the upstream's cursor is taken as the start exactly when no
    position was sent, else as unknown between the lowest position and the
    start; and the de-dup window opens at the client's cursor after a failover
    or when positions were sent. *)
Theorem resume_exact (c : ClientSide) (creq : BlocksRequest) (st : LinkState) (end_ : Z)
    (purpose : Purpose) (target : Target) (now : Z) :
  ascending (c_delivered c) -> c_delivered_for_request c <> 0 ->
  let '(req, st') := build_request c creq st end_ purpose target now in
  br_start req = c_cursor c /\ br_end req = end_ /\ max_in_flight req = c_credit c
  /\ shape_flags req = shape_flags creq
  /\ l_req st' = Some (mkLinkReq (c_cursor c) end_ (end_ <? br_end creq) (irreversible_only creq)
                         purpose now)
  /\ ascending (have_positions req) /\ zlen (have_positions req) <= RESUME_POSITIONS
  /\ (exists older, List.filter (fun p => (map_or 0 num (c_lib_sent c) <? num p)
                                          && (num p <? c_cursor c)) (c_delivered c)
        = older ++ have_positions req
        /\ (l_role st = Live -> irreversible_only creq = false ->
            zlen (have_positions req) < RESUME_POSITIONS -> older = []))
  /\ (l_role st = Frozen -> have_positions req = [])
  /\ match have_positions req with
     | [] => l_up_cursor st' = Exact (c_cursor c)
     | lowest :: _ => l_up_cursor st' = Uncertain (num lowest) (c_cursor c)
     end
  /\ l_resume_floor st' = (if bool_decide (purpose = PFailover)
                              || negb (bool_decide (have_positions req = []))
                           then Some (c_cursor c) else None).
Proof.
  intros Hs Hd. unfold build_request. rewrite (proj2 (Z.eqb_neq _ _)) by done. cbv zeta.
  set (window := List.filter (fun p => (map_or 0 num (c_lib_sent c) <? num p) && (num p <? c_cursor c))
    (c_delivered c)).
  set (positions := positions_for c creq (l_role st) false (c_cursor c) target).
  assert (exists older, window = older ++ positions
    /\ zlen positions <= RESUME_POSITIONS
    /\ (l_role st = Live -> irreversible_only creq = false ->
        zlen positions < RESUME_POSITIONS -> older = [])
    /\ (l_role st = Frozen -> positions = [])) as (older & Hw & Hlen & Hold & Hfrozen).
  { subst positions. unfold positions_for. assert (0 <= RESUME_POSITIONS) by done.
    destruct (l_role st); [destruct (irreversible_only creq)|].
    1,3: exists window; rewrite app_nil_r; split_and!; done.
    rewrite reversible_tail_spec. fold window.
    exists (take (length window - Z.to_nat RESUME_POSITIONS) window). rewrite take_drop.
    rewrite length_drop. split_and!; [done|lia| |done].
    intros _ _ Hlt. replace (length window - _)%nat with O by lia. done. }
  assert (ascending window) as Hwa by (by apply ascending_filter).
  assert (ascending positions) as Hpa by (by rewrite Hw in Hwa; apply ascending_app in Hwa as (_ & ? & _)).
  assert (forall p, p ∈ positions -> num p < c_cursor c) as Hbelow.
  { intros p Hp. assert (p ∈ window) as [_ Hin]%elem_of_List_filter
      by (rewrite Hw; apply elem_of_app; by right). by bools. }
  pose proof (min_below_spec (c_cursor c) positions) as Hmin.
  clearbody positions window. cbn [br_start br_end max_in_flight have_positions l_req l_up_cursor
    l_resume_floor negb andb]. split_and!; try done.
  - by exists older.
  - destruct positions as [|lowest rest]; [done|]. cbn [l_up_cursor] in *.
    destruct (min_list _) as [lo|].
    + destruct Hmin as (Hlt & (p & Hp & <-) & Hle). f_equal.
      inversion Hpa as [|? ? _ Hall]; subst. rewrite Forall_forall in Hall.
      pose proof (Hle lowest ltac:(constructor)). pose proof (Hbelow lowest ltac:(constructor)).
      apply elem_of_cons in Hp as [->|Hp]; [done|]. specialize (Hall p Hp). lia.
    + pose proof (Hmin lowest ltac:(constructor)). pose proof (Hbelow lowest ltac:(constructor)). lia.
Qed.

(** ** The head and LIB shown *)

(** What a client has been shown: both or neither, the LIB not above the head,
    and as the types bound them. *)
Definition shown_ok (c : ClientSide) : Prop :=
  match c_head_sent c, c_lib_sent c with
  | Some h, Some l => num l <= num h /\ pos_ok h /\ pos_ok l
  | None, None => True
  | _, _ => False
  end.

(** The pair a client is shown after [c], for a proposed head and LIB. *)
Definition shown_after (c : ClientSide) (head lib : BlockPos) : BlockPos * BlockPos :=
  let h := mono head (c_head_sent c) in
  let l := mono lib (c_lib_sent c) in
  (h, if num h <? num l then h else l).

Lemma mono_ok x sent : pos_ok x -> (forall s, sent = Some s -> pos_ok s) -> pos_ok (mono x sent).
Proof. intros Hx Hs. unfold mono. destruct sent as [s|]; [|done]. destruct (_ <? _); auto. Qed.

Lemma mono_ge x sent : num x <= num (mono x sent) /\ pos_le sent (Some (mono x sent)).
Proof.
  unfold mono. destruct sent as [s|]; [|split; [lia|by intros ? [=]]].
  destruct (_ <? _) eqn:E; bools; (split; [lia|]); intros ? [= <-]; eauto with lia.
Qed.

Lemma shown_after_spec c head lib :
  shown_ok c -> pos_ok head -> pos_ok lib ->
  let '(h, l) := shown_after c head lib in
  num l <= num h /\ pos_ok h /\ pos_ok l
  /\ pos_le (c_head_sent c) (Some h) /\ pos_le (c_lib_sent c) (Some l)
  /\ num head <= num h.
Proof.
  intros Hc Hh Hl. unfold shown_after. unfold shown_ok in Hc.
  destruct (mono_ge head (c_head_sent c)) as [Hm Hmh]. destruct (mono_ge lib (c_lib_sent c)) as [_ Hml].
  assert (pos_ok (mono head (c_head_sent c)) /\ pos_ok (mono lib (c_lib_sent c))) as [Ho1 Ho2].
  { split; apply mono_ok; try done; intros s Hs;
      destruct (c_head_sent c), (c_lib_sent c); simplify_eq; tauto. }
  destruct (_ <? _) eqn:E; bools; split_and!; try done; try lia.
  intros s Hs. rewrite Hs in Hc. destruct (c_head_sent c) as [hs|]; [|done].
  destruct Hc as (Hle & _). destruct (Hmh hs eq_refl) as (y & Hy & ?). exists y. split; [done|lia].
Qed.

(** The pair [head_lib_for] starts from: the fleet's for a frozen frame. *)
Definition proposed (role : Role) (head lib : BlockPos) (fleet : option (BlockPos * BlockPos))
  : BlockPos * BlockPos :=
  match role, fleet with Frozen, Some (fh, fl) => (fh, fl) | _, _ => (head, lib) end.

Lemma head_lib_for_shown role head lib fleet patch c :
  let '(h, l) := shown_after c (proposed role head lib fleet).1 (proposed role head lib fleet).2 in
  head_lib_for role head lib fleet patch c
  = (if patch && (negb (bool_decide (h = head)) || negb (bool_decide (l = lib)))
     then Some (h, l) else None,
     c_set_lib_sent (Some l) (c_set_head_sent (Some h) c)).
Proof. unfold head_lib_for, shown_after, proposed. by destruct role, fleet as [[fh fl]|]. Qed.

(** ** Witnesses *)

Lemma ring_exact_witness :
  Ring.get 1 8 (Ring.push (sample_pos 9) (Some (sample_pos 7)) [sample_pos 6; sample_pos 7; sample_pos 8; sample_pos 9])
  = Some (repeat 7 32).
Proof.
  apply (ring_exact [sample_pos 6; sample_pos 7; sample_pos 8; sample_pos 9] (sample_pos 9)
    (Some (sample_pos 7)) 1 8 (repeat 7 32)).
  - repeat constructor; vm_compute; reflexivity.
  - vm_compute. repeat constructor.
Defined.

(** A session at block 500 with credit 5, served by a frozen link. *)
Definition sample_client : ClientSide :=
  mkClient (Some sample_request) 5 500 3 (Some (sample_pos 1000)) (Some (sample_pos 990))
    [sample_pos 498; sample_pos 499] (Some 499) (Some (sample_pos 499)) 0.
Definition sample_link_req : LinkReq := mkLinkReq 100 u32_max false false PFailover 0.
Definition sample_link (role : Role) : LinkState :=
  l_set_up_cursor (Exact 500) (l_set_req (Some sample_link_req) (new_link_state 0 role 0)).

Lemma frozen_forward_exact_witness :
  c_cursor sample_client = 500
  /\ cl_n (fw_cls (mkForward (mkClassified (Some 500) true KBlock) false false false false false))
     = Some (c_cursor sample_client).
Proof.
  split; [reflexivity|].
  apply (frozen_forward_exact 0 sample_client (sample_link Frozen)
    (mkBlocksRequest false 100 u32_max 50 [] false true false true true)
    sample_link_req sample_head (fun _ => LacksNothing) (fun _ => true)).
  - reflexivity.
  - vm_compute. reflexivity.
Defined.

Lemma resume_exact_witness :
  br_start (build_request
    (c_set_delivered [sample_pos 998; sample_pos 999] sample_client) sample_request (sample_link Live)
    u32_max PFailover (mkTarget RPool None) 0).1 = 500.
Proof.
  pose proof (resume_exact (c_set_delivered [sample_pos 998; sample_pos 999] sample_client)
    sample_request (sample_link Live) u32_max PFailover (mkTarget RPool None) 0) as H.
  destruct (build_request _ _ _ _ _ _ _) as [req st'].
  apply H; [repeat constructor; vm_compute; reflexivity|vm_compute; discriminate].
Defined.
