(* ===== verification/Status.v ===== *)
(** * Status replies

    Models [src/src/session/status.rs]: the queue of a session's status requests
    ([StatusFlow]) and the reply the router encodes from its fleet view.

    The theorems: over any sequence of requests, router replies, relayed replies
    and link ends, requests are answered in the order they came, none is lost or
    answered twice, and a request only waits while nothing can be done for it;
    the encoded reply is a status result of the version asked whose head and LIB
    are the ones the session now counts as sent, never below those sent before. *)

From S2P Require Import Prelude Wire Models Coverage View Failover Link Client.

Definition MAX_QUEUED_STATUS : Z := 1024.
Definition STATUS_V0_NO_CHAIN_ID : Z := STATUS_V0_LEN - 32.

Inductive StatusStep := SReply (v1 : bool) | SRelay (v1 : bool).

Record StatusFlow := mkFlow { hold : list bool; backlog : list bool; deadline : option Z }.

Definition new_flow : StatusFlow := mkFlow [] [] None.

(** [Option::get_or_insert]. *)
Definition get_or_insert (o : option Z) (v : Z) : option Z := Some (default v o).

Definition push (v1 : bool) (now wait : Z) (f : StatusFlow) : bool * StatusFlow :=
  if MAX_QUEUED_STATUS <=? zlen (hold f) + zlen (backlog f) then (false, f)
  else (true, mkFlow (hold f ++ [v1]) (backlog f) (get_or_insert (deadline f) (now + wait))).

Definition next (ready can_relay : bool) (f : StatusFlow) : option StatusStep * StatusFlow :=
  match hold f with
  | [] => (None, mkFlow [] (backlog f) None)
  | v1 :: rest =>
      let deadline' := match rest with [] => None | _ => deadline f end in
      if negb (bool_decide (backlog f = [])) || negb ready then
        if negb can_relay then (None, f)
        else (Some (SRelay v1), mkFlow rest (backlog f ++ [v1]) deadline')
      else (Some (SReply v1), mkFlow rest (backlog f) deadline')
  end.

Definition reply_arrived (f : StatusFlow) : option bool * StatusFlow :=
  match backlog f with
  | [] => (None, f)
  | v1 :: rest => (Some v1, mkFlow (hold f) rest (deadline f))
  end.

(** The loop of [link_ended]: the backlog is taken from its end. *)
Fixpoint requeue (rev_backlog hold : list bool) : list bool :=
  match rev_backlog with
  | [] => hold
  | v1 :: rest => requeue rest (v1 :: hold)
  end.

Definition link_ended (now wait : Z) (f : StatusFlow) : StatusFlow :=
  let hold' := requeue (reverse (backlog f)) (hold f) in
  mkFlow hold' []
    (match hold' with [] => deadline f | _ => get_or_insert (deadline f) (now + wait) end).

Definition waiting (f : StatusFlow) : bool := negb (bool_decide (hold f = [])).

Definition status_ready (view : FleetView) (tip : option BlockPos * option BlockPos) : bool :=
  is_some tip.1 && is_some tip.2
  && (bool_decide (v_topology view = RPool) || (v_frozen_unknown view =? 0)).

Definition status_range (cov : LogCoverage) (head : Z) : Range :=
  let range := top cov in
  if negb (range_is_empty range) && is_some_and (fun b => b <=? rend range) (live_tail_begin cov)
  then mkRange (rbegin range) (Z.max (rend range) (sat_add u32_max head 1))
  else range.

Record RouterStatus := mkRouterStatus { rs_bytes : list Z; rs_zero_chain_id : bool }.

(** The body of a reply. *)
Definition status_body (view : FleetView) (head lib : BlockPos) : StatusBody :=
  mkStatusBody head lib (status_range (v_trace view) (num head))
    (status_range (v_chain_state view) (num head)) (status_range (v_finality view) (num head))
    (default (repeat 0 32) (v_chain_id view)).

Definition router_status (view : FleetView) (tip : option BlockPos * option BlockPos) (v1 : bool)
    (c : ClientSide) : option RouterStatus * ClientSide :=
  match tip with
  | (Some head, Some lib) =>
      let head := mono head (c_head_sent c) in
      let lib := mono lib (c_lib_sent c) in
      let lib := if num head <? num lib then head else lib in
      let c := c_set_head_sent (Some head) c in
      let c := c_set_lib_sent (Some lib) c in
      let bytes := encode_status v1 (status_body view head lib) in
      let missing := is_none (v_chain_id view) in
      let bytes := if missing && negb v1 then take (Z.to_nat STATUS_V0_NO_CHAIN_ID) bytes else bytes in
      (Some (mkRouterStatus bytes (missing && v1)), c)
  | _ => (None, c)
  end.

(** ** The queue keeps order *)

Inductive FlowEvent :=
| FPush (v1 : bool) (now wait : Z)
| FNext (ready can_relay : bool)
| FReplyArrived
| FLinkEnded (now wait : Z).

(** The flow, the requests accepted and the versions answered, oldest first. *)
Record FlowTrace := mkTrace { ft_flow : StatusFlow; ft_asked : list bool; ft_answered : list bool }.

Definition flow_step (t : FlowTrace) (e : FlowEvent) : FlowTrace :=
  match e with
  | FPush v1 now wait =>
      let '(ok, f) := push v1 now wait (ft_flow t) in
      mkTrace f (if ok : bool then ft_asked t ++ [v1] else ft_asked t) (ft_answered t)
  | FNext ready can_relay =>
      let '(s, f) := next ready can_relay (ft_flow t) in
      mkTrace f (ft_asked t)
        (match s with Some (SReply v1) => ft_answered t ++ [v1] | _ => ft_answered t end)
  | FReplyArrived =>
      let '(v, f) := reply_arrived (ft_flow t) in
      mkTrace f (ft_asked t) (match v with Some v1 => ft_answered t ++ [v1] | None => ft_answered t end)
  | FLinkEnded now wait => mkTrace (link_ended now wait (ft_flow t)) (ft_asked t) (ft_answered t)
  end.

Definition flow_run (events : list FlowEvent) : FlowTrace :=
  foldl flow_step (mkTrace new_flow [] []) events.

Lemma requeue_spec l hold : requeue (reverse l) hold = l ++ hold.
Proof.
  revert hold. induction l as [|x l IH] using rev_ind; intros hold; [done|].
  rewrite reverse_app. cbn. by rewrite IH, <-app_assoc.
Qed.

Definition flow_ok (t : FlowTrace) : Prop :=
  let f := ft_flow t in
  ft_asked t = ft_answered t ++ backlog f ++ hold f
  /\ zlen (hold f) + zlen (backlog f) <= MAX_QUEUED_STATUS
  /\ (is_some (deadline f) = waiting f).

Lemma flow_step_ok t e : flow_ok t -> flow_ok (flow_step t e).
Proof.
  destruct t as [[h b d] asked answered]. unfold flow_ok, waiting. cbn [ft_flow ft_asked ft_answered
    hold backlog deadline]. intros (-> & Hlen & Hd). destruct e as [v1 now wait|ready can|  |now wait].
  - unfold flow_step, push. cbn [ft_flow ft_asked ft_answered hold backlog deadline].
    destruct (_ <=? _) eqn:E; bools; [by split_and!|].
    cbn [ft_flow ft_asked ft_answered hold backlog deadline].
    rewrite !length_app in *. cbn [length]. split_and!; [by rewrite <-!app_assoc|lia|].
    rewrite bool_decide_false; [done|]. by destruct h.
  - cbn. destruct h as [|v1 rest]; cbn; [by split_and!|]. cbn [length] in Hlen.
    destruct (_ || _) eqn:E.
    + destruct can; cbn; [|by split_and!]. rewrite length_app. cbn [length].
      split_and!; [by rewrite <-!app_assoc|lia|]. by destruct rest.
    + apply orb_false_iff in E as [E _]. apply negb_false_iff, bool_decide_eq_true in E as ->.
      cbn in *. split_and!; [by rewrite <-!app_assoc|lia|]. by destruct rest.
  - cbn. destruct b as [|v1 rest]; cbn; [by split_and!|]. cbn [length] in *.
    split_and!; [by rewrite <-!app_assoc|lia|done].
  - unfold flow_step, link_ended. cbn [ft_flow ft_asked ft_answered hold backlog deadline].
    rewrite requeue_spec, length_app. cbn [length app]. split_and!; [done|lia|].
    destruct (b ++ h) as [|x l] eqn:El; [|done]. apply app_eq_nil in El as [-> ->]. done.
Qed.

Lemma flow_run_ok events : flow_ok (flow_run events).
Proof.
  unfold flow_run. assert (flow_ok (mkTrace new_flow [] [])) as H by done. revert H.
  generalize (mkTrace new_flow [] []). induction events as [|e events IH]; intros t Ht; [done|].
  cbn [foldl]. by apply IH, flow_step_ok.
Qed.

(** Status requests are answered in order: after any sequence of requests,
    steps, upstream replies and link ends, the requests accepted so far are the
    ones answered, then the ones relayed and outstanding, then the ones waiting;
    no more than [MAX_QUEUED_STATUS] are outstanding; a deadline runs exactly
    while one waits; and [next] does nothing only when none waits, or when it may
    not relay and the router cannot answer or earlier ones are still out. *)
Theorem status_in_order (events : list FlowEvent) (ready can_relay : bool) :
  let t := flow_run events in
  let f := ft_flow t in
  ft_asked t = ft_answered t ++ backlog f ++ hold f
  /\ zlen (hold f) + zlen (backlog f) <= MAX_QUEUED_STATUS
  /\ is_some (deadline f) = waiting f
  /\ ((next ready can_relay f).1 = None <->
      waiting f = false \/ can_relay = false /\ (ready = false \/ backlog f <> [])).
Proof.
  cbv zeta. destruct (flow_run_ok events) as (H1 & H2 & H3). split_and!; [done..|].
  unfold next, waiting. destruct (hold (ft_flow (flow_run events))) as [|v1 rest]; cbn; [naive_solver|].
  case_bool_decide as Hb; destruct ready, can_relay; cbn; naive_solver.
Qed.

(** ** The reply the router encodes *)

(** What follows the two positions in a reply. *)
Definition status_rest (v1 : bool) (s : StatusBody) : list Z :=
  le_bytes 4 (rbegin (sb_trace s)) ++ le_bytes 4 (rend (sb_trace s))
  ++ le_bytes 4 (rbegin (sb_chain_state s)) ++ le_bytes 4 (rend (sb_chain_state s))
  ++ sb_chain_id s
  ++ (if v1 then le_bytes 4 (rbegin (sb_finality s)) ++ le_bytes 4 (rend (sb_finality s)) else []).

Lemma encode_status_flat v1 s :
  encode_status v1 s =
  [if v1 then RES_STATUS_V1 else RES_STATUS_V0]
  ++ pos_bytes (sb_head s) ++ pos_bytes (sb_lib s) ++ status_rest v1 s.
Proof.
  unfold encode_status, put_pos, put_u32, status_rest, pos_bytes.
  destruct v1; rewrite ?app_nil_r, <-!app_assoc; reflexivity.
Qed.

Lemma status_rest_length v1 s :
  length (sb_chain_id s) = 32%nat -> length (status_rest v1 s) = if v1 then 56%nat else 48%nat.
Proof.
  intros Hc. unfold status_rest. rewrite !length_app, !length_le_bytes, Hc.
  destruct v1; rewrite ?length_app, ?length_le_bytes; done.
Qed.

(** The length of a reply. *)
Definition reply_len (v1 missing : bool) : Z :=
  if v1 then STATUS_V1_LEN else if missing then STATUS_V0_NO_CHAIN_ID else STATUS_V0_LEN.

Lemma status_bytes_spec v1 missing s (bytes : list Z) :
  pos_ok (sb_head s) -> pos_ok (sb_lib s) -> length (sb_chain_id s) = 32%nat ->
  bytes = (if missing && negb v1 then take (Z.to_nat STATUS_V0_NO_CHAIN_ID) (encode_status v1 s)
           else encode_status v1 s) ->
  zlen bytes = reply_len v1 missing /\ classify_upstream bytes = UStatus v1
  /\ read_head_lib bytes = Some (sb_head s, sb_lib s).
Proof.
  intros Hh Hl Hc ->. rewrite encode_status_flat.
  pose proof (status_rest_length v1 s Hc) as Hr.
  pose proof (pos_bytes_length _ Hh) as Hh36. pose proof (pos_bytes_length _ Hl) as Hl36.
  assert (exists post, (if missing && negb v1
      then take (Z.to_nat STATUS_V0_NO_CHAIN_ID)
        ([if v1 then RES_STATUS_V1 else RES_STATUS_V0]
         ++ pos_bytes (sb_head s) ++ pos_bytes (sb_lib s) ++ status_rest v1 s)
      else [if v1 then RES_STATUS_V1 else RES_STATUS_V0]
         ++ pos_bytes (sb_head s) ++ pos_bytes (sb_lib s) ++ status_rest v1 s)
    = [if v1 then RES_STATUS_V1 else RES_STATUS_V0]
      ++ pos_bytes (sb_head s) ++ pos_bytes (sb_lib s) ++ post
    /\ 73 + zlen post = reply_len v1 missing) as (post & -> & Hpost).
  { destruct v1, missing; cbn [negb andb]; try (eexists; split; [reflexivity|rewrite Hr; done]).
    exists (take 16 (status_rest false s)). rewrite length_take, Hr.
    split; [|done]. change (Z.to_nat STATUS_V0_NO_CHAIN_ID) with 89%nat.
    rewrite (app_assoc _ (pos_bytes (sb_head s))), (app_assoc _ (pos_bytes (sb_lib s))).
    rewrite take_app_ge by (zlens; lia). rewrite <-!app_assoc. do 4 f_equal. zlens. lia. }
  assert (zlen ([if v1 then RES_STATUS_V1 else RES_STATUS_V0]
    ++ pos_bytes (sb_head s) ++ pos_bytes (sb_lib s) ++ post) = reply_len v1 missing) as Hlen.
  { zlens. lia. }
  split_and!; [done| |].
  - unfold classify_upstream. cbn [app] in *. rewrite Hlen. by destruct v1, missing.
  - apply read_head_lib_flat; [done|done|]. rewrite Hlen. by destruct v1, missing.
Qed.

(** A reply of the router: it exists exactly when the tip is known; it is a
    status result of the version asked, of the exact length (without [chain_id]
    for v0 when none is known); the head and LIB in it are the ones the session
    now counts as sent, neither below what it sent before, the LIB not above the
    head, the head not below the fleet's; and its ranges end above the head for
    a log with a live upstream in its top component. *)
Theorem router_status_exact (view : FleetView) (tip : option BlockPos * option BlockPos) (v1 : bool)
    (c : ClientSide) :
  shown_ok c -> (forall p, tip.1 = Some p \/ tip.2 = Some p -> pos_ok p) ->
  (forall id, v_chain_id view = Some id -> length id = 32%nat) ->
  match router_status view tip v1 c with
  | (None, c') => c' = c /\ (tip.1 = None \/ tip.2 = None)
  | (Some r, c') =>
      exists head lib, c_head_sent c' = Some head /\ c_lib_sent c' = Some lib
      /\ zlen (rs_bytes r) = reply_len v1 (is_none (v_chain_id view))
      /\ classify_upstream (rs_bytes r) = UStatus v1
      /\ read_head_lib (rs_bytes r) = Some (head, lib)
      /\ shown_ok c' /\ pos_le (c_head_sent c) (Some head) /\ pos_le (c_lib_sent c) (Some lib)
      /\ pos_le tip.1 (Some head)
      /\ (forall log, range_is_empty (top (cov view log)) = false ->
            is_some_and (fun b => b <=? rend (top (cov view log)))
              (live_tail_begin (cov view log)) = true ->
            num head < u32_max ->
            num head < rend (status_range (cov view log) (num head)))
  end.
Proof.
  intros Hc Htip Hid. unfold router_status. destruct tip as [[th|] [tl|]]; cbn [fst snd] in *; try tauto.
  pose proof (shown_after_spec c th tl Hc (Htip th (or_introl eq_refl)) (Htip tl (or_intror eq_refl)))
    as Hs. unfold shown_after in Hs.
  set (head := mono th (c_head_sent c)) in *.
  set (lib := if num head <? num (mono tl (c_lib_sent c)) then head else mono tl (c_lib_sent c)) in *.
  destruct Hs as (Hle & Hho & Hlo & Hmh & Hml & Hge). clearbody head lib.
  assert (length (sb_chain_id (status_body view head lib)) = 32%nat) as Hcid.
  { cbn. destruct (v_chain_id view); [by apply Hid|done]. }
  destruct (status_bytes_spec v1 (is_none (v_chain_id view)) (status_body view head lib) _
    Hho Hlo Hcid eq_refl) as (H1 & H2 & H3).
  exists head, lib. cbn [rs_bytes c_head_sent c_lib_sent]. split_and!; try done.
  - intros ? [= <-]. eauto.
  - intros log He Hb Hlt. unfold status_range. rewrite He, Hb. cbn. unfold sat_add. lia.
Qed.

(** ** Witnesses *)

Lemma router_status_exact_witness :
  exists r, (router_status (empty_view RPool None) (Some (sample_pos 100), Some (sample_pos 90)) false
    new_client).1 = Some r /\ read_head_lib (rs_bytes r) = Some (sample_pos 100, sample_pos 90).
Proof.
  pose proof (router_status_exact (empty_view RPool None) (Some (sample_pos 100), Some (sample_pos 90))
    false new_client) as H.
  destruct (router_status _ _ _ _) as [[r|] c'] eqn:E.
  - exists r. split; [reflexivity|].
    destruct H as (h & l & Hh & Hl & _ & _ & Hr & _); [exact I| |discriminate|].
    + intros p [[= <-]|[= <-]]; apply sample_pos_ok; mlia.
    + rewrite Hr. vm_compute in E. injection E as <- <-. injection Hh as <-. injection Hl as <-. reflexivity.
  - discriminate E.
Defined.
