(* ===== verification/Stream.v ===== *)
(** * The stream a client gets

    Models the handlers of [src/src/session/mod.rs] that turn an upstream result
    into what the client is sent and what the session remembers: the check of a
    frozen result's fields, the missing [prev_block], the head and LIB, the
    commit, the replay that is dropped, and the client's acks.  Counters,
    metrics and log lines are left out; a write that fails ends the session or
    the link and is not modelled.

    The theorems are about every state a session can reach: where heads are
    patched, the head and LIB in the messages a client gets never go back; a
    dropped replay is one it has (without an id, one below its cursor); the frame
    it gets differs from the upstream's in the head, the LIB and a missing
    [prev_block] only, and the credit of a conforming upstream stays in step with the
    client's, so it is never charged with a violation it did not commit. *)

From S2P Require Import Prelude Wire Models Coverage View Planner Failover Link Client Status.

(** ** Handlers *)

(** [lacks]: what a frozen result lacks of what its upstream advertises. *)
Definition lacks (u : option UpstreamView) (creq : BlocksRequest) (frame : list Z)
    (h : ResultHead) (n : Z) : Lacks :=
  match u with
  | None => LacksNothing
  | Some u =>
      match result_presence frame h with
      | Err _ => LacksData
      | Ok p =>
          if (fetch_traces creq && u_covers u Trace n && negb (p_traces p))
             || (fetch_deltas creq && u_covers u ChainState n && negb (p_deltas p))
             || (br_v1 creq && fetch_finality_data creq && u_covers u Finality n
                 && negb (p_finality p))
          then LacksData
          else if fetch_block creq && covers_ids u n && negb (p_block p) then LacksBlock
          else LacksNothing
      end
  end.

Definition fill_prev_block (c : ClientSide) (frame : list Z) (h : ResultHead) : list Z :=
  match this_block h, prev_block h, last_irreversible c with
  | Some this, None, Some last =>
      if (num this <=? 1) || negb (bool_decide (checked_add u32_max (num last) 1 = Some (num this)))
      then frame
      else match insert_prev_block frame h last with Some (filled, _) => filled | None => frame end
  | _, _, _ => frame
  end.

(** [apply_head_lib]; [fleet] is the fresh tip of the fleet, read for a frozen
    frame. *)
Definition apply_head_lib (topology : ResolvedTopology) (stitching : StitchingPolicy)
    (fleet : option BlockPos * option BlockPos) (up : Z) (role : Role) (frame : list Z)
    (head lib : BlockPos) (c : ClientSide) (tips : list ObservedTip)
  : list Z * ClientSide * list ObservedTip :=
  let tips := if bool_decide (role = Live) then alter (observe head lib) (Z.to_nat up) tips else tips in
  let patch := bool_decide (topology = RPool) || patch_head_lib_flag stitching in
  let fleet :=
    match role, fleet with
    | Frozen, (Some h, Some l) => Some (h, l)
    | _, _ => None
    end in
  let '(out, c) := head_lib_for role head lib fleet patch c in
  (match out with Some (head, lib) => patch_head_lib frame head lib | None => frame end, c, tips).

(** [forward_result] up to the commit: the bytes the client is sent, and the
    session after it. *)
Definition forward_result (topology : ResolvedTopology) (stitching : StitchingPolicy)
    (fleet : option BlockPos * option BlockPos) (now : Z) (frame : list Z) (h : ResultHead)
    (fw : Forward) (c : ClientSide) (st : LinkState) (tips : list ObservedTip)
  : list Z * ClientSide * LinkState * list ObservedTip :=
  let '(_, c) := charge c in
  let frame := match l_role st with Frozen => fill_prev_block c frame h | Live => frame end in
  let '(out, c, tips) :=
    apply_head_lib topology stitching fleet (l_up st) (l_role st) frame (rh_head h) (rh_lib h) c tips in
  let '(c, st) := commit h fw c st in
  (out, c, l_set_became_owed_at now st, tips).

(** What [forward_result] does with the upstreams left at a seam for not
    continuing the last block: a discontinuity forwarded after all makes them
    usable again, any other result forgets them. *)
Definition seam_after_result (fw : Forward) (ex : Excludes) (seam_excluded : list string)
  : Excludes * list string :=
  (if fw_discontinuity fw
   then mkExcludes (ex_soft ex)
          (List.filter (fun eu : string * Z => negb (existsb (String.eqb eu.1) seam_excluded)) (ex_hard ex))
   else ex, []).

(** [on_discontinuity], after the link end: the upstream is remembered while it
    is excluded. *)
Definition seam_after_discontinuity (endpoint : string) (now : Z) (ex : Excludes)
    (seam_excluded : list string) : list string :=
  if hard_active ex endpoint now && negb (existsb (String.eqb endpoint) seam_excluded)
  then seam_excluded ++ [endpoint] else seam_excluded.

(** [drop_duplicate]: the link after a dropped replay; its upstream is acked 1. *)
Definition drop_duplicate (advance_to : option Z) (now : Z) (st : LinkState) : Z * LinkState :=
  let st := match advance_to with Some next => l_set_up_cursor (Exact next) st | None => st end in
  (1, l_set_became_owed_at now st).

(** [on_client_ack]: the ack sent to the link's upstream, if any. *)
Definition on_client_ack (n : Z) (link : option LinkState) (c : ClientSide) : option Z * ClientSide :=
  let '(raised, c) := ack n c in
  (if raised =? 0 then None
   else match link with
        | Some st => if is_some (l_req st) then Some raised else None
        | None => None
        end, c).

(** [on_status_reply]: a relayed status result gets the same head and LIB. *)
Definition on_status_reply (topology : ResolvedTopology) (stitching : StitchingPolicy) (up : Z)
    (frame : list Z) (c : ClientSide) (tips : list ObservedTip)
  : list Z * ClientSide * list ObservedTip :=
  match read_head_lib frame with
  | Some (head, lib) =>
      apply_head_lib topology stitching (None, None) up Live frame head lib c tips
  | None => (frame, c, tips)
  end.

(** An upstream left at a seam is no longer excluded once a discontinuity was
    forwarded there. *)
Lemma seam_released fw ex seam endpoint now :
  fw_discontinuity fw = true -> endpoint ∈ seam ->
  hard_active (seam_after_result fw ex seam).1 endpoint now = false.
Proof.
  intros Hd Hin. unfold seam_after_result, hard_active. rewrite Hd. cbn [fst ex_hard].
  assert (existsb (String.eqb endpoint) seam = true) as Hx.
  { apply existsb_exists. exists endpoint. rewrite <-list_elem_of_In. split; [done|apply String.eqb_refl]. }
  induction (ex_hard ex) as [|[e u] l IH]; [done|]. cbn [List.filter fst].
  destruct (existsb (String.eqb e) seam) eqn:Ee; cbn [negb]; [done|]. cbn [existsb fst snd].
  rewrite IH, orb_false_r. rewrite bool_decide_false; [done|]. intros ->. congruence.
Qed.

(** ** What the handlers do to the client's mirror *)

Lemma charge_keeps c :
  (charge c).2 = c_set_credit (sat_sub (c_credit c) 1) c \/ c_credit c <= 0 /\ (charge c).2 = c.
Proof.
  unfold charge, checked_sub. destruct (1 <=? c_credit c) eqn:E; bools; cbn; [left|right; split; [lia|done]].
  unfold sat_sub. by replace (Z.max 0 _) with (c_credit c - 1) by lia.
Qed.

(** The chain the client holds after a forwarded result. *)
Definition chain_after (h : ResultHead) (fw : Forward) (chain : list BlockPos) : list BlockPos :=
  let chain :=
    match fw_fork fw, cl_n (fw_cls fw) with
    | true, Some n => List.filter (fun q => num q <? n) chain
    | _, _ => chain
    end in
  match this_block h with Some p => replaced p chain | None => chain end.

(** The fleet tip that a frame of this role takes. *)
Definition tip_for (role : Role) (fleet : option BlockPos * option BlockPos)
    (head lib : BlockPos) : BlockPos * BlockPos :=
  match role, fleet with
  | Frozen, (Some h, Some l) => (h, l)
  | _, _ => (head, lib)
  end.

(** Head and LIB of the client after [apply_head_lib]; the rest stays. *)
Lemma apply_head_lib_client topology stitching fleet up role frame head lib c tips :
  let '(h0, l0) := tip_for role fleet head lib in
  (apply_head_lib topology stitching fleet up role frame head lib c tips).1.2
  = c_set_lib_sent (Some (shown_after c h0 l0).2) (c_set_head_sent (Some (shown_after c h0 l0).1) c).
Proof.
  unfold apply_head_lib, tip_for, shown_after, head_lib_for.
  destruct role, fleet as [[fh|] [fl|]]; reflexivity.
Qed.

(** The client after [commit], field by field. *)
Lemma commit_client h fw c st :
  let c' := (commit h fw c st).1 in
  c_credit c' = c_credit c /\ c_head_sent c' = c_head_sent c /\ c_lib_sent c' = c_lib_sent c
  /\ c_delivered c' =
     (let ring := match fw_fork fw, cl_n (fw_cls fw) with
                  | true, Some n => Ring.truncate_from n (c_delivered c)
                  | _, _ => c_delivered c
                  end in
      match this_block h with Some p => Ring.push p (c_lib_sent c) ring | None => ring end)
  /\ c_last c' = match this_block h with Some p => Some p | None => c_last c end
  /\ c_irr_hwm c' =
     match this_block h with
     | Some p => if is_some_and (fun l => num p <=? num l) (c_lib_sent c)
                 then Some (map_or (num p) (fun w => Z.max w (num p)) (c_irr_hwm c))
                 else c_irr_hwm c
     | None => c_irr_hwm c
     end.
Proof.
  unfold commit. destruct (fw_fork fw), (cl_n (fw_cls fw)) as [n|], (cl_advance (fw_cls fw)),
    (this_block h) as [p|]; cbn; repeat (case_match; cbn in *); simplify_eq/=; split_and!; reflexivity || congruence.
Qed.

Lemma forward_result_client topology stitching fleet now frame h fw c st tips out c' st' tips' :
  forward_result topology stitching fleet now frame h fw c st tips = (out, c', st', tips') ->
  exists st1 head lib, c' = (commit h fw (c_set_lib_sent (Some lib)
      (c_set_head_sent (Some head) (charge c).2)) st1).1
    /\ (head, lib) = (let '(h0, l0) := tip_for (l_role st) fleet (rh_head h) (rh_lib h) in
                      shown_after c h0 l0).
Proof.
  unfold forward_result. intros Hf.
  destruct (charge c) as [over c1] eqn:Ec.
  pose proof (apply_head_lib_client topology stitching fleet (l_up st) (l_role st)
    (match l_role st with Frozen => fill_prev_block c1 frame h | Live => frame end)
    (rh_head h) (rh_lib h) c1 tips) as Ha.
  destruct (apply_head_lib _ _ _ _ _ _ _ _ _ _) as [[out1 c2] tips1]. cbn [fst snd] in Ha.
  destruct (commit h fw c2 st) as [c3 st3] eqn:Ecm. simplify_eq.
  destruct (tip_for _ _ _ _) as [h0 l0]. exists st, (shown_after c1 h0 l0).1, (shown_after c1 h0 l0).2.
  assert (shown_after c1 h0 l0 = shown_after c h0 l0) as Hsame.
  { destruct (charge_keeps c) as [H|[_ H]]; rewrite Ec in H; cbn in H; by subst c1. }
  cbn [snd]. rewrite <-Ha, Ecm. split; [done|]. rewrite <-Hsame. by destruct (shown_after c1 h0 l0).
Qed.

(** ** The states of a session

    A step is one handler: a client request, an ack, a forwarded result, a
    status reply of the router or of an upstream.  The second component is the
    chain the client holds: what it has been sent, with the blocks a request or a
    fork switch replaced taken off. *)

Definition fleet_ok (t : option BlockPos * option BlockPos) : Prop :=
  forall p, t.1 = Some p \/ t.2 = Some p -> pos_ok p.

Inductive session_step : ClientSide * list BlockPos -> ClientSide * list BlockPos -> Prop :=
| step_request c chain r :
    session_step (c, chain)
      ((new_request r c).2, List.filter (fun q => num q <? br_start r) chain)
| step_ack c chain n link : session_step (c, chain) ((on_client_ack n link c).2, chain)
| step_result c chain wrap st creq lr frame h lacks alternative fw topology stitching fleet now tips
    out c' st' tips' :
    judge wrap c st creq lr h lacks alternative = JForward fw ->
    pos_ok (rh_head h) -> pos_ok (rh_lib h) -> fleet_ok fleet ->
    forward_result topology stitching fleet now frame h fw c st tips = (out, c', st', tips') ->
    session_step (c, chain) (c', chain_after h fw chain)
| step_status c chain view tip v1 :
    fleet_ok tip -> session_step (c, chain) ((router_status view tip v1 c).2, chain)
| step_status_reply c chain topology stitching up frame tips :
    (forall p, (fst <$> read_head_lib frame) = Some p \/ (snd <$> read_head_lib frame) = Some p ->
       pos_ok p) ->
    session_step (c, chain) ((on_status_reply topology stitching up frame c tips).1.2, chain).

Definition session_reach : ClientSide -> list BlockPos -> Prop :=
  fun c chain => rtc session_step (new_client, []) (c, chain).

(** What holds in every reachable state. *)
Record session_ok (c : ClientSide) (chain : list BlockPos) : Prop := {
  so_shown : shown_ok c;
  so_chain : ascending chain;
  so_ring : c_delivered c `suffix_of` chain;
  so_cap : zlen (c_delivered c) <= DELIVERED_CAP;
  so_irr : forall w, c_irr_hwm c = Some w -> exists l, c_lib_sent c = Some l /\ w <= num l;
}.

Lemma so_ascending c chain : session_ok c chain -> ascending (c_delivered c).
Proof. intros [_ Hc Hr _ _]. by eapply ascending_suffix. Qed.

Lemma suffix_filter {A} (f : A -> bool) l k :
  l `suffix_of` k -> List.filter f l `suffix_of` List.filter f k.
Proof. intros [p ->]. rewrite List.filter_app. by exists (List.filter f p). Qed.

Lemma suffix_snoc_both {A} (x : A) l k : l `suffix_of` k -> (l ++ [x]) `suffix_of` (k ++ [x]).
Proof. intros [p ->]. exists p. by rewrite app_assoc. Qed.

(** A session whose head and LIB move on stays well-formed. *)
Lemma session_ok_shown c chain h l :
  session_ok c chain -> num l <= num h -> pos_ok h -> pos_ok l -> pos_le (c_lib_sent c) (Some l) ->
  session_ok (c_set_lib_sent (Some l) (c_set_head_sent (Some h) c)) chain.
Proof.
  intros [H1 H2 H3 H4 H5] Hle Hh Hl Hml. split; cbn; try done.
  intros w (l0 & Hl0 & Hw)%H5. destruct (Hml l0 Hl0) as (y & [= <-] & ?). eexists. split; [done|lia].
Qed.

Lemma session_ok_credit c chain n : session_ok c chain -> session_ok (c_set_credit n c) chain.
Proof. by intros []. Qed.

Lemma session_ok_charge c chain : session_ok c chain -> session_ok (charge c).2 chain.
Proof.
  intros Hok. destruct (charge_keeps c) as [->|[_ ->]]; [|done]. by apply session_ok_credit.
Qed.

(** The ring and the chain move together when a result is committed. *)
Lemma ring_chain_commit (h : ResultHead) (fw : Forward) lib ring chain :
  ascending chain -> ring `suffix_of` chain -> zlen ring <= DELIVERED_CAP ->
  let ring1 := match fw_fork fw, cl_n (fw_cls fw) with
               | true, Some n => Ring.truncate_from n ring
               | _, _ => ring
               end in
  let ring2 := match this_block h with Some p => Ring.push p lib ring1 | None => ring1 end in
  ring2 `suffix_of` chain_after h fw chain /\ ascending (chain_after h fw chain)
  /\ zlen ring2 <= DELIVERED_CAP.
Proof.
  intros Ha Hs Hcap. cbv zeta. unfold chain_after.
  set (ring1 := match fw_fork fw, cl_n _ with true, Some n => Ring.truncate_from n ring | _, _ => ring end).
  set (chain1 := match fw_fork fw, cl_n _ with
    | true, Some n => List.filter (fun q => num q <? n) chain | _, _ => chain end).
  assert (ring1 `suffix_of` chain1 /\ ascending chain1 /\ zlen ring1 <= DELIVERED_CAP) as (H1 & H2 & H3).
  { subst ring1 chain1. pose proof (ascending_suffix _ _ Hs Ha) as Har.
    destruct (fw_fork fw), (cl_n (fw_cls fw)) as [n|]; try done. rewrite truncate_filter by done.
    split_and!; [by apply suffix_filter|by apply ascending_filter|].
    pose proof (filter_length (fun q => num q <? n) ring). lia. }
  clearbody ring1 chain1. destruct (this_block h) as [p|]; [|done].
  pose proof (ascending_suffix _ _ H1 H2) as Har.
  split_and!; [|by apply ascending_replaced|apply push_length].
  etrans; [by apply push_suffix|]. unfold replaced. by apply suffix_snoc_both, suffix_filter.
Qed.

Lemma commit_ok h fw c st chain :
  session_ok c chain -> session_ok (commit h fw c st).1 (chain_after h fw chain).
Proof.
  intros Hok. pose proof Hok as [H1 H2 H3 H4 H5].
  destruct (commit_client h fw c st) as (_ & Hh & Hl & Hd & _ & Hirr).
  destruct (ring_chain_commit h fw (c_lib_sent c) (c_delivered c) chain H2 H3 H4) as (R1 & R2 & R3).
  split; unfold shown_ok in *; rewrite ?Hh, ?Hl, ?Hd, ?Hirr; try done.
  intros w. destruct (this_block h) as [p|]; [|apply H5].
  destruct (c_lib_sent c) as [l|] eqn:El; cbn [is_some_and]; [|apply H5].
  destruct (num p <=? num l) eqn:Ep; [|apply H5]. bools. intros [= <-]. exists l. split; [done|].
  destruct (c_irr_hwm c) as [w0|]; cbn; [|done]. destruct (H5 w0 eq_refl) as (l' & [= <-] & ?). lia.
Qed.

(** The head and LIB a handler proposes are well-formed. *)
Lemma tip_for_ok role fleet head lib :
  fleet_ok fleet -> pos_ok head -> pos_ok lib ->
  pos_ok (tip_for role fleet head lib).1 /\ pos_ok (tip_for role fleet head lib).2.
Proof.
  intros Hf Hh Hl. unfold tip_for. destruct role, fleet as [[fh|] [fl|]]; try done.
  split; apply Hf; auto.
Qed.

(** Every handler that shows a head and LIB shows [shown_after] of a well-formed
    pair. *)
Lemma router_status_client view tip v1 c :
  match tip with
  | (Some h0, Some l0) => (router_status view tip v1 c).2
      = c_set_lib_sent (Some (shown_after c h0 l0).2) (c_set_head_sent (Some (shown_after c h0 l0).1) c)
  | _ => (router_status view tip v1 c).2 = c
  end.
Proof. by destruct tip as [[h|] [l|]]. Qed.

(** What one step does to the head and LIB shown. *)
Definition shows_on (c c' : ClientSide) : Prop :=
  pos_le (c_head_sent c) (c_head_sent c') /\ pos_le (c_lib_sent c) (c_lib_sent c').

Lemma shows_on_refl c : shows_on c c.
Proof. by split. Qed.

Lemma shown_step c chain h0 l0 :
  session_ok c chain -> pos_ok h0 -> pos_ok l0 ->
  let c' := c_set_lib_sent (Some (shown_after c h0 l0).2)
              (c_set_head_sent (Some (shown_after c h0 l0).1) c) in
  session_ok c' chain /\ shows_on c c'.
Proof.
  intros Hok Hh Hl. pose proof (shown_after_spec c h0 l0 (so_shown _ _ Hok) Hh Hl) as Hs.
  destruct (shown_after c h0 l0) as [h l]. destruct Hs as (? & ? & ? & ? & ? & _). cbn [fst snd].
  split; [by apply session_ok_shown|done].
Qed.

Lemma session_step_ok c chain c' chain' :
  session_step (c, chain) (c', chain') -> session_ok c chain ->
  session_ok c' chain' /\ shows_on c c'.
Proof.
  intros Hstep. remember (c, chain) as s eqn:Es. remember (c', chain') as s' eqn:Es'.
  destruct Hstep as [c0 chain0 r|c0 chain0 n link|c0 chain0 wrap st creq lr frame h lk alt fw topo
    stitching fleet now tips out c1 st' tips' Hj Hh Hl Hf Hfw|c0 chain0 view tip v1 Ht
    |c0 chain0 topo stitching up frame tips Hp]; simplify_eq; intros Hok.
  - pose proof Hok as [H1 H2 H3 H4 H5]. split; [|by split].
    assert (c_delivered (new_request r c).2
      = List.filter (fun q => num q <? br_start r) (c_delivered c)) as Hd.
    { rewrite <-truncate_filter by (by eapply so_ascending). done. }
    split; try done; rewrite ?Hd.
    + by apply ascending_filter.
    + by apply suffix_filter.
    + pose proof (filter_length (fun q => num q <? br_start r) (c_delivered c)). lia.
  - unfold on_client_ack, ack. cbn [snd]. split; [by apply session_ok_credit|done].
  - apply forward_result_client in Hfw as (st1 & head & lib & -> & Hs).
    destruct (tip_for_ok (l_role st) fleet (rh_head h) (rh_lib h)) as [Ho1 Ho2]; try done.
    destruct (tip_for _ _ _ _) as [h0 l0]. cbn [fst snd] in *.
    pose proof (shown_after_spec c h0 l0 (so_shown _ _ Hok) Ho1 Ho2) as Hsh. rewrite <-Hs in Hsh.
    destruct Hsh as (? & ? & ? & Hmh & Hml & _). pose proof (session_ok_charge _ _ Hok) as Hok1.
    assert (c_lib_sent (charge c).2 = c_lib_sent c) as Hsame
      by (by destruct (charge_keeps c) as [->|[_ ->]]).
    split; [apply commit_ok, session_ok_shown; try done; by rewrite Hsame|].
    match goal with |- shows_on c (commit h fw ?c2 st1).1 =>
      destruct (commit_client h fw c2 st1) as (_ & Hh2 & Hl2 & _) end.
    split; [by rewrite Hh2|by rewrite Hl2].
  - pose proof (router_status_client view tip v1 c) as Hc.
    destruct tip as [[h0|] [l0|]]; rewrite Hc; try (split; [done|apply shows_on_refl]).
    apply shown_step; [done|apply Ht; auto|apply Ht; auto].
  - unfold on_status_reply. destruct (read_head_lib frame) as [[h0 l0]|]; [|by split].
    pose proof (apply_head_lib_client topo stitching (None, None) up Live frame h0 l0 c tips) as Hc.
    cbn [tip_for] in Hc. rewrite Hc. apply shown_step; [done|apply Hp; auto|apply Hp; auto].
Qed.

Lemma session_reach_ok c chain : session_reach c chain -> session_ok c chain.
Proof.
  unfold session_reach. intros Hr.
  assert (forall s, rtc session_step (new_client, []) s -> session_ok s.1 s.2) as H;
    [|by apply (H (c, chain))].
  apply rtc_ind_r; [split; cbn; try done; constructor|].
  intros [c1 chain1] [c2 chain2] _ Hstep IH. by destruct (session_step_ok _ _ _ _ Hstep IH).
Qed.

(** No step of a session lowers the head or LIB it counts as sent. *)
Lemma counted_never_goes_back c chain c' chain' :
  session_reach c chain -> rtc session_step (c, chain) (c', chain') ->
  shown_ok c' /\ shows_on c c'.
Proof.
  intros Hr Hs. remember (c, chain) as a eqn:Ea. remember (c', chain') as b eqn:Eb.
  revert c chain Ea Hr. induction Hs as [a|a [c1 chain1] b Hst _ IH]; intros c chain -> Hr.
  - simplify_eq. split; [apply (so_shown _ chain'), session_reach_ok, Hr|apply shows_on_refl].
  - destruct (session_step_ok _ _ _ _ Hst (session_reach_ok _ _ Hr)) as [_ [H1 H2]].
    destruct (IH Eb c1 chain1 eq_refl) as [Hok [H3 H4]].
    + unfold session_reach in *. eapply rtc_r; [exact Hr|exact Hst].
    + split; [done|]. split; [by etrans|by etrans].
Qed.

(** ** Replays *)

Lemma judge_duplicate wrap c st creq lr h lacks alternative advance_to :
  judge wrap c st creq lr h lacks alternative = JDuplicate advance_to ->
  exists n, cl_n (classify_result h (l_up_cursor st) lr) = Some n /\ n < c_cursor c
    /\ is_some (l_resume_floor st) = true /\ is_dup wrap n (this_block h) c = true.
Proof.
  unfold judge. cbv zeta. destruct (if bool_decide _ then _ else _) as [kind|no_block]; [done|].
  set (held := held_against c st lr). destruct (cl_n _) as [n|].
  2: { destruct held; repeat case_match; done. }
  destruct (n <? c_cursor c) eqn:E1.
  - destruct (_ && is_dup _ _ _ _) eqn:E2.
    + intros _. bools. eauto.
    + destruct held; repeat case_match; done.
  - destruct held; repeat case_match; done.
Qed.

(** C6: a result dropped as a replay is one the client has. In every reachable
    state, a result [judge] calls a duplicate stands for a block below the
    client's cursor, inside a resume window, and either carries no id, or is a
    block of the chain the client holds, or is no longer remembered and at or
    below the LIB the session counts as sent; a remembered block with another id
    is never dropped. *)
Theorem replay_is_known (c : ClientSide) (chain : list BlockPos) (wrap : nat) (st : LinkState)
    (creq : BlocksRequest) (lr : LinkReq) (h : ResultHead) (lacks : Z -> Lacks)
    (alternative : Z -> bool) (advance_to : option Z) :
  session_reach c chain ->
  judge wrap c st creq lr h lacks alternative = JDuplicate advance_to ->
  is_some (l_resume_floor st) = true
  /\ match this_block h with
     | None => exists n, cl_n (classify_result h (l_up_cursor st) lr) = Some n /\ n < c_cursor c
     | Some p =>
         num p < c_cursor c
         /\ (p ∈ chain
             \/ (forall id, mkPos (num p) id ∉ c_delivered c)
                /\ exists l, c_lib_sent c = Some l /\ num p <= num l)
     end.
Proof.
  intros Hr%session_reach_ok Hj. apply judge_duplicate in Hj as (n & Hn & Hlt & Hfl & Hdup).
  split; [done|]. destruct (classify_result_spec h (l_up_cursor st) lr) as (Hsome & _).
  destruct (this_block h) as [p|]; [|eauto].
  rewrite (Hsome p eq_refl) in Hn. cbn in Hn. simplify_eq. split; [done|].
  pose proof (so_ascending _ _ Hr) as Ha. destruct Hr as [_ _ [older Hring] _ Hirr].
  cbn [is_dup] in Hdup. destruct (Ring.get wrap (num p) (c_delivered c)) as [id|] eqn:Eg.
  - apply bool_decide_eq_true in Hdup. subst id. apply get_spec in Eg; [|done]. left.
    rewrite Hring. apply elem_of_app. right. by destruct p.
  - right. split.
    + intros id Hid. apply (get_spec wrap) in Hid; [|done]. congruence.
    + destruct (c_irr_hwm c) as [w|]; [|done]. cbn in Hdup. bools.
      destruct (Hirr w eq_refl) as (l & Hl & ?). exists l. split; [done|lia].
Qed.

(** ** The bytes the client gets *)

(** [prev] of the client's frame: the upstream's, or the irreversible block
    delivered before when the archive left it out. *)
Definition prev_sent (role : Role) (c : ClientSide) (h : ResultHead) : option BlockPos :=
  match role, this_block h, prev_block h, last_irreversible c with
  | Frozen, Some this, None, Some last =>
      if (num this <=? 1) || negb (bool_decide (checked_add u32_max (num last) 1 = Some (num this)))
      then None else Some last
  | _, _, prev, _ => prev
  end.

Lemma rebuilt_self frame h : message_ok frame -> classify_upstream frame = UBlocks h -> rebuilt frame h h = frame.
Proof. intros Hm Hc. destruct (classify_blocks_inv _ _ Hm Hc) as (i & post & -> & Hok & _). by apply rebuilt_flat. Qed.

Lemma rebuilt_trans frame h h1 h2 :
  message_ok (rebuilt frame h h1) -> classify_upstream (rebuilt frame h h1) = UBlocks h1 ->
  rebuilt (rebuilt frame h h1) h1 h2 = rebuilt frame h h2.
Proof.
  intros Hm Hc. destruct (classify_blocks_inv _ _ Hm Hc) as (i & post & _ & (_ & _ & _ & _ & _ & Hat) & _).
  unfold rebuilt at 1. assert (List.hd 0 (rebuilt frame h h1) = List.hd 0 frame) as -> by done.
  unfold rebuilt. f_equal. rewrite drop_app_length'; [done|]. rewrite Hat, Nat2Z.id. unfold head_bytes.
  by rewrite !length_app.
Qed.

Lemma fill_prev_exact role c frame h :
  message_ok frame -> zlen frame + POS_LEN <= isize_max -> (forall p, c_last c = Some p -> pos_ok p) ->
  classify_upstream frame = UBlocks h ->
  let frame' := match role with Frozen => fill_prev_block c frame h | Live => frame end in
  exists h', message_ok frame' /\ classify_upstream frame' = UBlocks h'
    /\ result_presence frame' h' = result_presence frame h
    /\ rh_v1 h' = rh_v1 h /\ rh_head h' = rh_head h /\ rh_lib h' = rh_lib h
    /\ this_block h' = this_block h /\ prev_block h' = prev_sent role c h /\ frame' = rebuilt frame h h'.
Proof.
  intros Hm Hbig Hlast Hcl. cbv zeta.
  assert (forall f, f = frame -> prev_sent role c h = prev_block h ->
    exists h', message_ok f /\ classify_upstream f = UBlocks h'
      /\ result_presence f h' = result_presence frame h
      /\ rh_v1 h' = rh_v1 h /\ rh_head h' = rh_head h /\ rh_lib h' = rh_lib h
      /\ this_block h' = this_block h /\ prev_block h' = prev_sent role c h /\ f = rebuilt frame h h') as Hsame.
  { intros f -> Hp. exists h. rewrite Hp, rebuilt_self; done. }
  destruct role; [by apply Hsame|]. unfold fill_prev_block, prev_sent in *.
  destruct (this_block h) as [this|] eqn:Et; [|by apply Hsame; destruct (prev_block h)].
  destruct (prev_block h) as [prev|] eqn:Ep; [by apply Hsame|].
  destruct (last_irreversible c) as [last|] eqn:El; [|by apply Hsame].
  destruct (_ || _); [by apply Hsame|].
  assert (pos_ok last) as Hpo.
  { unfold last_irreversible in El. destruct (c_last c) as [l|]; [|done].
    destruct (is_some_and _ _); simplify_eq. by apply Hlast. }
  pose proof (insert_prev_block_exact frame h last Hm Hbig Hpo Hcl) as Hins.
  destruct (insert_prev_block frame h last) as [[frame' h']|] eqn:Ei.
  2: { destruct Hins; congruence. }
  destruct Hins as (_ & _ & -> & Hc' & Hp' & Hl' & Hre). exists (set_prev h last).
  split_and!; try done. split; [|lia].
  eapply insert_prev_bytes; [apply Hm|exact Hpo|exact Ei].
Qed.

Lemma forward_bytes (topology : ResolvedTopology) (stitching : StitchingPolicy)
    (fleet : option BlockPos * option BlockPos) (now : Z) (frame : list Z) (h : ResultHead)
    (fw : Forward) (c : ClientSide) (st : LinkState) (tips : list ObservedTip) :
  message_ok frame -> zlen frame + POS_LEN <= isize_max ->
  classify_upstream frame = UBlocks h ->
  shown_ok c -> (forall p, c_last c = Some p -> pos_ok p) -> fleet_ok fleet ->
  pos_ok (rh_head h) -> pos_ok (rh_lib h) ->
  let '(out, c', _, _) := forward_result topology stitching fleet now frame h fw c st tips in
  exists h', classify_upstream out = UBlocks h' /\ out = rebuilt frame h h'
    /\ result_presence out h' = result_presence frame h
    /\ rh_v1 h' = rh_v1 h /\ this_block h' = this_block h
    /\ prev_block h' = prev_sent (l_role st) c h
    /\ (if bool_decide (topology = RPool) || patch_head_lib_flag stitching
        then c_head_sent c' = Some (rh_head h') /\ c_lib_sent c' = Some (rh_lib h')
        else rh_head h' = rh_head h /\ rh_lib h' = rh_lib h).
Proof.
  intros Hm Hbig Hcl Hshown Hlast Hfleet Hh Hl. unfold forward_result.
  destruct (charge c) as [over c1] eqn:Ec.
  assert (shown_ok c1 /\ c_last c1 = c_last c /\ last_irreversible c1 = last_irreversible c)
    as (Hs1 & Hl1 & Hi1).
  { destruct (charge_keeps c) as [H|[_ H]]; rewrite Ec in H; cbn in H; by subst c1. }
  assert (prev_sent (l_role st) c1 h = prev_sent (l_role st) c h) as Hps.
  { unfold prev_sent. by rewrite Hi1. }
  rewrite <-Hl1 in Hlast.
  destruct (fill_prev_exact (l_role st) c1 frame h Hm Hbig Hlast Hcl)
    as (h1 & Hm1 & Hcl1 & Hp1 & Hv1 & Hh1 & Hli1 & Ht1 & Hpr1 & Hre1). rewrite Hps in Hpr1.
  set (frame1 := match l_role st with Frozen => fill_prev_block c1 frame h | Live => frame end) in *.
  clearbody frame1. unfold apply_head_lib.
  set (fl := match l_role st, fleet with Frozen, (Some a, Some b) => Some (a, b) | _, _ => None end).
  set (patch := bool_decide (topology = RPool) || patch_head_lib_flag stitching).
  pose proof (head_lib_for_shown (l_role st) (rh_head h) (rh_lib h) fl patch c1) as Hsh.
  assert (pos_ok (proposed (l_role st) (rh_head h) (rh_lib h) fl).1
    /\ pos_ok (proposed (l_role st) (rh_head h) (rh_lib h) fl).2) as [Ho1 Ho2].
  { subst fl. unfold proposed. destruct (l_role st), fleet as [[fh|] [flb|]]; cbn; auto. }
  pose proof (shown_after_spec c1 _ _ Hs1 Ho1 Ho2) as Hspec.
  destruct (shown_after c1 _ _) as [hd lb]. rewrite Hsh. clear Hsh.
  destruct Hspec as (_ & Hhd & Hlb & _).
  set (c2 := c_set_lib_sent (Some lb) (c_set_head_sent (Some hd) c1)).
  destruct (commit_client h fw c2 st) as (_ & Hch & Hcll & _).
  destruct (commit h fw c2 st) as [c3 st3]. cbn [fst] in Hch, Hcll. rewrite Hch, Hcll. cbn [c_head_sent c_lib_sent c2].
  destruct (patch && _) eqn:Ep.
  - apply andb_true_iff in Ep as [-> _].
    pose proof (patch_head_lib_classify frame1 hd lb Hm1 Hhd Hlb) as Hpc. cbv zeta in Hpc.
    rewrite Hcl1 in Hpc. destruct Hpc as (Hpc1 & Hpc2 & Hpc3). exists (set_head_lib h1 hd lb).
    rewrite Hpc2. split_and!; try done; try congruence.
    rewrite Hpc3, Hre1 at 1. rewrite Hre1 in Hm1, Hcl1. by apply rebuilt_trans.
  - exists h1. split_and!; try done.
    destruct patch; cbn [andb] in Ep; [|done].
    apply orb_false_iff in Ep as [E1 E2]. apply negb_false_iff, bool_decide_eq_true in E1, E2.
    rewrite Hh1, Hli1. by subst.
Qed.

(** C9: the bytes a client is sent for a forwarded result: the upstream's with another
    head part, every byte after it kept; the version and [this_block] are the
    upstream's; the head and LIB are the ones the session then counts as sent (when
    patching is on, else the upstream's own); and [prev_block] is the upstream's, or the
    irreversible block delivered just before when a frozen upstream left it out. *)
Theorem forwarded_frame (topology : ResolvedTopology) (stitching : StitchingPolicy)
    (fleet : option BlockPos * option BlockPos) (now : Z) (frame : list Z) (h : ResultHead)
    (fw : Forward) (c : ClientSide) (st : LinkState) (tips : list ObservedTip) :
  message_ok frame -> zlen frame + POS_LEN <= isize_max ->
  classify_upstream frame = UBlocks h ->
  shown_ok c -> (forall p, c_last c = Some p -> pos_ok p) -> fleet_ok fleet ->
  pos_ok (rh_head h) -> pos_ok (rh_lib h) ->
  let '(out, c', _, _) := forward_result topology stitching fleet now frame h fw c st tips in
  exists h', classify_upstream out = UBlocks h' /\ out = rebuilt frame h h'
    /\ result_presence out h' = result_presence frame h
    /\ rh_v1 h' = rh_v1 h /\ this_block h' = this_block h
    /\ prev_block h' = prev_sent (l_role st) c h
    /\ (if bool_decide (topology = RPool) || patch_head_lib_flag stitching
        then c_head_sent c' = Some (rh_head h') /\ c_lib_sent c' = Some (rh_lib h')
        else rh_head h' = rh_head h /\ rh_lib h' = rh_lib h).
Proof. apply forward_bytes. Qed.

(** ** What the client reads *)

(** The head and LIB of what is sent are replaced: always by a pool listener, by a
    stitched one unless it is configured not to. *)
Definition patches (topology : ResolvedTopology) (stitching : StitchingPolicy) : bool :=
  bool_decide (topology = RPool) || patch_head_lib_flag stitching.

(** The steps that send the client a message with a head and a LIB: a forwarded result,
    the router's own status reply, and a status reply relayed from an upstream. *)
Inductive sends (topology : ResolvedTopology) (stitching : StitchingPolicy)
  : ClientSide * list BlockPos -> list Z -> ClientSide * list BlockPos -> Prop :=
| sd_result c chain wrap st creq lr frame h lacks alternative fw fleet now tips out c' st' tips' :
    message_ok frame -> zlen frame + POS_LEN <= isize_max -> classify_upstream frame = UBlocks h ->
    judge wrap c st creq lr h lacks alternative = JForward fw ->
    fleet_ok fleet -> (forall p, c_last c = Some p -> pos_ok p) ->
    forward_result topology stitching fleet now frame h fw c st tips = (out, c', st', tips') ->
    sends topology stitching (c, chain) out (c', chain_after h fw chain)
| sd_status c chain view tip v1 r c' :
    fleet_ok tip -> (forall id, v_chain_id view = Some id -> length id = 32%nat) ->
    router_status view tip v1 c = (Some r, c') ->
    sends topology stitching (c, chain) (rs_bytes r) (c', chain)
| sd_relay c chain up frame head lib tips out c' tips' :
    zlen frame <= isize_max -> read_head_lib frame = Some (head, lib) -> pos_ok head -> pos_ok lib ->
    on_status_reply topology stitching up frame c tips = (out, c', tips') ->
    sends topology stitching (c, chain) out (c', chain).

(** [read_head_lib] looks at the head part only. *)
Lemma head_read index h post :
  pos_ok (rh_head h) -> pos_ok (rh_lib h) ->
  read_head_lib (head_bytes index h ++ post) = Some (rh_head h, rh_lib h).
Proof.
  intros Hh Hl. pose proof (pos_bytes_length _ Hh) as Hh36. pose proof (pos_bytes_length _ Hl) as Hl36.
  assert (forall rest, slice_get ([index] ++ pos_bytes (rh_head h) ++ pos_bytes (rh_lib h) ++ rest) 0 HEAD_LIB_END
    = Some ([index] ++ pos_bytes (rh_head h) ++ pos_bytes (rh_lib h))) as Hs.
  { intros rest. unfold HEAD_LIB_END, POS_LEN. rewrite slice_get_some by (zlens; lia).
    change (Z.to_nat (1 + 2 * 36 - 0)) with 73%nat. change (drop (Z.to_nat 0)) with (@drop Z 0).
    rewrite drop_0, !app_assoc, take_app_length' by (zlens; lia). by rewrite <- !app_assoc. }
  assert (read_head_lib (head_bytes index h ++ post)
    = read_head_lib ([index] ++ pos_bytes (rh_head h) ++ pos_bytes (rh_lib h) ++ [])) as ->.
  { unfold read_head_lib, head_bytes. by rewrite <- !app_assoc, !Hs. }
  apply read_head_lib_flat; [done|done|]. zlens. mlia.
Qed.

Lemma sends_step topology stitching s out s' :
  sends topology stitching s out s' -> session_step s s'.
Proof.
  destruct 1 as [c chain wrap st creq lr frame h lk alt fw fleet now tips out c' st' tips' Hm _ Hc Hj Hf _ Hfw
    |c chain view tip v1 r c' Ht _ Hr|c chain up frame head lib tips out c' tips' _ Hrd Hh Hl Hs].
  - destruct (classify_blocks_inv _ _ Hm Hc) as (i & post & _ & (Hh & Hl & _) & _).
    by eapply (step_result _ _ wrap st creq lr frame h lk alt fw topology stitching fleet now tips).
  - replace c' with (router_status view tip v1 c).2 by (by rewrite Hr). by apply step_status.
  - replace c' with (on_status_reply topology stitching up frame c tips).1.2 by (by rewrite Hs).
    apply step_status_reply. rewrite Hrd. cbn. by intros p [[= <-]|[= <-]].
Qed.

(** Where heads are replaced, a message carries what the session then counts as sent. *)
Lemma sends_counted topology stitching c chain out c' chain' :
  patches topology stitching = true -> session_ok c chain -> sends topology stitching (c, chain) out (c', chain') ->
  exists h l, read_head_lib out = Some (h, l) /\ c_head_sent c' = Some h /\ c_lib_sent c' = Some l.
Proof.
  intros Hp Hok0 Hs. pose proof (so_shown _ _ Hok0) as Hsh.
  destruct (session_step_ok _ _ _ _ (sends_step _ _ _ _ _ Hs) Hok0) as [Hok' _]. pose proof (so_shown _ _ Hok') as Hsh'.
  remember (c, chain) as a eqn:Ea. remember (c', chain') as b eqn:Eb.
  destruct Hs as [c0 chain0 wrap st creq lr frame h lk alt fw fleet now tips out c1 st' tips' Hm Hbig Hc Hj Hf Hla Hfw
    |c0 chain0 view tip v1 r c1 Ht Hid Hr|c0 chain0 up frame head lib tips out c1 tips' Hlen Hrd Hh Hl Hre];
    simplify_eq.
  - destruct (classify_blocks_inv _ _ Hm Hc) as (i & post & -> & Hok & Hi). pose proof Hok as (Hh & Hl & _).
    pose proof (forward_bytes topology stitching fleet now (head_bytes i h ++ post) h fw c st tips Hm Hbig Hc Hsh Hla Hf Hh Hl) as H.
    rewrite Hfw in H. destruct H as (h' & Hc' & Hout & _ & _ & _ & _ & Hx). unfold patches in Hp. rewrite Hp in Hx.
    exists (rh_head h'), (rh_lib h'). split; [|done].
    rewrite rebuilt_flat in Hout by done. subst out. destruct Hx as [Hx1 Hx2].
    unfold shown_ok in Hsh'. rewrite Hx1, Hx2 in Hsh'. destruct Hsh' as (_ & ? & ?). by apply head_read.
  - pose proof (router_status_exact view tip v1 c Hsh Ht Hid) as H. rewrite Hr in H.
    destruct H as (h & l & ? & ? & _ & _ & ? & _). by exists h, l.
  - revert Hre. unfold on_status_reply, apply_head_lib. rewrite Hrd. fold (patches topology stitching). rewrite Hp.
    pose proof (head_lib_for_shown Live head lib None true c) as Hx. cbn [proposed fst snd] in Hx.
    pose proof (shown_after_spec c head lib Hsh Hh Hl) as Hspec.
    destruct (shown_after c head lib) as [h l]. rewrite Hx. destruct Hspec as (_ & Hho & Hlo & _). cbn [andb].
    destruct (_ || _) eqn:E; intros [= <- <- <-]; exists h, l; (split; [|done]).
    + pose proof (patch_head_lib_exact frame h l Hho Hlo Hlen) as (_ & _ & _ & Hrr).
      destruct (HEAD_LIB_END <=? zlen frame) eqn:El; [done|]. bools.
      unfold read_head_lib in Hrd. rewrite slice_get_none in Hrd by lia. done.
    + apply orb_false_iff in E as [E1 E2]. apply negb_false_iff, bool_decide_eq_true in E1, E2. by subst.
Qed.

(** C10: What a client reads never goes back: where heads are replaced, of two messages a
    session sends, whatever it does before, between and after, the later one shows a head
    and a LIB at or above those of the earlier, and never a LIB above its head. *)
Theorem shown_never_goes_back (topology : ResolvedTopology) (stitching : StitchingPolicy)
    (c c1 c2 c3 : ClientSide) (chain chain1 chain2 chain3 : list BlockPos) (out1 out2 : list Z) :
  patches topology stitching = true -> session_reach c chain ->
  sends topology stitching (c, chain) out1 (c1, chain1) ->
  rtc session_step (c1, chain1) (c2, chain2) ->
  sends topology stitching (c2, chain2) out2 (c3, chain3) ->
  exists h1 l1 h2 l2, read_head_lib out1 = Some (h1, l1) /\ read_head_lib out2 = Some (h2, l2)
    /\ num h1 <= num h2 /\ num l1 <= num l2 /\ num l1 <= num h1 /\ num l2 <= num h2.
Proof.
  intros Hp Hr H1 Hmid H2. pose proof (sends_step _ _ _ _ _ H1) as S1. pose proof (sends_step _ _ _ _ _ H2) as S2.
  assert (session_reach c1 chain1) as R1 by (eapply rtc_r; [exact Hr|exact S1]).
  assert (session_reach c2 chain2) as R2 by (unfold session_reach in *; etrans; [exact R1|exact Hmid]).
  destruct (sends_counted _ _ _ _ _ _ _ Hp (session_reach_ok _ _ Hr) H1) as (h1 & l1 & E1 & F1 & G1).
  destruct (sends_counted _ _ _ _ _ _ _ Hp (session_reach_ok _ _ R2) H2) as (h2 & l2 & E2 & F2 & G2).
  destruct (counted_never_goes_back c1 chain1 c3 chain3 R1) as [Hok [Hh Hl]];
    [eapply rtc_r; [exact Hmid|exact S2]|].
  pose proof (so_shown _ _ (session_reach_ok _ _ R1)) as Hok1. unfold shown_ok in Hok, Hok1.
  rewrite F1, G1 in Hok1. rewrite F2, G2 in Hok.
  destruct (Hh h1 F1) as (? & Ha & ?), (Hl l1 G1) as (? & Hb & ?). simplify_eq.
  exists h1, l1, h2, l2. destruct Hok as [? _], Hok1 as [? _]. split_and!; done.
Qed.


(** ** Credit

    The client's credit against an upstream that keeps the protocol: it sends a
    result only while its own counter is positive, and the counter is what the
    last request gave it, plus the acks it was sent, less the results it sent. *)

Record Credit := mkCredit {
  cr_client : ClientSide;
  cr_link : option LinkState;
  cr_up : Z;
  cr_flight : Z;
}.

(** The link carries a request. *)
Definition has_req (link : option LinkState) : bool :=
  is_some_and (fun st => is_some (l_req st)) link.

Inductive credit_step : Credit -> Credit -> Prop :=
| cs_ack c link up flight n :
    0 <= n ->
    credit_step (mkCredit c link up flight)
      (mkCredit (on_client_ack n link c).2 link
         (up + default 0 (on_client_ack n link c).1) flight)
| cs_request_fresh c link up flight r st creq target now purpose end_ :
    (* the new request goes out on a link that served none *)
    is_u32 (max_in_flight r) -> l_req st = None ->
    credit_step (mkCredit c link up flight)
      (mkCredit (new_request r c).2
         (Some (build_request (new_request r c).2 creq st end_ purpose target now).2)
         (max_in_flight (build_request (new_request r c).2 creq st end_ purpose target now).1) 0)
| cs_request_reuse c up flight r st legacy creq target now purpose end_ :
    (* or on the same socket, when it is quiescent; an upstream whose request is
       settled has nothing in flight *)
    is_u32 (max_in_flight r) -> quiescent st (new_request r c).1 legacy = true ->
    (settled st legacy = true -> flight = 0) ->
    credit_step (mkCredit c (Some st) up flight)
      (mkCredit (new_request r c).2
         (Some (build_request (new_request r c).2 creq st end_ purpose target now).2)
         (max_in_flight (build_request (new_request r c).2 creq st end_ purpose target now).1) flight)
| cs_request_retire c link up flight r :
    is_u32 (max_in_flight r) ->
    credit_step (mkCredit c link up flight) (mkCredit (new_request r c).2 None 0 0)
| cs_resume c up flight st creq target now purpose end_ :
    l_req st = None ->
    credit_step (mkCredit c None up flight)
      (mkCredit c (Some (build_request c creq st end_ purpose target now).2)
         (max_in_flight (build_request c creq st end_ purpose target now).1) 0)
| cs_send c link up flight :
    has_req link = true -> 0 < up ->
    credit_step (mkCredit c link up flight) (mkCredit c link (up - 1) (flight + 1))
| cs_forward c st up flight wrap creq lr frame h lacks alternative fw topology stitching fleet now
    tips out c' st' tips' :
    l_req st = Some lr -> 0 < flight ->
    judge wrap c st creq lr h lacks alternative = JForward fw ->
    forward_result topology stitching fleet now frame h fw c st tips = (out, c', st', tips') ->
    credit_step (mkCredit c (Some st) up flight) (mkCredit c' (Some st') up (flight - 1))
| cs_duplicate c st up flight wrap creq lr h lacks alternative advance_to now :
    l_req st = Some lr -> 0 < flight ->
    judge wrap c st creq lr h lacks alternative = JDuplicate advance_to ->
    credit_step (mkCredit c (Some st) up flight)
      (mkCredit c (Some (drop_duplicate advance_to now st).2)
         (up + (drop_duplicate advance_to now st).1) (flight - 1))
| cs_end c link up flight : credit_step (mkCredit c link up flight) (mkCredit c None 0 0).

(** The client's credit is the upstream's counter plus what is in flight. *)
Definition lockstep (s : Credit) : Prop :=
  is_u32 (c_credit (cr_client s)) /\ 0 <= cr_up s /\ 0 <= cr_flight s
  /\ (has_req (cr_link s) = true -> c_credit (cr_client s) = cr_up s + cr_flight s).

Lemma forward_result_credit topology stitching fleet now frame h fw c st tips out c' st' tips' :
  forward_result topology stitching fleet now frame h fw c st tips = (out, c', st', tips') ->
  c_credit c' = c_credit (charge c).2 /\ l_req st' = l_req st.
Proof.
  intros Hf. split.
  - apply forward_result_client in Hf as (st1 & head & lib & -> & _).
    destruct (commit_client h fw (c_set_lib_sent (Some lib) (c_set_head_sent (Some head) (charge c).2)) st1)
      as (-> & _). done.
  - unfold forward_result in Hf. destruct (charge c) as [? c1].
    destruct (apply_head_lib _ _ _ _ _ _ _ _ _ _) as [[? c2] ?].
    assert (l_req (commit h fw c2 st).2 = l_req st) as Hc.
    { unfold commit. repeat (case_match; simplify_eq/=); done. }
    destruct (commit h fw c2 st) as [c3 st3]. by simplify_eq.
Qed.

Lemma build_request_credit c creq st end_ purpose target now :
  max_in_flight (build_request c creq st end_ purpose target now).1 = c_credit c
  /\ is_some (l_req (build_request c creq st end_ purpose target now).2) = true.
Proof. done. Qed.

Lemma ack_credit n link c :
  is_u32 (c_credit c) -> 0 <= n ->
  let '(sent, c') := on_client_ack n link c in
  is_u32 (c_credit c') /\ 0 <= default 0 sent
  /\ (has_req link = true -> c_credit c' = c_credit c + default 0 sent).
Proof.
  intros Hc Hn. unfold on_client_ack, ack, has_req. cbn.
  split_and!; [unfold is_u32, sat_add in *; lia| |].
  - destruct (_ =? 0); [cbn; lia|]. destruct link as [st|]; [|cbn; lia].
    destruct (is_some (l_req st)); cbn; [|lia]. unfold is_u32, sat_add in *. lia.
  - intros Hr. destruct (_ =? 0) eqn:E; bools; cbn; [lia|].
    destruct link as [st|]; [|done]. cbn in Hr. rewrite Hr. cbn. lia.
Qed.

Lemma credit_step_lockstep s s' : credit_step s s' -> lockstep s -> lockstep s'.
Proof.
  unfold lockstep. destruct 1; cbn [cr_client cr_link cr_up cr_flight]; intros (Hc & Hu & Hf & Heq).
  - pose proof (ack_credit n link c Hc ltac:(done)) as Ha. destruct (on_client_ack n link c) as [sent c'].
    cbn [fst snd]. destruct Ha as (H1 & H2 & H3). split_and!; [done|lia|done|].
    intros Hr. rewrite (H3 Hr), (Heq Hr). lia.
  - split_and!; [done|cbn; unfold is_u32 in *; lia|done|]. intros _. cbn. lia.
  - assert (flight = 0) as ->.
    { destruct (settled st legacy) eqn:Es; [auto|]. unfold quiescent in *. rewrite Es, orb_false_r in *.
      bools. cbn in *. assert (is_some (l_req st) = true) as Hr.
      { unfold settled in Es. by destruct (l_req st). }
      specialize (Heq Hr). lia. }
    split_and!; [done|cbn; unfold is_u32 in *; lia|done|]. intros _. cbn. lia.
  - by split_and!.
  - split_and!; [done|cbn; unfold is_u32 in *; lia|done|]. intros _. cbn. lia.
  - split_and!; [done|lia|lia|]. intros Hr. rewrite (Heq Hr). lia.
  - match goal with H : forward_result _ _ _ _ _ _ _ _ _ _ = _ |- _ =>
      apply forward_result_credit in H as [-> Hreq] end.
    assert (has_req (Some st) = true) as Hr by (cbn; by match goal with H : l_req st = _ |- _ => rewrite H end).
    specialize (Heq Hr). destruct (charge_keeps c) as [->|[? ->]]; [|lia]. cbn.
    unfold is_u32, sat_sub in *. split_and!; try lia.
  - assert (has_req (Some st) = true) as Hr by (cbn; by match goal with H : l_req st = _ |- _ => rewrite H end).
    specialize (Heq Hr). cbn. split_and!; [done|lia|lia|]. intros _. lia.
  - split_and!; done.
Qed.

Lemma judge_no_credit wrap c st creq lr h lacks alternative :
  c_credit c <> 0 -> judge wrap c st creq lr h lacks alternative <> JEnd (Violation VCredit).
Proof.
  intros Hc. unfold judge. cbv zeta. rewrite (proj2 (Z.eqb_neq _ _) Hc), andb_false_r.
  assert (forall k, (if bool_decide (l_role st = Frozen) then frozen_check st creq h
      (classify_result h (l_up_cursor st) lr) lacks else inr false) = inl k -> k <> VCredit) as Hk.
  { intros k. unfold frozen_check. repeat (case_match; simplify_eq); intros; simplify_eq; done. }
  destruct (if bool_decide _ then _ else _) as [kind|no_block].
  - intros [= ->]. by specialize (Hk _ eq_refl).
  - repeat case_match; done.
Qed.

Lemma credit_lockstep s : rtc credit_step (mkCredit new_client None 0 0) s -> lockstep s.
Proof.
  revert s. apply rtc_ind_r; [by unfold lockstep; cbn|].
  intros s1 s2 _ Hstep. by apply credit_step_lockstep.
Qed.

(** C5: credit stays in step. From a new session, through any interleaving of
    acks, requests (on a fresh link, or on a quiescent one), resumes, link ends
    and results of an upstream that sends only while its own counter is positive
    and nothing once its request is settled: the client's credit is that counter plus
    the results in flight, and neither passes [u32::MAX]; so a result that
    arrives finds credit, is never counted as an overrun, and never charged to
    the upstream as a credit violation. *)
Theorem credit_in_step (s : Credit) (wrap : nat) (creq : BlocksRequest) (lr : LinkReq)
    (h : ResultHead) (lacks : Z -> Lacks) (alternative : Z -> bool) (st : LinkState) :
  rtc credit_step (mkCredit new_client None 0 0) s ->
  cr_link s = Some st -> l_req st = Some lr ->
  c_credit (cr_client s) = cr_up s + cr_flight s
  /\ 0 <= cr_up s <= u32_max
  /\ (0 < cr_flight s ->
      (charge (cr_client s)).1 = false
      /\ judge wrap (cr_client s) st creq lr h lacks alternative <> JEnd (Violation VCredit)).
Proof.
  intros Hr Hl Hq. apply credit_lockstep in Hr as (Hc & Hu & Hf & Heq).
  rewrite Hl in Heq. cbn in Heq. rewrite Hq in Heq. specialize (Heq eq_refl).
  unfold is_u32 in Hc. split_and!; [done|done|lia|]. intros Hpos. split.
  - unfold charge, checked_sub. by rewrite (proj2 (Z.leb_le _ _)) by lia.
  - apply judge_no_credit. lia.
Qed.

(** ** Witnesses *)

Definition sample_tips : option BlockPos * option BlockPos := (Some (sample_pos 100), Some (sample_pos 90)).

Lemma sample_tips_ok : fleet_ok sample_tips.
Proof. intros p [[= <-]|[= <-]]; apply sample_pos_ok; mlia. Qed.

(** Two status replies of a pool session, with a lower tip at the second. *)
Lemma shown_never_goes_back_witness :
  let tip n := (Some (sample_pos n), Some (sample_pos (n - 10))) in
  let reply n c := router_status (empty_view RPool None) (tip n) false c in
  exists r1 c1 r2 c2, reply 100 new_client = (Some r1, c1) /\ reply 90 c1 = (Some r2, c2)
    /\ exists h1 l1 h2 l2, read_head_lib (rs_bytes r1) = Some (h1, l1) /\ read_head_lib (rs_bytes r2) = Some (h2, l2)
      /\ num h1 <= num h2.
Proof.
  intros tip reply.
  assert (forall n, 10 <= n <= 1000 -> fleet_ok (tip n)) as Ht.
  { intros n Hn p [[= <-]|[= <-]]; apply sample_pos_ok; mlia. }
  destruct (reply 100 new_client) as [[r1|] c1] eqn:E1; [|discriminate E1].
  destruct (reply 90 c1) as [[r2|] c2] eqn:E2; [|discriminate E2].
  exists r1, c1, r2, c2. split; [reflexivity|]. split; [exact E2|].
  destruct (shown_never_goes_back RPool default_stitching new_client c1 c1 c2 [] [] [] [] (rs_bytes r1) (rs_bytes r2))
    as (h1 & l1 & h2 & l2 & H1 & H2 & H3 & _).
  - reflexivity.
  - apply rtc_refl.
  - apply (sd_status _ _ _ _ (empty_view RPool None) (tip 100) false); [apply Ht; lia|discriminate|exact E1].
  - apply rtc_refl.
  - apply (sd_status _ _ _ _ (empty_view RPool None) (tip 90) false); [apply Ht; lia|discriminate|exact E2].
  - exists h1, l1, h2, l2. split; [exact H1|]. split; [exact H2|exact H3].
Defined.

(** A session that delivered block 500 of [sample_frame], then a replay of it on
    the link it resumed on. *)
Definition v0_request : BlocksRequest := mkBlocksRequest false 500 u32_max 5 [] false true false true false.
Definition asked : ClientSide := (new_request v0_request new_client).2.
Definition forwarded : Forward :=
  mkForward (mkClassified (Some 500) true KBlock) false false false false false.
Definition after_500 : ClientSide :=
  (forward_result RPool default_stitching sample_tips 0 sample_frame sample_head forwarded asked
     (sample_link Live) []).1.1.2.

Lemma after_500_reach : session_reach after_500 [sample_pos 500].
Proof.
  eapply rtc_l; [apply (step_request new_client [] v0_request)|].
  eapply rtc_l; [|apply rtc_refl].
  change [sample_pos 500] with (chain_after sample_head forwarded []).
  eapply (step_result _ _ 0 (sample_link Live) v0_request sample_link_req sample_frame sample_head
    (fun _ => LacksNothing) (fun _ => true) forwarded RPool default_stitching sample_tips 0 []).
  - vm_compute. reflexivity.
  - apply sample_pos_ok. mlia.
  - apply sample_pos_ok. mlia.
  - apply sample_tips_ok.
  - vm_compute. reflexivity.
Qed.

Lemma replay_is_known_witness :
  num (sample_pos 500) < c_cursor after_500 /\ sample_pos 500 ∈ [sample_pos 500].
Proof.
  destruct (replay_is_known after_500 [sample_pos 500] 0
    (l_set_resume_floor (Some 501) (sample_link Live)) v0_request sample_link_req sample_head
    (fun _ => LacksNothing) (fun _ => true) (Some 501)) as [_ [Hlt _]].
  - exact after_500_reach.
  - vm_compute. reflexivity.
  - split; [exact Hlt|constructor].
Defined.

Lemma forwarded_frame_witness :
  exists out c' st' tips' h', forward_result RPool default_stitching sample_tips 0 sample_frame sample_head
      forwarded asked (sample_link Live) [] = (out, c', st', tips')
    /\ classify_upstream out = UBlocks h' /\ this_block h' = Some (sample_pos 500).
Proof.
  pose proof (forwarded_frame RPool default_stitching sample_tips 0 sample_frame sample_head forwarded
    asked (sample_link Live) [] sample_frame_ok) as H.
  destruct (forward_result _ _ _ _ _ _ _ _ _ _) as [[[out c'] st'] tips'].
  destruct H as (h' & H1 & _ & _ & _ & H2 & _);
    [vm_compute; discriminate|vm_compute; reflexivity|exact I|discriminate|exact sample_tips_ok
    |apply sample_pos_ok; mlia..|].
  exists out, c', st', tips', h'. split; [reflexivity|]. split; [exact H1|exact H2].
Defined.

(** A request for 5 results, and one of them sent. *)
Lemma credit_in_step_witness :
  c_credit asked = 4 + 1 /\ (charge asked).1 = false.
Proof.
  destruct (credit_in_step
    (mkCredit asked (Some (build_request asked v0_request (new_link_state 0 Frozen 0) u32_max PInitial
       (mkTarget RPool None) 0).2) 4 1)
    0 v0_request (mkLinkReq 500 u32_max false false PInitial 0) sample_head
    (fun _ => LacksNothing) (fun _ => true)
    (build_request asked v0_request (new_link_state 0 Frozen 0) u32_max PInitial (mkTarget RPool None) 0).2)
    as (Heq & _ & Hpos).
  - eapply rtc_l; [apply (cs_request_fresh new_client None 0 0 v0_request (new_link_state 0 Frozen 0)
      v0_request (mkTarget RPool None) 0 PInitial u32_max); [vm_compute; split; discriminate|reflexivity]|].
    eapply rtc_l; [|apply rtc_refl].
    apply (cs_send asked _ 5 0); [reflexivity|lia].
  - reflexivity.
  - reflexivity.
  - split; [exact Heq|]. apply Hpos. cbn. lia.
Defined.
