(* ===== verification/ApiRoute.v ===== *)
(** * Chain API requests: dispatch and routing hints

    Models [src/src/chain_api/route.rs] (the classification of a request),
    [src/src/chain_api/hint.rs] (the block a body names) and
    [src/src/chain_api/errors.rs] (the answers the router writes itself).

    A request target is a [string], a body a list of bytes.  [http::Uri] is the
    record of what its accessors return, [http::Method] its text.  The JSON
    reader is a third-party library: it is the parameter [json_parse], which
    returns the value of a strict JSON text, members in order and numbers told
    apart as [serde_json] reports them to a visitor; what the visitors of
    [hint.rs] do with that value is modelled.

    The theorems: which requests are proxied, and that the advertised paths are
    exactly those; which bodies give a hint and the block they name, a number or
    the big-endian prefix of an id; and how deep a body may nest. *)

From stdpp Require Import pretty.
From S2P Require Import Prelude Wire Models.

(** ** Strings *)

(** [str::strip_prefix]. *)
Fixpoint strip_prefix (p s : string) : option string :=
  match p, s with
  | EmptyString, _ => Some s
  | String.String a p, String.String b s => if Ascii.eqb a b then strip_prefix p s else None
  | String.String _ _, EmptyString => None
  end.

(** [str::contains] with a text. *)
Fixpoint contains (needle s : string) : bool :=
  if is_some (strip_prefix needle s) then true
  else match s with
       | EmptyString => false
       | String.String _ s => contains needle s
       end.

Definition is_ascii_lowercase (c : Ascii.ascii) : bool := (97 <=? code c) && (code c <=? 122).
Definition is_ascii_digit (c : Ascii.ascii) : bool := (48 <=? code c) && (code c <=? 57).

(** ** Dispatch ([route.rs]) *)

Inductive BlockEndpoint := EpBlock | EpBlockHeader | EpBlockHeaderState | EpBlockInfo | EpRawBlock.
#[export] Instance BlockEndpoint_eq_dec : EqDecision BlockEndpoint.
Proof. solve_decision. Defined.

Definition endpoints_all : list BlockEndpoint :=
  [EpBlock; EpBlockHeader; EpBlockHeaderState; EpBlockInfo; EpRawBlock].

Definition ep_path (ep : BlockEndpoint) : string :=
  match ep with
  | EpBlock => "/v1/chain/get_block"
  | EpBlockHeader => "/v1/chain/get_block_header"
  | EpBlockHeaderState => "/v1/chain/get_block_header_state"
  | EpBlockInfo => "/v1/chain/get_block_info"
  | EpRawBlock => "/v1/chain/get_raw_block"
  end.

Definition from_target (target : string) : option BlockEndpoint :=
  List.find (fun ep => bool_decide (ep_path ep = target)) endpoints_all.

(** The endpoint classes a listener may serve ([models.rs]). *)
Inductive ApiClass := ClBlock | ClInfo | ClState | ClExec | ClPush.
#[export] Instance ApiClass_eq_dec : EqDecision ApiClass.
Proof. solve_decision. Defined.

Inductive Route :=
| RtIllegalTarget
| RtOptions
| RtSupportedApis
| RtBlock (ep : BlockEndpoint)
| RtInfo
| RtState
| RtExec
| RtPush
| RtNotFound.
#[export] Instance Route_eq_dec : EqDecision Route.
Proof. solve_decision. Defined.

Inductive RequestClass :=
| RcBlock | RcInfo | RcState | RcExec | RcPush | RcNode | RcDenied | RcInvalid.

Definition route_class (r : Route) : option ApiClass :=
  match r with
  | RtBlock _ => Some ClBlock
  | RtInfo => Some ClInfo
  | RtState => Some ClState
  | RtExec => Some ClExec
  | RtPush => Some ClPush
  | RtIllegalTarget | RtOptions | RtSupportedApis | RtNotFound => None
  end.

Definition route_label (r : Route) : RequestClass :=
  match r with
  | RtBlock _ => RcBlock
  | RtInfo => RcInfo
  | RtState => RcState
  | RtExec => RcExec
  | RtPush => RcPush
  | RtOptions | RtSupportedApis => RcNode
  | RtNotFound => RcDenied
  | RtIllegalTarget => RcInvalid
  end.

Definition SUPPORTED_APIS : string := "/v1/node/get_supported_apis".
Definition CHAIN_PREFIX : string := "/v1/chain/".

(** What [http::Uri]'s accessors return. *)
Record Uri := mkUri {
  uri_scheme : option string;
  uri_authority : option string;
  uri_path_and_query : option string;
}.

Definition origin_target (uri : Uri) : option string :=
  if is_some (uri_scheme uri) || is_some (uri_authority uri) then None
  else
    match uri_path_and_query uri with
    | None => None
    | Some target =>
        if is_some (strip_prefix "/" target) && negb (contains ".." target)
        then Some target else None
    end.

Definition name_char (c : Ascii.ascii) : bool :=
  is_ascii_lowercase c || is_ascii_digit c || (code c =? 95).

Definition proxied (target : string) : option Route :=
  match from_target target with
  | Some ep => Some (RtBlock ep)
  | None =>
      match strip_prefix CHAIN_PREFIX target with
      | None => None
      | Some name =>
          if bool_decide (name = EmptyString) || negb (all_chars name_char name) then None
          else if bool_decide (name = "get_info") then Some RtInfo
          else if bool_decide (name ∈ ["compute_transaction"; "send_read_only_transaction"])
          then Some RtExec
          else if bool_decide (name ∈ ["push_transaction"; "push_transactions";
                                       "send_transaction"; "send_transaction2"])
          then Some RtPush
          else if bool_decide (name = "push_block") then None
          else Some RtState
      end
  end.

Definition allowed (allow : list ApiClass) (r : Route) : bool :=
  is_some_and (fun c => bool_decide (c ∈ allow)) (route_class r).

Definition METHOD_OPTIONS : string := "OPTIONS".

Definition route_classify (method : string) (uri : Uri) (allow : list ApiClass) : Route :=
  match origin_target uri with
  | None => RtIllegalTarget
  | Some target =>
      if bool_decide (method = METHOD_OPTIONS) then RtOptions
      else if bool_decide (target = SUPPORTED_APIS) then RtSupportedApis
      else
        match proxied target with
        | Some route => if allowed allow route then route else RtNotFound
        | None => RtNotFound
        end
  end.

Definition serves_path (path : string) (allow : list ApiClass) : bool :=
  is_some_and (allowed allow) (proxied path).

(** ** Answers the router writes ([errors.rs]) *)

Definition UNKNOWN_BLOCK_CODE : Z := 3100002.

Inductive Busy :=
| BusyInFlight (n : Z)
| BusyNoUpstream
| BusyNoLiveUpstream
| BusyLostAfterSend.
#[export] Instance Busy_eq_dec : EqDecision Busy.
Proof. solve_decision. Defined.

Inductive RouterError :=
| ErrIllegalTarget
| ErrNotFound
| ErrTooLarge (limit : Z)
| ErrAnswerTooLarge (limit : Z)
| ErrBusy (why : Busy).
#[export] Instance RouterError_eq_dec : EqDecision RouterError.
Proof. solve_decision. Defined.

Definition error_status (e : RouterError) : Z :=
  match e with
  | ErrIllegalTarget => 400
  | ErrNotFound => 404
  | ErrTooLarge _ => 413
  | ErrAnswerTooLarge _ => 502
  | ErrBusy _ => 503
  end.

Definition busy_what (b : Busy) : string :=
  match b with
  | BusyInFlight n => String.append "Too many requests in flight: " (pretty n)
  | BusyNoUpstream => "No chain API upstream available"
  | BusyNoLiveUpstream => "No live chain API upstream available"
  | BusyLostAfterSend => "Upstream connection lost after the request was sent"
  end.

(** JSON text written with single quotes. *)
Fixpoint json_text (s : string) : string :=
  match s with
  | EmptyString => EmptyString
  | String.String c s =>
      String.String (if code c =? 39 then Ascii.ascii_of_nat 34 else c) (json_text s)
  end.

Section error_body.
(** [serde_json::to_string] of a string. *)
Context (json_string : string -> string).

Definition short_error (c : Z) (name what : string) : string :=
  let name := json_string name in
  foldr String.append EmptyString
    [json_text "{'code':"; pretty c; json_text ",'message':"; name;
     json_text ",'error':{'code':"; pretty c; json_text ",'name':"; name;
     json_text ",'what':"; json_string what; json_text ",'details':[]}}"].

Definition ILLEGAL_TARGET : string := json_text
  "{'code':400,'message':'Illegal request-target','error':{'code':0,'name':'','what':'','details':[]}}".
Definition NOT_FOUND : string := json_text
  "{'code':404,'message':'Not Found','error':{'code':0,'name':'exception','what':'unspecified','details':[{'message':'Unknown Endpoint','file':'beast_http_session.hpp','line_number':186,'method':'handle_request'}]}}".

Definition error_body (e : RouterError) : string :=
  match e with
  | ErrIllegalTarget => ILLEGAL_TARGET
  | ErrNotFound => NOT_FOUND
  | ErrTooLarge limit => short_error 413 "Payload Too Large"
      (foldr String.append EmptyString ["Request body exceeds "; pretty limit; " bytes"])
  | ErrAnswerTooLarge limit => short_error 502 "Bad Gateway"
      (foldr String.append EmptyString ["Upstream answer exceeds "; pretty limit; " bytes"])
  | ErrBusy why => short_error 503 "Busy" (busy_what why)
  end.
End error_body.

(** ** Hints ([hint.rs]) *)

(** [iter().position] and [iter().rposition]. *)
Fixpoint position {A} (f : A -> bool) (l : list A) : option nat :=
  match l with
  | [] => None
  | x :: l => if f x then Some 0%nat else S <$> position f l
  end.
Fixpoint rposition {A} (f : A -> bool) (l : list A) : option nat :=
  match l with
  | [] => None
  | x :: l =>
      match rposition f l with
      | Some i => Some (S i)
      | None => if f x then Some 0%nat else None
      end
  end.

Definition is_empty_content (body : list Z) : bool :=
  match position (fun b => negb (b =? 32)) body with
  | None => true
  | Some start =>
      let end_ := default start (rposition (fun b => negb (b =? 32)) body) in
      let trimmed := take (S end_ - start) (drop start body) in
      (1 <? zlen trimmed)
      && bool_decide (trimmed !! 0%nat = Some 123)
      && bool_decide (trimmed !! (length trimmed - 1)%nat = Some 125)
      && forallb (fun b => (b =? 32) || (b =? 9)) (take (length trimmed - 2) (drop 1 trimmed))
  end.

Record Hint := mkHint { hint_num : Z; by_id : bool }.
#[export] Instance Hint_eq_dec : EqDecision Hint.
Proof. solve_decision. Defined.

(** A value as [serde_json] reports it to a visitor: a non-negative integer that
    fits [u64], a negative one that fits [i64], any other number as a float. *)
Inductive Json :=
| JNull
| JBool (b : bool)
| JU64 (n : Z)
| JI64 (n : Z)
| JF64
| JStr (s : string)
| JArr (l : list Json)
| JObj (l : list (string * Json)).

Inductive Value := VUInt (v : Z) | VStr (s : string) | VOther.
#[export] Instance Value_eq_dec : EqDecision Value.
Proof. solve_decision. Defined.

Definition FC_FULL_LEVEL : Z := 100.

(** The visitor [Nested]: [false] is a deserialization error. *)
Fixpoint nested (level : Z) (v : Json) : bool :=
  match v with
  | JNull | JBool _ | JU64 _ | JI64 _ | JStr _ => true
  | JF64 => false
  | JArr l =>
      if FC_FULL_LEVEL <=? level then match l with [] => true | _ => false end
      else forallb (nested (level + 1)) l
  | JObj l =>
      if FC_FULL_LEVEL <=? level then match l with [] => true | _ => false end
      else forallb (fun kv : string * Json => nested (level + 1) kv.2) l
  end.

(** The visitor [HintValueVisitor]. *)
Definition hint_value (level : Z) (v : Json) : option Value :=
  match v with
  | JBool _ | JNull => Some VOther
  | JI64 v => Some (if (0 <=? v) && (v <=? u64_max) then VUInt v else VOther)
  | JU64 v => Some (VUInt v)
  | JF64 => None
  | JStr s => Some (VStr s)
  | JArr _ | JObj _ => if nested level v then Some VOther else None
  end.

(** The loop of [TopLevel::visit_map]: [None] is an error. *)
Fixpoint visit_map (key : string) (seen : list string) (found : option Value)
    (members : list (string * Json)) : option (option Value) :=
  match members with
  | [] => Some found
  | (k, v) :: members =>
      if bool_decide (k ∈ seen) then None
      else if bool_decide (k = key) then
        match hint_value 2 v with
        | Some x => visit_map key (k :: seen) (Some x) members
        | None => None
        end
      else if nested 2 v then visit_map key (k :: seen) found members
      else None
  end.

Definition digit_of (c : Ascii.ascii) : Z := code c - 48.

(** [str::parse::<u64>] on digits: [None] on overflow. *)
Fixpoint parse_digits (acc : Z) (s : string) : option Z :=
  match s with
  | EmptyString => Some acc
  | String.String c s =>
      match checked_mul u64_max acc 10 with
      | None => None
      | Some m =>
          match checked_add u64_max m (digit_of c) with
          | None => None
          | Some a => parse_digits a s
          end
      end
  end.

Definition as_u32 (v : Z) : Z := v mod 2 ^ 32.

Definition decimal (value : Value) : option Z :=
  match value with
  | VUInt v => Some (as_u32 v)
  | VStr s =>
      if ((1 <=? String.length s) && (String.length s <=? 64))%nat && all_chars is_ascii_digit s
      then as_u32 <$> parse_digits 0 s
      else None
  | VOther => None
  end.

(** [char::to_digit(16)]. *)
Definition hex_val (c : Ascii.ascii) : option Z :=
  if is_ascii_digit c then Some (code c - 48)
  else if (97 <=? code c) && (code c <=? 102) then Some (code c - 87)
  else if (65 <=? code c) && (code c <=? 70) then Some (code c - 55)
  else None.

Definition is_ascii_hexdigit (c : Ascii.ascii) : bool := is_some (hex_val c).

(** [u32::from_str_radix(_, 16)] on hex digits. *)
Fixpoint from_radix16 (acc : Z) (s : string) : option Z :=
  match s with
  | EmptyString => Some acc
  | String.String c s =>
      match hex_val c with
      | None => None
      | Some d =>
          match checked_mul u32_max acc 16 with
          | None => None
          | Some m =>
              match checked_add u32_max m d with
              | None => None
              | Some a => from_radix16 a s
              end
          end
      end
  end.

(** A zeroed buffer of eight digits with the first ones copied over. *)
Fixpoint pad_digits (n : nat) (s : string) : string :=
  match n with
  | O => EmptyString
  | S n =>
      match s with
      | EmptyString => String.String (Ascii.ascii_of_nat 48) (pad_digits n EmptyString)
      | String.String c s => String.String c (pad_digits n s)
      end
  end.

Definition hex_block_num (s : string) : option Z :=
  if bool_decide (s = EmptyString) || (64 <? String.length s)%nat
     || negb (Nat.even (String.length s)) || negb (all_chars is_ascii_hexdigit s)
  then None
  else from_radix16 0 (pad_digits 8 s).

Section hint.
Context (json_parse : list Z -> option Json).

Definition top_level_value (body : list Z) (key : string) : option Value :=
  match json_parse body with
  | Some (JObj members) => mjoin (visit_map key [] None members)
  | _ => None
  end.

Definition hint_key (ep : BlockEndpoint) : string :=
  match ep with EpBlockInfo => "block_num" | _ => "block_num_or_id" end.

Definition hint_of_value (ep : BlockEndpoint) (value : Value) : option Hint :=
  let number := (fun n => mkHint n false) <$> decimal value in
  match ep with
  | EpBlockInfo => number
  | EpBlockHeaderState =>
      or_else number
        (match value with
         | VStr s =>
             if (String.length s =? 64)%nat
             then (fun n => mkHint n true) <$> hex_block_num s else None
         | _ => None
         end)
  | EpBlock | EpBlockHeader | EpRawBlock =>
      or_else number
        (match value with
         | VStr s => (fun n => mkHint n true) <$> hex_block_num s
         | _ => None
         end)
  end.

Definition hint (ep : BlockEndpoint) (body : list Z) : option Hint :=
  if is_empty_content body || bool_decide (92 ∈ body) then None
  else
    match top_level_value body (hint_key ep) with
    | None => None
    | Some value => hint_of_value ep value
    end.
End hint.

(** ** Facts about dispatch *)

Lemma strip_prefix_app p s t : strip_prefix p s = Some t <-> s = String.append p t.
Proof.
  revert s. induction p as [|a p IH]; intros s.
  - change (Some s = Some t <-> s = t). split; congruence.
  - change (String.append (String.String a p) t) with (String.String a (String.append p t)).
    destruct s as [|b s]; [done|]. cbn [strip_prefix].
    destruct (Ascii.eqb_spec a b) as [->|Hab]; [rewrite IH|]; split; congruence.
Qed.

Lemma all_chars_not_contains f c s :
  all_chars f s = true -> f c = false ->
  contains (String.String c EmptyString) s = false.
Proof.
  intros Hs Hc. induction s as [|b s IH]; [done|].
  cbn [all_chars] in Hs. bools. cbn [contains strip_prefix].
  destruct (Ascii.eqb_spec c b) as [->|Hne]; [congruence|]. by apply IH.
Qed.

Lemma from_target_some target ep : from_target target = Some ep -> target = ep_path ep.
Proof.
  unfold from_target. intros [_ H]%List.find_some. by apply bool_decide_eq_true in H.
Qed.

(** The shape of a proxied target: the chain prefix and a plain name. *)
Definition chain_call (target : string) : Prop :=
  exists name, target = String.append CHAIN_PREFIX name /\ name <> EmptyString
    /\ all_chars name_char name = true /\ name <> "push_block".

Lemma proxied_chain_call target r : proxied target = Some r -> chain_call target.
Proof.
  unfold proxied. destruct (from_target target) as [ep|] eqn:E.
  - intros _. apply from_target_some in E as ->.
    destruct ep; eexists; (split; [reflexivity|]); (split; [done|]); split; done.
  - destruct (strip_prefix CHAIN_PREFIX target) as [name|] eqn:Ep; [|done].
    apply strip_prefix_app in Ep as ->.
    destruct (bool_decide (name = EmptyString) || _) eqn:E1; [done|]. bools.
    intros Hr. exists name. split_and!; [done..|]. intros ->. done.
Qed.

Lemma all_chars_append f p s :
  all_chars f (String.append p s) = all_chars f p && all_chars f s.
Proof.
  induction p as [|a p IH]; [done|].
  rewrite append_cons. cbn [all_chars]. by rewrite IH, andb_assoc.
Qed.

Lemma chain_call_plain target : chain_call target -> contains "?" target = false.
Proof.
  intros (name & -> & _ & Hall & _).
  apply (all_chars_not_contains (fun c => name_char c || (code c =? 47))); [|done].
  rewrite all_chars_append. apply andb_true_intro. split; [done|].
  clear -Hall. induction name as [|c name IH]; [done|]. cbn [all_chars] in *. bools.
  rewrite H. by apply IH.
Qed.

Lemma chain_call_served target :
  chain_call target -> exists r c, proxied target = Some r /\ route_class r = Some c.
Proof.
  intros (name & -> & Hne & Hall & Hpb). unfold proxied.
  destruct (from_target _) as [ep|]; [naive_solver|].
  rewrite (proj2 (strip_prefix_app CHAIN_PREFIX _ name)) by done.
  rewrite (bool_decide_eq_false_2 (name = EmptyString)), Hall by done. cbn.
  rewrite (bool_decide_eq_false_2 (name = "push_block")) by done.
  cases_bool; eauto.
Qed.

Lemma serves_path_call path allow :
  serves_path path allow = true <->
  chain_call path /\ exists r c, proxied path = Some r /\ route_class r = Some c /\ c ∈ allow.
Proof.
  unfold serves_path, allowed. destruct (proxied path) as [r|] eqn:E; cbn.
  - destruct (route_class r) as [c|] eqn:Ec; cbn.
    + rewrite bool_decide_eq_true. split; [|naive_solver]. intros Hc.
      split; [by eapply proxied_chain_call|eauto].
    + naive_solver.
  - naive_solver.
Qed.

Lemma chain_call_not_supported target : chain_call target -> target <> SUPPORTED_APIS.
Proof. intros (name & -> & _) H. done. Qed.

(** A request is proxied, under a class, exactly when its target is legal,
    its method is not OPTIONS and the listener serves that path for that class;
    a served path is the chain prefix and a plain name, so a query string, a
    dot-dot or a push of a block never reaches an upstream. Every such name is
    served when its class is allowed. *)
Theorem dispatch_exact (method : string) (uri : Uri) (allow : list ApiClass) :
  (forall c, route_class (route_classify method uri allow) = Some c <->
     method <> METHOD_OPTIONS
     /\ exists target, origin_target uri = Some target
          /\ serves_path target allow = true /\ proxied target ≫= route_class = Some c)
  /\ (forall path, serves_path path allow = true -> chain_call path /\ contains "?" path = false)
  /\ (forall path, chain_call path ->
        exists c, proxied path ≫= route_class = Some c
          /\ (serves_path path allow = true <-> c ∈ allow)).
Proof.
  split_and!.
  - intros c. unfold route_classify. destruct (origin_target uri) as [target|]; [|naive_solver].
    destruct (bool_decide (method = METHOD_OPTIONS)) eqn:Em; bools; [naive_solver|].
    split.
    + destruct (bool_decide (target = SUPPORTED_APIS)) eqn:Es; [done|].
      destruct (proxied target) as [r|] eqn:Ep; [|done].
      destruct (allowed allow r) eqn:Ea; [|done]. intros Hc.
      split; [done|]. exists target. unfold serves_path. by rewrite Ep.
    + intros (_ & t & [= <-] & Hserves & Hc). pose proof Hserves as [Hcall _]%serves_path_call.
      rewrite bool_decide_eq_false_2 by (by apply chain_call_not_supported).
      unfold serves_path in Hserves. destruct (proxied target) as [r|] eqn:Ep; [|done].
      cbn in Hserves, Hc. by rewrite Hserves.
  - intros path [Hcall _]%serves_path_call. split; [done|]. by apply chain_call_plain.
  - intros path Hcall. destruct (chain_call_served path Hcall) as (r & c & Hr & Hc).
    exists c. rewrite Hr. cbn. split; [done|]. rewrite serves_path_call. naive_solver.
Qed.

(** ** Facts about hints *)

Section json_induction.
Context (P : Json -> Prop)
  (Hscalar : forall v, (match v with JArr _ | JObj _ => False | _ => True end) -> P v)
  (Harr : forall l, Forall P l -> P (JArr l))
  (Hobj : forall l, Forall (fun kv : string * Json => P kv.2) l -> P (JObj l)).

Fixpoint json_induction (v : Json) : P v :=
  match v with
  | JArr l => Harr l ((fix go l : Forall P l :=
      match l with [] => List.Forall_nil _ | x :: l => List.Forall_cons _ x l (json_induction x) (go l) end) l)
  | JObj l => Hobj l ((fix go l : Forall (fun kv : string * Json => P kv.2) l :=
      match l with [] => List.Forall_nil _ | x :: l => List.Forall_cons _ x l (json_induction x.2) (go l) end) l)
  | v => Hscalar v I
  end.
End json_induction.

(** No number in [v] is a float, and the levels of [v] that hold something. *)
Fixpoint no_float (v : Json) : Prop :=
  match v with
  | JF64 => False
  | JArr l => foldr (fun x p => no_float x /\ p) True l
  | JObj l => foldr (fun (kv : string * Json) p => no_float kv.2 /\ p) True l
  | _ => True
  end.

Fixpoint full_levels (v : Json) : Z :=
  match v with
  | JArr (x :: l) => 1 + foldr (fun x m => Z.max (full_levels x) m) 0 (x :: l)
  | JObj (x :: l) => 1 + foldr (fun (kv : string * Json) m => Z.max (full_levels kv.2) m) 0 (x :: l)
  | _ => 0
  end.

Lemma nested_members {A} (f : A -> Json) level l :
  level < FC_FULL_LEVEL ->
  Forall (fun x => forall level, level <= FC_FULL_LEVEL ->
    nested level (f x) = true <-> no_float (f x) /\ level + full_levels (f x) <= FC_FULL_LEVEL) l ->
  forallb (fun x => nested (level + 1) (f x)) l = true <->
  foldr (fun x p => no_float (f x) /\ p) True l
  /\ (l = [] \/ level + (1 + foldr (fun x m => Z.max (full_levels (f x)) m) 0 l) <= FC_FULL_LEVEL).
Proof.
  intros Hl. induction 1 as [|x l Hx _ IH]; [cbn; naive_solver|].
  cbn [forallb foldr]. rewrite andb_true_iff, IH, (Hx (level + 1)) by lia.
  destruct l as [|y l]; cbn [foldr] in *; [|].
  - split; [intros [[? ?] _]; split; [done|right; lia]|].
    intros [[? _] [?|?]]; [done|]. split; [split; [done|lia]|auto].
  - split; [intros [[? ?] [? [?|?]]]; [done|]; split; [done|right; lia]|].
    intros [[? ?] [?|?]]; [done|]. split; [split; [done|lia]|split; [done|right; lia]].
Qed.

Lemma nested_exact level v :
  level <= FC_FULL_LEVEL ->
  nested level v = true <-> no_float v /\ level + full_levels v <= FC_FULL_LEVEL.
Proof.
  revert level. induction v as [v Hv|l Hl|l Hl] using json_induction; intros level Hle.
  - destruct v; try done; cbn; (split; [intros H|intros [H1 H2]]); first [done|split; [done|lia]].
  - cbn [nested]. destruct (FC_FULL_LEVEL <=? level) eqn:E; bools.
    + destruct l as [|x l]; [cbn; split; [intros _; split; [done|lia]|done]|].
      split; [done|]. intros [_ H]. exfalso. cbn in H. revert H.
      assert (0 <= foldr (fun x m => Z.max (full_levels x) m) 0 l)
        by (clear; induction l; cbn; lia). lia.
    + rewrite (nested_members id level l E Hl).
      destruct l as [|x l]; [cbn; split; intros; split; naive_solver lia|].
      split; (intros [? ?]; split; [done|]); [naive_solver|by right].
  - cbn [nested]. destruct (FC_FULL_LEVEL <=? level) eqn:E; bools.
    + destruct l as [|x l]; [cbn; split; [intros _; split; [done|lia]|done]|].
      split; [done|]. intros [_ H]. exfalso. cbn in H. revert H.
      assert (0 <= foldr (fun (x : string * Json) m => Z.max (full_levels x.2) m) 0 l)
        by (clear; induction l; cbn; lia). lia.
    + rewrite (nested_members snd level l E Hl).
      destruct l as [|x l]; [cbn; split; intros; split; naive_solver lia|].
      split; (intros [? ?]; split; [done|]); [naive_solver|by right].
Qed.

(** *** Ids: pairs of hex digits, most significant byte first *)

Fixpoint hex_pairs (s : string) : option (list Z) :=
  match s with
  | EmptyString => Some []
  | String.String a (String.String b s) =>
      match hex_val a, hex_val b, hex_pairs s with
      | Some hi, Some lo, Some l => Some ((hi * 16 + lo) :: l)
      | _, _, _ => None
      end
  | _ => None
  end.

Definition from_be (l : list Z) : Z := foldl (fun acc b => acc * 256 + b) 0 l.

Lemma hex_val_bound c d : hex_val c = Some d -> 0 <= d < 16.
Proof.
  unfold hex_val, is_ascii_digit.
  destruct ((48 <=? code c) && _) eqn:E1; [intros [= <-]; bools; lia|].
  destruct ((97 <=? code c) && _) eqn:E2; [intros [= <-]; bools; lia|].
  destruct ((65 <=? code c) && _) eqn:E3; [intros [= <-]; bools; lia|done].
Qed.

(** Strings are read two characters at a time. *)
Lemma string_pair_ind (P : string -> Prop) :
  P EmptyString -> (forall a, P (String.String a EmptyString)) ->
  (forall a b s, P s -> P (String.String a (String.String b s))) -> forall s, P s.
Proof.
  intros H0 H1 H2 s. enough (P s /\ forall a, P (String.String a s)) by tauto.
  induction s as [|c s [IH1 IH2]]; auto.
Qed.

Lemma hex_pairs_some s bs :
  hex_pairs s = Some bs ->
  all_chars is_ascii_hexdigit s = true /\ String.length s = (2 * length bs)%nat /\ Forall is_u8 bs.
Proof.
  revert bs. induction s as [|a|a b s IH] using string_pair_ind; intros bs.
  - intros [= <-]. by repeat constructor.
  - done.
  - cbn [hex_pairs all_chars String.length]. unfold is_ascii_hexdigit at 1 2.
    destruct (hex_val a) as [hi|] eqn:Ea, (hex_val b) as [lo|] eqn:Eb; try done.
    destruct (hex_pairs s) as [l|]; [|done]. intros [= <-].
    destruct (IH l) as (H1 & H2 & H3); [done|]. rewrite H1, H2. cbn [length is_some].
    apply hex_val_bound in Ea, Eb. split_and!; [done|lia|constructor; [mlia|done]].
Qed.

Lemma hex_pairs_even s :
  all_chars is_ascii_hexdigit s = true -> Nat.even (String.length s) = true ->
  is_Some (hex_pairs s).
Proof.
  induction s as [|a|a b s IH] using string_pair_ind; [by eexists|done|].
  cbn [hex_pairs all_chars String.length Nat.even]. unfold is_ascii_hexdigit at 1 2.
  intros H He. bools. destruct (hex_val a), (hex_val b); try done.
  destruct IH as [l ->]; [done..|]. by eexists.
Qed.

Lemma from_radix16_pair a b s acc hi lo :
  hex_val a = Some hi -> hex_val b = Some lo -> 0 <= acc < 2 ^ 24 ->
  from_radix16 acc (String.String a (String.String b s)) = from_radix16 (acc * 256 + (hi * 16 + lo)) s.
Proof.
  intros Ha Hb Hacc. cbn [from_radix16]. rewrite Ha, Hb.
  apply hex_val_bound in Ha, Hb. unfold checked_mul, checked_add, u32_max.
  rewrite !(proj2 (Z.leb_le _ _)) by lia. f_equal. lia.
Qed.

Lemma take_pad k m (l : list Z) :
  (k <= m)%nat -> take k (l ++ replicate m 0) = take k (l ++ replicate k 0).
Proof. intros. rewrite !take_app, !take_replicate. do 2 f_equal. lia. Qed.

Lemma from_radix16_pad k s bs acc :
  hex_pairs s = Some bs -> (k <= 4)%nat -> 0 <= acc < 256 ^ Z.of_nat (4 - k) ->
  from_radix16 acc (pad_digits (2 * k) s)
  = Some (foldl (fun acc b => acc * 256 + b) acc (take k (bs ++ replicate k 0))).
Proof.
  revert s bs acc. induction k as [|k IH]; intros s bs acc Hs Hk Hacc; [done|].
  replace (2 * S k)%nat with (S (S (2 * k))) by lia.
  assert (256 ^ Z.of_nat (4 - k) = 256 * 256 ^ Z.of_nat (4 - S k)) as Epow.
  { rewrite <-Z.pow_succ_r by lia. f_equal. lia. }
  assert (256 ^ Z.of_nat (4 - S k) <= 256 ^ 3) by (apply Z.pow_le_mono_r; lia).
  destruct s as [|a [|b s]]; [|done|].
  - injection Hs as <-. cbn [pad_digits].
    rewrite (from_radix16_pair _ _ _ acc 0 0) by (done || lia).
    rewrite (IH EmptyString [] (acc * 256 + (0 * 16 + 0))); [|done|lia|lia].
    cbn [app repeat take foldl]. done.
  - cbn [hex_pairs] in Hs.
    destruct (hex_val a) as [hi|] eqn:Ea, (hex_val b) as [lo|] eqn:Eb; try done.
    destruct (hex_pairs s) as [l|] eqn:El; [|done]. injection Hs as <-. cbn [pad_digits].
    rewrite (from_radix16_pair _ _ _ _ _ _ Ea Eb) by lia.
    apply hex_val_bound in Ea, Eb.
    rewrite (IH s l) by (done || lia). cbn [app take foldl]. do 2 f_equal.
    by rewrite (take_pad k (S k)) by lia.
Qed.

(** The block number of an id text: the big-endian value of the first four
    bytes of a 32-byte id the text's bytes are copied into. *)
Lemma hex_block_num_exact s n :
  hex_block_num s = Some n <->
  exists bs, hex_pairs s = Some bs /\ (1 <= length bs <= 32)%nat
    /\ n = from_be (take 4 (bs ++ replicate 32 0)).
Proof.
  unfold hex_block_num. destruct (_ || negb (all_chars _ _)) eqn:E.
  - split; [done|]. intros (bs & Hbs & Hlen & _).
    destruct (hex_pairs_some s bs Hbs) as (H1 & H2 & _). exfalso.
    rewrite H1, H2 in E. rewrite (bool_decide_eq_false_2 (s = EmptyString)) in E
      by (intros ->; injection Hbs as <-; cbn in *; lia).
    rewrite (proj2 (Nat.ltb_ge _ _)) in E by lia. rewrite Nat.even_even in E. done.
  - repeat (apply orb_false_iff in E; destruct E as [E ?]). bools.
    destruct (hex_pairs_even s) as [bs Hbs]; [done..|].
    destruct (hex_pairs_some s bs Hbs) as (H3 & H4 & _).
    change 8%nat with (2 * 4)%nat. rewrite (from_radix16_pad 4 s bs 0 Hbs) by lia. rewrite <-(take_pad 4 32) by lia.
    assert (1 <= length bs <= 32)%nat.
    { destruct s; [done|]. cbn in H4. apply Nat.ltb_ge in H1. cbn in H1. lia. }
    split; [intros [= <-]; eauto|]. intros (bs' & Hbs' & _ & ->). rewrite Hbs in Hbs'. by injection Hbs' as <-.
Qed.

(** *** Decimal texts *)

(** The value of a text of digits, most significant first. *)
Fixpoint digits_value (acc : Z) (s : string) : Z :=
  match s with
  | EmptyString => acc
  | String.String c s => digits_value (acc * 10 + digit_of c) s
  end.

Lemma digits_value_ge acc s :
  0 <= acc -> all_chars is_ascii_digit s = true -> acc <= digits_value acc s.
Proof.
  revert acc. induction s as [|c s IH]; intros acc Hacc H; [done|].
  cbn [all_chars digits_value] in *. unfold is_ascii_digit in H at 1. bools. unfold digit_of.
  etransitivity; [|apply IH; [lia|done]]. lia.
Qed.

Lemma parse_digits_exact acc s :
  0 <= acc <= u64_max -> all_chars is_ascii_digit s = true ->
  parse_digits acc s = if digits_value acc s <=? u64_max then Some (digits_value acc s) else None.
Proof.
  revert acc. induction s as [|c s IH]; intros acc Hacc H.
  - cbn. by rewrite (proj2 (Z.leb_le _ _)) by lia.
  - cbn [all_chars parse_digits digits_value] in *. bools.
    pose proof H as Hc. unfold is_ascii_digit in Hc. bools. unfold digit_of in *.
    assert (acc * 10 + (code c - 48) <= digits_value (acc * 10 + (code c - 48)) s)
      by (apply digits_value_ge; [lia|done]).
    unfold checked_mul, checked_add.
    destruct (acc * 10 <=? u64_max) eqn:E1; bools; [|by rewrite (proj2 (Z.leb_gt _ _)) by lia].
    destruct (acc * 10 + (code c - 48) <=? u64_max) eqn:E2; bools;
      [|by rewrite (proj2 (Z.leb_gt _ _)) by lia].
    apply IH; [lia|done].
Qed.

(** A text fc reads as a number. *)
Definition number_text (s : string) (v : Z) : Prop :=
  (1 <= String.length s <= 64)%nat /\ all_chars is_ascii_digit s = true
  /\ digits_value 0 s = v /\ v <= u64_max.

Lemma decimal_text s n :
  decimal (VStr s) = Some n <-> exists v, number_text s v /\ n = v mod 2 ^ 32.
Proof.
  cbn [decimal]. unfold number_text. destruct (_ && all_chars _ _) eqn:E.
  - bools. apply Nat.leb_le in H, H1. rewrite parse_digits_exact by (done || mlia).
    destruct (digits_value 0 s <=? u64_max) eqn:Ev; bools; cbn.
    + split; [intros [= <-]; eauto 10|]. by intros (v & (_ & _ & <- & _) & ->).
    + split; [done|]. intros (v & (_ & _ & <- & ?) & _). lia.
  - split; [done|]. intros (v & (Hl & Hd & _) & _). exfalso.
    rewrite Hd in E. rewrite !(proj2 (Nat.leb_le _ _)) in E by lia. done.
Qed.

(** *** The top-level object *)

Lemma hint_value_nested v : is_Some (hint_value 2 v) <-> nested 2 v = true.
Proof.
  destruct v; cbn [hint_value nested]; try (by split; [|eauto]); try (by split; [intros []|]).
  all: match goal with |- context [if ?b then _ else _] => destruct b end; split; eauto;
    try done; by intros [].
Qed.

Definition member (key : string) (l : list (string * Json)) : option Json :=
  snd <$> List.find (fun kv : string * Json => bool_decide (kv.1 = key)) l.

Lemma visit_map_exact key seen found ms r :
  visit_map key seen found ms = Some r <->
  NoDup ms.*1 /\ (forall k, k ∈ ms.*1 -> k ∉ seen)
  /\ Forall (fun kv : string * Json => nested 2 kv.2 = true) ms
  /\ r = match member key ms with Some v => hint_value 2 v | None => found end.
Proof.
  revert seen found. induction ms as [|[k v] ms IH]; intros seen found; cbn [visit_map fmap list_fmap].
  { cbn. split; [intros [= <-]; split_and!; try constructor; try done; by intros k ?%elem_of_nil|].
    by intros (_ & _ & _ & ->). }
  destruct (bool_decide (k ∈ seen)) eqn:Es; bools.
  { split; [done|]. intros (_ & H & _). exfalso. apply (H k); [by left|done]. }
  assert (Hrest : (NoDup ((k :: ms.*1) : list string)
      /\ forall k', k' ∈ k :: ms.*1 -> k' ∉ seen) <->
    NoDup ms.*1 /\ forall k', k' ∈ ms.*1 -> k' ∉ k :: seen).
  { rewrite NoDup_cons. split.
    - intros [[H1 H2] H3]. split; [done|]. intros k' Hk' [->|Hin]%elem_of_cons; [done|].
      apply (H3 k'); [by right|done].
    - intros [H1 H2]. split; [split; [|done]|].
      + intros Hk. apply (H2 k Hk). by left.
      + intros k' [->|Hk']%elem_of_cons; [done|]. intros Hin. apply (H2 k' Hk'). by right. }
  unfold member in *. cbn [List.find fst]. rewrite Forall_cons. cbn [snd].
  destruct (bool_decide (k = key)) eqn:Ek; bools.
  - subst k. cbn. rewrite <-hint_value_nested.
    destruct (hint_value 2 v) as [x|] eqn:Ev.
    + rewrite IH. assert (key ∉ ms.*1 -> List.find (fun kv : string * Json =>
        bool_decide (kv.1 = key)) ms = None) as Hnone.
      { intros Hk. destruct (List.find _ ms) as [kv|] eqn:Ef; [|done]. exfalso.
        apply List.find_some in Ef as [Hin%list_elem_of_In Hkv]. bools. subst key.
        apply Hk. apply list_elem_of_fmap. eauto. }
      split.
      * intros (H1 & H2 & H3 & ->). rewrite Hnone by (intros Hk; apply (H2 key Hk); by left).
        cbn. apply and_assoc. split; [by apply Hrest|]. split; [split; [eauto|done]|done].
      * intros (H1 & H2 & [_ H3] & ->). destruct (proj1 Hrest (conj H1 H2)) as [H4 H5].
        split_and!; try done. by rewrite Hnone by (by apply NoDup_cons in H1 as [? _]).
    + split; [done|]. by intros (_ & _ & [[? ?] _] & _).
  - destruct (nested 2 v) eqn:Ev.
    + rewrite IH. split.
      * intros (H1 & H2 & H3 & ->). apply and_assoc. split; [by apply Hrest|done].
      * intros (H1 & H2 & [_ H3] & ->). destruct (proj1 Hrest (conj H1 H2)). done.
    + split; [done|]. by intros (_ & _ & [? _] & _).
Qed.

(** *** The empty body *)

Lemma position_app {A} (f : A -> bool) a x b :
  Forall (fun y => f y = false) a -> f x = true -> position f (a ++ x :: b) = Some (length a).
Proof.
  intros Ha Hx. induction Ha as [|y a Hy _ IH]; cbn; [by rewrite Hx|]. by rewrite Hy, IH.
Qed.

Lemma rposition_app {A} (f : A -> bool) a x b :
  Forall (fun y => f y = false) b -> f x = true -> rposition f (a ++ x :: b) = Some (length a).
Proof.
  intros Hb Hx. assert (rposition f b = None) as Hn.
  { induction Hb as [|y b Hy _ IH]; [done|]. cbn. by rewrite IH, Hy. }
  induction a as [|y a IH]; cbn; [by rewrite Hn, Hx|by rewrite IH].
Qed.

Lemma split_first {A} (f : A -> bool) l :
  Forall (fun y => f y = false) l
  \/ exists a x b, l = a ++ x :: b /\ Forall (fun y => f y = false) a /\ f x = true.
Proof.
  induction l as [|y l [IH|(a & x & b & -> & Ha & Hx)]]; [by left|..];
    destruct (f y) eqn:Ey.
  - right. by exists [], y, l.
  - left. by constructor.
  - right. by exists [], y, (a ++ x :: b).
  - right. exists (y :: a), x, b. split_and!; [done|by constructor|done].
Qed.

Lemma split_last {A} (f : A -> bool) l :
  Forall (fun y => f y = false) l
  \/ exists a x b, l = a ++ x :: b /\ Forall (fun y => f y = false) b /\ f x = true.
Proof.
  induction l as [|y l [IH|(a & x & b & -> & Hb & Hx)]]; [by left|..].
  - destruct (f y) eqn:Ey; [right; by exists [], y, l|left; by constructor].
  - right. by exists (y :: a), x, b.
Qed.

Definition not_space (b : Z) : bool := negb (b =? 32).
Definition spaces (l : list Z) : Prop := Forall (fun b => not_space b = false) l.

Lemma position_none {A} (f : A -> bool) l :
  Forall (fun y => f y = false) l -> position f l = None.
Proof. induction 1 as [|y l Hy _ IH]; [done|]. cbn. by rewrite Hy, IH. Qed.

(** The body between its outer spaces. *)
Lemma trimmed_body a t b :
  spaces a -> spaces b -> is_some_and not_space (head t) = true ->
  is_some_and not_space (last t) = true ->
  position not_space (a ++ t ++ b) = Some (length a)
  /\ rposition not_space (a ++ t ++ b) = Some (length a + length t - 1)%nat
  /\ take (S (length a + length t - 1) - length a) (drop (length a) (a ++ t ++ b)) = t.
Proof.
  intros Ha Hb Hh Hl. destruct t as [|x t]; [done|]. cbn in Hh.
  split; [by apply position_app|]. split.
  - destruct (last (x :: t)) as [y|] eqn:El; [|done]. cbn in Hl.
    apply last_Some in El as [t' ->].
    replace (a ++ (t' ++ [y]) ++ b) with ((a ++ t') ++ y :: b) by (by rewrite <-!app_assoc).
    rewrite rposition_app by done. rewrite !length_app. cbn. f_equal. lia.
  - rewrite drop_app_length. apply take_app_length'. cbn. lia.
Qed.

(** An empty body: spaces, or braces around spaces and tabs between spaces. *)
Definition empty_body (body : list Z) : Prop :=
  spaces body
  \/ exists a m b, body = a ++ (123 :: m ++ [125]) ++ b /\ spaces a /\ spaces b
       /\ Forall (fun c => c = 32 \/ c = 9) m.

Definition trims (t : list Z) : Prop :=
  is_some_and not_space (head t) = true /\ is_some_and not_space (last t) = true.

Lemma trim_unique a t b a' t' b' :
  spaces a -> spaces b -> trims t -> spaces a' -> spaces b' -> trims t' ->
  a ++ t ++ b = a' ++ t' ++ b' -> t = t'.
Proof.
  intros Ha Hb [Hh Hl] Ha' Hb' [Hh' Hl'] Heq.
  destruct (trimmed_body a t b Ha Hb Hh Hl) as (H1 & H2 & H3).
  destruct (trimmed_body a' t' b' Ha' Hb' Hh' Hl') as (H1' & H2' & H3').
  rewrite <-H3, <-H3', Heq. rewrite Heq in H1, H2. rewrite H1 in H1'. rewrite H2 in H2'.
  injection H1' as E1. injection H2' as E2. by rewrite E2, E1.
Qed.

Lemma trim_exists body :
  spaces body \/ exists a t b, body = a ++ t ++ b /\ spaces a /\ spaces b /\ trims t.
Proof.
  destruct (split_first not_space body) as [Hall|(a & x & r & -> & Ha & Hx)]; [by left|right].
  destruct (split_last not_space (x :: r)) as [H|(u & y & b & Er & Hb & Hy)].
  { inversion H; congruence. }
  exists a, (u ++ [y]), b. rewrite Er, <-app_assoc. unfold trims. rewrite last_snoc.
  split_and!; [done..| |by cbn].
  destruct u as [|z u]; [by cbn|]. injection Er as <- _. done.
Qed.

Definition braces (t : list Z) : bool :=
  (1 <? zlen t) && bool_decide (t !! 0%nat = Some 123)
  && bool_decide (t !! (length t - 1)%nat = Some 125)
  && forallb (fun b => (b =? 32) || (b =? 9)) (take (length t - 2) (drop 1 t)).

Lemma braces_exact t :
  braces t = true <-> exists m, t = 123 :: m ++ [125] /\ Forall (fun c => c = 32 \/ c = 9) m.
Proof.
  unfold braces. destruct t as [|c t]; [split; [done|naive_solver]|].
  destruct t as [|d t _] using rev_ind.
  { split; [done|]. intros (m & [= _ Hm] & _). by destruct m. }
  cbn [length drop skipn]. rewrite length_app. cbn [length].
  replace (S (length t + 1) - 1)%nat with (S (length t)) by lia.
  replace (S (length t + 1) - 2)%nat with (length t) by lia.
  rewrite drop_0, take_app_length. cbn [lookup list_lookup].
  rewrite (list_lookup_middle t [] d) by done.
  rewrite !andb_true_iff, !bool_decide_eq_true, Z.ltb_lt, List.forallb_forall.
  split.
  - intros [[[_ [= ->]] [= ->]] Hsp]. exists t. split; [done|].
    rewrite Forall_forall. intros z Hz%list_elem_of_In. apply Hsp in Hz.
    apply orb_true_iff in Hz as [Hz|Hz]; bools; auto.
  - intros (m & [= -> Hm] & H). apply app_inj_2 in Hm as [-> [= ->]]; [|done].
    split_and!; [lia|done..|]. intros z Hz%list_elem_of_In. rewrite Forall_forall in H.
    apply orb_true_iff. destruct (H z Hz) as [-> | ->]; auto.
Qed.

Lemma is_empty_content_exact body : is_empty_content body = true <-> empty_body body.
Proof.
  unfold is_empty_content. change (fun b => negb (b =? 32)) with not_space.
  destruct (trim_exists body) as [Hall|(a & t & b & -> & Ha & Hb & Ht)].
  { rewrite position_none by done. split; [by left|done]. }
  pose proof Ht as [Hh Hl]. destruct (trimmed_body a t b Ha Hb Hh Hl) as (-> & -> & E).
  change (braces (take (S (length a + length t - 1) - length a) (drop (length a) (a ++ t ++ b)))
    = true <-> empty_body (a ++ t ++ b)). rewrite E.
  rewrite braces_exact. split.
  - intros (m & -> & Hm). right. eauto 10.
  - intros [Hs|(a' & m & b' & Heq & Ha' & Hb' & Hm)].
    + exfalso. apply Forall_app in Hs as [_ [Hs _]%Forall_app].
      destruct t; [done|]. inversion Hs; subst. cbn in Hh. congruence.
    + exists m. split; [|done]. eapply trim_unique; [..|exact Heq]; try done.
      split; [done|]. change (123 :: m ++ [125]) with ((123 :: m) ++ [125]).
      by rewrite last_snoc.
Qed.

(** *** The block a body names *)

(** How nodeos reads the value of the block key. *)
Inductive names (ep : BlockEndpoint) : Json -> Hint -> Prop :=
| names_u64 v : names ep (JU64 v) (mkHint (v mod 2 ^ 32) false)
| names_i64 v : 0 <= v <= u64_max -> names ep (JI64 v) (mkHint (v mod 2 ^ 32) false)
| names_digits s v : number_text s v -> names ep (JStr s) (mkHint (v mod 2 ^ 32) false)
| names_id s bs :
    ep <> EpBlockInfo -> ~ (exists v, number_text s v) -> hex_pairs s = Some bs ->
    (1 <= length bs <= 32)%nat -> (ep = EpBlockHeaderState -> length bs = 32%nat) ->
    names ep (JStr s) (mkHint (from_be (take 4 (bs ++ replicate 32 0))) true).

Lemma id_text s h :
  (fun n => mkHint n true) <$> hex_block_num s = Some h <->
  exists bs, hex_pairs s = Some bs /\ (1 <= length bs <= 32)%nat
    /\ h = mkHint (from_be (take 4 (bs ++ replicate 32 0))) true.
Proof.
  rewrite fmap_Some. split.
  - intros (n & Hn & ->). apply hex_block_num_exact in Hn as (bs & ? & ? & ->). eauto.
  - intros (bs & ? & ? & ->). eexists. split; [|done]. apply hex_block_num_exact. eauto.
Qed.

Lemma hint_of_text ep s h : hint_of_value ep (VStr s) = Some h <-> names ep (JStr s) h.
Proof.
  unfold hint_of_value. destruct (decimal (VStr s)) as [n|] eqn:E.
  - pose proof E as (v & Hv & ->)%decimal_text.
    assert (Some (mkHint (v mod 2 ^ 32) false) = Some h <-> names ep (JStr s) h) as <-.
    { split; [intros [= <-]; by constructor|]. inversion 1 as [| |? v' Hv'|]; subst.
      - destruct Hv as (_ & _ & <- & _), Hv' as (_ & _ & <- & _). done.
      - exfalso. eauto. }
    by destruct ep.
  - assert (~ exists v, number_text s v) as Hno.
    { intros [v Hv]. assert (decimal (VStr s) = Some (v mod 2 ^ 32)) by (apply decimal_text; eauto).
      congruence. }
    assert (names ep (JStr s) h <-> ep <> EpBlockInfo
      /\ exists bs, hex_pairs s = Some bs /\ (1 <= length bs <= 32)%nat
           /\ (ep = EpBlockHeaderState -> length bs = 32%nat)
           /\ h = mkHint (from_be (take 4 (bs ++ replicate 32 0))) true) as ->.
    { split; [inversion 1; subst; [exfalso|]; eauto 10|].
      intros (? & bs & ? & ? & ? & ->). by constructor. }
    pose proof (id_text s h) as Hid. set (id := (fun n => mkHint n true) <$> hex_block_num s) in *.
    clearbody id. cbn [fmap option_fmap option_map or_else].
    destruct ep; [| |destruct (String.length s =? 64)%nat eqn:El| |].
    1,2,6: rewrite Hid; split; [intros (bs & ? & ? & ->); split; [done|]; exists bs; split_and!; by try lia|naive_solver].
    + rewrite Hid. apply Nat.eqb_eq in El. split; [|naive_solver].
      intros (bs & Hbs & ? & ->). split; [done|]. exists bs. split_and!; try done; try lia.
      intros _. destruct (hex_pairs_some s bs Hbs) as (_ & ? & _). lia.
    + apply Nat.eqb_neq in El. split; [done|]. intros (_ & bs & Hbs & _ & Hlen & _).
      destruct (hex_pairs_some s bs Hbs) as (_ & ? & _). rewrite Hlen in * by done. lia.
    + naive_solver.
Qed.

Lemma hint_of_json ep v h :
  nested 2 v = true ->
  (exists x, hint_value 2 v = Some x /\ hint_of_value ep x = Some h) <-> names ep v h.
Proof.
  assert (hint_of_value ep VOther = None) as Hother by (by destruct ep).
  assert (forall n, hint_of_value ep (VUInt n) = Some (mkHint (n mod 2 ^ 32) false)) as Huint
    by (by destruct ep).
  destruct v as [|b|n|n| |s|l|l]; intros Hn; cbn [hint_value].
  - split; [naive_solver|inversion 1].
  - split; [naive_solver|inversion 1].
  - split; [intros (x & [= <-] & Hx); rewrite Huint in Hx; injection Hx as <-; constructor|].
    inversion 1; subst. eauto.
  - destruct (_ && _) eqn:E; bools.
    + split; [intros (x & [= <-] & Hx); rewrite Huint in Hx; injection Hx as <-; by constructor|].
      inversion 1; subst. eauto.
    + split; [intros (x & [= <-] & Hx); congruence|]. inversion 1; subst.
      apply andb_false_iff in E as [E|E]; bools; lia.
  - done.
  - split; [intros (x & [= <-] & Hx); by apply hint_of_text|].
    intros Hx. eexists. split; [done|]. by apply hint_of_text.
  - rewrite Hn. split; [intros (x & [= <-] & Hx); congruence|inversion 1].
  - rewrite Hn. split; [intros (x & [= <-] & Hx); congruence|inversion 1].
Qed.

(** A block body gives a routing hint exactly when it is not an empty body,
    holds no backslash, and is a JSON object with distinct keys, no float and no
    nesting past what fc reads, whose block key names a block: an integer or a
    decimal text is a number, truncated to 32 bits; any other text of hex pairs
    is an id, and the hint is the big-endian number of its first four bytes.
    [get_block_info] takes numbers only, [get_block_header_state] whole ids. *)
Theorem hint_exact (json_parse : list Z -> option Json) ep body h :
  hint json_parse ep body = Some h <->
  ~ empty_body body /\ 92 ∉ body
  /\ exists members v, json_parse body = Some (JObj members) /\ NoDup members.*1
       /\ Forall (fun kv : string * Json =>
            no_float kv.2 /\ 2 + full_levels kv.2 <= FC_FULL_LEVEL) members
       /\ member (hint_key ep) members = Some v /\ names ep v h.
Proof.
  unfold hint. rewrite <-is_empty_content_exact.
  destruct (is_empty_content body) eqn:Ee; [cbn; naive_solver|].
  destruct (bool_decide (92 ∈ body)) eqn:Eb; bools; [cbn; naive_solver|]. cbn [orb].
  transitivity (exists members v x, json_parse body = Some (JObj members)
    /\ NoDup members.*1
    /\ Forall (fun kv : string * Json => nested 2 kv.2 = true) members
    /\ member (hint_key ep) members = Some v /\ hint_value 2 v = Some x
    /\ hint_of_value ep x = Some h).
  - unfold top_level_value. destruct (json_parse body) as [[]|]; try (split; [done|naive_solver]).
    destruct (visit_map _ _ _ _) as [r|] eqn:Ev; cbn.
    + apply visit_map_exact in Ev as (H1 & _ & H3 & ->).
      destruct (member (hint_key ep) l) as [v|] eqn:Em; [|naive_solver].
      destruct (hint_value 2 v) as [x|] eqn:Ex; naive_solver.
    + split; [done|]. intros (l' & v & x & [= <-] & H1 & H2 & H3 & H4 & _). exfalso.
      assert (visit_map (hint_key ep) [] None l = Some (Some x)) as E; [|congruence].
      apply visit_map_exact. split_and!; try done; [by intros k _ ?%elem_of_nil|].
      by rewrite H3, H4.
  - assert (forall members : list (string * Json),
      Forall (fun kv => nested 2 kv.2 = true) members <->
      Forall (fun kv => no_float kv.2 /\ 2 + full_levels kv.2 <= FC_FULL_LEVEL) members) as Hn.
    { intros ms. apply Forall_iff. intros kv. by apply nested_exact. }
    assert (forall members v, Forall (fun kv : string * Json => nested 2 kv.2 = true) members ->
      member (hint_key ep) members = Some v ->
      (exists x, hint_value 2 v = Some x /\ hint_of_value ep x = Some h) <-> names ep v h) as Hv.
    { intros ms v Hall (kv & Hf & ->)%fmap_Some. apply List.find_some in Hf as [Hf%list_elem_of_In _].
      rewrite Forall_forall in Hall. apply Hall in Hf. by apply hint_of_json. }
    split.
    + intros (ms & v & x & H1 & H2 & H3 & H4 & H5 & H6). split_and!; [done..|].
      exists ms, v. split_and!; try done; [by apply Hn|]. apply (Hv ms); eauto.
    + intros (_ & _ & ms & v & H1 & H2 & H3%Hn & H4 & H5). exists ms, v.
      apply (Hv ms) in H5 as (x & H5 & H6); eauto 10.
Qed.
