(* ===== verification/ApiPick.v ===== *)
(** * Chain API: the choice of upstreams

    Models [src/src/chain_api/pick.rs]: what a request sees of each upstream API
    ([ApiView]), the region of a block, the attempt orders of block, state,
    [get_info] and push requests, the next attempt over an order, and what an
    attempt's answer leads to.

    A slice of views is a list; [sort_by] is stable as in the standard library;
    the two replacements [irreversible_order] makes in its list are list updates
    at a position.  Whether a 400 body is nodeos's Unknown Block is decided from
    [error_code], the [error.code] a JSON reader finds in it (a third-party
    library), a parameter.

    The theorems: a block order holds exactly the candidates of the block, each
    once, as many as the attempts allow, and keeps the places for a live node
    and for an archive that settles an id; a reversible block never goes to an
    archive; the [get_info] primary is sticky and its head does not step back;
    a state order rotates over the fresh APIs; the attempt loop's decisions. *)

From S2P Require Import Prelude Wire Models View Planner ApiRoute.

Definition BUSY_TTL : Z := from_secs 2.
Definition PEEK_LIMIT : Z := 64 * 1024.
Definition RENDEZVOUS_CHUNK_SHIFT : Z := 12.
Definition GET_INFO : string := "/v1/chain/get_info".

Inductive BlockSource := FrozenFirst | LiveFirst.
#[export] Instance BlockSource_eq_dec : EqDecision BlockSource.
Proof. solve_decision. Defined.

(** ** What a request sees of an API *)

Record ApiView := mkApiView {
  av_index : Z;
  av_endpoint : string;
  av_role : Role;
  av_priority : Z;
  av_weight : Z;
  av_up : bool;
  av_busy : bool;
  av_in_flight : Z;
  av_full : bool;
  av_apis : option (gset string);
  av_head : option Z;
  av_lib : option Z;
  av_earliest : option Z;
  av_verified : bool;
  av_blocks : option Range;
  av_declared : option Range;
}.

Definition av_is_live (a : ApiView) : bool := is_live (av_role a).

Definition lists (a : ApiView) (path : string) : bool :=
  match av_apis a with
  | Some apis => bool_decide (path ∈ apis)
  | None => av_is_live a
  end.

Definition usable (a : ApiView) (path : string) : bool :=
  av_up a && negb (av_busy a) && lists a path.

Definition archives (a : ApiView) (n : Z) : bool :=
  bool_decide (av_role a = Frozen) && av_verified a
  && is_some_and (fun r => range_contains r n) (av_blocks a).

Definition holds_id (a : ApiView) (n : Z) : bool :=
  archives a n && is_none_or (fun d => n <? rend d) (av_declared a).

Definition claims (a : ApiView) (n : Z) : bool :=
  if negb (bool_decide (av_role a = Frozen)) then false
  else
    match av_verified a, av_blocks a with
    | true, Some blocks => range_contains blocks n
    | _, _ => is_some_and (fun r => range_contains r n) (av_declared a)
    end.

(** ** Comparators *)

Definition api_weight (a : ApiView) : Z := Z.max (av_weight a) 1.

(** [in_flight / weight] without dividing; the products fit [u128]. *)
Definition by_load (a b : ApiView) : comparison :=
  ord_then (Z.compare (load (av_in_flight a) (api_weight b)) (load (av_in_flight b) (api_weight a)))
    (Z.compare (api_weight b) (api_weight a)).

Definition chunk_of (n : Z) : Z := Z.shiftr n RENDEZVOUS_CHUNK_SHIFT.

Definition tier_cmp (n : Z) : ApiView -> ApiView -> comparison :=
  cmp_then (on av_full bool_cmp)
    (cmp_then (on av_priority Z.compare)
      (cmp_then by_load
        (cmp_then (cmp_rev (on (fun a => rendezvous (chunk_of n) (av_endpoint a)) Z.compare))
          (on av_index Z.compare)))).

(** ** The region of a block *)

Inductive Region := Irreversible | Reversible.
#[export] Instance Region_eq_dec : EqDecision Region.
Proof. solve_decision. Defined.

Definition of_option {A} (o : option A) : list A :=
  match o with Some a => [a] | None => [] end.

Definition api_fleet_lib (ship_lib : option Z) (apis : list ApiView) : option Z :=
  max_list (omap av_lib (List.filter (fun a => av_up a && av_is_live a) apis) ++ of_option ship_lib).

Definition region_of (n : Z) (lib : option Z) (apis : list ApiView) : Region :=
  if is_some_and (fun lib => n <=? lib) lib || existsb (fun a => archives a n) apis
  then Irreversible else Reversible.

(** ** Block requests *)

Record BlockQuery := mkBlockQuery {
  bq_endpoint : BlockEndpoint;
  bq_hint : option Hint;
  bq_ship_lib : option Z;
  bq_block_source : BlockSource;
  bq_max_attempts : Z;
}.

Record Routed := mkRouted {
  rt_n : Z;
  rt_region : Region;
  rt_order : list Z;
  rt_claimed : bool;
  rt_id_holders : list Z;
}.

Inductive BlockPlan := Unhinted | RoutedTo (r : Routed).

(** [usize::try_from(max_attempts.max(1))]: a [u32] fits. *)
Definition attempts_cap (max_attempts : Z) : nat := Z.to_nat (Z.max max_attempts 1).

Definition head_reached (n : Z) (a : ApiView) : bool :=
  is_some_and (fun h => n <=? h) (av_head a).

Definition ahead_cmp : ApiView -> ApiView -> comparison :=
  cmp_then (on av_priority Z.compare)
    (cmp_then (cmp_rev (on av_head option_cmp)) (cmp_then by_load (on av_index Z.compare))).

Definition behind_cmp : ApiView -> ApiView -> comparison :=
  cmp_then (cmp_rev (on av_head option_cmp)) (cmp_then by_load (on av_index Z.compare)).

Definition reversible_order (n : Z) (path : string) (apis : list ApiView) (cap : nat) : list Z :=
  let live := List.filter (fun a => av_is_live a && usable a path) apis in
  let ahead := sort_by ahead_cmp (List.filter (head_reached n) live) in
  let behind := sort_by behind_cmp (List.filter (fun a => negb (head_reached n a)) live) in
  map av_index (take cap (ahead ++ behind)).

Definition claimed_by (n : Z) (ep : BlockEndpoint) (apis : list ApiView) : bool :=
  match ep with
  | EpBlockInfo | EpBlockHeader | EpRawBlock => existsb (fun a => claims a n) apis
  | _ => false
  end.

(** The tiers of an irreversible block. *)
Definition in_l (n : Z) (a : ApiView) : bool :=
  is_some_and (fun e => e <=? n) (av_earliest a) && head_reached n a.
Definition in_u (n : Z) (a : ApiView) : bool :=
  is_none (av_earliest a) && head_reached n a.
Definition in_x (n : Z) (a : ApiView) : bool :=
  is_some_and (fun e => n <? e) (av_earliest a).

Definition live_tier (n : Z) (path : string) (apis : list ApiView) (pred : ApiView -> bool)
    : list ApiView :=
  sort_by (tier_cmp n) (List.filter (fun a => av_is_live a && usable a path && pred a) apis).

Definition tier_l (n : Z) (q : BlockQuery) (apis : list ApiView) : list ApiView :=
  live_tier n (ep_path (bq_endpoint q)) apis (in_l n).
Definition tier_u (n : Z) (q : BlockQuery) (apis : list ApiView) : list ApiView :=
  live_tier n (ep_path (bq_endpoint q)) apis (in_u n).
Definition tier_x (n : Z) (q : BlockQuery) (claimed : bool) (apis : list ApiView) : list ApiView :=
  if claimed then [] else live_tier n (ep_path (bq_endpoint q)) apis (in_x n).
Definition tier_f (n : Z) (q : BlockQuery) (apis : list ApiView) : list ApiView :=
  sort_by (tier_cmp n)
    (if bool_decide (bq_endpoint q = EpBlock) then []
     else List.filter (fun a => archives a n && usable a (ep_path (bq_endpoint q))) apis).

Definition tiers (n : Z) (q : BlockQuery) (claimed : bool) (apis : list ApiView) : list ApiView :=
  let l := tier_l n q apis in
  let f := tier_f n q apis in
  let u := tier_u n q apis in
  let x := tier_x n q claimed apis in
  match bq_endpoint q, bq_block_source q with
  | EpBlock, _ | _, LiveFirst => l ++ f ++ u ++ x
  | _, FrozenFirst => f ++ l ++ u ++ x
  end.

(** Keep one attempt for a live node. *)
Definition keep_live (cap : nat) (l u x order : list ApiView) : list ApiView :=
  if (2 <=? cap)%nat && negb (existsb av_is_live order) then
    match or_else (head l) (or_else (head u) (head x)) with
    | Some first_live => <[(length order - 1)%nat := first_live]> order
    | None => order
    end
  else order.

(** Keep one attempt for an id holder. *)
Definition keep_holder (n : Z) (cap : nat) (by_id : bool) (f order : list ApiView)
    : list ApiView :=
  if by_id && negb (existsb (fun a => holds_id a n) order) then
    let holder := List.find (fun a => holds_id a n) f in
    let lives := length (List.filter av_is_live order) in
    let place := rposition (fun a => negb ((2 <=? cap)%nat && (lives =? 1)%nat && av_is_live a)) order in
    match holder, place with
    | Some holder, Some place => <[place := holder]> order
    | _, _ => order
    end
  else order.

Definition irreversible_order (n : Z) (q : BlockQuery) (claimed : bool) (apis : list ApiView)
    (cap : nat) : list Z :=
  let order := take cap (tiers n q claimed apis) in
  let order := keep_live cap (tier_l n q apis) (tier_u n q apis) (tier_x n q claimed apis) order in
  let order := keep_holder n cap (is_some_and by_id (bq_hint q)) (tier_f n q apis) order in
  map av_index order.

Definition id_holders (n : Z) (order : list Z) (apis : list ApiView) : list Z :=
  map av_index
    (List.filter (fun a => holds_id a n && bool_decide (av_index a ∈ order)) apis).

Definition plan_block (q : BlockQuery) (apis : list ApiView) : BlockPlan :=
  match bq_hint q with
  | None => Unhinted
  | Some h =>
      let n := hint_num h in
      let cap := attempts_cap (bq_max_attempts q) in
      let region := region_of n (api_fleet_lib (bq_ship_lib q) apis) apis in
      let '(order, claimed) :=
        match region with
        | Reversible => (reversible_order n (ep_path (bq_endpoint q)) apis cap, false)
        | Irreversible =>
            let claimed := claimed_by n (bq_endpoint q) apis in
            (irreversible_order n q claimed apis cap, claimed)
        end in
      let holders := if by_id h then id_holders n order apis else [] in
      RoutedTo (mkRouted n region order claimed holders)
  end.

(** ** State, [get_info] and push requests *)

Record StateQuery := mkStateQuery {
  sq_path : string;
  sq_ship_head : option Z;
  sq_lag : Z;
  sq_rr : Z;
  sq_max_attempts : Z;
}.

Definition state_candidates (path : string) (apis : list ApiView) : list ApiView :=
  List.filter (fun a => av_is_live a && usable a path) apis.

(** The laggard rule. *)
Definition drop_laggards (lag : Z) (ship_head : option Z) (cands : list ApiView) : list ApiView :=
  match (0 <? lag), max_list (omap av_head cands ++ of_option ship_head) with
  | true, Some head =>
      let floor := sat_sub head lag in
      let fresh := List.filter (fun a => is_some_and (fun h => floor <=? h) (av_head a)) cands in
      match fresh with [] => cands | _ => fresh end
  | _, _ => cands
  end.

Definition rank_of (rr k i : Z) : Z := (i + k - rr mod k) mod k.

Definition state_rank_cmp : Z * ApiView -> Z * ApiView -> comparison :=
  cmp_then (on (fun ra : Z * ApiView => av_priority ra.2) Z.compare)
    (cmp_then (on snd by_load) (on fst Z.compare)).

Definition state_order (q : StateQuery) (apis : list ApiView) : list Z :=
  let cands := state_candidates (sq_path q) apis in
  let cands := drop_laggards (sq_lag q) (sq_ship_head q) cands in
  let cands := sort_by (on av_index Z.compare) cands in
  let k := Z.max (zlen cands) 1 in
  let ranked := imap (fun i a => (rank_of (sq_rr q) k (Z.of_nat i), a)) cands in
  let ranked := sort_by state_rank_cmp ranked in
  map (fun ra : Z * ApiView => av_index ra.2) (take (attempts_cap (sq_max_attempts q)) ranked).

Definition info_up (apis : list ApiView) : list ApiView :=
  List.filter (fun a => av_is_live a && av_up a && lists a GET_INFO) apis.

Definition info_cmp : ApiView -> ApiView -> comparison :=
  cmp_then (cmp_rev (on av_head option_cmp))
    (cmp_then (on av_priority Z.compare) (on av_index Z.compare)).

Definition overtaken (best primary : ApiView) : bool :=
  match av_head best, av_head primary with
  | Some b, Some h => sat_add u32_max h 2 <=? b
  | Some _, None => true
  | None, _ => false
  end.

Definition info_primary (apis : list ApiView) (current : option Z) : option Z :=
  match min_by info_cmp (info_up apis) with
  | None => None
  | Some best =>
      match current ≫= fun i => List.find (fun a => av_index a =? i) (info_up apis) with
      | Some primary =>
          if negb (overtaken best primary) then Some (av_index primary) else Some (av_index best)
      | None => Some (av_index best)
      end
  end.

(** A usable live API of this index. *)
Definition live_usable (apis : list ApiView) (path : string) (i : Z) : bool :=
  existsb (fun a => (av_index a =? i) && av_is_live a && usable a path) apis.

Definition info_order (apis : list ApiView) (primary : option Z) (max_attempts : Z) : list Z :=
  let rest := List.filter (fun a => av_is_live a && usable a GET_INFO
                 && negb (bool_decide (Some (av_index a) = primary))) apis in
  let rest := sort_by info_cmp rest in
  let first := of_option (primary ≫= fun p =>
                 if live_usable apis GET_INFO p then Some p else None) in
  take (attempts_cap max_attempts) (first ++ map av_index rest).

Definition push_targets (apis : list ApiView) (path : string) (push_servers : list Z)
    (primary : option Z) : list Z :=
  match push_servers with
  | [] => of_option (primary ≫= fun p => if live_usable apis path p then Some p else None)
  | _ => List.filter (live_usable apis path) push_servers
  end.

(** ** Attempts *)

Inductive NextAttempt := Try (i : Z) | WaitFor (i : Z) | Exhausted.

Definition next_attempt (order tried : list Z) (full : Z -> bool) : NextAttempt :=
  match List.filter (fun i => negb (bool_decide (i ∈ tried))) order with
  | [] => Exhausted
  | first :: remaining =>
      if negb (full first) then Try first
      else match List.find (fun i => negb (full i)) remaining with
           | Some i => Try i
           | None => WaitFor first
           end
  end.

Inductive RetryReason := RrUnknownBlock | RrNotFound | RrBusy | RrConnect | RrTimeout | RrError.
#[export] Instance RetryReason_eq_dec : EqDecision RetryReason.
Proof. solve_decision. Defined.

Definition marks_down (r : RetryReason) : bool :=
  match r with RrConnect | RrTimeout => true | _ => false end.

Definition marks_busy (r : RetryReason) : bool := bool_decide (r = RrBusy).

Inductive Answer :=
| AnsConnect
| AnsTimeout
| AnsResponse (status : Z) (body : option (list Z)).

Inductive Outcome := Final | NextUp (reason : RetryReason) (keep : bool).
#[export] Instance Outcome_eq_dec : EqDecision Outcome.
Proof. solve_decision. Defined.

Definition needs_peek (region : Region) (status : Z) (content_length : option Z) : bool :=
  bool_decide (region = Irreversible) && ((status =? 400) || (status =? 404))
  && is_none_or (fun len => len <=? PEEK_LIMIT) content_length.

Section classify.
(** [error.code] of a JSON error body, when the body has one. *)
Context (error_code : list Z -> option Z).

Definition is_unknown_block (body : list Z) : bool :=
  is_some_and (fun c => c =? UNKNOWN_BLOCK_CODE) (error_code body).

Definition api_classify (region : Region) (answer : Answer) : Outcome :=
  match answer with
  | AnsConnect => NextUp RrConnect false
  | AnsTimeout => NextUp RrTimeout false
  | AnsResponse status body =>
      if status =? 503 then NextUp RrBusy false
      else if bool_decide (region = Reversible) then Final
      else
        match body with
        | None => Final
        | Some body =>
            if (status =? 400) && is_unknown_block body then NextUp RrUnknownBlock true
            else if status =? 404 then NextUp RrNotFound true
            else Final
        end
  end.
End classify.

Definition keeps (reason : RetryReason) (claimed : bool) : bool :=
  negb (claimed && bool_decide (reason = RrUnknownBlock)).

Definition settles (reason : RetryReason) (id_holder : bool) : bool :=
  id_holder && bool_decide (reason = RrUnknownBlock).

Definition exhausted {T} (kept : list (Role * T)) : option T :=
  snd <$> or_else (List.find (fun rt : Role * T => is_live rt.1) (rev kept)) (last kept).

(** ** Facts about the comparators *)

Definition flight_ok (a : ApiView) : Prop := 0 <= av_in_flight a.

Lemma by_load_total : total_on flight_ok by_load.
Proof.
  unfold by_load, load, api_weight. split.
  - intros a b. unfold ord_then.
    rewrite (Z.compare_antisym (av_in_flight a * _)).
    destruct (av_in_flight a * _ ?= _); cbn; try done. apply Z.compare_antisym.
  - intros a b c Ha Hb Hc. unfold flight_ok, ord_then in *.
    set (wa := Z.max (av_weight a) 1). set (wb := Z.max (av_weight b) 1).
    set (wc := Z.max (av_weight c) 1).
    assert (0 < wa /\ 0 < wb /\ 0 < wc) as (Hwa & Hwb & Hwc) by (subst wa wb wc; lia).
    clearbody wa wb wc.
    pose proof (load_le_trans _ wa _ wb _ wc Ha Hb Hc Hwa Hwb Hwc) as Hle.
    pose proof (load_eq_trans _ wa _ wb _ wc Ha Hb Hc Hwa Hwb Hwc) as Heq.
    destruct (Z.compare_spec (av_in_flight a * wb) (av_in_flight b * wa)),
      (Z.compare_spec (av_in_flight b * wc) (av_in_flight c * wb)),
      (Z.compare_spec (av_in_flight a * wc) (av_in_flight c * wa)); try done; try lia.
    destruct (Z.compare_spec wb wa), (Z.compare_spec wc wb), (Z.compare_spec wc wa); try done; lia.
Qed.

Lemma tier_cmp_total n : total_on flight_ok (tier_cmp n).
Proof.
  unfold tier_cmp. apply total_on_then; [apply total_on_cmp, _|].
  apply total_on_then; [apply total_on_cmp, _|].
  apply total_on_then; [apply by_load_total|apply total_on_cmp, _].
Qed.

#[export] Instance info_cmp_total : TotalCmp info_cmp.
Proof. unfold info_cmp. apply _. Qed.

(** ** The candidates of a block *)

Definition irreversible_candidate (n : Z) (q : BlockQuery) (claimed : bool) (a : ApiView) : bool :=
  usable a (ep_path (bq_endpoint q))
  && (if av_is_live a then in_l n a || in_u n a || (negb claimed && in_x n a)
      else negb (bool_decide (bq_endpoint q = EpBlock)) && archives a n).

Definition block_candidate (n : Z) (q : BlockQuery) (r : Region) (claimed : bool) (a : ApiView)
    : bool :=
  match r with
  | Reversible => av_is_live a && usable a (ep_path (bq_endpoint q))
  | Irreversible => irreversible_candidate n q claimed a
  end.

Lemma archives_frozen a n : archives a n = true -> av_is_live a = false.
Proof. unfold archives, av_is_live. intros H. bools. by rewrite H. Qed.

Lemma in_luxn n a :
  (in_l n a = true -> in_u n a = false /\ in_x n a = false)
  /\ (in_u n a = true -> in_x n a = false).
Proof.
  unfold in_l, in_u, in_x. destruct (av_earliest a) as [e|]; cbn; [|done].
  split; [|done]. intros H. bools. split; [done|]. apply Z.ltb_ge. lia.
Qed.

(** The live tiers together. *)
Definition live_candidate (n : Z) (q : BlockQuery) (claimed : bool) (a : ApiView) : bool :=
  av_is_live a && usable a (ep_path (bq_endpoint q))
  && (in_l n a || in_u n a || (negb claimed && in_x n a)).

Definition frozen_candidate (n : Z) (q : BlockQuery) (a : ApiView) : bool :=
  negb (bool_decide (bq_endpoint q = EpBlock)) && archives a n
  && usable a (ep_path (bq_endpoint q)).

Lemma candidate_split n q claimed a :
  irreversible_candidate n q claimed a = frozen_candidate n q a || live_candidate n q claimed a.
Proof.
  unfold irreversible_candidate, frozen_candidate, live_candidate.
  destruct (usable a _); cbn; [|by rewrite !andb_false_r].
  destruct (av_is_live a) eqn:E; cbn; [|by rewrite andb_true_r, orb_false_r].
  rewrite andb_true_r. destruct (archives a n) eqn:Ea; [|by rewrite andb_false_r].
  apply archives_frozen in Ea. congruence.
Qed.

Lemma tier_f_perm n q apis :
  Permutation (tier_f n q apis) (List.filter (frozen_candidate n q) apis).
Proof.
  unfold tier_f. rewrite sort_by_perm. destruct (bool_decide _) eqn:E.
  - rewrite (lfilter_ext _ (fun _ => false)); [by induction apis|].
    intros a _. unfold frozen_candidate. by rewrite E.
  - erewrite lfilter_ext; [done|]. intros a _. unfold frozen_candidate. by rewrite E.
Qed.

Lemma live_tiers_perm n q claimed apis :
  Permutation (tier_l n q apis ++ tier_u n q apis ++ tier_x n q claimed apis)
    (List.filter (live_candidate n q claimed) apis).
Proof.
  unfold tier_l, tier_u, tier_x, live_tier.
  set (base := fun a => av_is_live a && usable a (ep_path (bq_endpoint q))).
  assert (Permutation (if claimed then []
      else sort_by (tier_cmp n) (List.filter (fun a => base a && in_x n a) apis))
    (List.filter (fun a => base a && (negb claimed && in_x n a)) apis)) as Hx.
  { destruct claimed; [|apply sort_by_perm].
    rewrite (lfilter_ext _ (fun _ => false)); [by induction apis|].
    intros a _. cbn. by rewrite andb_false_r. }
  change (Permutation (sort_by (tier_cmp n) (List.filter (fun a => base a && in_l n a) apis)
    ++ sort_by (tier_cmp n) (List.filter (fun a => base a && in_u n a) apis)
    ++ (if claimed then []
        else sort_by (tier_cmp n) (List.filter (fun a => base a && in_x n a) apis)))
    (List.filter (live_candidate n q claimed) apis)).
  rewrite Hx, !sort_by_perm, app_assoc.
  assert (Permutation (List.filter (fun a => base a && in_l n a) apis
      ++ List.filter (fun a => base a && in_u n a) apis)
    (List.filter (fun a => base a && (in_l n a || in_u n a)) apis)) as ->.
  { erewrite <-lfilter_or.
    - erewrite lfilter_ext; [done|]. intros a _. cbn. by destruct (base a).
    - intros a _ H. bools. destruct (in_luxn n a) as [H1 _]. destruct H1 as [-> _]; [done|].
      by rewrite andb_false_r. }
  erewrite <-lfilter_or.
  - erewrite lfilter_ext; [done|]. intros a _. unfold live_candidate. fold (base a). by destruct (base a).
  - intros a _ H. bools. destruct (in_luxn n a) as [H1 H2].
    assert (in_x n a = false) as ->; [|by rewrite andb_false_r, andb_false_r].
    apply orb_true_iff in H0 as [H0|H0]; [by apply H1|by apply H2].
Qed.

Lemma tiers_perm n q claimed apis :
  Permutation (tiers n q claimed apis) (List.filter (irreversible_candidate n q claimed) apis).
Proof.
  rewrite (lfilter_ext _ (fun a => frozen_candidate n q a || live_candidate n q claimed a))
    by (intros; apply candidate_split).
  rewrite lfilter_or.
  2:{ intros a _ H. unfold frozen_candidate in H. bools. unfold live_candidate.
      by rewrite (archives_frozen a n). }
  rewrite <-(tier_f_perm n q apis), <-(live_tiers_perm n q claimed apis).
  unfold tiers. destruct (bq_endpoint q), (bq_block_source q); try done;
    rewrite !app_assoc; apply Permutation_app_tail, Permutation_app_tail, Permutation_app_comm.
Qed.

(** ** The places kept in an order *)

(** [o] takes [min cap (length cands)] distinct elements of [cands]. *)
Definition picks (cap : nat) (cands o : list ApiView) : Prop :=
  NoDup o /\ (forall a, a ∈ o -> a ∈ cands) /\ length o = (cap `min` length cands)%nat.

Lemma picks_take cap cands : NoDup cands -> picks cap cands (take cap cands).
Proof.
  intros H. split_and!; [eapply sublist_NoDup; [done|apply sublist_take]| |by apply length_take].
  intros a Ha. by eapply elem_of_take in Ha as (i & Ha%list_elem_of_lookup_2 & _).
Qed.

Lemma picks_update cap cands o i x :
  picks cap cands o -> x ∈ cands -> x ∉ o -> picks cap cands (<[i := x]> o).
Proof.
  intros (H1 & H2 & H3) Hx Hn. split_and!.
  - by apply NoDup_list_update.
  - intros a [->|Ha]%elem_of_list_update; auto.
  - by rewrite length_insert.
Qed.

Lemma picks_nonempty cap cands o a :
  (1 <= cap)%nat -> picks cap cands o -> a ∈ cands -> (0 < length o)%nat.
Proof.
  intros Hc (_ & _ & ->) Ha. destruct cands; [by apply elem_of_nil in Ha|]. cbn. lia.
Qed.

Lemma keep_live_ok cap cands l u x o :
  (forall a, a ∈ l ++ u ++ x -> a ∈ cands /\ av_is_live a = true) -> (1 <= cap)%nat ->
  picks cap cands o ->
  picks cap cands (keep_live cap l u x o)
  /\ ((2 <= cap)%nat -> l ++ u ++ x <> [] ->
      exists a, a ∈ keep_live cap l u x o /\ av_is_live a = true).
Proof.
  intros Hlux Hcap Ho. unfold keep_live.
  destruct ((2 <=? cap)%nat && _) eqn:E.
  - apply andb_true_iff in E as [E1%Nat.leb_le E2%negb_true_iff].
    rewrite existsb_none in E2.
    destruct (or_else (head l) _) as [a|] eqn:Ea.
    + assert (a ∈ l ++ u ++ x) as Hin.
      { rewrite !elem_of_app. destruct l; cbn in Ea; [|injection Ea as <-; left; by left].
        destruct u; cbn in Ea; [|injection Ea as <-; right; left; by left].
        destruct x; cbn in Ea; [done|injection Ea as <-; right; right; by left]. }
      destruct (Hlux a Hin) as [Hc Hl].
      assert (a ∉ o) by (intros Hao; rewrite E2 in Hl; done).
      split; [by apply picks_update|]. intros _ _. exists a. split; [|done].
      apply list_elem_of_insert. pose proof (picks_nonempty _ _ _ _ Hcap Ho Hc). lia.
    + split; [done|]. intros _ Hne. exfalso. apply Hne.
      destruct l; [|done]. destruct u; [|done]. by destruct x.
  - split; [done|]. intros H2 Hne. apply andb_false_iff in E as [E|E].
    + apply Nat.leb_gt in E. lia.
    + apply negb_false_iff, existsb_elem in E. done.
Qed.

Lemma rposition_some {A} (f : A -> bool) l i :
  rposition f l = Some i -> exists x, l !! i = Some x /\ f x = true.
Proof.
  revert i. induction l as [|y l IH]; intros i; [done|]. cbn.
  destruct (rposition f l) as [j|]; [intros [= <-]; by apply IH|].
  destruct (f y) eqn:E; [|done]. intros [= <-]. eauto.
Qed.

Lemma rposition_none {A} (f : A -> bool) l x :
  rposition f l = None -> x ∈ l -> f x = false.
Proof.
  induction l as [|y l IH]; [by intros _ ?%elem_of_nil|]. cbn.
  destruct (rposition f l); [done|]. destruct (f y) eqn:E; [done|].
  intros _ [->|Hx]%elem_of_cons; auto.
Qed.

(** With one live element, another place than its own leaves it. *)
Lemma live_survives i x (o : list ApiView) :
  (exists y, o !! i = Some y /\ (length (List.filter av_is_live o) = 1%nat -> av_is_live y = false)) ->
  (exists a, a ∈ o /\ av_is_live a = true) ->
  exists a, a ∈ <[i := x]> o /\ av_is_live a = true.
Proof.
  intros (y & Hy & Hlone) (a & [j Hj]%list_elem_of_lookup & Hl).
  destruct (decide (j = i)) as [->|Hne].
  2:{ exists a. split; [|done]. by eapply elem_of_list_update_ne. }
  rewrite Hj in Hy. injection Hy as <-.
  assert (2 <= length (List.filter av_is_live o))%nat as Htwo.
  { assert (length (List.filter av_is_live o) <> 1%nat) by (intros ?; rewrite Hlone in Hl; done).
    enough (0 < length (List.filter av_is_live o))%nat by lia.
    apply list_elem_of_lookup_2 in Hj.
    assert (a ∈ List.filter av_is_live o) as Hin by (by apply elem_of_List_filter).
    destruct (List.filter _ o); [by apply elem_of_nil in Hin|cbn; lia]. }
  rewrite <-(take_drop_middle o i a Hj) in Htwo |- *.
  rewrite List.filter_app in Htwo. cbn in Htwo. rewrite Hl, length_app in Htwo. cbn in Htwo.
  assert (exists b, b ∈ List.filter av_is_live (take i o) ++ List.filter av_is_live (drop (S i) o))
    as [b Hb].
  { destruct (List.filter av_is_live (take i o)) as [|b ?], (List.filter av_is_live (drop (S i) o)) as [|b' ?];
      cbn in Htwo; [lia|exists b'; by left|exists b; by left|exists b; by left]. }
  exists b. rewrite insert_app_r_alt by (rewrite length_take; lia).
  rewrite length_take_le by (apply lookup_lt_Some in Hj; lia).
  rewrite Nat.sub_diag. cbn. rewrite elem_of_app, elem_of_cons.
  apply elem_of_app in Hb as [Hb|Hb]; apply elem_of_List_filter in Hb; tauto.
Qed.

Lemma keep_holder_ok n cap by_id cands f o :
  (forall a, a ∈ f -> a ∈ cands /\ av_is_live a = false) -> (1 <= cap)%nat ->
  picks cap cands o ->
  let o' := keep_holder n cap by_id f o in
  picks cap cands o'
  /\ ((2 <= cap)%nat -> (exists a, a ∈ o /\ av_is_live a = true) ->
        exists a, a ∈ o' /\ av_is_live a = true)
  /\ (by_id = true -> (exists a, a ∈ f /\ holds_id a n = true) ->
        exists a, a ∈ o' /\ holds_id a n = true).
Proof.
  intros Hf Hcap Ho o'. subst o'. unfold keep_holder.
  destruct (by_id && _) eqn:E.
  2:{ split_and!; [done..|]. intros -> _. cbn in E. apply negb_false_iff, existsb_elem in E. done. }
  bools. rewrite existsb_none in H0.
  destruct (List.find _ f) as [h|] eqn:Eh.
  2:{ split_and!; [done..|]. intros _ Hex%find_exists. rewrite Eh in Hex. by destruct Hex. }
  apply find_elem in Eh as [Hhf Hh]. destruct (Hf h Hhf) as [Hhc Hhl].
  assert (h ∉ o) as Hno by (intros Hin; rewrite H0 in Hh; done).
  destruct (rposition _ o) as [i|] eqn:Ei.
  - apply rposition_some in Ei as (y & Hy & Hfy). split_and!; [by apply picks_update| |].
    + intros Hc2. apply live_survives. exists y. split; [done|]. intros Hone.
      rewrite Hone, (proj2 (Nat.leb_le _ _) Hc2), Nat.eqb_refl in Hfy. by bools.
    + intros _ _. exists h. split; [|done]. apply list_elem_of_insert. by apply lookup_lt_Some in Hy.
  - split_and!; [done..|]. intros _ _. exfalso.
    pose proof (picks_nonempty _ _ _ _ Hcap Ho Hhc) as Hlen.
    destruct o as [|a o]; [cbn in Hlen; lia|].
    assert (forall b, b ∈ a :: o -> (2 <= cap)%nat
      /\ length (List.filter av_is_live (a :: o)) = 1%nat /\ av_is_live b = true) as Hall.
    { intros b Hb. apply (rposition_none _ _ _ Ei) in Hb. bools.
      split_and!; [by apply Nat.leb_le|by apply Nat.eqb_eq|done]. }
    destruct (Hall a) as (Hc2 & Hone & Hal); [by left|].
    rewrite List_filter_all in Hone by (intros; by apply Hall). cbn in Hone.
    destruct Ho as (_ & Hsub & Hlen'). cbn in Hlen'.
    assert (a ∈ cands) as Hac by (apply Hsub; by left).
    destruct cands as [|c [|d cands]]; [by apply elem_of_nil in Hac| |cbn in Hlen'; lia].
    apply list_elem_of_singleton in Hac, Hhc. subst. congruence.
Qed.

Lemma conj_assoc (A B C : Prop) : (A /\ B) /\ C <-> A /\ (B /\ C).
Proof. tauto. Qed.

Lemma tiers_elem n q claimed apis a :
  a ∈ tiers n q claimed apis <-> a ∈ apis /\ irreversible_candidate n q claimed a = true.
Proof. rewrite (tiers_perm n q claimed apis). apply elem_of_List_filter. Qed.

Lemma tier_f_elem n q claimed apis a :
  a ∈ tier_f n q apis <->
  (a ∈ apis /\ irreversible_candidate n q claimed a = true) /\ av_is_live a = false.
Proof.
  rewrite (tier_f_perm n q apis), elem_of_List_filter, candidate_split, conj_assoc.
  apply and_iff_compat_l. unfold live_candidate. split.
  - intros H. rewrite H. split; [done|]. unfold frozen_candidate in H. bools.
    by eapply archives_frozen.
  - intros [H Hl]. rewrite Hl in H. cbn in H. by rewrite orb_false_r in H.
Qed.

Lemma live_tiers_elem n q claimed apis a :
  a ∈ tier_l n q apis ++ tier_u n q apis ++ tier_x n q claimed apis <->
  (a ∈ apis /\ irreversible_candidate n q claimed a = true) /\ av_is_live a = true.
Proof.
  rewrite (live_tiers_perm n q claimed apis), elem_of_List_filter, candidate_split, conj_assoc.
  apply and_iff_compat_l. split.
  - intros H. rewrite H, orb_true_r. split; [done|]. unfold live_candidate in H. by bools.
  - intros [H Hl]. apply orb_true_iff in H as [H|H]; [|done].
    unfold frozen_candidate in H. bools. apply archives_frozen in H1. congruence.
Qed.

Lemma irreversible_order_ok n q claimed apis cap :
  NoDup apis -> (1 <= cap)%nat ->
  let cand a := a ∈ apis /\ irreversible_candidate n q claimed a = true in
  exists o, irreversible_order n q claimed apis cap = map av_index o
    /\ picks cap (tiers n q claimed apis) o
    /\ ((2 <= cap)%nat -> (exists a, cand a /\ av_is_live a = true) ->
          exists a, a ∈ o /\ av_is_live a = true)
    /\ (is_some_and by_id (bq_hint q) = true -> (exists a, cand a /\ holds_id a n = true) ->
          exists a, a ∈ o /\ holds_id a n = true).
Proof.
  intros Hnd Hcap cand. eexists. split; [reflexivity|].
  assert (NoDup (tiers n q claimed apis)) as Hnt.
  { rewrite (tiers_perm n q claimed apis). by apply NoDup_lfilter. }
  destruct (keep_live_ok cap (tiers n q claimed apis) (tier_l n q apis) (tier_u n q apis)
    (tier_x n q claimed apis) _ ltac:(intros a; rewrite live_tiers_elem, tiers_elem; done)
    Hcap (picks_take cap _ Hnt)) as [H1 H2].
  edestruct (keep_holder_ok n cap (is_some_and by_id (bq_hint q)) (tiers n q claimed apis)
    (tier_f n q apis)) as (H3 & H4 & H5); [|exact Hcap|exact H1|].
  { intros a. rewrite (tier_f_elem n q claimed), tiers_elem. done. }
  split_and!; [exact H3| |].
  - intros Hc2 (a & Ha & Hl). apply H4; [done|]. apply H2; [done|].
    intros Hnil. assert (a ∈ []) as []%elem_of_nil. rewrite <-Hnil, live_tiers_elem. done.
  - intros Hid (a & Ha & Hh). apply H5; [done|]. exists a. split; [|done].
    rewrite (tier_f_elem n q claimed). split; [done|].
    unfold holds_id in Hh. bools. by eapply archives_frozen.
Qed.

(** Nothing is replaced in an order that holds every candidate. *)
Lemma irreversible_order_all n q claimed apis cap :
  (1 <= cap)%nat -> (length (tiers n q claimed apis) <= cap)%nat ->
  irreversible_order n q claimed apis cap = map av_index (tiers n q claimed apis).
Proof.
  intros Hcap Hlen. unfold irreversible_order. rewrite take_ge by done. f_equal.
  assert (keep_live cap (tier_l n q apis) (tier_u n q apis) (tier_x n q claimed apis)
    (tiers n q claimed apis) = tiers n q claimed apis) as ->.
  { unfold keep_live. destruct (_ && negb _) eqn:E; [|done].
    apply andb_true_iff in E as [_ E%negb_true_iff]. rewrite existsb_none in E.
    assert (forall a, a ∉ tier_l n q apis ++ tier_u n q apis ++ tier_x n q claimed apis) as Hno.
    { intros a [Ha Hl]%live_tiers_elem. apply tiers_elem in Ha. rewrite E in Hl; done. }
    destruct (tier_l n q apis) as [|a l]; [|exfalso; apply (Hno a); by left].
    destruct (tier_u n q apis) as [|a l]; [|exfalso; apply (Hno a); by left].
    destruct (tier_x n q claimed apis) as [|a l]; [done|exfalso; apply (Hno a); by left]. }
  unfold keep_holder. destruct (_ && negb _) eqn:E; [|done]. bools. rewrite existsb_none in H0.
  destruct (List.find _ _) as [h|] eqn:Eh; [|done].
  apply find_elem in Eh as [[Hf _]%(tier_f_elem n q claimed) Hh].
  apply tiers_elem in Hf. rewrite H0 in Hh; done.
Qed.

Lemma reversible_order_ok n path apis cap :
  NoDup apis ->
  exists o, reversible_order n path apis cap = map av_index o
    /\ exists cands, picks cap cands o
       /\ Permutation cands (List.filter (fun a => av_is_live a && usable a path) apis).
Proof.
  intros Hnd. eexists. split; [reflexivity|]. eexists. 
  assert (forall l : list ApiView, Permutation
    (sort_by ahead_cmp (List.filter (head_reached n) l)
     ++ sort_by behind_cmp (List.filter (fun a => negb (head_reached n a)) l)) l) as Hp.
  { intros l. rewrite !sort_by_perm. rewrite <-lfilter_or.
    - rewrite List_filter_all; [done|]. intros a _. apply orb_negb_r.
    - intros a _ ->. done. }
  split; [|apply Hp]. apply picks_take. rewrite Hp. by apply NoDup_lfilter.
Qed.

Lemma index_inj (apis : list ApiView) a b :
  NoDup (map av_index apis) -> a ∈ apis -> b ∈ apis -> av_index a = av_index b -> a = b.
Proof. apply NoDup_map_inj. Qed.

Lemma NoDup_index apis : NoDup (map av_index apis) -> NoDup apis.
Proof. apply NoDup_fmap_1. Qed.

(** An order as views of the slice it was made from. *)
Lemma order_indices apis o (P : ApiView -> Prop) :
  NoDup (map av_index apis) -> NoDup o -> (forall a, a ∈ o -> a ∈ apis /\ P a) ->
  NoDup (map av_index o)
  /\ forall i, i ∈ map av_index o -> exists a, a ∈ apis /\ av_index a = i /\ P a.
Proof.
  intros Hnd Ho Hsub. split.
  - apply (NoDup_fmap_2_strong av_index); [|done]. intros a b Ha Hb E.
    apply (index_inj apis); [done|apply Hsub, Ha|apply Hsub, Hb|done].
  - intros i (a & -> & Ha)%list_elem_of_fmap. exists a. split_and!; [by apply Hsub|done|by apply Hsub].
Qed.

Lemma max_list_at_least l n :
  is_some_and (fun m => n <=? m) (max_list l) = true <-> exists m, m ∈ l /\ n <= m.
Proof.
  destruct (max_list l) as [m|] eqn:E; cbn.
  - apply max_list_some in E as [Hm Hmax]. rewrite Z.leb_le. split; [eauto|].
    intros (k & Hk & ?). specialize (Hmax k Hk). lia.
  - apply max_list_none in E as ->. split; [done|]. by intros (m & ?%elem_of_nil & _).
Qed.

(** A block known to be final: at or below a LIB the fleet has, or archived. *)
Definition known_final (n : Z) (ship_lib : option Z) (apis : list ApiView) : Prop :=
  (exists lib, n <= lib /\ (ship_lib = Some lib
     \/ exists a, a ∈ apis /\ av_up a = true /\ av_is_live a = true /\ av_lib a = Some lib))
  \/ exists a, a ∈ apis /\ archives a n = true.

Lemma region_exact n ship_lib apis :
  region_of n (api_fleet_lib ship_lib apis) apis = Irreversible <-> known_final n ship_lib apis.
Proof.
  unfold region_of, known_final. rewrite <-existsb_elem.
  destruct (_ || _) eqn:E.
  - split; [intros _|done]. apply orb_true_iff in E as [E|E]; [left|by right].
    apply max_list_at_least in E as (m & Hm & Hle). exists m. split; [done|].
    apply elem_of_app in Hm as [(a & Ha & Hl)%list_elem_of_omap|Hm].
    + right. exists a. apply elem_of_List_filter in Ha as [Ha Hf]. by bools.
    + left. destruct ship_lib as [x|]; cbn in Hm; [apply list_elem_of_singleton in Hm as ->|]; [done|].
      by apply elem_of_nil in Hm.
  - split; [done|]. apply orb_false_iff in E as [E1 E2].
    intros [(m & Hle & Hm)|H]; [|congruence]. exfalso.
    apply not_true_iff_false in E1. apply E1, max_list_at_least. exists m. split; [|done].
    apply elem_of_app. destruct Hm as [->|(a & Ha & Hu & Hl & Hm)]; [right; by left|left].
    apply list_elem_of_omap. exists a. split; [|done]. apply elem_of_List_filter. by rewrite Hu, Hl.
Qed.

Lemma attempts_cap_pos m : (1 <= attempts_cap m)%nat.
Proof. unfold attempts_cap. lia. Qed.
#[export] Hint Resolve attempts_cap_pos NoDup_index : router.

(** The order of a plan, as views. *)
Lemma plan_block_views q apis r :
  NoDup (map av_index apis) -> plan_block q apis = RoutedTo r ->
  let cand := block_candidate (rt_n r) q (rt_region r) (rt_claimed r) in
  let cap := attempts_cap (bq_max_attempts q) in
  exists h o, bq_hint q = Some h /\ rt_n r = hint_num h
    /\ rt_region r = region_of (rt_n r) (api_fleet_lib (bq_ship_lib q) apis) apis
    /\ rt_id_holders r = (if by_id h then id_holders (rt_n r) (rt_order r) apis else [])
    /\ rt_order r = map av_index o /\ NoDup o
    /\ (forall a, a ∈ o -> a ∈ apis /\ cand a = true)
    /\ length o = (cap `min` length (List.filter cand apis))%nat
    /\ (rt_region r = Irreversible ->
          rt_claimed r = claimed_by (rt_n r) (bq_endpoint q) apis
          /\ rt_order r = irreversible_order (rt_n r) q (rt_claimed r) apis cap
          /\ ((2 <= cap)%nat -> (exists a, (a ∈ apis /\ cand a = true) /\ av_is_live a = true) ->
                exists a, a ∈ o /\ av_is_live a = true)
          /\ (by_id h = true ->
                (exists a, (a ∈ apis /\ cand a = true) /\ holds_id a (rt_n r) = true) ->
                exists a, a ∈ o /\ holds_id a (rt_n r) = true)).
Proof.
  intros Hnd Hplan cand cap. unfold plan_block in Hplan.
  destruct (bq_hint q) as [h|] eqn:Eh; [|done]. exists h.
  destruct (region_of _ _ apis) eqn:Er; injection Hplan as <-;
    subst cand; cbn [rt_n rt_region rt_order rt_claimed rt_id_holders] in *.
  - destruct (irreversible_order_ok (hint_num h) q (claimed_by (hint_num h) (bq_endpoint q) apis)
      apis cap) as (o & Ho & (H1 & H2 & H3) & H4 & H5); [eauto with router..|].
    exists o. rewrite Eh in H5. cbn in H5. rewrite (tiers_perm (hint_num h)) in H3.
    setoid_rewrite tiers_elem in H2. rewrite <-Ho. rewrite Er. done.
  - destruct (reversible_order_ok (hint_num h) (ep_path (bq_endpoint q)) apis cap)
      as (o & Ho & cands & (H1 & H2 & H3) & Hp); [eauto with router|].
    exists o. rewrite Hp in H3. rewrite <-Ho, Er. split_and!; try done.
    intros a Ha%H2. rewrite Hp in Ha. by apply elem_of_List_filter in Ha.
Qed.

(** The order of a block request: distinct indices of candidates of the
    block only, as many as there are up to the attempts allowed, and in tier
    order when they all fit. A reversible block (not at or below a LIB the
    fleet reported, not archived) goes to usable live APIs only; an
    irreversible one to usable live APIs that may hold it and to verified
    archives that do, but never a live node whose log begins above a claimed
    block, and never an archive for [get_block]. *)
Theorem block_order_exact q apis r :
  NoDup (map av_index apis) -> plan_block q apis = RoutedTo r ->
  let cand := block_candidate (rt_n r) q (rt_region r) (rt_claimed r) in
  let cap := attempts_cap (bq_max_attempts q) in
  (rt_region r = Irreversible <-> known_final (rt_n r) (bq_ship_lib q) apis)
  /\ NoDup (rt_order r)
  /\ (forall i, i ∈ rt_order r -> exists a, a ∈ apis /\ av_index a = i /\ cand a = true)
  /\ length (rt_order r) = (cap `min` length (List.filter cand apis))%nat
  /\ (rt_region r = Irreversible -> (length (List.filter cand apis) <= cap)%nat ->
        rt_order r = map av_index (tiers (rt_n r) q (rt_claimed r) apis)).
Proof.
  intros Hnd Hplan cand cap.
  destruct (plan_block_views q apis r Hnd Hplan) as (h & o & _ & _ & Hr & _ & Ho & H1 & H2 & H3 & H4).
  destruct (order_indices apis o _ Hnd H1 H2) as [H5 H6].
  split_and!.
  - rewrite Hr. apply region_exact.
  - by rewrite Ho.
  - rewrite Ho. apply H6.
  - by rewrite Ho, length_map.
  - intros Hir Hlen. destruct (H4 Hir) as (_ & -> & _). apply irreversible_order_all.
    + apply attempts_cap_pos.
    + rewrite tiers_perm. subst cand. by rewrite Hir in Hlen.
Qed.

(** The kept places do not undo each other: for an irreversible block with
    two attempts or more, an order has a live node whenever one is a candidate;
    for a block asked for by id it has, even with one attempt, an archive that
    settles the id whenever one is a candidate, and exactly the archives of the
    order that hold the block settle. *)
Theorem kept_places q apis r :
  NoDup (map av_index apis) -> plan_block q apis = RoutedTo r -> rt_region r = Irreversible ->
  let cand a := a ∈ apis /\ irreversible_candidate (rt_n r) q (rt_claimed r) a = true in
  (2 <= bq_max_attempts q -> (exists a, cand a /\ av_is_live a = true) ->
     exists a, cand a /\ av_is_live a = true /\ av_index a ∈ rt_order r)
  /\ (is_some_and by_id (bq_hint q) = true ->
        (exists a, cand a /\ holds_id a (rt_n r) = true) -> rt_id_holders r <> [])
  /\ (forall i, i ∈ rt_id_holders r <->
        is_some_and by_id (bq_hint q) = true /\ i ∈ rt_order r
        /\ exists a, a ∈ apis /\ av_index a = i /\ holds_id a (rt_n r) = true).
Proof.
  intros Hnd Hplan Hir cand.
  destruct (plan_block_views q apis r Hnd Hplan) as (h & o & Hh & Hn & _ & Hid & Ho & _ & H2 & _ & H4).
  destruct (H4 Hir) as (_ & _ & Hlive & Hhold). rewrite Hir in *. cbn [block_candidate] in *.
  rewrite Hh. cbn [is_some_and].
  assert (forall i, i ∈ rt_id_holders r <-> by_id h = true /\ i ∈ rt_order r
    /\ exists a, a ∈ apis /\ av_index a = i /\ holds_id a (rt_n r) = true) as Hholders.
  { intros i. rewrite Hid. destruct (by_id h); [|split; [by intros ?%elem_of_nil|by intros (? & _)]].
    unfold id_holders. rewrite list_elem_of_fmap. setoid_rewrite elem_of_List_filter. split.
    - intros (a & -> & Ha & H). bools. eauto 10.
    - intros (_ & Hi & a & Ha & <- & Hh'). exists a. rewrite Hh', bool_decide_eq_true_2; done. }
  split_and!; [| |done].
  - intros Hcap Hex. destruct Hlive as (a & Ha & Hl); [unfold attempts_cap; lia|done|].
    exists a. split_and!; [by apply H2|done|]. rewrite Ho. by apply list_elem_of_fmap_2.
  - intros Hby Hex Hnil. destruct (Hhold Hby Hex) as (a & Ha & Hl).
    assert (av_index a ∈ rt_id_holders r) as Hin; [|rewrite Hnil in Hin; by apply elem_of_nil in Hin].
    apply Hholders. split_and!; [done|rewrite Ho; by apply list_elem_of_fmap_2|].
    exists a. split_and!; [by apply H2|done..].
Qed.

(** ** State calls *)

Lemma total_on_on {A B} (P : B -> Prop) (f : A -> B) cmp :
  total_on P cmp -> total_on (fun a => P (f a)) (on f cmp).
Proof.
  intros [Ho Ht]. split; [intros x y; apply Ho|]. intros x y z Hx Hy Hz. by apply (Ht (f x) (f y) (f z)).
Qed.

Lemma state_rank_total : total_on (fun ra : Z * ApiView => flight_ok ra.2) state_rank_cmp.
Proof.
  unfold state_rank_cmp. apply total_on_then; [apply total_on_cmp, _|].
  apply total_on_then; [|apply total_on_cmp, _].
  apply (total_on_on flight_ok snd), by_load_total.
Qed.

Definition fresh_enough (lag : Z) (ship_head : option Z) (cands : list ApiView) (a : ApiView) : Prop :=
  exists h, av_head a = Some h
    /\ forall m, (ship_head = Some m \/ exists b, b ∈ cands /\ av_head b = Some m) -> m - lag <= h.

Lemma drop_laggards_exact lag ship_head cands :
  Forall (fun a => is_none_or (fun h => 0 <=? h) (av_head a) = true) cands -> 0 <= lag ->
  let kept := drop_laggards lag ship_head cands in
  (exists p, kept = List.filter p cands)
  /\ (cands <> [] -> kept <> [])
  /\ (forall a, a ∈ cands -> fresh_enough lag ship_head cands a -> a ∈ kept)
  /\ (0 < lag -> (exists a, a ∈ cands /\ fresh_enough lag ship_head cands a) ->
        forall a, a ∈ kept -> fresh_enough lag ship_head cands a).
Proof.
  intros Hpos Hlag. unfold drop_laggards.
  assert (exists p, cands = List.filter p cands) as Hid.
  { exists (fun _ => true). clear. induction cands; cbn; congruence. }
  destruct (0 <? lag) eqn:El; bools; [|split_and!; [done..|lia]].
  destruct (max_list _) as [top|] eqn:Em.
  2:{ split_and!; [done..|]. intros _ (a & Ha & h & Hh & _). exfalso.
      apply max_list_none, app_eq_nil in Em as [Em _].
      assert (h ∈ omap av_head cands) as Hin by (apply list_elem_of_omap; eauto).
      rewrite Em in Hin. by apply elem_of_nil in Hin. }
  apply max_list_some in Em as [Htop Hmax].
  assert (forall m, m ∈ omap av_head cands ++ of_option ship_head <->
    ship_head = Some m \/ exists b, b ∈ cands /\ av_head b = Some m) as Hms.
  { intros m. rewrite elem_of_app, list_elem_of_omap.
    destruct ship_head as [s|]; cbn; rewrite ?list_elem_of_singleton, ?elem_of_nil; naive_solver. }
  assert (forall a, a ∈ cands -> is_some_and (fun h => sat_sub top lag <=? h) (av_head a) = true
    <-> fresh_enough lag ship_head cands a) as Hfresh.
  { intros a Ha. rewrite Forall_forall in Hpos. specialize (Hpos a Ha).
    unfold fresh_enough. setoid_rewrite <-Hms.
    destruct (av_head a) as [h|]; cbn in *; [|naive_solver].
    rewrite Z.leb_le in *. unfold sat_sub. split.
    - intros Hle. exists h. split; [done|]. intros m Hm%Hmax. lia.
    - intros (h' & [= <-] & Hall). specialize (Hall top Htop). lia. }
  set (p := fun a => is_some_and (fun h => sat_sub top lag <=? h) (av_head a)).
  assert (match List.filter p cands with [] => cands | l => l end <> [] \/ cands = []) as Hne.
  { destruct (List.filter p cands); [destruct cands; auto|by left]. }
  destruct (List.filter p cands) as [|x l] eqn:Ef.
  - split_and!; [done|done|done|]. intros _ (a & Ha & Hf). exfalso.
    assert (a ∈ List.filter p cands) as Hin by (apply elem_of_List_filter; split; [done|by apply Hfresh]).
    rewrite Ef in Hin. by apply elem_of_nil in Hin.
  - rewrite <-Ef. split_and!; [by exists p|by rewrite Ef| |].
    + intros a Ha Hf. apply elem_of_List_filter. split; [done|by apply Hfresh].
    + intros _ _ a [Ha Hp]%elem_of_List_filter. by apply Hfresh.
Qed.

Lemma imap_rank_rotate {A} (s : list A) rr :
  0 <= rr -> s <> [] ->
  Permutation (imap (fun i a => (rank_of rr (Z.max (zlen s) 1) (Z.of_nat i), a)) s)
    (imap (fun i a => (Z.of_nat i, a)) (rotate (Z.to_nat rr) s)).
Proof.
  intros Hrr Hne. unfold rotate. set (r := (Z.to_nat rr mod length s)%nat).
  assert (0 < length s)%nat by (destruct s; [done|cbn; lia]).
  assert (r < length s)%nat as Hr by (apply Nat.mod_upper_bound; lia).
  assert (rr mod Z.of_nat (length s) = Z.of_nat r) as Hmod.
  { subst r. rewrite Nat2Z.inj_mod. by rewrite Z2Nat.id by done. }
  rewrite <-(take_drop r s) at 1. rewrite !imap_app, length_take_le, length_drop by lia.
  rewrite Permutation_app_comm. apply Permutation_app.
  - erewrite imap_ext; [done|]. intros i a Hi. apply lookup_lt_Some in Hi. rewrite length_drop in Hi.
    unfold rank_of. rewrite Z.max_l, Hmod by lia. f_equal.
    replace (Z.of_nat (r + i) + zlen s - Z.of_nat r) with (Z.of_nat i + 1 * zlen s) by lia.
    rewrite Z.mod_add by lia. apply Z.mod_small. lia.
  - erewrite imap_ext; [done|]. intros i a Hi. apply lookup_lt_Some in Hi.
    rewrite length_take_le in Hi by lia.
    unfold rank_of. rewrite Z.max_l, Hmod by lia. f_equal. rewrite Z.mod_small; lia.
Qed.

Lemma imap_sorted c (l : list ApiView) :
  (forall a b, a ∈ l -> b ∈ l -> av_priority a = av_priority b /\ by_load a b = Eq) ->
  StronglySorted (fun x y => state_rank_cmp x y <> Gt) (imap (fun i a => (Z.of_nat (c + i), a)) l).
Proof.
  revert c. induction l as [|a l IH]; intros c Heq; [constructor|]. cbn [imap]. constructor.
  - rewrite (imap_ext _ (fun i a => (Z.of_nat (S c + i), a))) by (intros; cbn; do 2 f_equal; lia).
    apply IH. intros x y Hx Hy. apply Heq; by right.
  - apply Forall_forall. intros x (i & b & -> & Hb%list_elem_of_lookup_2)%elem_of_lookup_imap.
    destruct (Heq a b) as [E1 E2]; [by left|by right|].
    unfold state_rank_cmp, cmp_then, on, ord_then. cbn [fst snd compose].
    rewrite E1, Z.compare_refl, E2. apply Z.compare_le_iff. lia.
Qed.

(** Candidates that differ in their rank only are sorted by it. *)
Lemma sort_ranked s rr :
  0 <= rr -> Forall flight_ok s ->
  (forall a b, a ∈ s -> b ∈ s -> av_priority a = av_priority b /\ by_load a b = Eq) ->
  map snd (sort_by state_rank_cmp
    (imap (fun i a => (rank_of rr (Z.max (zlen s) 1) (Z.of_nat i), a)) s))
  = rotate (Z.to_nat rr) s.
Proof.
  intros Hrr Hfl Heq. destruct (decide (s = [])) as [->|Hne].
  { unfold rotate. by rewrite drop_nil, take_nil. }
  set (ranked := imap _ s). set (target := imap (fun i a => (Z.of_nat i, a)) (rotate (Z.to_nat rr) s)).
  assert (Permutation ranked target) as Hp by (by apply imap_rank_rotate).
  assert (forall x, x ∈ target -> x.2 ∈ s) as Hin.
  { intros [i a] (j & b & [= _ ->] & Hb%list_elem_of_lookup_2)%elem_of_lookup_imap. cbn.
    by apply elem_of_rotate in Hb. }
  assert (sort_by state_rank_cmp ranked = target) as ->.
  { apply (StronglySorted_unique_strong (fun x y => state_rank_cmp x y <> Gt)).
    - intros x y Hx Hy. rewrite elem_of_sort_by, Hp in Hx. destruct (Heq x.2 y.2) as [E1 E2]; [auto..|].
      destruct (Heq y.2 x.2) as [_ E3]; [auto..|].
      unfold state_rank_cmp, cmp_then, on, ord_then. rewrite E1, Z.compare_refl, E2, E3.
      intros H1 H2. assert (x.1 = y.1) as Hxy.
      { destruct (Z.compare_spec x.1 y.1), (Z.compare_spec y.1 x.1); try done; lia. }
      apply elem_of_lookup_imap in Hx as (i & a & -> & Ha), Hy as (j & b & -> & Hb).
      cbn in Hxy. apply Nat2Z.inj in Hxy as ->. congruence.
    - apply (sort_by_sorted_on (fun ra : Z * ApiView => flight_ok ra.2)); [apply state_rank_total|].
      rewrite Hp. apply Forall_forall. intros x Hx%Hin. rewrite Forall_forall in Hfl. auto.
    - apply (imap_sorted 0). intros a b Ha%elem_of_rotate Hb%elem_of_rotate. by apply Heq.
    - by rewrite sort_by_perm. }
  subst target. change (map snd) with (fmap (M := list) (@snd Z ApiView)).
  rewrite fmap_imap. rewrite <-(list_fmap_id (rotate _ s)) at 2.
  generalize (rotate (Z.to_nat rr) s). clear. intros l. 
  rewrite (imap_ext _ (fun _ => id)) by done. by apply imap_const.
Qed.

Definition heads_ok (a : ApiView) : Prop := is_none_or (fun h => 0 <=? h) (av_head a) = true.

(** The order of a state call is a prefix of the kept candidates, permuted. *)
Lemma state_order_views q apis :
  0 <= sq_rr q ->
  let dl := drop_laggards (sq_lag q) (sq_ship_head q) (state_candidates (sq_path q) apis) in
  let kept := sort_by (on av_index Z.compare) dl in
  Forall flight_ok dl ->
  exists vs, state_order q apis = map av_index (take (attempts_cap (sq_max_attempts q)) vs)
    /\ Permutation vs kept
    /\ ((forall a b, a ∈ kept -> b ∈ kept -> av_priority a = av_priority b /\ by_load a b = Eq) ->
        vs = rotate (Z.to_nat (sq_rr q)) kept).
Proof.
  intros Hrr dl kept Hfl.
  exists (map snd (sort_by state_rank_cmp (imap (fun i a =>
    (rank_of (sq_rr q) (Z.max (zlen kept) 1) (Z.of_nat i), a)) kept))). split_and!.
  - unfold state_order. fold dl kept. by rewrite firstn_map, map_map.
  - rewrite sort_by_perm. change (map snd) with (fmap (M := list) (@snd Z ApiView)).
    rewrite fmap_imap, (imap_ext _ (const id)) by done. by rewrite imap_const, list_fmap_id.
  - apply sort_ranked; [done|]. subst kept. by rewrite (sort_by_perm _ dl).
Qed.

(** The order of a state call: distinct usable live APIs, as many as the
    attempts allow of those kept by the laggard rule. The rule keeps every API
    within the allowed lag of the fleet head, and only those when there is one,
    and never leaves nothing; APIs of one priority and load are taken in
    rotation, one further for each request. *)
Theorem state_order_exact q apis :
  NoDup (map av_index apis) -> Forall flight_ok apis -> Forall heads_ok apis ->
  0 <= sq_lag q -> 0 <= sq_rr q ->
  let cands := state_candidates (sq_path q) apis in
  let fresh := fresh_enough (sq_lag q) (sq_ship_head q) cands in
  exists kept,
    StronglySorted (fun a b => av_index a <= av_index b) kept /\ NoDup kept
    /\ (forall a, a ∈ kept -> a ∈ cands) /\ (cands <> [] -> kept <> [])
    /\ (forall a, a ∈ cands -> fresh a -> a ∈ kept)
    /\ (0 < sq_lag q -> (exists a, a ∈ cands /\ fresh a) -> forall a, a ∈ kept -> fresh a)
    /\ NoDup (state_order q apis)
    /\ (forall i, i ∈ state_order q apis -> exists a, a ∈ kept /\ av_index a = i)
    /\ length (state_order q apis) = (attempts_cap (sq_max_attempts q) `min` length kept)%nat
    /\ ((forall a b, a ∈ kept -> b ∈ kept -> av_priority a = av_priority b /\ by_load a b = Eq) ->
        state_order q apis
        = take (attempts_cap (sq_max_attempts q)) (map av_index (rotate (Z.to_nat (sq_rr q)) kept))).
Proof.
  intros Hnd Hfl Hh Hlag Hrr cands fresh.
  assert (Forall (fun a => is_none_or (fun h => 0 <=? h) (av_head a) = true) cands) as Hpos.
  { apply Forall_forall. intros a [Ha _]%elem_of_List_filter. rewrite Forall_forall in Hh. by apply Hh. }
  destruct (drop_laggards_exact (sq_lag q) (sq_ship_head q) cands Hpos Hlag)
    as ([p Hp] & Hne & Hin & Honly).
  set (dl := drop_laggards _ _ cands) in *.
  exists (sort_by (on av_index Z.compare) dl).
  assert (forall a, a ∈ dl -> a ∈ cands) as Hsub by (intros a; rewrite Hp, elem_of_List_filter; tauto).
  assert (forall a, a ∈ dl -> a ∈ apis) as Hsub' by (intros a [Ha _]%Hsub%elem_of_List_filter; done).
  assert (NoDup dl) as Hndl by (rewrite Hp; apply NoDup_lfilter, NoDup_lfilter; eauto with router).
  set (kept := sort_by (on av_index Z.compare) dl).
  assert (Permutation kept dl) as Hk by apply sort_by_perm.
  destruct (state_order_views q apis Hrr) as (vs & Ho & Hperm & Hrot).
  { apply Forall_forall. intros a Ha. rewrite Forall_forall in Hfl. by apply Hfl, Hsub'. }
  fold cands dl kept in Hperm, Hrot.
  assert (NoDup (take (attempts_cap (sq_max_attempts q)) vs)) as Hndt.
  { eapply sublist_NoDup; [|apply sublist_take]. by rewrite Hperm, Hk. }
  assert (forall a, a ∈ take (attempts_cap (sq_max_attempts q)) vs -> a ∈ kept) as Htake.
  { intros a (i & Ha%list_elem_of_lookup_2 & _)%elem_of_take. by rewrite Hperm in Ha. }
  destruct (order_indices apis _ (fun a => a ∈ kept) Hnd Hndt) as [Hi1 Hi2].
  { intros a Ha%Htake. split; [|done]. apply Hsub'. by rewrite <-Hk. }
  split_and!.
  - apply (sort_by_sorted (on av_index Z.compare)).
  - by rewrite Hk.
  - intros a. rewrite Hk. apply Hsub.
  - intros Hc Hnil. apply (Hne Hc). apply Permutation_nil_r. by rewrite <-Hk, Hnil.
  - intros a. rewrite Hk. apply Hin.
  - intros Hl Hex a. rewrite Hk. by apply Honly.
  - by rewrite Ho.
  - rewrite Ho. intros i Hi%Hi2. naive_solver.
  - by rewrite Ho, length_map, length_take, Hperm.
  - intros Heq. by rewrite Ho, (Hrot Heq), firstn_map.
Qed.

(** ** The [get_info] primary *)

(** The head of [a] is not below the head of [b]; an unknown head is the lowest. *)
Definition head_ge (a b : ApiView) : Prop := option_cmp (av_head b) (av_head a) <> Gt.

Lemma info_best_head apis best b :
  min_by info_cmp (info_up apis) = Some best -> b ∈ info_up apis -> head_ge best b.
Proof.
  intros Hm Hb. destruct (min_by_some info_cmp _ _ Hm) as [_ H]. apply H in Hb. revert Hb. unfold info_cmp, cmp_then, cmp_rev, on, ord_then, head_ge.
  by destruct (option_cmp (av_head b) (av_head best)).
Qed.

Lemma overtaken_spec best primary :
  overtaken best primary = true <->
  exists b, av_head best = Some b /\ is_none_or (fun h => Z.min (h + 2) u32_max <=? b) (av_head primary) = true.
Proof.
  unfold overtaken, sat_add. destruct (av_head best) as [b|], (av_head primary) as [h|]; cbn; naive_solver.
Qed.

Lemma info_up_in apis a : a ∈ info_up apis -> a ∈ apis.
Proof. by intros [? _]%elem_of_List_filter. Qed.
#[export] Hint Resolve info_up_in : router.

Lemma info_find apis c b :
  NoDup (map av_index apis) -> b ∈ info_up apis -> av_index b = c ->
  List.find (fun a => av_index a =? c) (info_up apis) = Some b.
Proof.
  intros Hnd Hb <-. destruct (List.find _ _) as [a|] eqn:E.
  - apply find_elem in E as [Ha E]. bools. f_equal.
    apply (index_inj apis); eauto with router.
  - exfalso. destruct (find_exists (fun a => av_index a =? av_index b) (info_up apis)) as [x Hx];
      [|congruence]. exists b. by rewrite Z.eqb_refl.
Qed.

(** The [get_info] primary is an up live API that lists the call, and there
    is one whenever such an API exists. A primary that is still up is kept
    exactly until another API is two blocks ahead of it, and the head of its
    successor is not below its own, so a client never sees the head step back
    while the primary is up; without one, the API with the highest head is
    chosen. *)
Theorem info_primary_sticky apis current :
  NoDup (map av_index apis) ->
  (info_primary apis current = None <-> info_up apis = [])
  /\ (forall p, info_primary apis current = Some p ->
       exists a, a ∈ info_up apis /\ av_index a = p
         /\ ((forall b, b ∈ info_up apis -> Some (av_index b) <> current) ->
               forall b, b ∈ info_up apis -> head_ge a b)
         /\ (forall b, b ∈ info_up apis -> Some (av_index b) = current ->
               head_ge a b
               /\ (a <> b -> forall b', b' ∈ info_up apis -> head_ge a b')
               /\ ((forall b' h, b' ∈ info_up apis -> av_head b' = Some h ->
                      is_some_and (fun k => h <? Z.min (k + 2) u32_max) (av_head b) = true) ->
                   a = b))).
Proof.
  intros Hnd. unfold info_primary.
  destruct (min_by info_cmp (info_up apis)) as [best|] eqn:Eb.
  2:{ split; [|done]. split; [intros _; by eapply min_by_none|done]. }
  assert (forall b, b ∈ info_up apis -> head_ge best b) as Hge
    by (intros b; by apply info_best_head).
  destruct (min_by_some info_cmp _ _ Eb) as [Hin _].
  split.
  { split; [by destruct (current ≫= _) as [x|]; [destruct (negb _)|]|].
    intros Hn. rewrite Hn in Hin. by apply elem_of_nil in Hin. }
  intros p. destruct (current ≫= _) as [primary|] eqn:Ec.
  - apply bind_Some in Ec as (c & -> & [Hpin Hpc]%find_elem). bools. subst c.
    assert (forall b, b ∈ info_up apis -> Some (av_index b) = Some (av_index primary) -> b = primary) as Huniq.
    { intros b Hb [= E]. apply (index_inj apis); eauto with router. }
    destruct (overtaken best primary) eqn:Eo; intros [= <-].
    + exists best. split_and!; [done..|]. intros b Hb E. rewrite (Huniq b Hb E).
      split_and!; [by apply Hge|done|]. intros Hall. exfalso.
      apply overtaken_spec in Eo as (h & Hh & Hle). specialize (Hall best h Hin Hh).
      destruct (av_head primary) as [k|]; cbn in Hle, Hall; bools; [lia|done].
    + exists primary. split_and!; [done..| |].
      * intros Hno. exfalso. by apply (Hno primary Hpin).
      * intros b Hb E. rewrite (Huniq b Hb E). split_and!; [|done|done].
        unfold head_ge. by rewrite (cmp_refl option_cmp).
  - intros [= <-]. exists best. split_and!; [done..|].
    intros b Hb <-. cbn in Ec. by rewrite (info_find apis (av_index b) b Hnd Hb) in Ec.
Qed.

(** ** Attempts *)

Lemma next_attempt_exact order tried full :
  match next_attempt order tried full with
  | Try i => i ∈ order /\ i ∉ tried /\ full i = false
  | WaitFor i => i ∈ order /\ i ∉ tried /\ forall j, j ∈ order -> j ∉ tried -> full j = true
  | Exhausted => forall j, j ∈ order -> j ∈ tried
  end.
Proof.
  unfold next_attempt. set (untried := fun i => negb (bool_decide (i ∈ tried))).
  assert (forall i, i ∈ List.filter untried order <-> i ∈ order /\ i ∉ tried) as Hu.
  { intros i. rewrite elem_of_List_filter. subst untried. cbn.
    destruct (bool_decide (i ∈ tried)) eqn:E; bools; naive_solver. }
  destruct (List.filter untried order) as [|first rest].
  - intros j Hj. destruct (decide (j ∈ tried)); [done|]. exfalso.
    assert (j ∈ []) as []%elem_of_nil. by apply Hu.
  - destruct (Hu first) as [H _]. destruct H as [H1 H2]; [by left|].
    destruct (full first) eqn:E; [|done]. cbn.
    destruct (List.find _ rest) as [i|] eqn:Ef.
    + apply find_elem in Ef as [Hi Hf]. bools. destruct (Hu i) as [H _].
      destruct H; [by right|done].
    + split_and!; [done..|]. intros j Hj1 Hj2. destruct (Hu j) as [_ H].
      specialize (H (conj Hj1 Hj2)). apply elem_of_cons in H as [->|H]; [done|].
      apply list_elem_of_In in H. apply (List.find_none _ _ Ef) in H. by bools.
Qed.

(** The answer once every attempt is used: the last kept one of a live API,
    else the last. *)
Lemma exhausted_live {T} a (t : T) b :
  Forall (fun rt : Role * T => rt.1 = Frozen) b -> exhausted (a ++ (Live, t) :: b) = Some t.
Proof.
  intros Hb. unfold exhausted.
  assert (List.find (fun rt : Role * T => is_live rt.1) (rev (a ++ (Live, t) :: b)) = Some (Live, t)) as ->;
    [|done].
  rewrite rev_app_distr. cbn [rev]. rewrite <-app_assoc. cbn.
  induction b as [|y b IH] using rev_ind; [done|].
  apply Forall_app in Hb as [Hb Hy]. rewrite rev_app_distr. cbn.
  inversion Hy as [|? ? Hy' _]; subst. rewrite Hy'. by apply IH.
Qed.

Lemma exhausted_frozen {T} (kept : list (Role * T)) :
  Forall (fun rt : Role * T => rt.1 = Frozen) kept -> exhausted kept = snd <$> last kept.
Proof.
  intros Hall. unfold exhausted. destruct (List.find _ _) as [x|] eqn:E; [|done].
  apply find_elem in E as [Hx E]. rewrite list_elem_of_In, <-in_rev, <-list_elem_of_In in Hx.
  rewrite Forall_forall in Hall. by rewrite (Hall x Hx) in E.
Qed.

Lemma kept_cases {T} (kept : list (Role * T)) :
  Forall (fun rt : Role * T => rt.1 = Frozen) kept
  \/ exists a t b, kept = a ++ (Live, t) :: b /\ Forall (fun rt : Role * T => rt.1 = Frozen) b.
Proof.
  assert (forall l : list (Role * T), Forall (fun rt => is_live rt.1 = false) l ->
    Forall (fun rt => rt.1 = Frozen) l) as Hf.
  { intros l Hl. eapply Forall_impl; [exact Hl|]. by intros [[] ?]. }
  destruct (split_last (fun rt : Role * T => is_live rt.1) kept)
    as [Hall|(a & [role t] & b & -> & Hb & Hx)]; [left; auto|right].
  destruct role; [|done]. eauto 10.
Qed.

Lemma exhausted_elem {T} (kept : list (Role * T)) t :
  exhausted kept = Some t -> exists role, (role, t) ∈ kept.
Proof.
  destruct (kept_cases kept) as [Hall|(a & t' & b & -> & Hb)].
  - rewrite exhausted_frozen by done. intros ([role x] & H & ->)%fmap_Some.
    apply last_Some in H as [l ->]. exists role. apply elem_of_app. right. by left.
  - rewrite exhausted_live by done. intros [= <-]. exists Live. apply elem_of_app. right. by left.
Qed.

(** ** Witnesses: an archive of blocks 1 to 999 and two live nodes *)

Definition demo_archive : ApiView :=
  mkApiView 0 "archive:8080" Frozen 0 1 true false 0 false
    (Some {[ep_path EpBlockInfo; ep_path EpRawBlock]}) None None None true
    (Some (mkRange 1 1000)) (Some (mkRange 1 1000)).
Definition demo_live (i head : Z) : ApiView :=
  mkApiView i "live:8888" Live 0 1 true false 0 false None (Some head) (Some (head - 300)) (Some 500)
    false None None.
Definition demo_apis : list ApiView := [demo_archive; demo_live 1 5000; demo_live 2 5001].

(** Block 600 by id, live nodes first, two attempts. *)
Definition demo_query : BlockQuery :=
  mkBlockQuery EpRawBlock (Some (mkHint 600 true)) (Some 4700) LiveFirst 2.
Definition demo_plan : Routed := mkRouted 600 Irreversible [1; 0] true [0].

Lemma demo_apis_nodup : NoDup (map av_index demo_apis).
Proof. apply (bool_decide_unpack _). vm_compute. exact I. Qed.

Lemma block_order_exact_witness :
  plan_block demo_query demo_apis = RoutedTo demo_plan /\ NoDup (rt_order demo_plan).
Proof.
  assert (plan_block demo_query demo_apis = RoutedTo demo_plan) as H by (vm_compute; reflexivity).
  split; [exact H|].
  exact (proj1 (proj2 (block_order_exact demo_query demo_apis demo_plan demo_apis_nodup H))).
Defined.

Lemma kept_places_witness :
  plan_block demo_query demo_apis = RoutedTo demo_plan /\ rt_id_holders demo_plan <> [].
Proof.
  assert (plan_block demo_query demo_apis = RoutedTo demo_plan) as H by (vm_compute; reflexivity).
  split; [exact H|].
  apply (proj1 (proj2 (kept_places demo_query demo_apis demo_plan demo_apis_nodup H eq_refl)) eq_refl).
  exists demo_archive. split; [split; [by left|vm_compute; reflexivity]|vm_compute; reflexivity].
Defined.

Definition demo_state : StateQuery := mkStateQuery "/v1/chain/get_account" (Some 5001) 10 7 3.

Lemma state_order_exact_witness :
  state_order demo_state demo_apis = [2; 1] /\ NoDup (state_order demo_state demo_apis).
Proof.
  split; [vm_compute; reflexivity|].
  destruct (state_order_exact demo_state demo_apis demo_apis_nodup) as (kept & H);
    [by repeat constructor|by repeat constructor|done|done|].
  by destruct H as (_ & _ & _ & _ & _ & _ & H & _).
Defined.

Lemma info_primary_sticky_witness :
  info_primary demo_apis (Some 1) = Some 1 /\ info_primary demo_apis None <> None.
Proof.
  split; [vm_compute; reflexivity|].
  intros H%(proj1 (info_primary_sticky demo_apis None demo_apis_nodup)). revert H. vm_compute. discriminate.
Defined.
