(* ===== verification/ApiDirectory.v ===== *)
(** * Chain API: what is known of each upstream

    Models [src/src/chain_api/directory.rs] (the probe state and the slots of
    every upstream API, the verification of an archive, the snapshot a request
    plans from) and [src/src/chain_api/probe.rs] (the probes that keep it
    current).

    A slot's atomics and its mutex-protected state are the values they hold; each
    function below is one critical section of the code or the sequence of them a
    probe makes.  The answers a probe gets are its arguments: [None] is a
    transport failure, a status other than 200 or a body that does not parse (the
    JSON reader is a third-party library).  Requests change a slot between
    probes; the histories the theorems range over interleave both.

    The theorems: an archive is verified exactly since a probe in which its last
    block was the head of its SHiP endpoint and its own id for it matched, and
    until a probe contradicts it; an API in use reported the listener's chain; a
    slot counts the requests it holds and gives out no more than its cap; the
    snapshot discharges what the planner asks of its views. *)

From stdpp Require Import pretty.
From S2P Require Import Prelude Wire Models View ApiRoute ApiPick.

Definition DOWN_AFTER_FAILURES : Z := 2.

(** ** Verification of an archive *)

Record Verification := mkVerification { verified : option BlockPos }.
#[export] Instance Verification_eq_dec : EqDecision Verification.
Proof. solve_decision. Defined.

Inductive Verify := VKeep | VCheck (pos : BlockPos) | VMismatch.
#[export] Instance Verify_eq_dec : EqDecision Verify.
Proof. solve_decision. Defined.

Definition described (last : BlockPos) (chain_ok : bool) (ship_head : option BlockPos)
    (v : Verification) : Verify * Verification :=
  if negb chain_ok then (VMismatch, mkVerification None)
  else if bool_decide (verified v = Some last) then (VKeep, v)
  else
    match ship_head with
    | None => (VKeep, v)
    | Some head =>
        if bool_decide (head = last) then (VCheck last, v) else (VMismatch, mkVerification None)
    end.

Definition on_ship_head (head : option BlockPos) (v : Verification) : Verify * Verification :=
  match verified v, head with
  | Some pos, Some head =>
      if bool_decide (pos <> head) then (VMismatch, mkVerification None) else (VKeep, v)
  | _, _ => (VKeep, v)
  end.

Definition checked (last : BlockPos) (id : list Z) (v : Verification) : Verify * Verification :=
  if bool_decide (id = block_id last) then (VKeep, mkVerification (Some last))
  else (VMismatch, mkVerification None).

(** ** The probe state of one API *)

Record ApiState := mkApiState {
  as_up : bool;
  as_fails : Z;
  as_chain_id : option (list Z);
  as_chain_mismatch : bool;
  as_apis : option (gset string);
  as_apis_at : option Z;
  as_head : option Z;
  as_lib : option Z;
  as_earliest : option Z;
  as_version : option string;
  as_blocks : option Range;
  as_last : option BlockPos;
  as_get_block : option string;
  as_verification : Verification;
  as_mismatch_logged : bool;
  as_busy_until : option Z;
}.

Definition set_as_up (v : bool) (s : ApiState) : ApiState :=
    mkApiState v (as_fails s) (as_chain_id s) (as_chain_mismatch s) (as_apis s) (as_apis_at
    s) (as_head s) (as_lib s) (as_earliest s) (as_version s) (as_blocks s) (as_last s)
    (as_get_block s) (as_verification s) (as_mismatch_logged s) (as_busy_until s).
Definition set_as_fails (v : Z) (s : ApiState) : ApiState :=
    mkApiState (as_up s) v (as_chain_id s) (as_chain_mismatch s) (as_apis s) (as_apis_at s)
    (as_head s) (as_lib s) (as_earliest s) (as_version s) (as_blocks s) (as_last s)
    (as_get_block s) (as_verification s) (as_mismatch_logged s) (as_busy_until s).
Definition set_as_chain_id (v : option (list Z)) (s : ApiState) : ApiState :=
    mkApiState (as_up s) (as_fails s) v (as_chain_mismatch s) (as_apis s) (as_apis_at s)
    (as_head s) (as_lib s) (as_earliest s) (as_version s) (as_blocks s) (as_last s)
    (as_get_block s) (as_verification s) (as_mismatch_logged s) (as_busy_until s).
Definition set_as_chain_mismatch (v : bool) (s : ApiState) : ApiState :=
    mkApiState (as_up s) (as_fails s) (as_chain_id s) v (as_apis s) (as_apis_at s) (as_head
    s) (as_lib s) (as_earliest s) (as_version s) (as_blocks s) (as_last s) (as_get_block s)
    (as_verification s) (as_mismatch_logged s) (as_busy_until s).
Definition set_as_apis (v : option (gset string)) (s : ApiState) : ApiState :=
    mkApiState (as_up s) (as_fails s) (as_chain_id s) (as_chain_mismatch s) v (as_apis_at s)
    (as_head s) (as_lib s) (as_earliest s) (as_version s) (as_blocks s) (as_last s)
    (as_get_block s) (as_verification s) (as_mismatch_logged s) (as_busy_until s).
Definition set_as_apis_at (v : option Z) (s : ApiState) : ApiState :=
    mkApiState (as_up s) (as_fails s) (as_chain_id s) (as_chain_mismatch s) (as_apis s) v
    (as_head s) (as_lib s) (as_earliest s) (as_version s) (as_blocks s) (as_last s)
    (as_get_block s) (as_verification s) (as_mismatch_logged s) (as_busy_until s).
Definition set_as_head (v : option Z) (s : ApiState) : ApiState :=
    mkApiState (as_up s) (as_fails s) (as_chain_id s) (as_chain_mismatch s) (as_apis s)
    (as_apis_at s) v (as_lib s) (as_earliest s) (as_version s) (as_blocks s) (as_last s)
    (as_get_block s) (as_verification s) (as_mismatch_logged s) (as_busy_until s).
Definition set_as_lib (v : option Z) (s : ApiState) : ApiState :=
    mkApiState (as_up s) (as_fails s) (as_chain_id s) (as_chain_mismatch s) (as_apis s)
    (as_apis_at s) (as_head s) v (as_earliest s) (as_version s) (as_blocks s) (as_last s)
    (as_get_block s) (as_verification s) (as_mismatch_logged s) (as_busy_until s).
Definition set_as_earliest (v : option Z) (s : ApiState) : ApiState :=
    mkApiState (as_up s) (as_fails s) (as_chain_id s) (as_chain_mismatch s) (as_apis s)
    (as_apis_at s) (as_head s) (as_lib s) v (as_version s) (as_blocks s) (as_last s)
    (as_get_block s) (as_verification s) (as_mismatch_logged s) (as_busy_until s).
Definition set_as_version (v : option string) (s : ApiState) : ApiState :=
    mkApiState (as_up s) (as_fails s) (as_chain_id s) (as_chain_mismatch s) (as_apis s)
    (as_apis_at s) (as_head s) (as_lib s) (as_earliest s) v (as_blocks s) (as_last s)
    (as_get_block s) (as_verification s) (as_mismatch_logged s) (as_busy_until s).
Definition set_as_blocks (v : option Range) (s : ApiState) : ApiState :=
    mkApiState (as_up s) (as_fails s) (as_chain_id s) (as_chain_mismatch s) (as_apis s)
    (as_apis_at s) (as_head s) (as_lib s) (as_earliest s) (as_version s) v (as_last s)
    (as_get_block s) (as_verification s) (as_mismatch_logged s) (as_busy_until s).
Definition set_as_last (v : option BlockPos) (s : ApiState) : ApiState :=
    mkApiState (as_up s) (as_fails s) (as_chain_id s) (as_chain_mismatch s) (as_apis s)
    (as_apis_at s) (as_head s) (as_lib s) (as_earliest s) (as_version s) (as_blocks s) v
    (as_get_block s) (as_verification s) (as_mismatch_logged s) (as_busy_until s).
Definition set_as_get_block (v : option string) (s : ApiState) : ApiState :=
    mkApiState (as_up s) (as_fails s) (as_chain_id s) (as_chain_mismatch s) (as_apis s)
    (as_apis_at s) (as_head s) (as_lib s) (as_earliest s) (as_version s) (as_blocks s)
    (as_last s) v (as_verification s) (as_mismatch_logged s) (as_busy_until s).
Definition set_as_verification (v : Verification) (s : ApiState) : ApiState :=
    mkApiState (as_up s) (as_fails s) (as_chain_id s) (as_chain_mismatch s) (as_apis s)
    (as_apis_at s) (as_head s) (as_lib s) (as_earliest s) (as_version s) (as_blocks s)
    (as_last s) (as_get_block s) v (as_mismatch_logged s) (as_busy_until s).
Definition set_as_mismatch_logged (v : bool) (s : ApiState) : ApiState :=
    mkApiState (as_up s) (as_fails s) (as_chain_id s) (as_chain_mismatch s) (as_apis s)
    (as_apis_at s) (as_head s) (as_lib s) (as_earliest s) (as_version s) (as_blocks s)
    (as_last s) (as_get_block s) (as_verification s) v (as_busy_until s).
Definition set_as_busy_until (v : option Z) (s : ApiState) : ApiState :=
    mkApiState (as_up s) (as_fails s) (as_chain_id s) (as_chain_mismatch s) (as_apis s)
    (as_apis_at s) (as_head s) (as_lib s) (as_earliest s) (as_version s) (as_blocks s)
    (as_last s) (as_get_block s) (as_verification s) (as_mismatch_logged s) v.

Definition default_api_state : ApiState :=
  mkApiState false 0 None false None None None None None None None None None
    (mkVerification None) false None.

Definition probe_ok (s : ApiState) : bool * ApiState :=
  let s := set_as_fails 0 s in
  (negb (as_up s), set_as_up true s).

Definition probe_failed (s : ApiState) : bool * ApiState :=
  let s := set_as_fails (sat_add u8_max (as_fails s) 1) s in
  if as_up s && (DOWN_AFTER_FAILURES <=? as_fails s) then (true, set_as_up false s) else (false, s).

(** ** Slots *)

(** A validated [api_endpoint] ([models.rs]). *)
Record ApiEndpoint := mkApiEndpoint { ae_host : string; ae_port : Z }.

Definition ae_authority (e : ApiEndpoint) : string :=
  String.append (ae_host e) (String.append ":" (pretty (ae_port e))).
Definition ae_canonical (e : ApiEndpoint) : string :=
  String.append (to_ascii_lowercase (ae_host e)) (String.append ":" (pretty (ae_port e))).
Definition ae_base_url (e : ApiEndpoint) : string := String.append "http://" (ae_authority e).

Record ApiUpstream := mkApiUpstream {
  au_index : Z;
  au_name : string;
  au_endpoint : string;
  au_role : Role;
  au_api : ApiEndpoint;
  au_priority : Z;
  au_weight : Z;
  au_range : option Range;
}.

Record ApiSlot := mkApiSlot {
  sl_index : Z;
  sl_name : string;
  sl_ship_endpoint : string;
  sl_role : Role;
  sl_priority : Z;
  sl_weight : Z;
  sl_endpoint : string;
  sl_authority : string;
  sl_base : string;
  sl_declared : option Range;
  sl_cap : Z;
  sl_in_flight : Z;
  sl_state : ApiState;
}.

Definition set_sl_cap (v : Z) (s : ApiSlot) : ApiSlot :=
    mkApiSlot (sl_index s) (sl_name s) (sl_ship_endpoint s) (sl_role s) (sl_priority s)
    (sl_weight s) (sl_endpoint s) (sl_authority s) (sl_base s) (sl_declared s) v
    (sl_in_flight s) (sl_state s).
Definition set_sl_in_flight (v : Z) (s : ApiSlot) : ApiSlot :=
    mkApiSlot (sl_index s) (sl_name s) (sl_ship_endpoint s) (sl_role s) (sl_priority s)
    (sl_weight s) (sl_endpoint s) (sl_authority s) (sl_base s) (sl_declared s) (sl_cap s) v
    (sl_state s).
Definition set_sl_state (v : ApiState) (s : ApiSlot) : ApiSlot :=
    mkApiSlot (sl_index s) (sl_name s) (sl_ship_endpoint s) (sl_role s) (sl_priority s)
    (sl_weight s) (sl_endpoint s) (sl_authority s) (sl_base s) (sl_declared s) (sl_cap s)
    (sl_in_flight s) v.

Definition new_slot (u : ApiUpstream) (cap : Z) : ApiSlot :=
  mkApiSlot (au_index u) (au_name u) (au_endpoint u) (au_role u) (au_priority u)
    (Z.max (au_weight u) 1) (ae_canonical (au_api u)) (ae_authority (au_api u))
    (ae_base_url (au_api u))
    (if bool_decide (au_role u = Frozen) then au_range u else None)
    (Z.max cap 1) 0 default_api_state.

Definition on_state (f : ApiState -> ApiState) (sl : ApiSlot) : ApiSlot :=
  set_sl_state (f (sl_state sl)) sl.

(** Whether waiters are woken, and the slot. *)
Definition set_cap (cap : Z) (sl : ApiSlot) : bool * ApiSlot :=
  (sl_cap sl <? cap, set_sl_cap (Z.max cap 1) sl).

Definition is_full (sl : ApiSlot) : bool := sl_cap sl <=? sl_in_flight sl.

(** A [SlotGuard] when there was a free slot. *)
Definition try_acquire (sl : ApiSlot) : bool * ApiSlot :=
  if sl_in_flight sl <? sl_cap sl then (true, set_sl_in_flight (sl_in_flight sl + 1) sl)
  else (false, sl).

(** Dropping a guard; [fetch_sub] wraps. *)
Definition release (sl : ApiSlot) : ApiSlot :=
  set_sl_in_flight ((sl_in_flight sl - 1) mod 2 ^ 64) sl.

Definition mark_down (sl : ApiSlot) : bool * ApiSlot :=
  (as_up (sl_state sl), on_state (set_as_up false) sl).

Definition mark_busy (now : Z) (sl : ApiSlot) : ApiSlot :=
  on_state (set_as_busy_until (Some (now + BUSY_TTL))) sl.

(** ** The directory and its snapshot *)

Record ApiDirectory := mkDirectory {
  d_slots : list ApiSlot;
  d_by_index : gmap Z nat;
  d_first_chain_id : option (list Z);
}.

Definition new_directory (upstreams : list ApiUpstream) (cap : Z) : ApiDirectory :=
  let slots := map (fun u => new_slot u cap) upstreams in
  mkDirectory slots
    (foldl (fun m (ps : nat * ApiSlot) => <[sl_index ps.2 := ps.1]> m) ∅ (imap pair slots)) None.

Definition slot_of (d : ApiDirectory) (index : Z) : option ApiSlot :=
  d_by_index d !! index ≫= fun pos => d_slots d !! pos.

Definition first_chain_id (chain_id : list Z) (first : option (list Z)) : list Z * option (list Z) :=
  match first with
  | Some c => (c, first)
  | None => (chain_id, Some chain_id)
  end.

(** [Option::max]: [None] is the lowest. *)
Definition option_max (a b : option Z) : option Z :=
  match option_cmp a b with Gt => a | _ => b end.

Definition snapshot_slot (view : FleetView) (tips : Tips) (now : Z) (sl : ApiSlot) : ApiView :=
  let upstream := up view (sl_index sl) in
  let s := sl_state sl in
  let ship_head :=
    option_max (num <$> (upstream ≫= u_head)) ((fun hl => num (fst hl)) <$> tip_of tips (sl_index sl)) in
  let head := match sl_role sl with Live => option_max (as_head s) ship_head | Frozen => None end in
  let disabled := is_some_and u_operator_disabled upstream in
  mkApiView (sl_index sl) (sl_endpoint sl) (sl_role sl)
    (map_or (sl_priority sl) u_priority upstream)
    (map_or (sl_weight sl) (fun u => Z.max (u_weight u) 1) upstream)
    (as_up s && negb (as_chain_mismatch s) && negb disabled)
    (is_some_and (fun until => now <? until) (as_busy_until s))
    (sl_in_flight sl) (is_full sl) (as_apis s) head (as_lib s) (as_earliest s)
    (is_some (verified (as_verification s))) (as_blocks s) (sl_declared sl).

Definition snapshot (view : FleetView) (tips : Tips) (now : Z) (d : ApiDirectory) : list ApiView :=
  map (snapshot_slot view tips now) (d_slots d).

(** ** Probes ([probe.rs]) *)

Definition APIS_EVERY : Z := from_secs 60.

Record Info := mkInfo {
  i_chain_id : string;
  i_head_block_num : Z;
  i_lib : Z;
  i_earliest : option Z;
  i_version : option string;
}.

Record Describe := mkDescribe {
  de_chain_id : string;
  de_last_num : Z;
  de_last_id : string;
  de_blocks : Range;
  de_apis : option (gset string);
  de_get_block : option string;
  de_max_in_flight : option Z;
}.

Definition hex32 (text : string) : option (list Z) :=
  if (String.length text =? 64)%nat then hex_pairs text else None.

(** What an API's chain id is checked against: the pinned id, else the one its
    SHiP endpoint or the view has, else the first any API reported. *)
Record ChainIds := mkChainIds {
  ci_pinned : option (list Z);
  ci_ship : option (list Z);
  ci_view : option (list Z);
}.

Definition expected_chain_id (ids : ChainIds) (reported : list Z) (first : option (list Z))
    : list Z * option (list Z) :=
  match ci_pinned ids with
  | Some pinned => (pinned, first)
  | None =>
      match or_else (ci_ship ids) (ci_view ids) with
      | Some c => (c, first)
      | None => first_chain_id reported first
      end
  end.

Definition wrong_chain (reported : list Z) (s : ApiState) : ApiState :=
  let s := set_as_up false s in
  let s := set_as_chain_id (Some reported) s in
  set_as_chain_mismatch true s.

Definition verification_lost (s : ApiState) : ApiState := set_as_mismatch_logged true s.

(** The answer to [get_supported_apis]: its status and the paths parsed from it.
    [None] is a transport failure. *)
Definition refresh_apis (now : Z) (answer : option (Z * option (gset string))) (s : ApiState)
    : ApiState :=
  match answer with
  | None => s
  | Some (status, parsed) =>
      let apis := if status =? 200 then parsed else None in
      set_as_apis_at (Some now) (set_as_apis apis s)
  end.

Definition probe_live (now : Z) (ids : ChainIds) (info : option Info)
    (apis_answer : option (Z * option (gset string))) (first : option (list Z)) (sl : ApiSlot)
    : option (list Z) * ApiSlot :=
  match info ≫= fun i => (fun c => (i, c)) <$> hex32 (i_chain_id i) with
  | None => (first, on_state (fun s => snd (probe_failed s)) sl)
  | Some (info, chain_id) =>
      let '(expected, first) := expected_chain_id ids chain_id first in
      if negb (bool_decide (chain_id = expected))
      then (first, on_state (wrong_chain chain_id) sl)
      else
        let s := sl_state sl in
        let s := set_as_chain_id (Some chain_id) s in
        let s := set_as_chain_mismatch false s in
        let s := set_as_head (Some (i_head_block_num info)) s in
        let s := set_as_lib (Some (i_lib info)) s in
        let s := set_as_earliest (i_earliest info) s in
        let s := set_as_version (i_version info) s in
        let '(came_up, s) := probe_ok s in
        let refresh := came_up || is_none_or (fun at_ => APIS_EVERY <=? now - at_) (as_apis_at s) in
        (first, set_sl_state (if refresh then refresh_apis now apis_answer s else s) sl)
  end.

Definition parse_describe (d : Describe) : option (Describe * list Z * BlockPos) :=
  match hex32 (de_chain_id d), hex32 (de_last_id d) with
  | Some chain_id, Some id => Some (d, chain_id, mkPos (de_last_num d) id)
  | _, _ => None
  end.

(** [check]: the id text the API's [get_block_info] answered for [pos]. *)
Definition check (pos : BlockPos) (answer : option string) (s : ApiState) : ApiState :=
  match answer ≫= hex32 with
  | None => s
  | Some id =>
      let '(result, v) := checked pos id (as_verification s) in
      let s := set_as_verification v s in
      match result with
      | VKeep => set_as_mismatch_logged false s
      | VMismatch => verification_lost s
      | VCheck _ => s
      end
  end.

Definition describe_cap (per_upstream : Z) (d : Describe) : Z :=
  Z.min (map_or per_upstream (fun n => Z.max (Z.min n usize_max) 1) (de_max_in_flight d)) per_upstream.

(** The step after the chain id was accepted. *)
Definition store_describe (d : Describe) (chain_id : list Z) (last : BlockPos) (s : ApiState)
    : ApiState :=
  let s := set_as_chain_id (Some chain_id) s in
  let s := set_as_chain_mismatch false s in
  let s := set_as_blocks (Some (de_blocks d)) s in
  let s := set_as_last (Some last) s in
  let s := set_as_apis (de_apis d) s in
  let s := set_as_get_block (de_get_block d) s in
  snd (probe_ok s).

(** [verification.ship_head] on every probe. *)
Definition note_ship_head (ship_head : option BlockPos) (s : ApiState) : ApiState :=
  let '(lost, v) := on_ship_head ship_head (as_verification s) in
  let s := set_as_verification v s in
  if bool_decide (lost = VMismatch) then verification_lost s else s.

Definition probe_frozen (per_upstream : Z) (ids : ChainIds) (ship_head : option BlockPos)
    (describe : option Describe) (check_answer : option string) (first : option (list Z))
    (sl : ApiSlot) : option (list Z) * ApiSlot :=
  let sl := on_state (note_ship_head ship_head) sl in
  match describe ≫= parse_describe with
  | None => (first, on_state (fun s => snd (probe_failed s)) sl)
  | Some (d, chain_id, last) =>
      let '(expected, first) := expected_chain_id ids chain_id first in
      let chain_ok := bool_decide (chain_id = expected) in
      let '(step, v) := described last chain_ok ship_head (as_verification (sl_state sl)) in
      let sl := on_state (set_as_verification v) sl in
      if negb chain_ok then (first, on_state (wrong_chain chain_id) sl)
      else
        let sl := snd (set_cap (describe_cap per_upstream d) sl) in
        let sl := on_state (store_describe d chain_id last) sl in
        (first,
         match step with
         | VKeep => sl
         | VMismatch => on_state verification_lost sl
         | VCheck pos => on_state (check pos check_answer) sl
         end)
  end.

(** [hex] of probe.rs: two lowercase digits a byte. *)
Definition hex_digit (d : Z) : Ascii.ascii :=
  Ascii.ascii_of_nat (Z.to_nat (if d <? 10 then 48 + d else 87 + d)).
Fixpoint hex (bytes : list Z) : string :=
  match bytes with
  | [] => EmptyString
  | b :: bytes =>
      String.String (hex_digit (b / 16)) (String.String (hex_digit (b mod 16)) (hex bytes))
  end.

(** ** Histories of a slot *)

(** What happens to a slot: its probes (with the chain ids known and the first
    one any API reported at that time) and the requests sent to it. *)
Inductive SlotEvent :=
| EvProbeLive (now : Z) (ids : ChainIds) (info : option Info)
    (apis : option (Z * option (gset string))) (first : option (list Z))
| EvProbeFrozen (per_upstream : Z) (ids : ChainIds) (ship_head : option BlockPos)
    (describe : option Describe) (answer : option string) (first : option (list Z))
| EvAcquire
| EvRelease
| EvDown
| EvBusy (now : Z).

Definition slot_event (e : SlotEvent) (sl : ApiSlot) : ApiSlot :=
  match e with
  | EvProbeLive now ids info apis first => snd (probe_live now ids info apis first sl)
  | EvProbeFrozen per ids head describe answer first =>
      snd (probe_frozen per ids head describe answer first sl)
  | EvAcquire => snd (try_acquire sl)
  | EvRelease => release sl
  | EvDown => snd (mark_down sl)
  | EvBusy now => mark_busy now sl
  end.

Definition slot_run (evs : list SlotEvent) (sl : ApiSlot) : ApiSlot := foldl (fun sl e => slot_event e sl) sl evs.

Lemma slot_run_snoc evs e sl : slot_run (evs ++ [e]) sl = slot_event e (slot_run evs sl).
Proof. unfold slot_run. by rewrite foldl_snoc. Qed.

(** Case on every test of an event. *)
Ltac event_cases :=
  repeat match goal with
  | |- context [match ?x with _ => _ end] => destruct x eqn:?
  | |- context [if ?x then _ else _] => destruct x eqn:?
  end.

(** *** What never changes *)

Definition slot_static (sl : ApiSlot) : Z * string * Role * Z * Z * string * option Range :=
  (sl_index sl, sl_name sl, sl_role sl, sl_priority sl, sl_weight sl, sl_endpoint sl, sl_declared sl).

Lemma slot_event_static e sl : slot_static (slot_event e sl) = slot_static sl.
Proof.
  destruct e; cbn [slot_event]; try done.
  - unfold probe_live. event_cases; done.
  - unfold probe_frozen. event_cases; done.
  - unfold try_acquire. by destruct (_ <? _).
Qed.

Lemma slot_run_static evs sl : slot_static (slot_run evs sl) = slot_static sl.
Proof.
  induction evs as [|e evs IH] using rev_ind; [done|].
  by rewrite slot_run_snoc, slot_event_static.
Qed.

(** *** Verification *)

(** The chain id a probe expects, given the one reported. *)
Definition expected_of (ids : ChainIds) (reported : list Z) (first : option (list Z)) : list Z :=
  fst (expected_chain_id ids reported first).

(** A probe that verifies [pos]: the last block described, on the right chain,
    is the head of the SHiP endpoint, and the API's own id of it is the same. *)
Definition confirms (e : SlotEvent) (pos : BlockPos) : Prop :=
  match e with
  | EvProbeFrozen _ ids head describe answer first =>
      head = Some pos
      /\ (exists d chain, describe ≫= parse_describe = Some (d, chain, pos)
            /\ expected_of ids chain first = chain)
      /\ answer ≫= hex32 = Some (block_id pos)
  | _ => False
  end.

(** A probe that contradicts a verification of [pos]: another SHiP head, another
    chain, or another last block while the SHiP head is known. *)
Definition contradicts (e : SlotEvent) (pos : BlockPos) : Prop :=
  match e with
  | EvProbeFrozen _ ids head describe _ first =>
      (exists h, head = Some h /\ h <> pos)
      \/ exists d chain last, describe ≫= parse_describe = Some (d, chain, last)
           /\ (expected_of ids chain first <> chain \/ (last <> pos /\ is_Some head))
  | _ => False
  end.

Definition slot_verified (sl : ApiSlot) : option BlockPos := verified (as_verification (sl_state sl)).

Lemma note_ship_head_verified head s :
  verified (as_verification (note_ship_head head s)) =
  match verified (as_verification s), head with
  | Some p, Some h => if bool_decide (p <> h) then None else Some p
  | v, _ => v
  end.
Proof.
  unfold note_ship_head, on_ship_head. destruct s as [? ? ? ? ? ? ? ? ? ? ? ? ? [v] ? ?].
  cbn. destruct v as [p|], head as [h|]; cbn; try done. by destruct (bool_decide _).
Qed.

(** The verification after a probe of an archive. *)
Lemma probe_frozen_verified per ids head describe answer first sl :
  let v1 := match slot_verified sl, head with
            | Some p, Some h => if bool_decide (p <> h) then None else Some p
            | v, _ => v end in
  slot_verified (snd (probe_frozen per ids head describe answer first sl)) =
  match describe ≫= parse_describe with
  | None => v1
  | Some (_, chain, last) =>
      if negb (bool_decide (chain = expected_of ids chain first)) then None
      else if bool_decide (v1 = Some last) then v1
      else match head with
           | None => v1
           | Some h =>
               if bool_decide (h = last)
               then match answer ≫= hex32 with
                    | None => v1
                    | Some id => if bool_decide (id = block_id last) then Some last else None
                    end
               else None
           end
  end.
Proof.
  intros v1. unfold slot_verified, probe_frozen.
  assert (verified (as_verification (note_ship_head head (sl_state sl))) = v1) as Hv
    by apply note_ship_head_verified. clearbody v1.
  destruct (describe ≫= parse_describe) as [[[d chain] last]|].
  2:{ cbn. unfold probe_failed. by destruct (_ && _). }
  unfold expected_of. destruct (expected_chain_id ids chain first) as [expected first'].
  cbn [fst snd on_state sl_state set_sl_state]. unfold described.
  destruct (bool_decide (chain = expected)); [|done]. cbn [negb].
  rewrite Hv. destruct (bool_decide (v1 = Some last)) eqn:E1; [exact Hv|].
  destruct head as [h|]; [|exact Hv].
  destruct (bool_decide (h = last)) eqn:E2; [|done]. cbn. unfold check.
  destruct (answer ≫= hex32) as [id|]; [|exact Hv]. unfold checked. bools. subst h.
  by destruct (bool_decide (id = block_id last)).
Qed.

Lemma probe_live_verified now ids info apis first sl :
  slot_verified (probe_live now ids info apis first sl).2 = slot_verified sl.
Proof.
  unfold probe_live, refresh_apis, probe_ok. event_cases; try done.
  cbn. unfold probe_failed, slot_verified. cbn. by destruct (_ && _).
Qed.

Lemma slot_event_verified e sl pos :
  slot_verified (slot_event e sl) = Some pos <->
  confirms e pos \/ (slot_verified sl = Some pos /\ ~ contradicts e pos).
Proof.
  destruct e as [now ids info apis first|per ids head describe answer first| | | |now];
    cbn [slot_event confirms contradicts].
  1: rewrite probe_live_verified; tauto.
  2: unfold try_acquire; destruct (_ <? _); cbn; tauto.
  2-4: cbn; tauto.
  rewrite probe_frozen_verified. unfold is_Some.
  destruct (describe ≫= parse_describe) as [[[d chain] last]|], head as [h|], (slot_verified sl) as [p|],
    (answer ≫= hex32) as [id|]; repeat case_bool_decide; cbn [negb]; naive_solver congruence.
Qed.

(** Some probe confirmed [pos] and none has contradicted it since. *)
Definition confirmed (evs : list SlotEvent) (pos : BlockPos) : Prop :=
  exists before e after, evs = before ++ e :: after /\ confirms e pos
    /\ Forall (fun e' => ~ contradicts e' pos) after.

Lemma slot_run_verified u cap evs pos :
  slot_verified (slot_run evs (new_slot u cap)) = Some pos <-> confirmed evs pos.
Proof.
  unfold confirmed.
  induction evs as [|e evs IH] using rev_ind.
  - split; [done|]. intros (b & e & a & H & _). by destruct b.
  - rewrite slot_run_snoc, slot_event_verified, IH. split.
    + intros [Hc|[(b & e' & a & -> & Hc & Ha) Hno]].
      * exists evs, e, []. done.
      * exists b, e', (a ++ [e]). rewrite <-app_assoc. split_and!; [done..|].
        apply Forall_app. by repeat constructor.
    + intros (b & e' & a & Heq & Hc & Ha). destruct a as [|x a _] using rev_ind.
      * apply app_inj_tail in Heq as [-> ->]. by left.
      * rewrite app_comm_cons, app_assoc in Heq. apply app_inj_tail in Heq as [-> ->].
        apply Forall_app in Ha as [Ha Hx]. inversion Hx; subst. right. eauto 10.
Qed.

(** *** The chain of an API in use *)

(** A probe in which the API reported [chain] and that was the one expected. *)
Definition reports (e : SlotEvent) (chain : list Z) : Prop :=
  match e with
  | EvProbeLive _ ids info _ first =>
      (exists i, info = Some i /\ hex32 (i_chain_id i) = Some chain)
      /\ expected_of ids chain first = chain
  | EvProbeFrozen _ ids _ describe _ first =>
      (exists d last, describe ≫= parse_describe = Some (d, chain, last))
      /\ expected_of ids chain first = chain
  | _ => False
  end.

Definition api_state_ok (evs : list SlotEvent) (s : ApiState) : Prop :=
  as_up s = true ->
  as_chain_mismatch s = false /\ as_fails s < DOWN_AFTER_FAILURES
  /\ exists chain e, as_chain_id s = Some chain /\ e ∈ evs /\ reports e chain.

Lemma api_state_ok_mono evs e s : api_state_ok evs s -> api_state_ok (evs ++ [e]) s.
Proof.
  intros H Hup. destruct (H Hup) as (H1 & H2 & c & e' & H3 & H4 & H5). split_and!; [done..|].
  exists c, e'. rewrite elem_of_app. auto.
Qed.

Lemma api_state_ok_failed evs s : api_state_ok evs s -> api_state_ok evs (snd (probe_failed s)).
Proof.
  unfold probe_failed. destruct (_ && _) eqn:E; [done|]. cbn [snd]. intros H Hup.
  cbn in Hup. destruct (H Hup) as (H1 & H2 & H3). split_and!; [done| |done].
  cbn [as_up set_as_fails] in E. rewrite Hup in E. by apply Z.leb_gt in E.
Qed.

(** The fields the invariant reads. *)
Definition chain_view (s : ApiState) : bool * bool * Z * option (list Z) :=
  (as_up s, as_chain_mismatch s, as_fails s, as_chain_id s).

Lemma api_state_ok_ext evs s s' :
  chain_view s = chain_view s' -> api_state_ok evs s -> api_state_ok evs s'.
Proof. unfold chain_view, api_state_ok. intros [= -> -> -> ->]. done. Qed.

Lemma note_ship_head_chain head s : chain_view (note_ship_head head s) = chain_view s.
Proof.
  unfold note_ship_head. destruct (on_ship_head head _) as [l v]. by destruct (bool_decide _).
Qed.

Lemma slot_event_chain evs e sl :
  api_state_ok evs (sl_state sl) -> api_state_ok (evs ++ [e]) (sl_state (slot_event e sl)).
Proof.
  intros H. assert (e ∈ evs ++ [e]) as He by (apply elem_of_app; right; by left).
  destruct e as [now ids info apis first|per ids head describe answer first| | | |now]; cbn [slot_event].
  - unfold probe_live. destruct info as [i|]; cbn.
    2:{ apply api_state_ok_mono. by apply api_state_ok_failed. }
    destruct (hex32 (i_chain_id i)) as [chain|] eqn:Eh; cbn.
    2:{ apply api_state_ok_mono. by apply api_state_ok_failed. }
    destruct (expected_chain_id ids chain first) as [expected first'] eqn:Ex.
    destruct (bool_decide (chain = expected)) eqn:Ec; bools; [|by intros ?]. subst expected.
    assert (reports (EvProbeLive now ids (Some i) apis first) chain) as Hr.
    { split; [eauto|]. unfold expected_of. by rewrite Ex. }
    unfold refresh_apis. intros _. event_cases; (split_and!; [done|done|eauto 10]).
  - unfold probe_frozen. set (sl1 := on_state (note_ship_head head) sl).
    assert (api_state_ok evs (sl_state sl1)) as H1.
    { eapply api_state_ok_ext; [symmetry; apply note_ship_head_chain|done]. }
    clearbody sl1. destruct (describe ≫= parse_describe) as [[[d chain] last]|] eqn:Ed.
    2:{ apply api_state_ok_mono. by apply api_state_ok_failed. }
    destruct (expected_chain_id ids chain first) as [expected first'] eqn:Ex.
    destruct (described _ _ _ _) as [step v].
    destruct (bool_decide (chain = expected)) eqn:Ec; bools; [|by intros ?]. subst expected.
    assert (reports (EvProbeFrozen per ids head describe answer first) chain) as Hr.
    { split; [rewrite Ed; eauto|]. unfold expected_of. by rewrite Ex. }
    intros _. cbn [snd negb].
    destruct step; cbn; try (split_and!; [done|done|eauto 10]).
    unfold check. destruct (answer ≫= hex32) as [id|]; [|split_and!; [done|done|eauto 10]].
    destruct (checked _ _ _) as [[| |] v']; cbn; (split_and!; [done|done|eauto 10]).
  - apply api_state_ok_mono. unfold try_acquire. by destruct (_ <? _).
  - by apply api_state_ok_mono.
  - by intros ?.
  - apply api_state_ok_mono. by eapply api_state_ok_ext; [|exact H].
Qed.

(** An API in use has reported the chain the listener expects. *)
Lemma slot_run_chain evs u cap : api_state_ok evs (sl_state (slot_run evs (new_slot u cap))).
Proof.
  induction evs as [|e evs IH] using rev_ind; [done|].
  rewrite slot_run_snoc. by apply slot_event_chain.
Qed.

(** A listener with a pinned chain id. *)
Definition pinned_by (pinned : list Z) (e : SlotEvent) : Prop :=
  match e with
  | EvProbeLive _ ids _ _ _ | EvProbeFrozen _ ids _ _ _ _ => ci_pinned ids = Some pinned
  | _ => True
  end.

Lemma reports_pinned e chain pinned : reports e chain -> pinned_by pinned e -> chain = pinned.
Proof.
  destruct e; try done; cbn; intros [_ He] Hp;
    unfold expected_of, expected_chain_id in He; by rewrite Hp in He.
Qed.

(** ** The directory a request reads *)

(** The directory after every API's own history. *)
Definition dir_after (ups : list ApiUpstream) (cap : Z) (hist : Z -> list SlotEvent)
    (first : option (list Z)) : ApiDirectory :=
  let d := new_directory ups cap in
  mkDirectory (map (fun sl => slot_run (hist (sl_index sl)) sl) (d_slots d)) (d_by_index d) first.

Definition slot_after (cap : Z) (hist : Z -> list SlotEvent) (u : ApiUpstream) : ApiSlot :=
  slot_run (hist (au_index u)) (new_slot u cap).

Lemma dir_after_slots ups cap hist first :
  d_slots (dir_after ups cap hist first) = map (slot_after cap hist) ups.
Proof. cbn. by rewrite map_map. Qed.

Lemma slot_after_static cap hist u : slot_static (slot_after cap hist u) = slot_static (new_slot u cap).
Proof. apply slot_run_static. Qed.

Lemma snapshot_index view tips now cap hist u :
  av_index (snapshot_slot view tips now (slot_after cap hist u)) = au_index u
  /\ av_role (snapshot_slot view tips now (slot_after cap hist u)) = au_role u.
Proof.
  pose proof (slot_after_static cap hist u) as H. unfold slot_static in H. cbn in H.
  injection H as H1 _ H2 _ _ _ _. cbn. by rewrite H1, H2.
Qed.

Lemma snapshot_indices view tips now ups cap hist first :
  map av_index (snapshot view tips now (dir_after ups cap hist first)) = map au_index ups.
Proof.
  unfold snapshot. rewrite dir_after_slots, !map_map. apply map_ext. intros u. apply snapshot_index.
Qed.

(** [by_index] finds the slot of every upstream. *)
Lemma by_index_fold (slots : list ApiSlot) (k : nat) (m : gmap Z nat) i :
  foldl (fun m (ps : nat * ApiSlot) => <[sl_index ps.2 := ps.1]> m) m (imap (fun j s => (k + j, s)%nat) slots) !! i
  = match rposition (fun s => sl_index s =? i) slots with
    | Some j => Some (k + j)%nat
    | None => m !! i
    end.
Proof.
  revert k m. induction slots as [|s slots IH]; intros k m; [done|]. cbn [imap foldl rposition].
  rewrite (imap_ext _ (fun j s => (S k + j, s)%nat)) by (intros; cbn; f_equal; lia).
  rewrite IH. destruct (rposition _ slots) as [j|]; [f_equal; lia|]. cbn [fst snd].
  destruct (sl_index s =? i) eqn:E; bools.
  - subst i. rewrite lookup_insert. rewrite decide_True by done. f_equal; lia.
  - by rewrite lookup_insert_ne.
Qed.

Lemma slot_of_after ups cap hist first u :
  NoDup (map au_index ups) -> u ∈ ups ->
  slot_of (dir_after ups cap hist first) (au_index u) = Some (slot_after cap hist u).
Proof.
  intros Hnd [j Hj]%list_elem_of_lookup. unfold slot_of. rewrite dir_after_slots.
  cbn [dir_after d_by_index new_directory].
  rewrite (imap_ext pair (fun j s => (0 + j, s)%nat)) by done. rewrite (by_index_fold _ 0).
  destruct (rposition _ _) as [k|] eqn:E.
  - cbn. apply rposition_some in E as (s & Hs & Hi). bools.
    rewrite list_lookup_fmap in Hs |- *. destruct (ups !! k) as [u'|] eqn:Hk; [|done].
    injection Hs as <-. cbn in Hi |- *. do 2 f_equal.
    assert (k = j) as ->; [|congruence].
    apply (NoDup_lookup (map au_index ups) k j (au_index u)); [done|..]; rewrite list_lookup_fmap;
      [rewrite Hk|rewrite Hj]; cbn; congruence.
  - exfalso. apply (rposition_none _ _ (new_slot u cap)) in E; [cbn in E; bools; done|].
    apply list_elem_of_lookup. exists j. by rewrite list_lookup_fmap, Hj.
Qed.

(** An archive is verified for a block exactly when some probe confirmed it
    (its last block was the head of its SHiP endpoint, on the listener's chain,
    and its own [get_block_info] gave the same id) and no probe since then
    contradicted it; outages of either endpoint and requests in between change
    nothing. *)
Theorem verified_exact u cap evs pos :
  slot_verified (slot_run evs (new_slot u cap)) = Some pos <->
  exists before e after, evs = before ++ e :: after /\ confirms e pos
    /\ Forall (fun e' => ~ contradicts e' pos) after.
Proof. apply slot_run_verified. Qed.

(** C26: Whatever the probes and requests before it, a block request is routed
    only to APIs that are up, on the pinned chain and not disabled by an
    operator; an archive among them was confirmed against its SHiP endpoint and
    not contradicted since, it reported blocks that include the one asked for,
    which is irreversible, and the call is not [get_block]. *)
Theorem routed_to_confirmed ups cap hist first view tips now q r pinned :
  NoDup (map au_index ups) -> (forall i e, e ∈ hist i -> pinned_by pinned e) ->
  plan_block q (snapshot view tips now (dir_after ups cap hist first)) = RoutedTo r ->
  forall i, i ∈ rt_order r -> exists u, u ∈ ups /\ au_index u = i
    /\ slot_of (dir_after ups cap hist first) i = Some (slot_after cap hist u)
    /\ as_up (sl_state (slot_after cap hist u)) = true
    /\ as_chain_id (sl_state (slot_after cap hist u)) = Some pinned
    /\ is_some_and u_operator_disabled (up view i) = false
    /\ (au_role u = Frozen ->
          rt_region r = Irreversible /\ bq_endpoint q <> EpBlock
          /\ exists pos b, confirmed (hist i) pos
               /\ as_blocks (sl_state (slot_after cap hist u)) = Some b
               /\ range_contains b (rt_n r) = true).
Proof.
  intros Hnd Hpin Hplan i Hi.
  edestruct plan_block_views as (h & o & _ & _ & _ & _ & Ho & _ & Hsub & _);
    [by rewrite snapshot_indices|exact Hplan|].
  rewrite Ho in Hi. apply list_elem_of_fmap in Hi as (a & -> & [Ha Hc]%Hsub).
  unfold snapshot in Ha. rewrite dir_after_slots, map_map in Ha.
  apply list_elem_of_fmap in Ha as (u & -> & Hu).
  destruct (snapshot_index view tips now cap hist u) as [Hidx Hrole]. rewrite Hidx.
  set (a := snapshot_slot view tips now (slot_after cap hist u)) in *.
  assert (usable a (ep_path (bq_endpoint q)) = true) as Hus.
  { unfold block_candidate, irreversible_candidate in Hc. destruct (rt_region r); by bools. }
  unfold usable in Hus. apply andb_true_iff in Hus as [[Hup _]%andb_true_iff _].
  subst a. cbn in Hup. apply andb_true_iff in Hup as [[Hup _]%andb_true_iff Hdis%negb_true_iff].
  exists u. split; [done|]. split; [done|]. split; [by apply slot_of_after|]. split; [done|].
  pose proof (slot_after_static cap hist u) as Hst. injection Hst as Hsi _ _ _ _ _.
  split_and!.
  - destruct (slot_run_chain (hist (au_index u)) u cap Hup) as (_ & _ & c & e & Hcid & He & Hr).
    fold (slot_after cap hist u) in Hcid. rewrite Hcid. f_equal.
    eapply reports_pinned; [done|]. by eapply Hpin.
  - by rewrite Hsi in Hdis.
  - intros Hf. rewrite Hf in Hrole. unfold block_candidate, irreversible_candidate, av_is_live in Hc.
    rewrite Hrole in Hc. destruct (rt_region r); cbn [is_live andb] in Hc; [|done].
    apply andb_true_iff in Hc as [_ [Hep Har]%andb_true_iff]. unfold archives in Har.
    apply andb_true_iff in Har as [[_ Hver]%andb_true_iff Hb]. bools. split_and!; [done|done|].
    cbn in Hver, Hb. destruct (as_blocks _) as [b|]; [|done].
    destruct (verified _) as [pos|] eqn:Ev; [|done]. exists pos, b.
    split_and!; [by eapply slot_run_verified|done..].
Qed.

(** ** The slots of an API *)

(** One step of a slot and the guards handed out: a request takes a slot or
    drops its guard, or a probe or an answer changes the state. [per] is
    [max_in_flight_per_upstream]. *)
Inductive slot_step (per : Z) : ApiSlot * Z -> ApiSlot * Z -> Prop :=
| step_acquire sl g :
    slot_step per (sl, g) (snd (try_acquire sl), if fst (try_acquire sl) then g + 1 else g)
| step_release sl g : 0 < g -> slot_step per (sl, g) (release sl, g - 1)
| step_live now ids info apis first sl g :
    slot_step per (sl, g) (slot_event (EvProbeLive now ids info apis first) sl, g)
| step_frozen ids head describe answer first sl g :
    slot_step per (sl, g) (slot_event (EvProbeFrozen per ids head describe answer first) sl, g)
| step_down sl g : slot_step per (sl, g) (slot_event EvDown sl, g)
| step_busy now sl g : slot_step per (sl, g) (slot_event (EvBusy now) sl, g).

Lemma probe_slot_counts per ids head describe answer first sl :
  let sl' := snd (probe_frozen per ids head describe answer first sl) in
  sl_in_flight sl' = sl_in_flight sl
  /\ (sl_cap sl' = sl_cap sl \/ 1 <= sl_cap sl' <= Z.max per 1).
Proof.
  unfold probe_frozen.
  destruct (describe ≫= parse_describe) as [[[d chain] last]|]; [|by split; [|left]].
  destruct (expected_chain_id ids chain first) as [expected first'].
  destruct (described _ _ _ _) as [step v].
  destruct (bool_decide (chain = expected)); [|by split; [|left]].
  assert (1 <= Z.max (describe_cap per d) 1 <= Z.max per 1) as H by (unfold describe_cap; lia).
  destruct step; (split; [done|right; exact H]).
Qed.

(** A slot counts exactly the guards that are out, through any interleaving
    of requests, probes and cap changes; there are never more of them than
    [max_in_flight_per_upstream] (at least one), the cap stays within the same
    bounds, and a request gets a slot exactly while fewer guards than the cap
    are out. *)
Theorem slot_accounting u per sl g :
  per <= usize_max -> rtc (slot_step per) (new_slot u per, 0) (sl, g) ->
  sl_in_flight sl = g /\ 0 <= g <= Z.max per 1 /\ 1 <= sl_cap sl <= Z.max per 1
  /\ (fst (try_acquire sl) = true <-> g < sl_cap sl) /\ (is_full sl = true <-> sl_cap sl <= g).
Proof.
  intros Hper Hrun.
  enough (sl_in_flight sl = g /\ 0 <= g <= Z.max per 1 /\ 1 <= sl_cap sl <= Z.max per 1) as (H1 & H2 & H3).
  { split_and!; try lia; unfold try_acquire, is_full.
    - rewrite H1. destruct (Z.ltb_spec g (sl_cap sl)); cbn; split; (done || lia).
    - rewrite H1. apply Z.leb_le. }
  set (inv := fun x : ApiSlot * Z => sl_in_flight x.1 = x.2 /\ 0 <= x.2 <= Z.max per 1
    /\ 1 <= sl_cap x.1 <= Z.max per 1).
  cut (inv (sl, g)); [done|]. revert Hrun.
  apply (rtc_ind_r inv (new_slot u per, 0)); [unfold inv; cbn; lia|].
  intros x y _ Hstep (H1 & H2 & H3). destruct Hstep; unfold inv in *; cbn [fst snd] in *.
  - unfold try_acquire. destruct (_ <? _) eqn:E; bools; cbn; lia.
  - cbn. rewrite H1, Z.mod_small by mlia. lia.
  - unfold slot_event, probe_live. event_cases; done.
  - cbn [slot_event]. destruct (probe_slot_counts per ids head describe answer first sl0) as [E1 E2].
    rewrite E1. lia.
  - cbn. lia.
  - cbn. lia.
Qed.

(** ** Ids as text *)

Lemma hex_val_digit d : 0 <= d < 16 -> hex_val (hex_digit d) = Some d.
Proof.
  intros Hd. rewrite <-(Z2Nat.id d) by lia. assert (Z.to_nat d < 16)%nat as Hn by lia.
  revert Hn. generalize (Z.to_nat d). intros n Hn. do 16 (destruct n as [|n]; [done|]). lia.
Qed.

(** An id printed by the router reads back as itself. *)
Lemma hex_roundtrip bytes : Forall is_u8 bytes -> hex_pairs (hex bytes) = Some bytes.
Proof.
  induction 1 as [|b bytes Hb _ IH]; [done|]. cbn [hex hex_pairs].
  assert (0 <= b / 16 < 16) by (split; [apply Z.div_pos; mlia|apply Z.div_lt_upper_bound; mlia]).
  rewrite !hex_val_digit, IH by (done || (apply Z.mod_pos_bound; lia)).
  do 2 f_equal. pose proof (Z.div_mod b 16). lia.
Qed.

(** ** Witnesses *)

Definition demo_id : list Z := replicate 32 17.
Definition demo_pos : BlockPos := mkPos 999 demo_id.
Definition demo_chain : list Z := replicate 32 171.
Definition demo_ids : ChainIds := mkChainIds (Some demo_chain) None None.
Definition demo_describe : Describe :=
  mkDescribe (hex demo_chain) 999 (hex demo_id) (mkRange 1 1000)
    (Some {[ep_path EpRawBlock]}) None (Some 4).
Definition demo_up : ApiUpstream :=
  mkApiUpstream 0 "archive" "archive:9000" Frozen (mkApiEndpoint "Archive" 8080) 0 1
    (Some (mkRange 1 1000)).
Definition demo_hist (_ : Z) : list SlotEvent :=
  [EvProbeFrozen 8 demo_ids None None None None;
   EvProbeFrozen 8 demo_ids (Some demo_pos) (Some demo_describe) (Some (hex demo_id)) None;
   EvProbeFrozen 8 demo_ids None None None None].
Definition demo_view : FleetView := empty_view RStitched (Some demo_chain).
Definition demo_block : BlockQuery :=
  mkBlockQuery EpRawBlock (Some (mkHint 600 false)) None FrozenFirst 2.

Lemma routed_to_confirmed_witness :
  exists u, u ∈ [demo_up] /\ au_index u = 0 /\ as_up (sl_state (slot_after 8 demo_hist u)) = true.
Proof.
  destruct (routed_to_confirmed [demo_up] 8 demo_hist None demo_view [] 0 demo_block
    (mkRouted 600 Irreversible [0] true []) demo_chain) with (i := 0) as (u & H1 & H2 & _ & H3 & _).
  - apply (bool_decide_unpack _). vm_compute. exact I.
  - intros i e He. unfold demo_hist in He. rewrite !elem_of_cons, elem_of_nil in He.
    destruct He as [->|[->|[->|[]]]]; reflexivity.
  - vm_compute. reflexivity.
  - by left.
  - exists u. done.
Defined.

Lemma slot_accounting_witness :
  fst (try_acquire (snd (try_acquire (new_slot demo_up 1)))) = true <-> 1 < 1.
Proof.
  apply (slot_accounting demo_up 1 (snd (try_acquire (new_slot demo_up 1))) 1).
  - vm_compute. discriminate.
  - eapply rtc_l; [|apply rtc_refl]. exact (step_acquire 1 (new_slot demo_up 1) 0).
Defined.
