(* ===== verification/ApiGateway.v ===== *)
(** * Chain API: the flow of a request

    Models [src/src/chain_api/mod.rs]: the attempts of a request over its order,
    pushes, the flows of the endpoint classes, and the handling of a request from
    its route to its answer; and the outcomes of [UpstreamClient::send] in
    [src/src/chain_api/upstream.rs].

    What a request meets while it runs is its environment: for each turn of the
    attempt loop, a [Turn] says whether the deadline passed, which slots are full,
    whether a slot was taken, and what the attempt gave.  Other requests and the
    probes act between the turns, so nothing relates one turn to the next.  A
    turn's effects on the slots and counters are the list of [Effect]s it made.
    The loop runs on fuel; [attempts_total] shows that the fuel it is given is
    enough whatever the environment does.

    The theorems: a request ends, and tries each API of its order at most once;
    its answer is the one a short specification computes from what the attempts
    gave, so races, queues and counters never change it; a call that may have
    executed, and a push, is never sent twice; a claimed block is never answered
    with an Unknown Block but by an archive that settles its id. *)

From S2P Require Import Prelude Wire Models View ApiRoute ApiPick ApiDirectory ApiBody.

Definition SLOT_RACES : nat := 16.

(** ** Policies and answers *)

Inductive Policy :=
| PolBlock (region : Region) (claimed : bool) (id_holders : list Z)
| PolState
| PolInfo
| PolExec.
#[export] Instance Policy_eq_dec : EqDecision Policy.
Proof. solve_decision. Defined.

(** What one attempt gave ([Attempt]); a response is its status, its declared
    length and the frames of its body. *)
Inductive Attempt :=
| AtResponse (status : Z) (length : option Z) (body : list BodyFrame)
| AtConnect
| AtConnectTimeout
| AtLost
| AtTimeout.

(** [send]: how the client call ended within the head timeout. *)
Inductive SendEnd :=
| SeTimedOut (had_connection : bool)
| SeResponse (status : Z) (length : option Z) (body : list BodyFrame)
| SeFailed (is_connect : bool).

Definition send_outcome (e : SendEnd) : Attempt :=
  match e with
  | SeTimedOut false => AtConnectTimeout
  | SeTimedOut true => AtTimeout
  | SeResponse s l b => AtResponse s l b
  | SeFailed true => AtConnect
  | SeFailed false => AtLost
  end.

Inductive UpstreamResult := UrOk | UrUnknownBlock | UrNotFound | UrBusy | UrError | UrConnect | UrTimeout.
#[export] Instance UpstreamResult_eq_dec : EqDecision UpstreamResult.
Proof. solve_decision. Defined.

Definition result_of (status : Z) (reason : option RetryReason) : UpstreamResult :=
  if bool_decide (reason = Some RrUnknownBlock) then UrUnknownBlock
  else if bool_decide (reason = Some RrNotFound) || (is_none reason && (status =? 404)) then UrNotFound
  else if status =? 503 then UrBusy
  else if (200 <=? status) && (status <=? 299) then UrOk
  else UrError.

(** What the client is sent: a body streamed from an API, one read whole, a text
    or an error of the router. *)
Inductive Reply :=
| RpStreamed (api : Z) (status : Z) (body : list BodyFrame)
| RpBuffered (status : Z) (body : list Z)
| RpGenerated (status : Z) (text : string)
| RpRouter (e : RouterError).

Record Answered := mkAnswered {
  an_reply : Reply;
  an_role : option Role;
  an_upstream : option Z;
  an_tries : nat;
}.

Definition router_answer (e : RouterError) (tries : nat) : Answered :=
  mkAnswered (RpRouter e) None None tries.

(** ** Effects on the slots and counters

    [EfSent] records a request sent, what came of it, and what the loop knew:
    whether the deadline cut it short and whether an API was left to try. *)

Inductive PushResult := PuOk | PuError | PuAmbiguous.

(** [Rejection]: the limits a client met. *)
Inductive Rejection := ReConnections | ReInFlight | ReBodyTooLarge | ReTimeout.

Inductive Effect :=
| EfSent (api : Z) (role : Role) (a : Attempt) (cut_short more : bool)
| EfResult (api : Z) (r : UpstreamResult)
| EfRetry (r : RetryReason)
| EfDown (api : Z)
| EfBusy (api : Z)
| EfPush (r : PushResult)
| EfBlockRequest (region : option Region) (role : option Role)
| EfRejected (r : Rejection)
| EfRequest (label : RequestClass) (status : Z).

Section gateway.
Context (error_code : list Z -> option Z) (d : ApiDirectory) (max_response_bytes : Z).

Definition transport_failed (api : Z) (answer : Answer) (r : UpstreamResult) : list Effect :=
  EfResult api r ::
  match api_classify error_code Reversible answer with
  | Final => []
  | NextUp reason _ => EfRetry reason :: (if marks_down reason then [EfDown api] else [])
  end.

Definition moved_on (api : Z) (reason : RetryReason) (busy : bool) : list Effect :=
  EfRetry reason :: (if busy then [EfBusy api] else []).

(** [max_bytes] of a relay. *)
Definition relay_max : option Z := if 0 <? max_response_bytes then Some max_response_bytes else None.

Definition relayed (max_bytes : option Z) (sl : ApiSlot) (status : Z) (length : option Z)
    (body : list BodyFrame) (tries : nat) : Answered :=
  match length, max_bytes with
  | Some len, Some max =>
      if max <? len then router_answer (ErrAnswerTooLarge max) tries
      else mkAnswered (RpStreamed (sl_index sl) status body) (Some (sl_role sl)) (Some (sl_index sl)) tries
  | _, _ => mkAnswered (RpStreamed (sl_index sl) status body) (Some (sl_role sl)) (Some (sl_index sl)) tries
  end.

Definition answered (r : Reply) (sl : ApiSlot) (tries : nat) : Answered :=
  mkAnswered r (Some (sl_role sl)) (Some (sl_index sl)) tries.

(** ** The attempt loop *)

(** What one turn of the loop meets. *)
Record Turn := mkTurn {
  t_past_deadline : bool;
  t_full : Z -> bool;
  t_slot_taken : bool;
  t_request_ok : bool;
  t_cut_short : bool;
  t_attempt : Attempt;
}.

Record LoopState := mkLoop {
  lp_tried : list Z;
  lp_kept : list (Role * (Z * list Z));
  lp_lost : bool;
  lp_races : nat;
  lp_effects : list Effect;
}.

Inductive TurnEnd :=
| TeContinue (st : LoopState)
| TeBreak (st : LoopState)
| TeReturn (a : Answered) (st : LoopState).

Definition add_effects (es : list Effect) (st : LoopState) : LoopState :=
  mkLoop (lp_tried st) (lp_kept st) (lp_lost st) (lp_races st) (lp_effects st ++ es).

Definition policy_block (p : Policy) : Region * bool * list Z :=
  match p with
  | PolBlock region claimed holders => (region, claimed, holders)
  | PolState | PolInfo | PolExec => (Reversible, false, [])
  end.

(** An API of the order is still untried. *)
Definition has_more (order : list Z) (st : LoopState) : bool :=
  existsb (fun i => negb (bool_decide (i ∈ lp_tried st))) order.

(** From the response head on. *)
Definition on_response (order : list Z) (policy : Policy) (sl : ApiSlot) (status : Z)
    (length_ : option Z) (body : list BodyFrame) (st : LoopState) : TurnEnd :=
  let api := sl_index sl in
  let '(region, claimed, holders) := policy_block policy in
  let tries := length (lp_tried st) in
  let more := has_more order st in
  if bool_decide (policy = PolInfo) && (500 <=? status) && more then
    let reason := if status =? 503 then RrBusy else RrError in
    TeContinue (add_effects (EfResult api (result_of status None)
      :: moved_on api reason (marks_busy reason)) st)
  else if bool_decide (policy = PolExec) then
    TeReturn (relayed relay_max sl status length_ body tries)
      (add_effects [EfResult api (result_of status None)] st)
  else if negb (needs_peek region status length_) then
    match api_classify error_code region (AnsResponse status None) with
    | Final =>
        TeReturn (relayed relay_max sl status length_ body tries)
          (add_effects [EfResult api (result_of status None)] st)
    | NextUp reason _ =>
        TeContinue (add_effects (EfResult api (result_of status (Some reason))
          :: moved_on api reason (marks_busy reason)) st)
    end
  else
    match peek PEEK_LIMIT body with
    | PkPartial prefix rest =>
        TeReturn (answered (RpStreamed api status (replay prefix rest)) sl tries)
          (add_effects [EfResult api (result_of status None)] st)
    | PkBroken => TeContinue (add_effects (transport_failed api AnsConnect UrConnect) st)
    | PkDeadline => TeBreak (add_effects [EfResult api UrTimeout] st)
    | PkWhole bytes =>
        match api_classify error_code region (AnsResponse status (Some bytes)) with
        | Final =>
            TeReturn (answered (RpBuffered status bytes) sl tries)
              (add_effects [EfResult api (result_of status None)] st)
        | NextUp reason keep =>
            let st := add_effects [EfResult api (result_of status (Some reason))] st in
            if settles reason (bool_decide (api ∈ holders)) then
              TeReturn (answered (RpBuffered status bytes) sl tries) st
            else
              let st := add_effects (moved_on api reason false) st in
              TeContinue
                (if keep && keeps reason claimed
                 then mkLoop (lp_tried st) (lp_kept st ++ [(sl_role sl, (status, bytes))]) (lp_lost st)
                        (lp_races st) (lp_effects st)
                 else st)
        end
    end.

(** From the slot on: [tried] holds the API already. *)
Definition on_slot (order : list Z) (policy : Policy) (t : Turn) (sl : ApiSlot) (st : LoopState)
    : TurnEnd :=
  let api := sl_index sl in
  let st := mkLoop (lp_tried st ++ [api]) (lp_kept st) (lp_lost st) (lp_races st) (lp_effects st) in
  if negb (t_request_ok t) then TeContinue st
  else
    let st := add_effects [EfSent api (sl_role sl) (t_attempt t) (t_cut_short t) (has_more order st)] st in
    match t_attempt t with
    | AtResponse status length_ body => on_response order policy sl status length_ body st
    | AtConnect => TeContinue (add_effects (transport_failed api AnsConnect UrConnect) st)
    | (AtLost | AtTimeout) as a =>
        if bool_decide (policy = PolExec) then
          let r := match a with AtTimeout => UrTimeout | _ => UrConnect end in
          let st := add_effects [EfResult api r] st in
          TeBreak (mkLoop (lp_tried st) (lp_kept st) true (lp_races st) (lp_effects st))
        else
          match a with
          | AtTimeout =>
              if t_cut_short t then TeBreak (add_effects [EfResult api UrTimeout] st)
              else TeContinue (add_effects (transport_failed api AnsTimeout UrTimeout) st)
          | _ => TeContinue (add_effects (transport_failed api AnsConnect UrConnect) st)
          end
    | AtConnectTimeout =>
        if t_cut_short t then TeBreak (add_effects [EfResult api UrTimeout] st)
        else TeContinue (add_effects (transport_failed api AnsTimeout UrTimeout) st)
    end.

Definition full_now (t : Turn) (i : Z) : bool := is_none_or (fun _ => t_full t i) (slot_of d i).

Definition attempt_turn (order : list Z) (policy : Policy) (t : Turn) (st : LoopState) : TurnEnd :=
  if t_past_deadline t then TeBreak st
  else
    match next_attempt order (lp_tried st) (full_now t) with
    | Exhausted => TeBreak st
    | Try i =>
        match slot_of d i with
        | None => TeContinue (mkLoop (lp_tried st ++ [i]) (lp_kept st) (lp_lost st) (lp_races st)
                                (lp_effects st))
        | Some sl =>
            if t_slot_taken t then on_slot order policy t sl st
            else if (lp_races st <? SLOT_RACES)%nat
            then TeContinue (mkLoop (lp_tried st) (lp_kept st) (lp_lost st) (S (lp_races st))
                               (lp_effects st))
            else TeBreak st
        end
    | WaitFor i =>
        match slot_of d i with
        | None => TeBreak st
        | Some sl => if t_slot_taken t then on_slot order policy t sl st else TeBreak st
        end
    end.

(** After the loop. *)
Definition finish_attempts (why : Busy) (st : LoopState) : Answered :=
  let tries := length (lp_tried st) in
  if lp_lost st then router_answer (ErrBusy BusyLostAfterSend) tries
  else
    match exhausted (imap (fun i (rb : Role * (Z * list Z)) => (rb.1, i)) (lp_kept st)) with
    | Some i =>
        match lp_kept st !! i with
        | Some (role, (status, body)) =>
            mkAnswered (RpBuffered status body) (Some role) None tries
        | None => router_answer (ErrBusy why) tries
        end
    | None => router_answer (ErrBusy why) tries
    end.

(** The loop on fuel; [None] when it runs out. *)
Fixpoint attempts_loop (fuel : nat) (order : list Z) (policy : Policy) (why : Busy)
    (env : nat -> Turn) (k : nat) (st : LoopState) : option (Answered * LoopState) :=
  match fuel with
  | O => None
  | S fuel =>
      match attempt_turn order policy (env k) st with
      | TeContinue st => attempts_loop fuel order policy why env (S k) st
      | TeBreak st => Some (finish_attempts why st, st)
      | TeReturn a st => Some (a, st)
      end
  end.

Definition new_loop : LoopState := mkLoop [] [] false 0 [].

Definition attempts_fuel (order : list Z) : nat := length order + SLOT_RACES + 1.

Definition attempts (order : list Z) (policy : Policy) (why : Busy) (env : nat -> Turn)
    : option (Answered * LoopState) :=
  attempts_loop (attempts_fuel order) order policy why env 0 new_loop.

(** ** Pushes *)

(** What one target of a push meets: the deadline, its slot, the request built
    for it, whether the deadline cuts the attempt short, and the attempt. *)
Record PushTurn := mkPushTurn {
  p_past_deadline : bool;
  p_slot_taken : bool;
  p_request_ok : bool;
  p_cut_short : bool;
  p_attempt : Attempt;
}.

(** After the loop over the targets. *)
Definition end_push (tries : nat) (es : list Effect) : Answered * list Effect :=
  (router_answer (ErrBusy (if (tries =? 0)%nat then BusyNoLiveUpstream else BusyNoUpstream)) tries,
   es ++ [EfPush PuError]).

(** The loop over the targets, with the effects made so far. *)
Fixpoint push_loop (targets : list Z) (env : Z -> PushTurn) (tries : nat) (es : list Effect)
    : Answered * list Effect :=
  match targets with
  | [] => end_push tries es
  | i :: targets =>
      let t := env i in
      if p_past_deadline t then end_push tries es
      else
        match slot_of d i with
        | None => push_loop targets env tries es
        | Some sl =>
            if negb (p_slot_taken t) then push_loop targets env tries es
            else if negb (p_request_ok t) then push_loop targets env tries es
            else
              let tries := S tries in
              let more := match targets with [] => false | _ => true end in
              let es := es ++ [EfSent (sl_index sl) (sl_role sl) (p_attempt t) (p_cut_short t) more] in
              match p_attempt t with
              | AtResponse status length_ body =>
                  (relayed None sl status length_ body tries,
                   es ++ [EfResult (sl_index sl) (result_of status None);
                          EfPush (if (200 <=? status) && (status <? 300) then PuOk else PuError)])
              | AtConnect =>
                  push_loop targets env tries (es ++ transport_failed (sl_index sl) AnsConnect UrConnect)
              | AtConnectTimeout =>
                  if p_cut_short t then end_push tries (es ++ [EfResult (sl_index sl) UrTimeout])
                  else push_loop targets env tries
                         (es ++ transport_failed (sl_index sl) AnsTimeout UrTimeout)
              | AtLost | AtTimeout =>
                  (router_answer (ErrBusy BusyLostAfterSend) tries,
                   es ++ [EfResult (sl_index sl) UrConnect; EfPush PuAmbiguous])
              end
        end
  end.
End gateway.

(** ** The loop ends *)

Definition te_state (e : TurnEnd) : LoopState :=
  match e with TeContinue st | TeBreak st | TeReturn _ st => st end.

(** Case on every test of a turn. *)
Ltac turn_cases :=
  repeat match goal with
  | |- context [match ?x with _ => _ end] => destruct x eqn:?
  | |- context [if ?x then _ else _] => destruct x eqn:?
  end.

Section loop.
Context (error_code : list Z -> option Z) (d : ApiDirectory) (max_bytes : Z).

(** A directory finds a slot under its own index, as every one built from
    upstreams with distinct indices does. *)
Definition dir_ok : Prop := forall i sl, slot_of d i = Some sl -> sl_index sl = i.

Notation turn := (attempt_turn error_code d max_bytes).

Lemma on_response_tried order policy sl status len body st :
  let st' := te_state (on_response error_code max_bytes order policy sl status len body st) in
  lp_tried st' = lp_tried st /\ lp_races st' = lp_races st.
Proof.
  unfold on_response. destruct (policy_block policy) as [[region claimed] holders].
  turn_cases; done.
Qed.

Lemma on_slot_tried order policy t sl st :
  let st' := te_state (on_slot error_code max_bytes order policy t sl st) in
  lp_tried st' = lp_tried st ++ [sl_index sl] /\ lp_races st' = lp_races st.
Proof.
  unfold on_slot. destruct (t_request_ok t); [|done]. cbn [negb].
  destruct (t_attempt t) as [status len body| | | |]; [|turn_cases; done..].
  cbv zeta. match goal with |- context [on_response _ _ _ _ _ _ _ _ ?s] =>
    apply (on_response_tried order policy sl status len body s) end.
Qed.

Definition untried (order tried : list Z) : list Z :=
  List.filter (fun i => negb (bool_decide (i ∈ tried))) order.

Lemma untried_decreases order tried i :
  i ∈ order -> i ∉ tried -> (length (untried order (tried ++ [i])) < length (untried order tried))%nat.
Proof.
  intros Hi Hn. unfold untried.
  assert (forall l, length (List.filter (fun j => negb (bool_decide (j ∈ tried ++ [i]))) l)
    <= length (List.filter (fun j => negb (bool_decide (j ∈ tried))) l))%nat as Hle.
  { induction l as [|j l IH]; [done|]. cbn. repeat case_bool_decide; cbn; try lia. set_solver. }
  induction order as [|j order IH]; [by apply elem_of_nil in Hi|]. cbn. specialize (Hle order).
  apply elem_of_cons in Hi as [<-|Hi].
  - rewrite bool_decide_eq_true_2 by set_solver. rewrite bool_decide_eq_false_2 by done. cbn. lia.
  - specialize (IH Hi). repeat case_bool_decide; cbn; try lia. set_solver.
Qed.

(** The APIs left to try and the races left to lose. *)
Definition loop_measure (order : list Z) (st : LoopState) : nat :=
  length (untried order (lp_tried st)) + (SLOT_RACES - lp_races st).

Lemma turn_continues order policy t st st' :
  dir_ok -> turn order policy t st = TeContinue st' ->
  (loop_measure order st' < loop_measure order st)%nat.
Proof.
  intros Hd. unfold attempt_turn, loop_measure. destruct (t_past_deadline t); [done|].
  pose proof (next_attempt_exact order (lp_tried st) (full_now d t)) as Hnext.
  destruct (next_attempt _ _ _) as [i|i|]; [| |done].
  - destruct Hnext as (Hi & Hn & _). pose proof (untried_decreases order (lp_tried st) i Hi Hn).
    destruct (slot_of d i) as [sl|] eqn:Es; [|intros [= <-]; cbn; lia].
    destruct (t_slot_taken t).
    + intros Ht. pose proof (on_slot_tried order policy t sl st) as H'. rewrite Ht, (Hd i sl Es) in H'.
      cbn in H'. destruct H' as [-> ->]. lia.
    + destruct (lp_races st <? SLOT_RACES)%nat eqn:Er; [|done]. apply Nat.ltb_lt in Er.
      intros [= <-]. cbn [lp_tried lp_races]. lia.
  - destruct Hnext as (Hi & Hn & _). pose proof (untried_decreases order (lp_tried st) i Hi Hn).
    destruct (slot_of d i) as [sl|] eqn:Es; [|done]. destruct (t_slot_taken t); [|done].
    intros Ht. pose proof (on_slot_tried order policy t sl st) as H'. rewrite Ht, (Hd i sl Es) in H'.
    cbn in H'. destruct H' as [-> ->]. lia.
Qed.

Lemma attempts_loop_total fuel order policy why env k st :
  dir_ok -> (loop_measure order st < fuel)%nat ->
  is_Some (attempts_loop error_code d max_bytes fuel order policy why env k st).
Proof.
  intros Hd. revert k st. induction fuel as [|fuel IH]; intros k st Hf; [lia|]. cbn.
  destruct (turn order policy (env k) st) as [st'|st'|a st'] eqn:E; [|by eexists..].
  apply IH. apply turn_continues in E; [lia|done].
Qed.

(** Invariants of the loop: what holds at the start and is kept by a turn that
    continues holds at the turn that ends it. *)
Lemma attempts_loop_inv (I : LoopState -> Prop) fuel order policy why env k st r :
  I st -> (forall t st st', I st -> turn order policy t st = TeContinue st' -> I st') ->
  attempts_loop error_code d max_bytes fuel order policy why env k st = Some r ->
  exists t st0, I st0 /\ match turn order policy t st0 with
    | TeContinue _ => False
    | TeBreak st' => r = (finish_attempts why st', st')
    | TeReturn a st' => r = (a, st')
    end.
Proof.
  intros HI Hstep. revert k st HI. induction fuel as [|fuel IH]; intros k st HI; [done|]. cbn.
  destruct (turn order policy (env k) st) as [st'|st'|a st'] eqn:E.
  - apply IH. by eapply Hstep.
  - intros [= <-]. exists (env k), st. by rewrite E.
  - intros [= <-]. exists (env k), st. by rewrite E.
Qed.

(** ** What the attempts gave decides the answer *)

(** The requests sent, in order. *)
Definition Sent : Type := Z * Role * Attempt * bool * bool.

Definition sent_of (e : Effect) : option Sent :=
  match e with EfSent api role a cut more => Some (api, role, a, cut, more) | _ => None end.

Definition trace (st : LoopState) : list Sent := omap sent_of (lp_effects st).

(** The specification: an answer is pending, with those kept so far; no attempt
    is left; or the answer is known. *)
Inductive SpecState :=
| SpGoing (kept : list (Role * (Z * list Z)))
| SpStopped (kept : list (Role * (Z * list Z)))
| SpLost
| SpAnswered (r : Reply).

(** An answer passed on as it comes, unless it declares too long a body. *)
Definition passed_on (api status : Z) (len : option Z) (body : list BodyFrame) : Reply :=
  if is_some_and (fun l => is_some_and (fun m => m <? l) (relay_max max_bytes)) len
  then RpRouter (ErrAnswerTooLarge max_bytes) else RpStreamed api status body.

(** A 400 with Unknown Block, or a 404. *)
Definition refusal (status : Z) (bytes : list Z) : bool :=
  (status =? 404) || ((status =? 400) && is_unknown_block error_code bytes).

(** What a response from [api] leads to. *)
Definition spec_response (policy : Policy) (more : bool) (api : Z) (role : Role) (status : Z)
    (len : option Z) (body : list BodyFrame) (kept : list (Role * (Z * list Z))) : SpecState :=
  let pass := SpAnswered (passed_on api status len body) in
  let by_status := if status =? 503 then SpGoing kept else pass in
  match policy with
  | PolExec => pass
  | PolInfo => if (500 <=? status) && more then SpGoing kept else by_status
  | PolState | PolBlock Reversible _ _ => by_status
  | PolBlock Irreversible claimed holders =>
      if ((status =? 400) || (status =? 404)) && is_none_or (fun l => l <=? PEEK_LIMIT) len then
        match peek PEEK_LIMIT body with
        | PkBroken => SpGoing kept
        | PkDeadline => SpStopped kept
        | PkPartial prefix rest => SpAnswered (RpStreamed api status (replay prefix rest))
        | PkWhole bytes =>
            if negb (refusal status bytes) || ((status =? 400) && bool_decide (api ∈ holders))
            then SpAnswered (RpBuffered status bytes)
            else if claimed && (status =? 400) then SpGoing kept
            else SpGoing (kept ++ [(role, (status, bytes))])
        end
      else by_status
  end.

Definition spec_step (policy : Policy) (s : SpecState) (e : Sent) : SpecState :=
  let '(api, role, a, cut, more) := e in
  match s with
  | SpGoing kept =>
      match a with
      | AtResponse status len body => spec_response policy more api role status len body kept
      | AtConnect => SpGoing kept
      | AtConnectTimeout => if cut then SpStopped kept else SpGoing kept
      | AtLost => if bool_decide (policy = PolExec) then SpLost else SpGoing kept
      | AtTimeout =>
          if bool_decide (policy = PolExec) then SpLost
          else if cut then SpStopped kept else SpGoing kept
      end
  | s => s
  end.

Definition spec_run (policy : Policy) (l : list Sent) : SpecState := foldl (spec_step policy) (SpGoing []) l.

Definition spec_reply (why : Busy) (s : SpecState) : Reply :=
  match s with
  | SpGoing kept | SpStopped kept =>
      match exhausted kept with
      | Some (status, body) => RpBuffered status body
      | None => RpRouter (ErrBusy why)
      end
  | SpLost => RpRouter (ErrBusy BusyLostAfterSend)
  | SpAnswered r => r
  end.

Lemma spec_run_snoc policy l e : spec_run policy (l ++ [e]) = spec_step policy (spec_run policy l) e.
Proof. unfold spec_run. by rewrite foldl_snoc. Qed.

(** The index an answer is taken by is that of the answer itself. *)
Lemma exhausted_imap (kept : list (Role * (Z * list Z))) :
  match exhausted (imap (fun i (rb : Role * (Z * list Z)) => (rb.1, i)) kept) with
  | Some i => exists role b, kept !! i = Some (role, b) /\ exhausted kept = Some b
  | None => exhausted kept = None
  end.
Proof.
  set (f := fun (k i : nat) (rb : Role * (Z * list Z)) => (rb.1, (k + i)%nat)).
  assert (forall k l, Forall (fun rt : Role * (Z * list Z) => rt.1 = Frozen) l ->
    Forall (fun rt : Role * nat => rt.1 = Frozen) (imap (f k) l)) as Hfz.
  { intros k l Hl. apply Forall_forall. intros x (i & y & -> & Hy%list_elem_of_lookup_2)%elem_of_lookup_imap.
    rewrite Forall_forall in Hl. cbn. by apply Hl. }
  change (fun i (rb : Role * (Z * list Z)) => (rb.1, i)) with (f 0%nat).
  destruct (kept_cases kept) as [Hall|(a & t & b & -> & Hb)].
  - rewrite (exhausted_frozen kept Hall), (exhausted_frozen _ (Hfz 0%nat _ Hall)).
    destruct kept as [|x kept _] using rev_ind; [done|]. rewrite imap_app. cbn [imap]. rewrite !last_snoc. cbn.
    exists x.1, x.2. rewrite Nat.add_0_r, list_lookup_middle by done. by destruct x.
  - rewrite imap_app. cbn [imap]. rewrite (exhausted_live a t b Hb).
    change (f 0%nat (length a + 0)%nat (Live, t)) with (Live, (0 + (length a + 0))%nat).
    rewrite exhausted_live.
    + exists Live, t. by rewrite Nat.add_0_r, list_lookup_middle.
    + rewrite (imap_ext _ (f (length a + 1)%nat)) by (intros; unfold f; cbn; f_equal; lia).
      by apply Hfz.
Qed.

Lemma finish_spec why st :
  an_reply (finish_attempts why st)
  = spec_reply why (if lp_lost st then SpLost else SpStopped (lp_kept st)).
Proof.
  unfold finish_attempts. destruct (lp_lost st); [done|]. cbn.
  pose proof (exhausted_imap (lp_kept st)) as H. destruct (exhausted (imap _ _)) as [i|].
  - destruct H as (role & [status b] & -> & ->). done.
  - by rewrite H.
Qed.

(** A turn follows the specification. *)
Definition follows (policy : Policy) (why : Busy) (e : TurnEnd) : Prop :=
  match e with
  | TeContinue st => spec_run policy (trace st) = SpGoing (lp_kept st) /\ lp_lost st = false
  | TeBreak st => spec_reply why (spec_run policy (trace st)) = an_reply (finish_attempts why st)
  | TeReturn a st => spec_run policy (trace st) = SpAnswered (an_reply a)
  end.

Lemma trace_add es st : trace (add_effects es st) = trace st ++ omap sent_of es.
Proof. unfold trace. cbn. by rewrite omap_app. Qed.

Lemma trace_mk tried kept lost races s :
  trace (mkLoop tried kept lost races (lp_effects s)) = trace s.
Proof. done. Qed.

Lemma relayed_reply sl status len body tries :
  an_reply (relayed (relay_max max_bytes) sl status len body tries) = passed_on (sl_index sl) status len body.
Proof.
  unfold relayed, passed_on, relay_max. destruct len as [l|], (0 <? max_bytes); cbn; try done.
  by destruct (max_bytes <? l).
Qed.

(** The effects a response adds hold no request sent. *)
Definition quiet (es : list Effect) : Prop := omap sent_of es = [].

Lemma quiet_failed api answer r : quiet (transport_failed error_code api answer r).
Proof. unfold transport_failed. by destruct (api_classify _ _ _) as [|[] []]. Qed.

Lemma quiet_moved api reason busy : quiet (moved_on api reason busy).
Proof. by destruct busy. Qed.

Lemma trace_quiet es st : quiet es -> trace (add_effects es st) = trace st.
Proof. intros H. by rewrite trace_add, H, app_nil_r. Qed.

(** What [api_classify] says of a body that was read. *)
Lemma classify_read status bytes :
  (status =? 503) = false ->
  api_classify error_code Irreversible (AnsResponse status (Some bytes)) =
  if (status =? 400) && is_unknown_block error_code bytes then NextUp RrUnknownBlock true
  else if status =? 404 then NextUp RrNotFound true else Final.
Proof. unfold api_classify. intros ->. by rewrite bool_decide_eq_false_2. Qed.

Lemma follows_go policy why es st :
  quiet es -> lp_lost st = false -> spec_run policy (trace st) = SpGoing (lp_kept st) ->
  follows policy why (TeContinue (add_effects es st)).
Proof. intros Hq Hl Hr. cbn [follows]. by rewrite trace_quiet. Qed.

Lemma follows_return policy why es a st :
  quiet es -> spec_run policy (trace st) = SpAnswered (an_reply a) ->
  follows policy why (TeReturn a (add_effects es st)).
Proof. intros Hq Hr. cbn [follows]. by rewrite trace_quiet. Qed.

(** A response that is classified by its status alone. *)
Lemma unpeeked_spec policy why region sl status len body st :
  lp_lost st = false ->
  spec_run policy (trace st) = (if status =? 503 then SpGoing (lp_kept st)
    else SpAnswered (passed_on (sl_index sl) status len body)) ->
  follows policy why
    (match api_classify error_code region (AnsResponse status None) with
     | Final => TeReturn (relayed (relay_max max_bytes) sl status len body (length (lp_tried st)))
         (add_effects [EfResult (sl_index sl) (result_of status None)] st)
     | NextUp reason _ => TeContinue (add_effects (EfResult (sl_index sl) (result_of status (Some reason))
         :: moved_on (sl_index sl) reason (marks_busy reason)) st)
     end).
Proof.
  intros Hl Hs. assert (api_classify error_code region (AnsResponse status None)
    = if status =? 503 then NextUp RrBusy false else Final) as ->.
  { cbn. destruct (status =? 503); [done|]. by destruct (bool_decide _). }
  destruct (status =? 503); [by apply follows_go|].
  apply follows_return; [done|]. by rewrite relayed_reply.
Qed.

(** A 400 or 404 on an irreversible block, read whole. *)
Lemma peeked_spec policy why claimed (holders : list Z) sl status bytes st :
  (status =? 400) || (status =? 404) = true -> lp_lost st = false ->
  spec_run policy (trace st) =
    (if negb (refusal status bytes) || ((status =? 400) && bool_decide (sl_index sl ∈ holders))
     then SpAnswered (RpBuffered status bytes)
     else if claimed && (status =? 400) then SpGoing (lp_kept st)
     else SpGoing (lp_kept st ++ [(sl_role sl, (status, bytes))])) ->
  follows policy why
    (match api_classify error_code Irreversible (AnsResponse status (Some bytes)) with
     | Final => TeReturn (answered (RpBuffered status bytes) sl (length (lp_tried st)))
         (add_effects [EfResult (sl_index sl) (result_of status None)] st)
     | NextUp reason keep =>
         let st := add_effects [EfResult (sl_index sl) (result_of status (Some reason))] st in
         if settles reason (bool_decide (sl_index sl ∈ holders)) then
           TeReturn (answered (RpBuffered status bytes) sl (length (lp_tried st))) st
         else
           let st := add_effects (moved_on (sl_index sl) reason false) st in
           TeContinue
             (if keep && keeps reason claimed
              then mkLoop (lp_tried st) (lp_kept st ++ [(sl_role sl, (status, bytes))]) (lp_lost st)
                     (lp_races st) (lp_effects st)
              else st)
     end).
Proof.
  intros Hst Hl Hs. rewrite classify_read.
  2:{ apply orb_true_iff in Hst as [Hst|Hst]; bools; subst; done. }
  unfold refusal in Hs. unfold settles, keeps.
  destruct (status =? 400) eqn:E4; cbn [orb andb] in *.
  - assert (status =? 404 = false) as E by (bools; subst; done). rewrite E in Hs |- *. cbn [orb] in Hs.
    destruct (is_unknown_block error_code bytes); cbn [negb orb andb] in Hs |- *;
      [|by apply follows_return].
    rewrite (bool_decide_eq_true_2 (RrUnknownBlock = RrUnknownBlock)) by done. rewrite !andb_true_r.
    destruct (bool_decide (sl_index sl ∈ holders)); [by apply follows_return|].
    destruct claimed; cbn [negb andb] in *.
    + cbn [follows]. by rewrite !trace_quiet.
    + cbn [follows]. unfold trace in *. cbn. by rewrite !omap_app, !app_nil_r.
  - rewrite Hst in Hs |- *. cbn [orb negb] in Hs.
    rewrite (bool_decide_eq_false_2 (RrNotFound = RrUnknownBlock)) by done.
    rewrite !andb_false_r in *. cbn [negb] in *. cbn [follows]. unfold trace in *. cbn.
    by rewrite !omap_app, !app_nil_r.
Qed.

(** The response branch follows the specification. *)
Lemma on_response_spec order policy why sl status len body st :
  lp_lost st = false -> spec_run policy (trace st) =
    spec_response policy (has_more order st) (sl_index sl) (sl_role sl) status len body (lp_kept st) ->
  follows policy why (on_response error_code max_bytes order policy sl status len body st).
Proof.
  intros Hlost Hrun. unfold on_response.
  destruct policy as [region claimed holders| | |]; cbn [policy_block spec_response] in *.
  - rewrite !bool_decide_eq_false_2 by done. cbn [andb].
    unfold needs_peek. destruct region; [|by apply unpeeked_spec].
    rewrite bool_decide_eq_true_2 by done. cbn [andb].
    destruct (((status =? 400) || (status =? 404)) && _) eqn:E; [|by apply unpeeked_spec].
    apply andb_true_iff in E as [E _]. cbn [negb].
    destruct (peek PEEK_LIMIT body) as [bytes|prefix rest| |].
    + by apply peeked_spec.
    + by apply follows_return.
    + apply follows_go; [apply quiet_failed|done..].
    + cbn [follows]. rewrite trace_quiet by done. rewrite Hrun, finish_spec. cbn. by rewrite Hlost.
  - rewrite !bool_decide_eq_false_2 by done. by apply unpeeked_spec.
  - rewrite bool_decide_eq_true_2, bool_decide_eq_false_2 by done. cbn [andb].
    destruct ((500 <=? status) && has_more order st) eqn:E; [|by apply unpeeked_spec].
    destruct (status =? 503); by apply follows_go.
  - rewrite bool_decide_eq_false_2, bool_decide_eq_true_2 by done. cbn [andb].
    apply follows_return; [done|]. by rewrite relayed_reply.
Qed.

Definition going (policy : Policy) (st : LoopState) : Prop :=
  spec_run policy (trace st) = SpGoing (lp_kept st) /\ lp_lost st = false.

Lemma on_slot_spec order policy why t sl st :
  going policy st -> follows policy why (on_slot error_code max_bytes order policy t sl st).
Proof.
  intros [Hrun Hlost]. unfold on_slot.
  destruct (t_request_ok t); [|done]. cbn [negb]. cbv zeta.
  set (st1 := mkLoop _ _ _ _ _). set (st2 := add_effects _ st1).
  assert (spec_run policy (trace st2) = spec_step policy (SpGoing (lp_kept st2))
    (sl_index sl, sl_role sl, t_attempt t, t_cut_short t, has_more order st2)) as Hs.
  { subst st2. rewrite trace_add. cbn [omap list_omap sent_of]. rewrite spec_run_snoc.
    change (trace st1) with (trace st). by rewrite Hrun. }
  assert (lp_lost st2 = false) as Hl2 by done. clearbody st2. clear st1 Hrun.
  destruct (t_attempt t) as [status len body| | | |]; cbn [spec_step] in Hs.
  - by apply on_response_spec.
  - apply follows_go; [apply quiet_failed|done..].
  - destruct (t_cut_short t); [|apply follows_go; [apply quiet_failed|done..]].
    cbn [follows]. rewrite trace_quiet, Hs, finish_spec by done. cbn. by rewrite Hl2.
  - destruct (bool_decide (policy = PolExec)); [|apply follows_go; [apply quiet_failed|done..]].
    cbn [follows]. by rewrite finish_spec, trace_mk, trace_quiet, Hs.
  - destruct (bool_decide (policy = PolExec)).
    + cbn [follows]. by rewrite finish_spec, trace_mk, trace_quiet, Hs.
    + destruct (t_cut_short t); [|apply follows_go; [apply quiet_failed|done..]].
      cbn [follows]. rewrite trace_quiet, Hs, finish_spec by done. cbn. by rewrite Hl2.
Qed.

Lemma turn_spec order policy why t st :
  going policy st -> follows policy why (turn order policy t st).
Proof.
  intros Hg. assert (follows policy why (TeBreak st)) as Hbreak.
  { cbn [follows]. destruct Hg as [-> Hl]. by rewrite finish_spec, Hl. }
  unfold attempt_turn. destruct (t_past_deadline t); [done|].
  destruct (next_attempt _ _ _) as [i|i|]; [| |done].
  - destruct (slot_of d i) as [sl|]; [|done]. destruct (t_slot_taken t); [by apply on_slot_spec|].
    by destruct (_ <? _)%nat.
  - destruct (slot_of d i) as [sl|]; [|done]. destruct (t_slot_taken t); [by apply on_slot_spec|done].
Qed.

(** The answer of the loop is the one the specification gives to its trace. *)
Lemma attempts_spec order policy why env a st :
  attempts error_code d max_bytes order policy why env = Some (a, st) ->
  an_reply a = spec_reply why (spec_run policy (trace st)).
Proof.
  unfold attempts. intros H. apply (attempts_loop_inv (going policy)) in H as (t & st0 & Hg & H); [|done|].
  - pose proof (turn_spec order policy why t st0 Hg) as Hf.
    destruct (turn order policy t st0) as [|st'|a' st']; [done|..]; injection H as -> ->; cbn in Hf; by rewrite Hf.
  - intros t st0 st' Hg E. pose proof (turn_spec order policy why t st0 Hg) as Hf. by rewrite E in Hf.
Qed.

(** *** Each API once *)

Definition sent_apis (st : LoopState) : list Z := map (fun s : Sent => s.1.1.1.1) (trace st).

Definition once (order : list Z) (st : LoopState) : Prop :=
  NoDup (lp_tried st) /\ (forall i, i ∈ lp_tried st -> i ∈ order)
  /\ sublist (sent_apis st) (lp_tried st).

Lemma quiet_result api r es : quiet es -> quiet (EfResult api r :: es).
Proof. done. Qed.

Lemma on_response_trace order policy sl status len body st :
  trace (te_state (on_response error_code max_bytes order policy sl status len body st)) = trace st.
Proof.
  unfold on_response. destruct (policy_block policy) as [[region claimed] holders].
  turn_cases; cbn [te_state];
    repeat (rewrite trace_mk || (rewrite trace_quiet by
      (first [apply quiet_failed|apply quiet_moved|apply quiet_result, quiet_moved|done]))); done.
Qed.

(** A turn with a slot sends one request, to that slot, or none. *)
Lemma on_slot_trace order policy t sl st :
  exists x, trace (te_state (on_slot error_code max_bytes order policy t sl st)) = trace st ++ x
    /\ (x = [] \/ exists a c m, x = [(sl_index sl, sl_role sl, a, c, m)]).
Proof.
  unfold on_slot. destruct (t_request_ok t); [|exists []; rewrite app_nil_r; by split; [|left]].
  cbn [negb]. cbv zeta. set (st1 := mkLoop _ _ _ _ _). set (st2 := add_effects _ st1).
  exists [(sl_index sl, sl_role sl, t_attempt t, t_cut_short t, has_more order st1)].
  assert (trace st2 = trace st ++ [(sl_index sl, sl_role sl, t_attempt t, t_cut_short t, has_more order st1)]) as Ht.
  { subst st2. rewrite trace_add. done. }
  split; [|right; by do 3 eexists]. clearbody st2. rewrite <-Ht. clear Ht.
  destruct (t_attempt t); [apply on_response_trace|..]; turn_cases; cbn [te_state];
    rewrite ?trace_mk, ?trace_quiet by (first [apply quiet_failed|done]); done.
Qed.

Lemma on_slot_once order policy t sl st :
  once order st -> sl_index sl ∈ order -> sl_index sl ∉ lp_tried st ->
  once order (te_state (on_slot error_code max_bytes order policy t sl st)).
Proof.
  intros (H1 & H2 & H3) Hi Hn.
  destruct (on_slot_tried order policy t sl st) as [Ht _].
  destruct (on_slot_trace order policy t sl st) as (x & Hx & Hcases).
  unfold once, sent_apis in *. rewrite Ht, Hx, map_app. split_and!.
  - apply NoDup_app. split_and!; [done| |apply NoDup_singleton]. set_solver.
  - set_solver.
  - destruct Hcases as [->|(a & c & m & ->)]; cbn; [|by apply sublist_app].
    rewrite app_nil_r. etransitivity; [exact H3|]. by apply sublist_inserts_r.
Qed.

Lemma turn_once order policy t st :
  dir_ok -> once order st -> once order (te_state (turn order policy t st)).
Proof.
  intros Hd Ho. unfold attempt_turn. destruct (t_past_deadline t); [done|].
  pose proof (next_attempt_exact order (lp_tried st) (full_now d t)) as Hnext.
  destruct (next_attempt _ _ _) as [i|i|]; [| |done].
  - destruct Hnext as (Hi & Hn & Hf). destruct (slot_of d i) as [sl|] eqn:Es.
    2:{ unfold full_now in Hf. by rewrite Es in Hf. }
    destruct (t_slot_taken t); [|by destruct (_ <? _)%nat].
    apply on_slot_once; rewrite ?(Hd i sl Es); done.
  - destruct Hnext as (Hi & Hn & _). destruct (slot_of d i) as [sl|] eqn:Es; [|done].
    destruct (t_slot_taken t); [|done]. apply on_slot_once; rewrite ?(Hd i sl Es); done.
Qed.

Lemma attempts_once order policy why env a st :
  dir_ok -> attempts error_code d max_bytes order policy why env = Some (a, st) -> once order st.
Proof.
  intros Hd H. apply (attempts_loop_inv (once order)) in H as (t & st0 & Ho & H).
  - pose proof (turn_once order policy t st0 Hd Ho) as Hf.
    by destruct (turn order policy t st0); [done|..]; injection H as -> ->.
  - split_and!; [constructor|by intros i ?%elem_of_nil|done].
  - intros t st0 st' Ho E. pose proof (turn_once order policy t st0 Hd Ho) as Hf. by rewrite E in Hf.
Qed.

(** *** Nothing is sent after a final answer *)

Lemma spec_stuck policy s l :
  (forall kept, s <> SpGoing kept) -> foldl (spec_step policy) s l = s.
Proof.
  intros Hs. assert (forall e, spec_step policy s e = s) as Hstep.
  { intros [[[[api role] a] cut] more]. by destruct s; [exfalso; eapply Hs|..]. }
  induction l as [|x l IH]; [done|]. cbn. by rewrite Hstep.
Qed.

Lemma spec_prefix_going policy l k kept :
  spec_run policy (l ++ k) = SpGoing kept -> exists kept', spec_run policy l = SpGoing kept'.
Proof.
  unfold spec_run. rewrite foldl_app. intros H.
  destruct (foldl (spec_step policy) (SpGoing []) l) as [kept'| | |] eqn:E; [eauto|..];
    rewrite spec_stuck in H by done; done.
Qed.

(** What a turn sends goes to a slot of the directory. *)
Lemma turn_trace order policy t st :
  exists x, trace (te_state (turn order policy t st)) = trace st ++ x
    /\ (x = [] \/ exists i sl a c m, slot_of d i = Some sl /\ x = [(sl_index sl, sl_role sl, a, c, m)]).
Proof.
  assert (forall st', trace st' = trace st -> exists x, trace st' = trace st ++ x
    /\ (x = [] \/ exists i sl a c m, slot_of d i = Some sl /\ x = [(sl_index sl, sl_role sl, a, c, m)])) as H0.
  { intros st' ->. exists []. rewrite app_nil_r. by split; [|left]. }
  assert (forall i sl, slot_of d i = Some sl ->
    exists x, trace (te_state (on_slot error_code max_bytes order policy t sl st)) = trace st ++ x
    /\ (x = [] \/ exists i sl a c m, slot_of d i = Some sl /\ x = [(sl_index sl, sl_role sl, a, c, m)])) as H1.
  { intros i sl Hs. destruct (on_slot_trace order policy t sl st) as (x & Hx & [->|(a & c & m & ->)]);
      eexists; (split; [exact Hx|]); [by left|right; by exists i, sl, a, c, m]. }
  unfold attempt_turn. destruct (t_past_deadline t); [by apply H0|].
  destruct (next_attempt _ _ _) as [i|i|]; [| |by apply H0].
  - destruct (slot_of d i) eqn:Es; [|by apply H0]. destruct (t_slot_taken t); [by eapply H1|].
    destruct (_ <? _)%nat; by apply H0.
  - destruct (slot_of d i) eqn:Es; [|by apply H0]. destruct (t_slot_taken t); [by eapply H1|by apply H0].
Qed.

Lemma attempts_moved_on order policy why env a st before e after :
  attempts error_code d max_bytes order policy why env = Some (a, st) ->
  trace st = before ++ e :: after -> exists kept, spec_run policy before = SpGoing kept.
Proof.
  intros H Htr. unfold attempts in H.
  apply (attempts_loop_inv (going policy)) in H as (t & st0 & [Hg _] & H); [|done|].
  2:{ intros t st0 st' Hg E. pose proof (turn_spec order policy why t st0 Hg) as Hf. by rewrite E in Hf. }
  destruct (turn_trace order policy t st0) as (x & Hx & Hcases).
  assert (trace st = trace st0 ++ x) as E.
  { rewrite <-Hx. destruct (turn order policy t st0); [done|..]; by injection H as -> ->. }
  rewrite E in Htr. destruct Hcases as [->|(i & sl & a' & c & m & _ & ->)].
  - rewrite app_nil_r in Htr. rewrite Htr in Hg. by eapply spec_prefix_going.
  - destruct after as [|z after _] using rev_ind.
    + apply app_inj_tail in Htr as [<- _]. eauto.
    + rewrite app_comm_cons, app_assoc in Htr. apply app_inj_tail in Htr as [Htr _].
      rewrite Htr in Hg. by eapply spec_prefix_going.
Qed.

(** Each request goes to a slot of the directory, under the slot's role. *)
Definition sent_to_slot (e : Sent) : Prop :=
  exists i sl, slot_of d i = Some sl /\ e.1.1.1.1 = sl_index sl /\ e.1.1.1.2 = sl_role sl.

Lemma attempts_slots order policy why env a st :
  attempts error_code d max_bytes order policy why env = Some (a, st) -> Forall sent_to_slot (trace st).
Proof.
  assert (forall t st0, Forall sent_to_slot (trace st0) ->
    Forall sent_to_slot (trace (te_state (turn order policy t st0)))) as Hturn.
  { intros t st0 H0. destruct (turn_trace order policy t st0) as (x & -> & Hx). apply Forall_app. split; [done|].
    destruct Hx as [->|(i & sl & a' & c & m & Hs & ->)]; [constructor|]. constructor; [|constructor]. by exists i, sl. }
  intros H. apply (attempts_loop_inv (fun s => Forall sent_to_slot (trace s))) in H as (t & st0 & H0 & H); [|constructor|].
  - specialize (Hturn t st0 H0). by destruct (turn order policy t st0); [done|..]; injection H as -> ->.
  - intros t st0 st' H0 E. specialize (Hturn t st0 H0). by rewrite E in Hturn.
Qed.

(** *** Unknown blocks *)

Definition unknown_kept (rb : Role * (Z * list Z)) : Prop :=
  rb.2.1 = 400 /\ is_unknown_block error_code rb.2.2 = true.

(** A request whose answer settles the id of a block. *)
Definition id_settled (holders : list Z) (bytes : list Z) (e : Sent) : Prop :=
  exists api role len body cut more, e = (api, role, AtResponse 400 len body, cut, more)
    /\ api ∈ holders /\ peek PEEK_LIMIT body = PkWhole bytes.

Lemma spec_claimed holders l :
  match spec_run (PolBlock Irreversible true holders) l with
  | SpGoing kept | SpStopped kept => Forall (fun rb => ~ unknown_kept rb) kept
  | SpAnswered (RpBuffered status bytes) =>
      status = 400 -> is_unknown_block error_code bytes = true -> exists e, e ∈ l /\ id_settled holders bytes e
  | _ => True
  end.
Proof.
  induction l as [|e l IH] using rev_ind; [constructor|]. rewrite spec_run_snoc.
  assert (forall r, match r with RpBuffered status bytes =>
      status = 400 -> is_unknown_block error_code bytes = true -> exists e, e ∈ l /\ id_settled holders bytes e
      | _ => True end -> match r with RpBuffered status bytes =>
      status = 400 -> is_unknown_block error_code bytes = true ->
      exists e', e' ∈ l ++ [e] /\ id_settled holders bytes e' | _ => True end) as Hmono.
  { intros []; try done. intros Hr Hs Hu. destruct (Hr Hs Hu) as (e' & ? & ?). exists e'. set_solver. }
  destruct e as [[[[api role] a] cut] more].
  destruct (spec_run _ l) as [kept|kept| |r]; [|done|done|apply Hmono, IH]. clear Hmono.
  destruct a as [status len body| | | |]; cbn [spec_step]; try done; try (by destruct cut).
  cbn [spec_response]. destruct (_ && is_none_or _ _) eqn:E.
  2:{ destruct (status =? 503); [done|]. unfold passed_on. by destruct (is_some_and _ _). }
  destruct (peek PEEK_LIMIT body) as [bytes| | |] eqn:Ep; [|done..].
  destruct (negb _ || _) eqn:Er.
  - intros -> Hu. eexists. split; [apply elem_of_app; right; by left|].
    unfold refusal in Er. rewrite Hu in Er. cbn in Er. bools. unfold id_settled. eauto 10.
  - apply orb_false_iff in Er as [Er _]. bools. destruct (status =? 400) eqn:E4; cbn [andb]; [done|].
    apply Forall_app. split; [done|]. constructor; [|constructor].
    intros [H4 _]. cbn in H4. subst. done.
Qed.

End loop.

(** ** Theorems of the attempt loop *)

Lemma slot_of_inv ups cap hist first i sl :
  slot_of (dir_after ups cap hist first) i = Some sl ->
  exists u, u ∈ ups /\ au_index u = i /\ sl = slot_after cap hist u.
Proof.
  unfold slot_of. rewrite dir_after_slots. cbn [dir_after d_by_index new_directory].
  rewrite (imap_ext pair (fun j s => (0 + j, s)%nat)) by done. rewrite (by_index_fold _ 0).
  destruct (rposition _ _) as [k|] eqn:E; [|done]. cbn.
  apply rposition_some in E as (s & Hs & Hi). bools. rewrite list_lookup_fmap in Hs |- *.
  destruct (ups !! k) as [u|] eqn:Hk; [|done]. injection Hs as <-. intros [= <-].
  exists u. split_and!; [by eapply list_elem_of_lookup_2|done|done].
Qed.

Lemma dir_after_ok ups cap hist first : dir_ok (dir_after ups cap hist first).
Proof.
  intros i sl (u & _ & <- & ->)%slot_of_inv.
  pose proof (slot_after_static cap hist u) as H. injection H as -> _. done.
Qed.

Lemma attempts_terminates error_code d max_bytes order policy why env :
  dir_ok d -> exists a st, attempts error_code d max_bytes order policy why env = Some (a, st).
Proof.
  intros Hd.
  destruct (attempts_loop_total error_code d max_bytes (attempts_fuel order) order policy why env 0 new_loop)
    as [[a st] H]; [done| |by exists a, st].
  unfold loop_measure, attempts_fuel, untried. cbn [new_loop lp_tried lp_races].
  pose proof (filter_length (fun i => negb (bool_decide (i ∈ ([] : list Z)))) order). lia.
Qed.

(** A request ends: whatever slots, deadlines and upstreams do, the loop
    returns within one turn per API of the order, one per race it may lose and
    one more; it tries each API of the order at most once, so it sends no more
    requests than the order is long. *)
Theorem attempts_total error_code ups cap hist first max_bytes order policy why env :
  let d := dir_after ups cap hist first in
  exists a st, attempts error_code d max_bytes order policy why env = Some (a, st)
    /\ NoDup (sent_apis st) /\ (forall i, i ∈ sent_apis st -> i ∈ order)
    /\ (length (sent_apis st) <= length order)%nat.
Proof.
  intros d. pose proof (dir_after_ok ups cap hist first) as Hd. fold d in Hd.
  destruct (attempts_terminates error_code d max_bytes order policy why env Hd) as (a & st & H).
  exists a, st. split; [done|].
  destruct (attempts_once error_code d max_bytes order policy why env a st Hd H) as (H1 & H2 & H3).
  assert (forall i, i ∈ sent_apis st -> i ∈ order) as Hsub.
  { intros i Hi. apply H2. by eapply elem_of_submseteq, sublist_submseteq. }
  split_and!; [by eapply sublist_NoDup|done|].
  apply submseteq_length, NoDup_submseteq; [by eapply sublist_NoDup|done].
Qed.

(** C20: The loop implements its specification: the answer is the one computed
    from what the attempts gave, in order, by the table of the endpoint class
    (pass on, keep, move on, stop), and the last answer kept of a live API, else
    the last kept, else Busy, when they give none. Slots taken or lost, races,
    queueing and counters never change the answer, and nothing is sent after
    the attempt that decides it. *)
Theorem attempts_refine error_code d max_bytes order policy why env a st :
  attempts error_code d max_bytes order policy why env = Some (a, st) ->
  an_reply a = spec_reply why (spec_run error_code max_bytes policy (trace st))
  /\ forall before e after, trace st = before ++ e :: after ->
       exists kept, spec_run error_code max_bytes policy before = SpGoing kept.
Proof.
  intros H. split; [by eapply attempts_spec|]. intros before e after. by eapply attempts_moved_on.
Qed.

(** For a block an archive claims, the client never gets an Unknown Block
    that was read and classified, unless an archive that holds the block and is
    asked for an id gave it; it gets Busy and retries instead. *)
Theorem claimed_never_unknown error_code d max_bytes order holders why env a st bytes :
  attempts error_code d max_bytes order (PolBlock Irreversible true holders) why env = Some (a, st) ->
  an_reply a = RpBuffered 400 bytes -> is_unknown_block error_code bytes = true ->
  exists e, e ∈ trace st /\ id_settled holders bytes e.
Proof.
  intros H Hr Hu. apply attempts_spec in H. rewrite Hr in H.
  pose proof (spec_claimed error_code max_bytes holders (trace st)) as Hc.
  destruct (spec_run _ _ _ _) as [kept|kept| |r]; cbn in H; [| |done|subst r; by apply Hc].
  all: destruct (exhausted kept) as [[status body]|] eqn:E; [|done]; injection H as <- <-; exfalso.
  all: apply exhausted_elem in E as [role Hin]; rewrite Forall_forall in Hc;
    apply (Hc _ Hin); by split.
Qed.

(** *** Written once *)

(** Nothing of the request was written. *)
Definition unwritten (a : Attempt) : bool :=
  match a with AtConnect | AtConnectTimeout => true | _ => false end.

Definition sent_attempt (e : Sent) : Attempt := e.1.1.2.

Lemma spec_exec_unwritten error_code max_bytes l kept :
  spec_run error_code max_bytes PolExec l = SpGoing kept -> Forall (fun e => unwritten (sent_attempt e) = true) l.
Proof.
  revert kept. induction l as [|e l IH] using rev_ind; intros kept; [by constructor|].
  rewrite spec_run_snoc. destruct (spec_run _ _ _ l) as [k| | |]; cbn [spec_step]; [|by destruct e as [[[[api role] a] cut] more]..]. intros He.
  apply Forall_app. split; [by eapply IH|]. constructor; [|constructor].
  destruct e as [[[[api role] a] cut] more]. destruct a; try done; exfalso; cbn [spec_step] in He;
    by rewrite ?bool_decide_eq_true_2 in He.
Qed.

(** What the client of a push is told, from the requests sent. *)
Definition push_reply (l : list Sent) : Reply :=
  match last l with
  | None => RpRouter (ErrBusy BusyNoLiveUpstream)
  | Some (api, _, AtResponse status _ body, _, _) => RpStreamed api status body
  | Some (_, _, (AtLost | AtTimeout), _, _) => RpRouter (ErrBusy BusyLostAfterSend)
  | Some (_, _, (AtConnect | AtConnectTimeout), _, _) => RpRouter (ErrBusy BusyNoUpstream)
  end.

Definition push_of (e : Effect) : option PushResult :=
  match e with EfPush r => Some r | _ => None end.

Definition push_outcome (l : list Sent) : PushResult :=
  match last l with
  | Some (_, _, AtResponse status _ _, _, _) => if (200 <=? status) && (status <? 300) then PuOk else PuError
  | Some (_, _, (AtLost | AtTimeout), _, _) => PuAmbiguous
  | _ => PuError
  end.

Definition all_unwritten (l : list Sent) : Prop := Forall (fun e => unwritten (sent_attempt e) = true) l.

(** The state of the loop over the targets. *)
Definition push_inv (tries : nat) (es : list Effect) : Prop :=
  all_unwritten (omap sent_of es) /\ omap push_of es = [] /\ length (omap sent_of es) = tries.

Definition push_ends (es : list Effect) (r : Answered * list Effect) : Prop :=
  an_reply r.1 = push_reply (omap sent_of r.2) /\ omap push_of r.2 = [push_outcome (omap sent_of r.2)]
  /\ (exists tail, omap sent_of r.2 = omap sent_of es ++ tail
        /\ forall before e after, tail = before ++ e :: after -> all_unwritten before).

Lemma push_transport error_code api role a cut more answer r :
  omap push_of (EfSent api role a cut more :: transport_failed error_code api answer r) = [].
Proof. unfold transport_failed. by destruct (api_classify _ _ _) as [|[] []]. Qed.

Lemma unwritten_snoc l e : all_unwritten (l ++ [e]) -> unwritten (sent_attempt e) = true.
Proof. intros [_ H]%Forall_app. by inversion H. Qed.

Lemma sent_transport error_code api role a cut more ans r :
  omap sent_of (EfSent api role a cut more :: transport_failed error_code api ans r)
  = [(api, role, a, cut, more)].
Proof. apply (f_equal (cons _)), quiet_failed. Qed.

Lemma end_push_ends tries es : push_inv tries es -> push_ends es (end_push tries es).
Proof.
  intros (Hu & Hp & Hl). unfold push_ends, end_push. cbn [fst snd].
  rewrite !omap_app, Hp. cbn. rewrite app_nil_r. split_and!.
  - unfold push_reply. destruct (omap sent_of es) as [|x l _] using rev_ind; [by rewrite <-Hl|].
    rewrite last_snoc. rewrite length_app in Hl. cbn in Hl.
    destruct tries as [|tries]; [lia|].
    apply unwritten_snoc in Hu.
    destruct x as [[[[api role] a] cut] more]. by destruct a.
  - unfold push_outcome. destruct (last (omap sent_of es)) as [x|] eqn:E; [|done].
    apply last_Some in E as [l' E]. rewrite E in Hu. apply unwritten_snoc in Hu.
    destruct x as [[[[api role] a] cut] more]. by destruct a.
  - exists []. rewrite app_nil_r. split; [done|]. intros before e after Hn. by destruct before.
Qed.

(** The end of a push whose request was written. *)
Lemma written_ends tries es a e rest :
  push_inv tries es -> omap sent_of rest = [e] -> omap push_of rest = [push_outcome [e]] ->
  an_reply a = push_reply [e] -> push_ends es (a, es ++ rest).
Proof.
  intros (Hu & Hp & Hl) Hs Hr Ha. unfold push_ends. cbn [fst snd]. rewrite !omap_app, Hs, Hp, Hr.
  unfold push_reply, push_outcome in *. rewrite !last_snoc. split_and!; [done..|].
  exists [e]. split; [done|]. intros before e' after Hn. destruct before as [|? []]; [constructor|done..].
Qed.

(** A target whose request was not written. *)
Lemma unwritten_next tries es e rest r :
  push_inv tries es -> omap sent_of rest = [e] -> omap push_of rest = [] ->
  unwritten (sent_attempt e) = true -> (push_inv (S tries) (es ++ rest) -> push_ends (es ++ rest) r) ->
  push_ends es r.
Proof.
  intros (Hu & Hp & Hl) Hs Hr Ha Hrec.
  destruct Hrec as (H1 & H2 & tail & Ht & Hb).
  - unfold push_inv. rewrite !omap_app, Hs, Hp, Hr. split_and!; [|done|rewrite length_app; cbn; lia].
    apply Forall_app. split; [done|]. by constructor.
  - split_and!; [done..|]. exists (e :: tail). split.
    { rewrite Ht, omap_app, Hs. by rewrite <-app_assoc. }
    intros before e' after Hn. destruct before as [|x before]; [constructor|].
    injection Hn as -> Hn. constructor; [done|]. by eapply Hb.
Qed.

Lemma push_loop_ends error_code d targets env tries es :
  push_inv tries es -> push_ends es (push_loop error_code d targets env tries es).
Proof.
  revert tries es. induction targets as [|i targets IH]; intros tries es Hi; [by apply end_push_ends|].
  cbn [push_loop]. cbv zeta. destruct (p_past_deadline (env i)); [by apply end_push_ends|].
  destruct (slot_of d i) as [sl|]; [|by apply IH].
  destruct (p_slot_taken (env i)); [|by apply IH]. destruct (p_request_ok (env i)); [|by apply IH].
  cbn [negb]. set (e := EfSent _ _ _ _ _). set (x := (sl_index sl, sl_role sl, p_attempt (env i), p_cut_short (env i),
    match targets with [] => false | _ => true end) : Sent).
  destruct (p_attempt (env i)) as [status len body| | | |] eqn:Ea; rewrite <-?app_assoc.
  - apply (written_ends tries es _ x); try done. cbn. unfold relayed. by destruct len.
  - apply (unwritten_next tries es x (e :: transport_failed error_code (sl_index sl) AnsConnect UrConnect));
      [done|by apply sent_transport|apply push_transport|done|apply IH].
  - destruct (p_cut_short (env i)).
    + apply (unwritten_next tries es x [e; EfResult (sl_index sl) UrTimeout]); [done..|].
      apply end_push_ends.
    + apply (unwritten_next tries es x (e :: transport_failed error_code (sl_index sl) AnsTimeout UrTimeout));
        [done|by apply sent_transport|apply push_transport|done|apply IH].
  - by apply (written_ends tries es _ x).
  - by apply (written_ends tries es _ x).
Qed.

(** C23: A call that may execute is written at most once. Of the requests a
    [compute_transaction] or a [send_read_only_transaction] sends, and of those a
    push sends, each but the last failed before anything was written. A push
    answered is relayed whole from the API that took it, one lost after it was
    written is told as such and never resent, and every push is counted once,
    as what became of it. *)
Theorem written_once error_code ups cap hist first max_bytes order why env targets penv :
  let d := dir_after ups cap hist first in
  (exists a st, attempts error_code d max_bytes order PolExec why env = Some (a, st)
    /\ forall before e after, trace st = before ++ e :: after -> all_unwritten before)
  /\ let '(a, es) := push_loop error_code d targets penv 0 [] in
     an_reply a = push_reply (omap sent_of es) /\ omap push_of es = [push_outcome (omap sent_of es)]
     /\ forall before e after, omap sent_of es = before ++ e :: after -> all_unwritten before.
Proof.
  intros d. split.
  - destruct (attempts_terminates error_code d max_bytes order PolExec why env) as (a & st & H);
      [apply dir_after_ok|].
    exists a, st. split; [done|]. intros before e after Ht.
    eapply attempts_moved_on in H as [kept H]; [|exact Ht]. by eapply spec_exec_unwritten.
  - pose proof (push_loop_ends error_code d targets penv 0 []) as H.
    destruct (push_loop _ _ _ _ _ _) as [a es]. destruct H as (H1 & H2 & tail & H3 & H4); [by split_and!; constructor|].
    cbn in H1, H2, H3. subst tail. done.
Qed.

(** ** Witnesses *)

Definition demo_code (_ : list Z) : option Z := Some UNKNOWN_BLOCK_CODE.
Definition demo_dir : ApiDirectory := dir_after [demo_up] 4 demo_hist None.
Definition demo_turn (_ : nat) : Turn :=
  mkTurn false (fun _ => false) true true false (AtResponse 400 None [FrData [123; 125]]).
Definition demo_policy (holders : list Z) : Policy := PolBlock Irreversible true holders.
Definition demo_attempts (holders : list Z) : Answered * LoopState :=
  default (router_answer ErrNotFound 0, new_loop)
    (attempts demo_code demo_dir 0 [au_index demo_up] (demo_policy holders) BusyNoUpstream demo_turn).

Lemma attempts_refine_witness :
  an_reply (demo_attempts []).1
  = spec_reply BusyNoUpstream (spec_run demo_code 0 (demo_policy []) (trace (demo_attempts []).2)).
Proof.
  apply (attempts_refine demo_code demo_dir 0 [au_index demo_up] (demo_policy []) BusyNoUpstream demo_turn).
  vm_compute. reflexivity.
Defined.

Lemma claimed_never_unknown_witness :
  let holders := [au_index demo_up] in
  exists e, e ∈ trace (demo_attempts holders).2 /\ id_settled holders [123; 125] e.
Proof.
  apply (claimed_never_unknown demo_code demo_dir 0 [au_index demo_up] [au_index demo_up] BusyNoUpstream
    demo_turn (demo_attempts [au_index demo_up]).1); vm_compute; reflexivity.
Defined.
