(* ===== verification/Abi.v ===== *)
(** * The ABI of an upstream

    Models [src/src/abi.rs]: the fingerprint of an ABI text, the check of its
    variants against Spring's, and the check an upstream handshake makes.
    ([fnv1a64] is in Planner.v.)

    A parsed text is a [JsonValue]; an object is the list of its members in
    whatever order its map yields them, keys distinct.  The JSON reader and its
    writer for scalars and keys, and the ABI parser of the handshake, are
    third-party code: the class [AbiEnv].

    The theorems: equal values give equal fingerprints, where values are equal up
    to the order of members at every level, so neither key order nor white space
    counts; a compatible ABI lists a prefix of Spring's variants, so the indices
    the codec writes and reads are the upstream's. *)

From S2P Require Import Prelude Wire Models View Planner ApiRoute.

Class AbiEnv := {
  Number : Type;
  write_number : Number -> list Z;
  write_string : string -> list Z;
}.

(** ** The handshake *)

Definition has_nul (s : string) : bool := negb (all_chars (fun c => negb (code c =? 0)) s).

(** [true]: the text is accepted; [abi_from_json] is the parser's answer. *)
Definition accept_upstream_abi (abi_from_json : string -> bool) (abi_json : string) : bool :=
  if has_nul abi_json then false else abi_from_json abi_json.

Section abi.
Context `{AbiEnv}.

Inductive JsonValue :=
| JvNull
| JvBool (b : bool)
| JvNumber (n : Number)
| JvString (s : string)
| JvArray (items : list JsonValue)
| JvObject (members : list (string * JsonValue)).

(** ** The fingerprint *)

Definition key_cmp {A} : string * A -> string * A -> comparison := on fst String.compare.

(** The texts of the items, separated by commas. *)
Fixpoint commas (texts : list (list Z)) : list Z :=
  match texts with
  | [] => []
  | [t] => t
  | t :: texts => t ++ [44] ++ commas texts
  end.

(** The members are written before they are sorted, by key; the code sorts
    first. *)
Fixpoint write_canonical (value : JsonValue) : list Z :=
  match value with
  | JvObject members =>
      let entries := sort_by key_cmp (map (fun kv => (kv.1, write_canonical kv.2)) members) in
      [123] ++ commas (map (fun kt : string * list Z => write_string kt.1 ++ [58] ++ kt.2) entries) ++ [125]
  | JvArray items => [91] ++ commas (map write_canonical items) ++ [93]
  | JvString s => write_string s
  | JvNumber n => write_number n
  | JvBool b => as_bytes (if b then "true" else "false")
  | JvNull => as_bytes "null"
  end.

Definition fingerprint_value (value : JsonValue) : Z := fnv1a64 (write_canonical value).

(** ** The variants *)

Definition SPRING_REQUEST_TYPES : list string :=
  ["get_status_request_v0"; "get_blocks_request_v0"; "get_blocks_ack_request_v0"; "get_blocks_request_v1";
   "get_status_request_v1"].
Definition SPRING_RESULT_TYPES : list string :=
  ["get_status_result_v0"; "get_blocks_result_v0"; "get_blocks_result_v1"; "get_status_result_v1"].

(** [Value::get] with a key, [Value::as_array] and [Value::as_str]. *)
Definition jv_get (key : string) (v : JsonValue) : option JsonValue :=
  match v with
  | JvObject members => snd <$> List.find (fun kv => bool_decide (kv.1 = key)) members
  | _ => None
  end.
Definition jv_array (v : JsonValue) : option (list JsonValue) :=
  match v with JvArray items => Some items | _ => None end.
Definition jv_str (v : JsonValue) : option string :=
  match v with JvString s => Some s | _ => None end.

(** The types of the variant of a name. *)
Definition variant_types (abi : JsonValue) (name : string) : option (list JsonValue) :=
  variants ← jv_get "variants" abi ≫= jv_array;
  v ← List.find (fun v => bool_decide (jv_get "name" v ≫= jv_str = Some name)) variants;
  jv_get "types" v ≫= jv_array.

Definition variant_is_prefix (abi : JsonValue) (name : string) (spring : list string) : bool :=
  match variant_types abi name with
  | None => false
  | Some types =>
      negb (bool_decide (types = []%list)) && (length types <=? length spring)%nat
      && forallb (fun hw : JsonValue * string => bool_decide (jv_str hw.1 = Some hw.2)) (zip types spring)
  end.

Definition compatible_value (value : JsonValue) : bool :=
  variant_is_prefix value "request" SPRING_REQUEST_TYPES
  && variant_is_prefix value "result" SPRING_RESULT_TYPES.

(** ** Texts *)

Context (json_value : string -> option JsonValue).

Definition abi_fingerprint (text : string) : Z :=
  match json_value text with
  | Some value => fingerprint_value value
  | None => fnv1a64 (as_bytes text)
  end.

Definition abi_compatible_text (text : string) : bool :=
  match json_value text with Some value => compatible_value value | None => false end.

Definition abi_entry (text : string) : AbiEntry :=
  let '(fp, compatible) :=
    match json_value text with
    | Some value => (fingerprint_value value, compatible_value value)
    | None => (fnv1a64 (as_bytes text), false)
    end in
  mkAbi text fp compatible.

(** ** Values that are the same but for the order of their members *)

Inductive json_equiv : JsonValue -> JsonValue -> Prop :=
| je_refl v : json_equiv v v
| je_array l l' : Forall2 json_equiv l l' -> json_equiv (JvArray l) (JvArray l')
| je_object l l1 l2 :
    NoDup (map fst l) -> l ≡ₚ l1 -> Forall2 (fun a b => a.1 = b.1 /\ json_equiv a.2 b.2) l1 l2 ->
    json_equiv (JvObject l) (JvObject l2).

Section equiv_ind.
Variable P : JsonValue -> JsonValue -> Prop.
Hypothesis Prefl : forall v, P v v.
Hypothesis Parray : forall l l', Forall2 json_equiv l l' -> Forall2 P l l' -> P (JvArray l) (JvArray l').
Hypothesis Pobject : forall l l1 l2, NoDup (map fst l) -> l ≡ₚ l1 ->
  Forall2 (fun a b => a.1 = b.1 /\ json_equiv a.2 b.2 /\ P a.2 b.2) l1 l2 -> P (JvObject l) (JvObject l2).

Lemma json_equiv_strong : forall v v', json_equiv v v' -> P v v'.
Proof.
  fix IH 3. intros v v' [u|l l' h|l l1 l2 hn hp h].
  - apply Prefl.
  - apply Parray; [exact h|]. induction h as [|x y l l' hx _ IHl]; constructor; [exact (IH _ _ hx)|exact IHl].
  - apply (Pobject l l1 l2 hn hp). clear hn hp. induction h as [|x y l1 l2 hx _ IHl]; constructor; [|exact IHl].
    destruct hx as [hk hv]. exact (conj hk (conj hv (IH _ _ hv))).
Qed.
End equiv_ind.

(** *** Sorting by distinct keys *)

#[local] Instance string_compare_total : TotalCmp String.compare.
Proof.
  split.
  - intros x y. apply String.compare_antisym.
  - intros x. induction x as [|a x IH]; intros [|b y] [|c z]; cbn; try done. unfold Ascii.compare.
    destruct (N.compare_spec (Ascii.N_of_ascii a) (Ascii.N_of_ascii b)) as [E1|E1|E1]; [..|done];
      destruct (N.compare_spec (Ascii.N_of_ascii b) (Ascii.N_of_ascii c)) as [E2|E2|E2]; [..|done| | |done];
      destruct (N.compare_spec (Ascii.N_of_ascii a) (Ascii.N_of_ascii c)) as [E3|E3|E3]; try done; try lia.
    apply IH.
Qed.

#[local] Instance key_cmp_total {A} : TotalCmp (@key_cmp A).
Proof. unfold key_cmp. apply _. Qed.

(** The order of entries with distinct keys does not change how they sort. *)
Lemma sort_distinct {A} (l l' : list (string * A)) :
  NoDup (map fst l) -> l ≡ₚ l' -> sort_by key_cmp l = sort_by key_cmp l'.
Proof.
  intros Hn Hp. apply (StronglySorted_unique_strong (fun a b => key_cmp a b <> Gt)).
  - intros [k1 a1] [k2 a2] H1 H2 H12 H21. unfold key_cmp, on in *. cbn in *.
    rewrite elem_of_sort_by in H1, H2. rewrite <-Hp in H2.
    assert (String.compare k1 k2 = Eq) as E.
    { rewrite (cmp_opp k1 k2) in H21. by destruct (String.compare k1 k2). }
    apply String.compare_eq_iff in E as <-. f_equal.
    apply list_elem_of_lookup in H1 as [i Hi], H2 as [j Hj].
    assert (i = j) as <-.
    { apply (NoDup_lookup (map fst l) i j k1 Hn); change (map fst l) with (fst <$> l);
        rewrite list_lookup_fmap; [by rewrite Hi|by rewrite Hj]. }
    congruence.
  - apply sort_by_sorted, key_cmp_total.
  - apply sort_by_sorted, key_cmp_total.
  - by rewrite !sort_by_perm.
Qed.

#[export] Instance write_canonical_proper : Proper (json_equiv ==> eq) write_canonical.
Proof.
  intros v v' He. induction He as [v|l l' _ IH|l l1 l2 Hn Hp IH] using json_equiv_strong; [done| |].
  - cbn [write_canonical]. assert (map write_canonical l = map write_canonical l') as ->; [|done].
    induction IH as [|x y l l' Hx _ IHl]; cbn [map]; [done|]. by rewrite Hx, IHl.
  - cbn [write_canonical]. cbv zeta. set (w := fun kv : string * JsonValue => (kv.1, write_canonical kv.2)).
    assert (map w l1 = map w l2) as <-.
    { clear Hp. induction IH as [|x y l1 l2 (Hk & _ & Hx) _ IHl]; cbn [map]; [done|]. rewrite IHl. unfold w at 1 3.
      by rewrite Hk, Hx. }
    rewrite (sort_distinct (map w l) (map w l1)); [done| |].
    + by rewrite map_map.
    + change (map w ?l) with (w <$> l). by rewrite Hp.
Qed.

(** *** Looking members up *)

Lemma find_member {A} (l : list (string * A)) key v :
  NoDup (map fst l) ->
  snd <$> List.find (fun kv => bool_decide (kv.1 = key)) l = Some v <-> (key, v) ∈ l.
Proof.
  intros Hn. induction l as [|[k w] l IH]; cbn [List.find map] in *.
  { split; [done|by intros ?%elem_of_nil]. }
  apply NoDup_cons in Hn as [Hk Hn]. rewrite elem_of_cons. cbn [fst]. case_bool_decide as E; cbn.
  - subst k. split; [intros [= ->]; by left|]. intros [[= ->]|Hin]; [done|].
    exfalso. apply Hk. by apply (list_elem_of_fmap_2 fst) in Hin.
  - rewrite IH by done. split; [by right|]. by intros [[= ? _]|?].
Qed.

Lemma members_keys {R : JsonValue -> JsonValue -> Prop} l l' :
  Forall2 (fun a b : string * JsonValue => a.1 = b.1 /\ R a.2 b.2) l l' -> map fst l = map fst l'.
Proof. induction 1 as [|a b l l' [Hk _] _ IH]; cbn; [done|]. by rewrite Hk, IH. Qed.

#[export] Instance jv_get_proper key : Proper (json_equiv ==> option_Forall2 json_equiv) (jv_get key).
Proof.
  intros v v' He. destruct He as [v|l l' _|l l1 l2 Hn Hp Hf]; [|constructor|].
  { destruct (jv_get key v); constructor. apply je_refl. }
  assert (NoDup (map fst l2)) as Hn2.
  { rewrite <-(members_keys _ _ Hf). change (map fst l1) with (fst <$> l1). by rewrite <-Hp. }
  cbn [jv_get]. destruct (snd <$> List.find _ l) as [w|] eqn:E.
  - apply (find_member l key w Hn) in E. rewrite Hp in E. apply list_elem_of_lookup in E as [i Hi].
    destruct (Forall2_lookup_l _ _ _ _ _ Hf Hi) as ([k w'] & Hj & Hk & Hw). cbn in Hk, Hw. subst k.
    apply list_elem_of_lookup_2, (find_member l2 key w' Hn2) in Hj. rewrite Hj. by constructor.
  - destruct (snd <$> List.find _ l2) as [w'|] eqn:E2; [|constructor]. exfalso.
    apply (find_member l2 key w' Hn2) in E2. apply list_elem_of_lookup in E2 as [i Hi].
    destruct (Forall2_lookup_r _ _ _ _ _ Hf Hi) as ([k w] & Hj & Hk & _). cbn in Hk. subst k.
    apply list_elem_of_lookup_2 in Hj. rewrite <-Hp in Hj. apply (find_member l key w Hn) in Hj. congruence.
Qed.

#[export] Instance jv_array_proper : Proper (json_equiv ==> option_Forall2 (Forall2 json_equiv)) jv_array.
Proof.
  intros v v' [u|l l' Hf|l l1 l2 _ _ _]; [|by constructor|constructor].
  destruct u; constructor. apply Reflexive_instance_0. intros u. apply je_refl.
Qed.

#[export] Instance jv_str_proper : Proper (json_equiv ==> eq) jv_str.
Proof. by intros v v' [u|l l' _|l l1 l2 _ _ _]. Qed.

Lemma bind_equiv {A B} (R : A -> A -> Prop) (S : B -> B -> Prop) (f : A -> option B) o o' :
  Proper (R ==> option_Forall2 S) f -> option_Forall2 R o o' -> option_Forall2 S (o ≫= f) (o' ≫= f).
Proof. intros Hf [x y Hxy|]; cbn; [by apply Hf|constructor]. Qed.

Lemma bind_eq {A B} (R : A -> A -> Prop) (f : A -> option B) o o' :
  Proper (R ==> eq) f -> option_Forall2 R o o' -> o ≫= f = o' ≫= f.
Proof. intros Hf [x y Hxy|]; cbn; [by apply Hf|done]. Qed.

#[export] Instance variant_types_proper :
  Proper (json_equiv ==> eq ==> option_Forall2 (Forall2 json_equiv)) variant_types.
Proof.
  intros v v' Hv name ? <-. unfold variant_types.
  assert (option_Forall2 (Forall2 json_equiv) (jv_get "variants" v ≫= jv_array) (jv_get "variants" v' ≫= jv_array))
    as Ha by (eapply bind_equiv; [apply _|by apply jv_get_proper]).
  destruct Ha as [l l' Hl|]; cbn; [|constructor].
  set (p := fun v => bool_decide (jv_get "name" v ≫= jv_str = Some name)).
  assert (forall x y, json_equiv x y -> p x = p y) as Hpp.
  { intros x y Hxy. unfold p. by rewrite (bind_eq json_equiv jv_str _ _ _ (jv_get_proper "name" x y Hxy)). }
  assert (option_Forall2 json_equiv (List.find p l) (List.find p l')) as Hf.
  { induction Hl as [|x y l l' Hx _ IH]; cbn; [constructor|]. rewrite (Hpp x y Hx). destruct (p y); [by constructor|done]. }
  destruct Hf as [x y Hx|]; cbn; [|constructor]. eapply bind_equiv; [apply _|by apply jv_get_proper].
Qed.

#[export] Instance variant_is_prefix_proper : Proper (json_equiv ==> eq ==> eq ==> eq) variant_is_prefix.
Proof.
  intros v v' Hv name ? <- spring ? <-. unfold variant_is_prefix.
  destruct (variant_types_proper v v' Hv name name eq_refl) as [l l' Hl|]; [|done].
  assert (length l = length l') as Hlen by (by eapply Forall2_length). rewrite Hlen. f_equal; [f_equal|].
  - f_equal. apply bool_decide_ext. by destruct Hl.
  - clear Hlen. revert spring. induction Hl as [|x y l l' Hx _ IH]; intros [|s spring]; cbn; try done.
    rewrite IH. f_equal. apply bool_decide_ext. by rewrite (jv_str_proper x y Hx).
Qed.

#[export] Instance compatible_value_proper : Proper (json_equiv ==> eq) compatible_value.
Proof.
  intros v v' Hv. unfold compatible_value.
  f_equal; by apply variant_is_prefix_proper.
Qed.

(** Two texts that hold the same JSON value, whatever the order of members at
    any level and the white space, get the same fingerprint and the same
    compatibility; and the entry a monitor records has the fingerprint and the
    compatibility of its text. *)
Theorem fingerprint_ignores_order text text' v v' :
  json_value text = Some v -> json_value text' = Some v' -> json_equiv v v' ->
  abi_fingerprint text = abi_fingerprint text'
  /\ abi_compatible (abi_entry text) = abi_compatible (abi_entry text')
  /\ abi_fp (abi_entry text) = abi_fingerprint text
  /\ abi_compatible (abi_entry text) = abi_compatible_text text.
Proof.
  intros E E' He. unfold abi_fingerprint, abi_entry, abi_compatible_text, fingerprint_value. rewrite E, E'. cbn.
  rewrite (write_canonical_proper v v' He), (compatible_value_proper v v' He). done.
Qed.

(** *** Prefixes of Spring's variants *)

Lemma prefix_zip (types : list JsonValue) (spring : list string) :
  (length types <=? length spring)%nat
  && forallb (fun hw : JsonValue * string => bool_decide (jv_str hw.1 = Some hw.2)) (zip types spring) = true
  <-> exists names, types = map JvString names /\ names `prefix_of` spring.
Proof.
  revert spring. induction types as [|t types IH]; intros spring.
  { cbn. split; [|done]. intros _. exists []. split; [done|]. apply prefix_nil. }
  destruct spring as [|s spring]; cbn [length zip zip_with Nat.leb forallb].
  { split; [done|]. intros ([|n names] & [=] & Hp). by apply prefix_nil_inv in Hp. }
  rewrite andb_assoc, (andb_comm (length types <=? _)%nat), <-andb_assoc, andb_true_iff, IH.
  rewrite bool_decide_eq_true. cbn [fst snd]. split.
  - intros [Ht (names & -> & Hp)]. exists (s :: names). split; [|by apply prefix_cons].
    destruct t; cbn in Ht; simplify_eq. done.
  - intros ([|n names] & [=] & Hp); subst. pose proof (prefix_cons_inv_1 _ _ _ _ Hp) as ->.
    apply prefix_cons_inv_2 in Hp. eauto.
Qed.

Lemma variant_is_prefix_spec abi name spring :
  variant_is_prefix abi name spring = true
  <-> exists names, variant_types abi name = Some (map JvString names) /\ names <> [] /\ names `prefix_of` spring.
Proof.
  unfold variant_is_prefix. destruct (variant_types abi name) as [types|]; [|naive_solver].
  rewrite <-andb_assoc, andb_true_iff, prefix_zip, negb_true_iff, bool_decide_eq_false. split.
  - intros [Hne (names & -> & Hp)]. exists names. split_and!; [done| |done]. by intros ->.
  - intros (names & [= ->] & Hne & Hp). split; [by destruct names|]. eauto.
Qed.

(** An upstream's ABI counts as compatible exactly when the types of its
    request and of its result variant are non-empty prefixes of Spring's lists,
    each a string, in Spring's order. *)
Theorem compatible_exact v :
  compatible_value v = true
  <-> exists requests results,
        variant_types v "request" = Some (map JvString requests)
        /\ requests <> [] /\ requests `prefix_of` SPRING_REQUEST_TYPES
        /\ variant_types v "result" = Some (map JvString results)
        /\ results <> [] /\ results `prefix_of` SPRING_RESULT_TYPES.
Proof.
  unfold compatible_value. rewrite andb_true_iff, !variant_is_prefix_spec. naive_solver.
Qed.
End abi.

(** The indices of the codec (Wire.v) are the places in Spring's lists. *)
Example spring_indices :
  map (fun i => SPRING_REQUEST_TYPES !! Z.to_nat i) [REQ_STATUS_V0; REQ_BLOCKS_V0; REQ_ACK; REQ_BLOCKS_V1; REQ_STATUS_V1]
  = map Some ["get_status_request_v0"; "get_blocks_request_v0"; "get_blocks_ack_request_v0"; "get_blocks_request_v1";
              "get_status_request_v1"]
  /\ map (fun i => SPRING_RESULT_TYPES !! Z.to_nat i) [RES_STATUS_V0; RES_BLOCKS_V0; RES_BLOCKS_V1; RES_STATUS_V1]
     = map Some ["get_status_result_v0"; "get_blocks_result_v0"; "get_blocks_result_v1"; "get_status_result_v1"].
Proof. done. Qed.

(** An environment with numbers below 128, written as one byte, and a reader
    that knows two texts of one value. *)
#[local] Instance abi_env_ex : AbiEnv :=
  {| Number := Z; write_number := fun n => [n]; write_string := as_bytes |}.

Definition old_node (types : string -> JsonValue) : JsonValue :=
  JvArray [JvObject [("name", JvString "request"); ("types", types "request")];
           JvObject [("types", types "result"); ("name", JvString "result")]].
Definition old_types (name : string) : JsonValue :=
  JvArray (map JvString (if decide (name = "request") then ["get_status_request_v0"; "get_blocks_request_v0"]
                         else ["get_status_result_v0"])).
Definition json_ex (text : string) : option JsonValue :=
  if decide (text = "vx") then Some (JvObject [("variants", old_node old_types); ("x", @JvNumber abi_env_ex 1%Z)])
  else if decide (text = " xv") then Some (JvObject [("x", @JvNumber abi_env_ex 1%Z); ("variants", old_node old_types)])
  else None.

Lemma fingerprint_witness :
  exists v v', json_ex "vx" = Some v /\ json_ex " xv" = Some v' /\ v <> v'
    /\ abi_fingerprint json_ex "vx" = abi_fingerprint json_ex " xv"
    /\ abi_compatible (abi_entry json_ex "vx") = true.
Proof.
  exists (JvObject [("variants", old_node old_types); ("x", @JvNumber abi_env_ex 1%Z)]).
  exists (JvObject [("x", @JvNumber abi_env_ex 1%Z); ("variants", old_node old_types)]).
  split_and!; [done..| |vm_compute; reflexivity].
  refine (proj1 (fingerprint_ignores_order json_ex "vx" " xv" _ _ eq_refl eq_refl _)).
  eapply je_object; [|apply perm_swap|].
  - apply NoDup_cons; split; [set_solver|apply NoDup_singleton].
  - repeat constructor.
Defined.
