(* ===== verification/MonitorLoop.v ===== *)
(** * The connection of a monitor

    Models the connection loop of [src/src/tasks.rs]: [monitoring_connection],
    [run_monitor_session], [handle_monitoring_msg], [reconnect_pause] and the
    helpers that send a request or mark the upstream offline.

    The loop is a state machine, one [monitor_event] per thing it waits for: the
    outcome of a connect, a message, the end of the stream, a timer, a session that
    reached the upstream, the shutdown.  The state map is shared: it is given to
    each event, and what other tasks do to it between events is a step of its own.
    An event returns what was sent and each map that was published to the hub. *)

From S2P Require Import Prelude Wire Zcd Models Monitor Progress View Planner Failover ApiRoute Abi.

Definition STATUS_REQUEST_V0 : Z := 0.
Definition STATUS_REQUEST_V1 : Z := 4.
Definition STATUS_V1_MISS_LIMIT : Z := 2.


Inductive MonitorMsg := MmText (text : string) | MmBinary (bytes : list Z) | MmClose | MmOther.

Inductive Inbound := AbiAccepted | AbiRejected | InStatus (variant : Z) | InClose | InIgnore.

(** The variables of [run_monitor_session]. *)
Record MonitorSession := mkMs {
  ms_ship_abi : option string;
  ms_abi_ready : bool;
  ms_status_in_flight : bool;
  ms_sent_v1 : bool;
  ms_saw_status : bool;
  ms_abi_deadline : Z;
  ms_status_deadline : Z;
  ms_next_status_at : Z;
}.

(** Where the loop waits: for a connect (with its deadline, and whether a session
    reached the upstream meanwhile), in a pause after a failed connect (since
    when, how long, and whether it was cut short), in a session, between two, or no
    more. *)
Inductive MonitorPhase :=
| MpConnect (deadline : Z) (reached : bool)
| MpPause (failed delay : Z) (reached : bool)
| MpSession (v : MonitorSession)
| MpReconnect (at_ : Z)
| MpStopped.

(** The variables of [monitoring_connection]. *)
Record MonitorTask := mkMt {
  mt_backoff_attempts : Z;
  mt_unanswered_v1 : Z;
  mt_status_request : Z;
  mt_phase : MonitorPhase;
}.

Inductive MonitorEvent :=
| MeConnected
| MeConnectFailed
| MeReachable
| MeMessage (m : MonitorMsg)
| MeStreamEnd
| MeTimer
| MeShutdown.

Inductive MonitorEffect := FxSend (variant : Z) | FxPublish (db : gmap string ServerState).

Abbreviation Db := (gmap string ServerState).

Section monitor.
Context (iter : Db -> list (string * ServerState)).
Context `{AbiEnv} (json_value : string -> option JsonValue) (abi_from_json : string -> bool).
Context (endpoint : string) (config : StaticConfig).

Definition session_start (now : Z) : MonitorSession :=
  let abi_deadline := now + from_millis (sf_connect_timeout_ms config) in
  mkMs None false false false false abi_deadline abi_deadline abi_deadline.

Definition connecting (now : Z) : MonitorPhase := MpConnect (now + from_millis (sf_connect_timeout_ms config)) false.

Definition new_task (now : Z) : MonitorTask := mkMt 0 0 STATUS_REQUEST_V1 (connecting now).

Definition handle_monitoring_msg (now : Z) (m : MonitorMsg) (ship_abi : option string) (db : Db)
  : Inbound * option string * Db :=
  match m with
  | MmText text =>
      if is_some ship_abi then (InIgnore, ship_abi, db)
      else
        let loaded := accept_upstream_abi abi_from_json text in
        let db := if loaded then store_abi endpoint (abi_entry json_value text) db else db in
        (if loaded then AbiAccepted else AbiRejected, Some text, db)
  | MmBinary bytes =>
      match apply_status_update iter bytes now endpoint db with
      | (Ok (Some variant), db) => (InStatus variant, ship_abi, db)
      | (Ok None, db) | (Err _, db) => (InIgnore, ship_abi, db)
      end
  | MmClose => (InClose, ship_abi, db)
  | MmOther => (InIgnore, ship_abi, db)
  end.

Definition wake_at (v : MonitorSession) : Z :=
  if ms_abi_ready v then if ms_status_in_flight v then ms_status_deadline v else ms_next_status_at v
  else ms_abi_deadline v.

(** The end of a session, [None] for a shutdown. *)
Definition SessionEnd : Type := option (bool * bool).

Definition session_reconnect (sent_v1 saw_status : bool) : SessionEnd :=
  Some (sent_v1 && negb saw_status, saw_status).

Definition mark_offline_published (now : Z) (db : Db) : Db * list MonitorEffect :=
  let db := monitor_mark_offline endpoint now db in (db, [FxPublish db]).

(** The session goes on with its variables and the request to send, or ends. *)
Inductive SessionStep := SsGo (v : MonitorSession) (request : Z) | SsEnd (e : SessionEnd) (request : Z).

Definition drop_session (now : Z) (v : MonitorSession) (request : Z) (db : Db) (fx : list MonitorEffect)
  : SessionStep * Db * list MonitorEffect :=
  let '(db, off) := mark_offline_published now db in
  (SsEnd (session_reconnect (ms_sent_v1 v) (ms_saw_status v)) request, db, fx ++ off).

(** [send_status] and what follows it in both places; [ok]: the write went
    through. *)
Definition send_and_wait (now : Z) (ok : bool) (v : MonitorSession) (request : Z) (db : Db) (fx : list MonitorEffect)
  : SessionStep * Db * list MonitorEffect :=
  let db := capture_head_reference endpoint db in
  if negb ok then drop_session now v request db fx
  else
    let due := now + from_millis (sf_upstream_status_ms config) in
    (SsGo (mkMs (ms_ship_abi v) (ms_abi_ready v) true (ms_sent_v1 v || (request =? STATUS_REQUEST_V1))
             (ms_saw_status v) (ms_abi_deadline v) due due) request,
     db, fx ++ [FxSend request]).

Definition on_message (now : Z) (ok : bool) (m : MonitorMsg) (v : MonitorSession) (request : Z) (db : Db)
  : SessionStep * Db * list MonitorEffect :=
  let '(inbound, ship_abi, db) := handle_monitoring_msg now m (ms_ship_abi v) db in
  let v := mkMs ship_abi (ms_abi_ready v) (ms_status_in_flight v) (ms_sent_v1 v) (ms_saw_status v)
             (ms_abi_deadline v) (ms_status_deadline v) (ms_next_status_at v) in
  match inbound with
  | AbiAccepted =>
      let v := mkMs (ms_ship_abi v) true (ms_status_in_flight v) (ms_sent_v1 v) (ms_saw_status v)
                 (ms_abi_deadline v) (ms_status_deadline v) (ms_next_status_at v) in
      send_and_wait now ok v request db [FxPublish db]
  | InStatus variant =>
      let v := mkMs (ms_ship_abi v) (ms_abi_ready v) false (ms_sent_v1 v) true
                 (ms_abi_deadline v) (ms_status_deadline v) (ms_next_status_at v) in
      (SsGo v (if variant =? 0 then STATUS_REQUEST_V0 else STATUS_REQUEST_V1), db, [FxPublish db])
  | AbiRejected | InClose => drop_session now v request db []
  | InIgnore => (SsGo v request, db, [])
  end.

Definition on_session_timer (now : Z) (ok : bool) (v : MonitorSession) (request : Z) (db : Db)
  : SessionStep * Db * list MonitorEffect :=
  if negb (ms_abi_ready v) || ms_status_in_flight v then drop_session now v request db []
  else send_and_wait now ok v request db [].

(** After a session: the miss counter and the fallback, then the wait before the
    next connect. *)
Definition after_session (now : Z) (t : MonitorTask) (e : SessionEnd) (request : Z) (db : Db)
    (fx : list MonitorEffect) : MonitorTask * Db * list MonitorEffect :=
  match e with
  | None => (mkMt (mt_backoff_attempts t) (mt_unanswered_v1 t) request MpStopped, db, fx)
  | Some (unanswered_v1, saw_status) =>
      let wait := MpReconnect (now + from_millis (sf_upstream_reconnect_ms config)) in
      if unanswered_v1 && (request =? STATUS_REQUEST_V1) then
        let misses := sat_add u32_max (mt_unanswered_v1 t) 1 in
        if STATUS_V1_MISS_LIMIT <=? misses then
          let db := mark_status_v0_only endpoint db in
          (mkMt (mt_backoff_attempts t) misses STATUS_REQUEST_V0 wait, db, fx ++ [FxPublish db])
        else (mkMt (mt_backoff_attempts t) misses request wait, db, fx)
      else if saw_status then (mkMt (mt_backoff_attempts t) 0 request wait, db, fx)
      else (mkMt (mt_backoff_attempts t) (mt_unanswered_v1 t) request wait, db, fx)
  end.

Definition step_session (now : Z) (t : MonitorTask) (r : SessionStep * Db * list MonitorEffect)
  : MonitorTask * Db * list MonitorEffect :=
  match r with
  | (SsGo v request, db, fx) => (mkMt (mt_backoff_attempts t) (mt_unanswered_v1 t) request (MpSession v), db, fx)
  | (SsEnd e request, db, fx) => after_session now t e request db fx
  end.

(** A connect that failed or timed out. *)
Definition connect_failed (now : Z) (reached : bool) (t : MonitorTask) (db : Db)
  : MonitorTask * Db * list MonitorEffect :=
  let '(db, fx) := mark_offline_published now db in
  let '(backoff, attempts) := backoff_delay (sf_upstream_reconnect_ms config) (mt_backoff_attempts t) in
  (mkMt attempts (mt_unanswered_v1 t) (mt_status_request t) (MpPause now (from_millis backoff) reached), db, fx).

(** When a pause ends by itself. *)
Definition pause_until (failed delay : Z) (reached : bool) : Z :=
  if reached then failed + Z.min (from_millis (sf_upstream_reconnect_ms config)) delay else failed + delay.

Definition at_phase (p : MonitorPhase) (t : MonitorTask) : MonitorTask :=
  mkMt (mt_backoff_attempts t) (mt_unanswered_v1 t) (mt_status_request t) p.

(** When the timer of a phase fires. *)
Definition timer_at (p : MonitorPhase) : option Z :=
  match p with
  | MpConnect deadline _ => Some deadline
  | MpPause failed delay reached => Some (pause_until failed delay reached)
  | MpSession v => Some (wake_at v)
  | MpReconnect at_ => Some at_
  | MpStopped => None
  end.

(** One event; [ok]: a write, if one is made, goes through. *)
Definition monitor_event (now : Z) (ok : bool) (ev : MonitorEvent) (t : MonitorTask) (db : Db)
  : MonitorTask * Db * list MonitorEffect :=
  match ev, mt_phase t with
  | MeShutdown, MpSession _ => after_session now t None (mt_status_request t) db []
  | MeShutdown, _ => (at_phase MpStopped t, db, [])
  | MeConnected, MpConnect _ _ => (mkMt 0 (mt_unanswered_v1 t) (mt_status_request t) (MpSession (session_start now)), db, [])
  | MeConnectFailed, MpConnect _ reached => connect_failed now reached t db
  | MeTimer, MpConnect _ reached => connect_failed now reached t db
  | MeReachable, MpConnect deadline _ => (at_phase (MpConnect deadline true) t, db, [])
  | MeReachable, MpPause failed delay _ => (at_phase (MpPause failed delay true) t, db, [])
  | MeTimer, MpPause _ _ _ | MeTimer, MpReconnect _ => (at_phase (connecting now) t, db, [])
  | MeMessage m, MpSession v => step_session now t (on_message now ok m v (mt_status_request t) db)
  | MeStreamEnd, MpSession v => step_session now t (drop_session now v (mt_status_request t) db [])
  | MeTimer, MpSession v => step_session now t (on_session_timer now ok v (mt_status_request t) db)
  | _, _ => (t, db, [])
  end.

(** ** Runs

    A turn is an event with its time; between two of them other tasks may change
    the map, but none of them puts the endpoint online. *)

Record Turn := mkTurn { tn_now : Z; tn_ok : bool; tn_event : MonitorEvent }.

Definition online_at (db : Db) : bool := match db !! endpoint with Some s => online s | None => false end.

Definition others (db db' : Db) : Prop := online_at db' = true -> online_at db = true.

Inductive played (t0 : MonitorTask) (db0 : Db) : list Turn -> MonitorTask -> Db -> list MonitorEffect -> Prop :=
| played_nil : played t0 db0 [] t0 db0 []
| played_snoc l t db fx db1 turn t' db' fx' :
    played t0 db0 l t db fx -> others db db1 ->
    monitor_event (tn_now turn) (tn_ok turn) (tn_event turn) t db1 = (t', db', fx') ->
    played t0 db0 (l ++ [turn]) t' db' (fx ++ fx').

(** *** Online *)

Definition answering (p : MonitorPhase) : bool :=
  match p with MpSession v => ms_saw_status v | MpStopped => true | _ => false end.

Definition up_ok (t : MonitorTask) (db : Db) : Prop := online_at db = true -> answering (mt_phase t) = true.

Definition step_up (r : SessionStep * Db * list MonitorEffect) : Prop :=
  match r with
  | (SsGo v _, db, _) => online_at db = true -> ms_saw_status v = true
  | (SsEnd (Some _) _, db, _) => online_at db = false
  | (SsEnd None _, _, _) => True
  end.

Lemma online_alter f db :
  (forall s, online (f s) = online s) -> online_at (alter f endpoint db) = online_at db.
Proof. intros Hf. unfold online_at. rewrite lookup_alter_eq. destruct (db !! endpoint); cbn; auto. Qed.

Lemma online_marked now db : online_at (monitor_mark_offline endpoint now db) = false.
Proof.
  unfold online_at, monitor_mark_offline. rewrite lookup_alter_eq.
  destruct (db !! endpoint) as [s|]; cbn; [|done]. by destruct (mark_offline_facts now s) as (_ & -> & _).
Qed.

Lemma online_captured db : online_at (capture_head_reference endpoint db) = online_at db.
Proof. by apply online_alter. Qed.

Lemma online_abi entry db : online_at (store_abi endpoint entry db) = online_at db.
Proof. by apply online_alter. Qed.

Lemma online_v0 db : online_at (mark_status_v0_only endpoint db) = online_at db.
Proof. by apply online_alter. Qed.

(** What a frame is to the session, and the map it leaves when it is no status. *)
Lemma handled_status now m abi db :
  match handle_monitoring_msg now m abi db with
  | (InStatus _, abi', _) => abi' = abi /\ exists b, m = MmBinary b
  | (_, _, db') => online_at db' = online_at db
  end.
Proof.
  destruct m as [text|b| |]; cbn; try done.
  - destruct (is_some abi); [done|]. destruct (accept_upstream_abi _ _); [apply online_abi|done].
  - unfold apply_status_update. destruct (decode_status_frame b) as [[[variant [f|]]|]|e]; eauto.
Qed.

Lemma drop_up now v request db fx : step_up (drop_session now v request db fx).
Proof. cbn. apply online_marked. Qed.

Lemma send_up now ok v request db fx :
  (online_at db = true -> ms_saw_status v = true) -> step_up (send_and_wait now ok v request db fx).
Proof.
  intros Hu. unfold send_and_wait. destruct ok; [|apply drop_up]. cbn. by rewrite online_captured.
Qed.

Lemma message_up now ok m v request db :
  (online_at db = true -> ms_saw_status v = true) -> step_up (on_message now ok m v request db).
Proof.
  intros Hu. unfold on_message. pose proof (handled_status now m (ms_ship_abi v) db) as Hh.
  destruct (handle_monitoring_msg _ _ _ _) as [[[] abi'] db']; try apply drop_up.
  - apply send_up. cbn. by rewrite Hh.
  - done.
  - cbn. by rewrite Hh.
Qed.

Lemma timer_up now ok v request db :
  (online_at db = true -> ms_saw_status v = true) -> step_up (on_session_timer now ok v request db).
Proof. intros Hu. unfold on_session_timer. destruct (_ || _); [apply drop_up|by apply send_up]. Qed.

Lemma step_session_up now t r t' db' fx' :
  step_up r -> step_session now t r = (t', db', fx') -> up_ok t' db'.
Proof.
  destruct r as [[[v request|[[un saw]|] request] db] fx]; cbn.
  - by intros Hu [= <- <- <-].
  - intros Hoff Hr. unfold up_ok.
    assert (online_at db' = false) as ->; [|done].
    repeat case_match; simplify_eq; by rewrite ?online_v0.
  - by intros _ [= <- <- <-] _.
Qed.

Lemma event_up now ok ev t db t' db' fx' :
  up_ok t db -> monitor_event now ok ev t db = (t', db', fx') -> up_ok t' db'.
Proof.
  intros Hu. unfold monitor_event, up_ok in *.
  destruct ev, (mt_phase t) as [d r|f d r|v|a|] eqn:Ep; cbn [answering] in Hu;
    try (intros [= <- <- <-]; cbn; rewrite ?Ep; by auto).
  all: try (apply step_session_up; auto using message_up, timer_up, drop_up).
  all: unfold connect_failed; cbn; intros [= <- <- <-]; by rewrite online_marked.
Qed.

(** A monitor that has not heard from its upstream in the attempt it makes. *)
Definition unanswered (p : MonitorPhase) : bool :=
  match p with MpConnect _ _ => true | MpSession v => negb (ms_saw_status v) | _ => false end.

(** Every map published shows the upstream online. *)
Definition shows_online (fx : list MonitorEffect) : Prop := forall db, FxPublish db ∈ fx -> online_at db = true.

Lemma shows_online_app fx fx' : shows_online fx -> shows_online fx' -> shows_online (fx ++ fx').
Proof. intros H1 H2 db [Hi|Hi]%elem_of_app; auto. Qed.

(** A session without a status: as long as the upstream is not marked offline,
    what is published shows it online. *)
Definition step_kept (db : Db) (r : SessionStep * Db * list MonitorEffect) : Prop :=
  match r with
  | (SsGo v _, db', fx) =>
      ms_saw_status v = false -> online_at db' = true -> online_at db = true /\ shows_online fx
  | (SsEnd (Some _) _, db', _) => online_at db' = false
  | (SsEnd None _, _, _) => True
  end.

Lemma drop_kept now v request db0 db fx : step_kept db0 (drop_session now v request db fx).
Proof. cbn. apply online_marked. Qed.

Lemma send_kept now ok v request db0 db fx :
  (online_at db = true -> online_at db0 = true /\ shows_online fx) ->
  step_kept db0 (send_and_wait now ok v request db fx).
Proof.
  intros Hu. unfold send_and_wait. destruct ok; [|apply drop_kept]. cbn [negb step_kept].
  intros _. rewrite online_captured. intros Hon. destruct (Hu Hon) as [H0 Hs]. split; [done|].
  apply shows_online_app; [done|]. intros m Hm%list_elem_of_singleton. done.
Qed.

Lemma message_kept now ok m v request db : step_kept db (on_message now ok m v request db).
Proof.
  unfold on_message. pose proof (handled_status now m (ms_ship_abi v) db) as Hh.
  destruct (handle_monitoring_msg _ _ _ _) as [[[] abi'] db']; try apply drop_kept.
  - apply send_kept. intros Hon. split; [congruence|].
    by intros m' [= ->]%list_elem_of_singleton.
  - done.
  - cbn. intros _ Hon. split; [congruence|]. by intros m' ?%not_elem_of_nil.
Qed.

Lemma timer_kept now ok v request db : step_kept db (on_session_timer now ok v request db).
Proof.
  unfold on_session_timer. destruct (_ || _); [apply drop_kept|]. apply send_kept. intros Hon.
  split; [done|]. by intros m' ?%not_elem_of_nil.
Qed.

Lemma step_session_kept now t db r t' db' fx' :
  step_kept db r -> step_session now t r = (t', db', fx') -> online_at db' = true ->
  answering (mt_phase t') = true
  \/ unanswered (mt_phase t') = true /\ online_at db = true /\ shows_online fx'.
Proof.
  destruct r as [[[v request|[[un saw]|] request] db1] fx]; cbn [step_session step_kept].
  - intros Hk [= <- <- <-] Hon. cbn. destruct (ms_saw_status v) eqn:Es; cbn; [by left|right]. by split; [|apply Hk].
  - intros Hoff Hr Hon. exfalso. cbn in Hr.
    repeat case_match; simplify_eq; by rewrite ?online_v0 in Hon; congruence.
  - intros _ [= <- <- <-] _. by left.
Qed.

Lemma event_kept now ok ev t db t' db' fx' :
  unanswered (mt_phase t) = true -> monitor_event now ok ev t db = (t', db', fx') -> online_at db' = true ->
  answering (mt_phase t') = true
  \/ unanswered (mt_phase t') = true /\ online_at db = true /\ shows_online fx'.
Proof.
  intros Hu. assert (shows_online []) as Hnil by (by intros m ?%not_elem_of_nil).
  unfold monitor_event, connect_failed.
  destruct ev, (mt_phase t) as [d r|f d r|v|a|] eqn:Ep; cbn [unanswered] in Hu; try done;
    try (apply step_session_kept; auto using message_kept, timer_kept, drop_kept);
    cbn; try rewrite <- surjective_pairing; intros [= <- <- <-] Hon; cbn; rewrite ?Ep; auto;
    by rewrite online_marked in Hon.
Qed.

(** C29: Whenever the monitor's upstream is online, the monitor was stopped, or it is in
    a session in which a status has arrived, or the upstream is online only as the
    monitor found it: it was online in the map the monitor started with (a reload
    hands over the samples of the previous generation), the monitor is still in its
    connect or in a session without a status, and no map published since shows the
    upstream offline, so no connect failed and no session ended.  An upstream that
    was offline at the start is online in the first two cases only. *)
Theorem online_means_answered (start : Z) (db0 : Db) (l : list Turn) (t : MonitorTask) (db : Db)
    (fx : list MonitorEffect) (s : ServerState) :
  played (new_task start) db0 l t db fx ->
  db !! endpoint = Some s -> online s = true ->
  mt_phase t = MpStopped
  \/ (exists v, mt_phase t = MpSession v /\ ms_saw_status v = true)
  \/ online_at db0 = true /\ unanswered (mt_phase t) = true /\ shows_online fx.
Proof.
  intros Hp Hs Hon. assert (online_at db = true) as Hdb by (unfold online_at; by rewrite Hs).
  assert (answering (mt_phase t) = true
    \/ unanswered (mt_phase t) = true /\ online_at db0 = true /\ shows_online fx) as [Ha|(? & ? & ?)].
  { clear Hs Hon. induction Hp as [|l t db fx db1 turn t' db' fx' Hp IH Ho He].
    - right. split_and!; [done|done|by intros m ?%not_elem_of_nil].
    - destruct (unanswered (mt_phase t)) eqn:Eu.
      + destruct (event_kept _ _ _ _ _ _ _ _ Eu He Hdb) as [?|(? & H1 & Hs')]; [by left|].
        destruct (IH (Ho H1)) as [Ha|(_ & ? & ?)].
        * by destruct (mt_phase t) as [| |v| |]; cbn in *; rewrite ?Ha in Eu.
        * right. auto using shows_online_app.
      + left. refine (event_up _ _ _ _ db1 _ _ _ _ He Hdb). intros H1.
        destruct (IH (Ho H1)) as [?|[? _]]; congruence. }
  - destruct (mt_phase t) as [| |v| |]; try done; eauto.
  - auto.
Qed.

(** *** Requests and replies *)

Definition is_send (fx : MonitorEffect) : bool := match fx with FxSend _ => true | FxPublish _ => false end.
Definition sends (fx : list MonitorEffect) : Z := zlen (List.filter is_send fx).

Definition is_status (ev : MonitorEvent) : bool :=
  match ev with
  | MeMessage (MmBinary b) => match decode_status_frame b with Ok (Some _) => true | _ => false end
  | _ => false
  end.
Definition replies (l : list Turn) : Z := zlen (List.filter (fun turn => is_status (tn_event turn)) l).

Definition is_connected (ev : MonitorEvent) : bool := match ev with MeConnected => true | _ => false end.

(** The flags of a session agree. *)
Definition flags_ok (v : MonitorSession) : Prop :=
  (ms_status_in_flight v = true -> ms_abi_ready v = true)
  /\ (ms_abi_ready v = true -> is_some (ms_ship_abi v) = true).

(** The requests that may have been sent with [n] replies. *)
Definition flight (p : MonitorPhase) : Z :=
  match p with MpSession v => if ms_status_in_flight v then 1 else 0 | _ => 1 end.

Definition phase_flags (p : MonitorPhase) : Prop := match p with MpSession v => flags_ok v | _ => True end.

Definition step_counts (before : Z) (status : bool) (r : SessionStep * Db * list MonitorEffect) : Prop :=
  match r with
  | (SsGo v _, _, fx) => flags_ok v /\ before + sends fx <= (if status then 1 else 0) + flight (MpSession v)
  | (SsEnd e _, _, fx) => before + sends fx <= (if status then 1 else 0) + 1
  end.

Lemma sends_app fx fx' : sends (fx ++ fx') = sends fx + sends fx'.
Proof. unfold sends. rewrite List.filter_app, length_app. lia. Qed.

Lemma sends_publish db : sends [FxPublish db] = 0.
Proof. done. Qed.

Lemma replies_snoc l turn : replies (l ++ [turn]) = replies l + if is_status (tn_event turn) then 1 else 0.
Proof. unfold replies. rewrite List.filter_app, length_app. cbn. destruct (is_status _); cbn [length]; lia. Qed.

Lemma sends_sent variant : sends [FxSend variant] = 1.
Proof. done. Qed.

Lemma sends_nil : sends [] = 0.
Proof. done. Qed.

Ltac counts :=
  cbn -[Z.add Z.le sends] in *; rewrite ?sends_app, ?sends_publish, ?sends_sent, ?sends_nil in *;
  repeat match goal with |- context [if ?b then 1 else 0] => destruct b end; lia.

Lemma drop_counts now v request db fx before status :
  before + sends fx <= (if status : bool then 1 else 0) + 1 -> step_counts before status (drop_session now v request db fx).
Proof. intros Hle. counts. Qed.

Lemma send_counts now ok v request db fx :
  flags_ok v -> ms_abi_ready v = true -> sends fx = 0 -> step_counts 0 false (send_and_wait now ok v request db fx).
Proof.
  intros [Hf1 Hf2] Hr Hfx. unfold send_and_wait. destruct ok; cbn [negb].
  - split; [split; cbn; auto|counts].
  - apply drop_counts. counts.
Qed.

Lemma message_counts now ok m v request db :
  flags_ok v -> step_counts (flight (MpSession v)) (is_status (MeMessage m)) (on_message now ok m v request db).
Proof.
  intros [Hf1 Hf2]. unfold on_message, handle_monitoring_msg. destruct m as [text|b| |].
  - destruct (is_some (ms_ship_abi v)) eqn:Es; [split; [split; cbn; auto|counts]|].
    assert (ms_abi_ready v = false) as Er by (destruct (ms_abi_ready v); [specialize (Hf2 eq_refl); congruence|done]).
    assert (ms_status_in_flight v = false) as Ei by (destruct (ms_status_in_flight v); [specialize (Hf1 eq_refl); congruence|done]).
    cbn [flight is_status]. rewrite Ei. destruct (accept_upstream_abi _ _).
    + apply send_counts; [split; cbn; auto|done|done].
    + apply drop_counts. counts.
  - unfold apply_status_update. cbn [is_status flight].
    destruct (decode_status_frame b) as [[[variant [f|]]|]|e]; (split; [split; cbn; by auto|counts]).
  - apply drop_counts. counts.
  - split; [split; cbn; auto|counts].
Qed.

Lemma timer_counts now ok v request db :
  flags_ok v -> step_counts (flight (MpSession v)) false (on_session_timer now ok v request db).
Proof.
  intros Hf. unfold on_session_timer. cbn [flight]. destruct (_ || _) eqn:E.
  - apply drop_counts. counts.
  - apply orb_false_elim in E as [Er Ei]. rewrite Ei. apply negb_false_iff in Er. by apply send_counts.
Qed.

Lemma step_session_counts now t before (status : bool) r t' db' fx' :
  step_counts before status r -> step_session now t r = (t', db', fx') ->
  phase_flags (mt_phase t') /\ before + sends fx' <= (if status then 1 else 0) + flight (mt_phase t').
Proof.
  destruct r as [[[v request|[[un saw]|] request] db] fx]; cbn -[Z.add Z.le sends].
  - by intros [Hf Hle] [= <- <- <-].
  - intros Hle Hr. destruct (_ && _); [destruct (_ <=? _)|destruct saw]; simplify_eq; (split; [done|counts]).
  - by intros Hle [= <- <- <-].
Qed.

Lemma event_counts now ok ev t db t' db' fx' :
  is_connected ev = false -> phase_flags (mt_phase t) -> monitor_event now ok ev t db = (t', db', fx') ->
  phase_flags (mt_phase t') /\ flight (mt_phase t) + sends fx' <= (if is_status ev then 1 else 0) + flight (mt_phase t').
Proof.
  intros Hc Hf. unfold monitor_event.
  destruct ev as [| | |m| | |], (mt_phase t) as [d r|f d r|v|a|] eqn:Ep; try done;
    try (apply step_session_counts; first [by apply message_counts|by apply timer_counts|apply drop_counts; counts]).
  all: try (unfold connect_failed; cbn -[Z.add Z.le sends]; intros [= <- <- <-]; rewrite ?Ep; split; [done|counts]).
Qed.

(** C28: A session, from its start up to the next connect: the status requests sent are
    at most one more than the replies, and no more than those when none is in
    flight; the socket is never sent a second request before an answer. *)
Theorem one_request_in_flight (start : Z) (t0 : MonitorTask) (db0 : Db) (l : list Turn) (t : MonitorTask)
    (db : Db) (fx : list MonitorEffect) :
  mt_phase t0 = MpSession (session_start start) -> played t0 db0 l t db fx ->
  Forall (fun turn => is_connected (tn_event turn) = false) l ->
  sends fx <= replies l + 1
  /\ (forall v, mt_phase t = MpSession v -> ms_status_in_flight v = false -> sends fx <= replies l).
Proof.
  intros Hst Hp Hl.
  assert (phase_flags (mt_phase t) /\ sends fx <= replies l + flight (mt_phase t)) as [_ Hc].
  { induction Hp as [|l t db fx db1 turn t' db' fx' Hp IH Ho He].
    - rewrite Hst. cbn. split; [by split|done].
    - apply Forall_app in Hl as [Hl Ht]. apply Forall_cons_1 in Ht as [Ht _].
      destruct (IH Hl) as [Hf Hle]. destruct (event_counts _ _ _ _ _ _ _ _ Ht Hf He) as [Hf' Hle'].
      split; [done|]. rewrite sends_app, replies_snoc. lia. }
  split.
  - assert (flight (mt_phase t) <= 1) by (destruct (mt_phase t); cbn; repeat case_match; lia). lia.
  - intros v Hv Hi. rewrite Hv in Hc. cbn in Hc. rewrite Hi in Hc. lia.
Qed.

(** *** A silent upstream *)

(** When a session that gets no status is over at the latest. *)
Definition silent_until (v : MonitorSession) : Z :=
  if ms_status_in_flight v then ms_status_deadline v
  else (if ms_abi_ready v then ms_next_status_at v else ms_abi_deadline v) + from_millis (sf_upstream_status_ms config).

(** The timers that may still fire before the one that ends the session. *)
Definition slack (v : MonitorSession) : Z := if ms_status_in_flight v then 0 else 1.

Definition is_timer (ev : MonitorEvent) : bool := match ev with MeTimer => true | _ => false end.
Definition timers (l : list Turn) : Z := zlen (List.filter (fun turn => is_timer (tn_event turn)) l).

(** A turn without a status or a connect; in a session, it comes before the timer or
    is the timer. *)
Definition silent_turn (t : MonitorTask) (turn : Turn) : Prop :=
  is_status (tn_event turn) = false /\ is_connected (tn_event turn) = false
  /\ match mt_phase t with MpSession v => tn_now turn <= wake_at v | _ => True end.

Inductive silently (t0 : MonitorTask) (db0 : Db) : list Turn -> MonitorTask -> Db -> Prop :=
| silently_nil : silently t0 db0 [] t0 db0
| silently_snoc l t db db1 turn t' db' fx' :
    silently t0 db0 l t db -> others db db1 -> silent_turn t turn ->
    monitor_event (tn_now turn) (tn_ok turn) (tn_event turn) t db1 = (t', db', fx') ->
    silently t0 db0 (l ++ [turn]) t' db'.

Lemma timers_snoc l turn : timers (l ++ [turn]) = timers l + if is_timer (tn_event turn) then 1 else 0.
Proof. unfold timers. rewrite List.filter_app, length_app. cbn. destruct (is_timer _); cbn [length]; lia. Qed.

Section silent.
Context (status_pos : 0 <= sf_upstream_status_ms config).

Lemma wait_pos : 0 <= from_millis (sf_upstream_status_ms config).
Proof. unfold from_millis. lia. Qed.

Lemma wake_before v : flags_ok v -> wake_at v <= silent_until v.
Proof.
  intros [Hf _]. pose proof wait_pos. unfold wake_at, silent_until.
  destruct (ms_status_in_flight v); [rewrite Hf by done; lia|]. destruct (ms_abi_ready v); lia.
Qed.

Definition still (v : MonitorSession) (timer : bool) (v' : MonitorSession) : Prop :=
  flags_ok v' /\ silent_until v' <= silent_until v /\ (if timer then 1 else 0) + slack v' <= slack v.

Definition step_still (v : MonitorSession) (timer : bool) (r : SessionStep * Db * list MonitorEffect) : Prop :=
  match r with
  | (SsGo v' _, _, _) => still v timer v'
  | (SsEnd e _, db, _) => is_some e = true /\ online_at db = false
  end.

Lemma drop_still now v v' timer request db fx : step_still v timer (drop_session now v' request db fx).
Proof. cbn. split; [done|apply online_marked]. Qed.

Lemma send_still now ok v v' timer request db fx :
  flags_ok v' -> ms_abi_ready v' = true -> slack v = 1 -> now + from_millis (sf_upstream_status_ms config) <= silent_until v ->
  step_still v timer (send_and_wait now ok v' request db fx).
Proof.
  intros [Hf1 Hf2] Hr Hs Hb. unfold send_and_wait. destruct ok; [|apply drop_still].
  cbn. split_and!; [split; cbn; auto|done|rewrite Hs; destruct timer; cbn; lia].
Qed.

Lemma still_same v abi : flags_ok v -> (ms_ship_abi v = abi \/ is_some abi = true) ->
  still v false (mkMs abi (ms_abi_ready v) (ms_status_in_flight v) (ms_sent_v1 v) (ms_saw_status v)
             (ms_abi_deadline v) (ms_status_deadline v) (ms_next_status_at v)).
Proof.
  intros [Hf1 Hf2] Ha. split_and!; [split; cbn; [done|]|unfold silent_until; cbn; lia|unfold slack; cbn; lia].
  intros Hr. destruct Ha as [<-|Ha]; auto.
Qed.

Lemma message_still now ok m v request db :
  flags_ok v -> is_status (MeMessage m) = false -> now <= wake_at v -> step_still v false (on_message now ok m v request db).
Proof.
  intros Hf Hst Hn. pose proof Hf as [Hf1 Hf2]. unfold on_message, handle_monitoring_msg.
  destruct m as [text|b| |]; [| |apply drop_still|by apply still_same; auto].
  - destruct (is_some (ms_ship_abi v)) eqn:Es; [by apply still_same; auto|].
    destruct (accept_upstream_abi _ _); [|apply drop_still].
    assert (ms_abi_ready v = false) as Er by (destruct (ms_abi_ready v); [specialize (Hf2 eq_refl); congruence|done]).
    assert (ms_status_in_flight v = false) as Ei by (destruct (ms_status_in_flight v); [specialize (Hf1 eq_refl); congruence|done]).
    apply send_still; [split; cbn; auto|done|unfold slack; by rewrite Ei|].
    unfold silent_until, wake_at in *. rewrite Ei, Er in *. lia.
  - unfold apply_status_update. cbn [is_status] in Hst.
    destruct (decode_status_frame b) as [[[variant [f|]]|]|e]; try done; by apply still_same; auto.
Qed.

Lemma timer_still now ok v request db :
  flags_ok v -> now <= wake_at v -> step_still v true (on_session_timer now ok v request db).
Proof.
  intros Hf Hn. unfold on_session_timer. destruct (_ || _) eqn:E; [apply drop_still|].
  apply orb_false_elim in E as [Er Ei]. apply negb_false_iff in Er.
  apply send_still; [done|done|unfold slack; by rewrite Ei|].
  unfold silent_until, wake_at in *. rewrite Ei, Er in *. lia.
Qed.

(** Where a silent run has come to. *)
Definition silent_inv (v0 : MonitorSession) (l : list Turn) (t : MonitorTask) (db : Db) : Prop :=
  match mt_phase t with
  | MpSession v => flags_ok v /\ silent_until v <= silent_until v0 /\ timers l + slack v <= slack v0
  | MpStopped => True
  | _ => online_at db = false
  end.

Lemma step_session_still now v0 l turn t v r t' db' fx' :
  flags_ok v /\ silent_until v <= silent_until v0 /\ timers l + slack v <= slack v0 ->
  step_still v (is_timer (tn_event turn)) r -> step_session now t r = (t', db', fx') ->
  silent_inv v0 (l ++ [turn]) t' db'.
Proof.
  intros (Hf & Hb & Hl) Hr. unfold silent_inv.
  destruct r as [[[v' request|[[un saw]|] request] db] fx]; cbn [step_session step_still after_session] in *.
  - intros [= <- <- <-]. cbn -[timers]. destruct Hr as (Hf' & Hb' & Hl'). rewrite timers_snoc. split_and!; [done|lia|lia].
  - destruct Hr as [_ Hr]. intros He. assert (online_at db' = false /\ exists a, mt_phase t' = MpReconnect a) as [Ho [a ->]]; [|done].
    destruct (_ && _); [destruct (_ <=? _)|destruct saw]; simplify_eq; rewrite ?online_v0; eauto.
  - by destruct Hr.
Qed.

Lemma event_still v0 l turn t db db1 t' db' fx' :
  silent_inv v0 l t db -> others db db1 -> silent_turn t turn ->
  monitor_event (tn_now turn) (tn_ok turn) (tn_event turn) t db1 = (t', db', fx') ->
  silent_inv v0 (l ++ [turn]) t' db'.
Proof.
  intros Hi Ho (Hst & Hc & Hn). unfold monitor_event.
  assert (online_at db = false -> online_at db1 = false) as Ho'.
  { intros Hoff. destruct (online_at db1) eqn:E; [by rewrite (Ho E) in Hoff|done]. }
  unfold silent_inv in Hi. destruct (tn_event turn) as [| | |m| | |] eqn:Eev, (mt_phase t) as [d r|f d r|v|a|] eqn:Ep; try done;
    try (refine (step_session_still _ _ _ _ _ v _ _ _ _ Hi _); rewrite Eev;
         first [apply message_still; [apply Hi|done|done]|apply timer_still; [apply Hi|done]|apply drop_still]).
  all: try (unfold connect_failed; cbn; intros [= <- <- <-]; unfold silent_inv; cbn -[timers]; rewrite ?Ep; auto using online_marked).
  all: destruct Hi as (Hf & Hb & Hl); rewrite timers_snoc, Eev; cbn; split_and!; [done|done|lia].
Qed.

(** C27: A session from which no status comes any more (other frames may): it waits for a
    timer that is due at [silent_until] at the latest, at most one timer having
    fired since; or it was dropped and the upstream is offline; or the monitor was
    stopped. *)
Theorem silent_session_dropped (t0 : MonitorTask) (v0 : MonitorSession) (db0 : Db) (l : list Turn)
    (t : MonitorTask) (db : Db) :
  mt_phase t0 = MpSession v0 -> flags_ok v0 -> silently t0 db0 l t db ->
  mt_phase t = MpStopped
  \/ (exists v, mt_phase t = MpSession v /\ wake_at v <= silent_until v0 /\ timers l <= slack v0)
  \/ ((forall v, mt_phase t <> MpSession v) /\ online_at db = false).
Proof.
  intros H0 Hf Hs.
  assert (silent_inv v0 l t db) as Hi.
  { induction Hs as [|l t db db1 turn t' db' fx' Hs IH Ho Ht He]; [|by eapply event_still].
    unfold silent_inv. rewrite H0. split_and!; [done|done|]. unfold timers. cbn. lia. }
  unfold silent_inv in Hi. destruct (mt_phase t) as [| |v| |]; try (right; right; split; [intros v'|]; done); [|by left].
  right; left. destruct Hi as (Hfv & Hb & Hl). exists v. split_and!; [done|pose proof (wake_before v Hfv); lia|].
  unfold slack in *. destruct (ms_status_in_flight v); lia.
Qed.
End silent.

(** *** Publication *)

(** A map without the field no view shows. *)
Definition shown (db : Db) : Db := set_status_head_reference None <$> db.

Definition published (db : Db) (fx : list MonitorEffect) : Db :=
  foldl (fun last e => match e with FxPublish p => p | FxSend _ => last end) db fx.

Lemma published_app db fx fx' : published db (fx ++ fx') = published (published db fx) fx'.
Proof. apply foldl_app. Qed.

Lemma shown_captured db : shown (capture_head_reference endpoint db) = shown db.
Proof.
  unfold shown, capture_head_reference. apply map_eq. intros k. rewrite !lookup_fmap.
  destruct (decide (endpoint = k)) as [->|Hne]; [rewrite lookup_alter_eq|by rewrite lookup_alter_ne].
  by destruct (db !! k).
Qed.

Lemma shown_view ctx ep s : upstream_view ctx ep (set_status_head_reference None s) = upstream_view ctx ep s.
Proof. reflexivity. Qed.

Definition step_published (db0 : Db) (r : SessionStep * Db * list MonitorEffect) : Prop :=
  shown r.1.2 = shown (published db0 r.2).

Lemma drop_published db0 now v request db fx : step_published db0 (drop_session now v request db fx).
Proof. unfold step_published. cbn. by rewrite published_app. Qed.

Lemma send_published db0 now ok v request db fx :
  shown db = shown (published db0 fx) -> step_published db0 (send_and_wait now ok v request db fx).
Proof.
  intros Hd. unfold send_and_wait. destruct ok; [|apply drop_published].
  unfold step_published. cbn -[published]. by rewrite published_app, shown_captured.
Qed.

Lemma message_published now ok m v request db : step_published db (on_message now ok m v request db).
Proof.
  unfold on_message, handle_monitoring_msg. destruct m as [text|b| |]; [| |apply drop_published|done].
  - destruct (is_some _); [done|]. destruct (accept_upstream_abi _ _); [|apply drop_published].
    by apply send_published.
  - unfold apply_status_update. by destruct (decode_status_frame b) as [[[variant [f|]]|]|e].
Qed.

Lemma step_session_published db0 now t r t' db' fx' :
  step_published db0 r -> step_session now t r = (t', db', fx') -> shown db' = shown (published db0 fx').
Proof.
  unfold step_published. destruct r as [[[v request|[[un saw]|] request] db] fx]; cbn [step_session after_session fst snd]; intros Hr He.
  - by simplify_eq.
  - destruct (_ && _); [destruct (_ <=? _)|destruct saw]; simplify_eq; try done. by rewrite published_app.
  - by simplify_eq.
Qed.

(** Every change an event makes to the map is published, but for the head its next
    reply is compared with, which no view shows: up to that field the map is the one
    published last, or unchanged when none was. *)
Theorem changes_published (now : Z) (ok : bool) (ev : MonitorEvent) (t t' : MonitorTask) (db db' : Db)
    (fx : list MonitorEffect) :
  monitor_event now ok ev t db = (t', db', fx) ->
  shown db' = shown (published db fx)
  /\ (forall ctx k, upstream_view ctx k <$> db' !! k = upstream_view ctx k <$> published db fx !! k).
Proof.
  intros He. assert (shown db' = shown (published db fx)) as Hs.
  { revert He. unfold monitor_event. destruct ev, (mt_phase t); try (by intros [= <- <- <-]);
      try (apply step_session_published; first [apply message_published|apply drop_published|idtac]).
    all: try (unfold connect_failed; cbn; by intros [= <- <- <-]).
    unfold on_session_timer. destruct (_ || _); [apply drop_published|by apply send_published]. }
  split; [done|]. intros ctx k. pose proof (f_equal (fun m : Db => upstream_view ctx k <$> m !! k) Hs) as Hk.
  cbn in Hk. unfold shown in Hk. rewrite !lookup_fmap, <- !option_fmap_compose in Hk. exact Hk.
Qed.

(** *** Probes and pauses *)

Definition known_request (r : Z) : Prop := r = STATUS_REQUEST_V0 \/ r = STATUS_REQUEST_V1.

(** Version 1 is asked only while fewer than two sessions left it unanswered, or
    in a session that saw a status. *)
Definition probes_ok (request unanswered : Z) (saw : bool) : Prop :=
  known_request request /\ 0 <= unanswered
  /\ (request = STATUS_REQUEST_V1 -> unanswered < STATUS_V1_MISS_LIMIT \/ saw = true).

Definition sent_known (fx : list MonitorEffect) : Prop :=
  Forall (fun e => match e with FxSend r => known_request r | FxPublish _ => True end) fx.

Definition bounded (t : MonitorTask) : Prop :=
  probes_ok (mt_status_request t) (mt_unanswered_v1 t) (answering (mt_phase t))
  /\ match mt_phase t with MpPause _ delay _ => delay <= from_millis MAX_BACKOFF_MS | _ => True end.

Definition step_bounded (unanswered : Z) (r : SessionStep * Db * list MonitorEffect) : Prop :=
  sent_known r.2
  /\ match r.1.1 with
     | SsGo v request => probes_ok request unanswered (ms_saw_status v)
     | SsEnd (Some (un, saw)) request => probes_ok request unanswered saw
     | SsEnd None request => probes_ok request unanswered true
     end.

Lemma drop_bounded unanswered now v request db fx :
  sent_known fx -> probes_ok request unanswered (ms_saw_status v) -> step_bounded unanswered (drop_session now v request db fx).
Proof. intros Hfx Hp. split; [|done]. apply Forall_app. split; [done|by repeat constructor]. Qed.

Lemma send_bounded unanswered now ok v request db fx :
  sent_known fx -> probes_ok request unanswered (ms_saw_status v) -> step_bounded unanswered (send_and_wait now ok v request db fx).
Proof.
  intros Hfx Hp. unfold send_and_wait. destruct ok; [|by apply drop_bounded].
  split; [|done]. apply Forall_app. split; [done|]. constructor; [apply Hp|constructor].
Qed.

Lemma message_bounded unanswered now ok m v request db :
  probes_ok request unanswered (ms_saw_status v) -> step_bounded unanswered (on_message now ok m v request db).
Proof.
  intros Hp. unfold on_message, handle_monitoring_msg. destruct m as [text|b| |].
  - destruct (is_some _); [by split; [constructor|]|]. destruct (accept_upstream_abi _ _).
    + apply send_bounded; [by repeat constructor|done].
    + by apply drop_bounded; [constructor|].
  - destruct Hp as (Hk & Hu & Hp).
    unfold apply_status_update. destruct (decode_status_frame b) as [[[variant [f|]]|]|e];
      (split; [by repeat constructor|cbn -[STATUS_REQUEST_V0 STATUS_REQUEST_V1]]).
    3,4: done.
    all: unfold probes_ok, known_request; destruct (variant =? 0); auto.
  - by apply drop_bounded; [constructor|].
  - by split; [constructor|].
Qed.

Lemma step_session_bounded now t r t' db' fx' :
  step_bounded (mt_unanswered_v1 t) r -> step_session now t r = (t', db', fx') -> bounded t' /\ sent_known fx'.
Proof.
  destruct r as [[[v request|[[un saw]|] request] db] fx]; cbn [step_session after_session]; intros [Hfx Hp] He; cbn [fst snd] in *.
  - by simplify_eq.
  - destruct Hp as (Hk & Hu & Hp).
    assert (0 <= sat_add u32_max (mt_unanswered_v1 t) 1) as Hsat by (unfold sat_add, u32_max; lia).
    destruct (_ && _) eqn:Eb; [destruct (Z.leb_spec STATUS_V1_MISS_LIMIT (sat_add u32_max (mt_unanswered_v1 t) 1))|destruct saw]; simplify_eq.
    + split; [|apply Forall_app; split; [done|by repeat constructor]]. split; [|done].
      split_and!; [by left|done|intros Hr; discriminate Hr].
    + split; [|done]. split; [|done]. split_and!; [done|done|by left].
    + split; [|done]. split; [|done]. split_and!; [done|done|by left].
    + split; [|done]. split; [|done]. split_and!; [done|done|]. intros Hr. destruct (Hp Hr); [by left|done].
  - by simplify_eq.
Qed.

Lemma fail_bounded now reached t db :
  probes_ok (mt_status_request t) (mt_unanswered_v1 t) false ->
  bounded (connect_failed now reached t db).1.1 /\ sent_known (connect_failed now reached t db).2.
Proof.
  intros Hp. unfold connect_failed. cbn -[Z.mul Z.min MAX_BACKOFF_MS from_millis]. split; [|by repeat constructor].
  split; [done|]. cbn -[Z.mul Z.min MAX_BACKOFF_MS from_millis]. unfold from_millis. lia.
Qed.

Lemma event_bounded now ok ev t db t' db' fx' :
  bounded t -> monitor_event now ok ev t db = (t', db', fx') -> bounded t' /\ sent_known fx'.
Proof.
  intros Hb. pose proof Hb as [(Hk & Hu & Hp) Hd]. unfold monitor_event.
  assert (probes_ok (mt_status_request t) (mt_unanswered_v1 t) true) as Ht by (split_and!; auto).
  destruct ev as [| | |m| | |], (mt_phase t) as [d r|f d r|v|a|] eqn:Ep; cbn [answering] in Hp;
    try (intros [= <- <- <-]; split; [first [exact Hb|by split; [split_and!|]]|by constructor]).
  all: try (apply step_session_bounded; first [by apply message_bounded|by apply drop_bounded; [constructor|]|idtac]).
  all: try (intros He; pose proof (fail_bounded now r t db) as Hf; rewrite He in Hf; by apply Hf).
  all: try (cbn [after_session]; intros [= <- <- <-]; by split; [split|constructor]).
  unfold on_session_timer. destruct (_ || _); [apply drop_bounded|apply send_bounded]; try constructor; done.
Qed.

(** A monitor asks with version 0 or 1 only, with version 1 only while fewer than
    two sessions left it unanswered or the session saw a status; and a pause after a
    failed connect ends within 30 seconds, within the base interval once a session
    has reached the upstream. *)
Theorem probing_bounded (start : Z) (db0 : Db) (l : list Turn) (t : MonitorTask) (db : Db) (fx : list MonitorEffect) :
  played (new_task start) db0 l t db fx ->
  sent_known fx /\ probes_ok (mt_status_request t) (mt_unanswered_v1 t) (answering (mt_phase t))
  /\ (forall failed delay reached, mt_phase t = MpPause failed delay reached ->
       pause_until failed delay reached <= failed + from_millis MAX_BACKOFF_MS
       /\ (reached = true -> pause_until failed delay reached <= failed + from_millis (sf_upstream_reconnect_ms config))).
Proof.
  intros Hp. assert (bounded t /\ sent_known fx) as [[Hb Hd] Hs].
  { induction Hp as [|l t db fx db1 turn t' db' fx' Hp IH Ho He].
    - split; [|by constructor]. split; [|done]. split_and!; [by right|done|]. intros _. left. done.
    - destruct IH as [Hb Hs]. destruct (event_bounded _ _ _ _ _ _ _ _ Hb He) as [Hb' Hs'].
      split; [done|]. by apply Forall_app. }
  split_and!; [done|done|]. intros failed delay reached Hph. rewrite Hph in Hd.
  unfold pause_until. destruct reached; split; intros; lia.
Qed.
End monitor.

(** ** The progress loop *)

(** One interval of [state_monitoring_loop]: the tracker, the map and what is
    published. *)
Definition state_monitoring_interval (tr : ProgressTracker) (db : Db)
  : ProgressTracker * Db * list MonitorEffect :=
  let '(tr, db, _) := tick tr db in (tr, db, [FxPublish db]).

(** ** Witnesses *)

Definition loop_config : StaticConfig := mkStaticConfig 1000 5000 2000 3000 1048576.
Definition loop_endpoint : string := "10.0.0.1:8080".
Definition loop_event := @monitor_event map_to_list abi_env_ex json_ex (fun _ => true) loop_endpoint loop_config.
Definition loop_start : MonitorTask := new_task loop_config 0.

Fixpoint loop_run (l : list Turn) (t : MonitorTask) (db : Db) : MonitorTask * Db * list MonitorEffect :=
  match l with
  | [] => (t, db, [])
  | turn :: l =>
      let '(t, db, fx) := loop_event (tn_now turn) (tn_ok turn) (tn_event turn) t db in
      let '(t, db, fx') := loop_run l t db in (t, db, fx ++ fx')
  end.

Lemma loop_played t0 db0 l0 t db fx0 l :
  @played map_to_list abi_env_ex json_ex (fun _ => true) loop_endpoint loop_config t0 db0 l0 t db fx0 ->
  let '(t', db', fx) := loop_run l t db in
  @played map_to_list abi_env_ex json_ex (fun _ => true) loop_endpoint loop_config t0 db0 (l0 ++ l) t' db' (fx0 ++ fx).
Proof.
  revert l0 t db fx0. induction l as [|turn l IH]; intros l0 t db fx0 Hp; cbn [loop_run].
  - by rewrite !app_nil_r.
  - destruct (loop_event _ _ _ t db) as [[t1 db1] fx1] eqn:E.
    specialize (IH (l0 ++ [turn]) t1 db1 (fx0 ++ fx1)).
    destruct (loop_run l t1 db1) as [[t2 db2] fx2]. rewrite <- !app_assoc in IH. cbn in IH. apply IH.
    eapply played_snoc; [exact Hp| |exact E]. by unfold others.
Qed.

(** A connect that fails, a session that is told of it, a connect, the ABI, a
    status. *)
Definition loop_turns : list Turn :=
  [ mkTurn 1 true MeConnectFailed; mkTurn 2 true MeReachable; mkTurn 1000000001 true MeTimer;
    mkTurn 1000000002 true MeConnected; mkTurn 1000000003 true (MeMessage (MmText "vx"));
    mkTurn 1000000004 true (MeMessage (MmBinary (encode_status true sample_body))) ].

Definition loop_after (n : nat) : MonitorTask * Db * list MonitorEffect := loop_run (take n loop_turns) loop_start sample_db.

Lemma loop_after_played n :
  @played map_to_list abi_env_ex json_ex (fun _ => true) loop_endpoint loop_config loop_start sample_db
    (take n loop_turns) (loop_after n).1.1 (loop_after n).1.2 (loop_after n).2.
Proof.
  pose proof (loop_played loop_start sample_db [] loop_start sample_db [] (take n loop_turns) (played_nil _ _ _ _ _ _ _)) as H.
  unfold loop_after. by destruct (loop_run _ _ _) as [[t db] fx].
Qed.

(** The states of the run, as the flags the witnesses need. *)
Definition phase_is_session (p : MonitorPhase) : bool := match p with MpSession _ => true | _ => false end.

Lemma session_of p : phase_is_session p = true -> exists v, p = MpSession v.
Proof. destruct p; try done. eauto. Qed.

Lemma online_means_answered_witness :
  phase_is_session (mt_phase (loop_after 6).1.1) = true
  /\ (mt_phase (loop_after 6).1.1 = MpStopped
      \/ (exists v, mt_phase (loop_after 6).1.1 = MpSession v /\ ms_saw_status v = true)
      \/ online_at loop_endpoint sample_db = true /\ unanswered (mt_phase (loop_after 6).1.1) = true
         /\ shows_online loop_endpoint (loop_after 6).2).
Proof.
  split; [vm_compute; reflexivity|].
  assert (is_some ((loop_after 6).1.2 !! loop_endpoint) = true) as Hs by (vm_compute; reflexivity).
  assert (online_at loop_endpoint (loop_after 6).1.2 = true) as Ho by (vm_compute; reflexivity).
  unfold online_at in Ho. destruct (is_some_ex _ Hs) as [s Es]. rewrite Es in Ho.
  exact (online_means_answered map_to_list (H := abi_env_ex) json_ex (fun _ => true) loop_endpoint loop_config 0 sample_db
    _ _ _ _ s (loop_after_played 6) Es Ho).
Defined.

Lemma probing_bounded_witness :
  sent_known (loop_after 2).2
  /\ exists failed delay, mt_phase (loop_after 2).1.1 = MpPause failed delay true
       /\ pause_until loop_config failed delay true <= failed + from_millis 1000.
Proof.
  destruct (probing_bounded map_to_list (H := abi_env_ex) json_ex (fun _ => true) loop_endpoint loop_config 0 sample_db
    _ _ _ _ (loop_after_played 2)) as (Hs & _ & Hp).
  split; [exact Hs|]. exists 1, (from_millis 1000).
  split; [reflexivity|]. by apply (Hp 1 (from_millis 1000) true).
Defined.

Lemma changes_published_witness :
  shown (loop_after 1).1.2 = shown (published sample_db (loop_after 1).2).
Proof.
  apply (changes_published map_to_list (H := abi_env_ex) json_ex (fun _ => true) loop_endpoint loop_config 1 true MeConnectFailed
    loop_start (loop_after 1).1.1 sample_db (loop_after 1).1.2 (loop_after 1).2).
  unfold loop_after. cbn [take loop_turns loop_run tn_now tn_ok tn_event].
  fold loop_event. by destruct (loop_event _ _ _ _ _) as [[t db] fx]; cbn; rewrite app_nil_r.
Defined.

(** A session that just connected. *)
Definition loop_fresh : MonitorTask := mkMt 0 0 STATUS_REQUEST_V1 (MpSession (session_start loop_config 5)).
Definition loop_frames : list Turn :=
  [mkTurn 6 true (MeMessage (MmText "vx")); mkTurn 7 true (MeMessage (MmBinary (encode_status true sample_body)))].

Lemma one_request_in_flight_witness :
  sends (loop_run loop_frames loop_fresh sample_db).2 = 1
  /\ sends (loop_run loop_frames loop_fresh sample_db).2 <= replies loop_frames + 1.
Proof.
  split; [vm_compute; reflexivity|].
  pose proof (loop_played loop_fresh sample_db [] loop_fresh sample_db [] loop_frames (played_nil _ _ _ _ _ _ _)) as Hp.
  destruct (loop_run loop_frames loop_fresh sample_db) as [[t db] fx].
  exact (proj1 (one_request_in_flight map_to_list (H := abi_env_ex) json_ex (fun _ => true) loop_endpoint loop_config 5
    loop_fresh sample_db _ t db fx eq_refl Hp ltac:(by repeat constructor))).
Defined.

(** The ABI comes, the first timer is the reply that never did. *)
Definition loop_silence : list Turn := [mkTurn 6 true (MeMessage (MmText "vx"))].

Lemma silent_session_dropped_witness :
  exists v, mt_phase (loop_run loop_silence loop_fresh sample_db).1.1 = MpSession v
    /\ wake_at v <= 5 + from_millis 3000 + from_millis 2000.
Proof.
  destruct (loop_event 6 true (MeMessage (MmText "vx")) loop_fresh sample_db) as [[t db] fx] eqn:E.
  assert (phase_is_session (mt_phase t) = true) as Ht by (change t with (t, db, fx).1.1; rewrite <- E; vm_compute; reflexivity).
  cbn [loop_run loop_silence tn_now tn_ok tn_event]. rewrite E. cbn [fst].
  destruct (silent_session_dropped map_to_list (H := abi_env_ex) json_ex (fun _ => true) loop_endpoint loop_config
    ltac:(by cbn) loop_fresh (session_start loop_config 5) sample_db ([] ++ loop_silence) t db eq_refl ltac:(by split)) as [Hx|[Hx|[Hx _]]].
  - eapply silently_snoc; [apply silently_nil| | |exact E]; [done|]. split_and!; [done|done|]. by vm_compute.
  - by rewrite Hx in Ht.
  - destruct Hx as (v & Hv & Hw & _). exists v. split; [exact Hv|exact Hw].
  - destruct (session_of _ Ht) as [v Hv]. by destruct (Hx v).
Defined.
