(* ===== verification/Telemetry.v ===== *)
(** * Telemetry

    Models [src/src/telemetry.rs]: the event log, the history of samples, the
    registry of active sessions and the lifecycle counter that tells a reader
    whether what it read belongs together.

    A lifecycle change is three steps of the process, [begin_change], the change and
    the drop of its guard, and the steps of different changes interleave; counters of
    forwarded frames and requests to a session change without one.

    The theorems: the log holds the newest events, numbered in order; and a capture
    completes only if nothing but quick changes happened since its version was taken,
    so that what it read of a session differs from the start by the frames counted
    since and nothing else. *)

From S2P Require Import Prelude.

Definition MAX_EVENTS : Z := 500.
Definition HISTORY_SAMPLES : Z := 900.
Definition NO_BLOCK : Z := u64_max.

Inductive Level := LvInfo | LvWarn | LvError.

Inductive EventKind :=
| EkStarted
| EkUpstreamUp
| EkUpstreamDown
| EkUpstreamStale
| EkUpstreamFresh
| EkUpstreamQuarantined
| EkSessionFailover
| EkSessionFailed
| EkControl.

Record LogEvent := mkLogEvent {
  ev_id : Z;
  ev_t_ms : Z;
  ev_level : Level;
  ev_kind : EventKind;
  ev_listener : option string;
  ev_upstream : option string;
  ev_session : option Z;
  ev_message : string;
}.

Definition event_new (level : Level) (kind : EventKind) (message : string) : LogEvent :=
  mkLogEvent 0 0 level kind None None None message.
Definition event_listener (name : string) (e : LogEvent) : LogEvent :=
  mkLogEvent (ev_id e) (ev_t_ms e) (ev_level e) (ev_kind e) (Some name) (ev_upstream e) (ev_session e) (ev_message e).
Definition event_upstream (endpoint : string) (e : LogEvent) : LogEvent :=
  mkLogEvent (ev_id e) (ev_t_ms e) (ev_level e) (ev_kind e) (ev_listener e) (Some endpoint) (ev_session e) (ev_message e).
Definition event_session (id : Z) (e : LogEvent) : LogEvent :=
  mkLogEvent (ev_id e) (ev_t_ms e) (ev_level e) (ev_kind e) (ev_listener e) (ev_upstream e) (Some id) (ev_message e).

Record UpstreamSample := mkUpstreamSample {
  us_sessions : Z;
  us_head_block : option Z;
  us_blocks_total : Z;
  us_bytes_total : Z;
  us_status : string;
}.

Record Sample := mkSample { sa_t_ms : Z; sa_upstreams : gmap string UpstreamSample }.

(** ** Sessions *)

(** The atomics as integers of their width; [si_control]: a stored wake-up. *)
Record SessionInfo := mkInfo {
  si_id : Z;
  si_listener : string;
  si_config_generation : Z;
  si_client : string;
  si_started_ms : Z;
  si_upstream : string;
  si_start_block : Z;
  si_last_block : Z;
  si_next_block : Z;
  si_finality : bool;
  si_blocks : Z;
  si_bytes : Z;
  si_failovers : Z;
  si_move_requested : bool;
  si_close_requested : bool;
  si_control : bool;
}.

(** [SessionInfo::block]. *)
Definition info_block (value : Z) : option Z :=
  if value =? NO_BLOCK then None else if value <=? u32_max then Some value else None.

Definition info_start_block (s : SessionInfo) : option Z := info_block (si_start_block s).
Definition info_last_block (s : SessionInfo) : option Z := info_block (si_last_block s).
Definition info_next_block (s : SessionInfo) : option Z := info_block (si_next_block s).

Definition set_upstream (endpoint : string) (s : SessionInfo) : SessionInfo :=
  mkInfo (si_id s) (si_listener s) (si_config_generation s) (si_client s) (si_started_ms s) endpoint
    (si_start_block s) (si_last_block s) (si_next_block s) (si_finality s) (si_blocks s) (si_bytes s)
    (si_failovers s) (si_move_requested s) (si_close_requested s) (si_control s).

Definition note_request (start_block : Z) (finality : bool) (s : SessionInfo) : SessionInfo :=
  mkInfo (si_id s) (si_listener s) (si_config_generation s) (si_client s) (si_started_ms s) (si_upstream s)
    start_block (si_last_block s) start_block finality (si_blocks s) (si_bytes s)
    (si_failovers s) (si_move_requested s) (si_close_requested s) (si_control s).

Definition note_delivered (bytes : Z) (block : option Z) (s : SessionInfo) : SessionInfo :=
  let total := (si_bytes s + bytes) mod 2 ^ 64 in
  match block with
  | None =>
      mkInfo (si_id s) (si_listener s) (si_config_generation s) (si_client s) (si_started_ms s) (si_upstream s)
        (si_start_block s) (si_last_block s) (si_next_block s) (si_finality s) (si_blocks s) total
        (si_failovers s) (si_move_requested s) (si_close_requested s) (si_control s)
  | Some b =>
      mkInfo (si_id s) (si_listener s) (si_config_generation s) (si_client s) (si_started_ms s) (si_upstream s)
        (si_start_block s) b (sat_add u32_max b 1) (si_finality s) ((si_blocks s + 1) mod 2 ^ 64) total
        (si_failovers s) (si_move_requested s) (si_close_requested s) (si_control s)
  end.

Definition note_failover (s : SessionInfo) : SessionInfo :=
  mkInfo (si_id s) (si_listener s) (si_config_generation s) (si_client s) (si_started_ms s) (si_upstream s)
    (si_start_block s) (si_last_block s) (si_next_block s) (si_finality s) (si_blocks s) (si_bytes s)
    ((si_failovers s + 1) mod 2 ^ 32) (si_move_requested s) (si_close_requested s) (si_control s).

Definition set_controls (move close control : bool) (s : SessionInfo) : SessionInfo :=
  mkInfo (si_id s) (si_listener s) (si_config_generation s) (si_client s) (si_started_ms s) (si_upstream s)
    (si_start_block s) (si_last_block s) (si_next_block s) (si_finality s) (si_blocks s) (si_bytes s)
    (si_failovers s) move close control.

Definition request_move (s : SessionInfo) : SessionInfo := set_controls true (si_close_requested s) true s.
Definition request_close (s : SessionInfo) : SessionInfo := set_controls (si_move_requested s) true true s.
Definition take_move_request (s : SessionInfo) : bool * SessionInfo :=
  (si_move_requested s, set_controls false (si_close_requested s) (si_control s) s).

(** ** The store *)

Record Lifecycle := mkLifecycle { lc_generation : Z; lc_writers : Z }.

(** [tl_sent]: the events sent to the live streams; [tl_changed]: a stored wake-up
    of the publisher. *)
Record Telemetry := mkTelemetry {
  tl_started_ms : Z;
  tl_next_event_id : Z;
  tl_events : list LogEvent;
  tl_sent : list LogEvent;
  tl_history : list Sample;
  tl_next_session_id : Z;
  tl_sessions : gmap Z SessionInfo;
  tl_lifecycle : Lifecycle;
  tl_changed : bool;
}.

(** [global] at its first use. *)
Definition telemetry_new (now_ms : Z) : Telemetry := mkTelemetry now_ms 1 [] [] [] 1 ∅ (mkLifecycle 0 0) false.

Definition set_lifecycle (l : Lifecycle) (changed : bool) (t : Telemetry) : Telemetry :=
  mkTelemetry (tl_started_ms t) (tl_next_event_id t) (tl_events t) (tl_sent t) (tl_history t)
    (tl_next_session_id t) (tl_sessions t) l changed.
Definition set_sessions (next : Z) (sessions : gmap Z SessionInfo) (t : Telemetry) : Telemetry :=
  mkTelemetry (tl_started_ms t) (tl_next_event_id t) (tl_events t) (tl_sent t) (tl_history t)
    next sessions (tl_lifecycle t) (tl_changed t).

Definition begin_change (t : Telemetry) : Telemetry :=
  let l := tl_lifecycle t in
  set_lifecycle (mkLifecycle ((lc_generation l + 1) mod 2 ^ 64) (lc_writers l + 1)) (tl_changed t) t.

(** The drop of a [LifecycleChange]. *)
Definition end_change (t : Telemetry) : Telemetry :=
  let l := tl_lifecycle t in
  let writers := lc_writers l - 1 in
  set_lifecycle (mkLifecycle ((lc_generation l + 1) mod 2 ^ 64) writers)
    (if writers =? 0 then true else tl_changed t) t.

Definition capture_version (t : Telemetry) : option Z :=
  if lc_writers (tl_lifecycle t) =? 0 then Some (lc_generation (tl_lifecycle t)) else None.

(** A [VecDeque] kept at [max] entries. *)
Definition push_ring {A} (max : Z) (x : A) (l : list A) : list A :=
  (if zlen l =? max then tail l else l) ++ [x].

Definition append_event (now_ms : Z) (e : LogEvent) (t : Telemetry) : LogEvent * Telemetry :=
  let e := mkLogEvent (tl_next_event_id t) now_ms (ev_level e) (ev_kind e) (ev_listener e) (ev_upstream e)
             (ev_session e) (ev_message e) in
  (e, mkTelemetry (tl_started_ms t) ((tl_next_event_id t + 1) mod 2 ^ 64) (push_ring MAX_EVENTS e (tl_events t))
        (tl_sent t) (tl_history t) (tl_next_session_id t) (tl_sessions t) (tl_lifecycle t) (tl_changed t)).

Definition send_event (e : LogEvent) (t : Telemetry) : Telemetry :=
  mkTelemetry (tl_started_ms t) (tl_next_event_id t) (tl_events t) (tl_sent t ++ [e]) (tl_history t)
    (tl_next_session_id t) (tl_sessions t) (tl_lifecycle t) (tl_changed t).

(** The body of [emit]. *)
Definition emit_body (now_ms : Z) (e : LogEvent) (t : Telemetry) : Telemetry :=
  let '(e, t) := append_event now_ms e t in send_event e t.

Definition events_after (after : Z) (t : Telemetry) : list LogEvent :=
  List.filter (fun e => after <? ev_id e) (tl_events t).

Definition capture_events (now_ms generation after : Z) (transitions : list LogEvent) (t : Telemetry)
  : option (list LogEvent) * Telemetry :=
  let l := tl_lifecycle t in
  if negb (lc_writers l =? 0) || negb (lc_generation l =? generation) then (None, t)
  else
    let t := foldl (fun t e => emit_body now_ms e t) t transitions in
    (Some (events_after after t), t).

Definition record_sample (s : Sample) (t : Telemetry) : Telemetry :=
  mkTelemetry (tl_started_ms t) (tl_next_event_id t) (tl_events t) (tl_sent t) (push_ring HISTORY_SAMPLES s (tl_history t))
    (tl_next_session_id t) (tl_sessions t) (tl_lifecycle t) (tl_changed t).

(** The body of [register_generation]. *)
Definition register_body (now_ms : Z) (listener client upstream : string) (config_generation : Z) (t : Telemetry)
  : Telemetry :=
  let id := tl_next_session_id t in
  set_sessions ((id + 1) mod 2 ^ 64)
    (<[id := mkInfo id listener config_generation client now_ms upstream NO_BLOCK NO_BLOCK NO_BLOCK false 0 0 0
               false false false]> (tl_sessions t)) t.

Definition session_info (id : Z) (t : Telemetry) : option SessionInfo := tl_sessions t !! id.

(** Active sessions, oldest first. *)
Definition active_sessions (t : Telemetry) : list SessionInfo :=
  sort_by (on si_id Z.compare) (snd <$> map_to_list (tl_sessions t)).

Definition on_session (f : SessionInfo -> SessionInfo) (id : Z) (t : Telemetry) : Telemetry :=
  set_sessions (tl_next_session_id t) (alter f id (tl_sessions t)) t.

(** ** The process *)

(** The changes made under a guard. *)
Inductive LifeChange :=
| ChUpstream (id : Z) (endpoint : string)
| ChRequest (id start_block : Z) (finality : bool)
| ChFailover (id : Z)
| ChRegister (now_ms : Z) (listener client upstream : string) (config_generation : Z)
| ChDrop (id : Z)
| ChEmit (now_ms : Z) (e : LogEvent).

Definition apply_change (c : LifeChange) (t : Telemetry) : Telemetry :=
  match c with
  | ChUpstream id endpoint => on_session (set_upstream endpoint) id t
  | ChRequest id start_block finality => on_session (note_request start_block finality) id t
  | ChFailover id => on_session note_failover id t
  | ChRegister now_ms listener client upstream gen => register_body now_ms listener client upstream gen t
  | ChDrop id => set_sessions (tl_next_session_id t) (delete id (tl_sessions t)) t
  | ChEmit now_ms e => emit_body now_ms e t
  end.

(** What changes without a guard. *)
Inductive Quick :=
| QuFrame (id bytes : Z) (block : option Z)
| QuMove (id : Z)
| QuClose (id : Z)
| QuTakeMove (id : Z)
| QuSample (s : Sample).

Definition apply_quick (q : Quick) (t : Telemetry) : Telemetry :=
  match q with
  | QuFrame id bytes block => on_session (note_delivered bytes block) id t
  | QuMove id => on_session request_move id t
  | QuClose id => on_session request_close id t
  | QuTakeMove id => on_session (fun s => (take_move_request s).2) id t
  | QuSample s => record_sample s t
  end.

(** The store and the changes under way: still to be made, or made with the guard
    still held. *)
Record Shared := mkShared { sh_store : Telemetry; sh_open : list (option LifeChange) }.

Inductive Act := AcBegin (c : LifeChange) | AcChange (i : nat) | AcEnd (i : nat) | AcQuick (q : Quick).

Definition act_step (a : Act) (s : Shared) : option Shared :=
  match a with
  | AcBegin c => Some (mkShared (begin_change (sh_store s)) (sh_open s ++ [Some c]))
  | AcChange i =>
      match sh_open s !! i with
      | Some (Some c) => Some (mkShared (apply_change c (sh_store s)) (<[i := None]> (sh_open s)))
      | _ => None
      end
  | AcEnd i =>
      match sh_open s !! i with
      | Some None => Some (mkShared (end_change (sh_store s)) (delete i (sh_open s)))
      | _ => None
      end
  | AcQuick q => Some (mkShared (apply_quick q (sh_store s)) (sh_open s))
  end.

Fixpoint acts (l : list Act) (s : Shared) : option Shared :=
  match l with
  | [] => Some s
  | a :: l => match act_step a s with Some s => acts l s | None => None end
  end.

(** The stores of the process: changes interleave, and a reader may complete a
    capture at any point. *)
Inductive reached : Shared -> Prop :=
| reached_new now_ms : reached (mkShared (telemetry_new now_ms) [])
| reached_act a s s' : reached s -> act_step a s = Some s' -> reached s'
| reached_capture now_ms generation after transitions s :
    reached s -> reached (mkShared (capture_events now_ms generation after transitions (sh_store s)).2 (sh_open s)).

(** ** The log *)

(** The log against all events ever sent. *)
Record log_ok (t : Telemetry) : Prop := {
  lo_events : tl_events t = drop (length (tl_sent t) - Z.to_nat MAX_EVENTS) (tl_sent t);
  lo_next : tl_next_event_id t = (zlen (tl_sent t) + 1) mod 2 ^ 64;
  lo_ids : forall i e, tl_sent t !! i = Some e -> ev_id e = (Z.of_nat i + 1) mod 2 ^ 64;
}.

Lemma tail_drop {A} (k : nat) (l : list A) : tail (drop k l) = drop (S k) l.
Proof. revert k. induction l as [|x l IH]; intros [|k]; [done..|apply IH]. Qed.

Lemma push_ring_drop {A} (max : Z) (x : A) (l : list A) :
  0 < max -> push_ring max x (drop (length l - Z.to_nat max) l) = drop (length (l ++ [x]) - Z.to_nat max) (l ++ [x]).
Proof.
  intros Hm. unfold push_ring. rewrite length_app, length_drop. cbn [length].
  destruct (Z.eqb_spec (Z.of_nat (length l - (length l - Z.to_nat max))) max) as [E|E].
  - replace (length l + 1 - Z.to_nat max)%nat with (S (length l - Z.to_nat max)) by lia.
    rewrite drop_app_le by lia. f_equal. apply tail_drop.
  - replace (length l - Z.to_nat max)%nat with 0%nat by lia.
    by replace (length l + 1 - Z.to_nat max)%nat with 0%nat by lia.
Qed.

Lemma emit_log now_ms e t : log_ok t -> log_ok (emit_body now_ms e t).
Proof.
  intros [He Hn Hi]. unfold emit_body, append_event. constructor; cbn [tl_events tl_sent tl_next_event_id send_event].
  - rewrite He. by apply push_ring_drop.
  - rewrite Hn, length_app, Nat2Z.inj_add. cbn [length]. by rewrite Zplus_mod_idemp_l.
  - intros i e' Hlk. apply lookup_app_Some in Hlk as [Hlk|[Hle Hlk]]; [by apply Hi|].
    apply list_lookup_singleton_Some in Hlk as [Hz <-]. cbn. rewrite Hn. do 2 f_equal. lia.
Qed.

Lemma log_same t t' : tl_events t' = tl_events t -> tl_sent t' = tl_sent t -> tl_next_event_id t' = tl_next_event_id t ->
  log_ok t -> log_ok t'.
Proof. intros H1 H2 H3 [He Hn Hi]. constructor; rewrite ?H1, ?H2, ?H3; auto. Qed.

Lemma change_log c t : log_ok t -> log_ok (apply_change c t).
Proof. destruct c; cbn [apply_change]; try (by apply log_same). apply emit_log. Qed.

Lemma quick_log q t : log_ok t -> log_ok (apply_quick q t).
Proof. destruct q; by apply log_same. Qed.

Lemma emits_log now_ms es t : log_ok t -> log_ok (foldl (fun t e => emit_body now_ms e t) t es).
Proof. revert t. induction es as [|e es IH]; intros t Ht; cbn; [done|]. by apply IH, emit_log. Qed.

Lemma step_log a s s' : act_step a s = Some s' -> log_ok (sh_store s) -> log_ok (sh_store s').
Proof.
  destruct a as [c|i|i|q]; cbn; intros Hs Hl.
  - simplify_eq. by revert Hl; apply log_same.
  - destruct (sh_open s !! i) as [[c|]|]; simplify_eq. by apply change_log.
  - destruct (sh_open s !! i) as [[c|]|]; simplify_eq. by revert Hl; apply log_same.
  - simplify_eq. by apply quick_log.
Qed.

Lemma capture_log now_ms generation after transitions t :
  log_ok t -> log_ok (capture_events now_ms generation after transitions t).2.
Proof. intros Hl. unfold capture_events. destruct (_ || _); [done|]. by apply emits_log. Qed.

Lemma reached_log s : reached s -> log_ok (sh_store s).
Proof.
  induction 1 as [now_ms|a s s' Hr IH Hs|now_ms g a tr s Hr IH].
  - constructor; cbn; [done|done|]. intros i e Hlk. by rewrite lookup_nil in Hlk.
  - by eapply step_log.
  - by apply capture_log.
Qed.

(** Through any interleaving of changes and captures, the log holds the newest 500
    of the events sent to the live streams, in their order, and the n-th event has
    id n (the counter wraps at 2^64): a client that knows an event and asks for those
    after it gets every newer one that is still held. *)
Theorem log_exact (s : Shared) (after : Z) :
  reached s -> 0 <= after -> zlen (tl_sent (sh_store s)) < 2 ^ 64 - 1 ->
  let sent := tl_sent (sh_store s) in
  events_after after (sh_store s)
    = drop (Nat.max (Z.to_nat after) (length sent - Z.to_nat MAX_EVENTS)) sent
  /\ (forall i e, sent !! i = Some e -> ev_id e = Z.of_nat i + 1).
Proof.
  intros Hr Ha Hlt sent. pose proof (reached_log s Hr) as [He Hn Hi]. fold sent in He, Hn, Hi, Hlt.
  assert (forall i e, sent !! i = Some e -> ev_id e = Z.of_nat i + 1) as Hid.
  { intros i e Hlk. rewrite (Hi i e Hlk). apply lookup_lt_Some in Hlk. apply Z.mod_small. lia. }
  split; [|exact Hid]. unfold events_after. rewrite He. clear He Hn Hi Hlt Hr.
  generalize (length sent - Z.to_nat MAX_EVENTS)%nat as k. intros k. clearbody sent.
  assert (forall l j, (forall i e, l !! i = Some e -> ev_id e = Z.of_nat (j + i) + 1) ->
            List.filter (fun e => after <? ev_id e) l = drop (Z.to_nat after - j) l) as Hf.
  { clear sent Hid. induction l as [|e l IH]; intros j Hj; [by rewrite drop_nil|]. cbn.
    pose proof (Hj 0%nat e eq_refl) as Hj0. rewrite (IH (S j)).
    - destruct (Z.ltb_spec after (ev_id e)) as [Hlt|Hge].
      + replace (Z.to_nat after - S j)%nat with 0%nat by lia. by replace (Z.to_nat after - j)%nat with 0%nat by lia.
      + by replace (Z.to_nat after - j)%nat with (S (Z.to_nat after - S j)) by lia.
    - intros i e' Hlk. rewrite (Hj (S i) e' Hlk). lia. }
  rewrite (Hf _ k), drop_drop by (intros i e Hlk; rewrite lookup_drop in Hlk; by apply Hid). f_equal. lia.
Qed.

(** ** Captures *)

(** The writers are the guards held. *)
Definition guarded (s : Shared) : Prop :=
  lc_writers (tl_lifecycle (sh_store s)) = zlen (sh_open s) /\ is_u64 (lc_generation (tl_lifecycle (sh_store s))).

Lemma apply_change_lifecycle c t : tl_lifecycle (apply_change c t) = tl_lifecycle t.
Proof. by destruct c. Qed.
Lemma apply_quick_lifecycle q t : tl_lifecycle (apply_quick q t) = tl_lifecycle t.
Proof. by destruct q. Qed.
Lemma emits_lifecycle now_ms es t : tl_lifecycle (foldl (fun t e => emit_body now_ms e t) t es) = tl_lifecycle t.
Proof. revert t. induction es as [|e es IH]; intros t; cbn; [done|]. by rewrite IH. Qed.

Lemma wrapped_u64 z : is_u64 (z mod 2 ^ 64).
Proof. pose proof (Z.mod_pos_bound z (2 ^ 64)). unfold is_u64, u64_max. lia. Qed.

Lemma step_guarded a s s' : act_step a s = Some s' -> guarded s -> guarded s'.
Proof.
  unfold guarded. destruct a as [c|i|i|q]; cbn [act_step]; intros Hs [Hw Hg].
  - simplify_eq. cbn. rewrite Hw, length_app. cbn [length]. split; [lia|apply wrapped_u64].
  - destruct (sh_open s !! i) as [[c|]|] eqn:E; simplify_eq. cbn.
    by rewrite apply_change_lifecycle, length_insert.
  - destruct (sh_open s !! i) as [[c|]|] eqn:E; simplify_eq. cbn.
    rewrite Hw, length_delete by eauto. apply lookup_lt_Some in E. split; [lia|apply wrapped_u64].
  - simplify_eq. cbn. by rewrite apply_quick_lifecycle.
Qed.

Lemma reached_guarded s : reached s -> guarded s.
Proof.
  induction 1 as [now_ms|a s s' Hr IH Hs|now_ms g a tr s Hr IH].
  - split; cbn; [done|]. unfold is_u64, u64_max. lia.
  - by eapply step_guarded.
  - unfold guarded, capture_events in *. cbn [sh_store sh_open]. destruct (_ || _); [done|]. cbn [snd]. by rewrite emits_lifecycle.
Qed.

Definition bump (a : Act) : Z := match a with AcBegin _ | AcEnd _ => 1 | _ => 0 end.
Definition bumps (l : list Act) : Z := foldr (fun a n => bump a + n) 0 l.

Lemma bumps_bound l : 0 <= bumps l <= zlen l.
Proof. induction l as [|a l IH]; cbn [bumps foldr length]; [lia|]. fold (bumps l). destruct a; cbn; lia. Qed.

Lemma step_generation a s s' : guarded s -> act_step a s = Some s' ->
  lc_generation (tl_lifecycle (sh_store s')) = (lc_generation (tl_lifecycle (sh_store s)) + bump a) mod 2 ^ 64.
Proof.
  intros [_ Hg] Hs.
  assert (forall z, is_u64 z -> z = (z + 0) mod 2 ^ 64) as Hz.
  { intros z Hz. rewrite Z.add_0_r, Z.mod_small; [done|]. unfold is_u64, u64_max in Hz. lia. }
  destruct a as [c|i|i|q]; cbn [act_step bump] in *.
  - by simplify_eq.
  - destruct (sh_open s !! i) as [[c|]|]; simplify_eq. cbn. rewrite apply_change_lifecycle. by apply Hz.
  - by destruct (sh_open s !! i) as [[c|]|]; simplify_eq.
  - simplify_eq. cbn. rewrite apply_quick_lifecycle. by apply Hz.
Qed.

Lemma acts_generation l s s' : guarded s -> acts l s = Some s' ->
  lc_generation (tl_lifecycle (sh_store s')) = (lc_generation (tl_lifecycle (sh_store s)) + bumps l) mod 2 ^ 64.
Proof.
  revert s. induction l as [|a l IH]; intros s Hg Hs; cbn [acts bumps foldr] in *.
  - simplify_eq. rewrite Z.add_0_r, Z.mod_small; [done|]. destruct Hg as [_ Hg]. unfold is_u64, u64_max in Hg. lia.
  - fold (bumps l) in *. destruct (act_step a s) as [s1|] eqn:E; [|done].
    rewrite (IH s1 (step_guarded _ _ _ E Hg) Hs), (step_generation _ _ _ Hg E), Zplus_mod_idemp_l. f_equal. lia.
Qed.

(** A session but for the flags of requests to it, which no view reads. *)
Definition read_info (s : SessionInfo) : SessionInfo := set_controls false false false s.

(** The frames among quick changes that were delivered to session [id]. *)
Definition frames_for (id : Z) (qs : list Quick) : list (Z * option Z) :=
  omap (fun q => match q with QuFrame i bytes block => if i =? id then Some (bytes, block) else None | _ => None end) qs.

Definition frames_counted (frames : list (Z * option Z)) (s : SessionInfo) : SessionInfo :=
  foldl (fun s (f : Z * option Z) => note_delivered f.1 f.2 s) s frames.

Lemma counted_app l l' s : frames_counted (l ++ l') s = frames_counted l' (frames_counted l s).
Proof. apply foldl_app. Qed.

Lemma read_counted frames s : read_info (frames_counted frames s) = frames_counted frames (read_info s).
Proof.
  revert s. induction frames as [|[bytes block] frames IH]; intros s; cbn; [done|]. fold (frames_counted frames).
  unfold frames_counted in *. rewrite IH. by destruct block.
Qed.

(** A quick change counts its frame and changes nothing else a view reads. *)
Lemma quick_session q t id :
  read_info <$> tl_sessions (apply_quick q t) !! id = (read_info ∘ frames_counted (frames_for id [q])) <$> tl_sessions t !! id.
Proof.
  assert (forall f i, (forall s, read_info (f s) = read_info (frames_counted (frames_for i [q]) s)) ->
    (forall k, k <> i -> frames_for k [q] = []) ->
    read_info <$> tl_sessions (on_session f i t) !! id = (read_info ∘ frames_counted (frames_for id [q])) <$> tl_sessions t !! id) as Hon.
  { intros f i Hf Hother. cbn [on_session set_sessions tl_sessions]. destruct (decide (i = id)) as [->|Hne].
    - rewrite lookup_alter_eq. destruct (tl_sessions t !! id) as [s|]; cbn; [by rewrite Hf|done].
    - rewrite lookup_alter_ne by done. rewrite (Hother id) by congruence. by destruct (tl_sessions t !! id). }
  destruct q as [i bytes block|i|i|i|x]; cbn [apply_quick]; [apply Hon..|]; try done.
  - intros s. cbn. by rewrite Z.eqb_refl.
  - intros k Hk. cbn. destruct (Z.eqb_spec i k); [congruence|done].
Qed.

Lemma frames_for_cons id q qs : frames_for id (q :: qs) = frames_for id [q] ++ frames_for id qs.
Proof. exact (omap_app _ [q] qs). Qed.

(** Several of them. *)
Lemma quicks_sessions qs s s' id :
  acts (AcQuick <$> qs) s = Some s' ->
  read_info <$> tl_sessions (sh_store s') !! id = (read_info ∘ frames_counted (frames_for id qs)) <$> tl_sessions (sh_store s) !! id
  /\ sh_open s' = sh_open s /\ tl_events (sh_store s') = tl_events (sh_store s).
Proof.
  revert s. induction qs as [|q qs IH]; intros s Hs; cbn [fmap list_fmap acts act_step] in Hs.
  - simplify_eq. split; [|done]. by destruct (tl_sessions (sh_store s') !! id).
  - destruct (IH _ Hs) as (Hr & -> & ->). cbn [sh_store sh_open] in *. split_and!; [|done|by destruct q].
    rewrite Hr, frames_for_cons. pose proof (quick_session q (sh_store s) id) as Hq.
    destruct (tl_sessions (apply_quick q (sh_store s)) !! id) as [x|], (tl_sessions (sh_store s) !! id) as [y|];
      cbn [fmap option_fmap option_map] in *; try done.
    apply (inj Some) in Hq. f_equal. unfold compose in *. by rewrite counted_app, read_counted, Hq, <- read_counted.
Qed.

(** Without an open guard, nothing but quick changes happens until one begins. *)
Lemma acts_quiet l s s' : sh_open s = [] -> bumps l = 0 -> acts l s = Some s' -> exists qs, l = AcQuick <$> qs.
Proof.
  revert s. induction l as [|a l IH]; intros s Ho Hb Hs; cbn [acts bumps foldr] in *; [by exists []|].
  fold (bumps l) in *. pose proof (bumps_bound l). destruct a as [c|i|i|q]; cbn [bump] in Hb; try lia.
  - cbn [act_step] in Hs. by rewrite Ho in Hs.
  - cbn [act_step] in Hs.
    destruct (IH (mkShared (apply_quick q (sh_store s)) (sh_open s)) Ho ltac:(lia) Hs) as [qs ->]. by exists (q :: qs).
Qed.

(** C34: A capture: the version is taken, other tasks go on, and the capture completes.
    Then no change was under way or was made in between (fewer than 2^64 steps apart):
    all that happened meanwhile is frames delivered to sessions, requests to sessions and
    samples.  So at any moment in between the registry has the sessions of the start,
    each as it was then but for the frames delivered to it since, which its counters of
    blocks and bytes and its last and next block count, and for the flags of requests to
    it, which no view reads.  The events the capture returns are those of the log after
    the watermark, the derived ones appended. *)
Theorem capture_undisturbed (s s' : Shared) (l : list Act) (generation now_ms after : Z)
    (transitions : list LogEvent) (events : list LogEvent) (t' : Telemetry) :
  reached s -> capture_version (sh_store s) = Some generation -> acts l s = Some s' -> zlen l < 2 ^ 64 ->
  capture_events now_ms generation after transitions (sh_store s') = (Some events, t') ->
  exists qs, l = AcQuick <$> qs /\ sh_open s' = []
  /\ (forall k sm id, acts (take k l) s = Some sm ->
       read_info <$> tl_sessions (sh_store sm) !! id
       = (read_info ∘ frames_counted (frames_for id (take k qs))) <$> tl_sessions (sh_store s) !! id)
  /\ tl_events (sh_store s') = tl_events (sh_store s)
  /\ events = events_after after (foldl (fun t e => emit_body now_ms e t) (sh_store s') transitions).
Proof.
  intros Hr Hv Hs Hl Hc. pose proof (reached_guarded s Hr) as Hg.
  unfold capture_version in Hv. destruct (Z.eqb_spec (lc_writers (tl_lifecycle (sh_store s))) 0) as [Hw|]; simplify_eq.
  pose proof (proj1 Hg) as Hwo. assert (sh_open s = []) as Ho by (apply length_zero_iff_nil; lia).
  unfold capture_events in Hc. destruct (_ || _) eqn:E; [done|]. apply orb_false_elim in E as [_ E]. bools.
  rewrite (acts_generation l s s' Hg Hs) in E.
  assert (bumps l = 0) as Hb.
  { pose proof (bumps_bound l). destruct Hg as [_ Hu]. unfold is_u64, u64_max in Hu.
    rewrite <- (Z.mod_small (lc_generation (tl_lifecycle (sh_store s))) (2 ^ 64)) in E at 2 by lia.
    set (g := lc_generation (tl_lifecycle (sh_store s))) in *.
    assert ((g + bumps l - g) mod 2 ^ 64 = 0) as Hd by (rewrite Zminus_mod, E, Z.sub_diag; done).
    replace (g + bumps l - g) with (bumps l) in Hd by lia. rewrite Z.mod_small in Hd by lia. done. }
  destruct (acts_quiet l s s' Ho Hb Hs) as [qs ->]. simplify_eq. exists qs.
  destruct (quicks_sessions qs s s' 0 Hs) as (_ & Ho' & He). rewrite Ho in Ho'.
  split_and!; [done|done| |done|done]. intros k sm id Hk. rewrite <- fmap_take in Hk.
  by apply (quicks_sessions (take k qs) s sm id).
Qed.

(** ** The registry *)

Definition keyed (t : Telemetry) : Prop := forall id s, tl_sessions t !! id = Some s -> si_id s = id.

Lemma keyed_alter f id t : (forall s, si_id (f s) = si_id s) -> keyed t -> keyed (on_session f id t).
Proof.
  intros Hf Hk k s Hs. cbn in Hs. apply lookup_alter_Some in Hs as [(-> & s0 & Hs0 & ->)|[_ Hs]]; [|by apply Hk].
  rewrite Hf. by apply Hk.
Qed.

Lemma emits_sessions now_ms es t : tl_sessions (foldl (fun t e => emit_body now_ms e t) t es) = tl_sessions t.
Proof. revert t. induction es as [|e es IH]; intros t; cbn; [done|]. by rewrite IH. Qed.

Lemma change_keyed c t : keyed t -> keyed (apply_change c t).
Proof.
  intros Hk. destruct c; cbn [apply_change]; try (by apply keyed_alter); try done.
  - intros k s Hs. cbn in Hs. apply lookup_insert_Some in Hs as [[<- <-]|[_ Hs]]; [done|by apply Hk].
  - intros k s Hs. cbn in Hs. apply lookup_delete_Some in Hs as [_ Hs]. by apply Hk.
Qed.

(** Every session of the registry is found under its own id. *)
Lemma reached_keyed s : reached s -> keyed (sh_store s).
Proof.
  induction 1 as [now_ms|a s s' Hr IH Hs|now_ms g a tr s Hr IH].
  - intros id s Hs. cbn in Hs. by rewrite lookup_empty in Hs.
  - destruct a as [c|i|i|q]; cbn [act_step] in Hs; repeat case_match; simplify_eq; try done.
    + by apply change_keyed.
    + destruct q; cbn [apply_quick]; try (by apply keyed_alter); try done.
      apply keyed_alter; [|done]. by intros si; destruct block.
  - unfold capture_events. cbn [sh_store]. destruct (_ || _); [done|]. unfold keyed in *. cbn [snd]. by rewrite emits_sessions.
Qed.

Lemma elem_of_active t s : keyed t -> s ∈ active_sessions t <-> tl_sessions t !! si_id s = Some s.
Proof.
  intros Hk. unfold active_sessions. rewrite elem_of_sort_by, list_elem_of_fmap. split.
  - intros ([id s'] & -> & Hs). apply elem_of_map_to_list in Hs. cbn. by rewrite (Hk id s' Hs).
  - intros Hs. exists (si_id s, s). split; [done|]. by apply elem_of_map_to_list.
Qed.

(** ** Witnesses *)

(** A session registers while an event is emitted; then a frame passes. *)
Definition tele_acts : list Act :=
  [ AcBegin (ChRegister 5 "default" "10.1.1.1:5000" "10.0.0.1:8080" 1); AcBegin (ChEmit 6 (event_new LvInfo EkStarted "started"));
    AcChange 1; AcChange 0; AcEnd 1; AcEnd 0 ].
Definition tele_start : Shared := mkShared (telemetry_new 0) [].
Definition tele_state : Shared := default tele_start (acts tele_acts tele_start).

Lemma acts_reached l s s' : reached s -> acts l s = Some s' -> reached s'.
Proof.
  revert s. induction l as [|a l IH]; intros s Hr Ha; cbn [acts] in Ha; [by simplify_eq|].
  destruct (act_step a s) as [s1|] eqn:E; [|done]. eapply IH; [|exact Ha]. by eapply reached_act.
Qed.

Lemma tele_reached : reached tele_state.
Proof. apply (acts_reached tele_acts tele_start); [apply reached_new|vm_compute; reflexivity]. Qed.

Lemma log_exact_witness : map ev_id (events_after 0 (sh_store tele_state)) = [1].
Proof.
  destruct (log_exact tele_state 0 tele_reached) as [He _]; [by vm_compute|by vm_compute|].
  rewrite He. vm_compute. reflexivity.
Defined.

Lemma capture_undisturbed_witness :
  exists events t', capture_events 9 4 0 [event_new LvWarn EkUpstreamDown "archive-1 went offline"]
      (apply_quick (QuFrame 1 100 (Some 7)) (sh_store tele_state)) = (Some events, t')
    /\ map ev_id events = [1; 2]
    /\ read_info <$> tl_sessions (apply_quick (QuFrame 1 100 (Some 7)) (sh_store tele_state)) !! 1
       = (read_info ∘ frames_counted [(100, Some 7)]) <$> tl_sessions (sh_store tele_state) !! 1.
Proof.
  destruct (capture_events 9 4 0 [event_new LvWarn EkUpstreamDown "archive-1 went offline"]
      (apply_quick (QuFrame 1 100 (Some 7)) (sh_store tele_state))) as [[events|] t'] eqn:E; [|exfalso; vm_compute in E; discriminate E].
  exists events, t'. split; [reflexivity|].
  destruct (capture_undisturbed tele_state (mkShared (apply_quick (QuFrame 1 100 (Some 7)) (sh_store tele_state)) [])
    [AcQuick (QuFrame 1 100 (Some 7))] 4 9 0 [event_new LvWarn EkUpstreamDown "archive-1 went offline"] events t' tele_reached)
    as (qs & Hq & _ & Hs & _ & He); [vm_compute; reflexivity|vm_compute; reflexivity|vm_compute; reflexivity|exact E|].
  destruct qs as [|q [|q' qs]]; [discriminate Hq| |discriminate Hq]. injection Hq as <-.
  split; [rewrite He; vm_compute; reflexivity|].
  exact (Hs 1%nat (mkShared (apply_quick (QuFrame 1 100 (Some 7)) (sh_store tele_state)) (sh_open tele_state)) 1 eq_refl).
Defined.
