(* ===== verification/Tls.v ===== *)
(** * Client-facing TLS: certificates by name

    Models [src/src/tls.rs]: the validation of a [TlsConfig], the patterns of
    server names, the store of certificates, the certificate a client is given
    ([resolve_name]) and the reload of files that changed ([reload_if_changed]).

    The file system and the PEM and key readers are the parameter [Disk], what
    they return at one moment; a reload takes the disk of its own moment.  The
    certified key of a pair is whatever [d_pair] makes of what it read.  Texts are
    ASCII, as host names are; error texts are left out.  The handshake, the
    streams and the reload task are I/O.

    The theorems: a validated configuration loads; a client gets the certificate
    of the one entry that names its host, exactly or by a single-label wildcard,
    and the default one otherwise; a reload renews exactly the pairs whose files
    changed and load, whatever became of the others, keeps every other, and reports
    each failure. *)

From S2P Require Import Prelude Wire Models ApiRoute.

(** [str::strip_suffix]. *)
Fixpoint strip_suffix (suffix s : string) : option string :=
  if bool_decide (s = suffix) then Some EmptyString
  else match s with
       | EmptyString => None
       | String.String c s => String.String c <$> strip_suffix suffix s
       end.

Definition starts_with (p s : string) : bool := is_some (strip_prefix p s).
Definition ends_with (p s : string) : bool := is_some (strip_suffix p s).
Definition str_is_empty (s : string) : bool := match s with EmptyString => true | _ => false end.

(** ** Configuration *)

Record SniCertConfig := mkSni {
  sn_server_names : list string;
  sn_cert_file : string;
  sn_key_file : string;
}.

Record TlsConfig := mkTls {
  tl_cert_file : string;
  tl_key_file : string;
  tl_sni : list SniCertConfig;
}.

#[export] Instance SniCertConfig_eq_dec : EqDecision SniCertConfig.
Proof. solve_decision. Defined.
#[export] Instance TlsConfig_eq_dec : EqDecision TlsConfig.
Proof. solve_decision. Defined.

Inductive TlsError :=
| EmptyCertFile
| EmptyKeyFile
| EmptyServerNames (idx : nat)
| BadServerName (idx : nat) (raw : string)
| DuplicateServerName (idx : nat) (raw : string)
| EmptySniCertFile (idx : nat)
| EmptySniKeyFile (idx : nat)
| CertUnreadable (path : string)
| CertInvalid (path : string)
| CertsMissing (path : string)
| KeyUnreadable (path : string)
| PairMismatch (cert key : string)
| NoStat (cert key : string).

Definition hostname_char (c : Ascii.ascii) : bool :=
  is_ascii_alphanumeric c || (code c =? 45) || (code c =? 46).

Definition normalize_sni_pattern (raw : string) : option string :=
  let trimmed := to_ascii_lowercase (trim raw) in
  if str_is_empty trimmed then None
  else
    let host_part := default trimmed (strip_prefix "*." trimmed) in
    if str_is_empty host_part || starts_with "." host_part || ends_with "." host_part
       || contains ".." host_part || contains "*" host_part
       || negb (all_chars hostname_char host_part)
    then None
    else if starts_with "*." trimmed && negb (contains "." host_part) then None
    else Some trimmed.

Definition sni_matches (pattern server_name : string) : bool :=
  let candidate := to_ascii_lowercase (trim server_name) in
  match strip_prefix "*." pattern with
  | Some suffix =>
      match strip_suffix suffix candidate with
      | None => false
      | Some prefix =>
          match strip_suffix "." prefix with
          | None => false
          | Some label => negb (str_is_empty label) && negb (contains "." label)
          end
      end
  | None => bool_decide (pattern = candidate)
  end.

(** ** The disk *)

Section disk.
Context {Cert Key Certified : Type}.

(** What a PEM file iterator gives: it cannot be opened, an item of it is not a
    certificate, or the certificates. *)
Inductive PemFile := PemNoFile | PemBad | PemCerts (certs : list Cert).

Record Disk := mkDisk {
  d_certs : string -> PemFile;
  d_key : string -> option Key;
  d_pair : list Cert -> Key -> option Certified;
  d_stat : string -> option (option Z * Z);
}.

(** The times and lengths of a certificate and a key file. *)
Record FileStamp := mkStamp {
  fs_cert_mtime : option Z;
  fs_cert_len : Z;
  fs_key_mtime : option Z;
  fs_key_len : Z;
}.
#[export] Instance FileStamp_eq_dec : EqDecision FileStamp.
Proof. solve_decision. Defined.

Definition stamp_read (d : Disk) (cert_file key_file : string) : option FileStamp :=
  match d_stat d cert_file, d_stat d key_file with
  | Some (ct, cl), Some (kt, kl) => Some (mkStamp ct cl kt kl)
  | _, _ => None
  end.

Definition load_certified_key (d : Disk) (cert_file key_file : string) : result Certified TlsError :=
  match d_certs d cert_file with
  | PemNoFile => Err (CertUnreadable cert_file)
  | PemBad => Err (CertInvalid cert_file)
  | PemCerts [] => Err (CertsMissing cert_file)
  | PemCerts certs =>
      match d_key d key_file with
      | None => Err (KeyUnreadable key_file)
      | Some key =>
          match d_pair d certs key with
          | None => Err (PairMismatch cert_file key_file)
          | Some certified => Ok certified
          end
      end
  end.

(** ** Validation *)

(** The names of one entry; [seen] holds the patterns of those before. *)
Fixpoint names_loop (idx : nat) (names : list string) (seen : gset string) : result (gset string) TlsError :=
  match names with
  | [] => Ok seen
  | raw :: names =>
      match normalize_sni_pattern raw with
      | None => Err (BadServerName idx raw)
      | Some name =>
          if bool_decide (name ∈ seen) then Err (DuplicateServerName idx raw)
          else names_loop idx names ({[name]} ∪ seen)
      end
  end.

Fixpoint entries_loop (idx : nat) (entries : list SniCertConfig) (seen : gset string) : result unit TlsError :=
  match entries with
  | [] => Ok tt
  | e :: entries =>
      if bool_decide (sn_server_names e = []) then Err (EmptyServerNames idx)
      else
        let? seen := names_loop idx (sn_server_names e) seen in
        if blank (sn_cert_file e) then Err (EmptySniCertFile idx)
        else if blank (sn_key_file e) then Err (EmptySniKeyFile idx)
        else entries_loop (S idx) entries seen
  end.

Fixpoint load_all (d : Disk) (entries : list SniCertConfig) : result unit TlsError :=
  match entries with
  | [] => Ok tt
  | e :: entries =>
      let? _ := load_certified_key d (sn_cert_file e) (sn_key_file e) in load_all d entries
  end.

Definition tls_validate (d : Disk) (cfg : TlsConfig) : result unit TlsError :=
  if blank (tl_cert_file cfg) then Err EmptyCertFile
  else if blank (tl_key_file cfg) then Err EmptyKeyFile
  else
    let? _ := entries_loop 0 (tl_sni cfg) ∅ in
    let? _ := load_certified_key d (tl_cert_file cfg) (tl_key_file cfg) in
    load_all d (tl_sni cfg).

(** ** The store *)

Record SniSlot := mkSlot {
  ss_patterns : list string;
  ss_cert_file : string;
  ss_key_file : string;
  ss_stamp : FileStamp;
  ss_certified : Certified;
}.

Record CertStore := mkStore {
  cs_default_cert_file : string;
  cs_default_key_file : string;
  cs_default_stamp : FileStamp;
  cs_default_certified : Certified;
  cs_sni : list SniSlot;
}.

Definition read_or_fail (d : Disk) (cert_file key_file : string) : result FileStamp TlsError :=
  match stamp_read d cert_file key_file with
  | Some s => Ok s
  | None => Err (NoStat cert_file key_file)
  end.

Fixpoint patterns_of (idx : nat) (names : list string) : result (list string) TlsError :=
  match names with
  | [] => Ok []
  | raw :: names =>
      match normalize_sni_pattern raw with
      | None => Err (BadServerName idx raw)
      | Some pat => let? pats := patterns_of idx names in Ok (pat :: pats)
      end
  end.

Fixpoint slots_of (d : Disk) (idx : nat) (entries : list SniCertConfig) : result (list SniSlot) TlsError :=
  match entries with
  | [] => Ok []
  | e :: entries =>
      let? patterns := patterns_of idx (sn_server_names e) in
      let? certified := load_certified_key d (sn_cert_file e) (sn_key_file e) in
      let? stamp := read_or_fail d (sn_cert_file e) (sn_key_file e) in
      let? slots := slots_of d (S idx) entries in
      Ok (mkSlot patterns (sn_cert_file e) (sn_key_file e) stamp certified :: slots)
  end.

Definition from_config (d : Disk) (cfg : TlsConfig) : result CertStore TlsError :=
  let? certified := load_certified_key d (tl_cert_file cfg) (tl_key_file cfg) in
  let? stamp := read_or_fail d (tl_cert_file cfg) (tl_key_file cfg) in
  let? sni := slots_of d 0 (tl_sni cfg) in
  Ok (mkStore (tl_cert_file cfg) (tl_key_file cfg) stamp certified sni).

(** ** Reload *)

(** Whether the pair was renewed, and its stamp and certificate after. *)
Definition reload_certified_key (d : Disk) (cert_file key_file : string) (stamp : FileStamp)
    (certified : Certified) : result bool TlsError * FileStamp * Certified :=
  match stamp_read d cert_file key_file with
  | None => (Err (NoStat cert_file key_file), stamp, certified)
  | Some next_stamp =>
      if bool_decide (next_stamp = stamp) then (Ok false, stamp, certified)
      else
        match load_certified_key d cert_file key_file with
        | Err e => (Err e, stamp, certified)
        | Ok next => (Ok true, next_stamp, next)
        end
  end.

(** The counts of the [reload] closure. *)
Definition tally (r : result bool TlsError) (acc : Z * list TlsError) : Z * list TlsError :=
  match r with
  | Ok changed => (acc.1 + (if changed : bool then 1 else 0), acc.2)
  | Err e => (acc.1, acc.2 ++ [e])
  end.

Fixpoint reload_slots (d : Disk) (slots : list SniSlot) (acc : Z * list TlsError)
  : (Z * list TlsError) * list SniSlot :=
  match slots with
  | [] => (acc, [])
  | s :: slots =>
      let '(r, stamp, certified) :=
        reload_certified_key d (ss_cert_file s) (ss_key_file s) (ss_stamp s) (ss_certified s) in
      let '(acc, slots) := reload_slots d slots (tally r acc) in
      (acc, mkSlot (ss_patterns s) (ss_cert_file s) (ss_key_file s) stamp certified :: slots)
  end.

(** [Ok n]: [n] pairs were renewed; [Err (n, failures)]: and these failed. *)
Definition reload_if_changed (d : Disk) (store : CertStore)
  : result Z (Z * list TlsError) * CertStore :=
  let '(r, stamp, certified) :=
    reload_certified_key d (cs_default_cert_file store) (cs_default_key_file store)
      (cs_default_stamp store) (cs_default_certified store) in
  let '((reloaded, failures), sni) := reload_slots d (cs_sni store) (tally r (0, [])) in
  let updated := mkStore (cs_default_cert_file store) (cs_default_key_file store) stamp certified sni in
  let store := if 0 <? reloaded then updated else store in
  (match failures with [] => Ok reloaded | _ => Err (reloaded, failures) end, store).

(** ** The certificate of a name *)

Definition resolve_name (store : CertStore) (server_name : option string) : Certified :=
  match server_name with
  | None => cs_default_certified store
  | Some name =>
      let lowered := to_ascii_lowercase (trim name) in
      let exact s := existsb (fun p => negb (starts_with "*." p) && bool_decide (p = lowered)) (ss_patterns s) in
      let wild s := existsb (fun p => starts_with "*." p && sni_matches p lowered) (ss_patterns s) in
      match List.find exact (cs_sni store) with
      | Some s => ss_certified s
      | None =>
          match List.find wild (cs_sni store) with
          | Some s => ss_certified s
          | None => cs_default_certified store
          end
      end
  end.
End disk.

(** ** Texts *)

Lemma append_nil b : String.append EmptyString b = b.
Proof. done. Qed.

Ltac str := rewrite ?append_cons, ?append_nil in *; cbn [String.length] in *.

Lemma append_assoc a b c : String.append a (String.append b c) = String.append (String.append a b) c.
Proof. induction a as [|x a IH]; [done|exact (f_equal (String.String x) IH)]. Qed.

Lemma append_length a b : String.length (String.append a b) = (String.length a + String.length b)%nat.
Proof. induction a as [|x a IH]; str; [done|by rewrite IH]. Qed.

Lemma append_cancel_r a b c : String.append a c = String.append b c -> a = b.
Proof.
  revert b. induction a as [|x a IH]; intros [|y b] Hab; str.
  - done.
  - apply (f_equal String.length) in Hab. str. rewrite append_length in Hab. lia.
  - apply (f_equal String.length) in Hab. str. rewrite append_length in Hab. lia.
  - injection Hab as -> Hab. by rewrite (IH b Hab).
Qed.

Lemma strip_suffix_spec suf s p : strip_suffix suf s = Some p <-> s = String.append p suf.
Proof.
  revert p. induction s as [|c s IH]; intros p; cbn; case_bool_decide as E.
  - subst suf. split; [by intros [= <-]|]. by destruct p.
  - split; [done|]. by destruct p; str; intros; subst.
  - split; [by intros [= <-]|]. intros Hp. f_equal. apply (append_cancel_r _ _ suf). str. congruence.
  - split.
    + destruct (strip_suffix suf s) as [q|] eqn:Eq; [|done]. intros [= <-]. str. f_equal. by apply IH.
    + destruct p as [|x p]; str; [by intros <-|]. intros [= <- Hs]. apply IH in Hs. by rewrite Hs.
Qed.

Lemma ascii_all (f : Ascii.ascii -> bool) :
  forallb (fun n => f (Ascii.ascii_of_nat n)) (seq 0 256) = true -> forall c, f c = true.
Proof.
  intros Hf c. rewrite <-(Ascii.ascii_nat_embedding c). rewrite forallb_forall in Hf. apply Hf.
  apply in_seq. pose proof (Ascii.nat_ascii_bounded c). lia.
Qed.

Lemma is_space_lower c : is_space (lower c) = is_space c.
Proof.
  apply (proj1 (eqb_true_iff _ _)). revert c. apply ascii_all. vm_compute. reflexivity.
Qed.

Lemma lower_lower c : lower (lower c) = lower c.
Proof. apply Ascii.eqb_eq. revert c. apply ascii_all. vm_compute. reflexivity. Qed.

Lemma lowercase_idem s : to_ascii_lowercase (to_ascii_lowercase s) = to_ascii_lowercase s.
Proof. induction s as [|c s IH]; cbn; [done|by rewrite lower_lower, IH]. Qed.

Lemma trim_start_lower s : trim_start (to_ascii_lowercase s) = to_ascii_lowercase (trim_start s).
Proof. induction s as [|c s IH]; cbn; [done|]. rewrite is_space_lower, IH. by destruct (is_space c). Qed.

Lemma trim_end_lower s : trim_end (to_ascii_lowercase s) = to_ascii_lowercase (trim_end s).
Proof.
  induction s as [|c s IH]; cbn; [done|]. rewrite is_space_lower, IH.
  destruct (trim_end s) as [|x t]; cbn; [by destruct (is_space c)|done].
Qed.

Lemma trim_end_idem s : trim_end (trim_end s) = trim_end s.
Proof.
  induction s as [|c s IH]; cbn; [done|]. destruct (trim_end s) as [|x t] eqn:E.
  - destruct (is_space c) eqn:Ec; cbn; [done|by rewrite Ec].
  - cbn [trim_end] in IH |- *. by rewrite IH.
Qed.

(** What is left of a trimmed text does not start with a space. *)
Lemma trim_start_end s : trim_start s = s -> trim_start (trim_end s) = trim_end s.
Proof.
  destruct s as [|c s]; [done|]. cbn. destruct (is_space c) eqn:Ec.
  - intros Hs. exfalso. apply (f_equal String.length) in Hs. cbn in Hs.
    assert (forall t, (String.length (trim_start t) <= String.length t)%nat) as Hle.
    { induction t as [|x t IH]; cbn; [lia|]. destruct (is_space x); cbn; lia. }
    specialize (Hle s). lia.
  - intros _. destruct (trim_end s); cbn; by rewrite Ec.
Qed.

Lemma trim_start_idem s : trim_start (trim_start s) = trim_start s.
Proof. induction s as [|c s IH]; cbn; [done|]. destruct (is_space c) eqn:E; [done|]. cbn. by rewrite E. Qed.

Lemma trim_idem s : trim (trim s) = trim s.
Proof. unfold trim. rewrite trim_start_end by apply trim_start_idem. apply trim_end_idem. Qed.

(** The form in which names are compared. *)
Definition name_of (raw : string) : string := to_ascii_lowercase (trim raw).

Lemma name_of_idem raw : name_of (name_of raw) = name_of raw.
Proof.
  unfold name_of. assert (trim (to_ascii_lowercase (trim raw)) = to_ascii_lowercase (trim raw)) as ->.
  { unfold trim at 1. rewrite trim_start_lower, trim_end_lower. f_equal. apply trim_idem. }
  apply lowercase_idem.
Qed.

Lemma normalize_name raw p : normalize_sni_pattern raw = Some p -> p = name_of raw.
Proof.
  unfold normalize_sni_pattern. fold (name_of raw). destruct (str_is_empty _); [done|].
  destruct (_ || _); [done|]. destruct (_ && _); [done|]. by intros [= ->].
Qed.

(** A label without a dot is what precedes the first dot. *)
Lemma label_unique a b s t :
  contains "." a = false -> contains "." b = false ->
  String.append a (String.append "." s) = String.append b (String.append "." t) -> a = b /\ s = t.
Proof.
  revert b. induction a as [|x a IH]; intros [|y b] Ha Hb Heq.
  - split; [done|]. by injection Heq.
  - injection Heq as <- _. done.
  - injection Heq as -> _. done.
  - str. injection Heq as -> Heq.
    assert (contains "." a = false /\ contains "." b = false) as [Ha' Hb'].
    { cbn [contains] in Ha, Hb. by destruct (is_some (strip_prefix _ (String.String y a))),
        (is_some (strip_prefix _ (String.String y b))). }
    destruct (IH b Ha' Hb' Heq) as [-> ->]. done.
Qed.

Lemma sni_matches_wild p n suffix :
  strip_prefix "*." p = Some suffix ->
  sni_matches p n = true <->
  exists label, name_of n = String.append label (String.append "." suffix)
    /\ label <> EmptyString /\ contains "." label = false.
Proof.
  intros Hp. unfold sni_matches. fold (name_of n). rewrite Hp. split.
  - destruct (strip_suffix suffix _) as [q|] eqn:E1; [|done]. apply strip_suffix_spec in E1.
    destruct (strip_suffix "." q) as [label|] eqn:E2; [|done]. apply strip_suffix_spec in E2.
    intros Hl. bools. exists label. rewrite E1, E2, <-append_assoc. split_and!; [done| |done].
    by destruct label.
  - intros (label & Hn & He & Hc).
    rewrite Hn, append_assoc, (proj2 (strip_suffix_spec suffix _ _) eq_refl).
    rewrite (proj2 (strip_suffix_spec "." _ label) eq_refl), Hc. by destruct label.
Qed.

(** ** Validated names *)

Section tls.
Context {Cert Key Certified : Type}.
Implicit Types (d : @Disk Cert Key Certified) (store : @CertStore Certified).

Definition patterns (e : SniCertConfig) : list string := omap normalize_sni_pattern (sn_server_names e).

Lemma names_loop_ok idx names seen seen' :
  names_loop idx names seen = Ok seen' ->
  let pats := omap normalize_sni_pattern names in
  NoDup pats /\ (forall p, p ∈ pats -> p ∉ seen) /\ (forall p, p ∈ seen' <-> p ∈ pats \/ p ∈ seen)
  /\ (forall raw, raw ∈ names -> is_Some (normalize_sni_pattern raw)).
Proof.
  revert seen. induction names as [|raw names IH]; intros seen; cbn.
  { intros [= <-]. split_and!; [constructor|by intros p ?%elem_of_nil|set_solver|by intros ? ?%elem_of_nil]. }
  destruct (normalize_sni_pattern raw) as [p|] eqn:Ep; [|done]. case_bool_decide as Hin; [done|].
  intros (Hn & Hd & Hs & Ha)%IH. split_and!.
  - constructor; [|done]. intros Hp. apply (Hd p Hp). set_solver.
  - intros q [->|Hq]%elem_of_cons; [done|]. specialize (Hd q Hq). set_solver.
  - intros q. rewrite Hs, elem_of_cons. set_solver.
  - intros r [->|Hr]%elem_of_cons; [by eexists|by apply Ha].
Qed.

Lemma entries_loop_ok idx entries seen :
  entries_loop idx entries seen = Ok tt ->
  NoDup (concat (map patterns entries))
  /\ (forall p, p ∈ concat (map patterns entries) -> p ∉ seen)
  /\ (forall e raw, e ∈ entries -> raw ∈ sn_server_names e -> is_Some (normalize_sni_pattern raw)).
Proof.
  revert idx seen. induction entries as [|e entries IH]; intros idx seen.
  { intros _. cbn. split_and!; [constructor|by intros p ?%elem_of_nil|by intros ? ? ?%elem_of_nil]. }
  cbn [entries_loop map concat].
  case_bool_decide; [done|]. unfold rbind.
  destruct (names_loop idx _ seen) as [seen'|] eqn:En; [|done].
  destruct (blank (sn_cert_file e)); [done|]. destruct (blank (sn_key_file e)); [done|]. intros Hok.
  apply names_loop_ok in En as (Hn & Hd & Hs & Ha). apply IH in Hok as (Hn' & Hd' & Ha'). fold (patterns e) in *.
  split_and!.
  - apply NoDup_app. split_and!; [done| |done]. intros p Hp Hq. apply (Hd' p Hq), Hs. by left.
  - intros p [Hp|Hp]%elem_of_app; [by apply Hd|]. intros Hq. apply (Hd' p Hp), Hs. by right.
  - intros e' raw [->|He]%elem_of_cons; [by apply Ha|by apply Ha'].
Qed.

Lemma patterns_of_ok idx e :
  (forall raw, raw ∈ sn_server_names e -> is_Some (normalize_sni_pattern raw)) ->
  patterns_of idx (sn_server_names e) = Ok (patterns e).
Proof.
  unfold patterns. induction (sn_server_names e) as [|raw names IH]; intros Ha; [done|]. cbn.
  destruct (Ha raw) as [p ->]; [by left|]. rewrite IH; [done|]. intros r Hr. apply Ha. by right.
Qed.

(** The slot of an entry. *)
Definition slot_for d (e : SniCertConfig) (s : @SniSlot Certified) : Prop :=
  ss_patterns s = patterns e /\ ss_cert_file s = sn_cert_file e /\ ss_key_file s = sn_key_file e
  /\ load_certified_key d (sn_cert_file e) (sn_key_file e) = Ok (ss_certified s)
  /\ stamp_read d (sn_cert_file e) (sn_key_file e) = Some (ss_stamp s).

Lemma slots_of_ok d idx entries slots :
  (forall e raw, e ∈ entries -> raw ∈ sn_server_names e -> is_Some (normalize_sni_pattern raw)) ->
  slots_of d idx entries = Ok slots -> Forall2 (slot_for d) entries slots.
Proof.
  revert idx slots. induction entries as [|e entries IH]; intros idx slots Ha; cbn.
  { intros [= <-]. constructor. }
  rewrite patterns_of_ok by (intros raw; apply Ha; by left). cbn. unfold rbind, read_or_fail.
  destruct (load_certified_key d _ _) as [c|] eqn:Ec; [|done].
  destruct (stamp_read d _ _) as [st|] eqn:Es; [|done].
  destruct (slots_of d (S idx) entries) as [l|] eqn:El; [|done]. intros [= <-].
  constructor; [done|]. eapply IH; [|exact El]. intros ? ? ?. apply Ha. by right.
Qed.

Lemma validate_names d cfg :
  tls_validate d cfg = Ok tt ->
  NoDup (concat (map patterns (tl_sni cfg)))
  /\ (forall e raw, e ∈ tl_sni cfg -> raw ∈ sn_server_names e -> is_Some (normalize_sni_pattern raw)).
Proof.
  unfold tls_validate. destruct (blank (tl_cert_file cfg)); [done|]. destruct (blank (tl_key_file cfg)); [done|].
  destruct (entries_loop 0 (tl_sni cfg) ∅) as [[]|] eqn:E; [|done]. intros _.
  apply entries_loop_ok in E. tauto.
Qed.

Lemma load_all_slots d idx entries :
  (forall e raw, e ∈ entries -> raw ∈ sn_server_names e -> is_Some (normalize_sni_pattern raw)) ->
  (forall path, is_Some (d_stat d path)) ->
  load_all d entries = Ok tt -> exists slots, slots_of d idx entries = Ok slots.
Proof.
  intros Ha Hs. revert idx Ha. induction entries as [|e entries IH]; intros idx Ha; cbn; [eauto|].
  unfold rbind. destruct (load_certified_key d _ _) as [c|]; [|done]. intros Hl.
  rewrite patterns_of_ok by (intros raw; apply Ha; by left). unfold read_or_fail, stamp_read.
  destruct (Hs (sn_cert_file e)) as [[ct cl] ->]. destruct (Hs (sn_key_file e)) as [[kt kl] ->].
  destruct (IH (S idx)) as [slots ->]; [|done|by eexists]. intros ? ? ?. apply Ha. by right.
Qed.

(** A configuration that validates loads, when its files can be seen. *)
Lemma validated_loads d cfg :
  tls_validate d cfg = Ok tt -> (forall path, is_Some (d_stat d path)) ->
  exists store, from_config d cfg = Ok store.
Proof.
  intros Hv Hs. destruct (validate_names d cfg Hv) as [_ Ha]. revert Hv. unfold tls_validate, from_config.
  destruct (blank (tl_cert_file cfg)); [done|]. destruct (blank (tl_key_file cfg)); [done|].
  destruct (entries_loop 0 (tl_sni cfg) ∅); [|done]. unfold rbind.
  destruct (load_certified_key d _ _) as [c|]; [|done]. intros Hl.
  unfold read_or_fail, stamp_read.
  destruct (Hs (tl_cert_file cfg)) as [[ct cl] ->]. destruct (Hs (tl_key_file cfg)) as [[kt kl] ->].
  destruct (load_all_slots d 0 (tl_sni cfg) Ha Hs Hl) as [slots ->]. by eexists.
Qed.

(** A pattern is in one slot only. *)
Lemma slot_unique d entries slots s s' p :
  Forall2 (slot_for d) entries slots -> NoDup (concat (map patterns entries)) ->
  s ∈ slots -> s' ∈ slots -> p ∈ ss_patterns s -> p ∈ ss_patterns s' -> s = s'.
Proof.
  intros Hf. revert s s'. induction Hf as [|e s0 entries slots (Hp & _) Hf IH]; intros s s' Hnd Hs Hs' Hps Hps'.
  { by apply elem_of_nil in Hs. }
  cbn in Hnd. apply NoDup_app in Hnd as (_ & Hd & Hnd).
  assert (forall t, t ∈ slots -> p ∈ ss_patterns t -> p ∈ concat (map patterns entries)) as Hin.
  { intros t Ht Hpt. clear -Hf Ht Hpt. induction Hf as [|e s0 entries slots (Hp & _) Hf IH]; [by apply elem_of_nil in Ht|].
    cbn. apply elem_of_app. apply elem_of_cons in Ht as [->|Ht]; [left; by rewrite <-Hp|right; auto]. }
  apply elem_of_cons in Hs as [->|Hs]; apply elem_of_cons in Hs' as [->|Hs']; [done| | |by eapply IH].
  all: exfalso; rewrite Hp in *; eapply Hd; [eassumption|eapply Hin; eassumption].
Qed.

(** ** The certificate of a name *)

(** The entry lists the name, or a wildcard of one label before it. *)
Definition names_exactly (e : SniCertConfig) (n : string) : Prop :=
  exists raw, raw ∈ sn_server_names e /\ name_of raw = name_of n /\ starts_with "*." (name_of raw) = false.
Definition names_by_wildcard (e : SniCertConfig) (n : string) : Prop :=
  exists raw label suffix, raw ∈ sn_server_names e /\ name_of raw = String.append "*." suffix
    /\ name_of n = String.append label (String.append "." suffix)
    /\ label <> EmptyString /\ contains "." label = false.

Definition exact_in (n : string) (p : string) : bool := negb (starts_with "*." p) && bool_decide (p = name_of n).
Definition wild_in (n : string) (p : string) : bool := starts_with "*." p && sni_matches p (name_of n).

Lemma wild_in_spec n p :
  wild_in n p = true <-> exists label suffix, p = String.append "*." suffix
    /\ name_of n = String.append label (String.append "." suffix)
    /\ label <> EmptyString /\ contains "." label = false.
Proof.
  unfold wild_in, starts_with. destruct (strip_prefix "*." p) as [suffix|] eqn:E; cbn [is_some andb].
  - rewrite (sni_matches_wild p _ suffix E), name_of_idem. apply strip_prefix_app in E. split.
    + intros (label & H). by exists label, suffix.
    + intros (label & suffix' & Hp & H). rewrite E in Hp.
      assert (suffix = suffix') as <- by (by injection Hp). by exists label.
  - split; [done|]. intros (label & suffix & Hp & _). apply strip_prefix_app in Hp. congruence.
Qed.

(** A test that holds of one pattern only finds the slot of the entry that has it. *)
Lemma find_slot d entries slots (f : string -> bool) e p :
  Forall2 (slot_for d) entries slots -> NoDup (concat (map patterns entries)) ->
  (forall q, f p = true -> f q = true -> p = q) -> e ∈ entries -> p ∈ patterns e -> f p = true ->
  exists s, List.find (fun s => existsb f (ss_patterns s)) slots = Some s
    /\ load_certified_key d (sn_cert_file e) (sn_key_file e) = Ok (ss_certified s).
Proof.
  intros Hf Hnd Hu He Hp Hfp.
  apply list_elem_of_lookup in He as [i Hi]. destruct (Forall2_lookup_l _ _ _ _ _ Hf Hi) as (s & Hs & Hsf).
  destruct Hsf as (Hps & _ & _ & Hl & _). apply list_elem_of_lookup_2 in Hs.
  destruct (List.find _ slots) as [s'|] eqn:E.
  - exists s'. split; [done|]. apply find_some in E as [Hin Hex].
    apply existsb_exists in Hex as (q & Hq & Hfq). specialize (Hu q Hfp Hfq) as <-.
    assert (s = s') as <-; [|done]. eapply slot_unique; eauto; [by apply list_elem_of_In|by rewrite Hps|by apply list_elem_of_In].
  - exfalso. eapply find_none in E; [|by apply list_elem_of_In].
    assert (existsb f (ss_patterns s) = true) as Ht; [|cbv beta in E; congruence].
    apply existsb_exists. exists p. split; [|done]. apply list_elem_of_In. by rewrite Hps.
Qed.

Lemma find_no_slot d entries slots (f : string -> bool) :
  Forall2 (slot_for d) entries slots ->
  (forall e p, e ∈ entries -> p ∈ patterns e -> f p = false) ->
  List.find (fun s => existsb f (ss_patterns s)) slots = None.
Proof.
  intros Hf. induction Hf as [|e s entries slots (Hp & _) Hf IH]; intros Hn; cbn; [done|].
  destruct (existsb f (ss_patterns s)) eqn:E.
  - apply existsb_exists in E as (p & Hin & Hfp). rewrite Hp in Hin. apply list_elem_of_In in Hin.
    rewrite (Hn e p) in Hfp; [done|by left|done].
  - apply IH. intros e' p He'. apply Hn. by right.
Qed.

Lemma patterns_names e p :
  (forall raw, raw ∈ sn_server_names e -> is_Some (normalize_sni_pattern raw)) ->
  p ∈ patterns e <-> exists raw, raw ∈ sn_server_names e /\ p = name_of raw.
Proof.
  intros Ha. unfold patterns. rewrite list_elem_of_omap. split.
  - intros (raw & Hr & Hp). exists raw. split; [done|by apply normalize_name].
  - intros (raw & Hr & ->). destruct (Ha raw Hr) as [q Hq]. exists raw. split; [done|].
    rewrite Hq. f_equal. by apply normalize_name.
Qed.

Lemma store_slots d d' cfg store :
  tls_validate d cfg = Ok tt -> from_config d' cfg = Ok store ->
  Forall2 (slot_for d') (tl_sni cfg) (cs_sni store)
  /\ load_certified_key d' (tl_cert_file cfg) (tl_key_file cfg) = Ok (cs_default_certified store).
Proof.
  intros [_ Ha]%validate_names. unfold from_config, rbind, read_or_fail.
  destruct (load_certified_key d' _ _) as [c|] eqn:Ec; [|done].
  destruct (stamp_read d' _ _) as [st|]; [|done].
  destruct (slots_of d' 0 (tl_sni cfg)) as [slots|] eqn:Es; [|done]. intros [= <-].
  split; [by eapply slots_of_ok|done].
Qed.

Lemma resolve_unfold store n :
  resolve_name store (Some n) =
    match List.find (fun s => existsb (exact_in n) (ss_patterns s)) (cs_sni store) with
    | Some s => ss_certified s
    | None => match List.find (fun s => existsb (wild_in n) (ss_patterns s)) (cs_sni store) with
              | Some s => ss_certified s
              | None => cs_default_certified store
              end
    end.
Proof. done. Qed.

(** A client that names its host gets the certificate of the entry that lists
    the host, whatever its case; failing that, of the entry whose wildcard covers
    it with exactly one label; and the default certificate otherwise. No other
    entry can be meant: validation refuses a name listed twice, and a host has one
    wildcard. *)
Theorem resolve_exact d d' cfg store n :
  tls_validate d cfg = Ok tt -> from_config d' cfg = Ok store ->
  let given := resolve_name store (Some n) in
  (forall e, e ∈ tl_sni cfg -> names_exactly e n ->
     load_certified_key d' (sn_cert_file e) (sn_key_file e) = Ok given)
  /\ ((forall e, e ∈ tl_sni cfg -> ~ names_exactly e n) ->
      (forall e, e ∈ tl_sni cfg -> names_by_wildcard e n ->
         load_certified_key d' (sn_cert_file e) (sn_key_file e) = Ok given)
      /\ ((forall e, e ∈ tl_sni cfg -> ~ names_by_wildcard e n) ->
          load_certified_key d' (tl_cert_file cfg) (tl_key_file cfg) = Ok given)).
Proof.
  intros Hv Hc given. destruct (store_slots d d' cfg store Hv Hc) as [Hf Hd].
  destruct (validate_names d cfg Hv) as [Hnd Ha]. subst given. rewrite resolve_unfold.
  assert (forall e p, e ∈ tl_sni cfg -> p ∈ patterns e <-> exists raw, raw ∈ sn_server_names e /\ p = name_of raw) as Hpn.
  { intros e p He. apply patterns_names. intros raw. by apply Ha. }
  split; [|intros Hne; rewrite (find_no_slot d' _ _ (exact_in n) Hf)].
  - intros e He (raw & Hr & Hn & Hw).
    destruct (find_slot d' _ _ (exact_in n) e (name_of raw) Hf Hnd) as (s & -> & Hs); try done.
    + intros q H1 H2. unfold exact_in in *. bools. congruence.
    + apply Hpn; [done|]. eauto.
    + unfold exact_in. rewrite Hw, Hn. by apply bool_decide_eq_true.
  - split.
    + intros e He (raw & label & suffix & Hr & Hp & Hn & Hl & Hdot).
      assert (wild_in n (name_of raw) = true) as Hw by (apply wild_in_spec; eauto 6).
      destruct (find_slot d' _ _ (wild_in n) e (name_of raw) Hf Hnd) as (s & -> & Hs); try done.
      * intros q _ (l2 & s2 & -> & Hn2 & _ & Hd2)%wild_in_spec. rewrite Hp. f_equal.
        rewrite Hn in Hn2. by apply (label_unique _ _ _ _ Hdot Hd2) in Hn2 as [_ ->].
      * apply Hpn; [done|]. eauto.
    + intros Hnw. rewrite (find_no_slot d' _ _ (wild_in n) Hf); [done|].
      intros e p He (raw & Hr & ->)%(Hpn e p He). apply not_true_is_false.
      intros (label & suffix & H)%wild_in_spec. apply (Hnw e He). exists raw, label, suffix. tauto.
  - intros e p He (raw & Hr & ->)%(Hpn e p He). apply not_true_is_false. unfold exact_in. intros Hx. bools.
    apply (Hne e He). exists raw. done.
Qed.

(** ** Reload *)

(** Every pair of a store, the default one first. *)
Definition default_pair store : @SniSlot Certified :=
  mkSlot [] (cs_default_cert_file store) (cs_default_key_file store) (cs_default_stamp store)
    (cs_default_certified store).
Definition pairs store : list (@SniSlot Certified) := default_pair store :: cs_sni store.

Definition in_step d (s : @SniSlot Certified) : Prop :=
  stamp_read d (ss_cert_file s) (ss_key_file s) = Some (ss_stamp s).

(** The files of a pair changed since it was loaded, and load: this is what they hold. *)
Definition fresh d (s : @SniSlot Certified) (stamp : FileStamp) (certified : Certified) : Prop :=
  stamp_read d (ss_cert_file s) (ss_key_file s) = Some stamp /\ stamp <> ss_stamp s
  /\ load_certified_key d (ss_cert_file s) (ss_key_file s) = Ok certified.

(** What is wrong with the files of a pair: they cannot be read, or they changed and do
    not load. *)
Definition broken d (s : @SniSlot Certified) : option TlsError :=
  match stamp_read d (ss_cert_file s) (ss_key_file s) with
  | None => Some (NoStat (ss_cert_file s) (ss_key_file s))
  | Some stamp =>
      if bool_decide (stamp = ss_stamp s) then None
      else match load_certified_key d (ss_cert_file s) (ss_key_file s) with Ok _ => None | Err e => Some e end
  end.

(** A pair before and after a reload: what its files hold where they changed and load,
    and the pair as it was otherwise. *)
Definition renewed d (s s' : @SniSlot Certified) : Prop :=
  (forall stamp certified, fresh d s stamp certified ->
     s' = mkSlot (ss_patterns s) (ss_cert_file s) (ss_key_file s) stamp certified)
  /\ ((forall stamp certified, ~ fresh d s stamp certified) -> s' = s).

Definition reload_result d (s : @SniSlot Certified) : result bool TlsError :=
  (reload_certified_key d (ss_cert_file s) (ss_key_file s) (ss_stamp s) (ss_certified s)).1.1.
Definition after_reload d (s : @SniSlot Certified) : SniSlot :=
  let '(_, stamp, certified) :=
    reload_certified_key d (ss_cert_file s) (ss_key_file s) (ss_stamp s) (ss_certified s) in
  mkSlot (ss_patterns s) (ss_cert_file s) (ss_key_file s) stamp certified.

Lemma after_reload_ok d s :
  renewed d s (after_reload d s)
  /\ match reload_result d s with
     | Ok true => broken d s = None /\ ss_stamp (after_reload d s) <> ss_stamp s /\ in_step d (after_reload d s)
     | Ok false => broken d s = None /\ after_reload d s = s /\ in_step d s
     | Err e => broken d s = Some e /\ after_reload d s = s /\ ~ in_step d s
     end.
Proof.
  unfold renewed, fresh, broken, reload_result, after_reload, reload_certified_key, in_step.
  destruct s as [pats c k st x]. cbn.
  destruct (stamp_read d c k) as [st'|] eqn:Es; cbn; [|split_and!; try done; by intros ? ? (? & _)].
  case_bool_decide as Eq; [subst; split_and!; try done; intros ? ? ([= <-] & Hne & _); by destruct Hne|].
  destruct (load_certified_key d c k) as [y|e] eqn:El; cbn; split_and!; try done; try congruence.
  - by intros ? ? ([= <-] & _ & [= <-]).
  - intros Hno. by destruct (Hno st' y).
  - by intros ? ? (_ & _ & ?).
Qed.

Lemma reload_slots_map d slots acc :
  reload_slots d slots acc = (foldl (fun a s => tally (reload_result d s) a) acc slots, map (after_reload d) slots).
Proof.
  revert acc. induction slots as [|s slots IH]; intros acc; cbn; [done|].
  unfold reload_result, after_reload. destruct (reload_certified_key _ _ _ _ _) as [[r st] x]. cbn. by rewrite IH.
Qed.

(** The pairs whose stamp a reload replaced. *)
Definition replaced (before after : list (@SniSlot Certified)) : Z :=
  zlen (List.filter (fun '(s, s') => bool_decide (ss_stamp s' <> ss_stamp s)) (zip before after)).

Lemma tally_all d slots acc :
  foldl (fun a s => tally (reload_result d s) a) acc slots
  = (acc.1 + replaced slots (map (after_reload d) slots), acc.2 ++ omap (broken d) slots).
Proof.
  revert acc. induction slots as [|s slots IH]; intros [n fs]; cbn [foldl map fst snd].
  - unfold replaced. cbn. rewrite app_nil_r. f_equal. lia.
  - rewrite IH. destruct (after_reload_ok d s) as [_ Ho]. unfold replaced. cbn [zip zip_with List.filter omap list_omap].
    destruct (reload_result d s) as [[]|e]; cbn [tally fst snd]; destruct Ho as (-> & H1 & H2).
    + rewrite bool_decide_true by done. cbn [length]. f_equal. lia.
    + rewrite H1, bool_decide_false by (intros Hx; by apply Hx). f_equal. lia.
    + rewrite H1, bool_decide_false by (intros Hx; by apply Hx). rewrite <- app_assoc. done.
Qed.

Lemma not_replaced d slots : replaced slots (map (after_reload d) slots) = 0 -> map (after_reload d) slots = slots.
Proof.
  unfold replaced. induction slots as [|s slots IH]; cbn [zip zip_with List.filter map]; [done|].
  destruct (after_reload_ok d s) as [_ Ho]. case_bool_decide as Hs; cbn [length]; [lia|].
  intros Hz. rewrite (IH Hz). f_equal.
  destruct (reload_result d s) as [[]|e]; destruct Ho as (_ & H1 & H2); [by destruct Hs|done|done].
Qed.

Lemma reload_flat d store :
  let after := map (after_reload d) (pairs store) in
  let n := replaced (pairs store) after in
  let failures := omap (broken d) (pairs store) in
  (reload_if_changed d store).1 = match failures with [] => Ok n | _ => Err (n, failures) end
  /\ pairs (reload_if_changed d store).2 = after.
Proof.
  cbv zeta. unfold reload_if_changed. set (s0 := default_pair store).
  assert (reload_certified_key d (cs_default_cert_file store) (cs_default_key_file store)
    (cs_default_stamp store) (cs_default_certified store)
    = (reload_result d s0, ss_stamp (after_reload d s0), ss_certified (after_reload d s0))) as ->.
  { unfold reload_result, after_reload, s0. cbn. by destruct (reload_certified_key _ _ _ _ _) as [[? ?] ?]. }
  rewrite reload_slots_map.
  pose proof (tally_all d (pairs store) (0, [])) as Hn. unfold pairs at 1 in Hn. cbn [foldl] in Hn. fold s0 in Hn.
  rewrite Hn. cbn [fst snd app]. rewrite Z.add_0_l. split; [done|].
  destruct (0 <? replaced _ _) eqn:Ez; bools.
  - unfold pairs at 1. cbn. f_equal. unfold after_reload, s0. cbn.
    by destruct (reload_certified_key _ _ _ _ _) as [[? ?] ?].
  - symmetry. apply not_replaced. unfold replaced in *. lia.
Qed.

(** C25: A reload renews exactly what it should, one pair at a time: a pair whose files
    changed and load gets what they hold, whatever became of the others, and every
    other pair stays as it was. The answer counts the pairs that were replaced and
    lists what was wrong with each of the rest, in order; it is a success exactly when
    every pair is then in step with its files. *)
Theorem reload_exact d store :
  let '(r, store') := reload_if_changed d store in
  let failures := omap (broken d) (pairs store) in
  Forall2 (renewed d) (pairs store) (pairs store')
  /\ r = match failures with
         | [] => Ok (replaced (pairs store) (pairs store'))
         | _ => Err (replaced (pairs store) (pairs store'), failures)
         end
  /\ (failures = [] <-> Forall (in_step d) (pairs store')).
Proof.
  pose proof (reload_flat d store) as [Hr Hp]. destruct (reload_if_changed d store) as [r store']. cbn [fst snd] in Hr, Hp.
  rewrite Hp. split; [|split].
  - apply Forall2_fmap_r, Forall_Forall2_diag, Forall_true. intros s. apply after_reload_ok.
  - done.
  - clear Hr Hp. induction (pairs store) as [|s slots IH]; [by split|]. cbn [omap list_omap map]. rewrite Forall_cons, <- IH.
    destruct (after_reload_ok d s) as [_ Ho].
    destruct (reload_result d s) as [[]|e]; destruct Ho as (-> & H1 & H2); [tauto|rewrite H1; tauto|].
    rewrite H1. split; [discriminate|intros [? _]; contradiction].
Qed.
End tls.

(** A default certificate, and one for [eos.example.com] and its subdomains. *)
Definition sample_disk : @Disk string string (string * string) := {|
  d_certs p := PemCerts [p];
  d_key p := Some p;
  d_pair certs key := (fun c => (c, key)) <$> head certs;
  d_stat _ := Some (Some 0, 1);
|}.
Definition sample_tls : TlsConfig :=
  mkTls "default.pem" "default.key"
    [mkSni ["EOS.example.com"; "*.eos.example.com"] "eos.pem" "eos.key"; mkSni ["wax.example.com"] "wax.pem" "wax.key"].
Definition sample_store : @CertStore (string * string) :=
  match from_config sample_disk sample_tls with
  | Ok s => s
  | Err _ => mkStore EmptyString EmptyString (mkStamp None 0 None 0) (EmptyString, EmptyString) []
  end.

Lemma resolve_exact_witness :
  Ok (resolve_name sample_store (Some "api.EOS.example.com")) =
    load_certified_key sample_disk "eos.pem" "eos.key".
Proof.
  destruct (resolve_exact sample_disk sample_disk sample_tls sample_store "api.EOS.example.com") as [_ H].
  - vm_compute. reflexivity.
  - vm_compute. reflexivity.
  - destruct H as [H _].
    + intros e He (raw & Hr & Hn & _). cbn in He. set_unfold in He.
      destruct_or! He; subst; cbn in Hr; set_unfold in Hr; destruct_or?; subst; vm_compute in Hn; discriminate.
    + symmetry. apply (H (mkSni ["EOS.example.com"; "*.eos.example.com"] "eos.pem" "eos.key")); [by left|].
      exists "*.eos.example.com"%string, "api"%string, "eos.example.com"%string. split_and!; try done. by right; left.
Defined.
