(* ===== verification/ApiFlow.v ===== *)
(** * Chain API: the endpoint classes and a request from end to end

    Models the rest of [ChainApiCtx] in [src/src/chain_api/mod.rs]: the flow of
    each endpoint class ([info], [state], [block], [push]), the sticky
    [get_info] primary and the round-robin counter they share, the in-flight
    permits, and [handle], from the route of a request to its answer.

    The state a listener keeps between requests is [ChainApiCtx].  A flow takes
    the moments its snapshots are taken at ([en_moment]: the directory, fleet
    view, observed tips and clock at the k-th snapshot of the request) and the
    environment of its attempts, so whatever other requests and the probes do
    between two reads is covered.

    The theorem composes the components below it: which APIs a request reaches,
    how many times it may be written, and what a request the router answers
    itself does. *)

From S2P Require Import Prelude Wire Models Coverage View ApiRoute ApiPick ApiDirectory ApiBody ApiGateway Tls.

(** ** The listener's state *)

Record ChainApiCors := mkApiCors {
  cc_allow_origin : string;
  cc_allow_headers : option string;
  cc_max_age : option Z;
  cc_allow_credentials : bool;
}.

Record ChainApiConfig := mkApiConfig {
  ac_listen_port : Z;
  ac_listen_address : option string;
  ac_allow : list ApiClass;
  ac_block_source : BlockSource;
  ac_push_servers : list string;
  ac_max_body_bytes : Z;
  ac_max_response_bytes : Z;
  ac_max_connections : Z;
  ac_max_in_flight : Z;
  ac_max_in_flight_per_upstream : Z;
  ac_upstream_queue_ms : Z;
  ac_upstream_timeout_ms : Z;
  ac_request_deadline_ms : Z;
  ac_max_attempts : Z;
  ac_probe_ms : Z;
  ac_cors : option ChainApiCors;
  ac_tls : option TlsConfig;
}.

(** The fields a request reads: [cx_in_flight] counts the permits taken; [cx_hub] is the hub's memory of
    tips, which [ship_tip] refreshes. *)
Record ChainApiCtx := mkCtx {
  cx_cfg : ChainApiConfig;
  cx_cors : option CorsHeaders;
  cx_push : list Z;
  cx_live_lag_blocks : Z;
  cx_primary : option Z;
  cx_rr : Z;
  cx_in_flight : Z;
  cx_hub : HubMemory;
}.

Definition set_cx_primary (v : option Z) (c : ChainApiCtx) : ChainApiCtx :=
  mkCtx (cx_cfg c) (cx_cors c) (cx_push c) (cx_live_lag_blocks c) v (cx_rr c) (cx_in_flight c) (cx_hub c).
Definition set_cx_rr (v : Z) (c : ChainApiCtx) : ChainApiCtx :=
  mkCtx (cx_cfg c) (cx_cors c) (cx_push c) (cx_live_lag_blocks c) (cx_primary c) v (cx_in_flight c) (cx_hub c).
Definition set_cx_in_flight (v : Z) (c : ChainApiCtx) : ChainApiCtx :=
  mkCtx (cx_cfg c) (cx_cors c) (cx_push c) (cx_live_lag_blocks c) (cx_primary c) (cx_rr c) v (cx_hub c).
Definition set_cx_hub (v : HubMemory) (c : ChainApiCtx) : ChainApiCtx :=
  mkCtx (cx_cfg c) (cx_cors c) (cx_push c) (cx_live_lag_blocks c) (cx_primary c) (cx_rr c) (cx_in_flight c) v.

(** ** The environment of a request *)

Record Moment := mkMoment {
  mo_dir : ApiDirectory;
  mo_view : FleetView;
  mo_tips : Tips;
  mo_now : Z;
}.

Record Env := mkEnv {
  en_moment : nat -> Moment;
  en_turn : nat -> Turn;
  en_push : Z -> PushTurn;
}.

Definition moment_views (m : Moment) : list ApiView :=
  snapshot (mo_view m) (mo_tips m) (mo_now m) (mo_dir m).

(** The fleet head and LIB of the listener's SHiP view. *)
Definition ship_tip (m : Moment) (c : ChainApiCtx) : (option Z * option Z) * ChainApiCtx :=
  let '((head, lib), hub) := fresh_tip (mo_view m) (mo_tips m) (mo_now m) (cx_hub c) in
  ((num <$> head, num <$> lib), set_cx_hub hub c).

(** The [get_info] primary, kept sticky across requests. *)
Definition primary (views : list ApiView) (c : ChainApiCtx) : option Z * ChainApiCtx :=
  let p := info_primary views (cx_primary c) in (p, set_cx_primary p c).

(** ** The flows

    Each returns its answer, the effects it made and the listener's state;
    [None] is the attempt loop out of fuel, which never happens. *)

Definition Flow : Type := option (Answered * list Effect) * ChainApiCtx.

Section flow.
Context (error_code : list Z -> option Z) (json_parse : list Z -> option Json)
  (json_string : string -> string) (d : ApiDirectory) (env : Env).

(** The attempts of a flow over its order, or Busy when the order is empty. *)
Definition try_order (order : list Z) (policy : Policy) (empty why : Busy) (c : ChainApiCtx)
    : option (Answered * list Effect) :=
  match order with
  | [] => Some (router_answer (ErrBusy empty) 0, [])
  | _ =>
      match attempts error_code d (ac_max_response_bytes (cx_cfg c)) order policy why (en_turn env) with
      | Some (a, st) => Some (a, lp_effects st)
      | None => None
      end
  end.

Definition info_flow (c : ChainApiCtx) : Flow :=
  let views := moment_views (en_moment env 0) in
  let '(primary, c) := primary views c in
  let order := info_order views primary (ac_max_attempts (cx_cfg c)) in
  (try_order order PolInfo BusyNoLiveUpstream BusyNoLiveUpstream c, c).

(** State and exec calls, and unhinted block bodies; [k] is the snapshot's
    place among those of the request. *)
Definition state_flow (k : nat) (path : string) (policy : Policy) (c : ChainApiCtx) : Flow :=
  let m := en_moment env k in
  let views := moment_views m in
  let '((ship_head, _), c) := ship_tip m c in
  let query := mkStateQuery path ship_head (cx_live_lag_blocks c) (cx_rr c) (ac_max_attempts (cx_cfg c)) in
  let c := set_cx_rr ((cx_rr c + 1) mod 2 ^ 64) c in
  (try_order (state_order query views) policy BusyNoLiveUpstream BusyNoUpstream c, c).

(** Count a block request under its region and the role that answered it. *)
Definition counted (region : option Region) (r : option (Answered * list Effect))
    : option (Answered * list Effect) :=
  match r with
  | Some (a, es) => Some (a, es ++ [EfBlockRequest region (an_role a)])
  | None => None
  end.

Definition block_flow (ep : BlockEndpoint) (body : list Z) (c : ChainApiCtx) : Flow :=
  let m := en_moment env 0 in
  let views := moment_views m in
  let '((_, ship_lib), c) := ship_tip m c in
  let query := mkBlockQuery ep (hint json_parse ep body) ship_lib
                 (ac_block_source (cx_cfg c)) (ac_max_attempts (cx_cfg c)) in
  match plan_block query views with
  | Unhinted =>
      let '(r, c) := state_flow 1 (ep_path ep) PolState c in (counted None r, c)
  | RoutedTo r =>
      let policy := PolBlock (rt_region r) (rt_claimed r) (rt_id_holders r) in
      (counted (Some (rt_region r)) (try_order (rt_order r) policy BusyNoUpstream BusyNoUpstream c), c)
  end.

Definition push_flow (path : string) (c : ChainApiCtx) : Flow :=
  let views := moment_views (en_moment env 0) in
  let '(primary, c) := primary views c in
  let targets := push_targets views path (cx_push c) primary in
  (Some (push_loop error_code d targets (en_push env) 0 []), c).

(** ** A request *)

(** The permit goes with a body that is relayed or was read, and is dropped with
    an answer of the router. *)
Definition holds_permit (r : Reply) : bool :=
  match r with RpStreamed _ _ _ | RpBuffered _ _ => true | RpGenerated _ _ | RpRouter _ => false end.

Record Request := mkRequest {
  rq_method : string;
  rq_uri : Uri;
  rq_size : option Z;
  rq_frames : list BodyFrame;
}.

Definition run_flow (route : Route) (target : string) (body : list Z) (c : ChainApiCtx) : Flow :=
  match route with
  | RtBlock ep => block_flow ep body c
  | RtInfo => info_flow c
  | RtState => state_flow 0 target PolState c
  | RtExec => state_flow 0 target PolExec c
  | RtPush => push_flow target c
  | _ => (Some (router_answer ErrNotFound 0, []), c)
  end.

(** Take a permit, run the flow, and keep the permit while the body is sent. *)
Definition proxy (route : Route) (rq : Request) (body : list Z) (c : ChainApiCtx) : Flow :=
  let target := default "/" (origin_target (rq_uri rq)) in
  if cx_in_flight c <? ac_max_in_flight (cx_cfg c) then
    let '(r, c) := run_flow route target body (set_cx_in_flight (cx_in_flight c + 1) c) in
    (r, match r with
        | Some (a, _) => if holds_permit (an_reply a) then c else set_cx_in_flight (cx_in_flight c - 1) c
        | None => c
        end)
  else
    (Some (router_answer (ErrBusy (BusyInFlight (ac_max_in_flight (cx_cfg c)))) 0,
           [EfRejected ReInFlight]), c).

Definition supported_apis (c : ChainApiCtx) : string :=
  let views := moment_views (en_moment env 0) in
  let sets := omap av_apis (List.filter (fun a => av_up a && (av_is_live a || av_verified a)) views) in
  supported_apis_body json_string sets (ac_allow (cx_cfg c)).

Definition OPTIONS_BODY : string := "{}".

Definition reply_status (r : Reply) : Z :=
  match r with
  | RpStreamed _ status _ | RpBuffered status _ | RpGenerated status _ => status
  | RpRouter e => error_status e
  end.

(** What a client gets: an answer, its CORS headers and whether the connection
    closes after it, or a connection closed without one. *)
Inductive Handled :=
| HAnswered (r : Reply) (cors : option CorsHeaders) (close : bool)
| HUnanswered (why : BodyError).

Definition finish (route : Route) (close : bool) (a : Answered) (es : list Effect) (c : ChainApiCtx)
    : Handled * list Effect :=
  let cors := if bool_decide (route = RtIllegalTarget) then None else cx_cors c in
  (HAnswered (an_reply a) cors close,
   es ++ [EfRequest (route_label route) (reply_status (an_reply a))]).

(** [handle]: the whole body is read first, also for the router's own answers. *)
Definition handle (rq : Request) (c : ChainApiCtx) : option (Handled * list Effect) * ChainApiCtx :=
  let route := route_classify (rq_method rq) (rq_uri rq) (ac_allow (cx_cfg c)) in
  let own reply := (Some (finish route false (mkAnswered reply None None 0) [] c), c) in
  match read_body (ac_max_body_bytes (cx_cfg c)) (is_some (route_class route)) (rq_size rq) (rq_frames rq) with
  | Err BodyTooLarge =>
      (Some (finish route true (router_answer (ErrTooLarge (ac_max_body_bytes (cx_cfg c))) 0)
         [EfRejected ReBodyTooLarge] c), c)
  | Err BodyTimeout => (Some (HUnanswered BodyTimeout, [EfRejected ReTimeout]), c)
  | Err BodyFailed => (Some (HUnanswered BodyFailed, []), c)
  | Ok body =>
      match route with
      | RtIllegalTarget => own (RpRouter ErrIllegalTarget)
      | RtOptions => own (RpGenerated 200 OPTIONS_BODY)
      | RtSupportedApis => own (RpGenerated 200 (supported_apis c))
      | RtNotFound => own (RpRouter ErrNotFound)
      | RtBlock _ | RtInfo | RtState | RtExec | RtPush =>
          let '(r, c) := proxy route rq body c in
          (match r with Some (a, es) => Some (finish route false a es c) | None => None end, c)
      end
  end.
End flow.

(** ** The APIs a flow picks *)

(** A request for [target] may go to [a]: [a] is up, not busy and serves the
    path; an archive only for a block it reported to hold, never for
    [get_block]. *)
Definition may_reach (route : Route) (target : string) (block : option Z) (a : ApiView) : Prop :=
  usable a target = true
  /\ (av_is_live a = false ->
        exists ep n, route = RtBlock ep /\ ep <> EpBlock /\ block = Some n /\ archives a n = true).

Definition picked (views : list ApiView) (route : Route) (target : string) (block : option Z) (i : Z)
    : Prop :=
  exists a, a ∈ views /\ av_index a = i /\ may_reach route target block a.

Lemma live_picked views route target block a :
  a ∈ views -> av_is_live a = true -> usable a target = true ->
  picked views route target block (av_index a).
Proof. intros Ha Hl Hu. exists a. split_and!; [done..|]. split; [done|]. by rewrite Hl. Qed.

Lemma live_usable_picked views route target block i :
  live_usable views target i = true -> picked views route target block i.
Proof. intros (a & Ha & H)%existsb_elem. bools. subst i. by apply live_picked. Qed.

Lemma of_option_if (o : option Z) (f : Z -> bool) i :
  i ∈ of_option (o ≫= fun p => if f p then Some p else None) -> f i = true.
Proof.
  destruct o as [p|]; [|by intros ?%elem_of_nil]. cbn. destruct (f p) eqn:E; [|by intros ?%elem_of_nil].
  by intros ->%list_elem_of_singleton.
Qed.

Lemma elem_of_take_in {A} n (l : list A) x : x ∈ take n l -> x ∈ l.
Proof. intros (i & H & _)%elem_of_take. by eapply list_elem_of_lookup_2. Qed.

Lemma drop_laggards_in lag head cands a : a ∈ drop_laggards lag head cands -> a ∈ cands.
Proof.
  unfold drop_laggards. destruct (0 <? lag); [|done]. destruct (max_list _); [|done]. cbv zeta.
  destruct (List.filter _ cands) eqn:E; [done|]. rewrite <-E. by intros [? _]%elem_of_List_filter.
Qed.

Lemma info_order_picked views route block primary max i :
  i ∈ info_order views primary max -> picked views route GET_INFO block i.
Proof.
  unfold info_order. intros H%elem_of_take_in. apply elem_of_app in H as [H|H].
  - by apply live_usable_picked, (of_option_if primary).
  - apply list_elem_of_fmap in H as (a & -> & H). rewrite sort_by_perm in H.
    apply elem_of_List_filter in H as [Ha H]. bools. by apply live_picked.
Qed.

Lemma push_targets_picked views route block path push primary i :
  i ∈ push_targets views path push primary -> picked views route path block i.
Proof.
  unfold push_targets. destruct push as [|p push].
  - intros H. by apply live_usable_picked, (of_option_if primary).
  - intros [_ H]%elem_of_List_filter. by apply live_usable_picked.
Qed.

Lemma state_order_picked views route block q i :
  i ∈ state_order q views -> picked views route (sq_path q) block i.
Proof.
  unfold state_order. intros (ra & -> & H%elem_of_take_in)%list_elem_of_fmap.
  rewrite sort_by_perm in H. apply elem_of_lookup_imap in H as (j & a & -> & Ha%list_elem_of_lookup_2).
  rewrite sort_by_perm in Ha. apply drop_laggards_in in Ha.
  apply elem_of_List_filter in Ha as [Ha H]. bools. by apply live_picked.
Qed.

(** ** What a flow sends *)

Definition sent_api (e : Sent) : Z := e.1.1.1.1.
Definition sent_role (e : Sent) : Role := e.1.1.1.2.

Section sends.
Context (error_code : list Z -> option Z) (json_parse : list Z -> option Json)
  (json_string : string -> string) (ups : list ApiUpstream) (cap : Z)
  (hist : Z -> list SlotEvent) (first : option (list Z)) (env : Env).

(** The upstreams have distinct indices, and every moment of the request sees
    the same upstreams, each after a history of its own. *)
Hypothesis Hups : NoDup (map au_index ups).
Hypothesis Hmoments : forall k, exists hist first, mo_dir (en_moment env k) = dir_after ups cap hist first.

Notation d := (dir_after ups cap hist first).

(** A request was sent to an API a snapshot of the request shows, may_reach for
    it, under its role. *)
Definition sent_ok (route : Route) (target : string) (block : option Z) (e : Sent) : Prop :=
  exists k a, a ∈ moment_views (en_moment env k) /\ av_index a = sent_api e
    /\ av_role a = sent_role e /\ may_reach route target block a.

Definition once_only (route : Route) : bool :=
  match route with RtExec | RtPush => true | _ => false end.

(** What holds of the effects of a flow. *)
Definition sends_ok (route : Route) (target : string) (block : option Z) (max : Z) (es : list Effect)
    : Prop :=
  let sent := omap sent_of es in
  Forall (sent_ok route target block) sent
  /\ (once_only route = true -> forall before e after, sent = before ++ e :: after -> all_unwritten before)
  /\ (route <> RtPush -> NoDup (map sent_api sent) /\ (length sent <= attempts_cap max)%nat).

Lemma moment_indices k : NoDup (map av_index (moment_views (en_moment env k))).
Proof.
  destruct (Hmoments k) as (h & f & Hd). unfold moment_views. by rewrite Hd, snapshot_indices.
Qed.

(** The role of a slot is the one every snapshot shows for its index. *)
Lemma slot_role_shown k a i sl :
  slot_of d i = Some sl -> a ∈ moment_views (en_moment env k) -> av_index a = sl_index sl ->
  av_role a = sl_role sl.
Proof.
  intros (u & Hu & <- & ->)%slot_of_inv Ha Hi.
  destruct (Hmoments k) as (h & f & Hd). unfold moment_views, snapshot in Ha.
  rewrite Hd, dir_after_slots, map_map in Ha. apply list_elem_of_fmap in Ha as (u' & -> & Hu').
  destruct (snapshot_index (mo_view (en_moment env k)) (mo_tips (en_moment env k))
    (mo_now (en_moment env k)) cap h u') as [Hi' ->].
  rewrite Hi' in Hi. pose proof (slot_after_static cap hist u) as Hs. injection Hs as Hs1 _ Hs2 _ _ _ _.
  rewrite Hs1 in Hi. rewrite Hs2. cbn in *. f_equal. by eapply (NoDup_map_inj au_index).
Qed.

Lemma sent_to_slot_ok route target block k e :
  sent_to_slot d e -> picked (moment_views (en_moment env k)) route target block (sent_api e) ->
  sent_ok route target block e.
Proof.
  intros (i & sl & Hs & Ei & Er) (a & Ha & Hi & He). exists k, a. split_and!; [done..| |done].
  unfold sent_role. rewrite Er. eapply slot_role_shown; [done..|]. by rewrite Hi.
Qed.

Lemma sends_none route target block max es : omap sent_of es = [] -> sends_ok route target block max es.
Proof.
  intros H. unfold sends_ok. rewrite H. split_and!; [constructor| |].
  - intros _ before e after Hn. by destruct before.
  - intros _. split; [constructor|cbn; lia].
Qed.

(** The attempts of a flow whose order it may use. *)
Lemma try_order_ok k route target block policy empty why order c :
  (forall i, i ∈ order -> picked (moment_views (en_moment env k)) route target block i) ->
  (once_only route = true -> policy = PolExec) ->
  (length order <= attempts_cap (ac_max_attempts (cx_cfg c)))%nat ->
  exists a es, try_order error_code d env order policy empty why c = Some (a, es)
    /\ sends_ok route target block (ac_max_attempts (cx_cfg c)) es.
Proof.
  intros Hp Honce Hlen. unfold try_order. destruct order as [|x order].
  { do 2 eexists. split; [done|]. by apply sends_none. }
  destruct (attempts_terminates error_code d (ac_max_response_bytes (cx_cfg c)) (x :: order) policy why
    (en_turn env)) as (a & st & H); [apply dir_after_ok|]. rewrite H.
  exists a, (lp_effects st). split; [done|].
  destruct (attempts_once _ _ _ _ _ _ _ _ _ (dir_after_ok ups cap hist first) H) as (H1 & H2 & H3).
  assert (forall i, i ∈ sent_apis st -> i ∈ x :: order) as Hsub.
  { intros i Hi. apply H2. by eapply elem_of_submseteq, sublist_submseteq. }
  assert (NoDup (sent_apis st)) as Hnd by by eapply sublist_NoDup.
  split_and!.
  - pose proof (attempts_slots _ _ _ _ _ _ _ _ _ H) as Hs. rewrite Forall_forall in Hs |- *.
    intros e He. apply (sent_to_slot_ok _ _ _ k); [by apply Hs|]. apply Hp, Hsub.
    unfold sent_apis. by apply (list_elem_of_fmap_2 sent_api).
  - intros Ho before e after Ht. eapply attempts_moved_on in H as [kept H]; [|exact Ht].
    rewrite (Honce Ho) in H. by eapply spec_exec_unwritten.
  - intros _. split; [done|]. apply NoDup_submseteq, submseteq_length in Hsub; [|done].
    unfold sent_apis in Hsub. rewrite length_map in Hsub. unfold trace in Hsub. lia.
Qed.

(** The target of a route. *)
Definition route_target (route : Route) (target : string) : Prop :=
  match route with RtBlock ep => target = ep_path ep | RtInfo => target = GET_INFO | _ => True end.

Lemma ship_tip_cfg m c tip c' : ship_tip m c = (tip, c') ->
  cx_cfg c' = cx_cfg c /\ cx_in_flight c' = cx_in_flight c /\ cx_cors c' = cx_cors c.
Proof.
  unfold ship_tip. destruct (fresh_tip _ _ _ _) as [[head lib] hub]. by intros [= <- <-].
Qed.

(** What a flow leaves: its answer, sends as it may, and the permits as they
    were. *)
Definition flow_ok (route : Route) (target : string) (block : option Z) (c : ChainApiCtx) (f : Flow) : Prop :=
  (exists a es, f.1 = Some (a, es) /\ sends_ok route target block (ac_max_attempts (cx_cfg c)) es)
  /\ cx_cfg f.2 = cx_cfg c /\ cx_in_flight f.2 = cx_in_flight c /\ cx_cors f.2 = cx_cors c.

Lemma info_flow_ok block c : flow_ok RtInfo GET_INFO block c (info_flow error_code d env c).
Proof.
  unfold info_flow, primary. cbv zeta. split; [|done]. cbn [fst].
  apply (try_order_ok 0 _ _ _ _ _ _ _ (set_cx_primary _ c)); [|done|unfold info_order; rewrite length_take; cbn; lia].
  intros i. apply info_order_picked.
Qed.

Lemma state_flow_ok k route target block policy c :
  (once_only route = true -> policy = PolExec) ->
  flow_ok route target block c (state_flow error_code d env k target policy c).
Proof.
  intros Hp. unfold state_flow. destruct (ship_tip (en_moment env k) c) as [[head lib] c'] eqn:E.
  apply ship_tip_cfg in E as (Hc & Hf & Hcors). cbv zeta. unfold flow_ok. cbn [fst snd].
  split; [|done]. rewrite <-Hc.
  apply (try_order_ok k _ _ _ _ _ _ _ (set_cx_rr _ c')); [|done|].
  - intros i. apply state_order_picked.
  - unfold state_order. rewrite length_map, length_take. cbn. lia.
Qed.

Lemma counted_ok route target block max region r :
  (exists a es, r = Some (a, es) /\ sends_ok route target block max es) ->
  exists a es, counted region r = Some (a, es) /\ sends_ok route target block max es.
Proof.
  intros (a & es & -> & Hs). do 2 eexists. split; [done|]. unfold sends_ok in *.
  rewrite omap_app. cbn [omap list_omap sent_of]. by rewrite app_nil_r.
Qed.

Lemma block_flow_ok ep body c :
  flow_ok (RtBlock ep) (ep_path ep) (hint_num <$> hint json_parse ep body) c
    (block_flow error_code json_parse d env ep body c).
Proof.
  unfold block_flow. destruct (ship_tip (en_moment env 0) c) as [[head lib] c'] eqn:E.
  apply ship_tip_cfg in E as (Hc & Hf & Hcors). cbv zeta.
  set (q := mkBlockQuery _ _ _ _ _). destruct (plan_block q _) as [|r] eqn:Ep.
  - destruct (state_flow_ok 1 (RtBlock ep) (ep_path ep) (hint_num <$> hint json_parse ep body) PolState c')
      as (Hr & H1 & H2 & H3); [done|].
    destruct (state_flow _ _ _ _ _ _ _) as [r c2]. unfold flow_ok. cbn [fst snd] in *.
    rewrite Hc in Hr. split; [by apply counted_ok|]. by rewrite H1, H2, H3.
  - unfold flow_ok. cbn [fst snd]. split; [|done]. apply counted_ok. rewrite <-Hc.
    destruct (plan_block_views q _ r (moment_indices 0) Ep) as (h & o & Hh & Hn & _ & _ & Ho & Hnd & Hsub & Hlen & _).
    apply (try_order_ok 0); [|done|rewrite Ho, length_map, Hlen; cbn; lia].
    intros i Hi. rewrite Ho in Hi. apply list_elem_of_fmap in Hi as (a & -> & [Ha Hcand]%Hsub).
    exists a. split_and!; [done..|]. cbn in Hh. rewrite Hh. unfold may_reach.
    unfold block_candidate, irreversible_candidate in Hcand.
    destruct (rt_region r), (av_is_live a); bools; (split; [done|]); try done. intros _.
    exists ep, (hint_num h). split_and!; try done. by rewrite <-Hn.
Qed.

Lemma push_loop_sends targets penv tries es route target block k :
  (forall i, i ∈ targets -> picked (moment_views (en_moment env k)) route target block i) ->
  Forall (sent_ok route target block) (omap sent_of es) ->
  Forall (sent_ok route target block) (omap sent_of (push_loop error_code d targets penv tries es).2).
Proof.
  assert (forall l e, Forall (sent_ok route target block) (omap sent_of l) -> quiet e ->
    Forall (sent_ok route target block) (omap sent_of (l ++ e))) as Hq.
  { intros l e Hl He. by rewrite omap_app, He, app_nil_r. }
  revert tries es. induction targets as [|i targets IH]; intros tries es Hp Hes; [by apply Hq|].
  specialize (IH). assert (forall tries es, Forall (sent_ok route target block) (omap sent_of es) ->
    Forall (sent_ok route target block) (omap sent_of (push_loop error_code d targets penv tries es).2)) as Hrec.
  { intros tries' es' He. apply IH; [|done]. intros j Hj. apply Hp. by right. }
  clear IH. cbn [push_loop]. cbv zeta. destruct (p_past_deadline (penv i)); [by apply Hq|].
  destruct (slot_of d i) as [sl|] eqn:Es; [|by apply Hrec].
  destruct (p_slot_taken (penv i)); [|by apply Hrec]. destruct (p_request_ok (penv i)); [|by apply Hrec].
  cbn [negb]. set (e := EfSent _ _ _ _ _).
  assert (Forall (sent_ok route target block) (omap sent_of (es ++ [e]))) as Hes'.
  { rewrite omap_app. apply Forall_app. split; [done|]. constructor; [|constructor].
    apply (sent_to_slot_ok _ _ _ k); [by exists i, sl|].
    unfold sent_api. cbn. rewrite (dir_after_ok ups cap hist first i sl Es). apply Hp. by left. }
  destruct (p_attempt (penv i)); [by apply Hq|by apply Hrec, Hq, quiet_failed| |by apply Hq..].
  destruct (p_cut_short (penv i)); [|by apply Hrec, Hq, quiet_failed].
  apply Hq; [|done]. by apply Hq.
Qed.

Lemma push_flow_ok target block c : flow_ok RtPush target block c (push_flow error_code d env target c).
Proof.
  unfold push_flow, primary. cbv zeta. split; [|done]. cbn [fst].
  set (targets := push_targets _ _ _ _).
  pose proof (push_loop_ends error_code d targets (en_push env) 0 []) as H.
  pose proof (push_loop_sends targets (en_push env) 0 [] RtPush target block 0) as Hs.
  destruct (push_loop _ _ _ _ _ _) as [a es]. exists a, es. split; [done|].
  destruct H as (_ & _ & tail & Ht & Hb); [by split_and!; constructor|]. cbn in Ht. subst tail.
  split_and!; [|by intros _|done].
  apply Hs; [|constructor]. intros i. apply push_targets_picked.
Qed.

Lemma run_flow_ok route target body c :
  route_target route target ->
  flow_ok route target (match route with RtBlock ep => hint_num <$> hint json_parse ep body | _ => None end) c
    (run_flow error_code json_parse d env route target body c).
Proof.
  destruct route; cbn [route_target run_flow];
    [| | |intros ->; apply block_flow_ok|intros ->; apply info_flow_ok
    |intros _; by apply state_flow_ok..|intros _; apply push_flow_ok|];
    intros _; (split; [|done]); do 2 eexists; (split; [done|]); by apply sends_none.
Qed.

(** The permits after a request: one more while the body of an answer is sent. *)
Lemma proxy_ok route rq body c target :
  origin_target (rq_uri rq) = Some target -> route_target route target ->
  let f := proxy error_code json_parse d env route rq body c in
  exists a es, f.1 = Some (a, es)
    /\ sends_ok route target (match route with RtBlock ep => hint_num <$> hint json_parse ep body | _ => None end)
         (ac_max_attempts (cx_cfg c)) es
    /\ cx_in_flight f.2 = cx_in_flight c + (if holds_permit (an_reply a) then 1 else 0)
    /\ (cx_in_flight c <= ac_max_in_flight (cx_cfg c) -> cx_in_flight f.2 <= ac_max_in_flight (cx_cfg c))
    /\ cx_cors f.2 = cx_cors c.
Proof.
  intros Ht Hr. unfold proxy. rewrite Ht. cbn [default]. cbv zeta.
  destruct (cx_in_flight c <? ac_max_in_flight (cx_cfg c)) eqn:E; bools.
  - pose proof (run_flow_ok route target body (set_cx_in_flight (cx_in_flight c + 1) c) Hr) as H.
    change (default "/" (Some target)) with target.
    destruct (run_flow _ _ _ _ _ _ _ _) as [r c']. destruct H as ((a & es & H1 & H2) & H3 & H4 & H5).
    cbn [fst snd] in *. subst r. exists a, es. split; [done|]. split; [done|]. cbn in H4, H5.
    destruct (holds_permit (an_reply a)); cbn; rewrite ?H4; split_and!; (lia || done).
  - do 2 eexists. split; [done|]. split; [by apply sends_none|]. cbn. split_and!; (lia || done).
Qed.
End sends.

Lemma classify_target method uri allow :
  match route_classify method uri allow with
  | RtIllegalTarget => origin_target uri = None
  | r => exists target, origin_target uri = Some target /\ route_target r target
  end.
Proof.
  unfold route_classify. destruct (origin_target uri) as [target|]; [|done].
  destruct (bool_decide (method = _)); [by eexists|]. destruct (bool_decide (target = _)); [by eexists|].
  destruct (proxied target) as [r|] eqn:Ep; [|by eexists]. destruct (allowed allow r); [|by eexists].
  assert (route_target r target /\ r <> RtIllegalTarget) as [Hr Hne].
  2:{ destruct r; eauto; done. }
  unfold proxied in Ep. destruct (from_target target) as [ep|] eqn:Ef.
  { injection Ep as <-. by apply from_target_some in Ef. }
  destruct (strip_prefix CHAIN_PREFIX target) as [name|] eqn:Es; [|done].
  apply strip_prefix_app in Es. destruct (_ || _); [done|].
  destruct (bool_decide (name = "get_info")) eqn:Ei.
  { injection Ep as <-. bools. subst. done. }
  repeat case_bool_decide; try done; injection Ep as <-; done.
Qed.

(** What a request may do: [h] is its outcome, [es] its effects. *)
Definition request_ok (json_parse : list Z -> option Json) (env : Env) (rq : Request) (c : ChainApiCtx)
    (h : Handled) (es : list Effect) (c' : ChainApiCtx) : Prop :=
  let route := route_classify (rq_method rq) (rq_uri rq) (ac_allow (cx_cfg c)) in
  let sent := omap sent_of es in
  (forall e, e ∈ sent -> exists target cl body,
     origin_target (rq_uri rq) = Some target /\ route_class route = Some cl /\ cl ∈ ac_allow (cx_cfg c)
     /\ read_body (ac_max_body_bytes (cx_cfg c)) true (rq_size rq) (rq_frames rq) = Ok body
     /\ sent_ok env route target
          (match route with RtBlock ep => hint_num <$> hint json_parse ep body | _ => None end) e)
  /\ (once_only route = true -> forall before e after, sent = before ++ e :: after -> all_unwritten before)
  /\ (route <> RtPush -> NoDup (map sent_api sent)
        /\ (length sent <= attempts_cap (ac_max_attempts (cx_cfg c)))%nat)
  /\ cx_in_flight c' = cx_in_flight c
       + match h with HAnswered r _ _ => if holds_permit r then 1 else 0 | HUnanswered _ => 0 end
  /\ (cx_in_flight c <= ac_max_in_flight (cx_cfg c) -> cx_in_flight c' <= ac_max_in_flight (cx_cfg c)).

(** A request the router answers itself. *)
Lemma request_own json_parse env rq c h es :
  omap sent_of es = [] ->
  match h with HAnswered r _ _ => holds_permit r = false | HUnanswered _ => True end ->
  request_ok json_parse env rq c h es c.
Proof.
  intros He Hh. unfold request_ok. cbv zeta. rewrite He. split_and!; [by intros ? ?%elem_of_nil| | | |done].
  - intros _ before e after Hn. by destruct before.
  - intros _. split; [constructor|cbn; lia].
  - destruct h; [rewrite Hh|]; lia.
Qed.

Lemma route_allowed method uri allow cl :
  route_class (route_classify method uri allow) = Some cl -> cl ∈ allow.
Proof.
  unfold route_classify. destruct (origin_target uri) as [target|]; [|done].
  destruct (bool_decide (method = _)); [done|]. destruct (bool_decide (target = _)); [done|].
  destruct (proxied target) as [r|]; [|done]. destruct (allowed allow r) eqn:Ea; [|done].
  intros Hc. unfold allowed in Ea. rewrite Hc in Ea. by apply bool_decide_eq_true in Ea.
Qed.

(** C15: A request ends, and reaches only what it may. Whatever the snapshots,
    slots and upstreams do while it runs, [handle] answers or closes, and every
    request it sends goes to an API a snapshot shows as up, not busy and serving
    the path, an archive only when the request names a block the archive reported;
    a request of a class the listener does not serve sends nothing. A call that
    may execute is written at most once; others go to each API at most once, and
    to no more than the attempts allowed. The permit is kept exactly while a
    relayed body is sent, and permits never exceed the limit. *)
Theorem handle_safe error_code json_parse json_string ups cap hist first env rq c :
  NoDup (map au_index ups) ->
  (forall k, exists hist first, mo_dir (en_moment env k) = dir_after ups cap hist first) ->
  exists h es c',
    handle error_code json_parse json_string (dir_after ups cap hist first) env rq c = (Some (h, es), c')
    /\ request_ok json_parse env rq c h es c'.
Proof.
  intros Hups Hm. set (d := dir_after ups cap hist first). unfold handle. cbv zeta.
  pose proof (classify_target (rq_method rq) (rq_uri rq) (ac_allow (cx_cfg c))) as Ht.
  pose proof (route_allowed (rq_method rq) (rq_uri rq) (ac_allow (cx_cfg c))) as Hal.
  assert (forall h es, omap sent_of es = [] ->
    match h with HAnswered r _ _ => holds_permit r = false | HUnanswered _ => True end ->
    exists h' es' c', (Some (h, es), c) = (Some (h', es'), c') /\ request_ok json_parse env rq c h' es' c') as Hown.
  { intros h es He Hh. exists h, es, c. split; [done|]. by apply request_own. }
  destruct (read_body _ _ _ _) as [body|[]] eqn:Eb; [|by apply Hown..].
  set (route := route_classify _ _ _) in *.
  destruct (route_class route) as [cl|] eqn:Ecl.
  2:{ destruct route; try done; by apply Hown. }
  assert (exists target, origin_target (rq_uri rq) = Some target /\ route_target route target) as (target & Ho & Hr).
  { by destruct route. }
  destruct (proxy_ok error_code json_parse ups cap hist first env Hups Hm route rq body c target Ho Hr)
    as (a & es & H1 & (Hs1 & Hs2 & Hs3) & H3 & H4 & _).
  destruct (proxy error_code json_parse (dir_after ups cap hist first) env route rq body c) as [r c'] eqn:Ep.
  cbn [fst snd] in *. subst r.
  exists (finish route false a es c').1, (finish route false a es c').2, c'. split.
  { by destruct route; try done; subst d; rewrite Ep. }
  assert (omap sent_of (finish route false a es c').2 = omap sent_of es) as He.
  { cbn. rewrite omap_app. cbn. by rewrite app_nil_r. }
  unfold request_ok. cbv zeta. fold route. rewrite He, Ecl. split_and!; try done.
  intros e Hin. exists target, cl, body. rewrite Forall_forall in Hs1. split_and!; auto.
Qed.

(** ** Witness *)

Definition demo_cfg : ChainApiConfig :=
  mkApiConfig 8888 None [ClBlock] FrozenFirst [] 1000 0 1024 4 64 1000 10000 30000 2 1000 None None.
Definition demo_ctx : ChainApiCtx := mkCtx demo_cfg None [] 0 None 0 0 (new_memory 0).
Definition demo_moment (_ : nat) : Moment := mkMoment demo_dir demo_view [] 0.
Definition demo_env : Env :=
  mkEnv demo_moment demo_turn (fun _ => mkPushTurn false true true false AtConnect).
Definition demo_request : Request :=
  mkRequest "POST" (mkUri None None (Some (ep_path EpRawBlock))) (Some 3) [FrData [123; 49; 125]].
Definition demo_parse (_ : list Z) : option Json := Some (JObj [("block_num_or_id", JU64 600)]).

Lemma handle_safe_witness :
  exists h es c',
    handle demo_code demo_parse (fun s => s) demo_dir demo_env demo_request demo_ctx = (Some (h, es), c')
    /\ request_ok demo_parse demo_env demo_request demo_ctx h es c'.
Proof.
  apply (handle_safe demo_code demo_parse (fun s => s) [demo_up] 4 demo_hist None demo_env demo_request demo_ctx).
  - apply (bool_decide_unpack _). vm_compute. exact I.
  - intros k. by exists demo_hist, None.
Defined.

(** The request of the witness reaches the archive. *)
Example demo_request_sent :
  map sent_api (omap sent_of (default (HUnanswered BodyFailed, [])
    (handle demo_code demo_parse (fun s => s) demo_dir demo_env demo_request demo_ctx).1).2) = [0].
Proof. vm_compute. reflexivity. Qed.
