(* ===== verification/Config.v ===== *)
(** * The configuration

    Models, of [src/src/models.rs], the configuration file as it is parsed
    ([ServerConfig]), its validation ([validate] and what it calls), the listeners
    and chain APIs it resolves to, and its warnings.

    The URI and header parsers of the [http] crate, the file system with the ABI
    reader, and the PEM and key readers are the class [ConfigEnv]: parameters that
    return what the code reads of their results.  Validation and resolution run on
    one state of the disk.  Texts are ASCII: [trim] leaves other white space of
    Unicode alone.  An error is the listener it names and its reason; its text is
    left out, as are log lines.  ConfigSpec.v has the specification and the
    theorems. *)

From stdpp Require Import pretty.
From S2P Require Import Prelude Wire Models Coverage ApiRoute ApiPick ApiDirectory Abi Tls ApiFlow.

(** ** What is read from other code *)

(** [http::uri::Authority] and [http::Uri] by the accessors that are used. *)
Record Authority := mkAuthority {
  au_text : string;
  au_host : string;
  au_port : option Z;
}.
Record ParsedUri := mkParsedUri {
  pu_scheme : option string;
  pu_authority : option Authority;
  pu_path : string;
  pu_query : option string;
}.

Class ConfigEnv := {
  uri_parse : string -> option ParsedUri;
  authority_parse : string -> option Authority;
  header_value_ok : string -> bool;
  read_to_string : string -> option string;
  abi_from_json : string -> bool;
  cert : Type; private_key : Type; certified_key : Type;
  tls_disk : @Disk cert private_key certified_key;
}.

(** ** The file *)

Record ListenerConfig := mkListener {
  lc_name : string;
  lc_listen_address : option string;
  lc_listen_port : Z;
  lc_servers : list Server;
  lc_max_connections : option Z;
  lc_chain_id : option string;
  lc_require_chain_id : bool;
  lc_block_failure_quarantine : option BlockFailureQuarantine;
  lc_topology : Topology;
  lc_stitching : option StitchingPolicy;
  lc_chain_api : option ChainApiConfig;
  lc_tls : option TlsConfig;
}.

Record DashboardConfig := mkDashboard {
  db_enabled : bool;
  db_control_token : option string;
  db_control_token_file : option string;
  db_allowed_hosts : list string;
}.

Record ServerConfig := mkConfig {
  sc_listen_address : string;
  sc_listen_port : Z;
  sc_upstream_reconnect_ms : Z;
  sc_upstream_monitoring_ms : Z;
  sc_upstream_status_ms : Z;
  sc_servers : list Server;
  sc_chain_id : option string;
  sc_require_chain_id : bool;
  sc_block_failure_quarantine : option BlockFailureQuarantine;
  sc_topology : Topology;
  sc_stitching : option StitchingPolicy;
  sc_chain_api : option ChainApiConfig;
  sc_tls : option TlsConfig;
  sc_listeners : list ListenerConfig;
  sc_max_connections : Z;
  sc_handshake_timeout_ms : Z;
  sc_idle_timeout_ms : Z;
  sc_upstream_liveness_timeout_ms : Z;
  sc_max_message_bytes : Z;
  sc_max_client_message_bytes : Z;
  sc_shutdown_grace_ms : Z;
  sc_upstream_stall_timeout_ms : Z;
  sc_live_lag_blocks : Z;
  sc_metrics_address : option string;
  sc_metrics_port : option Z;
  sc_dashboard : DashboardConfig;
}.

Definition MAX_GAP_WAIT_MS : Z := 3600000.
Definition MAX_CAPACITY : Z := 1000000.
Definition MIN_CONTROL_TOKEN_LEN : Z := 16.
Definition API_MIN_RESPONSE_BYTES : Z := 64 * 1024.
Definition API_MIN_UPSTREAM_TIMEOUT_MS : Z := 100.
Definition DEFAULT_UPSTREAM_CONNECT_TIMEOUT_MS : Z := 10000.

(** [RangeInclusive::contains]. *)
Definition in_range (lo hi x : Z) : bool := (lo <=? x) && (x <=? hi).
Definition API_MAX_BODY_BYTES : Z -> bool := in_range 1024 (64 * 1024 * 1024).
Definition API_MAX_ATTEMPTS : Z -> bool := in_range 1 8.
Definition API_PROBE_MS : Z -> bool := in_range 100 60000.

(** ** Errors *)

Inductive Invalid :=
| IvZero (field : string)
| IvTooMany (field : string)
| IvOutOfRange (field : string)
| IvEmpty (field : string)
| IvDashboardPort
| IvTwoTokens
| IvShortToken
| IvServersAndListeners
| IvTopLevel (field : string)
| IvChainId (raw : string)
| IvRequireChainId
| IvNoServer
| IvNoEnabledServer
| IvFrozenWithoutShip (server : string)
| IvZeroWeight (server : string)
| IvEmptyEndpoint (server : string)
| IvScheme (server : string)
| IvUrl (server : string)
| IvNoHost (server : string)
| IvDuplicateEndpoint (endpoint previous : string)
| IvRangeNotFrozen (server : string)
| IvRange (server : string)
| IvMaxSessions (server : string)
| IvFrozenInPool
| IvStitchedChainId
| IvAbiFile
| IvHttpsApi (server : string)
| IvApiEndpoint (server : string)
| IvDuplicateApi (server previous : string)
| IvNoApiServer
| IvDuplicateClass
| IvDeadline
| IvQueue
| IvPushNotAllowed
| IvDuplicatePush (name : string)
| IvPushServer (name : string)
| IvCors (field : string)
| IvTls (e : TlsError)
| IvListenerNameEmpty (index : nat)
| IvListenerName (name : string)
| IvDuplicateListener (name : string)
| IvConflict (name previous : string)
| IvMetricsConflict (port : Z)
| IvApiPortConflict (port : Z)
| IvTokenFile (path : string).

Definition ConfigError : Type := option string * Invalid.
Definition Checked : Type := result unit ConfigError.

(** [if b { bail!(..) }]. *)
Definition bail_if (b : bool) (ctx : option string) (e : Invalid) : Checked :=
  if b then Err (ctx, e) else Ok tt.

(** [if let Some(x) = o { f(x)?; }]. *)
Definition if_some {A} (o : option A) (f : A -> Checked) : Checked :=
  match o with Some a => f a | None => Ok tt end.

(** [Result::ok]. *)
Definition to_option {A E} (r : result A E) : option A := match r with Ok a => Some a | Err _ => None end.

(** A [for] loop whose body may fail. *)
Fixpoint each {A} (f : A -> Checked) (l : list A) : Checked :=
  match l with
  | [] => Ok tt
  | x :: l => let? _ := f x in each f l
  end.

(** ** Addresses *)

Definition format_bind_addr (host : string) (port : Z) : string :=
  let host := trim host in
  if contains ":" host && negb (starts_with "[" host)
  then String.append "[" (String.append host (String.append "]:" (pretty port)))
  else String.append host (String.append ":" (pretty port)).

Definition normalize_bind_host (addr : string) : string :=
  let trimmed := trim addr in
  default trimmed (strip_prefix "[" trimmed ≫= strip_suffix "]").

Definition is_unspecified_addr (addr : string) : bool :=
  bool_decide (normalize_bind_host addr ∈ ["0.0.0.0"; "::"; "0:0:0:0:0:0:0:0"]).

Definition eq_ignore_ascii_case (a b : string) : bool :=
  bool_decide (to_ascii_lowercase a = to_ascii_lowercase b).

Definition addresses_conflict (a b : string) : bool :=
  let a := normalize_bind_host a in
  let b := normalize_bind_host b in
  eq_ignore_ascii_case a b || is_unspecified_addr a || is_unspecified_addr b.

(** ** Chain ids *)

(** The two-byte chunks of a text of hex digits. *)
Definition parse_chain_id (raw : string) : option (list Z) :=
  let hex := trim raw in
  if negb (String.length hex =? 64)%nat || negb (all_chars is_ascii_hexdigit hex) then None
  else hex_pairs hex.

(** ** Servers *)

Section env.
Context `{ConfigEnv}.

(** The text after the last occurrence of a character, and the text before it. *)
Fixpoint rsplit_once (sep : Ascii.ascii) (s : string) : option (string * string) :=
  match s with
  | EmptyString => None
  | String.String c s =>
      match rsplit_once sep s with
      | Some (a, b) => Some (String.String c a, b)
      | None => if Ascii.eqb c sep then Some (EmptyString, s) else None
      end
  end.

Definition is_ws (scheme : string) : bool := bool_decide (scheme = "ws" \/ scheme = "wss").

Definition upstream_identity (server endpoint : string) : result string Invalid :=
  let trimmed := trim endpoint in
  let? _ :=
    match split_once "://" trimmed with
    | Some (scheme, _) =>
        if negb (is_uri_scheme scheme) then Err (IvScheme server)
        else if negb (is_ws (to_ascii_lowercase scheme)) then Err (IvScheme server)
        else Ok tt
    | None => Ok tt
    end in
  match uri_parse (dial_url trimmed) with
  | None => Err (IvUrl server)
  | Some uri =>
      let scheme := default EmptyString (pu_scheme uri) in
      if negb (is_ws scheme) then Err (IvScheme server)
      else
        match pu_authority uri with
        | None => Err (IvNoHost server)
        | Some authority =>
            let host := au_host authority in
            if str_is_empty host then Err (IvNoHost server)
            else
              let port := default (if bool_decide (scheme = "wss"%string) then 443 else 80) (au_port authority) in
              let host := to_ascii_lowercase host in
              let userinfo := match rsplit_once (Ascii.ascii_of_nat 64) (au_text authority) with
                              | Some (user, _) => String.append user "@"
                              | None => EmptyString
                              end in
              let query := match pu_query uri with Some q => String.append "?" q | None => EmptyString end in
              Ok (String.append scheme (String.append "://" (String.append userinfo (String.append host
                   (String.append ":" (String.append (pretty port) (String.append (pu_path uri) query)))))))
        end
  end.

(** The loop of [validate_servers]; [seen] maps an identity to its endpoint. *)
Fixpoint servers_loop (ctx : option string) (servers : list Server) (seen : gmap string string) : Checked :=
  match servers with
  | [] => Ok tt
  | s :: servers =>
      if blank (sv_endpoint s) then
        if is_some (sv_api_endpoint s) then
          let? _ := bail_if (bool_decide (sv_role s = Frozen)) ctx (IvFrozenWithoutShip (sv_name s)) in
          let? _ := bail_if (sv_weight s =? 0) ctx (IvZeroWeight (sv_name s)) in
          servers_loop ctx servers seen
        else
          let? _ := bail_if (sv_enabled s) ctx (IvEmptyEndpoint (sv_name s)) in
          servers_loop ctx servers seen
      else
        match upstream_identity (sv_name s) (sv_endpoint s) with
        | Err e => Err (ctx, e)
        | Ok identity =>
            let? _ := bail_if (sv_weight s =? 0) ctx (IvZeroWeight (sv_name s)) in
            if negb (sv_enabled s) then servers_loop ctx servers seen
            else
              match seen !! identity with
              | Some previous => Err (ctx, IvDuplicateEndpoint (sv_endpoint s) previous)
              | None => servers_loop ctx servers (<[identity := sv_endpoint s]> seen)
              end
        end
  end.

Definition validate_servers (servers : list Server) (ctx : option string) : Checked :=
  let? _ := bail_if (bool_decide (servers = [])) ctx IvNoServer in
  let? _ := bail_if (negb (existsb sv_enabled servers)) ctx IvNoEnabledServer in
  servers_loop ctx servers ∅.

Definition validate_block_failure_quarantine (policy : BlockFailureQuarantine) (ctx : option string) : Checked :=
  let? _ := bail_if (q_strikes policy =? 0) ctx (IvZero "block_failure_quarantine.strikes") in
  let? _ := bail_if (q_window_secs policy =? 0) ctx (IvZero "block_failure_quarantine.window_secs") in
  let? _ := bail_if (q_ttl_secs policy =? 0) ctx (IvZero "block_failure_quarantine.ttl_secs") in
  bail_if (q_range policy =? 0) ctx (IvZero "block_failure_quarantine.range").

Definition validate_role (ctx : option string) (s : Server) : Checked :=
  let? _ := if_some (sv_range s) (fun range =>
    let? _ := bail_if (bool_decide (sv_role s <> Frozen)) ctx (IvRangeNotFrozen (sv_name s)) in
    bail_if ((rbegin range =? 0) || range_is_empty range) ctx (IvRange (sv_name s))) in
  bail_if (bool_decide (sv_max_sessions s = Some 0)) ctx (IvMaxSessions (sv_name s)).

Definition validate_server_roles (servers : list Server) (ctx : option string) : Checked :=
  each (validate_role ctx) servers.

Definition load_abi_file (path : string) : option string :=
  match read_to_string path with
  | Some text => if accept_upstream_abi abi_from_json text then Some text else None
  | None => None
  end.

Definition validate_topology (topology : Topology) (stitching : option StitchingPolicy)
    (chain_id : option string) (servers : list Server) (ctx : option string) : Checked :=
  let? _ := bail_if (bool_decide (topology = TPool) && has_enabled_frozen servers) ctx IvFrozenInPool in
  let? _ := bail_if (bool_decide (resolve topology servers = RStitched) && is_none chain_id) ctx
              IvStitchedChainId in
  if_some stitching (fun policy =>
    let? _ := bail_if ((gap_wait_ms policy =? 0) || (MAX_GAP_WAIT_MS <? gap_wait_ms policy)) ctx
                (IvOutOfRange "stitching.gap_wait_ms") in
    if_some (abi_file policy) (fun path => bail_if (is_none (load_abi_file path)) ctx IvAbiFile)).

(** ** Chain API *)

Inductive ApiEndpointError := EpHttps | EpInvalid.

(** [str::parse::<u16>]: digits, after an optional plus sign. *)
Definition parse_u16 (s : string) : option Z :=
  let s := default s (strip_prefix "+" s) in
  if str_is_empty s || negb (all_chars is_ascii_digit s) then None
  else let n := digits_value 0 s in if n <=? u16_max then Some n else None.

Definition string_drop (n : nat) (s : string) : string := String.substring n (String.length s) s.

Definition api_endpoint_parse (raw : string) : result ApiEndpoint ApiEndpointError :=
  let raw := trim raw in
  let? (explicit_http, rest) :=
    match split_once "://" raw with
    | Some (scheme, rest) =>
        let scheme := to_ascii_lowercase scheme in
        if bool_decide (scheme = "http"%string) then Ok (true, rest)
        else if bool_decide (scheme = "https"%string) then Err EpHttps
        else Err EpInvalid
    | None => Ok (false, raw)
    end in
  let authority := if explicit_http : bool then default rest (strip_suffix "/" rest) else rest in
  if str_is_empty authority || ends_with ":" authority
     || contains "/" authority || contains "?" authority || contains "#" authority || contains "@" authority
  then Err EpInvalid
  else
    match authority_parse authority with
    | None => Err EpInvalid
    | Some parsed =>
        let host := au_host parsed in
        if str_is_empty host then Err EpInvalid
        else
          let after := string_drop (String.length host) (au_text parsed) in
          let port :=
            match strip_prefix ":" after with
            | Some text => parse_u16 text
            | None =>
                if (String.length (au_text parsed) =? String.length host)%nat && explicit_http
                then Some 80 else None
            end in
          match port with
          | None => Err EpInvalid
          | Some port => if port =? 0 then Err EpInvalid else Ok (mkApiEndpoint host port)
          end
    end.

(** [ApiEndpoint] is compared and hashed by its port and the host in lower case. *)
Definition ae_key (e : ApiEndpoint) : string * Z := (to_ascii_lowercase (ae_host e), ae_port e).

Fixpoint api_endpoints_loop (ctx : option string) (servers : list Server) (seen : gmap (string * Z) string)
  : Checked :=
  match servers with
  | [] => Ok tt
  | s :: servers =>
      match sv_api_endpoint s with
      | None => api_endpoints_loop ctx servers seen
      | Some raw =>
          match api_endpoint_parse raw with
          | Err EpHttps => Err (ctx, IvHttpsApi (sv_name s))
          | Err EpInvalid => Err (ctx, IvApiEndpoint (sv_name s))
          | Ok api =>
              if negb (sv_enabled s) then api_endpoints_loop ctx servers seen
              else
                match seen !! ae_key api with
                | Some previous => Err (ctx, IvDuplicateApi (sv_name s) previous)
                | None => api_endpoints_loop ctx servers (<[ae_key api := sv_name s]> seen)
                end
          end
      end
  end.

Definition validate_api_endpoints (servers : list Server) (ctx : option string) : Checked :=
  api_endpoints_loop ctx servers ∅.

Definition valid_header_value (value : string) : bool := negb (blank value) && header_value_ok value.

(** [l.iter().enumerate().any(|(i, x)| l[..i].contains(x))]. *)
Fixpoint repeats {A} `{EqDecision A} (before l : list A) : bool :=
  match l with
  | [] => false
  | x :: l => bool_decide (x ∈ before) || repeats (before ++ [x]) l
  end.

Definition tls_checked (tls : TlsConfig) (ctx : option string) : Checked :=
  match tls_validate tls_disk tls with Ok _ => Ok tt | Err e => Err (ctx, IvTls e) end.

(** A server that can be named in [push_servers]. *)
Definition push_server (name : string) (s : Server) : bool :=
  bool_decide (sv_name s = name) && sv_enabled s && is_live (sv_role s) && is_some (sv_api_endpoint s).

Fixpoint push_servers_loop (ctx : option string) (servers : list Server) (before names : list string) : Checked :=
  match names with
  | [] => Ok tt
  | name :: names =>
      let? _ := bail_if (bool_decide (name ∈ before)) ctx (IvDuplicatePush name) in
      let? _ := bail_if (negb (existsb (push_server name) servers)) ctx (IvPushServer name) in
      push_servers_loop ctx servers (before ++ [name]) names
  end.

Definition validate_cap (ctx : option string) (field_value : string * Z) : Checked :=
  let? _ := bail_if (field_value.2 =? 0) ctx (IvZero field_value.1) in
  bail_if (MAX_CAPACITY <? field_value.2) ctx (IvTooMany field_value.1).

Definition validate_cors (ctx : option string) (cors : ChainApiCors) : Checked :=
  let? _ := bail_if (negb (valid_header_value (cc_allow_origin cors))) ctx (IvCors "allow_origin") in
  bail_if (is_some_and (fun v => negb (valid_header_value v)) (cc_allow_headers cors)) ctx
    (IvCors "allow_headers").

Definition validate_chain_api (api : ChainApiConfig) (servers : list Server) (ctx : option string) : Checked :=
  let? _ := bail_if (ac_listen_port api =? 0) ctx (IvZero "chain_api.listen_port") in
  let? _ := bail_if (is_some_and blank (ac_listen_address api)) ctx (IvEmpty "chain_api.listen_address") in
  let? _ := bail_if (negb (existsb (fun s => sv_enabled s && is_some (sv_api_endpoint s)) servers)) ctx
              IvNoApiServer in
  let? _ := bail_if (bool_decide (ac_allow api = [])) ctx (IvEmpty "chain_api.allow") in
  let? _ := bail_if (repeats [] (ac_allow api)) ctx IvDuplicateClass in
  let? _ := bail_if (negb (API_MAX_BODY_BYTES (ac_max_body_bytes api))) ctx (IvOutOfRange "chain_api.max_body_bytes") in
  let? _ := bail_if (negb (ac_max_response_bytes api =? 0) && (ac_max_response_bytes api <? API_MIN_RESPONSE_BYTES))
              ctx (IvOutOfRange "chain_api.max_response_bytes") in
  let? _ := bail_if (negb (API_MAX_ATTEMPTS (ac_max_attempts api))) ctx (IvOutOfRange "chain_api.max_attempts") in
  let? _ := bail_if (negb (API_PROBE_MS (ac_probe_ms api))) ctx (IvOutOfRange "chain_api.probe_ms") in
  let? _ := bail_if (ac_upstream_timeout_ms api <? API_MIN_UPSTREAM_TIMEOUT_MS) ctx
              (IvOutOfRange "chain_api.upstream_timeout_ms") in
  let? _ := bail_if (ac_request_deadline_ms api <? ac_upstream_timeout_ms api) ctx IvDeadline in
  let? _ := bail_if (ac_request_deadline_ms api <? ac_upstream_queue_ms api) ctx IvQueue in
  let? _ := each (validate_cap ctx)
              [("max_connections"%string, ac_max_connections api);
               ("max_in_flight"%string, ac_max_in_flight api);
               ("max_in_flight_per_upstream"%string, ac_max_in_flight_per_upstream api)] in
  let? _ := bail_if (negb (bool_decide (ac_push_servers api = [])) && negb (bool_decide (ClPush ∈ ac_allow api)))
              ctx IvPushNotAllowed in
  let? _ := push_servers_loop ctx servers [] (ac_push_servers api) in
  let? _ := if_some (ac_cors api) (validate_cors ctx) in
  if_some (ac_tls api) (fun tls => tls_checked tls ctx).

(** ** Resolution *)

Record ResolvedChainApi := mkResolvedApi {
  ra_listener : option string;
  ra_listen_address : string;
  ra_bind : string;
  ra_cfg : ChainApiConfig;
  ra_push : list Z;
  ra_upstreams : list ApiUpstream;
  ra_tls : option TlsConfig;
}.

(** The upstreams of the enabled servers; [ship] and [http] are the next indices
    for a server with and without a SHiP endpoint. *)
Fixpoint api_upstreams (servers : list Server) (ship http : Z) : list ApiUpstream :=
  match servers with
  | [] => []
  | s :: servers =>
      let index := if has_ship_endpoint s then ship else http in
      let ship := if has_ship_endpoint s then ship + 1 else ship in
      let http := if has_ship_endpoint s then http else http + 1 in
      match sv_api_endpoint s ≫= (fun raw => to_option (api_endpoint_parse raw)) with
      | Some api =>
          mkApiUpstream index (sv_name s) (sv_endpoint s) (sv_role s) api (sv_priority s)
            (Z.max (sv_weight s) 1) (sv_range s) :: api_upstreams servers ship http
      | None => api_upstreams servers ship http
      end
  end.

Definition push_indices (names : list string) (upstreams : list ApiUpstream) : list Z :=
  omap (fun name => au_index <$>
          List.find (fun u => bool_decide (au_name u = name) && is_live (au_role u)) upstreams) names.

Definition resolve_chain_api (api : option ChainApiConfig) (listener : option string)
    (listener_address : string) (servers : list Server) (listener_tls : option TlsConfig)
  : option ResolvedChainApi :=
  match api with
  | None => None
  | Some cfg =>
      let listen_address := default listener_address (trim <$> ac_listen_address cfg) in
      let ship_count := zlen (List.filter (fun s => sv_enabled s && has_ship_endpoint s) servers) in
      let upstreams := api_upstreams (List.filter sv_enabled servers) 0 ship_count in
      Some (mkResolvedApi listener listen_address (format_bind_addr listen_address (ac_listen_port cfg)) cfg
              (push_indices (ac_push_servers cfg) upstreams) upstreams (or_else (ac_tls cfg) listener_tls))
  end.

Record ResolvedListener := mkResolved {
  rl_name : option string;
  rl_listen_address : string;
  rl_listen_port : Z;
  rl_max_connections : Z;
  rl_expected_chain_id : option (list Z);
  rl_require_chain_id : bool;
  rl_block_failure_quarantine : option BlockFailureQuarantine;
  rl_servers : list Server;
  rl_topology : ResolvedTopology;
  rl_stitching : StitchingPolicy;
  rl_abi_pin : option string;
}.

Definition resolve_stitching (topology : Topology) (stitching : option StitchingPolicy) (servers : list Server)
  : ResolvedTopology * StitchingPolicy * option string :=
  let resolved := resolve topology servers in
  let policy := default default_stitching stitching in
  let abi_pin :=
    match abi_file policy, resolved with
    | Some path, RStitched => load_abi_file path
    | _, _ => None
    end in
  (resolved, policy, abi_pin).

(** The bind address of listeners that have none. *)
Definition default_addr (c : ServerConfig) : string :=
  let top := trim (sc_listen_address c) in if str_is_empty top then "0.0.0.0" else top.

Definition listener_addr (c : ServerConfig) (l : ListenerConfig) : string :=
  default (default_addr c) (trim <$> lc_listen_address l).

Definition listener_binds (c : ServerConfig) : list (option string * string * Z) :=
  match sc_listeners c with
  | [] => [(None, trim (sc_listen_address c), sc_listen_port c)]
  | ls => map (fun l => (Some (trim (lc_name l)), listener_addr c l, lc_listen_port l)) ls
  end.

Definition resolved_listeners (c : ServerConfig) : list ResolvedListener :=
  match sc_listeners c with
  | [] =>
      let '(topology, stitching, abi_pin) := resolve_stitching (sc_topology c) (sc_stitching c) (sc_servers c) in
      [mkResolved None (trim (sc_listen_address c)) (sc_listen_port c) (sc_max_connections c)
         (sc_chain_id c ≫= parse_chain_id) (sc_require_chain_id c) (sc_block_failure_quarantine c)
         (sc_servers c) topology stitching abi_pin]
  | ls =>
      map (fun l =>
        let '(topology, stitching, abi_pin) := resolve_stitching (lc_topology l) (lc_stitching l) (lc_servers l) in
        mkResolved (Some (trim (lc_name l))) (listener_addr c l) (lc_listen_port l)
          (default (sc_max_connections c) (lc_max_connections l))
          (lc_chain_id l ≫= parse_chain_id) (lc_require_chain_id l) (lc_block_failure_quarantine l)
          (lc_servers l) topology stitching abi_pin) ls
  end.

Definition resolved_chain_apis (c : ServerConfig) : list (option ResolvedChainApi) :=
  match sc_listeners c with
  | [] => [resolve_chain_api (sc_chain_api c) None (trim (sc_listen_address c)) (sc_servers c) (sc_tls c)]
  | ls =>
      zip_with (fun l (b : option string * string * Z) =>
        resolve_chain_api (lc_chain_api l) b.1.1 b.1.2 (lc_servers l) (or_else (lc_tls l) (sc_tls c)))
        ls (listener_binds c)
  end.

Definition resolved_listener_tls (c : ServerConfig) : list (option TlsConfig) :=
  match sc_listeners c with
  | [] => [sc_tls c]
  | ls => map (fun l => or_else (lc_tls l) (sc_tls c)) ls
  end.

(** [.map(str::trim).filter(|s| !s.is_empty())]. *)
Definition filled (o : option string) : option string :=
  (trim <$> o) ≫= fun s => if str_is_empty s then None else Some s.

Definition resolved_metrics_host_port (c : ServerConfig) : option (string * Z) :=
  match sc_metrics_port c with
  | None => None
  | Some port =>
      let host :=
        match filled (sc_metrics_address c) with
        | Some host => host
        | None =>
            let top := trim (sc_listen_address c) in
            if negb (str_is_empty top) then top
            else match sc_listeners c with
                 | first :: _ => default "0.0.0.0"%string (filled (lc_listen_address first))
                 | [] => "0.0.0.0"%string
                 end
        end in
      Some (host, port)
  end.

Definition upstream_connect_timeout_ms (c : ServerConfig) : Z :=
  if sc_handshake_timeout_ms c =? 0 then DEFAULT_UPSTREAM_CONNECT_TIMEOUT_MS else sc_handshake_timeout_ms c.

Definition proxy_limits (c : ServerConfig) : ProxyLimits :=
  mkLimits (sc_handshake_timeout_ms c) (sc_idle_timeout_ms c) (sc_upstream_liveness_timeout_ms c)
    (sc_max_message_bytes c) (sc_max_client_message_bytes c) (sc_upstream_stall_timeout_ms c)
    (upstream_connect_timeout_ms c).

(** ** Validation *)

(** What is checked of a listener's pool, in either mode. *)
Definition validate_pool (ctx : option string) (servers : list Server) (topology : Topology)
    (stitching : option StitchingPolicy) (chain_id : option string) (chain_api : option ChainApiConfig) : Checked :=
  let? _ := validate_servers servers ctx in
  let? _ := validate_server_roles servers ctx in
  let? _ := validate_topology topology stitching chain_id servers ctx in
  let? _ := validate_api_endpoints servers ctx in
  if_some chain_api (fun api => validate_chain_api api servers ctx).

(** The chain id and quarantine of a listener, in either mode. *)
Definition validate_ids (ctx : option string) (chain_id : option string) (require : bool)
    (quarantine : option BlockFailureQuarantine) : Checked :=
  let? _ := if_some chain_id (fun cid => bail_if (is_none (parse_chain_id cid)) ctx (IvChainId cid)) in
  let? _ := bail_if (require && is_none chain_id) ctx IvRequireChainId in
  if_some quarantine (fun policy => validate_block_failure_quarantine policy ctx).

Definition validate_single (c : ServerConfig) : Checked :=
  let? _ := bail_if (blank (sc_listen_address c)) None (IvEmpty "listen_address") in
  let? _ := bail_if (sc_listen_port c =? 0) None (IvZero "listen_port") in
  let? _ := validate_ids None (sc_chain_id c) (sc_require_chain_id c) (sc_block_failure_quarantine c) in
  validate_pool None (sc_servers c) (sc_topology c) (sc_stitching c) (sc_chain_id c) (sc_chain_api c).

(** The fields of the top level that belong on a listener. *)
Definition validate_top_level (c : ServerConfig) : Checked :=
  let? _ := bail_if (negb (sc_listen_port c =? 0)) None (IvTopLevel "listen_port") in
  let? _ := bail_if (is_some (sc_chain_id c)) None (IvTopLevel "chain_id") in
  let? _ := bail_if (sc_require_chain_id c) None (IvTopLevel "require_chain_id") in
  let? _ := bail_if (is_some (sc_block_failure_quarantine c)) None (IvTopLevel "block_failure_quarantine") in
  let? _ := bail_if (bool_decide (sc_topology c <> TAuto)) None (IvTopLevel "topology") in
  let? _ := bail_if (is_some (sc_stitching c)) None (IvTopLevel "stitching") in
  bail_if (is_some (sc_chain_api c)) None (IvTopLevel "chain_api").

Definition name_space (c : Ascii.ascii) : bool := is_space c || (code c =? 47).

Definition validate_max_connections (ctx : option string) (n : option Z) : Checked :=
  if_some n (fun n =>
    let? _ := bail_if (n =? 0) ctx (IvZero "max_connections") in
    bail_if (MAX_CAPACITY <? n) ctx (IvTooMany "max_connections")).

(** The listeners bound before one that conflict with it. *)
Definition validate_bound (name addr : string) (port : Z) (bound : list (string * string * Z)) : Checked :=
  each (fun b : string * string * Z =>
    bail_if ((b.2 =? port) && addresses_conflict b.1.2 addr) (Some name) (IvConflict name b.1.1)) bound.

Fixpoint listeners_loop (c : ServerConfig) (idx : nat) (ls : list ListenerConfig) (names : gset string)
    (bound : list (string * string * Z)) : Checked :=
  match ls with
  | [] => Ok tt
  | l :: ls =>
      let name := trim (lc_name l) in
      let ctx := Some name in
      let? _ := bail_if (str_is_empty name) None (IvListenerNameEmpty idx) in
      let? _ := bail_if (negb (all_chars (fun ch => negb (name_space ch)) name)) ctx (IvListenerName name) in
      let? _ := bail_if (bool_decide (name ∈ names)) None (IvDuplicateListener name) in
      let? _ := bail_if (is_some_and blank (lc_listen_address l)) ctx (IvEmpty "listen_address") in
      let addr := listener_addr c l in
      let? _ := bail_if (lc_listen_port l =? 0) ctx (IvZero "listen_port") in
      let? _ := validate_max_connections ctx (lc_max_connections l) in
      let? _ := validate_ids ctx (lc_chain_id l) (lc_require_chain_id l) (lc_block_failure_quarantine l) in
      let? _ := if_some (lc_tls l) (fun tls => tls_checked tls ctx) in
      let? _ := validate_bound name addr (lc_listen_port l) bound in
      let? _ := validate_pool ctx (lc_servers l) (lc_topology l) (lc_stitching l) (lc_chain_id l)
                  (lc_chain_api l) in
      listeners_loop c (S idx) ls ({[name]} ∪ names) (bound ++ [(name, addr, lc_listen_port l)])
  end.

(** The limits of the top level. *)
Definition validate_limits (c : ServerConfig) : Checked :=
  let db := sc_dashboard c in
  let? _ := bail_if (sc_upstream_reconnect_ms c =? 0) None (IvZero "upstream_reconnect_ms") in
  let? _ := bail_if (sc_upstream_monitoring_ms c =? 0) None (IvZero "upstream_monitoring_ms") in
  let? _ := bail_if (sc_upstream_status_ms c =? 0) None (IvZero "upstream_status_ms") in
  let? _ := bail_if (sc_max_connections c =? 0) None (IvZero "max_connections") in
  let? _ := bail_if (MAX_CAPACITY <? sc_max_connections c) None (IvTooMany "max_connections") in
  let? _ := bail_if (sc_max_message_bytes c =? 0) None (IvZero "max_message_bytes") in
  let? _ := bail_if (sc_max_client_message_bytes c =? 0) None (IvZero "max_client_message_bytes") in
  let? _ := bail_if (bool_decide (sc_metrics_port c = Some 0)) None (IvZero "metrics_port") in
  let? _ := bail_if (negb (sc_upstream_stall_timeout_ms c =? 0) && (sc_upstream_stall_timeout_ms c <? 1000))
              None (IvOutOfRange "upstream_stall_timeout_ms") in
  let? _ := bail_if (db_enabled db && is_none (sc_metrics_port c)) None IvDashboardPort in
  let? _ := bail_if (is_some (db_control_token db) && is_some (db_control_token_file db)) None IvTwoTokens in
  let? _ := if_some (db_control_token db) (fun token =>
              bail_if (Z.of_nat (String.length (trim token)) <? MIN_CONTROL_TOKEN_LEN) None IvShortToken) in
  if_some (sc_tls c) (fun tls => tls_checked tls None).

Definition validate_metrics (c : ServerConfig) : Checked :=
  if_some (resolved_metrics_host_port c) (fun mp =>
    each (fun l => bail_if ((rl_listen_port l =? mp.2) && addresses_conflict mp.1 (rl_listen_address l))
                     None (IvMetricsConflict mp.2)) (resolved_listeners c)).

(** The chain API ports against those taken before. *)
Fixpoint api_ports_loop (apis : list ResolvedChainApi) (taken : list (string * Z)) : Checked :=
  match apis with
  | [] => Ok tt
  | api :: apis =>
      let host := ra_listen_address api in
      let port := ac_listen_port (ra_cfg api) in
      let? _ := each (fun t : string * Z =>
                  bail_if ((t.2 =? port) && addresses_conflict t.1 host) (ra_listener api) (IvApiPortConflict port))
                  taken in
      api_ports_loop apis (taken ++ [(host, port)])
  end.

Definition validate_chain_api_ports (c : ServerConfig) : Checked :=
  let taken := map (fun b : option string * string * Z => (b.1.2, b.2)) (listener_binds c)
               ++ match resolved_metrics_host_port c with Some hp => [hp] | None => [] end in
  api_ports_loop (omap id (resolved_chain_apis c)) taken.

Definition validate (c : ServerConfig) : Checked :=
  let? _ := validate_limits c in
  let? _ := bail_if (negb (bool_decide (sc_servers c = [])) && negb (bool_decide (sc_listeners c = []))) None
              IvServersAndListeners in
  let? _ :=
    match sc_listeners c with
    | [] => validate_single c
    | ls => let? _ := validate_top_level c in listeners_loop c 0 ls ∅ []
    end in
  let? _ := validate_metrics c in
  validate_chain_api_ports c.

(** The control API token; [env] is the environment variable. *)
Definition resolve_control_token (db : DashboardConfig) (env : option string) : result (option string) Invalid :=
  let? token :=
    match env ≫= (fun token => if blank token then None else Some token) with
    | Some token => Ok (Some token)
    | None =>
        match db_control_token_file db with
        | Some path =>
            match read_to_string path with Some token => Ok (Some token) | None => Err (IvTokenFile path) end
        | None => Ok (db_control_token db)
        end
    end in
  match trim <$> token with
  | None => Ok None
  | Some token =>
      if Z.of_nat (String.length token) <? MIN_CONTROL_TOKEN_LEN then Err IvShortToken else Ok (Some token)
  end.

(** ** Warnings *)

Inductive Warning :=
| WStitchingIgnored
| WNoLive
| WDeclareRange (server : string)
| WHole (begin_ end_ : Z)
| WApiIgnored
| WNoApiEndpoint (server : string)
| WNoLiveApi
| WPush
| WEveryInterface.

(** The loop that merges the declared ranges, the last one first. *)
Fixpoint declared_loop (merged : list Range) (declared : list Range) : list Range :=
  match declared with
  | [] => merged
  | r :: declared =>
      match merged with
      | last :: merged' =>
          if rbegin r <=? rend last
          then declared_loop (mkRange (rbegin last) (Z.max (rend last) (rend r)) :: merged') declared
          else declared_loop (r :: merged) declared
      | [] => declared_loop [r] declared
      end
  end.

(** [merged.windows(2)]. *)
Fixpoint hole_warnings (merged : list Range) : list Warning :=
  match merged with
  | a :: ((b :: _) as rest) => WHole (rend a) (rbegin b) :: hole_warnings rest
  | _ => []
  end.

Definition frozen_servers (servers : list Server) : list Server :=
  List.filter (fun s => sv_enabled s && bool_decide (sv_role s = Frozen)) servers.

Definition listener_warnings (topology : Topology) (stitching : option StitchingPolicy) (servers : list Server)
  : list Warning :=
  match resolve topology servers with
  | RPool => if is_some stitching then [WStitchingIgnored] else []
  | RStitched =>
      let frozen := frozen_servers servers in
      let declared := List.filter (fun r => negb (range_is_empty r)) (omap sv_range frozen) in
      (if existsb (fun s => sv_enabled s && is_live (sv_role s)) servers then [] else [WNoLive])
      ++ omap (fun s => if is_none (sv_range s) then Some (WDeclareRange (sv_name s)) else None) frozen
      ++ hole_warnings (rev (declared_loop [] (sort_by range_cmp declared)))
  end.

Definition chain_api_warnings (api : option ResolvedChainApi) (servers : list Server) : list Warning :=
  match api with
  | None => if existsb (fun s => is_some (sv_api_endpoint s)) servers then [WApiIgnored] else []
  | Some api =>
      omap (fun s => if bool_decide (sv_role s = Frozen) && is_none (sv_api_endpoint s)
                     then Some (WNoApiEndpoint (sv_name s)) else None) (List.filter sv_enabled servers)
      ++ (if existsb (fun s => sv_enabled s && is_live (sv_role s) && is_some (sv_api_endpoint s)) servers
          then [] else [WNoLiveApi])
      ++ (if bool_decide (ClPush ∈ ac_allow (ra_cfg api)) then [WPush] else [])
      ++ (if is_unspecified_addr (ra_listen_address api) then [WEveryInterface] else [])
  end.

Definition warnings (c : ServerConfig) : list (option string * Warning) :=
  let apis := resolved_chain_apis c in
  match sc_listeners c with
  | [] =>
      map (pair None) (listener_warnings (sc_topology c) (sc_stitching c) (sc_servers c)
                       ++ chain_api_warnings (default None (head apis)) (sc_servers c))
  | ls =>
      concat (zip_with (fun l api =>
        map (pair (Some (trim (lc_name l))))
          (listener_warnings (lc_topology l) (lc_stitching l) (lc_servers l)
           ++ chain_api_warnings api (lc_servers l))) ls apis)
  end.
End env.
