(* ===== verification/ConfigSpec.v ===== *)
(** * The configuration: what is accepted and what it resolves to

    The specification of a valid configuration and the theorems about Config.v:
    [validate] accepts exactly the configurations that satisfy it, so the sockets
    of an accepted one can all be bound; what an accepted configuration resolves
    to is what the other components assume (one state per upstream, with the
    index its chain API has, a chain id for every stitched listener); the warned
    holes are exactly the blocks missing between declared archive ranges. *)

From S2P Require Import Prelude Wire Models Monitor Coverage ApiRoute ApiPick ApiDirectory Tls ApiFlow Config.

(** ** Specification *)

Section spec.
Context `{ConfigEnv}.

Definition policy_ok (p : BlockFailureQuarantine) : Prop :=
  q_strikes p <> 0 /\ q_window_secs p <> 0 /\ q_ttl_secs p <> 0 /\ q_range p <> 0.

(** The dial target of a server, and the address of its chain API. *)
Definition identity (s : Server) : option string := to_option (upstream_identity (sv_name s) (sv_endpoint s)).
Definition api_of (s : Server) : option ApiEndpoint :=
  sv_api_endpoint s ≫= fun raw => to_option (api_endpoint_parse raw).

Record server_ok (s : Server) : Prop := {
  so_identity : has_ship_endpoint s = true -> is_Some (identity s);
  so_http_only : has_ship_endpoint s = false ->
    (sv_enabled s = true -> is_Some (sv_api_endpoint s)) /\ (is_Some (sv_api_endpoint s) -> sv_role s = Live);
  so_weight : has_ship_endpoint s = true \/ is_Some (sv_api_endpoint s) -> sv_weight s <> 0;
  so_range : forall r, sv_range s = Some r -> sv_role s = Frozen /\ rbegin r <> 0 /\ rbegin r < rend r;
  so_max_sessions : sv_max_sessions s <> Some 0;
  so_api : is_Some (sv_api_endpoint s) -> is_Some (api_of s);
}.

(** No two enabled servers are the same upstream or the same API. *)
Record pool_ok (servers : list Server) : Prop := {
  po_enabled : exists s, s ∈ servers /\ sv_enabled s = true;
  po_servers : Forall server_ok servers;
  po_distinct : NoDup (omap identity (shipped servers));
  po_apis : NoDup (omap (fun s => ae_key <$> api_of s) (List.filter sv_enabled servers));
}.

Definition tls_ok (tls : option TlsConfig) : Prop :=
  forall t, tls = Some t -> tls_validate tls_disk t = Ok tt.

Record topology_ok (t : Topology) (stitching : option StitchingPolicy) (chain_id : option string)
    (servers : list Server) : Prop := {
  to_pool : t = TPool -> has_enabled_frozen servers = false;
  to_chain : resolve t servers = RStitched -> is_Some chain_id;
  to_gap_wait : forall p, stitching = Some p -> gap_wait_ms p <> 0 /\ gap_wait_ms p <= MAX_GAP_WAIT_MS;
  to_abi : forall p path, stitching = Some p -> abi_file p = Some path -> is_Some (load_abi_file path);
}.

Definition cap_ok (n : Z) : Prop := n <> 0 /\ n <= MAX_CAPACITY.

Record chain_api_ok (api : ChainApiConfig) (servers : list Server) : Prop := {
  ca_port : ac_listen_port api <> 0;
  ca_address : forall a, ac_listen_address api = Some a -> blank a = false;
  ca_server : exists s, s ∈ servers /\ sv_enabled s = true /\ is_Some (sv_api_endpoint s);
  ca_allow : ac_allow api <> [] /\ NoDup (ac_allow api);
  ca_body : 1024 <= ac_max_body_bytes api <= 64 * 1024 * 1024;
  ca_response : ac_max_response_bytes api = 0 \/ API_MIN_RESPONSE_BYTES <= ac_max_response_bytes api;
  ca_attempts : 1 <= ac_max_attempts api <= 8;
  ca_probe : 100 <= ac_probe_ms api <= 60000;
  ca_times : API_MIN_UPSTREAM_TIMEOUT_MS <= ac_upstream_timeout_ms api <= ac_request_deadline_ms api
    /\ ac_upstream_queue_ms api <= ac_request_deadline_ms api;
  ca_caps : cap_ok (ac_max_connections api) /\ cap_ok (ac_max_in_flight api)
    /\ cap_ok (ac_max_in_flight_per_upstream api);
  ca_push : ac_push_servers api <> [] -> ClPush ∈ ac_allow api;
  ca_push_servers : NoDup (ac_push_servers api)
    /\ Forall (fun name => exists s, s ∈ servers /\ push_server name s = true) (ac_push_servers api);
  ca_cors : forall c, ac_cors api = Some c -> valid_header_value (cc_allow_origin c) = true
    /\ forall h, cc_allow_headers c = Some h -> valid_header_value h = true;
  ca_tls : tls_ok (ac_tls api);
}.

(** A listener of either mode. *)
Record listener_ok (address : option string) (port : Z) (servers : list Server) (t : Topology)
    (stitching : option StitchingPolicy) (chain_id : option string) (require : bool)
    (quarantine : option BlockFailureQuarantine) (api : option ChainApiConfig) : Prop := {
  li_address : forall a, address = Some a -> blank a = false;
  li_port : port <> 0;
  li_chain_id : forall cid, chain_id = Some cid -> is_Some (parse_chain_id cid);
  li_require : require = true -> is_Some chain_id;
  li_quarantine : forall p, quarantine = Some p -> policy_ok p;
  li_pool : pool_ok servers;
  li_topology : topology_ok t stitching chain_id servers;
  li_api : forall a, api = Some a -> chain_api_ok a servers;
}.

Record limits_ok (c : ServerConfig) : Prop := {
  lo_intervals : sc_upstream_reconnect_ms c <> 0 /\ sc_upstream_monitoring_ms c <> 0
    /\ sc_upstream_status_ms c <> 0;
  lo_connections : cap_ok (sc_max_connections c);
  lo_messages : sc_max_message_bytes c <> 0 /\ sc_max_client_message_bytes c <> 0;
  lo_metrics : sc_metrics_port c <> Some 0;
  lo_stall : sc_upstream_stall_timeout_ms c = 0 \/ 1000 <= sc_upstream_stall_timeout_ms c;
  lo_dashboard : db_enabled (sc_dashboard c) = true -> is_Some (sc_metrics_port c);
  lo_token : forall token, db_control_token (sc_dashboard c) = Some token ->
    db_control_token_file (sc_dashboard c) = None
    /\ MIN_CONTROL_TOKEN_LEN <= Z.of_nat (String.length (trim token));
  lo_tls : tls_ok (sc_tls c);
}.

(** Nothing that belongs on a listener is set at the top level. *)
Definition top_level_ok (c : ServerConfig) : Prop :=
  sc_servers c = [] /\ sc_listen_port c = 0 /\ sc_chain_id c = None /\ sc_require_chain_id c = false
  /\ sc_block_failure_quarantine c = None /\ sc_topology c = TAuto /\ sc_stitching c = None
  /\ sc_chain_api c = None.

Record named_ok (l : ListenerConfig) : Prop := {
  na_name : trim (lc_name l) <> EmptyString
    /\ all_chars (fun ch => negb (name_space ch)) (trim (lc_name l)) = true;
  na_connections : forall n, lc_max_connections l = Some n -> cap_ok n;
  na_tls : tls_ok (lc_tls l);
  na_listener : listener_ok (lc_listen_address l) (lc_listen_port l) (lc_servers l) (lc_topology l)
    (lc_stitching l) (lc_chain_id l) (lc_require_chain_id l) (lc_block_failure_quarantine l) (lc_chain_api l);
}.

(** The sockets a configuration binds: an address and a port each. *)
Definition ship_sockets (c : ServerConfig) : list (string * Z) :=
  map (fun b : option string * string * Z => (b.1.2, b.2)) (listener_binds c).
Definition metrics_socket (c : ServerConfig) : list (string * Z) :=
  match resolved_metrics_host_port c with Some hp => [hp] | None => [] end.
Definition api_socket (a : ResolvedChainApi) : string * Z := (ra_listen_address a, ac_listen_port (ra_cfg a)).
Definition sockets (c : ServerConfig) : list (string * Z) :=
  ship_sockets c ++ metrics_socket c ++ map api_socket (omap id (resolved_chain_apis c)).

(** Two sockets that can both be bound. *)
Definition apart (a b : string * Z) : Prop := a.2 = b.2 -> addresses_conflict a.1 b.1 = false.

Record config_ok (c : ServerConfig) : Prop := {
  ok_limits : limits_ok c;
  ok_single : sc_listeners c = [] ->
    listener_ok (Some (sc_listen_address c)) (sc_listen_port c) (sc_servers c) (sc_topology c) (sc_stitching c)
      (sc_chain_id c) (sc_require_chain_id c) (sc_block_failure_quarantine c) (sc_chain_api c);
  ok_multi : sc_listeners c <> [] ->
    top_level_ok c /\ Forall named_ok (sc_listeners c)
    /\ NoDup (map (fun l => trim (lc_name l)) (sc_listeners c));
  ok_sockets : ForallOrdPairs apart (sockets c);
}.
End spec.

(** ** Checks as propositions *)

Lemma bail_ok b ctx e : bail_if b ctx e = Ok tt <-> b = false.
Proof. by destruct b. Qed.

Lemma then_ok (a b : Checked) : rbind a (fun _ => b) = Ok tt <-> a = Ok tt /\ b = Ok tt.
Proof. destruct a as [[]|]; cbn; naive_solver. Qed.

Lemma if_some_ok {A} (o : option A) f : if_some o f = Ok tt <-> forall a, o = Some a -> f a = Ok tt.
Proof. destruct o; cbn; naive_solver. Qed.

Lemma each_ok {A} (f : A -> Checked) l : each f l = Ok tt <-> Forall (fun x => f x = Ok tt) l.
Proof. induction l as [|x l IH]; cbn; [by split|]. by rewrite then_ok, IH, Forall_cons. Qed.

Lemma eqb_false_ne a b : (a =? b) = false <-> a <> b.
Proof. apply Z.eqb_neq. Qed.

Lemma is_none_false {A} (o : option A) : is_none o = false <-> is_Some o.
Proof. destruct o; cbn; split; try done; try (by intros [? ?]); eauto. Qed.

Lemma is_some_true {A} (o : option A) : is_some o = true <-> is_Some o.
Proof. destruct o; cbn; split; try done; try (by intros [? ?]); eauto. Qed.

(** Read a chain of checks as the conjunction of what they require. *)
Ltac checks := repeat first
  [ setoid_rewrite then_ok | setoid_rewrite if_some_ok | setoid_rewrite bail_ok | setoid_rewrite each_ok ].


Section exact.
Context `{ConfigEnv}.

(** ** Servers *)

(** A loop that checks each server and refuses a key it has seen. *)
Section distinct.
Context {K V : Type} `{Countable K} (key : Server -> option K) (val : Server -> V) (P : Server -> Prop).
Context (loop : list Server -> gmap K V -> Checked).
Context (loop_nil : forall seen, loop [] seen = Ok tt).
Context (loop_cons : forall s l seen, loop (s :: l) seen = Ok tt <->
  P s /\ match key s with
         | Some k => seen !! k = None /\ loop l (<[k := val s]> seen) = Ok tt
         | None => loop l seen = Ok tt
         end).

Lemma distinct_loop l seen :
  loop l seen = Ok tt <->
  Forall P l /\ NoDup (omap key l) /\ forall k, k ∈ omap key l -> seen !! k = None.
Proof.
  revert seen. induction l as [|s l IH]; intros seen.
  { rewrite loop_nil. cbn. split; [|done]. intros _. split_and!; [constructor..|by intros ? ?%elem_of_nil]. }
  rewrite loop_cons, Forall_cons. cbn [omap list_omap]. destruct (key s) as [k|]; [|rewrite IH; tauto].
  rewrite IH, NoDup_cons. setoid_rewrite elem_of_cons. split.
  - intros (Hp & Hk & Hf & Hn & Hs). split_and!; try done.
    + intros Hin. specialize (Hs k Hin). by rewrite lookup_insert_eq in Hs.
    + intros k' [->|Hin]; [done|]. specialize (Hs k' Hin). by apply lookup_insert_None in Hs as [? _].
  - intros ((Hp & Hf) & (Hni & Hn) & Hs). split_and!; auto.
    intros k' Hin. apply lookup_insert_None. split; [by apply Hs; right|]. by intros ->.
Qed.
End distinct.

Lemma omap_filter {A B} (f : A -> option B) (p : A -> bool) l :
  omap f (List.filter p l) = omap (fun x => if p x then f x else None) l.
Proof. induction l as [|x l IH]; cbn; [done|]. destruct (p x); cbn; rewrite IH; done. Qed.

(** What the loop of [validate_servers] checks of one server. *)
Definition endpoint_ok (s : Server) : Prop :=
  (has_ship_endpoint s = true -> is_Some (identity s))
  /\ (has_ship_endpoint s = false ->
      (sv_enabled s = true -> is_Some (sv_api_endpoint s)) /\ (is_Some (sv_api_endpoint s) -> sv_role s = Live))
  /\ (has_ship_endpoint s = true \/ is_Some (sv_api_endpoint s) -> sv_weight s <> 0).

Lemma not_frozen r : bool_decide (r = Frozen) = false <-> r = Live.
Proof. by destruct r. Qed.

Lemma none_not_some {A} : is_Some (@None A) <-> False.
Proof. split; [by intros [? ?]|done]. Qed.
Lemma some_is_some {A} (x : A) : is_Some (Some x) <-> True.
Proof. split; [done|eauto]. Qed.

Lemma servers_loop_ok ctx servers :
  servers_loop ctx servers ∅ = Ok tt <->
  Forall endpoint_ok servers /\ NoDup (omap identity (shipped servers)).
Proof.
  rewrite (distinct_loop (fun s => if sv_enabled s && has_ship_endpoint s then identity s else None)
    sv_endpoint endpoint_ok (servers_loop ctx)); [..|done|].
  - unfold shipped. rewrite omap_filter. split; [tauto|]. intros [? ?]. split_and!; done.
  - intros s l seen. cbn [servers_loop]. unfold endpoint_ok, has_ship_endpoint.
    destruct (blank (sv_endpoint s)); cbn [negb].
    + rewrite andb_false_r. destruct (sv_api_endpoint s); cbn [is_some];
        rewrite !then_ok, ?bail_ok, ?not_frozen, ?eqb_false_ne, ?some_is_some, ?none_not_some;
        destruct (sv_enabled s); naive_solver.
    + unfold identity. destruct (upstream_identity _ _) as [i|e]; cbn [to_option].
      * rewrite then_ok, bail_ok, eqb_false_ne, some_is_some, andb_true_r.
        destruct (sv_enabled s); cbn [negb]; [destruct (seen !! i)|]; naive_solver.
      * rewrite none_not_some. naive_solver.
Qed.

Lemma api_endpoints_ok ctx servers :
  validate_api_endpoints servers ctx = Ok tt <->
  Forall (fun s => is_Some (sv_api_endpoint s) -> is_Some (api_of s)) servers
  /\ NoDup (omap (fun s => ae_key <$> api_of s) (List.filter sv_enabled servers)).
Proof.
  unfold validate_api_endpoints.
  rewrite (distinct_loop (fun s => if sv_enabled s then ae_key <$> api_of s else None) sv_name
    (fun s => is_Some (sv_api_endpoint s) -> is_Some (api_of s)) (api_endpoints_loop ctx)); [..|done|].
  - rewrite omap_filter. split; [tauto|]. intros [? ?]. split_and!; done.
  - intros s l seen. cbn [api_endpoints_loop]. unfold api_of. destruct (sv_api_endpoint s) as [raw|]; cbn.
    + destruct (api_endpoint_parse raw) as [api|[]]; cbn; rewrite ?some_is_some, ?none_not_some; [|naive_solver..].
      destruct (sv_enabled s); cbn; [destruct (seen !! ae_key api)|]; naive_solver.
    + rewrite none_not_some. destruct (sv_enabled s); naive_solver.
Qed.

Lemma roles_ok ctx servers :
  validate_server_roles servers ctx = Ok tt <->
  Forall (fun s => (forall r, sv_range s = Some r -> sv_role s = Frozen /\ rbegin r <> 0 /\ rbegin r < rend r)
                   /\ sv_max_sessions s <> Some 0) servers.
Proof.
  unfold validate_server_roles. rewrite each_ok. apply Forall_iff. intros s. unfold validate_role.
  rewrite then_ok, if_some_ok, bail_ok, bool_decide_eq_false.
  apply and_iff_compat_r. apply forall_proper. intros r.
  rewrite then_ok, !bail_ok, bool_decide_eq_false, orb_false_iff, eqb_false_ne. unfold range_is_empty.
  rewrite Z.leb_gt. destruct (sv_role s); naive_solver.
Qed.

Lemma pool_ok_exact ctx servers :
  validate_servers servers ctx = Ok tt /\ validate_server_roles servers ctx = Ok tt
  /\ validate_api_endpoints servers ctx = Ok tt <-> pool_ok servers.
Proof.
  unfold validate_servers. rewrite !then_ok, !bail_ok, servers_loop_ok, roles_ok, api_endpoints_ok.
  rewrite negb_false_iff, existsb_elem, bool_decide_eq_false. split.
  - intros ((_ & He & Hs & Hd) & Hr & Ha & Hda). constructor; try done.
    rewrite !Forall_forall in *. intros s Hin. destruct (Hs s Hin) as (H1 & H2 & H3), (Hr s Hin) as [H4 H5].
    constructor; auto.
  - intros [He Hs Hd Ha]. rewrite !Forall_forall in *. split_and!; try done.
    + destruct He as (s & Hin & _). by intros ->; apply elem_of_nil in Hin.
    + intros s Hin. destruct (Hs s Hin). done.
    + intros s Hin. destruct (Hs s Hin). done.
    + intros s Hin. by destruct (Hs s Hin).
Qed.

Lemma topology_ok_exact t stitching chain_id servers ctx :
  validate_topology t stitching chain_id servers ctx = Ok tt <-> topology_ok t stitching chain_id servers.
Proof.
  unfold validate_topology. rewrite !then_ok, !bail_ok, !if_some_ok, !andb_false_iff, !bool_decide_eq_false.
  rewrite is_none_false. setoid_rewrite then_ok. setoid_rewrite if_some_ok. setoid_rewrite bail_ok.
  setoid_rewrite is_none_false. setoid_rewrite orb_false_iff. setoid_rewrite eqb_false_ne. setoid_rewrite Z.ltb_ge.
  split.
  - intros (Hp & Hc & Hs). constructor.
    + intros Ht. by destruct Hp.
    + intros Ht. by destruct Hc.
    + intros p Hp'. apply (Hs p Hp').
    + intros p path Hp' Hf. by apply (proj2 (Hs p Hp')).
  - intros [Hp Hc Hg Ha]. split_and!.
    + destruct (decide (t = TPool)); [right; auto|by left].
    + destruct (decide (resolve t servers = RStitched)); [right; auto|by left].
    + intros p Hp'. split; [auto|]. intros path. by apply Ha.
Qed.

Lemma tls_ok_exact tls ctx : if_some tls (fun t => tls_checked t ctx) = Ok tt <-> tls_ok tls.
Proof.
  rewrite if_some_ok. apply forall_proper. intros t. unfold tls_checked.
  destruct (tls_validate tls_disk t) as [[]|]; naive_solver.
Qed.

Lemma repeats_ok {A} `{EqDecision A} (before l : list A) :
  repeats before l = false <-> NoDup l /\ forall x, x ∈ l -> x ∉ before.
Proof.
  revert before. induction l as [|x l IH]; intros before; cbn [repeats].
  { split; [|done]. intros _. split; [constructor|by intros ? ?%elem_of_nil]. }
  rewrite orb_false_iff, bool_decide_eq_false, IH, NoDup_cons.
  setoid_rewrite elem_of_app. setoid_rewrite elem_of_cons. setoid_rewrite elem_of_nil. naive_solver.
Qed.

Lemma push_loop_ok ctx servers before names :
  push_servers_loop ctx servers before names = Ok tt <->
  (NoDup names /\ forall n, n ∈ names -> n ∉ before)
  /\ Forall (fun name => exists s, s ∈ servers /\ push_server name s = true) names.
Proof.
  revert before. induction names as [|n names IH]; intros before; cbn [push_servers_loop].
  { split; [|done]. intros _. split_and!; [constructor|by intros ? ?%elem_of_nil|constructor]. }
  rewrite !then_ok, !bail_ok, IH, bool_decide_eq_false, negb_false_iff, existsb_elem, Forall_cons, NoDup_cons.
  setoid_rewrite elem_of_app. setoid_rewrite elem_of_cons. setoid_rewrite elem_of_nil. naive_solver.
Qed.

Lemma cap_ok_exact ctx field n : validate_cap ctx (field, n) = Ok tt <-> cap_ok n.
Proof. unfold validate_cap, cap_ok. rewrite then_ok, !bail_ok. cbn. by rewrite eqb_false_ne, Z.ltb_ge. Qed.

Lemma cors_ok_exact ctx c :
  validate_cors ctx c = Ok tt <-> valid_header_value (cc_allow_origin c) = true
    /\ forall h, cc_allow_headers c = Some h -> valid_header_value h = true.
Proof.
  unfold validate_cors. rewrite then_ok, !bail_ok, negb_false_iff.
  apply and_iff_compat_l. destruct (cc_allow_headers c) as [h|]; cbn; [rewrite negb_false_iff|]; naive_solver.
Qed.

Lemma in_range_ok lo hi x : negb (in_range lo hi x) = false <-> lo <= x <= hi.
Proof. unfold in_range. by rewrite negb_false_iff, andb_true_iff, !Z.leb_le. Qed.

Lemma some_blank o : is_some_and blank o = false <-> forall a, o = Some a -> blank a = false.
Proof. destruct o; cbn; naive_solver. Qed.

Lemma zero_or_least n least : negb (n =? 0) && (n <? least) = false <-> n = 0 \/ least <= n.
Proof. rewrite andb_false_iff, negb_false_iff, Z.eqb_eq, Z.ltb_ge. done. Qed.

Lemma enabled_api servers :
  existsb (fun s => sv_enabled s && is_some (sv_api_endpoint s)) servers = true <->
  exists s, s ∈ servers /\ sv_enabled s = true /\ is_Some (sv_api_endpoint s).
Proof. rewrite existsb_elem. setoid_rewrite andb_true_iff. by setoid_rewrite is_some_true. Qed.

Lemma chain_api_ok_exact api servers ctx :
  validate_chain_api api servers ctx = Ok tt <-> chain_api_ok api servers.
Proof.
  unfold validate_chain_api.
  rewrite !then_ok, !bail_ok, tls_ok_exact, if_some_ok, push_loop_ok, eqb_false_ne, some_blank.
  setoid_rewrite cors_ok_exact. cbn [each]. rewrite !then_ok, !cap_ok_exact.
  rewrite negb_false_iff, enabled_api, repeats_ok, bool_decide_eq_false. unfold API_MAX_BODY_BYTES, API_MAX_ATTEMPTS, API_PROBE_MS.
  rewrite !in_range_ok, zero_or_least, !Z.ltb_ge.
  rewrite andb_false_iff, !negb_false_iff, !bool_decide_eq_true. split.
  - intros (H1 & H2 & H3 & H4 & H5 & H6 & H7 & H8 & H9 & H10 & H11 & H12 & H13 & H14 & H15 & H16 & H17).
    constructor; try done; tauto.
  - intros [H1 H2 H3 H4 H5 H6 H7 H8 H9 H10 H11 H12 H13 H14].
    split_and!; try done; try tauto.
    + by intros x _ ?%elem_of_nil.
    + destruct (decide (ac_push_servers api = [])); [by left|right; auto].
    + by intros x _ ?%elem_of_nil.
Qed.

Lemma policy_ok_exact p ctx : validate_block_failure_quarantine p ctx = Ok tt <-> policy_ok p.
Proof.
  unfold validate_block_failure_quarantine, policy_ok. by rewrite !then_ok, !bail_ok, !eqb_false_ne.
Qed.

(** What both modes check of a listener. *)
Lemma listener_ok_exact ctx address port servers t stitching chain_id require quarantine api :
  is_some_and blank address = false /\ (port =? 0) = false
  /\ validate_ids ctx chain_id require quarantine = Ok tt
  /\ validate_pool ctx servers t stitching chain_id api = Ok tt <->
  listener_ok address port servers t stitching chain_id require quarantine api.
Proof.
  unfold validate_ids, validate_pool. rewrite !then_ok, !if_some_ok, !bail_ok, some_blank, eqb_false_ne.
  setoid_rewrite bail_ok. setoid_rewrite is_none_false. setoid_rewrite policy_ok_exact.
  setoid_rewrite chain_api_ok_exact. rewrite topology_ok_exact, andb_false_iff, is_none_false.
  pose proof (pool_ok_exact ctx servers) as Hpool. split.
  - intros (H1 & H2 & (H3 & H4 & H5) & H6 & H7 & H8 & H9 & H10). constructor; try done; [|by apply Hpool].
    intros ->. by destruct H4.
  - intros [H1 H2 H3 H4 H5 H6 H7 H8]. apply Hpool in H6 as (Ha & Hb & Hc).
    split_and!; try done. destruct require; [right; auto|by left].
Qed.

Lemma limits_ok_exact c : validate_limits c = Ok tt <-> limits_ok c.
Proof.
  unfold validate_limits. rewrite !then_ok, !bail_ok, !if_some_ok, !eqb_false_ne, Z.ltb_ge.
  rewrite zero_or_least, bool_decide_eq_false, !andb_false_iff. setoid_rewrite bail_ok. setoid_rewrite Z.ltb_ge.
  rewrite is_none_false.
  assert ((forall t, sc_tls c = Some t -> tls_checked t None = Ok tt) <-> tls_ok (sc_tls c)) as ->.
  { by rewrite <-(tls_ok_exact _ None), if_some_ok. }
  split.
  - intros (H1 & H2 & H3 & H4 & H5 & H6 & H7 & H8 & H9 & H10 & H11 & H12 & H13).
    constructor; try done; try tauto.
    + intros He. rewrite He in H10. by destruct H10.
    + intros token Ht. split; [|by apply H12]. rewrite Ht in H11. destruct H11 as [|H11]; [done|].
      by destruct (db_control_token_file _).
  - intros [(? & ? & ?) [? ?] [? ?] ? ? Hd Ht ?]. split_and!; try done.
    + destruct (db_enabled (sc_dashboard c)); [right; auto|by left].
    + destruct (db_control_token (sc_dashboard c)) as [token|]; [right|by left].
      destruct (Ht token eq_refl) as [-> _]. done.
    + intros token Htok. by apply Ht.
Qed.

Lemma top_level_ok_exact c :
  validate_top_level c = Ok tt /\ sc_servers c = [] <-> top_level_ok c.
Proof.
  unfold validate_top_level, top_level_ok. rewrite !then_ok, !bail_ok, negb_false_iff, Z.eqb_eq, bool_decide_eq_false.
  assert (forall A (o : option A), is_some o = false <-> o = None) as Hn by (intros A [?|]; done).
  rewrite !Hn. destruct (sc_topology c); naive_solver.
Qed.

(** ** Sockets *)

Lemma addresses_conflict_comm a b : addresses_conflict a b = addresses_conflict b a.
Proof.
  unfold addresses_conflict, eq_ignore_ascii_case. rewrite <-!orb_assoc. f_equal.
  - by apply bool_decide_ext.
  - apply orb_comm.
Qed.

#[local] Instance apart_sym : Symmetric apart.
Proof. intros a b Hab E. rewrite addresses_conflict_comm. by apply Hab. Qed.

Lemma bail_apart a b ctx e :
  bail_if ((a.2 =? b.2) && addresses_conflict a.1 b.1) ctx e = Ok tt <-> apart a b.
Proof. rewrite bail_ok, andb_false_iff, eqb_false_ne. unfold apart. destruct (decide (a.2 = b.2)); naive_solver. Qed.

Lemma ord_pairs_app {A} (R : A -> A -> Prop) l l' :
  ForallOrdPairs R (l ++ l') <->
  ForallOrdPairs R l /\ ForallOrdPairs R l' /\ forall a b, a ∈ l -> b ∈ l' -> R a b.
Proof.
  induction l as [|x l IH]; cbn.
  - split; [intros Hf; split_and!; [constructor|done|by intros ? ? ?%elem_of_nil]|tauto].
  - split.
    + inversion 1 as [|? ? Hx Hf]; subst. apply IH in Hf as (H1 & H2 & H3).
      apply Forall_app in Hx as [Hx Hx']. rewrite Forall_forall in Hx'.
      split_and!; [by constructor|done|]. intros a b [->|Ha]%elem_of_cons Hb; auto.
    + intros (Hf & H2 & H3). inversion Hf as [|? ? Hx Hf']; subst. constructor.
      * apply Forall_app. split; [done|]. apply Forall_forall. intros b Hb. apply H3; [by left|done].
      * apply IH. split_and!; [done..|]. intros a b Ha. apply H3. by right.
Qed.

Definition listener_socket (c : ServerConfig) (l : ListenerConfig) : string * Z :=
  (listener_addr c l, lc_listen_port l).

Lemma bound_ok name addr port bound :
  validate_bound name addr port bound = Ok tt <->
  forall b, b ∈ bound -> apart (b.1.2, b.2) (addr, port).
Proof.
  unfold validate_bound. rewrite each_ok, Forall_forall. apply forall_proper. intros b.
  by rewrite (bail_apart (b.1.2, b.2) (addr, port)).
Qed.

Lemma listeners_loop_ok c idx ls names bound :
  listeners_loop c idx ls names bound = Ok tt <->
  (Forall named_ok ls /\ NoDup (map (fun l => trim (lc_name l)) ls)
   /\ ForallOrdPairs apart (map (listener_socket c) ls))
  /\ (forall l, l ∈ ls -> trim (lc_name l) ∉ names)
  /\ (forall b l, b ∈ bound -> l ∈ ls -> apart (b.1.2, b.2) (listener_socket c l)).
Proof.
  revert idx names bound. induction ls as [|l ls IH]; intros idx names bound; cbn [listeners_loop map].
  { split; [intros _|done]. split_and!; try constructor; [by intros ? ?%elem_of_nil|by intros ? ? ? ?%elem_of_nil]. }
  rewrite !then_ok, !bail_ok, IH, bound_ok, tls_ok_exact, negb_false_iff, bool_decide_eq_false.
  pose proof (listener_ok_exact (Some (trim (lc_name l))) (lc_listen_address l) (lc_listen_port l) (lc_servers l)
    (lc_topology l) (lc_stitching l) (lc_chain_id l) (lc_require_chain_id l) (lc_block_failure_quarantine l)
    (lc_chain_api l)) as Hl.
  assert (validate_max_connections (Some (trim (lc_name l))) (lc_max_connections l) = Ok tt <->
    forall n, lc_max_connections l = Some n -> cap_ok n) as ->.
  { unfold validate_max_connections. rewrite if_some_ok. apply forall_proper. intros n.
    by rewrite then_ok, !bail_ok, eqb_false_ne, Z.ltb_ge. }
  assert (str_is_empty (trim (lc_name l)) = false <-> trim (lc_name l) <> EmptyString) as ->.
  { by destruct (trim (lc_name l)). }
  rewrite Forall_cons, NoDup_cons. split.
  - intros (H1 & H2 & H3 & H4 & H5 & H6 & H7 & H8 & H9 & H10 & (Hf & Hn & Hp) & Hns & Hb).
    split_and!; try done.
    + constructor; try done. apply Hl. tauto.
    + rewrite list_elem_of_fmap. intros (l' & E & Hin). apply (Hns l' Hin). rewrite <-E. set_solver.
    + constructor; [|done]. rewrite Forall_fmap, Forall_forall. intros l' Hin.
      apply (Hb (trim (lc_name l), listener_addr c l, lc_listen_port l)); [|done].
      apply elem_of_app. right. by left.
    + intros l' [->|Hin]%elem_of_cons; [done|]. specialize (Hns l' Hin). set_solver.
    + intros b l' Hbin [->|Hin]%elem_of_cons; [by apply H9|].
      apply (Hb b l'); [|done]. apply elem_of_app. by left.
  - intros (((Hok & Hf) & (Hni & Hn) & Hp) & Hns & Hb). destruct Hok as [[Hn1 Hn2] Hc Ht Hli].
    apply Hl in Hli as (H1 & H2 & H3 & H4). inversion Hp as [|? ? Hp1 Hp2]; subst.
    rewrite Forall_fmap, Forall_forall in Hp1. split_and!; try done.
    + apply Hns. by left.
    + intros b Hin. apply (Hb b l); [done|by left].
    + intros l' Hin Hx. apply elem_of_union in Hx as [Hx%elem_of_singleton|Hx].
      * apply Hni. rewrite <-Hx. by apply (list_elem_of_fmap_2 (fun l => trim (lc_name l))).
      * apply (Hns l'); [by right|done].
    + intros b l' [Hbin|Hbin]%elem_of_app Hin; [apply Hb; [done|by right]|].
      apply list_elem_of_singleton in Hbin as ->. by apply Hp1.
Qed.

Lemma api_ports_ok apis taken :
  api_ports_loop apis taken = Ok tt <->
  ForallOrdPairs apart (map api_socket apis)
  /\ forall t a, t ∈ taken -> a ∈ map api_socket apis -> apart t a.
Proof.
  revert taken. induction apis as [|a apis IH]; intros taken; cbn [api_ports_loop map].
  { split; [intros _|done]. split; [constructor|by intros ? ? _ ?%elem_of_nil]. }
  rewrite then_ok, each_ok, IH, Forall_forall.
  change (ra_listen_address a, ac_listen_port (ra_cfg a)) with (api_socket a).
  assert ((forall x, x ∈ taken -> bail_if ((x.2 =? ac_listen_port (ra_cfg a)) && addresses_conflict x.1 (ra_listen_address a))
      (ra_listener a) (IvApiPortConflict (ac_listen_port (ra_cfg a))) = Ok tt)
    <-> forall x, x ∈ taken -> apart x (api_socket a)) as ->.
  { apply forall_proper. intros x. by rewrite (bail_apart x (api_socket a)). }
  split.
  - intros (H1 & H2 & H3). split.
    + constructor; [|done]. apply Forall_forall. intros b Hb. apply H3; [|done]. apply elem_of_app. right. by left.
    + intros t b Ht [->|Hb]%elem_of_cons; [auto|]. apply H3; [|done]. apply elem_of_app. by left.
  - intros (H1 & H2). inversion H1 as [|? ? Hx Hf]; subst. rewrite Forall_forall in Hx. split_and!; [|done|].
    + intros x Hin. apply H2; [done|by left].
    + intros t b [Ht|Ht]%elem_of_app Hb; [apply H2; [done|by right]|].
      apply list_elem_of_singleton in Ht as ->. auto.
Qed.

Lemma ship_sockets_listeners c :
  map (fun l => (rl_listen_address l, rl_listen_port l)) (resolved_listeners c) = ship_sockets c.
Proof.
  unfold resolved_listeners, ship_sockets, listener_binds. destruct (sc_listeners c) as [|l ls]; cbn; [done|].
  f_equal. rewrite !map_map. by apply map_ext.
Qed.

Lemma ship_sockets_multi c l ls :
  sc_listeners c = l :: ls -> ship_sockets c = map (listener_socket c) (l :: ls).
Proof. intros E. unfold ship_sockets, listener_binds. rewrite E. rewrite map_map. done. Qed.

Lemma metrics_ok c :
  validate_metrics c = Ok tt <-> forall s m, s ∈ ship_sockets c -> m ∈ metrics_socket c -> apart s m.
Proof.
  unfold validate_metrics, metrics_socket. rewrite <-ship_sockets_listeners, if_some_ok.
  destruct (resolved_metrics_host_port c) as [mp|].
  - split.
    + intros Hm s m Hs Hin. apply list_elem_of_singleton in Hin as ->.
      specialize (Hm mp eq_refl). rewrite each_ok, Forall_forall in Hm.
      apply list_elem_of_fmap in Hs as (l & -> & Hl).
      by apply (bail_apart (rl_listen_address l, rl_listen_port l) mp None (IvMetricsConflict mp.2)),
        (eq_trans (y := bail_if ((rl_listen_port l =? mp.2) && addresses_conflict mp.1 (rl_listen_address l))
          None (IvMetricsConflict mp.2))); [cbn; by rewrite addresses_conflict_comm|apply Hm].
    + intros Ha mp' [= <-]. apply each_ok, Forall_forall. intros l Hl.
      rewrite addresses_conflict_comm.
      apply (bail_apart (rl_listen_address l, rl_listen_port l) mp). apply Ha; [|by left].
      by apply (list_elem_of_fmap_2 (fun l => (rl_listen_address l, rl_listen_port l))).
  - split; [by intros _ s m _ ?%elem_of_nil|done].
Qed.

Lemma chain_api_ports_ok c :
  validate_chain_api_ports c = Ok tt <->
  let apis := map api_socket (omap id (resolved_chain_apis c)) in
  ForallOrdPairs apart apis
  /\ forall t a, t ∈ ship_sockets c ++ metrics_socket c -> a ∈ apis -> apart t a.
Proof. apply api_ports_ok. Qed.

(** All sockets are apart exactly when each check of them passes. *)
Lemma sockets_apart c :
  ForallOrdPairs apart (sockets c) <->
  ForallOrdPairs apart (ship_sockets c) /\ validate_metrics c = Ok tt /\ validate_chain_api_ports c = Ok tt.
Proof.
  rewrite metrics_ok, chain_api_ports_ok. unfold sockets. rewrite app_assoc, !ord_pairs_app. cbv zeta.
  assert (ForallOrdPairs apart (metrics_socket c)) as Hm.
  { unfold metrics_socket. destruct (resolved_metrics_host_port c); repeat constructor. }
  tauto.
Qed.

Lemma single_socket c : sc_listeners c = [] -> ForallOrdPairs apart (ship_sockets c).
Proof. intros E. unfold ship_sockets, listener_binds. rewrite E. repeat constructor. Qed.

Lemma validate_ok c : validate c = Ok tt <-> config_ok c.
Proof.
  unfold validate. rewrite !then_ok, limits_ok_exact, bail_ok, andb_false_iff, !negb_false_iff, !bool_decide_eq_true.
  pose proof (sockets_apart c) as Hs. destruct (sc_listeners c) as [|l ls] eqn:El.
  - unfold validate_single. rewrite !then_ok, !bail_ok.
    pose proof (listener_ok_exact None (Some (sc_listen_address c)) (sc_listen_port c) (sc_servers c) (sc_topology c)
      (sc_stitching c) (sc_chain_id c) (sc_require_chain_id c) (sc_block_failure_quarantine c) (sc_chain_api c)) as Hl.
    cbn [is_some_and] in Hl. pose proof (single_socket c El). split.
    + intros (H1 & _ & H2 & H3 & H4). constructor; [done| | |by apply Hs].
      * intros _. by apply Hl.
      * by rewrite El.
    + intros [H1 H2 _ H4]. apply Hs in H4 as (_ & H5 & H6). specialize (H2 El). apply Hl in H2.
      split_and!; try done; try tauto.
  - rewrite then_ok, listeners_loop_ok. pose proof (top_level_ok_exact c) as Ht.
    rewrite <-(ship_sockets_multi c l ls El). split.
    + intros (H1 & [H2|H2] & (H3 & (H4 & H5 & H6) & _) & H7 & H8); [|done].
      constructor; [done|by rewrite El| |by apply Hs].
      intros _. rewrite El. split_and!; [by apply Ht|done|done].
    + intros [H1 _ H3 H4]. apply Hs in H4 as (H5 & H6 & H7). rewrite El in H3. destruct H3 as (H8 & H9 & H10); [done|].
      apply Ht in H8 as [H8 H11]. split_and!; try done; [by left|by intros ? ? ?%elem_of_nil].
Qed.

(** C19: [validate] implements its specification: it accepts exactly the
    configurations whose limits are in range, whose listeners and servers are well
    formed and distinct, whose stitched listeners have a chain id, and whose
    sockets, those of the listeners, the metrics and the chain APIs, can all be
    bound together. *)
Theorem validate_exact c : validate c = Ok tt <-> config_ok c.
Proof. apply validate_ok. Qed.

(** ** Resolution *)

Lemma identity_endpoint s s' : sv_endpoint s = sv_endpoint s' -> identity s = identity s'.
Proof.
  intros E. unfold identity, upstream_identity. rewrite E.
  destruct (split_once _ _) as [[scheme rest]|]; [destruct (is_uri_scheme scheme), (is_ws _); cbn; try done|cbn].
  all: destruct (uri_parse _) as [uri|]; [|done]; destruct (is_ws _); [|done]; cbn.
  all: destruct (pu_authority uri) as [a|]; [|done]; by destruct (str_is_empty _).
Qed.

Lemma omap_distinct {A B C} (f : A -> option B) (g : A -> C) l :
  (forall x y, g x = g y -> f x = f y) -> Forall (fun x => is_Some (f x)) l ->
  NoDup (omap f l) -> NoDup (map g l).
Proof.
  intros Hg Hs. induction Hs as [|x l [b Hb] Hs IH]; cbn; [constructor|]. rewrite Hb. cbn.
  intros [Hn Hd]%NoDup_cons. constructor; [|by apply IH]. rewrite list_elem_of_fmap.
  intros (y & E & Hin). apply Hn, list_elem_of_omap. exists y. split; [done|]. rewrite <-Hb. symmetry. by apply Hg.
Qed.

Lemma collect_distinct {A} (l : list (string * A)) :
  NoDup (map fst l) -> (forall k v, (k, v) ∈ l -> collect l !! k = Some v) /\ size (collect l) = length l.
Proof.
  unfold collect. induction l as [|[k v] l IH] using rev_ind.
  { intros _. split; [by intros ? ? ?%elem_of_nil|done]. }
  rewrite map_app, NoDup_app. intros (Hn & Hd & _). destruct (IH Hn) as [H1 H2]. rewrite foldl_app. cbn.
  assert (foldl (fun m kv => <[kv.1 := kv.2]> m) (∅ : gmap string A) l !! k = None) as Hk.
  { destruct (_ !! k) as [w|] eqn:E; [|done]. exfalso. apply collect_lookup in E.
    eapply Hd; [by apply (list_elem_of_fmap_2 fst) in E|by left]. }
  split.
  - intros k' v' [Hin|Hin]%elem_of_app.
    + rewrite lookup_insert_ne; [by apply H1|]. intros ->. apply H1 in Hin. congruence.
    + apply list_elem_of_singleton in Hin as [= -> ->]. apply lookup_insert_eq.
  - rewrite map_size_insert_None by done. rewrite H2, length_app. cbn. lia.
Qed.

(** A pool that validates has one state per enabled upstream. *)
Lemma pool_states servers expected require :
  pool_ok servers ->
  (forall k s, shipped servers !! k = Some s ->
     build_state_db_with_chain_id servers expected require !! sv_endpoint s
       = Some (state_of_server expected require (Z.of_nat k) s))
  /\ size (build_state_db_with_chain_id servers expected require) = length (shipped servers).
Proof.
  intros [_ Hs Hd _]. unfold build_state_db_with_chain_id, state_entries.
  assert (NoDup (map sv_endpoint (shipped servers))) as Hn.
  { apply (omap_distinct identity sv_endpoint); [apply identity_endpoint| |done].
    apply Forall_forall. intros s Hin. apply list_elem_of_In, filter_In in Hin as [Hin%list_elem_of_In Hb].
    bools. rewrite Forall_forall in Hs. by apply (so_identity _ (Hs s Hin)). }
  set (entries := imap _ _).
  assert (map fst entries = map sv_endpoint (shipped servers)) as Hf.
  { subst entries. change (map fst ?l) with (fst <$> l). rewrite fmap_imap. apply (imap_const sv_endpoint). }
  destruct (collect_distinct entries) as [H1 H2]; [by rewrite Hf|]. split.
  - intros k s Hk. apply H1. subst entries. apply list_elem_of_lookup. exists k. by rewrite list_lookup_imap, Hk.
  - rewrite H2. subst entries. apply length_imap.
Qed.

Lemma chain_id_bytes cid id : parse_chain_id cid = Some id -> length id = 32%nat /\ Forall is_u8 id.
Proof.
  unfold parse_chain_id. destruct (_ || _) eqn:E; [done|]. bools. apply Nat.eqb_eq in H0.
  intros (_ & Hl & Hu)%hex_pairs_some. split; [lia|done].
Qed.

Lemma filter_filter {A} (p q : A -> bool) l :
  List.filter q (List.filter p l) = List.filter (fun x => p x && q x) l.
Proof. induction l as [|x l IH]; cbn; [done|]. destruct (p x); cbn; [destruct (q x)|]; by rewrite ?IH. Qed.

(** The chain API upstream a server becomes. *)
Definition upstream_of (index : Z) (s : Server) (api : ApiEndpoint) : ApiUpstream :=
  mkApiUpstream index (sv_name s) (sv_endpoint s) (sv_role s) api (sv_priority s) (Z.max (sv_weight s) 1) (sv_range s).

Lemma api_upstreams_cons s es ship http :
  api_upstreams (s :: es) ship http =
    let b := has_ship_endpoint s in
    match api_of s with Some api => [upstream_of (if b then ship else http) s api] | None => [] end
    ++ api_upstreams es (if b then ship + 1 else ship) (if b then http else http + 1).
Proof. cbn. unfold api_of. by destruct (_ ≫= _). Qed.

Lemma api_upstreams_index es ship http u :
  u ∈ api_upstreams es ship http ->
  exists s api, s ∈ es /\ api_of s = Some api /\ u = upstream_of (au_index u) s api
    /\ if has_ship_endpoint s
       then exists k, List.filter has_ship_endpoint es !! k = Some s /\ au_index u = ship + Z.of_nat k
       else http <= au_index u.
Proof.
  revert ship http. induction es as [|s es IH]; intros ship http; [by intros ?%elem_of_nil|].
  rewrite api_upstreams_cons. cbv zeta. intros [Hu|Hu]%elem_of_app.
  - destruct (api_of s) as [api|] eqn:Ea; [|by apply elem_of_nil in Hu].
    apply list_elem_of_singleton in Hu as ->. exists s, api. split_and!; [by left|done|done|]. cbn.
    destruct (has_ship_endpoint s); [exists 0%nat; split; [done|lia]|lia].
  - apply IH in Hu as (s' & api & Hin & Ha & Eu & Hi). exists s', api. split_and!; [by right|done|done|]. cbn.
    destruct (has_ship_endpoint s) eqn:Es, (has_ship_endpoint s') eqn:Es'; try done; [|lia].
    destruct Hi as (k & Hk & Hi). exists (S k). split; [done|lia].
Qed.

Lemma api_upstreams_has es ship http s api :
  s ∈ es -> api_of s = Some api -> exists i, upstream_of i s api ∈ api_upstreams es ship http.
Proof.
  revert ship http. induction es as [|s' es IH]; intros ship http; [by intros ?%elem_of_nil|].
  rewrite api_upstreams_cons. cbv zeta. intros [->|Hin]%elem_of_cons Ha.
  - rewrite Ha. eexists. apply elem_of_app. left. by left.
  - destruct (IH (if has_ship_endpoint s' then ship + 1 else ship) (if has_ship_endpoint s' then http else http + 1) Hin Ha)
      as [i Hi]. exists i. apply elem_of_app. by right.
Qed.

Lemma api_upstreams_distinct es ship http :
  ship + zlen (List.filter has_ship_endpoint es) <= http ->
  NoDup (map au_index (api_upstreams es ship http)).
Proof.
  revert ship http. induction es as [|s es IH]; intros ship http Hle; [constructor|].
  rewrite api_upstreams_cons. cbv zeta. rewrite map_app, NoDup_app. cbn [List.filter] in Hle. split_and!.
  - destruct (api_of s); [apply NoDup_singleton|constructor].
  - intros i Hi Hj. destruct (api_of s) as [api|]; [|by apply elem_of_nil in Hi].
    apply list_elem_of_singleton in Hi as ->. cbn in Hj. apply list_elem_of_fmap in Hj as (u & E & Hu).
    apply api_upstreams_index in Hu as (s' & api' & _ & _ & _ & Hi). rewrite <-E in Hi.
    destruct (has_ship_endpoint s), (has_ship_endpoint s'); cbn [length] in Hle; try lia.
    + destruct Hi as (k & _ & ?). lia.
    + destruct Hi as (k & Hk%lookup_lt_Some & ?). lia.
  - apply IH. destruct (has_ship_endpoint s); cbn [length] in Hle; lia.
Qed.

Lemma push_indices_ok names ups :
  Forall (fun name => exists u, u ∈ ups /\ au_name u = name /\ au_role u = Live) names ->
  Forall2 (fun name i => exists u, u ∈ ups /\ au_name u = name /\ au_role u = Live /\ au_index u = i)
    names (push_indices names ups).
Proof.
  induction 1 as [|name names (u & Hu & Hn & Hr) _ IH]; [constructor|]. unfold push_indices in *. cbn.
  destruct (List.find _ ups) as [v|] eqn:E; cbn.
  - apply find_some in E as [Hin%list_elem_of_In Hv]. bools. constructor; [|done]. exists v.
    split_and!; try done. by destruct (au_role v).
  - exfalso. eapply find_none in E; [|by apply list_elem_of_In]. cbn in E.
    rewrite Hn, Hr, bool_decide_true in E; done.
Qed.

(** A listener and its chain API, whatever the mode. *)
Lemma resolved_listener_ok c i rl :
  config_ok c -> resolved_listeners c !! i = Some rl ->
  exists address t stitching chain_id api,
    listener_ok address (rl_listen_port rl) (rl_servers rl) t stitching chain_id (rl_require_chain_id rl)
      (rl_block_failure_quarantine rl) api
    /\ rl_topology rl = resolve t (rl_servers rl) /\ rl_expected_chain_id rl = chain_id ≫= parse_chain_id
    /\ cap_ok (rl_max_connections rl)
    /\ forall ra, resolved_chain_apis c !! i = Some (Some ra) ->
         api = Some (ra_cfg ra)
         /\ ra_upstreams ra = api_upstreams (List.filter sv_enabled (rl_servers rl)) 0 (zlen (shipped (rl_servers rl)))
         /\ ra_push ra = push_indices (ac_push_servers (ra_cfg ra)) (ra_upstreams ra).
Proof.
  intros [Hl Hs Hm _]. unfold resolved_listeners, resolved_chain_apis.
  destruct (sc_listeners c) as [|l0 ls] eqn:El.
  - intros Hi. apply list_lookup_singleton_Some in Hi as [-> <-]. cbn.
    do 5 eexists. split_and!; [by apply Hs|done|done|apply Hl|].
    intros ra [= Hra]. unfold resolve_chain_api in Hra. destruct (sc_chain_api c) as [cfg|]; [|done].
    injection Hra as <-. done.
  - rewrite <-El in *. change (map ?f ?l) with (f <$> l). rewrite list_lookup_fmap.
    destruct (sc_listeners c !! i) as [l|] eqn:Ei; [|done]. intros [= <-].
    destruct Hm as (_ & Hf & _); [by rewrite El|]. rewrite Forall_forall in Hf.
    destruct (Hf l (list_elem_of_lookup_2 _ _ _ Ei)) as [_ Hc _ Hli]. cbn.
    do 5 eexists. split_and!; [exact Hli|done|done| |].
    + destruct (lc_max_connections l) as [n|]; [by apply Hc|apply Hl].
    + intros ra. rewrite lookup_zip_with, Ei. cbn. destruct (listener_binds c !! i) as [b|]; [|done]. cbn.
      intros [= Hra]. unfold resolve_chain_api in Hra. destruct (lc_chain_api l) as [cfg|]; [|done].
      injection Hra as <-. done.
Qed.

(** The upstreams of a chain API have the indices of their states, and its push
    targets are among them. *)
Lemma api_ready servers expected require names :
  pool_ok servers ->
  Forall (fun name => exists s, s ∈ servers /\ push_server name s = true) names ->
  let db := build_state_db_with_chain_id servers expected require in
  let ups := api_upstreams (List.filter sv_enabled servers) 0 (zlen (shipped servers)) in
  NoDup (map au_index ups)
  /\ (forall s, s ∈ servers -> sv_enabled s = true -> is_Some (sv_api_endpoint s) ->
      exists n api, api_of s = Some api /\ upstream_of n s api ∈ ups)
  /\ (forall u, u ∈ ups -> forall st, db !! au_endpoint u = Some st -> s_index (cfg st) = au_index u)
  /\ Forall2 (fun name n => exists u, u ∈ ups /\ au_name u = name /\ au_role u = Live /\ au_index u = n)
       names (push_indices names ups).
Proof.
  intros Hpool Hnames db ups.
  destruct (pool_states servers expected require Hpool) as [Hdb Hsz].
  pose proof (po_servers _ Hpool) as Hso. rewrite Forall_forall in Hso.
  assert (forall s, s ∈ shipped servers -> s ∈ servers /\ sv_enabled s = true /\ has_ship_endpoint s = true) as Hsh.
  { intros s [Hin Hb]%elem_of_List_filter. by bools. }
  assert (List.filter has_ship_endpoint (List.filter sv_enabled servers) = shipped servers) as Hff
    by apply filter_filter.
  assert (forall s, s ∈ servers -> sv_enabled s = true -> is_Some (sv_api_endpoint s) ->
    exists n api, api_of s = Some api /\ upstream_of n s api ∈ ups) as Hhas.
  { intros s Hin Hen Ha. destruct (so_api _ (Hso s Hin) Ha) as [a Hapi'].
    destruct (api_upstreams_has (List.filter sv_enabled servers) 0 (zlen (shipped servers)) s a) as [n Hn];
      [by apply elem_of_List_filter|done|eauto]. }
  split_and!; [|done| |].
  - apply api_upstreams_distinct. rewrite Hff. lia.
  - intros u Hu st Hst. subst db. apply api_upstreams_index in Hu as (s & a & Hin & _ & Eu & Hix).
    assert (au_endpoint u = sv_endpoint s) as Hue by (by rewrite Eu). rewrite Hue in Hst.
    destruct (has_ship_endpoint s) eqn:Es.
    + destruct Hix as (k & Hk & ->). rewrite Hff in Hk. rewrite (Hdb k s Hk) in Hst. by injection Hst as <-.
    + exfalso. unfold build_state_db_with_chain_id in Hst. apply collect_lookup in Hst.
      apply list_elem_of_lookup in Hst as [k Hk]. unfold state_entries in Hk. rewrite list_lookup_imap in Hk.
      destruct (shipped servers !! k) as [s'|] eqn:Ek; [|done]. injection Hk as Hep _.
      destruct (Hsh s' (list_elem_of_lookup_2 _ _ _ Ek)) as (_ & _ & Hship).
      unfold has_ship_endpoint in *. rewrite Hep in Hship. congruence.
  - apply push_indices_ok. rewrite Forall_forall in *.
    intros name Hn. destruct (Hnames name Hn) as (s & Hin & Hb). unfold push_server in Hb. bools.
    destruct (Hhas s) as (n & a & Ha & Hu); [done|done|by apply is_some_true|].
    exists (upstream_of n s a). split_and!; [done|done|]. cbn. by destruct (sv_role s).
Qed.

(** What a validated configuration resolves to is what the rest of the router
    assumes. The state map of a listener has one state per enabled server with a
    SHiP endpoint, at its endpoint and with its place in the file as index; a
    stitched listener, and one that requires a chain id, has one of 32 bytes; a
    pool has no archive; the upstreams of its chain API are its enabled servers
    with an API, no index used twice, each with a SHiP endpoint having the index
    of its state; and pushes go to one live server per name, in order. *)
Theorem resolved_ready c i rl :
  validate c = Ok tt -> resolved_listeners c !! i = Some rl ->
  let servers := rl_servers rl in
  let db := build_state_db_with_chain_id servers (rl_expected_chain_id rl) (rl_require_chain_id rl) in
  ((forall k s, shipped servers !! k = Some s -> exists st, db !! sv_endpoint s = Some st
      /\ s_index (cfg st) = Z.of_nat k /\ s_role (cfg st) = sv_role s)
   /\ size db = length (shipped servers))
  /\ (rl_topology rl = RStitched \/ rl_require_chain_id rl = true ->
      exists id, rl_expected_chain_id rl = Some id /\ length id = 32%nat /\ Forall is_u8 id)
  /\ (rl_topology rl = RPool -> forall s, s ∈ servers -> sv_enabled s = true -> sv_role s = Live)
  /\ forall ra, resolved_chain_apis c !! i = Some (Some ra) ->
     NoDup (map au_index (ra_upstreams ra))
     /\ (forall s, s ∈ servers -> sv_enabled s = true -> is_Some (sv_api_endpoint s) ->
         exists n api, api_of s = Some api /\ upstream_of n s api ∈ ra_upstreams ra)
     /\ (forall u, u ∈ ra_upstreams ra -> forall st, db !! au_endpoint u = Some st -> s_index (cfg st) = au_index u)
     /\ Forall2 (fun name n => exists u, u ∈ ra_upstreams ra /\ au_name u = name /\ au_role u = Live /\ au_index u = n)
          (ac_push_servers (ra_cfg ra)) (ra_push ra).
Proof.
  intros Hv%validate_ok Hi servers db.
  destruct (resolved_listener_ok c i rl Hv Hi) as (address & t & stitching & chain_id & api & Hl & Ht & He & _ & Hra).
  fold servers in Hl, Ht, Hra.
  destruct (pool_states servers (rl_expected_chain_id rl) (rl_require_chain_id rl) (li_pool _ _ _ _ _ _ _ _ _ Hl)) as [Hdb Hsz].
  split_and!; [|done| | |].
  - intros k s Hk. eexists. split; [by apply Hdb|]. cbn. done.
  - intros Hor. assert (is_Some chain_id) as [cid Hcid].
    { destruct Hor as [E|E]; [apply (to_chain _ _ _ _ (li_topology _ _ _ _ _ _ _ _ _ Hl)); congruence|by apply (li_require _ _ _ _ _ _ _ _ _ Hl)]. }
    destruct (li_chain_id _ _ _ _ _ _ _ _ _ Hl cid Hcid) as [id Hid]. exists id. rewrite He, Hcid. cbn.
    split; [done|]. by apply chain_id_bytes in Hid.
  - intros Hp s Hin Hen. destruct (sv_role s) eqn:Er; [done|]. exfalso.
    assert (has_enabled_frozen servers = true) as Hf.
    { apply existsb_elem. exists s. by rewrite Hen, Er. }
    rewrite Ht in Hp. destruct t; cbn in Hp; [by rewrite Hf in Hp| |done].
    pose proof (to_pool _ _ _ _ (li_topology _ _ _ _ _ _ _ _ _ Hl) eq_refl). congruence.
  - intros ra Hr. destruct (Hra ra Hr) as (-> & Hups & Hpush). rewrite Hpush, Hups.
    pose proof (li_api _ _ _ _ _ _ _ _ _ Hl _ eq_refl) as Hapi. apply api_ready; [apply Hl|].
    by destruct (ca_push_servers _ _ Hapi).
Qed.

(** ** Warnings *)

Lemma declared_loop_merge merged l : declared_loop merged l = merge_loop merged l.
Proof.
  revert merged. induction l as [|r l IH]; intros [|last merged]; cbn; done.
Qed.

Lemma hole_warnings_holes l : hole_warnings l = map (fun r => WHole (rbegin r) (rend r)) (holes l).
Proof. induction l as [|a [|b l] IH]; [done..|]. cbn in *. by rewrite IH. Qed.

(** The holes a stitched listener is warned of are exactly the blocks missing
    between the declared ranges of its archives: a block is in one when no
    declared range holds it and some hold a block below and a block above. *)
Theorem hole_warnings_exact t stitching servers n :
  resolve t servers = RStitched ->
  let declared := omap sv_range (frozen_servers servers) in
  (exists b e, WHole b e ∈ listener_warnings t stitching servers /\ b <= n < e) <->
  ~ holds declared n /\ (exists m, m < n /\ holds declared m) /\ (exists m, n < m /\ holds declared m).
Proof.
  intros Ht declared. unfold listener_warnings. rewrite Ht. cbv zeta. fold declared.
  rewrite declared_loop_merge, hole_warnings_holes.
  change (rev (merge_loop [] (sort_by range_cmp (List.filter (fun r => negb (range_is_empty r)) declared))))
    with (merge declared).
  destruct (merge_spec declared) as [Hn Hh]. pose proof (holes_spec (merge declared) n Hn) as Hs.
  setoid_rewrite Hh in Hs. rewrite <-Hs. unfold holds. split.
  - intros (b & e & Hin & Hbe). rewrite !elem_of_app in Hin. destruct Hin as [Hin|[Hin|Hin]].
    + destruct (existsb _ _); [by apply elem_of_nil in Hin|by apply list_elem_of_singleton in Hin].
    + apply list_elem_of_omap in Hin as (s & _ & E). by destruct (is_none (sv_range s)).
    + apply list_elem_of_fmap in Hin as (r & [= -> ->] & Hr). eauto.
  - intros (r & Hr & Hbe). exists (rbegin r), (rend r). split; [|done]. rewrite !elem_of_app. right. right.
    by apply (list_elem_of_fmap_2 (fun r => WHole (rbegin r) (rend r))).
Qed.
End exact.

(** ** Witnesses *)

(** A parser that takes [scheme://authority] and a port after the last colon. *)
Definition sample_authority (text : string) : option Authority :=
  match rsplit_once (Ascii.ascii_of_nat 58) text with
  | Some (host, port) => Some (mkAuthority text host (parse_u16 port))
  | None => Some (mkAuthority text text None)
  end.
#[local] Instance sample_env : ConfigEnv := {|
  uri_parse url := '(scheme, rest) ← split_once "://" url;
    authority ← sample_authority rest; Some (mkParsedUri (Some scheme) (Some authority) "/" None);
  authority_parse := sample_authority;
  header_value_ok _ := true;
  read_to_string _ := None;
  abi_from_json _ := false;
  cert := string; private_key := string; certified_key := string * string;
  tls_disk := sample_disk;
|}.

Definition archive_server : Server :=
  mkServer "archive" "10.0.0.1:8080" true Frozen (Some (mkRange 2 1000)) None 0 1 (Some "10.0.0.1:8888"%string).
Definition live_server : Server :=
  mkServer "live" "ws://10.0.0.2:8080" true Live None None 0 2 (Some "http://10.0.0.2"%string).
Definition http_server : Server :=
  mkServer "api" EmptyString true Live None None 0 1 (Some "10.0.0.3:8888"%string).
Definition sample_api : ChainApiConfig :=
  mkApiConfig 8888 None [ClBlock; ClPush] FrozenFirst ["live"%string] 2097152 0 1024 256 64 1000 10000 30000 3 1000
    None None.
Definition sample_chain_id : string :=
  "aca376f206b8fc25a6ed44dbdc66547c36c6c33e3a119ffbeaef943642f0e906".
Definition sample_config : ServerConfig := {|
  sc_listen_address := "0.0.0.0"; sc_listen_port := 8080;
  sc_upstream_reconnect_ms := 1000; sc_upstream_monitoring_ms := 1000; sc_upstream_status_ms := 1000;
  sc_servers := [http_server; archive_server; live_server];
  sc_chain_id := Some sample_chain_id; sc_require_chain_id := false;
  sc_block_failure_quarantine := Some (mkPolicy 2 300 600 1);
  sc_topology := TAuto; sc_stitching := None; sc_chain_api := Some sample_api; sc_tls := None;
  sc_listeners := []; sc_max_connections := 1000; sc_handshake_timeout_ms := 0; sc_idle_timeout_ms := 0;
  sc_upstream_liveness_timeout_ms := 0; sc_max_message_bytes := 1000; sc_max_client_message_bytes := 1000;
  sc_shutdown_grace_ms := 0; sc_upstream_stall_timeout_ms := 60000; sc_live_lag_blocks := 1200;
  sc_metrics_address := None; sc_metrics_port := Some 9090; sc_dashboard := mkDashboard false None None [];
|}.

(** The chain API on the SHiP port is refused. *)
Example api_port_taken :
  validate (H := sample_env) {|
    sc_listen_address := "127.0.0.1"; sc_listen_port := 8888;
    sc_upstream_reconnect_ms := 1000; sc_upstream_monitoring_ms := 1000; sc_upstream_status_ms := 1000;
    sc_servers := [live_server]; sc_chain_id := None; sc_require_chain_id := false;
    sc_block_failure_quarantine := None; sc_topology := TAuto; sc_stitching := None;
    sc_chain_api := Some sample_api; sc_tls := None;
    sc_listeners := []; sc_max_connections := 1000; sc_handshake_timeout_ms := 0; sc_idle_timeout_ms := 0;
    sc_upstream_liveness_timeout_ms := 0; sc_max_message_bytes := 1000; sc_max_client_message_bytes := 1000;
    sc_shutdown_grace_ms := 0; sc_upstream_stall_timeout_ms := 0; sc_live_lag_blocks := 0;
    sc_metrics_address := None; sc_metrics_port := None; sc_dashboard := mkDashboard false None None [] |}
  = Err (None, IvApiPortConflict 8888).
Proof. vm_compute. reflexivity. Qed.

Lemma resolved_ready_witness :
  exists rl ra, resolved_listeners sample_config !! 0%nat = Some rl
    /\ resolved_chain_apis sample_config !! 0%nat = Some (Some ra)
    /\ NoDup (map au_index (ra_upstreams ra)) /\ map au_index (ra_upstreams ra) = [2; 0; 1] /\ ra_push ra = [1].
Proof.
  destruct (resolved_listeners sample_config !! 0%nat) as [rl|] eqn:El; [|vm_compute in El; discriminate].
  destruct (resolved_chain_apis sample_config !! 0%nat) as [[ra|]|] eqn:Er; try (vm_compute in Er; discriminate).
  exists rl, ra. split_and!; try done.
  - apply (resolved_ready sample_config 0 rl); [vm_compute; reflexivity|exact El|exact Er].
  - vm_compute in Er. injection Er as <-. vm_compute. reflexivity.
  - vm_compute in Er. injection Er as <-. vm_compute. reflexivity.
Defined.

Lemma hole_warnings_exact_witness :
  exists b e, WHole b e ∈ listener_warnings TAuto None
      [archive_server; mkServer "old" "10.0.0.4:8080" true Frozen (Some (mkRange 1500 2000)) None 0 1 None]
    /\ b <= 1200 < e.
Proof.
  apply (hole_warnings_exact TAuto None _ 1200); [reflexivity|]. cbv zeta.
  change (omap sv_range _) with [mkRange 2 1000; mkRange 1500 2000]. unfold holds. split_and!.
  - intros (r & Hr & Hn). rewrite !elem_of_cons, elem_of_nil in Hr.
    destruct Hr as [-> | [-> | []]]; cbn in Hn; lia.
  - exists 5. split; [lia|]. exists (mkRange 2 1000). split; [by left|cbn; lia].
  - exists 1600. split; [lia|]. exists (mkRange 1500 2000). split; [by right; left|cbn; lia].
Defined.
