(* ===== verification/Health.v ===== *)
(** * Readiness and the HTTP endpoint

    Models the readiness decisions of [src/src/health.rs] with their answers, the
    label texts of its metrics, and of [src/src/http.rs] the [Host] policy, the
    status line and the text helpers of the status page.

    A listener is given by the state map, the view its hub shows and the snapshot
    of its chain API at the time of the request.

    The theorems: [/ready] answers 200 exactly when every listener asked about is
    ready; a stitched listener is ready for history exactly when it is ready for the
    tip, every archive's range is known and every block between two held ones is
    held by an upstream that is online; a label value reads back as the text it was
    made from; the dashboard answers to a foreign name only if it is listed. *)

From stdpp Require Import pretty.
From S2P Require Import Prelude Wire Models Coverage View Planner ApiRoute ApiPick ApiDirectory ApiBody Config.

#[local] Open Scope string_scope.
#[local] Open Scope list_scope.
#[local] Open Scope Z_scope.

(** The parts of a [format!], in order. *)
Definition fmt (parts : list string) : string := foldr String.append EmptyString parts.

Definition newline : string := String.String (Ascii.ascii_of_nat 10) EmptyString.

(** ** Readiness *)

Record HubHealth := mkHubHealth { hh_topology : ResolvedTopology; hh_view : FleetView }.
Record ApiHealth := mkApiHealth { ah_snapshot : list ApiView; ah_bound : bool }.

Record ListenerHealthState := mkHealth {
  lh_name : option string;
  lh_state_db : gmap string ServerState;
  lh_hub : option HubHealth;
  lh_chain_api : option ApiHealth;
}.

Inductive Scope := ScTip | ScHistory | ScApi.
#[export] Instance Scope_eq_dec : EqDecision Scope.
Proof. solve_decision. Defined.

(** [str::split] by a character. *)
Fixpoint split_char (sep : Ascii.ascii) (s : string) : list string :=
  match s with
  | EmptyString => [EmptyString]
  | String.String c s =>
      if Ascii.eqb c sep then EmptyString :: split_char sep s
      else match split_char sep s with
           | part :: rest => String.String c part :: rest
           | [] => [String.String c EmptyString]
           end
  end.

Definition scope_of (value : string) : result Scope string :=
  if bool_decide (value = EmptyString \/ value = "tip") then Ok ScTip
  else if bool_decide (value = "history") then Ok ScHistory
  else if bool_decide (value = "api") then Ok ScApi
  else Err value.

Fixpoint parse_pairs (pairs : list string) : result Scope string :=
  match pairs with
  | [] => Ok ScTip
  | p :: pairs =>
      match strip_prefix "scope=" p with
      | Some value => scope_of value
      | None => parse_pairs pairs
      end
  end.

Definition ampersand : Ascii.ascii := Ascii.ascii_of_nat 38.

Definition parse_scope (query : option string) : result Scope string :=
  parse_pairs (split_char ampersand (default EmptyString query)).

Definition Response : Type := string * string * string.

Definition not_found : Response := ("404 Not Found", "text/plain", fmt ["not found"; newline]).

Record Readiness := mkReadiness { rd_online : Z; rd_reasons : list string; rd_pool : bool }.

Definition is_nil {A} (l : list A) : bool := match l with [] => true | _ => false end.

Definition ready (r : Readiness) : bool := is_nil (rd_reasons r).

Definition NO_UPSTREAMS_ONLINE : string := "no upstreams online".
Definition NO_CHAIN_API : string := "no chain API configured".

Definition online_text (scope : Scope) (online : Z) : string :=
  match scope with
  | ScTip | ScHistory => fmt [pretty online; " upstream(s) online"]
  | ScApi => fmt [pretty online; " chain API upstream(s) up"]
  end.

Definition api_usable (a : ApiView) : bool := av_up a && (av_is_live a || av_verified a).

Definition api_readiness (l : ListenerHealthState) : Readiness :=
  match lh_chain_api l with
  | None => mkReadiness 0 [NO_CHAIN_API] false
  | Some api =>
      let snaps := ah_snapshot api in
      let live_configured := existsb av_is_live snaps in
      let live_up := count_if av_is_live (List.filter api_usable snaps) in
      let online := count_if api_usable snaps in
      let reasons := if negb (ah_bound api) then ["chain API not listening"] else [] in
      let reasons :=
        if live_configured && (live_up =? 0) then reasons ++ ["no live chain API upstream up"]
        else if negb live_configured && (online =? 0)
             then reasons ++ ["no verified frozen chain API upstream up"]
             else reasons in
      mkReadiness online reasons false
  end.

(** The problems noted so far, each with the logs it applies to. *)
Fixpoint note (problem log : string) (found : list (string * list string)) : list (string * list string) :=
  match found with
  | [] => [(problem, [log])]
  | (p, logs) :: found =>
      if bool_decide (p = problem) then (p, logs ++ [log]) :: found else (p, logs) :: note problem log found
  end.

(** [Log::as_str]. *)
Definition log_str (log : Log) : string :=
  match log with Trace => "trace" | ChainState => "chain_state" | Finality => "finality" end.

Definition gap_text (r : Range) : string := fmt ["gap ["; pretty (rbegin r); ","; pretty (rend r); ") has no upstream"].
Definition segment_text (r : Range) : string :=
  fmt ["segment ["; pretty (rbegin r); ","; pretty (rend r); ") has no online upstream"].

Definition note_log (view : FleetView) (found : list (string * list string)) (log : Log)
  : list (string * list string) :=
  let c := cov view log in
  let found := foldl (fun found gap => note (gap_text gap) (log_str log) found) found (gaps c) in
  foldl (fun found seg => note (segment_text seg) (log_str log) found) found (offline_only c).

Definition history_reasons (view : FleetView) : list string :=
  let found := foldl (note_log view) [] [Trace; ChainState] in
  let out := map (fun f : string * list string => fmt [f.1; " ("; join ", " f.2; ")"]) found in
  if 0 <? v_frozen_unknown view
  then out ++ [fmt [pretty (v_frozen_unknown view);
                    " frozen upstream(s) have neither reported nor declared a range"]]
  else out.

Definition count_online (db : gmap string ServerState) : Z :=
  count_if (fun s => online s && routable s) (snd <$> map_to_list db).

Definition listener_readiness (l : ListenerHealthState) (scope : Scope) : Readiness :=
  if bool_decide (scope = ScApi) then api_readiness l
  else
    let pool :=
      let n := count_online (lh_state_db l) in
      mkReadiness n (if 0 <? n then [] else [NO_UPSTREAMS_ONLINE]) true in
    match lh_hub l with
    | Some hub =>
        match hh_topology hub with
        | RStitched =>
            let view := hh_view hub in
            let reasons :=
              if v_live_configured view && (v_live_online view =? 0) then ["no live upstreams online"]
              else if negb (v_live_configured view) && (v_online view =? 0) then [NO_UPSTREAMS_ONLINE]
              else [] in
            let reasons := if bool_decide (scope = ScHistory) then reasons ++ history_reasons view else reasons in
            mkReadiness (v_online view) reasons false
        | RPool => pool
        end
    | None => pool
    end.

Definition tip_ready (l : ListenerHealthState) : bool := ready (listener_readiness l ScTip).

Definition ok_text (body : list string) : Response := ("200 OK", "text/plain", fmt (body ++ [newline])).
Definition unavailable (body : list string) : Response :=
  ("503 Service Unavailable", "text/plain", fmt (body ++ [newline])).

(** The verdicts in order: the total online and the ones that are not ready. *)
Definition tally_step (scope : Scope) (acc : Z * list (string * Readiness)) (l : ListenerHealthState)
  : Z * list (string * Readiness) :=
  let r := listener_readiness l scope in
  (acc.1 + rd_online r, if negb (ready r) then acc.2 ++ [(default "default" (lh_name l), r)] else acc.2).

Definition tally_listeners (scope : Scope) (listeners : list ListenerHealthState) : Z * list (string * Readiness) :=
  foldl (tally_step scope) (0, []) listeners.

Definition overall_listed (scope : Scope) (listeners : list ListenerHealthState) : Response :=
  let listeners :=
    List.filter (fun l => negb (bool_decide (scope = ScApi)) || is_some (lh_chain_api l)) listeners in
  if bool_decide (scope = ScApi) && is_nil listeners then unavailable ["not ready: "; NO_CHAIN_API]
  else
    let '(total_online, unready) := tally_listeners scope listeners in
    if is_nil unready && negb (is_nil listeners) then
      ok_text ["ready: "; pretty (zlen listeners); " listener(s) ready, "; online_text scope total_online]
    else if forallb (fun e => rd_pool e.2) unready then
      unavailable ["not ready: listener(s) with no online upstreams: "; join ", " (map fst unready)]
    else
      unavailable ["not ready: ";
        join ", " (map (fun e => fmt [e.1; ": "; join "; " (rd_reasons e.2)]) unready)].

Definition evaluate_overall (listeners : list ListenerHealthState) (scope : Scope) : Response :=
  match listeners with
  | [l] =>
      if is_none (lh_name l) then
        let r := listener_readiness l scope in
        if ready r then ok_text ["ready: "; online_text scope (rd_online r)]
        else unavailable ["not ready: "; join "; " (rd_reasons r)]
      else overall_listed scope listeners
  | _ => overall_listed scope listeners
  end.

Definition evaluate_listener (listeners : list ListenerHealthState) (target : string) (scope : Scope) : Response :=
  if bool_decide (target = EmptyString) then not_found
  else
    match List.find (fun l => bool_decide (lh_name l = Some target)) listeners with
    | None => not_found
    | Some l =>
        let r := listener_readiness l scope in
        if ready r then ok_text ["ready ("; target; "): "; online_text scope (rd_online r)]
        else unavailable ["not ready ("; target; "): "; join "; " (rd_reasons r)]
    end.

Definition readiness (listeners : list ListenerHealthState) (target query : option string) : Response :=
  match parse_scope query with
  | Err other =>
      ("400 Bad Request", "text/plain", fmt ["unknown scope '"; other; "'; use tip, history or api"; newline])
  | Ok scope =>
      match target with
      | None => evaluate_overall listeners scope
      | Some target => evaluate_listener listeners target scope
      end
  end.

(** ** Metric labels *)

Definition backslash : Ascii.ascii := Ascii.ascii_of_nat 92.
Definition dquote : Ascii.ascii := Ascii.ascii_of_nat 34.
Definition line_feed : Ascii.ascii := Ascii.ascii_of_nat 10.

(** [str::replace] of a character by a text. *)
Fixpoint replace (from : Ascii.ascii) (to : string) (s : string) : string :=
  match s with
  | EmptyString => EmptyString
  | String.String c s => if Ascii.eqb c from then String.append to (replace from to s) else String.String c (replace from to s)
  end.

Definition escape (s : string) : string :=
  replace line_feed (String.String backslash "n")
    (replace dquote (String.String backslash (String.String dquote EmptyString))
      (replace backslash (String.String backslash (String.String backslash EmptyString)) s)).

Definition label (name value : string) : string :=
  fmt [name; "="; String.String dquote EmptyString; escape value; String.String dquote EmptyString].

Definition format_labels (listener_name : option string) (endpoint server_name : string) : string :=
  match listener_name with
  | Some name => fmt [label "listener" name; ","; label "endpoint" endpoint; ","; label "server" server_name]
  | None => fmt [label "endpoint" endpoint; ","; label "server" server_name]
  end.

(** ** The HTTP endpoint *)

Definition colon : Ascii.ascii := Ascii.ascii_of_nat 58.
Definition open_bracket : string := "[".
Definition close_bracket : Ascii.ascii := Ascii.ascii_of_nat 93.

Section host.
(** [str::parse::<IpAddr>] succeeds. *)
Context (is_ip : string -> bool).

Definition host_name (host : string) : string :=
  match strip_prefix open_bracket host with
  | Some bracketed => default EmptyString (first_get (split_char close_bracket bracketed))
  | None => map_or host fst (rsplit_once colon host)
  end.

Definition host_allowed (host : string) (allowed : list string) : bool :=
  let name := host_name (to_ascii_lowercase (trim host)) in
  bool_decide (name = "localhost") || is_ip name || existsb (fun a => bool_decide (a = name)) allowed.

(** [None]: the request goes on to its handler. *)
Definition check_host (host : option string) (allowed : list string) : option Response :=
  match host with
  | Some host =>
      if negb (host_allowed host allowed)
      then Some ("403 Forbidden", "text/plain", fmt ["host not allowed: add it to dashboard.allowed_hosts"; newline])
      else None
  | None => None
  end.

(** An open stream goes on. *)
Definition stream_allowed (dashboard : bool) (host : option string) (allowed : list string) : bool :=
  dashboard && is_none_or (fun host => host_allowed host allowed) host.
End host.

(** ** The status page *)

Definition html_entity (c : Ascii.ascii) : string :=
  if Ascii.eqb c (Ascii.ascii_of_nat 38) then "&amp;"
  else if Ascii.eqb c (Ascii.ascii_of_nat 60) then "&lt;"
  else if Ascii.eqb c (Ascii.ascii_of_nat 62) then "&gt;"
  else if Ascii.eqb c (Ascii.ascii_of_nat 34) then "&quot;"
  else if Ascii.eqb c (Ascii.ascii_of_nat 39) then "&#39;"
  else String.String c EmptyString.

Fixpoint escape_html (value : string) : string :=
  match value with
  | EmptyString => EmptyString
  | String.String c value => String.append (html_entity c) (escape_html value)
  end.

Definition format_uptime (secs : Z) : string :=
  let days := secs / 86400 in
  let hours := (secs / 3600) mod 24 in
  let minutes := (secs / 60) mod 60 in
  if 0 <? days then fmt [pretty days; "d "; pretty hours; "h "; pretty minutes; "m"]
  else if 0 <? hours then fmt [pretty hours; "h "; pretty minutes; "m"]
  else fmt [pretty minutes; "m "; pretty (secs mod 60); "s"].

Definition format_range (range : option Range) : string :=
  map_or "&ndash;" (fun r => fmt [pretty (rbegin r); "&ndash;"; pretty (sat_sub (rend r) 1)]) range.

(** ** What /ready answers *)

(** The listeners a scope asks about. *)
Definition asked (scope : Scope) (listeners : list ListenerHealthState) : list ListenerHealthState :=
  List.filter (fun l => negb (bool_decide (scope = ScApi)) || is_some (lh_chain_api l)) listeners.

Lemma tally_unready scope listeners acc :
  (foldl (tally_step scope) acc listeners).2 = []
  <-> acc.2 = [] /\ Forall (fun l => ready (listener_readiness l scope) = true) listeners.
Proof.
  revert acc. induction listeners as [|l listeners IH]; intros acc; cbn [foldl].
  - split; [by split|by intros [? _]].
  - rewrite IH. unfold tally_step. cbn [snd]. rewrite Forall_cons. destruct (ready _); cbn [negb]; [naive_solver|].
    split; [intros [Happ _]; by apply app_eq_nil in Happ as [_ ?]|naive_solver].
Qed.

Lemma is_nil_true {A} (l : list A) : is_nil l = true <-> l = [].
Proof. by destruct l. Qed.

Lemma ok_code body : (ok_text body).1.1 = "200 OK".
Proof. done. Qed.
Lemma unavailable_code body : (unavailable body).1.1 <> "200 OK".
Proof. done. Qed.

Lemma overall_listed_exact scope listeners :
  (overall_listed scope listeners).1.1 = "200 OK"
  <-> asked scope listeners <> [] /\ Forall (fun l => ready (listener_readiness l scope) = true) (asked scope listeners).
Proof.
  unfold overall_listed. fold (asked scope listeners). generalize (asked scope listeners) as ls. intros ls.
  destruct (_ && is_nil ls) eqn:Eapi.
  { apply andb_true_iff in Eapi as [_ ->%is_nil_true]. split; [done|by intros [? _]]. }
  destruct (tally_listeners scope ls) as [total unready] eqn:Et.
  pose proof (tally_unready scope ls (0, [])) as Hu. fold (tally_listeners scope ls) in Hu. rewrite Et in Hu. cbn [snd] in Hu.
  destruct unready as [|e unready]; cbn [is_nil andb].
  - destruct ls as [|l ls]; cbn [is_nil negb forallb]; [split; [done|by intros [? _]]|].
    split; [intros _; split; [done|by apply Hu]|done].
  - assert (~ Forall (fun l => ready (listener_readiness l scope) = true) ls) as Hn by naive_solver.
    destruct (forallb _ _); (split; [done|naive_solver]).
Qed.

(** [/ready] answers 200 exactly when there are listeners the scope asks about and
    each of them is ready; anything else is 503. *)
Theorem overall_exact (listeners : list ListenerHealthState) (scope : Scope) :
  let status := (evaluate_overall listeners scope).1.1 in
  (status = "200 OK"
   <-> asked scope listeners <> [] /\ Forall (fun l => ready (listener_readiness l scope) = true) (asked scope listeners))
  /\ (status = "200 OK" \/ status = "503 Service Unavailable").
Proof.
  cbv zeta.
  assert (forall ls, (overall_listed scope ls).1.1 = "200 OK" \/ (overall_listed scope ls).1.1 = "503 Service Unavailable") as Hcode.
  { intros ls. unfold overall_listed. destruct (_ && _); [by right|]. destruct (tally_listeners _ _).
    destruct (_ && _); [by left|]. by destruct (forallb _ _); right. }
  destruct listeners as [|l [|l' ls]]; try (split; [apply overall_listed_exact|apply Hcode]).
  unfold evaluate_overall. destruct (is_none (lh_name l)); [|split; [apply overall_listed_exact|apply Hcode]].
  assert (ready (listener_readiness l scope) = true -> asked scope [l] = [l]) as Ha.
  { intros Hr. unfold asked. cbn. destruct (decide (scope = ScApi)) as [->|Hne]; [|by rewrite bool_decide_false].
    unfold listener_readiness in Hr. rewrite bool_decide_true in Hr by done. unfold api_readiness in Hr.
    by destruct (lh_chain_api l). }
  destruct (ready (listener_readiness l scope)) eqn:Er.
  - split; [|by left]. rewrite (Ha eq_refl). split; [|done]. intros _. split; [done|by repeat constructor].
  - split; [|by right]. split; [done|]. intros [Hne Hf]. unfold asked in *. cbn in *.
    destruct (_ || _); [|done]. apply Forall_cons_1 in Hf as [Hf _]. congruence.
Qed.

(** ** History *)

Lemma note_not_nil problem log found : note problem log found <> [].
Proof. destruct found as [|[p logs] found]; cbn; [done|]. by destruct (bool_decide _). Qed.

Lemma notes_nil (text : Range -> string) log rs found :
  foldl (fun found r => note (text r) log found) found rs = [] <-> found = [] /\ rs = [].
Proof.
  revert found. induction rs as [|r rs IH]; intros found; cbn [foldl]; [naive_solver|].
  rewrite IH. split; [intros [Hn _]; by apply note_not_nil in Hn|by intros [_ ?]].
Qed.

Lemma history_reasons_nil view :
  history_reasons view = [] <->
  v_frozen_unknown view <= 0
  /\ forall log, log = Trace \/ log = ChainState -> gaps (cov view log) = [] /\ offline_only (cov view log) = [].
Proof.
  unfold history_reasons. cbn [foldl].
  assert (note_log view (note_log view [] Trace) ChainState = [] <->
    forall log, log = Trace \/ log = ChainState -> gaps (cov view log) = [] /\ offline_only (cov view log) = []) as Hn.
  { unfold note_log. rewrite !notes_nil. split; [intros [[[[_ H1] H2] H3] H4] log [-> | ->]; done|].
    intros Hl. destruct (Hl Trace), (Hl ChainState); auto. }
  rewrite <- Hn. destruct (Z.ltb_spec 0 (v_frozen_unknown view)) as [Hlt|Hge].
  - split; [intros Happ; by apply app_eq_nil in Happ as [_ ?]|lia].
  - split; [intros Hm; apply map_eq_nil in Hm; split; [lia|done]|intros [_ ->]; done].
Qed.

(** The segments of a log and the online ones among them. *)
Definition seg_of (us : list UpstreamView) (head : option BlockPos) (log : Log) (on : bool) (n : Z) : Prop :=
  exists u seg, u ∈ us /\ (on = true -> u_online u = true /\ u_operator_disabled u = false)
    /\ log_segment u log head = Some seg /\ rbegin seg <= n < rend seg.

Lemma cov_log_holds head u log acc n :
  (holds (acc_segs (cov_log head u acc log)) n
   <-> holds (acc_segs acc) n \/ exists seg, log_segment u log head = Some seg /\ rbegin seg <= n < rend seg)
  /\ (holds (acc_online (cov_log head u acc log)) n
   <-> holds (acc_online acc) n
       \/ (u_online u = true /\ u_operator_disabled u = false)
          /\ exists seg, log_segment u log head = Some seg /\ rbegin seg <= n < rend seg).
Proof.
  unfold cov_log. destruct (log_segment u log head) as [seg|]; cbn [acc_segs acc_online].
  2: split; (split; [by left|]); intros [?|Hx]; [done| |done|]; [by destruct Hx as (s & [=] & _)|by destruct Hx as (_ & s & [=] & _)].
  assert (forall P : Prop, (exists s, Some seg = Some s /\ rbegin s <= n < rend s) <-> rbegin seg <= n < rend seg) as Hx.
  { intros _. split; [by intros (s & [= <-] & ?)|eauto]. }
  rewrite !(Hx True). pose proof (holds_nil n). split.
  - rewrite holds_app, holds_cons. naive_solver.
  - destruct (u_online u), (u_operator_disabled u); cbn [andb negb]; rewrite ?holds_app, ?holds_cons; naive_solver.
Qed.

Lemma cov_fold_holds head log us acc n :
  let acc' := foldl (fun acc u => foldl (cov_log head u) acc [log]) acc us in
  (holds (acc_segs acc') n <-> holds (acc_segs acc) n \/ seg_of us head log false n)
  /\ (holds (acc_online acc') n <-> holds (acc_online acc) n \/ seg_of us head log true n).
Proof.
  cbv zeta. unfold seg_of. revert acc. induction us as [|u us IH]; intros acc; cbn [foldl].
  - split; (split; [by left|]); intros [?|(u & seg & []%elem_of_nil & _)]; done.
  - destruct (IH (cov_log head u acc log)) as [I1 I2]. cbn [foldl] in I1, I2. rewrite I1, I2. clear I1 I2 IH.
    destruct (cov_log_holds head u log acc n) as [-> ->]. setoid_rewrite elem_of_cons.
    split; naive_solver.
Qed.

Lemma nonempty_nil l : Forall (fun r => rbegin r < rend r) l -> (l = [] <-> forall n, ~ holds l n).
Proof.
  intros Hf. split; [intros -> n; apply holds_nil|]. intros Hn. destruct l as [|r l]; [done|].
  apply Forall_cons_1 in Hf as [Hr _]. destruct (Hn (rbegin r)). apply holds_cons. left. lia.
Qed.

(** No gap and no offline part: between two held blocks every block is held
    online. *)
Lemma coverage_complete segs online tail :
  let c := coverage segs online tail in
  (forall n, holds online n -> holds segs n) ->
  (gaps c = [] /\ offline_only c = []
   <-> forall a n b, a <= n <= b -> holds segs a -> holds segs b -> holds online n).
Proof.
  cbv zeta. intros Hsub. destruct (merge_spec segs) as [Hn Hh]. destruct (merge_spec online) as [Hno Hho].
  cbn -[merge subtract]. setoid_rewrite <- Hh. destruct (merge segs) as [|r [|r' l]] eqn:Em.
  - split; [intros _ a n b _ Ha; by apply holds_nil in Ha|by intros _].
  - destruct (subtract_spec r (merge online) Hno) as ([_ Hne] & _ & Hs). cbn -[merge subtract].
    rewrite (nonempty_nil _ Hne). setoid_rewrite Hs. setoid_rewrite Hho. setoid_rewrite holds_cons.
    pose proof holds_nil as Hnil. split.
    + intros [_ Ho] a n b Hab [Ha|Ha]; [|by apply Hnil in Ha]. intros [Hb|Hb]; [|by apply Hnil in Hb].
      assert (holds online n \/ ~ holds online n) as [Hon|Hon]; [|done|by destruct (Ho n); split; [lia|]].
      destruct (existsb (fun r => range_contains r n) online) eqn:E; [left|right].
      * apply existsb_exists in E as (x & Hx & Hc). exists x. rewrite <- range_contains_spec. split; [by apply list_elem_of_In|done].
      * intros (x & Hx & Hc). rewrite <- range_contains_spec in Hc.
        assert (existsb (fun r => range_contains r n) online = true); [|congruence].
        apply existsb_exists. exists x. split; [by apply list_elem_of_In|done].
    + intros Hr. split; [done|]. intros n [Hin Hoff]. apply Hoff. apply (Hr n n n); [lia|by left|by left].
  - split; [by intros [? _]|]. intros Hr. exfalso.
    pose proof Hn as Hn0. apply normal_cons_inv in Hn as (Ha & Hn & Hgt).
    apply normal_cons_inv in Hn as (Hb & _ & _).
    assert (holds (r' :: l) (rbegin r')) as Hb' by (apply holds_cons; left; lia).
    pose proof (Hgt _ Hb') as Hlt.
    assert (holds online (rend r)) as Hon.
    { apply (Hr (rbegin r) (rend r) (rbegin r')); [lia|apply holds_cons; left; lia|apply holds_cons; by right]. }
    apply Hsub, Hh in Hon. apply holds_cons in Hon as [?|Hon]; [lia|]. apply Hgt in Hon. lia.
Qed.

Lemma cov_of_complete us head log :
  gaps (cov_of us head [log]) = [] /\ offline_only (cov_of us head [log]) = []
  <-> forall a n b, a <= n <= b ->
      let known := List.filter (fun u => u_enabled u && u_known u) us in
      seg_of known head log false a -> seg_of known head log false b -> seg_of known head log true n.
Proof.
  unfold cov_of. set (known := List.filter _ us). set (acc := foldl _ _ known).
  assert (forall n, (holds (acc_segs acc) n <-> seg_of known head log false n)
                 /\ (holds (acc_online acc) n <-> seg_of known head log true n)) as Hh.
  { intros n. destruct (cov_fold_holds head log known (mkAcc [] [] None) n) as [H1 H2]. fold acc in H1, H2.
    rewrite H1, H2. pose proof (holds_nil n). cbn [acc_segs acc_online]. naive_solver. }
  rewrite coverage_complete.
  - split; intros Hx a n b Hab Ha Hb; apply Hh; (apply (Hx a n b); [done|by apply Hh|by apply Hh]).
  - intros n Hn. apply Hh in Hn. apply Hh. destruct Hn as (u & seg & ? & ? & ? & ?). exists u, seg. naive_solver.
Qed.

(** *** On the states *)

Lemma count_if_zero {A} (f : A -> bool) l : count_if f l = 0 <-> forall x, x ∈ l -> f x = false.
Proof.
  unfold count_if. split.
  - intros Hz x Hx. destruct (f x) eqn:E; [|done]. assert (x ∈ List.filter f l) as Hin by by apply elem_of_List_filter.
    destruct (List.filter f l); [by apply elem_of_nil in Hin|done].
  - intros Hf. assert (List.filter f l = []) as ->; [|done].
    destruct (List.filter f l) as [|x l'] eqn:E; [done|]. assert (x ∈ List.filter f l) as Hx by (rewrite E; constructor).
    apply elem_of_List_filter in Hx as [Hx Hfx]. by rewrite Hf in Hfx.
Qed.

(** The counts of a view against the states it was built from. *)
Lemma build_view_counts ctx states tips now m :
  let v := (build_view ctx states tips now m).1 in
  let us := map (fun e => upstream_view ctx e.1 e.2) (sort_by state_cmp (map_to_list states)) in
  v_frozen_unknown v = count_if (fun u => u_enabled u && bool_decide (u_role u = Frozen) && negb (u_known u)) us
  /\ v_live_configured v = existsb (fun u => u_enabled u && bool_decide (u_role u = Live)) us
  /\ v_online v = count_if (fun u => u_routable u && u_online u) us
  /\ v_live_online v = count_if (fun u => u_routable u && u_online u && bool_decide (u_role u = Live)) us
  /\ v_trace v = cov_of us (v_head v) [Trace] /\ v_chain_state v = cov_of us (v_head v) [ChainState].
Proof.
  cbv zeta. unfold build_view. set (us := map _ _).
  destruct (fleet_tip us tips _ m) as [[[head lib] anchors] m1]. destruct (bc_topology ctx); [by split_and!|].
  destruct (canonical_abi _ _ _ _) as [can m2]. by split_and!.
Qed.

Definition held (ctx : BuildCtx) (states : gmap string ServerState) (head : option BlockPos) (log : Log)
    (on : bool) (n : Z) : Prop :=
  exists e s seg, states !! e = Some s /\ enabled s = true /\ ranges_usable s = true
    /\ (on = true -> online s = true /\ operator_disabled s = false)
    /\ log_segment (upstream_view ctx e s) log head = Some seg /\ rbegin seg <= n < rend seg.

Definition serves_tip (states : gmap string ServerState) : Prop :=
  ((exists e s, states !! e = Some s /\ enabled s = true /\ role s = Live) ->
   exists e s, states !! e = Some s /\ routable s = true /\ online s = true /\ role s = Live)
  /\ ((forall e s, states !! e = Some s -> enabled s = true -> role s <> Live) ->
      exists e s, states !! e = Some s /\ routable s = true /\ online s = true).

Section states.
Context (ctx : BuildCtx) (states : gmap string ServerState).

Definition shown_ups : list UpstreamView :=
  map (fun e => upstream_view ctx e.1 e.2) (sort_by state_cmp (map_to_list states)).

Lemma elem_shown u : u ∈ shown_ups <-> exists e s, states !! e = Some s /\ u = upstream_view ctx e s.
Proof.
  unfold shown_ups. rewrite list_elem_of_fmap. split.
  - intros ([e s] & -> & Hs%elem_of_sorted_states). eauto.
  - intros (e & s & Hs & ->). exists (e, s). by rewrite elem_of_sorted_states.
Qed.

Lemma shown_fields e s :
  u_enabled (upstream_view ctx e s) = enabled s /\ u_known (upstream_view ctx e s) = ranges_usable s
  /\ u_online (upstream_view ctx e s) = online s /\ u_role (upstream_view ctx e s) = role s
  /\ u_operator_disabled (upstream_view ctx e s) = operator_disabled s
  /\ u_routable (upstream_view ctx e s) = routable s.
Proof. unfold upstream_view. by repeat case_match. Qed.

Lemma seg_of_states head log on n :
  seg_of (List.filter (fun u => u_enabled u && u_known u) shown_ups) head log on n
  <-> held ctx states head log on n.
Proof.
  unfold seg_of, held. split.
  - intros (u & seg & Hu & Hon & Hseg & Hn). apply elem_of_List_filter in Hu as [Hu Hf].
    apply elem_shown in Hu as (e & s & Hs & ->). destruct (shown_fields e s) as (E1 & E2 & E3 & _ & E5 & _).
    rewrite E1, E2 in Hf. rewrite E3, E5 in Hon. bools. eauto 10.
  - intros (e & s & seg & Hs & He & Hk & Hon & Hseg & Hn). destruct (shown_fields e s) as (E1 & E2 & E3 & _ & E5 & _).
    exists (upstream_view ctx e s), seg. rewrite E3, E5.
    split; [|exact (conj Hon (conj Hseg Hn))].
    apply elem_of_List_filter. split; [apply elem_shown; eauto|]. by rewrite E1, E2, He, Hk.
Qed.

Lemma count_shown_zero (f : UpstreamView -> bool) :
  count_if f shown_ups = 0 <-> forall e s, states !! e = Some s -> f (upstream_view ctx e s) = false.
Proof.
  rewrite count_if_zero. split.
  - intros Hf e s Hs. apply Hf, elem_shown. eauto.
  - intros Hf u Hu. apply elem_shown in Hu as (e & s & Hs & ->). by apply Hf.
Qed.
End states.

Definition archives_known (states : gmap string ServerState) : Prop :=
  forall e s, states !! e = Some s -> enabled s = true -> role s = Frozen -> ranges_usable s = true.

Lemma tip_reason_exact ctx states tips now m :
  let v := (build_view ctx states tips now m).1 in
  (if v_live_configured v && (v_live_online v =? 0) then false
   else negb (negb (v_live_configured v) && (v_online v =? 0))) = true <-> serves_tip states.
Proof.
  cbv zeta. destruct (build_view_counts ctx states tips now m) as (_ & Hlc & Hon & Hlive & _).
  fold (shown_ups ctx states) in Hlc, Hon, Hlive. rewrite Hlc, Hon, Hlive. clear Hlc Hon Hlive.
  assert (existsb (fun u => u_enabled u && bool_decide (u_role u = Live)) (shown_ups ctx states) = true
    <-> exists e s, states !! e = Some s /\ enabled s = true /\ role s = Live) as Hex.
  { rewrite existsb_exists. setoid_rewrite <- list_elem_of_In. split.
    - intros (u & Hu & Hf). apply elem_shown in Hu as (e & s & Hs & ->). destruct (shown_fields ctx e s) as (E1 & _ & _ & E4 & _).
      rewrite E1, E4 in Hf. bools. eauto.
    - intros (e & s & Hs & He & Hr). exists (upstream_view ctx e s). destruct (shown_fields ctx e s) as (E1 & _ & _ & E4 & _).
      split; [apply elem_shown; eauto|]. by rewrite E1, E4, He, bool_decide_true. }
  assert (forall f g, (forall e s, f (upstream_view ctx e s) = g s) ->
    (count_if f (shown_ups ctx states) =? 0) = false <-> exists e s, states !! e = Some s /\ g s = true) as Hcount.
  { intros f g Hfg. rewrite Z.eqb_neq, count_shown_zero. setoid_rewrite Hfg. split.
    - intros Hn. destruct (decide (map_Exists (fun _ s => g s = true) states)) as [(e & s & Hs & Hg)|Hno]; [eauto|].
      destruct Hn. intros e s Hs. destruct (g s) eqn:Eg; [|done]. destruct Hno. by exists e, s.
    - intros (e & s & Hs & Hg) Hn. rewrite (Hn e s Hs) in Hg. done. }
  pose proof (Hcount (fun u => u_routable u && u_online u && bool_decide (u_role u = Live))
    (fun s => routable s && online s && bool_decide (role s = Live))) as Hlive.
  pose proof (Hcount (fun u => u_routable u && u_online u) (fun s => routable s && online s)) as Hany.
  assert (forall e s, u_routable (upstream_view ctx e s) && u_online (upstream_view ctx e s) = routable s && online s) as Hf1.
  { intros e s. by destruct (shown_fields ctx e s) as (_ & _ & -> & _ & _ & ->). }
  specialize (Hany Hf1).
  specialize (Hlive ltac:(intros e s; cbv beta; rewrite Hf1; by destruct (shown_fields ctx e s) as (_ & _ & _ & -> & _))).
  unfold serves_tip. destruct (existsb _ _).
  - destruct Hex as [Hex _]. specialize (Hex eq_refl). cbn [negb andb]. split.
    + intros Hl. destruct (count_if _ _ =? 0); [done|]. destruct Hlive as [Hlive _].
      destruct (Hlive eq_refl) as (e & s & Hs & Hg). bools. split; [eauto 10|]. eauto 10.
    + intros [Hl _]. destruct (Hl Hex) as (e & s & Hs & Hr & Ho & Hrole).
      destruct (count_if _ _ =? 0); [|done]. destruct Hlive as [_ Hlive].
      discriminate Hlive. exists e, s. by rewrite Hr, Ho, bool_decide_true.
  - assert (forall e s, states !! e = Some s -> enabled s = true -> role s <> Live) as Hno.
    { intros e s Hs He Hr. destruct Hex as [_ Hex]. discriminate Hex. eauto. }
    cbn [negb andb]. split.
    + intros Hl. destruct (count_if (fun u => u_routable u && u_online u) _ =? 0); [done|]. destruct Hany as [Hany _].
      destruct (Hany eq_refl) as (e & s & Hs & Hg). bools. split; [|eauto 10].
      intros (e' & s' & Hs' & He' & Hr'). by destruct (Hno e' s' Hs' He').
    + intros [_ Hl]. destruct (Hl Hno) as (e & s & Hs & Hr & Ho).
      destruct (count_if (fun u => u_routable u && u_online u) _ =? 0); [|done]. destruct Hany as [_ Hany].
      discriminate Hany. exists e, s. by rewrite Hr, Ho.
Qed.

(** C35: A stitched listener whose hub shows the view of its states is ready for history
    exactly when an upstream serves its tip, the range of every enabled archive is
    known, and every block between two that some enabled upstream holds in the trace
    or the chain-state log is held there by one that is online and not taken out of
    service; and it is ready for the tip exactly when the first of these holds. *)
Theorem history_ready_exact (ctx : BuildCtx) (states : gmap string ServerState) (tips : Tips) (now : Z)
    (m : HubMemory) (l : ListenerHealthState) :
  let v := (build_view ctx states tips now m).1 in
  lh_hub l = Some (mkHubHealth RStitched v) ->
  (tip_ready l = true <-> serves_tip states)
  /\ (ready (listener_readiness l ScHistory) = true <->
      serves_tip states /\ archives_known states
      /\ forall log, log = Trace \/ log = ChainState -> forall a n b, a <= n <= b ->
           held ctx states (v_head v) log false a -> held ctx states (v_head v) log false b ->
           held ctx states (v_head v) log true n).
Proof.
  cbv zeta. intros Hhub. rewrite <- (tip_reason_exact ctx states tips now m).
  unfold tip_ready, listener_readiness. rewrite Hhub. cbn [hh_topology hh_view].
  set (v := (build_view ctx states tips now m).1).
  assert (forall (b c : bool) (x y : string), is_nil (if b then [x] else if c then [y] else []) = (if b then false else negb c)) as Hnil.
  { by intros [] [] ? ?. }
  rewrite (bool_decide_false (ScTip = ScApi)), (bool_decide_false (ScTip = ScHistory)) by done.
  rewrite (bool_decide_false (ScHistory = ScApi)), (bool_decide_true (ScHistory = ScHistory)) by done.
  unfold ready. cbn [rd_reasons]. split; [by rewrite Hnil|].
  assert (forall l' : list string, is_nil (l' ++ history_reasons v) = true <-> is_nil l' = true /\ history_reasons v = []) as ->.
  { intros l'. rewrite !is_nil_true. split; [intros Happ; by apply app_eq_nil in Happ|by intros [-> ->]]. }
  rewrite history_reasons_nil, Hnil. f_equiv.
  destruct (build_view_counts ctx states tips now m) as (Hfu & _ & _ & _ & Ht & Hc). fold v (shown_ups ctx states) in Hfu, Ht, Hc.
  f_equiv.
  - assert (v_frozen_unknown v <= 0 <-> v_frozen_unknown v = 0) as -> by (rewrite Hfu; unfold count_if; lia).
    rewrite Hfu, count_shown_zero. unfold archives_known. split.
    + intros Hf e s Hs He Hr. specialize (Hf e s Hs). destruct (shown_fields ctx e s) as (E1 & E2 & _ & E4 & _).
      rewrite E1, E2, E4, He, bool_decide_true in Hf by done. by destruct (ranges_usable s).
    + intros Hf e s Hs. destruct (shown_fields ctx e s) as (E1 & E2 & _ & E4 & _). rewrite E1, E2, E4.
      destruct (enabled s) eqn:He; [|done]. case_bool_decide as Hr; [|done]. cbn. by rewrite (Hf e s Hs He Hr).
  - assert (forall log, (log = Trace \/ log = ChainState) ->
      (gaps (cov v log) = [] /\ offline_only (cov v log) = [] <-> forall a n b, a <= n <= b ->
        held ctx states (v_head v) log false a -> held ctx states (v_head v) log false b ->
        held ctx states (v_head v) log true n)) as Hlog.
    { intros log Hl. assert (cov v log = cov_of (shown_ups ctx states) (v_head v) [log]) as -> by (by destruct Hl as [-> | ->]).
      rewrite cov_of_complete. cbv zeta. setoid_rewrite (seg_of_states ctx states (v_head v) log). done. }
    split; intros Hx log Hl; apply Hlog, Hx; done.
Qed.

(** ** Label values *)

(** A label value as the text format defines it: up to the closing quote, with
    backslash, quote and line feed escaped by a backslash. *)
Fixpoint read_value (s : string) : option (string * string) :=
  match s with
  | EmptyString => None
  | String.String c s =>
      if Ascii.eqb c dquote then Some (EmptyString, s)
      else if Ascii.eqb c line_feed then None
      else if Ascii.eqb c backslash then
        match s with
        | EmptyString => None
        | String.String x s =>
            let decoded :=
              if Ascii.eqb x backslash then Some backslash
              else if Ascii.eqb x dquote then Some dquote
              else if Ascii.eqb x (Ascii.ascii_of_nat 110) then Some line_feed
              else None in
            match decoded, read_value s with
            | Some d, Some (value, rest) => Some (String.String d value, rest)
            | _, _ => None
            end
        end
      else match read_value s with
           | Some (value, rest) => Some (String.String c value, rest)
           | None => None
           end
  end.

Lemma escape_cons c s :
  escape (String.String c s) =
  if Ascii.eqb c backslash then String.String backslash (String.String backslash (escape s))
  else if Ascii.eqb c dquote then String.String backslash (String.String dquote (escape s))
  else if Ascii.eqb c line_feed then String.String backslash (String.String (Ascii.ascii_of_nat 110) (escape s))
  else String.String c (escape s).
Proof.
  unfold escape. cbn [replace].
  destruct (Ascii.eqb_spec c backslash) as [->|]; [done|]. cbn [replace].
  destruct (Ascii.eqb_spec c dquote) as [->|]; [done|]. cbn [replace].
  by destruct (Ascii.eqb_spec c line_feed) as [->|].
Qed.

Lemma read_escaped x d s value rest :
  (if Ascii.eqb x backslash then Some backslash
   else if Ascii.eqb x dquote then Some dquote
   else if Ascii.eqb x (Ascii.ascii_of_nat 110) then Some line_feed else None) = Some d ->
  read_value s = Some (value, rest) ->
  read_value (String.String backslash (String.String x s)) = Some (String.String d value, rest).
Proof.
  intros Hd Hs. cbn [read_value]. change (Ascii.eqb backslash dquote) with false.
  change (Ascii.eqb backslash line_feed) with false. change (Ascii.eqb backslash backslash) with true.
  cbn iota. by rewrite Hd, Hs.
Qed.

(** A label value in the metrics is read back as the text it was made from, whatever
    characters it has, and the reader stops at its closing quote. *)
Theorem label_roundtrip (value rest : string) :
  read_value (String.append (escape value) (String.String dquote rest)) = Some (value, rest).
Proof.
  induction value as [|c value IH]; [done|]. rewrite escape_cons.
  destruct (Ascii.eqb_spec c backslash) as [->|H1]; [by apply read_escaped|].
  destruct (Ascii.eqb_spec c dquote) as [->|H2]; [by apply read_escaped|].
  destruct (Ascii.eqb_spec c line_feed) as [->|H3]; [by apply read_escaped|].
  change (String.append (String.String c (escape value)) (String.String dquote rest))
    with (String.String c (String.append (escape value) (String.String dquote rest))).
  cbn [read_value]. rewrite (proj2 (Ascii.eqb_neq c dquote) H2), (proj2 (Ascii.eqb_neq c line_feed) H3),
    (proj2 (Ascii.eqb_neq c backslash) H1). by rewrite IH.
Qed.

(** Nothing in an escaped text opens a tag, ends an attribute or starts an entity
    but the entities that stand for one character. *)
Definition markup (c : Ascii.ascii) : bool :=
  (code c =? 60) || (code c =? 62) || (code c =? 34) || (code c =? 39).

Lemma html_inert value : all_chars (fun c => negb (markup c)) (escape_html value) = true.
Proof.
  induction value as [|c value IH]; [done|]. cbn [escape_html]. rewrite all_chars_append, IH, andb_true_r.
  destruct c as [[] [] [] [] [] [] [] []]; vm_compute; reflexivity.
Qed.

(** ** Hosts *)

Definition plain_char (c : Ascii.ascii) : bool :=
  ((97 <=? code c) && (code c <=? 122)) || ((48 <=? code c) && (code c <=? 57)) || (code c =? 45) || (code c =? 46).

Lemma plain_char_facts c : plain_char c = true ->
  is_space c = false /\ lower c = c /\ Ascii.eqb c colon = false /\ Ascii.eqb c (Ascii.ascii_of_nat 91) = false.
Proof. destruct c as [[] [] [] [] [] [] [] []]; vm_compute; try discriminate; done. Qed.

Lemma trim_start_plain s : all_chars (fun c => negb (is_space c)) s = true -> trim_start s = s.
Proof. destruct s as [|c s]; cbn; [done|]. intros Ha. bools. by destruct (is_space c). Qed.
Lemma trim_end_plain s : all_chars (fun c => negb (is_space c)) s = true -> trim_end s = s.
Proof.
  induction s as [|c s IH]; cbn; [done|]. intros Ha. bools. rewrite IH by done. destruct s; [|done]. by destruct (is_space c).
Qed.

Lemma rsplit_plain port : all_chars plain_char port = true -> rsplit_once colon port = None.
Proof.
  induction port as [|c port IH]; [done|]. cbn [all_chars rsplit_once]. intros Ha. bools.
  rewrite IH by done. by destruct (plain_char_facts c) as (_ & _ & -> & _).
Qed.

Lemma rsplit_host name port : all_chars plain_char port = true ->
  rsplit_once colon (String.append name (String.String colon port)) = Some (name, port).
Proof.
  intros Hp. induction name as [|c name IH].
  - change (String.append EmptyString (String.String colon port)) with (String.String colon port). cbn [rsplit_once]. by rewrite rsplit_plain.
  - rewrite append_cons. cbn [rsplit_once]. by rewrite IH.
Qed.

(** The dashboard answers to a host name, with or without a port, exactly when it is
    [localhost], an address, or listed: a page on a name of somebody else that
    resolves here is refused. *)
Theorem foreign_host_refused (is_ip : string -> bool) (name port : string) (allowed : list string) :
  all_chars plain_char name = true -> all_chars plain_char port = true ->
  let known := bool_decide (name = "localhost") || is_ip name || bool_decide (name ∈ allowed) in
  host_allowed is_ip name allowed = known
  /\ host_allowed is_ip (String.append name (String.String colon port)) allowed = known
  /\ (known = false ->
      (exists r, check_host is_ip (Some (String.append name (String.String colon port))) allowed = Some r /\ r.1.1 = "403 Forbidden")
      /\ stream_allowed is_ip true (Some name) allowed = false).
Proof.
  intros Hn Hp. cbv zeta.
  assert (forall s, all_chars (fun c => plain_char c || Ascii.eqb c colon) s = true -> to_ascii_lowercase (trim s) = s) as Hid.
  { intros s Hs. assert (all_chars (fun c => negb (is_space c)) s = true) as Hsp.
    { induction s as [|c s IH]; [done|]. cbn [all_chars] in *. bools. rewrite IH, andb_true_r by done.
      apply orb_true_iff in H as [Hc|Hc]; [by destruct (plain_char_facts c Hc) as (-> & _)|].
      apply Ascii.eqb_eq in Hc as ->. done. }
    unfold trim. rewrite trim_start_plain, trim_end_plain by done. clear Hsp.
    induction s as [|c s IH]; [done|]. cbn [all_chars to_ascii_lowercase] in *. bools. rewrite IH by done. f_equal.
    apply orb_true_iff in H as [Hc|Hc]; [by destruct (plain_char_facts c Hc) as (_ & -> & _)|].
    apply Ascii.eqb_eq in Hc as ->. done. }
  assert (forall s, all_chars plain_char s = true -> all_chars (fun c => plain_char c || Ascii.eqb c colon) s = true) as Hw.
  { induction s as [|c s IH]; [done|]. cbn [all_chars]. intros Hs. bools. by rewrite IH, H. }
  assert (forall s, strip_prefix open_bracket (String.append name s) = None \/ name = EmptyString) as Hb.
  { intros s. destruct name as [|c name']; [by right|left]. cbn [all_chars] in Hn. bools.
    destruct (plain_char_facts c) as (_ & _ & _ & Hc); [done|].
    rewrite append_cons. unfold open_bracket. cbn [strip_prefix]. rewrite Ascii.eqb_sym.
    match goal with |- context [Ascii.eqb c ?b] => change b with (Ascii.ascii_of_nat 91) end. by rewrite Hc. }
  assert (host_name name = name /\ host_name (String.append name (String.String colon port)) = name) as [H1 H2].
  { unfold host_name. split.
    - destruct (Hb EmptyString) as [Hx| ->]; [|done].
      assert (String.append name EmptyString = name) as Hnil by (clear; induction name as [|c name IH]; [done|rewrite append_cons; congruence]).
      rewrite Hnil in Hx. by rewrite Hx, rsplit_plain.
    - destruct (Hb (String.String colon port)) as [Hx| ->]; [by rewrite Hx, rsplit_host|].
      pose proof (rsplit_host EmptyString port Hp) as Hr. change (String.append EmptyString (String.String colon port)) with (String.String colon port) in *.
      change (strip_prefix open_bracket (String.String colon port)) with (@None string). by rewrite Hr. }
  assert (existsb (fun a => bool_decide (a = name)) allowed = bool_decide (name ∈ allowed)) as He.
  { apply eq_true_iff_eq. rewrite existsb_elem, bool_decide_eq_true. split.
    - intros (x & Hx & Hd). bools. by subst.
    - intros Hin. exists name. by rewrite bool_decide_true. }
  unfold host_allowed. rewrite !Hid by (rewrite ?all_chars_append; cbn [all_chars]; rewrite ?Hw by done; done).
  rewrite H1, H2, He. split; [done|]. split; [done|]. intros Hk. split.
  - unfold check_host, host_allowed. rewrite Hid by (rewrite ?all_chars_append; cbn [all_chars]; rewrite ?Hw by done; done).
    rewrite H2, He, Hk. cbn [negb]. eexists. split; [done|done].
  - unfold stream_allowed, is_none_or, host_allowed. rewrite Hid by (by apply Hw). by rewrite H1, He, Hk.
Qed.

(** ** Witnesses *)

Definition health_ctx : BuildCtx := mkCtx RStitched None None AbiWarn [].
Definition health_db : gmap string ServerState :=
  {[ "10.0.0.1:8080" := set_online true (state_of_server None false 0
       (mkServer "archive-1" "10.0.0.1:8080" true Frozen (Some (mkRange 1 1000)) None 0 1 None)) ]}.
Definition health_listener : ListenerHealthState :=
  mkHealth None health_db (Some (mkHubHealth RStitched (build_view health_ctx health_db [] 0 (new_memory 0)).1)) None.

Lemma history_ready_exact_witness :
  serves_tip health_db /\ archives_known health_db
  /\ (evaluate_overall [health_listener] ScHistory).1.1 = "200 OK".
Proof.
  destruct (history_ready_exact health_ctx health_db [] 0 (new_memory 0) health_listener eq_refl) as [_ [Hh _]].
  destruct Hh as (Hs & Ha & _); [vm_compute; reflexivity|].
  split; [exact Hs|]. split; [exact Ha|]. vm_compute. reflexivity.
Defined.

Lemma foreign_host_refused_witness :
  host_allowed (fun _ => false) "evil.example:80" ["router.example"] = false
  /\ host_allowed (fun _ => false) "router.example:80" ["router.example"] = true.
Proof.
  destruct (foreign_host_refused (fun _ => false) "evil.example" "80" ["router.example"] eq_refl eq_refl) as (_ & H1 & _).
  destruct (foreign_host_refused (fun _ => false) "router.example" "80" ["router.example"] eq_refl eq_refl) as (_ & H2 & _).
  split; [exact H1|exact H2].
Defined.
