(* ===== verification/Operator.v ===== *)
(** * The operator API

    Models [src/src/api.rs]: the status views, the bearer token, the actions on an
    upstream and on a session, and the events of a status change.

    A listener is given by its state map, its hub, its configured servers and its
    counters; the registry of sessions and the event log are those of [Telemetry].
    Each handler runs as one step: the locks it takes in turn are taken together.

    The theorems: a control request without the token changes nothing; an action
    changes one upstream of one listener, which the next view shows, and neither
    planner picks an upstream a view shows as disabled; a drain asks
    exactly the sessions to move that another upstream can take over; a session is
    asked to move only if one can; the sessions in a status are those of the registry. *)

From stdpp Require Import pretty.
From S2P Require Import Prelude Wire Models Coverage View Planner ApiRoute ApiPick ApiDirectory ApiBody Config Abi Health Telemetry.

#[local] Open Scope string_scope.
#[local] Open Scope list_scope.
#[local] Open Scope Z_scope.

(** [UpstreamCounters], of which the views show these. *)
Record Counters := mkCounters {
  k_sessions_total : Z;
  k_failovers_total : Z;
  k_blocks_total : Z;
  k_bytes_total : Z;
}.

Record HubState := mkHubState { hs_ctx : BuildCtx; hs_tips : Tips; hs_hub : FleetHub }.

Record ListenerContext := mkListenerContext {
  oc_config_generation : Z;
  oc_name : option string;
  oc_state_db : gmap string ServerState;
  oc_hub : option HubState;
  oc_chain_api : option ApiHealth;
  oc_chain_api_connections : Z;
  oc_config_db : gmap string Server;
  oc_order : list string;
  oc_port : Z;
  oc_chain_id : option (list Z);
  oc_max_connections : Z;
  oc_accepted_total : Z;
  oc_rejected_total : Z;
  oc_counters : gmap string Counters;
}.

Definition oc_health (c : ListenerContext) : ListenerHealthState :=
  mkHealth (oc_name c) (oc_state_db c)
    ((fun h => mkHubHealth (bc_topology (hs_ctx h)) (hub_view (hs_hub h))) <$> oc_hub c) (oc_chain_api c).

Definition context_name (c : ListenerContext) : string := default "default" (oc_name c).

Definition has_alternative_for (c : ListenerContext) (endpoint : string) (next_block : option Z) (now : Z) : bool :=
  is_some_and (fun h =>
    existsb (fun u => negb (bool_decide (u_endpoint u = endpoint)) && can_take_over u next_block now)
      (v_upstreams (hub_view (hs_hub h)))) (oc_hub c).

Definition set_context (db : gmap string ServerState) (hub : option HubState) (c : ListenerContext) : ListenerContext :=
  mkListenerContext (oc_config_generation c) (oc_name c) db hub (oc_chain_api c) (oc_chain_api_connections c) (oc_config_db c) (oc_order c)
    (oc_port c) (oc_chain_id c) (oc_max_connections c) (oc_accepted_total c) (oc_rejected_total c) (oc_counters c).

(** [publish]: the hub rebuilds its view from the map. *)
Definition publish (now : Z) (db : gmap string ServerState) (c : ListenerContext) : ListenerContext :=
  set_context db ((fun h => mkHubState (hs_ctx h) (hs_tips h) (rebuild (hs_ctx h) db (hs_tips h) now (hs_hub h))) <$> oc_hub c) c.

Record App := mkOperatorApp {
  op_listeners : list ListenerContext;
  op_draining : list ListenerContext;
  op_config_revision : Z;
  op_control_token : option string;
}.

(** ** Views *)

Definition view_range (begin_ end_ : Z) : option Range := if 0 <? end_ then Some (mkRange begin_ end_) else None.

Record QuarantineView := mkQuarantineView { qv_block : Z; qv_range : Z; qv_expires_in_secs : Z }.

Record UpstreamRow := mkRow {
  ur_listener : string;
  ur_endpoint : string;
  ur_name : string;
  ur_tls : bool;
  ur_status : string;
  ur_online : bool;
  ur_stale : bool;
  ur_operator_disabled : bool;
  ur_priority : Z;
  ur_weight : Z;
  ur_config : Z * Z;
  ur_chain_id : option string;
  ur_trace : option Range;
  ur_chain_state : option Range;
  ur_finality : option Range;
  ur_head_block : option Z;
  ur_chain_head_block : option Z;
  ur_head_sample_age_ms : option Z;
  ur_head_lag_blocks : option Z;
  ur_sessions : Z;
  ur_counters : Counters;
  ur_block_failures_total : Z;
  ur_quarantines : list QuarantineView;
}.

(** The word and the state, whose expired quarantines the last test prunes. *)
Definition upstream_status (now : Z) (s : ServerState) : string * ServerState :=
  if operator_disabled s then ("disabled", s)
  else if negb (online s) then ("down", s)
  else if stale s then ("stale", s)
  else
    let '(any, s) := any_quarantine_active now s in
    (if any then "quarantined" else "up", s).

Definition head_block (s : ServerState) : option Z :=
  checked_sub (Z.max (trace_end_block (reported s)) (chain_state_end_block (reported s))) 1.

Definition upstream_row (listener endpoint : string) (config : option Server) (counters : Counters) (now : Z)
    (s : ServerState) : UpstreamRow * ServerState :=
  let '(status, s) := upstream_status now s in
  let r := reported s in
  (mkRow listener endpoint (s_name (cfg s))
     (is_some (strip_prefix "wss://" (to_ascii_lowercase (trim endpoint)))) status
     (online s) (stale s) (operator_disabled s) (s_priority (cfg s)) (s_weight (cfg s))
     (map_or (s_priority (cfg s)) sv_priority config, map_or (s_weight (cfg s)) sv_weight config)
     (hex <$> chain_id s)
     (view_range (trace_begin_block r) (trace_end_block r))
     (view_range (chain_state_begin_block r) (chain_state_end_block r))
     (view_range (finality_data_begin_block r) (finality_data_end_block r))
     (head_block s) (num <$> st_head s)
     ((fun at_ => sat_sub now at_ / 1000000) <$> status_at s)
     (if online s then head_lag_blocks s else None)
     (connections s) counters (block_failures s)
     (map (fun q => mkQuarantineView (bq_block q) (bq_range q) (sat_sub (bq_until q) now / 1000000000)) (quarantines s)),
   s).

Record ListenerRow := mkListenerRow {
  lr_name : string;
  lr_port : Z;
  lr_chain_id : option string;
  lr_ready : bool;
  lr_max_connections : Z;
  lr_sessions : Z;
  lr_accepted_total : Z;
  lr_rejected_total : Z;
  lr_upstreams : list UpstreamRow;
}.

Definition counters_of (c : ListenerContext) (endpoint : string) : Counters :=
  default (mkCounters 0 0 0 0) (oc_counters c !! endpoint).

(** The rows in config order, and the map with the prunings. *)
Definition order_step (c : ListenerContext) (now : Z) (acc : list UpstreamRow * gmap string ServerState) (endpoint : string)
  : list UpstreamRow * gmap string ServerState :=
  match acc.2 !! endpoint with
  | Some s =>
      let '(row, s) := upstream_row (context_name c) endpoint (oc_config_db c !! endpoint) (counters_of c endpoint) now s in
      (acc.1 ++ [row], <[endpoint := s]> acc.2)
  | None => acc
  end.

Definition listener_view (now sessions : Z) (c : ListenerContext) : ListenerRow * ListenerContext :=
  let '(rows, db) := foldl (order_step c now) ([], oc_state_db c) (oc_order c) in
  let c := set_context db (oc_hub c) c in
  (mkListenerRow (context_name c) (oc_port c) (hex <$> oc_chain_id c) (tip_ready (oc_health c)) (oc_max_connections c)
     sessions (oc_accepted_total c) (oc_rejected_total c) rows, c).

Record Totals := mkTotals { to_sessions : Z; to_upstreams : Z; to_upstreams_up : Z }.

Record DrainRow := mkDrainRow {
  dw_listener : string;
  dw_generation : Z;
  dw_sessions : Z;
  dw_chain_api_connections : Z;
}.

Record StatusView := mkStatusView {
  st_now_ms : Z;
  st_started_ms : Z;
  st_uptime_secs : Z;
  st_control : bool;
  st_totals : Totals;
  st_listeners : list ListenerRow;
  st_revision : Z;
  st_draining : list DrainRow;
}.

Abbreviation SessionCounts := (gmap (string * Z) Z).

Definition context_key (c : ListenerContext) : string * Z := (context_name c, oc_config_generation c).

Definition count_key (counts : SessionCounts) (key : string * Z) : SessionCounts :=
  <[key := default 0 (counts !! key) + 1]> counts.

Definition session_key (s : SessionInfo) : string * Z := (si_listener s, si_config_generation s).

Definition session_counts (sessions : list SessionInfo) : SessionCounts :=
  foldl (fun counts s => count_key counts (session_key s)) ∅ sessions.

(** The active listeners, each with the count it takes out. *)
Definition listener_step (now : Z) (acc : list ListenerRow * list ListenerContext * SessionCounts) (c : ListenerContext)
  : list ListenerRow * list ListenerContext * SessionCounts :=
  let '(rows, cs, counts) := acc in
  let n := default 0 (counts !! context_key c) in
  let '(row, c') := listener_view now n c in
  (rows ++ [row], cs ++ [c'], delete (context_key c) counts).

Definition status_with_session_counts (now now_ms : Z) (t : Telemetry) (counts : SessionCounts) (app : App)
  : StatusView * App :=
  let '(rows, cs, counts) := foldl (listener_step now) ([], [], counts) (op_listeners app) in
  let upstreams := flat_map lr_upstreams rows in
  let draining := map (fun c => mkDrainRow (context_name c) (oc_config_generation c) (default 0 (counts !! context_key c))
                                     (oc_chain_api_connections c)) (op_draining app) in
  let totals := mkTotals
    (foldr Z.add 0 (map lr_sessions rows) + foldr Z.add 0 (map dw_sessions draining))
    (zlen upstreams)
    (count_if (fun u => ur_online u && negb (ur_operator_disabled u)) upstreams) in
  (mkStatusView now_ms (tl_started_ms t) (sat_sub now_ms (tl_started_ms t) / 1000) (is_some (op_control_token app))
     totals rows (op_config_revision app) draining,
   mkOperatorApp cs (op_draining app) (op_config_revision app) (op_control_token app)).

Definition status_view (now now_ms : Z) (t : Telemetry) (app : App) : StatusView * App :=
  status_with_session_counts now now_ms t (session_counts (active_sessions t)) app.

Record SessionView := mkSessionView {
  sw_id : Z;
  sw_listener : string;
  sw_config_generation : Z;
  sw_draining : bool;
  sw_client : string;
  sw_upstream : string;
  sw_upstream_name : string;
  sw_started_ms : Z;
  sw_start_block : option Z;
  sw_last_block : option Z;
  sw_finality : bool;
  sw_blocks : Z;
  sw_bytes : Z;
  sw_failovers : Z;
}.

(** The name of an upstream: the last context with that key that knows it. *)
Definition upstream_name (app : App) (key : string * Z) (endpoint : string) : string :=
  default EmptyString
    (foldl (fun found c =>
        if bool_decide (context_key c = key) then
          match oc_config_db c !! endpoint with Some s => Some (sv_name s) | None => found end
        else found) None (op_listeners app ++ op_draining app)).

Definition session_view (app : App) (s : SessionInfo) : SessionView :=
  mkSessionView (si_id s) (si_listener s) (si_config_generation s)
    (existsb (fun c => bool_decide (context_key c = session_key s)) (op_draining app))
    (si_client s) (si_upstream s) (upstream_name app (session_key s) (si_upstream s)) (si_started_ms s)
    (info_start_block s) (info_last_block s) (si_finality s) (si_blocks s) (si_bytes s) (si_failovers s).

Definition session_views (t : Telemetry) (app : App) : list SessionView := map (session_view app) (active_sessions t).

Definition get_sessions (t : Telemetry) (app : App) (listener upstream : option string) : list SessionView :=
  List.filter (fun s => is_none_or (fun u => bool_decide (sw_upstream s = u)) upstream)
    (List.filter (fun s => is_none_or (fun l => bool_decide (sw_listener s = l)) listener) (session_views t app)).

(** ** Errors and auth *)

Record ApiError := mkApiError { err_status : Z; err_message : string }.

Definition token_matches (expected given : string) : bool :=
  let e := as_bytes expected in
  let g := as_bytes given in
  (zlen e =? zlen g) && (foldl (fun acc (ab : Z * Z) => Z.lor acc (Z.lxor ab.1 ab.2)) 0 (zip e g) =? 0).

(** [header]: the [Authorization] header, when it is readable text. *)
Definition authorize (app : App) (header : option string) : result unit ApiError :=
  match op_control_token app with
  | None => Err (mkApiError 403 "control API is disabled: no control token is configured")
  | Some expected =>
      match trim <$> (header ≫= strip_prefix "Bearer ") with
      | Some given => if token_matches expected given then Ok tt
                      else Err (mkApiError 401 "missing or invalid bearer token")
      | None => Err (mkApiError 401 "missing or invalid bearer token")
      end
  end.

Definition find_listener (app : App) (name : string) : result (nat * ListenerContext) ApiError :=
  match list_find (fun c => context_name c = name) (op_listeners app) with
  | Some found => Ok found
  | None => Err (mkApiError 404 (fmt ["unknown listener '"; name; "'"]))
  end.

(** ** Control *)

(** The operator's world: the listeners and the telemetry store. *)
Record World := mkWorld { wo_app : App; wo_tele : Telemetry }.

Definition set_contexts (listeners : list ListenerContext) (app : App) : App :=
  mkOperatorApp listeners (op_draining app) (op_config_revision app) (op_control_token app).

(** [emit]: the change, with its guard. *)
Definition emit (now_ms : Z) (e : LogEvent) (t : Telemetry) : Telemetry :=
  end_change (emit_body now_ms e (begin_change t)).

Definition audit (now_ms : Z) (listener : string) (endpoint : option string) (session : option Z) (message : string)
    (t : Telemetry) : Telemetry :=
  let e := event_listener listener (event_new LvInfo EkControl message) in
  let e := match endpoint with Some ep => event_upstream ep e | None => e end in
  let e := match session with Some id => event_session id e | None => e end in
  emit now_ms e t.

Inductive UpstreamAction := UaDisable | UaDrain | UaEnable | UaReset | UaClearQuarantine.
#[export] Instance UpstreamAction_eq_dec : EqDecision UpstreamAction.
Proof. solve_decision. Defined.

Record UpstreamPatch := mkPatch { pa_priority : option Z; pa_weight : option Z }.

(** The two settings of a state an operator may change. *)
Definition set_settings (priority weight : Z) (s : ServerState) : ServerState :=
  let c := cfg s in
  mkServerState
    (mkServerCfg (s_name c) (s_index c) (s_role c) (s_declared c) (s_max_sessions c) priority weight
       (Models.expected_chain_id c) (Models.require_chain_id c))
    (connections s) (went_offline_wakes s) (enabled s) (operator_disabled s) (online s) (stale s)
    (chain_id_unverified_warned s) (chain_id s) (reported s) (ranges_known s) (block_failures s) (block_strikes s)
    (quarantines s) (status_at s) (status_head_reference s) (head_lag_blocks s) (status_v1 s) (abi s)
    (offline_since s) (no_block_log s) (warned s).

(** The sessions of an upstream, split by whether another one can take them over. *)
Definition session_on (c : ListenerContext) (listener endpoint : string) (s : SessionInfo) : bool :=
  bool_decide (si_listener s = listener) && (si_config_generation s =? oc_config_generation c)
  && bool_decide (si_upstream s = endpoint).

Definition drain_split (c : ListenerContext) (listener endpoint : string) (now : Z) (sessions : list SessionInfo)
  : list SessionInfo * Z :=
  let own := List.filter (session_on c listener endpoint) sessions in
  (List.filter (fun s => has_alternative_for c endpoint (info_next_block s) now) own,
   count_if (fun s => negb (has_alternative_for c endpoint (info_next_block s) now)) own).

(** What an action or a patch does to the state, to the registry, and its message. *)
Definition apply_action (action : option UpstreamAction) (patch : UpstreamPatch) (config : option Server)
    (movable : list SessionInfo) (stranded : Z) (s : ServerState) (t : Telemetry)
  : result (ServerState * Telemetry * string) ApiError :=
  let name := s_name (cfg s) in
  match action with
  | Some UaDisable => Ok (set_operator_disabled true s, t, fmt ["disabled "; name])
  | Some UaEnable => Ok (set_operator_disabled false s, t, fmt ["enabled "; name])
  | Some UaDrain =>
      Ok (set_operator_disabled true s,
          foldl (fun t m => on_session request_move (si_id m) t) t movable,
          fmt (["drained "; name; ": moving "; pretty (zlen movable); " session(s)"]
               ++ if 0 <? stranded
                  then [", "; pretty stranded; " stay because no other upstream has their next block"] else []))
  | Some UaReset =>
      let s := set_operator_disabled false s in
      Ok (match config with Some c => set_settings (sv_priority c) (Z.max (sv_weight c) 1) s | None => s end, t,
          fmt ["reset "; name; " to its configured settings"])
  | Some UaClearQuarantine => Ok (clear_quarantines s, t, fmt ["cleared quarantines on "; name])
  | None =>
      if is_none (pa_priority patch) && is_none (pa_weight patch)
      then Err (mkApiError 400 "set at least one of priority and weight")
      else if bool_decide (pa_weight patch = Some 0) then Err (mkApiError 400 "weight must be at least 1")
      else
        let priority := default (s_priority (cfg s)) (pa_priority patch) in
        let weight := default (s_weight (cfg s)) (pa_weight patch) in
        let changes := match pa_priority patch with Some p => [fmt ["priority "; pretty p]] | None => [] end
                       ++ match pa_weight patch with Some w => [fmt ["weight "; pretty w]] | None => [] end in
        Ok (set_settings priority weight s, t, fmt ["set "; name; " "; join ", " changes])
  end.

Definition update_upstream (now now_ms : Z) (listener endpoint : string) (action : option UpstreamAction)
    (patch : UpstreamPatch) (w : World) : result UpstreamRow ApiError * World :=
  match find_listener (wo_app w) listener with
  | Err e => (Err e, w)
  | Ok (i, c) =>
      match oc_state_db c !! endpoint with
      | None => (Err (mkApiError 404 (fmt ["unknown upstream '"; endpoint; "' on listener '"; listener; "'"])), w)
      | Some s =>
          let config := oc_config_db c !! endpoint in
          let '(movable, stranded) :=
            if bool_decide (action = Some UaDrain)
            then drain_split c listener endpoint now (active_sessions (wo_tele w)) else ([], 0) in
          let t := begin_change (wo_tele w) in
          match apply_action action patch config movable stranded s t with
          | Err e => (Err e, mkWorld (wo_app w) (end_change t))
          | Ok (s, t, message) =>
              let '(row, s) := upstream_row listener endpoint config (counters_of c endpoint) now s in
              let c := publish now (<[endpoint := s]> (oc_state_db c)) c in
              let t := audit now_ms listener (Some endpoint) None message t in
              (Ok row, mkWorld (set_contexts (<[i := c]> (op_listeners (wo_app w))) (wo_app w)) (end_change t))
          end
      end
  end.

(** The handlers of the actions and of the patch. *)
Definition post_action (now now_ms : Z) (header : option string) (listener endpoint : string) (action : UpstreamAction)
    (w : World) : result UpstreamRow ApiError * World :=
  match authorize (wo_app w) header with
  | Err e => (Err e, w)
  | Ok _ => update_upstream now now_ms listener endpoint (Some action) (mkPatch None None) w
  end.

(** [body]: the decoded body, or why it was refused. *)
Definition patch_upstream (now now_ms : Z) (header : option string) (listener endpoint : string)
    (body : result UpstreamPatch string) (w : World) : result UpstreamRow ApiError * World :=
  match authorize (wo_app w) header with
  | Err e => (Err e, w)
  | Ok _ =>
      match body with
      | Err text => (Err (mkApiError 400 text), w)
      | Ok patch => update_upstream now now_ms listener endpoint None patch w
      end
  end.

Inductive SessionAction := SaMove | SaClose.

Definition session_action (now now_ms id : Z) (action : SessionAction) (w : World) : result Z ApiError * World :=
  let t := begin_change (wo_tele w) in
  let fail e := (Err e, mkWorld (wo_app w) (end_change t)) in
  match session_info id t with
  | None => fail (mkApiError 404 (fmt ["no active session "; pretty id]))
  | Some s =>
      match action with
      | SaMove =>
          match List.find (fun c => bool_decide (context_key c = session_key s))
                  (op_listeners (wo_app w) ++ op_draining (wo_app w)) with
          | None => fail (mkApiError 404 "listener has drained")
          | Some c =>
              if negb (has_alternative_for c (si_upstream s) (info_next_block s) now) then
                fail (mkApiError 409
                  match info_next_block s with
                  | Some block => fmt ["no other upstream online has block "; pretty block]
                  | None => "no other upstream is online"
                  end)
              else
                let t := on_session request_move id t in
                let t := audit now_ms (si_listener s) (Some (si_upstream s)) (Some id)
                           (fmt ["moving session "; pretty id; " ("; si_client s; ") off "; si_upstream s]) t in
                (Ok 202, mkWorld (wo_app w) (end_change t))
          end
      | SaClose =>
          let t := on_session request_close id t in
          let t := audit now_ms (si_listener s) (Some (si_upstream s)) (Some id)
                     (fmt ["closing session "; pretty id; " ("; si_client s; ")"]) t in
          (Ok 202, mkWorld (wo_app w) (end_change t))
      end
  end.

Definition post_session (now now_ms : Z) (header : option string) (id : Z) (action : SessionAction) (w : World)
  : result Z ApiError * World :=
  match authorize (wo_app w) header with
  | Err e => (Err e, w)
  | Ok _ => session_action now now_ms id action w
  end.

(** ** Events of a status change *)

Definition serving (status : string) : bool :=
  bool_decide (status = "up" \/ status = "stale" \/ status = "quarantined").

Definition transition_event (name before after : string) : option LogEvent :=
  if bool_decide (before = after) || bool_decide (before = "disabled") || bool_decide (after = "disabled") then None
  else if bool_decide (after = "down") then Some (event_new LvWarn EkUpstreamDown (fmt [name; " went offline"]))
  else if bool_decide (before = "down") && serving after
       then Some (event_new LvInfo EkUpstreamUp (fmt [name; " is online"]))
  else if bool_decide (after = "stale") then Some (event_new LvWarn EkUpstreamStale (fmt [name; " stopped advancing"]))
  else if bool_decide (before = "stale") then Some (event_new LvInfo EkUpstreamFresh (fmt [name; " is advancing again"]))
  else None.

(** ** The token *)

Lemma as_bytes_inj a b : as_bytes a = as_bytes b -> a = b.
Proof.
  revert b. induction a as [|x a IH]; intros [|y b]; cbn; try done. intros [= Hc Hab]. f_equal; [|by apply IH].
  unfold code in Hc. apply Nat2Z.inj in Hc. rewrite <- (Ascii.ascii_nat_embedding x), <- (Ascii.ascii_nat_embedding y). by f_equal.
Qed.

Lemma xor_fold acc (l : list (Z * Z)) :
  foldl (fun acc (ab : Z * Z) => Z.lor acc (Z.lxor ab.1 ab.2)) acc l = 0 <-> acc = 0 /\ Forall (fun ab => ab.1 = ab.2) l.
Proof.
  revert acc. induction l as [|[a b] l IH]; intros acc; cbn [foldl].
  - split; [by split|by intros [? _]].
  - rewrite IH, Z.lor_eq_0_iff, Z.lxor_eq_0_iff, Forall_cons. cbn. naive_solver.
Qed.

Lemma zip_equal (l k : list Z) : length l = length k -> Forall (fun ab : Z * Z => ab.1 = ab.2) (zip l k) <-> l = k.
Proof.
  revert k. induction l as [|x l IH]; intros [|y k]; cbn; try done. intros [= Hlen].
  rewrite Forall_cons, IH by done. cbn. split; [by intros [-> ->]|by intros [= -> ->]].
Qed.

(** The comparison that never stops early is equality. *)
Lemma token_matches_spec a b : token_matches a b = true <-> a = b.
Proof.
  unfold token_matches. rewrite andb_true_iff, !Z.eqb_eq, xor_fold. split.
  - intros [Hl [_ Hf]]. apply as_bytes_inj, zip_equal; [lia|done].
  - intros ->. split; [done|]. split; [done|]. by apply zip_equal.
Qed.

Definition granted (w : World) (header : option string) : bool :=
  is_some_and (fun token => bool_decide (trim <$> (header ≫= strip_prefix "Bearer ") = Some token)) (op_control_token (wo_app w)).

Lemma authorize_spec w header :
  if granted w header then authorize (wo_app w) header = Ok tt
  else exists e, authorize (wo_app w) header = Err e /\ err_status e = (if is_some (op_control_token (wo_app w)) then 401 else 403).
Proof.
  unfold granted, authorize. destruct (op_control_token (wo_app w)) as [token|]; cbn [is_some_and is_some]; [|eauto].
  destruct (trim <$> _) as [given|]; [|rewrite bool_decide_false by done; eauto].
  destruct (token_matches token given) eqn:E.
  - apply token_matches_spec in E as ->. by rewrite bool_decide_true.
  - rewrite bool_decide_false; [eauto|]. intros [= ->]. by rewrite (proj2 (token_matches_spec token token)) in E.
Qed.

(** A control request, an action, a patch, a move or a close, does what it asks
    exactly when a token is configured and its bearer token is that one; otherwise it
    is answered 401, or 403 without a configured token, and nothing at all changes. *)
Theorem control_needs_token (w : World) (header : option string) (now now_ms id : Z) (listener endpoint : string)
    (action : UpstreamAction) (patch : UpstreamPatch) (on_session : SessionAction) :
  if granted w header then
    post_action now now_ms header listener endpoint action w
      = update_upstream now now_ms listener endpoint (Some action) (mkPatch None None) w
    /\ patch_upstream now now_ms header listener endpoint (Ok patch) w
      = update_upstream now now_ms listener endpoint None patch w
    /\ post_session now now_ms header id on_session w = session_action now now_ms id on_session w
  else
    exists e, err_status e = (if is_some (op_control_token (wo_app w)) then 401 else 403)
    /\ post_action now now_ms header listener endpoint action w = (Err e, w)
    /\ patch_upstream now now_ms header listener endpoint (Ok patch) w = (Err e, w)
    /\ post_session now now_ms header id on_session w = (Err e, w).
Proof.
  pose proof (authorize_spec w header) as Ha. unfold post_action, patch_upstream, post_session.
  destruct (granted w header); [by rewrite Ha|]. destruct Ha as (e & -> & He). by exists e.
Qed.

(** ** One upstream *)

(** What [rebuild] shows of the states. *)
Lemma rebuild_shows ctx states tips now hub u :
  u ∈ v_upstreams (hub_view (rebuild ctx states tips now hub)) ->
  exists e s, states !! e = Some s /\ u_endpoint u = e /\ u_operator_disabled u = operator_disabled s
    /\ u_enabled u = enabled s /\ u_priority u = s_priority (cfg s) /\ u_weight u = Z.max (s_weight (cfg s)) 1
    /\ u_quarantines u = quarantines s.
Proof.
  unfold rebuild. destruct (build_view ctx states tips now (hub_mem hub)) as [view m] eqn:Eb. intros Hu.
  assert (exists u0, u0 ∈ v_upstreams view /\ without_connections u0 = without_connections u) as (u0 & Hu0 & Heq).
  { destruct (same_content view (hub_view hub)) eqn:Es; [|by exists u].
    unfold same_content in Es. bools.
    match goal with H : map without_connections _ = _ |- _ => rename H into Hm end. cbn [hub_view] in Hu.
    assert (without_connections u ∈ map without_connections (v_upstreams view)) as Hin.
    { rewrite Hm. apply list_elem_of_fmap. eauto. }
    apply list_elem_of_fmap in Hin as (u0 & He & Hu0). eauto. }
  destruct (elem_of_build_view_ups ctx states tips now (hub_mem hub)) as [ok Hok]. rewrite Eb in Hok. cbn [fst] in Hok.
  apply Hok in Hu0 as (e & s & Hs & ->). exists e, s. split; [done|].
  pose proof (f_equal u_endpoint Heq) as H1. pose proof (f_equal u_operator_disabled Heq) as H2.
  pose proof (f_equal u_enabled Heq) as H3. pose proof (f_equal u_priority Heq) as H4.
  pose proof (f_equal u_weight Heq) as H5. pose proof (f_equal u_quarantines Heq) as H6.
  cbn [without_connections set_abi_ok u_endpoint u_operator_disabled u_enabled u_priority u_weight u_quarantines] in *.
  rewrite <- H1, <- H2, <- H3, <- H4, <- H5, <- H6. unfold upstream_view. repeat case_match; simplify_eq; bools; by split_and!.
Qed.

Lemma row_state listener endpoint config counters now s :
  (upstream_row listener endpoint config counters now s).2 = s
  \/ (upstream_row listener endpoint config counters now s).2 = prune_expired_quarantines now s.
Proof.
  unfold upstream_row, upstream_status. destruct (operator_disabled s); [by left|].
  destruct (negb (online s)); [by left|]. destruct (stale s); [by left|]. by right.
Qed.

(** What an action makes of the state of its upstream. *)
Record acted (action : option UpstreamAction) (patch : UpstreamPatch) (config : option Server) (now : Z)
    (s s' : ServerState) : Prop := {
  ac_disabled : operator_disabled s' = match action with
    | Some (UaDisable | UaDrain) => true
    | Some (UaEnable | UaReset) => false
    | _ => operator_disabled s
    end;
  ac_priority : s_priority (cfg s') = match action, config with
    | Some UaReset, Some c => sv_priority c
    | None, _ => default (s_priority (cfg s)) (pa_priority patch)
    | _, _ => s_priority (cfg s)
    end;
  ac_weight : s_weight (cfg s') = match action, config with
    | Some UaReset, Some c => Z.max (sv_weight c) 1
    | None, _ => default (s_weight (cfg s)) (pa_weight patch)
    | _, _ => s_weight (cfg s)
    end;
  ac_quarantines : forall q, active q now = true ->
    (q ∈ quarantines s' <-> action <> Some UaClearQuarantine /\ q ∈ quarantines s);
  ac_strikes : block_strikes s' = if bool_decide (action = Some UaClearQuarantine) then [] else block_strikes s;
  ac_rest : s' = set_settings (s_priority (cfg s')) (s_weight (cfg s'))
    (set_operator_disabled (operator_disabled s') (set_quarantines (quarantines s') (set_block_strikes (block_strikes s') s)));
}.

Lemma acted_prune action patch config now s s' :
  acted action patch config now s s' -> acted action patch config now s (prune_expired_quarantines now s').
Proof.
  intros [H1 H2 H3 H4 H5 H6]. constructor; try done.
  - intros q Hq. rewrite <- (H4 q Hq). cbn. rewrite elem_of_List_filter. naive_solver.
  - exact (f_equal (set_quarantines (List.filter (fun q => active q now) (quarantines s'))) H6).
Qed.

Lemma action_acted action patch config movable stranded now s t s' t' message :
  apply_action action patch config movable stranded s t = Ok (s', t', message) -> acted action patch config now s s'.
Proof.
  destruct action as [[]|]; cbn [apply_action]; intros Ha.
  1-3: injection Ha as <- _ _; constructor; try done; first [by destruct s as [[]]|naive_solver].
  - injection Ha as <- _ _. destruct config; (constructor; try done; first [by destruct s as [[]]|naive_solver]).
  - injection Ha as <- _ _. constructor; try done; [|by destruct s as [[]]].
    intros q _. cbn. split; [by intros ?%elem_of_nil|naive_solver].
  - destruct (_ && _); [done|]. destruct (bool_decide _); [done|]. injection Ha as <- _ _.
    constructor; try done; first [by destruct s as [[]]|naive_solver].
Qed.

Lemma find_listener_spec app name i c :
  find_listener app name = Ok (i, c) -> op_listeners app !! i = Some c /\ context_name c = name.
Proof.
  unfold find_listener. destruct (list_find _ _) as [[j d]|] eqn:E; [|done]. intros [= -> ->].
  apply list_find_Some in E as (? & ? & _). done.
Qed.

(** Out of service: neither planner, of stitched sessions or of pool sessions, picks
    the endpoint, and no session is moved to it. *)
Record unplanned (v : FleetView) (endpoint : string) : Prop := {
  un_next : forall tip sh from ex own sid pol lag allow now st,
    next_step v tip sh from ex own sid pol lag allow now = Serve st -> ss_endpoint st <> endpoint;
  un_stay : forall tip sh from i ex now st, serve_on v tip sh from i ex now = Some st -> ss_endpoint st <> endpoint;
  un_pool : forall route ex failover sid lag now i, pool_pick v route ex failover sid lag now = Some i ->
    exists u, u ∈ v_upstreams v /\ u_index u = i /\ u_endpoint u <> endpoint;
  un_move : forall u next now, u ∈ v_upstreams v -> u_endpoint u = endpoint -> can_take_over u next now = false;
}.

Lemma disabled_unplanned v endpoint :
  (forall u, u ∈ v_upstreams v -> u_endpoint u = endpoint -> u_operator_disabled u = true) -> unplanned v endpoint.
Proof.
  intros Hd. assert (forall u, u ∈ v_upstreams v -> u_routable u = true -> u_endpoint u <> endpoint) as Hne.
  { intros u Hu Hr He. unfold u_routable in Hr. rewrite (Hd u Hu He), andb_false_r in Hr. done. }
  constructor.
  - intros * (u & Hu & <- & Hr)%next_step_routable. auto.
  - intros * (u & Hu & <- & Hr)%serve_on_routable. auto.
  - intros * (u & Hu & Hi & Hr)%pool_pick_routable. eauto 6.
  - intros u next now Hu He. unfold can_take_over. destruct (u_routable u) eqn:Hr; [|done]. by destruct (Hne u).
Qed.

(** C31: An action or a patch that succeeds changes the state of the upstream it names, in
    the listener it names, and no other: the operator's flag and settings as asked, the
    quarantines and strikes only when they are cleared (an expired quarantine may be
    dropped), and nothing else of it, so nothing the monitor reports. The view the
    listener shows next has the flag, the settings and the quarantines; in a view that
    shows the flag set neither planner, of stitched or of pool sessions, picks the
    upstream, and no session is moved to it. *)
Theorem action_exact (now now_ms : Z) (listener endpoint : string) (action : option UpstreamAction)
    (patch : UpstreamPatch) (w w' : World) (row : UpstreamRow) :
  update_upstream now now_ms listener endpoint action patch w = (Ok row, w') ->
  exists i c s s' c',
    op_listeners (wo_app w) !! i = Some c /\ context_name c = listener /\ oc_state_db c !! endpoint = Some s
    /\ wo_app w' = set_contexts (<[i := c']> (op_listeners (wo_app w))) (wo_app w)
    /\ oc_state_db c' = <[endpoint := s']> (oc_state_db c)
    /\ acted action patch (oc_config_db c !! endpoint) now s s'
    /\ forall h, oc_hub c' = Some h ->
         let v := hub_view (hs_hub h) in
         (forall u, u ∈ v_upstreams v -> u_endpoint u = endpoint ->
            u_operator_disabled u = operator_disabled s' /\ u_priority u = s_priority (cfg s')
            /\ u_weight u = Z.max (s_weight (cfg s')) 1 /\ u_quarantines u = quarantines s')
         /\ (operator_disabled s' = true -> unplanned v endpoint).
Proof.
  unfold update_upstream. destruct (find_listener (wo_app w) listener) as [[i c]|] eqn:Ef; [|done].
  apply find_listener_spec in Ef as [Hi Hn]. destruct (oc_state_db c !! endpoint) as [s|] eqn:Es; [|done].
  destruct (if bool_decide _ then _ else _) as [movable stranded].
  destruct (apply_action _ _ _ _ _ _ _) as [[[s1 t1] message]|] eqn:Ea; [|done].
  apply (action_acted _ _ _ _ _ now) in Ea.
  destruct (upstream_row _ _ _ _ _ s1) as [row' s2] eqn:Er. intros [= <- <-].
  assert (acted action patch (oc_config_db c !! endpoint) now s s2) as Hac.
  { destruct (row_state listener endpoint (oc_config_db c !! endpoint) (counters_of c endpoint) now s1) as [Hx|Hx];
      rewrite Er in Hx; cbn in Hx; subst s2; [done|by apply acted_prune]. }
  exists i, c, s, s2, (publish now (<[endpoint := s2]> (oc_state_db c)) c). split_and!; try done.
  intros h Hh. set (v := hub_view (hs_hub h)).
  assert (forall u, u ∈ v_upstreams v -> u_endpoint u = endpoint ->
    u_operator_disabled u = operator_disabled s2 /\ u_priority u = s_priority (cfg s2)
    /\ u_weight u = Z.max (s_weight (cfg s2)) 1 /\ u_quarantines u = quarantines s2) as Hview.
  { unfold publish in Hh. cbn in Hh. destruct (oc_hub c) as [h0|]; [|done]. injection Hh as <-.
    intros u Hu Hep. apply rebuild_shows in Hu as (e & s' & Hs' & He & Hd & _ & Hp & Hw & Hq).
    rewrite Hep in He. subst e. rewrite lookup_insert_eq in Hs'. injection Hs' as <-. done. }
  split; [exact Hview|]. intros Hdis. apply disabled_unplanned. intros u Hu He. by destruct (Hview u Hu He) as [-> _].
Qed.

(** ** Sessions *)

Lemma audit_sessions now_ms listener endpoint session message t :
  tl_sessions (audit now_ms listener endpoint session message t) = tl_sessions t.
Proof. done. Qed.

Lemma request_move_twice s : request_move (request_move s) = request_move s.
Proof. done. Qed.

Lemma moves_lookup (ms : list SessionInfo) t id :
  tl_sessions (foldl (fun t m => on_session request_move (si_id m) t) t ms) !! id
  = (fun s => if bool_decide (id ∈ map si_id ms) then request_move s else s) <$> tl_sessions t !! id.
Proof.
  revert t. induction ms as [|m ms IH]; intros t; cbn [foldl map].
  - rewrite bool_decide_false by apply not_elem_of_nil. by destruct (tl_sessions t !! id).
  - rewrite IH. cbn [on_session set_sessions tl_sessions].
    destruct (decide (si_id m = id)) as [<-|Hne].
    + rewrite lookup_alter_eq, (bool_decide_true (si_id m ∈ si_id m :: _)) by constructor.
      destruct (tl_sessions t !! si_id m) as [s|]; cbn; [|done]. by destruct (bool_decide _); rewrite ?request_move_twice.
    + rewrite lookup_alter_ne by done. destruct (tl_sessions t !! id) as [s|]; cbn; [|done].
      assert (bool_decide (id ∈ map si_id ms) = bool_decide (id ∈ si_id m :: map si_id ms)) as ->; [|done].
      apply bool_decide_ext. rewrite elem_of_cons. naive_solver.
Qed.

(** C32: A drain asks to move exactly the sessions of the upstream, in this listener and
    its current configuration, whose next block another upstream can serve, and leaves
    every other session alone. *)
Theorem drain_exact (now now_ms : Z) (listener endpoint : string) (patch : UpstreamPatch) (w w' : World)
    (row : UpstreamRow) (i : nat) (c : ListenerContext) :
  keyed (wo_tele w) -> find_listener (wo_app w) listener = Ok (i, c) ->
  update_upstream now now_ms listener endpoint (Some UaDrain) patch w = (Ok row, w') ->
  forall id, tl_sessions (wo_tele w') !! id
    = (fun s => if session_on c listener endpoint s && has_alternative_for c endpoint (info_next_block s) now
                then request_move s else s) <$> tl_sessions (wo_tele w) !! id.
Proof.
  intros Hk Hf Hu id. unfold update_upstream in Hu. rewrite Hf in Hu.
  destruct (oc_state_db c !! endpoint) as [s|]; [|done]. rewrite bool_decide_true in Hu by done.
  unfold drain_split in Hu. cbn [apply_action] in Hu.
  destruct (upstream_row _ _ _ _ _ _) as [row' s2]. injection Hu as _ <-. cbn [wo_tele].
  change (tl_sessions (end_change ?t)) with (tl_sessions t). rewrite audit_sessions, moves_lookup.
  change (tl_sessions (begin_change (wo_tele w))) with (tl_sessions (wo_tele w)).
  destruct (tl_sessions (wo_tele w) !! id) as [si|] eqn:E; [|done]. cbn. f_equal.
  pose proof (Hk id si E) as Hid. set (ok := session_on c listener endpoint si && _).
  assert (bool_decide (id ∈ map si_id (List.filter (fun s0 => has_alternative_for c endpoint (info_next_block s0) now)
            (List.filter (session_on c listener endpoint) (active_sessions (wo_tele w))))) = ok) as ->; [|done].
  apply eq_true_iff_eq. rewrite bool_decide_eq_true, list_elem_of_fmap. unfold ok. rewrite andb_true_iff. split.
  - intros (m & Hm & Hin). rewrite !elem_of_List_filter in Hin. destruct Hin as [[Hin Ho] Ha].
    apply (elem_of_active _ _ Hk) in Hin. rewrite <- Hm, E in Hin. by injection Hin as ->.
  - intros [Ho Ha]. exists si. split; [done|]. rewrite !elem_of_List_filter. split_and!; [|done..].
    apply (elem_of_active _ _ Hk). by rewrite Hid.
Qed.

(** A session is asked to move only if another upstream can take it over, in its own
    listener and configuration, draining ones included; a close is always asked; a
    request that fails changes no session; and no other session is ever touched. *)
Theorem session_action_exact (now now_ms id : Z) (action : SessionAction) (w w' : World) (r : result Z ApiError) :
  session_action now now_ms id action w = (r, w') ->
  wo_app w' = wo_app w
  /\ match r with
     | Ok _ => exists s, tl_sessions (wo_tele w) !! id = Some s
         /\ tl_sessions (wo_tele w')
            = <[id := match action with SaMove => request_move s | SaClose => request_close s end]> (tl_sessions (wo_tele w))
         /\ (action = SaMove -> exists c, c ∈ op_listeners (wo_app w) ++ op_draining (wo_app w)
              /\ context_key c = session_key s
              /\ has_alternative_for c (si_upstream s) (info_next_block s) now = true)
     | Err e => tl_sessions (wo_tele w') = tl_sessions (wo_tele w) /\ (err_status e = 404 \/ err_status e = 409)
     end.
Proof.
  unfold session_action, session_info. change (tl_sessions (begin_change (wo_tele w))) with (tl_sessions (wo_tele w)).
  assert (forall f s, tl_sessions (wo_tele w) !! id = Some s ->
    alter f id (tl_sessions (wo_tele w)) = <[id := f s]> (tl_sessions (wo_tele w))) as Halter.
  { intros f s Hs. apply map_eq. intros k. destruct (decide (id = k)) as [<-|Hne].
    - by rewrite lookup_alter_eq, lookup_insert_eq, Hs.
    - by rewrite lookup_alter_ne, lookup_insert_ne. }
  destruct (tl_sessions (wo_tele w) !! id) as [s|] eqn:E; [|intros [= <- <-]; cbn; auto]. destruct action.
  - destruct (List.find _ _) as [c|] eqn:Ec; [|intros [= <- <-]; cbn; auto].
    apply List.find_some in Ec as [Hin Hkey]. apply list_elem_of_In in Hin. bools.
    destruct (has_alternative_for c _ _ now) eqn:Eh; intros [= <- <-]; cbn; [|auto].
    split; [done|]. exists s. split_and!; [done|by apply Halter|eauto].
  - intros [= <- <-]. cbn. split; [done|]. exists s. split_and!; [done|by apply Halter|done].
Qed.

(** ** Session counts *)

Lemma session_counts_fold sessions counts key :
  default 0 (foldl (fun counts s => count_key counts (session_key s)) counts sessions !! key)
  = default 0 (counts !! key) + count_if (fun s => bool_decide (session_key s = key)) sessions.
Proof.
  revert counts. induction sessions as [|s sessions IH]; intros counts; cbn [foldl]; [unfold count_if; cbn; lia|].
  rewrite IH. unfold count_key, count_if. cbn [List.filter].
  destruct (decide (session_key s = key)) as [<-|Hne].
  - rewrite lookup_insert_eq, bool_decide_true by done.
    cbn [from_option id length]. lia.
  - by rewrite lookup_insert_ne, bool_decide_false by done.
Qed.

Lemma session_counts_spec sessions key :
  default 0 (session_counts sessions !! key) = count_if (fun s => bool_decide (session_key s = key)) sessions.
Proof. unfold session_counts. rewrite session_counts_fold, lookup_empty. cbn. lia. Qed.

Lemma listeners_fold now cs rows done_ counts :
  NoDup (map context_key cs) ->
  let acc := foldl (listener_step now) (rows, done_, counts) cs in
  map lr_sessions acc.1.1 = map lr_sessions rows ++ map (fun c => default 0 (counts !! context_key c)) cs
  /\ (forall key, key ∉ map context_key cs -> acc.2 !! key = counts !! key).
Proof.
  revert rows done_ counts. induction cs as [|c cs IH]; intros rows done_ counts Hnd; cbn [foldl map].
  - split; [by rewrite app_nil_r|done].
  - inversion Hnd as [|? ? Hnin Hnd']; subst.
    destruct (listener_step now (rows, done_, counts) c) as [[rows1 done1] counts1] eqn:Es.
    assert (map lr_sessions rows1 = map lr_sessions rows ++ [default 0 (counts !! context_key c)]
            /\ counts1 = delete (context_key c) counts) as [Hr ->].
    { unfold listener_step, listener_view in Es. destruct (foldl (order_step c now) _ _) as [us db].
      injection Es as <- _ <-. by rewrite map_app. }
    destruct (IH rows1 done1 (delete (context_key c) counts) Hnd') as [I1 I2]. split.
    + rewrite I1, Hr, <- app_assoc. cbn. do 2 f_equal. apply map_ext_in. intros c' Hc'.
      rewrite lookup_delete_ne; [done|]. intros He. apply Hnin. rewrite He. apply list_elem_of_fmap.
      exists c'. split; [done|]. by apply list_elem_of_In.
    + intros key Hkey. rewrite not_elem_of_cons in Hkey. rewrite I2 by naive_solver. by rewrite lookup_delete_ne by naive_solver.
Qed.

(** Counting by distinct keys is counting the members. *)
Lemma count_by_keys {A K} `{EqDecision K} (key : A -> K) (keys : list K) (l : list A) :
  NoDup keys ->
  foldr Z.add 0 (map (fun k => count_if (fun x => bool_decide (key x = k)) l) keys)
  = count_if (fun x => bool_decide (key x ∈ keys)) l.
Proof.
  intros Hnd. induction l as [|x l IH].
  - unfold count_if. cbn. clear Hnd. induction keys; cbn; lia.
  - assert (forall f : A -> bool, count_if f (x :: l) = (if f x then 1 else 0) + count_if f l) as Hc.
    { intros f. unfold count_if. cbn. destruct (f x); cbn [length]; lia. }
    rewrite Hc, <- IH. clear IH. induction Hnd as [|k keys Hk Hnd IH]; [done|]. cbn [map foldr]. rewrite Hc, IH.
    destruct (decide (key x = k)) as [He|He]; [rewrite (bool_decide_true (key x = k)) by done; subst k|rewrite (bool_decide_false (key x = k)) by done].
    + rewrite (bool_decide_false (key x ∈ keys)), (bool_decide_true (key x ∈ _ :: _)) by (done || constructor). lia.
    + assert (bool_decide (key x ∈ k :: keys) = bool_decide (key x ∈ keys)) as ->; [|lia].
      apply bool_decide_ext. rewrite elem_of_cons. naive_solver.
Qed.

(** The sessions a status counts, for listeners told apart by name and
    configuration: each listener and each draining one has its own sessions of the
    registry, and the total is that of the sessions of either. *)
Theorem status_sessions_exact (now now_ms : Z) (t : Telemetry) (app : App) :
  NoDup (map context_key (op_listeners app ++ op_draining app)) ->
  let st := (status_view now now_ms t app).1 in
  let own c := count_if (fun s => bool_decide (session_key s = context_key c)) (active_sessions t) in
  map lr_sessions (st_listeners st) = map own (op_listeners app)
  /\ map dw_sessions (st_draining st) = map own (op_draining app)
  /\ to_sessions (st_totals st)
     = count_if (fun s => bool_decide (session_key s ∈ map context_key (op_listeners app ++ op_draining app))) (active_sessions t).
Proof.
  intros Hnd. cbv zeta. unfold status_view, status_with_session_counts.
  pose proof Hnd as Hnd0. rewrite map_app in Hnd. apply NoDup_app in Hnd as (Hn1 & Hdis & Hn2).
  destruct (listeners_fold now (op_listeners app) [] [] (session_counts (active_sessions t)) Hn1) as [Hl Hd].
  destruct (foldl (listener_step now) _ _) as [[rows cs] counts]. cbn [fst snd map Datatypes.app] in Hl, Hd.
  assert (map lr_sessions rows = map (fun c => count_if (fun s => bool_decide (session_key s = context_key c)) (active_sessions t)) (op_listeners app)) as H1.
  { rewrite Hl. apply map_ext. intros c. apply session_counts_spec. }
  cbn [fst st_listeners st_draining st_totals to_sessions]. rewrite map_map. cbn [dw_sessions].
  assert (map (fun c => default 0 (counts !! context_key c)) (op_draining app)
    = map (fun c => count_if (fun s => bool_decide (session_key s = context_key c)) (active_sessions t)) (op_draining app)) as H2.
  { apply map_ext_in. intros c Hc. rewrite Hd, session_counts_spec; [done|]. intros Hin. apply (Hdis _ Hin).
    apply list_elem_of_fmap. exists c. split; [done|by apply list_elem_of_In]. }
  split_and!; [done|done|]. rewrite H1, H2, <- sum_app, <- map_app.
  rewrite <- (count_by_keys session_key _ _ Hnd0), map_map. done.
Qed.


(** ** Witnesses *)

Definition op_server (name endpoint : string) : Server :=
  mkServer name endpoint true Frozen (Some (mkRange 1 1000)) None 0 1 None.
Definition op_db : gmap string ServerState :=
  {[ "10.0.0.1:8080" := set_online true (state_of_server None false 0 (op_server "archive-1" "10.0.0.1:8080"));
     "10.0.0.2:8080" := set_online true (state_of_server None false 1 (op_server "archive-2" "10.0.0.2:8080")) ]}.
Definition op_hub : FleetHub :=
  mkHub (build_view health_ctx op_db [] 0 (new_memory 0)).1 (new_memory 0).
Definition op_context : ListenerContext :=
  mkListenerContext 1 None op_db (Some (mkHubState health_ctx [] op_hub)) None 0 ∅ ["10.0.0.1:8080"; "10.0.0.2:8080"] 9000 None 10 0 0 ∅.
Definition op_app : App := mkOperatorApp [op_context] [] 1 (Some "secret").
(** The session of [tele_state] streams from the first archive. *)
Definition op_world : World := mkWorld op_app (sh_store tele_state).

Definition is_ok {A E} (r : result A E) : bool := match r with Ok _ => true | Err _ => false end.
Lemma ok_ex {A E} (r : result A E) : is_ok r = true -> exists a, r = Ok a.
Proof. destruct r; [eauto|done]. Qed.

Definition op_drained : result UpstreamRow ApiError * World :=
  update_upstream 0 7 "default" "10.0.0.1:8080" (Some UaDrain) (mkPatch None None) op_world.

Lemma op_drained_ok : exists row, op_drained = (Ok row, op_drained.2).
Proof.
  destruct (ok_ex op_drained.1) as [row Hr]; [vm_compute; reflexivity|]. exists row. rewrite <- Hr. by destruct op_drained.
Qed.

Lemma action_exact_witness :
  exists i c s s' c', op_listeners op_app !! i = Some c /\ oc_state_db c !! "10.0.0.1:8080" = Some s
    /\ oc_state_db c' = <["10.0.0.1:8080" := s']> (oc_state_db c) /\ operator_disabled s' = true.
Proof.
  destruct op_drained_ok as [row Hr].
  destruct (action_exact 0 7 "default" "10.0.0.1:8080" (Some UaDrain) (mkPatch None None) op_world op_drained.2 row Hr)
    as (i & c & s & s' & c' & Hi & _ & Hs & _ & Hdb & Hac & _).
  exists i, c, s, s', c'. split; [exact Hi|]. split; [exact Hs|]. split; [exact Hdb|]. exact (ac_disabled _ _ _ _ _ _ Hac).
Defined.

Lemma drain_exact_witness :
  (si_move_requested <$> tl_sessions (wo_tele op_world) !! 1) = Some false
  /\ (si_move_requested <$> tl_sessions (wo_tele op_drained.2) !! 1) = Some true.
Proof.
  split; [vm_compute; reflexivity|]. destruct op_drained_ok as [row Hr].
  rewrite (drain_exact 0 7 "default" "10.0.0.1:8080" (mkPatch None None) op_world op_drained.2 row 0 op_context
    (reached_keyed _ tele_reached) eq_refl Hr 1). vm_compute. reflexivity.
Defined.

Lemma op_moved_ok : is_ok (session_action 0 7 1 SaMove op_world).1 = true.
Proof. vm_compute. reflexivity. Qed.

Lemma session_action_exact_witness :
  exists s, tl_sessions (wo_tele op_world) !! 1 = Some s
    /\ tl_sessions (wo_tele (session_action 0 7 1 SaMove op_world).2)
       = <[1 := request_move s]> (tl_sessions (wo_tele op_world)).
Proof.
  pose proof (session_action_exact 0 7 1 SaMove op_world (session_action 0 7 1 SaMove op_world).2
    (session_action 0 7 1 SaMove op_world).1 (surjective_pairing _)) as [_ Hm].
  destruct (ok_ex (session_action 0 7 1 SaMove op_world).1 op_moved_ok) as [code Hc]. rewrite Hc in Hm.
  destruct Hm as (s & Hs & Hw & _). exists s. split; [exact Hs|exact Hw].
Defined.

Lemma status_sessions_exact_witness : to_sessions (st_totals (status_view 0 7 (wo_tele op_world) op_app).1) = 1.
Proof.
  destruct (status_sessions_exact 0 7 (wo_tele op_world) op_app) as (_ & _ & Ht);
    [apply (bool_decide_unpack _); vm_compute; exact I|]. rewrite Ht. vm_compute. reflexivity.
Defined.
