(* ===== verification/Dashboard.v ===== *)
(** * The dashboard feed

    Models [src/src/api/dashboard.rs]: the cache and the updates of the feed, the
    subscription of a viewer, and the publisher that captures the state of the router
    and publishes it.

    The publisher updates the cache and then sends the update; a viewer takes a
    bootstrap from the cache and then follows the updates, each of these being a step
    of its own.  The channel between them is tokio's broadcast channel: a receiver
    gets the updates sent since it subscribed, in order, or is told that it fell
    behind, which may happen at any time here.

    The theorems: what a viewer has assembled is at every moment the cache of the
    revision it shows, whatever was lost on the way, and the newest when nothing is
    pending; and the frames together carry once, in order, every event that is still in
    the log when the next published frame is captured. *)

From stdpp Require Import pretty.
From S2P Require Import Prelude Wire Models Coverage View Planner ApiRoute ApiPick ApiDirectory ApiBody Config Abi Health Telemetry Operator.

#[local] Open Scope string_scope.
#[local] Open Scope list_scope.
#[local] Open Scope Z_scope.

Definition MIN_PUBLISH_INTERVAL : Z := 250000000.
Definition SAMPLE_INTERVAL : Z := 1000000000.

Record DashSnapshot := mkDashSnapshot {
  sn_revision : Z;
  sn_status : StatusView;
  sn_sessions : list SessionView;
}.

Record Cache := mkCache {
  ca_latest : option DashSnapshot;
  ca_history : list Sample;
  ca_events : list LogEvent;
}.

Definition cache_new : Cache := mkCache None [] [].

Record Frame := mkFrame {
  fr_revision : Z;
  fr_bootstrap : bool;
  fr_status : StatusView;
  fr_sessions : list SessionView;
  fr_events : list LogEvent;
  fr_sample : option Sample;
  fr_history : option (list Sample);
}.

(** [data]: the frame whose encoding is sent. *)
Record Update := mkUpdate { up_revision : Z; up_data : Frame }.

Definition push_history (history : list Sample) (s : Sample) : list Sample :=
  let h := history ++ [s] in
  if HISTORY_SAMPLES <? zlen h then tail h else h.

Definition extend_events (held events : list LogEvent) : list LogEvent :=
  let e := held ++ events in
  drop (Z.to_nat (sat_sub (zlen e) MAX_EVENTS)) e.

Section feed.
(** Whether the JSON encoding of a frame succeeds. *)
Context (encodes : Frame -> bool).

Definition feed_publish (status : StatusView) (sessions : list SessionView) (events : list LogEvent)
    (sample : option Sample) (c : Cache) : option (Cache * Update) :=
  let revision := map_or 1 (fun s => sn_revision s + 1) (ca_latest c) in
  let frame := mkFrame revision false status sessions events sample None in
  if negb (encodes frame) then None
  else
    Some (mkCache (Some (mkDashSnapshot revision status sessions))
            (match sample with Some s => push_history (ca_history c) s | None => ca_history c end)
            (extend_events (ca_events c) events),
          mkUpdate revision frame).

(** [Err]: the encoding failed. *)
Definition feed_bootstrap (c : Cache) : result (option Update) unit :=
  match ca_latest c with
  | None => Ok None
  | Some latest =>
      let frame := mkFrame (sn_revision latest) true (sn_status latest) (sn_sessions latest) (ca_events c) None
                     (Some (ca_history c)) in
      if encodes frame then Ok (Some (mkUpdate (sn_revision latest) frame)) else Err tt
  end.

(** ** A subscription *)

(** [sb_queue] and [sb_lagged] are the receiver: what it has to deliver, and whether
    it fell behind; [sb_waiting]: the loop is past the bootstrap. *)
Record Subscription := mkSubscription {
  sb_queue : list Update;
  sb_lagged : bool;
  sb_revision : Z;
  sb_resync : bool;
  sb_waiting : bool;
}.

Definition feed_subscribe : Subscription := mkSubscription [] false 0 true false.

Inductive SubStepped := SsContinue (s : Subscription) | SsDeliver (u : Update) (s : Subscription) | SsOver.

(** The first half of the loop of [next]. *)
Definition sub_boot (c : Cache) (s : Subscription) : SubStepped :=
  if sb_resync s then
    match feed_bootstrap c with
    | Ok (Some u) => SsDeliver u (mkSubscription (sb_queue s) (sb_lagged s) (up_revision u) false false)
    | Ok None => SsContinue (mkSubscription (sb_queue s) (sb_lagged s) (sb_revision s) true true)
    | Err _ => SsOver
    end
  else SsContinue (mkSubscription (sb_queue s) (sb_lagged s) (sb_revision s) false true).

(** The second half; [None]: nothing has arrived. *)
Definition sub_recv (s : Subscription) : option SubStepped :=
  if sb_lagged s then Some (SsContinue (mkSubscription [] false (sb_revision s) true false))
  else
    match sb_queue s with
    | [] => None
    | u :: queue =>
        if sb_resync s || (up_revision u <=? sb_revision s)
        then Some (SsContinue (mkSubscription queue false (sb_revision s) (sb_resync s) false))
        else Some (SsDeliver u (mkSubscription queue false (up_revision u) false false))
    end.

(** ** What a viewer assembles *)

Record Viewer := mkViewer {
  vw_revision : Z;
  vw_status : StatusView;
  vw_sessions : list SessionView;
  vw_events : list LogEvent;
  vw_history : list Sample;
}.

(** A bootstrap replaces what the viewer has, an update is added to it. *)
Definition view_frame (v : option Viewer) (f : Frame) : option Viewer :=
  match fr_history f with
  | Some history => Some (mkViewer (fr_revision f) (fr_status f) (fr_sessions f) (fr_events f) history)
  | None =>
      (fun v => mkViewer (fr_revision f) (fr_status f) (fr_sessions f) (extend_events (vw_events v) (fr_events f))
                  (match fr_sample f with Some s => push_history (vw_history v) s | None => vw_history v end)) <$> v
  end.

Definition view_of_cache (c : Cache) : option Viewer :=
  (fun s => mkViewer (sn_revision s) (sn_status s) (sn_sessions s) (ca_events c) (ca_history c)) <$> ca_latest c.

(** ** The feed and one viewer

    [fd_sending]: in the cache, not yet sent; [fd_caches], [fd_updates]: the caches and
    the updates of all revisions so far. *)
Record FeedState := mkFeed {
  fd_cache : Cache;
  fd_sending : option Update;
  fd_sub : option Subscription;
  fd_viewer : option Viewer;
  fd_caches : list Cache;
  fd_updates : list Update;
}.

Definition feed_new : FeedState := mkFeed cache_new None None None [] [].

Definition deliver (d : FeedState) (r : SubStepped) : FeedState :=
  match r with
  | SsContinue s => mkFeed (fd_cache d) (fd_sending d) (Some s) (fd_viewer d) (fd_caches d) (fd_updates d)
  | SsDeliver u s =>
      mkFeed (fd_cache d) (fd_sending d) (Some s) (view_frame (fd_viewer d) (up_data u)) (fd_caches d) (fd_updates d)
  | SsOver => mkFeed (fd_cache d) (fd_sending d) None None (fd_caches d) (fd_updates d)
  end.

Definition queue_update (u : Update) (s : Subscription) : Subscription :=
  mkSubscription (sb_queue s ++ [u]) (sb_lagged s) (sb_revision s) (sb_resync s) (sb_waiting s).

Inductive feed_step : FeedState -> FeedState -> Prop :=
| fs_publish d status sessions events sample c u :
    fd_sending d = None -> feed_publish status sessions events sample (fd_cache d) = Some (c, u) ->
    feed_step d (mkFeed c (Some u) (fd_sub d) (fd_viewer d) (fd_caches d ++ [c]) (fd_updates d ++ [u]))
| fs_send d u :
    fd_sending d = Some u ->
    feed_step d (mkFeed (fd_cache d) None (queue_update u <$> fd_sub d) (fd_viewer d) (fd_caches d) (fd_updates d))
| fs_lag d s lost kept :
    fd_sub d = Some s -> sb_queue s = lost ++ kept ->
    feed_step d (mkFeed (fd_cache d) (fd_sending d)
      (Some (mkSubscription kept true (sb_revision s) (sb_resync s) (sb_waiting s))) (fd_viewer d) (fd_caches d) (fd_updates d))
| fs_subscribe d :
    feed_step d (mkFeed (fd_cache d) (fd_sending d) (Some feed_subscribe) None (fd_caches d) (fd_updates d))
| fs_leave d : feed_step d (mkFeed (fd_cache d) (fd_sending d) None None (fd_caches d) (fd_updates d))
| fs_boot d s : fd_sub d = Some s -> sb_waiting s = false -> feed_step d (deliver d (sub_boot (fd_cache d) s))
| fs_recv d s r : fd_sub d = Some s -> sb_waiting s = true -> sub_recv s = Some r -> feed_step d (deliver d r).

Inductive feed_reached : FeedState -> Prop :=
| feed_reached_new : feed_reached feed_new
| feed_reached_step d d' : feed_reached d -> feed_step d d' -> feed_reached d'.

(** ** The invariant *)

Definition cache_revision (c : Cache) : Z := map_or 0 sn_revision (ca_latest c).

(** The caches and the updates, one of each a revision. *)
Record published_ok (d : FeedState) : Prop := {
  po_lengths : length (fd_updates d) = length (fd_caches d);
  po_current : cache_revision (fd_cache d) = zlen (fd_caches d);
  po_last : default cache_new (last (fd_caches d)) = fd_cache d;
  po_caches : forall i c, fd_caches d !! i = Some c -> cache_revision c = Z.of_nat i + 1;
  po_updates : forall i u, fd_updates d !! i = Some u -> up_revision u = Z.of_nat i + 1;
  po_next : forall i c c' u v, fd_caches d !! i = Some c -> fd_caches d !! S i = Some c' -> fd_updates d !! S i = Some u ->
    view_of_cache c = Some v -> view_frame (Some v) (up_data u) = view_of_cache c';
  po_sending : exists k, option_list (fd_sending d) = drop k (fd_updates d);
}.

(** The viewer shows the cache of its revision. *)
Definition viewer_ok (d : FeedState) (v : Viewer) : Prop :=
  exists i c, fd_caches d !! i = Some c /\ view_of_cache c = Some v /\ vw_revision v = Z.of_nat i + 1.

(** Unless it fell behind, a subscription has or will get all updates from some point
    on; unless it must resync, from the one after the revision shown at the latest. *)
Definition sub_ok (d : FeedState) (s : Subscription) : Prop :=
  (sb_lagged s = false -> exists k, sb_queue s ++ option_list (fd_sending d) = drop k (fd_updates d)
     /\ (k <= length (fd_updates d))%nat /\ (sb_resync s = false -> Z.of_nat k <= sb_revision s))
  /\ (sb_resync s = false -> exists v, fd_viewer d = Some v /\ vw_revision v = sb_revision s).

Record feed_ok (d : FeedState) : Prop := {
  fo_published : published_ok d;
  fo_viewer : forall v, fd_viewer d = Some v -> viewer_ok d v;
  fo_sub : forall s, fd_sub d = Some s -> sub_ok d s;
}.

Lemma publish_next status sessions events sample c c' u :
  feed_publish status sessions events sample c = Some (c', u) ->
  cache_revision c' = cache_revision c + 1 /\ up_revision u = cache_revision c + 1
  /\ (forall v, view_of_cache c = Some v -> view_frame (Some v) (up_data u) = view_of_cache c').
Proof.
  unfold feed_publish. destruct (encodes _); [|done]. intros [= <- <-]. unfold cache_revision, view_of_cache. cbn.
  destruct (ca_latest c) as [sn|]; cbn; (split_and!; [done|done|]); [|done]. intros v [= <-]. by destruct sample.
Qed.

Lemma lookup_snoc {A} (l : list A) x i y :
  (l ++ [x]) !! i = Some y -> l !! i = Some y \/ i = length l /\ y = x.
Proof.
  intros H. apply lookup_app_Some in H as [H|[Hle H]]; [by left|right].
  apply list_lookup_singleton_Some in H as [Hz <-]. split; [lia|done].
Qed.

Lemma published_publish d status sessions events sample c u :
  published_ok d -> feed_publish status sessions events sample (fd_cache d) = Some (c, u) ->
  published_ok (mkFeed c (Some u) (fd_sub d) (fd_viewer d) (fd_caches d ++ [c]) (fd_updates d ++ [u])).
Proof.
  intros [Hlen Hcur Hlast Hca Hup Hnx Hse] Hp. apply publish_next in Hp as (Hc & Hu & Hv).
  constructor; cbn [fd_cache fd_sending fd_sub fd_viewer fd_caches fd_updates].
  - rewrite !length_app. cbn. lia.
  - rewrite length_app. cbn [length]. lia.
  - by rewrite last_snoc.
  - intros i c' H. apply lookup_snoc in H as [H|[-> ->]]; [by apply Hca|lia].
  - intros i u' H. apply lookup_snoc in H as [H|[-> ->]]; [by apply Hup|lia].
  - intros i ci cn ui v Hi Hn Hui. apply lookup_snoc in Hn as [Hn|[Hn ->]]; apply lookup_snoc in Hui as [Hui|[Hui ->]].
    + apply lookup_snoc in Hi as [Hi|[-> ->]]; [by apply (Hnx i)|]. apply lookup_lt_Some in Hn. lia.
    + apply lookup_lt_Some in Hn. lia.
    + apply lookup_lt_Some in Hui. lia.
    + apply lookup_snoc in Hi as [Hi|[-> ->]]; [|lia].
      assert (ci = fd_cache d) as ->; [|apply Hv]. rewrite <- Hlast, last_lookup, <- Hn. cbn. by rewrite Hi.
  - exists (length (fd_updates d)). by rewrite drop_app_length.
Qed.

Lemma viewer_publish d v c u sub sending viewer :
  viewer_ok d v -> viewer_ok (mkFeed c sending sub viewer (fd_caches d ++ [c]) (fd_updates d ++ [u])) v.
Proof.
  intros (i & ci & Hi & Hv & Hr). exists i, ci. split_and!; [|done..]. cbn. by apply lookup_app_l_Some.
Qed.

(** Delivering a bootstrap shows the cache. *)
Lemma boot_delivers d s u s' :
  feed_ok d -> sub_boot (fd_cache d) s = SsDeliver u s' ->
  exists v, view_frame (fd_viewer d) (up_data u) = Some v /\ view_of_cache (fd_cache d) = Some v
    /\ viewer_ok d v /\ vw_revision v = zlen (fd_caches d)
    /\ s' = mkSubscription (sb_queue s) (sb_lagged s) (zlen (fd_caches d)) false false.
Proof.
  intros [[_ Hcur Hlast _ _ _ _] _ _]. unfold sub_boot, feed_bootstrap. destruct (sb_resync s); [|done].
  unfold cache_revision in Hcur. destruct (ca_latest (fd_cache d)) as [sn|] eqn:El; [|done].
  destruct (encodes _); [|done]. intros [= <- <-]. cbn in Hcur. cbn [view_frame fr_history up_data up_revision].
  eexists. split; [done|]. unfold view_of_cache. rewrite El. split; [done|]. split_and!; [|done|by rewrite Hcur].
  destruct (fd_caches d) as [|c0 cs] eqn:Ec; [cbn in Hlast; rewrite <- Hlast in El; done|].
  rewrite <- Ec in *. exists (length (fd_caches d) - 1)%nat, (fd_cache d). split_and!.
  - rewrite <- Hlast, last_lookup. destruct (fd_caches d !! pred (length (fd_caches d))) as [x|] eqn:Ex.
    + cbn. rewrite <- Ex. f_equal. lia.
    + apply lookup_ge_None in Ex. rewrite Ec in Ex. cbn in Ex. lia.
  - unfold view_of_cache. by rewrite El.
  - cbn. rewrite Hcur, Ec. cbn [length]. lia.
Qed.

(** Delivering an update moves the viewer to the next revision. *)
Lemma recv_delivers d s u s' :
  feed_ok d -> fd_sub d = Some s -> sub_recv s = Some (SsDeliver u s') ->
  exists v, view_frame (fd_viewer d) (up_data u) = Some v /\ viewer_ok d v /\ vw_revision v = up_revision u
    /\ up_revision u = sb_revision s + 1.
Proof.
  intros [Hpub Hview Hsub] Hs. unfold sub_recv. destruct (sb_lagged s) eqn:El; [done|].
  destruct (sb_queue s) as [|u0 queue] eqn:Eq; [done|]. destruct (_ || _) eqn:Eb; [done|]. intros [= -> <-].
  apply orb_false_elim in Eb as [Er Eb]. bools. destruct (Hsub s Hs) as [Hq Hv].
  destruct (Hq El) as (k & Hk & Hle & Hkr). specialize (Hkr Er). destruct (Hv Er) as (v & Hvw & Hrev).
  rewrite Eq in Hk. cbn in Hk.
  assert (fd_updates d !! k = Some u) as Huk.
  { rewrite <- (Nat.add_0_r k), <- lookup_drop, <- Hk. done. }
  destruct (Hview v Hvw) as (i & c & Hi & Hcv & Hri). pose proof (po_updates d Hpub k u Huk) as Huk'.
  assert (k = S i) as -> by lia.
  destruct (fd_caches d !! S i) as [c'|] eqn:Ec'.
  2: { apply lookup_ge_None in Ec'. apply lookup_lt_Some in Huk. rewrite (po_lengths d Hpub) in Huk. lia. }
  pose proof (po_next d Hpub i c c' u v Hi Ec' Huk Hcv) as Hnext. rewrite Hvw, Hnext.
  pose proof (po_caches d Hpub (S i) c' Ec') as Hc'.
  unfold view_of_cache, cache_revision in *. destruct (ca_latest c') as [sn|] eqn:Esn; cbn in Hc'; [|lia].
  eexists. split; [done|]. split_and!; [|cbn; lia|lia]. exists (S i), c'. split_and!; [done| |cbn; lia].
  unfold view_of_cache. by rewrite Esn.
Qed.

Lemma feed_new_ok : feed_ok feed_new.
Proof.
  constructor; [|done..]. constructor; cbn; try done. by exists 0%nat.
Qed.

Lemma same_published d d' :
  fd_cache d' = fd_cache d -> fd_caches d' = fd_caches d -> fd_updates d' = fd_updates d -> fd_sending d' = fd_sending d ->
  published_ok d -> published_ok d'.
Proof. intros H1 H2 H3 H4 [? ? ? ? ? ? ?]. constructor; rewrite ?H1, ?H2, ?H3, ?H4; done. Qed.

Lemma deliver_ok d s r :
  feed_ok d -> fd_sub d = Some s ->
  (r = sub_boot (fd_cache d) s \/ sub_recv s = Some r) -> feed_ok (deliver d r).
Proof.
  intros Hok Hs Hr. pose proof Hok as [Hpub Hview Hsub]. destruct (Hsub s Hs) as [Hq Hv].
  destruct r as [s'|u s'|]; (constructor; [by apply (same_published d)| |]); cbn [deliver fd_viewer fd_sub]; try done.
  - intros s0 [= <-]. unfold sub_ok. cbn [fd_sending fd_updates fd_viewer].
    destruct Hr as [Hr|Hr].
    + unfold sub_boot in Hr. destruct (sb_resync s) eqn:Er.
      * destruct (feed_bootstrap _) as [[u|]|]; simplify_eq. cbn. split; [|done].
        intros El. destruct (Hq El) as (k & ? & ? & _). by exists k.
      * simplify_eq. cbn. by split.
    + unfold sub_recv in Hr. destruct (sb_lagged s) eqn:El.
      * simplify_eq. cbn. split; [|done]. intros _. destruct (po_sending d Hpub) as [k Hk].
        exists (Nat.min k (length (fd_updates d))). split_and!; [|lia|done]. rewrite Hk.
        destruct (decide (k <= length (fd_updates d))%nat); [by rewrite Nat.min_l|].
        rewrite Nat.min_r, !drop_ge by lia. done.
      * destruct (sb_queue s) as [|u queue] eqn:Eq; [done|]. destruct (_ || _) eqn:Eb; [|done]. simplify_eq. cbn.
        split; [|done]. intros _. destruct (Hq eq_refl) as (k & Hk & Hle & Hkr). exists (S k).
        assert (fd_updates d !! k = Some u) as Huk by (rewrite <- (Nat.add_0_r k), <- lookup_drop, <- Hk; done).
        pose proof (po_updates d Hpub k u Huk) as Hrev. apply lookup_lt_Some in Huk.
        split_and!; [by rewrite <- tail_drop, <- Hk|lia|]. intros Er. rewrite Er in Eb. cbn in Eb. bools. lia.
  - intros v Hvf. destruct Hr as [Hr|Hr].
    + symmetry in Hr. destruct (boot_delivers d s u s' Hok Hr) as (v' & Hv' & _ & Hvo & _). by simplify_eq.
    + destruct (recv_delivers d s u s' Hok Hs Hr) as (v' & Hv' & Hvo & _). by simplify_eq.
  - intros s0 [= <-]. unfold sub_ok. cbn [fd_sending fd_updates fd_viewer]. destruct Hr as [Hr|Hr].
    + symmetry in Hr. destruct (boot_delivers d s u s' Hok Hr) as (v' & -> & _ & _ & Hrev & ->). cbn. split; [|eauto].
      intros El. destruct (Hq El) as (k & ? & Hle & _). exists k. split_and!; [done|done|].
      rewrite (po_lengths d Hpub) in Hle. lia.
    + destruct (recv_delivers d s u s' Hok Hs Hr) as (v' & -> & _ & Hrev & Hnext).
      unfold sub_recv in Hr. destruct (sb_lagged s) eqn:El; [done|]. destruct (sb_queue s) as [|u0 queue] eqn:Eq; [done|].
      destruct (_ || _) eqn:Eb; [done|]. simplify_eq. cbn. split; [|eauto]. intros _.
      destruct (Hq eq_refl) as (k & Hk & Hle & Hkr). exists (S k). apply orb_false_elim in Eb as [Er Eb].
      assert (fd_updates d !! k = Some u) as Huk by (rewrite <- (Nat.add_0_r k), <- lookup_drop, <- Hk; done).
      apply lookup_lt_Some in Huk. specialize (Hkr Er).
      split_and!; [by rewrite <- tail_drop, <- Hk|lia|lia].
Qed.

Lemma step_feed_ok d d' : feed_ok d -> feed_step d d' -> feed_ok d'.
Proof.
  intros Hok Hstep. pose proof Hok as [Hpub Hview Hsub].
  destruct Hstep as [d status sessions events sample c u Hse Hp|d u Hse|d s lost kept Hs Hq|d|d|d s Hs Hw|d s r Hs Hw Hr].
  - constructor; [by eapply published_publish| |].
    + intros v Hv. apply viewer_publish. by apply Hview.
    + intros s Hs. destruct (Hsub s Hs) as [Hq Hv]. split; [|done]. intros El. cbn [fd_sending fd_updates].
      destruct (Hq El) as (k & Hk & Hle & Hkr). rewrite Hse, app_nil_r in Hk. exists k. split_and!.
      * rewrite drop_app_le by done. by rewrite Hk.
      * rewrite length_app. lia.
      * done.
  - constructor; [|done|].
    + destruct Hpub as [? ? ? ? ? ? Hx]. constructor; try done. exists (length (fd_updates d)). cbn. by rewrite drop_all.
    + intros s Hs. cbn in Hs. destruct (fd_sub d) as [s0|] eqn:E; [|done]. injection Hs as <-.
      destruct (Hsub s0 eq_refl) as [Hq Hv]. split; [|done]. intros El. destruct (Hq El) as (k & Hk & Hr).
      exists k. cbn. rewrite app_nil_r. split; [|done]. by rewrite <- Hk, Hse.
  - constructor; [by apply (same_published d)|done|]. intros s0 [= <-]. destruct (Hsub s Hs) as [_ Hv]. by split.
  - constructor; [by apply (same_published d)|done|]. intros s0 [= <-]. split; [|done]. intros _. cbn.
    destruct (po_sending d Hpub) as [k Hk]. exists (Nat.min k (length (fd_updates d))). split_and!; [|lia|done].
    rewrite Hk. destruct (decide (k <= length (fd_updates d))%nat); [by rewrite Nat.min_l|].
    rewrite Nat.min_r, !drop_ge by lia. done.
  - constructor; [by apply (same_published d)|done|done].
  - eapply deliver_ok; eauto.
  - eapply deliver_ok; eauto.
Qed.

Lemma reached_feed_ok d : feed_reached d -> feed_ok d.
Proof. induction 1 as [|d d' _ IH Hs]; [apply feed_new_ok|by eapply step_feed_ok]. Qed.

(** C30: Through any interleaving of publications, bootstraps, deliveries and losses, what
    a viewer has put together is exactly the cache of the revision it shows; and when
    it did not fall behind, need not resync and has nothing to come, it is the newest
    one. *)
Theorem viewer_is_replica (d : FeedState) (v : Viewer) :
  feed_reached d -> fd_viewer d = Some v ->
  (exists c, fd_caches d !! Z.to_nat (vw_revision v - 1) = Some c /\ view_of_cache c = Some v)
  /\ (forall s, fd_sub d = Some s -> sb_lagged s = false -> sb_resync s = false -> sb_queue s = [] ->
       fd_sending d = None -> view_of_cache (fd_cache d) = Some v).
Proof.
  intros Hr Hv. apply reached_feed_ok in Hr as [Hpub Hview Hsub].
  destruct (Hview v Hv) as (i & c & Hi & Hc & Hrev). split.
  - exists c. split; [|done]. by replace (Z.to_nat (vw_revision v - 1)) with i by lia.
  - intros s Hs El Er Eq Ese. destruct (Hsub s Hs) as [Hq Hvs]. destruct (Hq El) as (k & Hk & Hle & Hkr).
    destruct (Hvs Er) as (v' & Hv' & Hrs). simplify_eq. specialize (Hkr Er).
    rewrite Eq, Ese in Hk. symmetry in Hk. cbn in Hk. apply drop_nil_inv in Hk.
    rewrite (po_lengths d Hpub) in *. apply lookup_lt_Some in Hi as Hlt.
    assert (fd_cache d = c) as ->; [|done]. rewrite <- (po_last d Hpub), last_lookup.
    replace (pred (length (fd_caches d))) with i by lia. by rewrite Hi.
Qed.

(** No step shows an older revision than the one shown. *)
Theorem viewer_never_back (d d' : FeedState) (v v' : Viewer) :
  feed_reached d -> feed_step d d' -> fd_viewer d = Some v -> fd_viewer d' = Some v' -> vw_revision v <= vw_revision v'.
Proof.
  intros Hr Hstep Hv Hv'. pose proof (reached_feed_ok d Hr) as Hok. pose proof Hok as [Hpub Hview Hsub].
  destruct (Hview v Hv) as (i & c & Hi & _ & Hrev). apply lookup_lt_Some in Hi.
  assert (forall r s, fd_sub d = Some s -> (r = sub_boot (fd_cache d) s \/ sub_recv s = Some r) ->
    fd_viewer (deliver d r) = Some v' -> vw_revision v <= vw_revision v') as Hd.
  { intros r s Hs Hx. destruct r as [s'|u s'|]; cbn; [naive_solver| |done]. intros Hvf. destruct Hx as [Hx|Hx].
    - symmetry in Hx. destruct (boot_delivers d s u s' Hok Hx) as (x & Hx1 & _ & _ & Hx2 & _). simplify_eq. lia.
    - destruct (recv_delivers d s u s' Hok Hs Hx) as (x & Hx1 & _ & Hx2 & Hx3). simplify_eq.
      assert (sb_resync s = false) as Er.
      { unfold sub_recv in Hx. destruct (sb_lagged s); [done|]. destruct (sb_queue s); [done|]. by destruct (sb_resync s). }
      destruct (Hsub s Hs) as [_ Hvs]. destruct (Hvs Er) as (y & Hy & Hyr). simplify_eq. lia. }
  destruct Hstep; try (cbn in Hv'; simplify_eq; lia); try done; eapply Hd; eauto.
Qed.
End feed.

(** ** The publisher *)

Record Capture := mkCapture {
  cp_status : StatusView;
  cp_sessions : list SessionView;
  cp_events : list LogEvent;
}.

Definition row_key (listener endpoint : string) : string := fmt [listener; "|"; endpoint].

(** The rows of a status with the key of each. *)
Definition keyed_rows (status : StatusView) : list (string * string * UpstreamRow) :=
  flat_map (fun l => map (fun u => (row_key (lr_name l) (ur_endpoint u), lr_name l, u)) (lr_upstreams l)) (st_listeners status).

Definition transitions (previous : gmap string string) (status : StatusView) : list LogEvent :=
  omap (fun r : string * string * UpstreamRow =>
      let '(key, listener, u) := r in
      before ← previous !! key;
      e ← transition_event (ur_name u) before (ur_status u);
      Some (event_upstream (ur_endpoint u) (event_listener listener e))) (keyed_rows status).

(** One attempt of [capture], with the version it took: what it reads, at [t_read], and
    its completion, at [t_end]; [None] for one that must be repeated. *)
Definition capture_attempt (now now_ms generation last_event : Z) (previous : gmap string string) (app : App)
    (t_read t_end : Telemetry) : option Capture * Telemetry :=
  let sessions := session_views t_read app in
  let counts := foldl (fun counts s => count_key counts (sw_listener s, sw_config_generation s)) ∅ sessions in
  let status := (status_with_session_counts now now_ms t_read counts app).1 in
  let '(events, t) := capture_events now_ms generation last_event (transitions previous status) t_end in
  (mkCapture status sessions <$> events, t).

Record Publisher := mkPublisher {
  pb_previous : gmap string string;
  pb_last_event : Z;
  pb_next_sample : Z;
  pb_next_publish : Z;
}.

Definition publisher_new (now : Z) : Publisher := mkPublisher ∅ 0 now now.

(** When the publisher captures next: it waits for a sample or a change, and then
    for the interval between two publications. *)
Definition publish_at (changed_at : option Z) (p : Publisher) : Z :=
  Z.max (pb_next_publish p) (map_or (pb_next_sample p) (Z.min (pb_next_sample p)) changed_at).

Section publisher.
Context (encodes : Frame -> bool).

(** The rest of a turn of [run] after a capture, at [now]; [now'] when it ends. *)
Definition publish_turn (now now' : Z) (cap : Capture) (p : Publisher) (t : Telemetry) (c : Cache)
  : Publisher * Telemetry * Cache * option Update :=
  let sample_due := pb_next_sample p <=? now in
  let rows := keyed_rows (cp_status cap) in
  let previous := foldl (fun m (r : string * string * UpstreamRow) => <[r.1.1 := ur_status r.2]> m) (pb_previous p) rows in
  let upstreams :=
    foldl (fun (m : gmap string UpstreamSample) (r : string * string * UpstreamRow) =>
        <[r.1.1 := mkUpstreamSample (ur_sessions r.2) (ur_head_block r.2) (k_blocks_total (ur_counters r.2))
                     (k_bytes_total (ur_counters r.2)) (ur_status r.2)]> m) ∅ rows in
  let sample := if sample_due then Some (mkSample (st_now_ms (cp_status cap)) upstreams) else None in
  let t := match sample with Some s => record_sample s t | None => t end in
  let through := map_or (pb_last_event p) ev_id (last (cp_events cap)) in
  let '(last_event, c, u) :=
    match feed_publish encodes (cp_status cap) (cp_sessions cap) (cp_events cap) sample c with
    | Some (c, u) => (through, c, Some u)
    | None => (pb_last_event p, c, None)
    end in
  (mkPublisher previous last_event
     (if sample_due then now' + SAMPLE_INTERVAL else pb_next_sample p) (now' + MIN_PUBLISH_INTERVAL), t, c, u).

(** The publisher beside the changes of the process; [out]: the events of the frames
    published so far; [marks]: how many events had been emitted when each of these
    frames was captured. *)
Inductive publishing : Shared -> Publisher -> Cache -> list Z -> list LogEvent -> Prop :=
| publishing_new now_ms at_ : publishing (mkShared (telemetry_new now_ms) []) (publisher_new at_) cache_new [] []
| publishing_act a s s' p c marks out :
    publishing s p c marks out -> act_step a s = Some s' -> publishing s' p c marks out
| publishing_turn s p c marks out now now' now_ms generation app t_read cap t1 p' t2 c' u :
    publishing s p c marks out ->
    capture_attempt now now_ms generation (pb_last_event p) (pb_previous p) app t_read (sh_store s) = (Some cap, t1) ->
    publish_turn now now' cap p t1 c = (p', t2, c', u) ->
    publishing (mkShared t2 (sh_open s)) p' c'
      (marks ++ map_or [] (fun _ => [zlen (tl_sent t1)]) u) (out ++ map_or [] (fun u => fr_events (up_data u)) u).

(** *** What the frames carry

    Event [i] (from 0) is in time for the frames of [marks] when it was still among
    the newest [MAX_EVENTS] at the first capture after it. *)
Definition in_time (marks : list Z) (i : nat) : bool :=
  match find (fun n => Z.of_nat i <? n) marks with
  | Some n => n <=? Z.of_nat i + MAX_EVENTS
  | None => false
  end.

(** The events of [sent], the first of them being event [i], that are in time. *)
Fixpoint carried (marks : list Z) (i : nat) (sent : list LogEvent) : list LogEvent :=
  match sent with
  | [] => []
  | e :: sent => (if in_time marks i then [e] else []) ++ carried marks (S i) sent
  end.

Lemma carried_app marks i l l' : carried marks i (l ++ l') = carried marks i l ++ carried marks (i + length l) l'.
Proof.
  revert i. induction l as [|e l IH]; intros i; cbn; [by rewrite Nat.add_0_r|].
  by rewrite IH, <- app_assoc, Nat.add_succ_r.
Qed.

Lemma carried_ext marks marks' i l :
  (forall j, (i <= j < i + length l)%nat -> in_time marks j = in_time marks' j) -> carried marks i l = carried marks' i l.
Proof.
  revert i. induction l as [|e l IH]; intros i Hj; cbn; [done|]. rewrite (Hj i) by (cbn; lia).
  f_equal. apply IH. intros j Hr. apply Hj. cbn. lia.
Qed.

(** Where being in time is being late enough. *)
Lemma carried_from marks i k l :
  (forall j, (i <= j < i + length l)%nat -> in_time marks j = bool_decide (k <= j)%nat) -> carried marks i l = drop (k - i) l.
Proof.
  revert i. induction l as [|e l IH]; intros i Hj; cbn [carried]; [by rewrite drop_nil|].
  rewrite (Hj i), IH by (cbn; first [lia|intros j Hr; apply Hj; cbn; lia]).
  case_bool_decide.
  - replace (k - i)%nat with 0%nat by lia. replace (k - S i)%nat with 0%nat by lia. done.
  - replace (k - i)%nat with (S (k - S i)) by lia. done.
Qed.

(** The marks up to [last], which is the newest. *)
Definition marks_to (marks : list Z) (last : Z) : Prop :=
  Forall (fun n => n <= last) marks /\ (last = 0 \/ last ∈ marks).

Lemma find_past marks last i : marks_to marks last -> last <= Z.of_nat i -> find (fun n => Z.of_nat i <? n) marks = None.
Proof.
  intros [Hle _]. induction Hle as [|n marks Hn Hle IH]; intros Hi; cbn; [done|].
  destruct (Z.of_nat i <? n) eqn:E; bools; [lia|auto].
Qed.

Lemma late_past marks last i : marks_to marks last -> last <= Z.of_nat i -> in_time marks i = false.
Proof. intros Hm Hi. unfold in_time. by rewrite (find_past marks last). Qed.

Lemma find_before marks last i :
  marks_to marks last -> Z.of_nat i < last -> exists n, find (fun n => Z.of_nat i <? n) marks = Some n.
Proof.
  intros [_ Hin] Hi. destruct (find _ marks) as [n|] eqn:E; [eauto|]. destruct Hin as [|Hin]; [lia|].
  apply list_elem_of_In in Hin. apply (find_none _ _ E) in Hin. bools. lia.
Qed.

Lemma find_app {A} (f : A -> bool) l l' : find f (l ++ l') = match find f l with Some x => Some x | None => find f l' end.
Proof. induction l as [|x l IH]; cbn; [done|]. by destruct (f x). Qed.

(** Events emitted later than the last capture are not carried. *)
Lemma carried_grow marks last l new :
  marks_to marks last -> last <= zlen l -> carried marks 0 (l ++ new) = carried marks 0 l.
Proof.
  intros Hm Hl. rewrite carried_app, (carried_from _ (0 + length l) (length l + length new)).
  - rewrite drop_ge by lia. apply app_nil_r.
  - intros j Hj. rewrite (late_past marks last) by (done || lia). rewrite bool_decide_false; [done|lia].
Qed.

Lemma marks_next marks last n : marks_to marks last -> last <= n -> marks_to (marks ++ [n]) n.
Proof.
  intros [Hle _] Hn. split; [|right; set_solver]. apply Forall_app. split; [|by constructor].
  eapply Forall_impl; [exact Hle|]. cbn. lia.
Qed.

(** A frame adds what was emitted since the last one and is still in the log. *)
Lemma carried_next marks last l :
  marks_to marks last -> 0 <= last <= zlen l ->
  carried (marks ++ [zlen l]) 0 l
  = carried marks 0 l ++ drop (Nat.max (Z.to_nat last) (length l - Z.to_nat MAX_EVENTS)) l.
Proof.
  intros Hm Hl. rewrite <- (take_drop (Z.to_nat last) l) at 2 3. rewrite !carried_app, length_take, !Nat.add_0_l, Nat.min_l by lia.
  rewrite (carried_from marks (Z.to_nat last) (length l)).
  2: { intros j Hj. rewrite length_drop in Hj. rewrite (late_past marks last) by (done || lia). rewrite bool_decide_false; [done|lia]. }
  rewrite (drop_ge (drop _ l)), app_nil_r by (rewrite length_drop; lia). f_equal.
  - apply carried_ext. intros j Hj. rewrite length_take in Hj. unfold in_time. rewrite find_app.
    destruct (find_before marks last j) as [n ->]; [done|lia|done].
  - rewrite (carried_from _ (Z.to_nat last) (length l - Z.to_nat MAX_EVENTS)), drop_drop; [f_equal; lia|].
    intros j Hj. rewrite length_drop in Hj. unfold in_time. rewrite find_app, (find_past marks last) by (done || lia).
    cbn. replace (Z.of_nat j <? zlen l) with true by lia. unfold MAX_EVENTS. case_bool_decide; lia.
Qed.

(** Nothing is left out when every event is in time. *)
Lemma carried_all marks last l :
  marks_to marks last -> 0 <= last <= zlen l -> (forall i, Z.of_nat i < last -> in_time marks i = true) ->
  carried marks 0 l = take (Z.to_nat last) l.
Proof.
  intros Hm Hl Hall. rewrite <- (take_drop (Z.to_nat last) l) at 1. rewrite (carried_grow _ last); [|done|rewrite length_take; lia].
  rewrite (carried_from _ _ 0); [done|]. intros j Hj. rewrite length_take in Hj. rewrite Hall by lia. by rewrite bool_decide_true by lia.
Qed.

Lemma emits_sent now_ms es t : exists new, tl_sent (foldl (fun t e => emit_body now_ms e t) t es) = tl_sent t ++ new.
Proof.
  revert t. induction es as [|e es IH]; intros t; cbn [foldl]; [exists []; by rewrite app_nil_r|].
  destruct (IH (emit_body now_ms e t)) as [new Hn]. rewrite Hn. unfold emit_body, append_event.
  cbn [tl_sent send_event]. rewrite <- app_assoc. eauto.
Qed.

Lemma act_sent a s s' : act_step a s = Some s' -> exists new, tl_sent (sh_store s') = tl_sent (sh_store s) ++ new.
Proof.
  assert (forall t : Telemetry, exists new, tl_sent t = tl_sent t ++ new) as Hsame by (intros t; exists []; by rewrite app_nil_r).
  destruct a as [ch|i|i|q]; cbn [act_step]; intros Hs.
  - simplify_eq. exact (Hsame (sh_store s)).
  - destruct (sh_open s !! i) as [[ch|]|]; simplify_eq. cbn [sh_store]. destruct ch; try exact (Hsame (sh_store s)).
    exact (emits_sent now_ms [e] (sh_store s)).
  - destruct (sh_open s !! i) as [[ch|]|]; simplify_eq. exact (Hsame (sh_store s)).
  - simplify_eq. cbn [sh_store]. destruct q; exact (Hsame (sh_store s)).
Qed.

Lemma capture_facts now_ms generation after trs s events t1 :
  reached s -> capture_events now_ms generation after trs (sh_store s) = (Some events, t1) ->
  reached (mkShared t1 (sh_open s)) /\ (exists new, tl_sent t1 = tl_sent (sh_store s) ++ new)
  /\ events = events_after after t1.
Proof.
  intros Hr Ee. pose proof (reached_capture now_ms generation after trs s Hr) as Hr1. rewrite Ee in Hr1.
  split; [exact Hr1|]. unfold capture_events in Ee. destruct (_ || _); [done|]. injection Ee as <- <-.
  split; [apply emits_sent|done].
Qed.

Lemma turn_facts now now' cap p t1 open_ c p' t2 c' u :
  reached (mkShared t1 open_) -> publish_turn now now' cap p t1 c = (p', t2, c', u) ->
  reached (mkShared t2 open_) /\ tl_sent t2 = tl_sent t1
  /\ (u = None /\ pb_last_event p' = pb_last_event p
      \/ is_some u = true /\ map_or [] (fun u => fr_events (up_data u)) u = cp_events cap
         /\ pb_last_event p' = map_or (pb_last_event p) ev_id (last (cp_events cap))).
Proof.
  intros Hr. unfold publish_turn. set (sample := if pb_next_sample p <=? now then _ else None). clearbody sample.
  assert (reached (mkShared (match sample with Some x => record_sample x t1 | None => t1 end) open_)
    /\ tl_sent (match sample with Some x => record_sample x t1 | None => t1 end) = tl_sent t1) as [H1 H2].
  { destruct sample as [x|]; [|done]. split; [|done]. by apply (reached_act (AcQuick (QuSample x)) (mkShared t1 open_)). }
  destruct (feed_publish encodes _ _ _ _ c) as [[c0 u0]|] eqn:Ef; intros [= <- <- <- <-]; cbn [pb_last_event].
  - split_and!; [exact H1|exact H2|right]. split_and!; [done| |done].
    unfold feed_publish in Ef. destruct (negb _); [done|]. by injection Ef as <- <-.
  - split_and!; [exact H1|exact H2|by left].
Qed.

(** A capture and the rest of the turn. *)
Lemma attempt_facts now now_ms generation p app t_read s cap t1 :
  reached s ->
  capture_attempt now now_ms generation (pb_last_event p) (pb_previous p) app t_read (sh_store s) = (Some cap, t1) ->
  reached (mkShared t1 (sh_open s)) /\ (exists new, tl_sent t1 = tl_sent (sh_store s) ++ new)
  /\ cp_events cap = events_after (pb_last_event p) t1.
Proof.
  intros Hr Hc. unfold capture_attempt in Hc.
  destruct (capture_events _ _ _ _ (sh_store s)) as [[events|] t'] eqn:Ee; [|done]. injection Hc as <- ->.
  by apply capture_facts in Ee.
Qed.

Lemma publishing_reached s p c marks out : publishing s p c marks out -> reached s.
Proof.
  induction 1 as [now_ms at_|a s s' p c marks out Hp IH Hs|s p c marks out now now' now_ms g app tr cap t1 p' t2 c' u Hp IH Hc Ht].
  - apply reached_new.
  - by eapply reached_act.
  - destruct (attempt_facts _ _ _ _ _ _ _ _ _ IH Hc) as [Hr _]. by destruct (turn_facts _ _ _ _ _ _ _ _ _ _ _ Hr Ht) as [? _].
Qed.

(** The watermark after a frame is the number of events emitted. *)
Lemma through_all s seen t1 :
  reached (mkShared t1 s) -> zlen (tl_sent t1) < 2 ^ 64 - 1 -> 0 <= seen <= zlen (tl_sent t1) ->
  let events := drop (Nat.max (Z.to_nat seen) (length (tl_sent t1) - Z.to_nat MAX_EVENTS)) (tl_sent t1) in
  events_after seen t1 = events /\ map_or seen ev_id (last events) = zlen (tl_sent t1).
Proof.
  intros Hr Hlt Hle. destruct (log_exact _ seen Hr ltac:(lia) Hlt) as [Hafter Hids]. cbn [sh_store] in *.
  split; [exact Hafter|]. destruct (last _) as [e|] eqn:El; cbn.
  - rewrite last_lookup, lookup_drop, length_drop in El. rewrite (Hids _ _ El). apply lookup_lt_Some in El. lia.
  - apply last_None in El. apply drop_nil_inv in El. unfold MAX_EVENTS in El. lia.
Qed.

(** C33: The frames together carry, in order and each once, exactly the events (the
    ones derived from status changes included) that were still among the newest 500
    when the first frame published after them was captured.  So a frame that could
    not be encoded loses nothing by itself, and where no more than 500 events lie
    between an event and the next capture that is published, the frames carry every
    event up to the watermark of the publisher. *)
Theorem events_published_once (s : Shared) (p : Publisher) (c : Cache) (marks : list Z) (out : list LogEvent) :
  publishing s p c marks out -> zlen (tl_sent (sh_store s)) < 2 ^ 64 - 1 ->
  out = carried marks 0 (tl_sent (sh_store s))
  /\ marks_to marks (pb_last_event p) /\ 0 <= pb_last_event p <= zlen (tl_sent (sh_store s))
  /\ ((forall i, Z.of_nat i < pb_last_event p -> in_time marks i = true) ->
      out = take (Z.to_nat (pb_last_event p)) (tl_sent (sh_store s))).
Proof.
  intros Hp Hlt.
  assert (out = carried marks 0 (tl_sent (sh_store s))
    /\ marks_to marks (pb_last_event p) /\ 0 <= pb_last_event p <= zlen (tl_sent (sh_store s))) as (-> & ? & ?).
  2: { split; [done|]. split; [done|]. split; [done|]. by apply carried_all. }
  induction Hp as [now_ms at_|a s s' p c marks out Hp IH Hs|s p c marks out now now' now_ms g app tr cap t1 p' t2 c' u Hp IH Hc Ht].
  - split; [done|]. by split; [split; [|left]|].
  - destruct (act_sent a s s' Hs) as [new Hn]. rewrite Hn, length_app in *. destruct IH as (-> & Hm & Hle); [lia|].
    split; [by rewrite (carried_grow _ (pb_last_event p)) by (done || lia)|]. split; [done|lia].
  - pose proof (publishing_reached _ _ _ _ _ Hp) as Hr.
    destruct (attempt_facts _ _ _ _ _ _ _ _ _ Hr Hc) as (Hr1 & [new Hn] & Hev).
    destruct (turn_facts _ _ _ _ _ _ _ _ _ _ _ Hr1 Ht) as (_ & Hs2 & Hcase).
    cbn [sh_store] in *. rewrite Hs2 in *.
    assert (zlen (tl_sent (sh_store s)) <= zlen (tl_sent t1)) as Hlen by (rewrite Hn, length_app; lia).
    destruct IH as (-> & Hm & Hle); [lia|].
    rewrite <- (carried_grow marks _ (tl_sent (sh_store s)) new) by (done || lia). rewrite <- Hn.
    destruct Hcase as [(-> & ->)|(Hu & -> & ->)].
    + cbn [map_or]. rewrite !app_nil_r. split; [done|]. split; [done|lia].
    + destruct u as [u|]; [cbn [map_or]; clear Hu|done].
      destruct (through_all _ (pb_last_event p) _ Hr1 Hlt ltac:(lia)) as [Hd Ht']. rewrite Hev, Hd in *. rewrite Ht'.
      rewrite (carried_next marks (pb_last_event p)) by (done || lia).
      split; [done|]. split; [apply (marks_next _ (pb_last_event p)); [done|lia]|lia].
Qed.
End publisher.

(** ** Witnesses *)

Definition every (f : Frame) : bool := true.

Definition demo_status : StatusView := (status_view 0 7 (wo_tele op_world) op_app).1.

(** The cache is updated, a viewer subscribes and takes a bootstrap, the update is
    sent, and the viewer skips it. *)
Definition demo_feed : FeedState :=
  let c := (match feed_publish every demo_status [] [] None cache_new with Some r => r | None => (cache_new, mkUpdate 0 (mkFrame 0 false demo_status [] [] None None)) end) in
  let d := mkFeed c.1 (Some c.2) None None [c.1] [c.2] in
  let d := mkFeed (fd_cache d) (fd_sending d) (Some feed_subscribe) None (fd_caches d) (fd_updates d) in
  let d := deliver d (sub_boot every (fd_cache d) feed_subscribe) in
  mkFeed (fd_cache d) None (queue_update c.2 <$> fd_sub d) (fd_viewer d) (fd_caches d) (fd_updates d).

Lemma demo_feed_reached : feed_reached every demo_feed.
Proof.
  unfold demo_feed. eapply feed_reached_step; [|apply (fs_send every _ _)]; [|reflexivity].
  eapply feed_reached_step; [|apply (fs_boot every _ feed_subscribe)]; [|reflexivity..].
  eapply feed_reached_step; [|apply fs_subscribe].
  eapply feed_reached_step; [apply feed_reached_new|]. exact (fs_publish every feed_new demo_status [] [] None _ _ eq_refl eq_refl).
Qed.

Lemma viewer_is_replica_witness :
  exists v c, fd_viewer demo_feed = Some v /\ vw_revision v = 1 /\ fd_caches demo_feed !! 0%nat = Some c /\ view_of_cache c = Some v.
Proof.
  eexists. destruct (viewer_is_replica every demo_feed _ demo_feed_reached eq_refl) as [(c & Hc & Hv) _].
  exists c. split; [reflexivity|]. split; [reflexivity|]. split; [exact Hc|exact Hv].
Defined.

Lemma acts_publishing l s s' p c out :
  publishing every s p c [] out -> acts l s = Some s' -> publishing every s' p c [] out.
Proof.
  revert s. induction l as [|a l IH]; intros s Hp Ha; cbn [acts] in Ha; [by simplify_eq|].
  destruct (act_step a s) as [s1|] eqn:E; [|done]. eapply IH; [|exact Ha]. by eapply publishing_act.
Qed.

Definition demo_attempt : option Capture * Telemetry :=
  capture_attempt 0 8 4 0 ∅ op_app (sh_store tele_state) (sh_store tele_state).

Definition demo_turn (cap : Capture) : Publisher * Telemetry * Cache * option Update :=
  publish_turn every 0 1 cap (publisher_new 0) demo_attempt.2 cache_new.

Lemma turn_sent (encodes : Frame -> bool) now now' cap p t1 c p' t2 c' u :
  publish_turn encodes now now' cap p t1 c = (p', t2, c', u) -> tl_sent t2 = tl_sent t1.
Proof.
  unfold publish_turn. destruct (feed_publish _ _ _ _ _ _) as [[c0 u0]|]; intros [= _ <- _ _]; by destruct (_ <=? _).
Qed.

(** The turn with the capture that was made. *)
Definition demo_out : list LogEvent :=
  match demo_attempt.1 with
  | Some cap => map_or [] (fun u => fr_events (up_data u)) (demo_turn cap).2
  | None => []
  end.

Lemma last_id d l x : map ev_id l = [x] -> map_or d ev_id (last l) = x.
Proof. destruct l as [|e [|e' l]]; cbn; congruence. Qed.

Lemma events_published_once_witness :
  exists p s marks, demo_out = carried marks 0 (tl_sent s) /\ demo_out = take (Z.to_nat (pb_last_event p)) (tl_sent s)
    /\ map ev_id demo_out = [1].
Proof.
  assert (publishing every tele_state (publisher_new 0) cache_new [] []) as Hp.
  { apply (acts_publishing tele_acts tele_start); [apply publishing_new|vm_compute; reflexivity]. }
  destruct (is_some_ex demo_attempt.1) as [cap Hcap]; [vm_compute; reflexivity|].
  assert (demo_attempt = (Some cap, demo_attempt.2)) as Ha by (rewrite <- Hcap; apply surjective_pairing).
  assert (demo_out = map_or [] (fun u => fr_events (up_data u)) (demo_turn cap).2) as Ho by (unfold demo_out; by rewrite Hcap).
  assert (map ev_id (cp_events cap) = [1]) as He.
  { assert (map ev_id (map_or [] cp_events demo_attempt.1) = [1]) as H by (vm_compute; reflexivity). by rewrite Hcap in H. }
  destruct (demo_turn cap) as [[[p' t2] c'] u] eqn:Et. cbn [snd] in Ho.
  destruct (attempt_facts _ _ _ (publisher_new 0) _ _ _ _ _ (publishing_reached _ _ _ _ _ _ Hp) Ha) as [Hr _].
  destruct (turn_facts every 0 1 cap (publisher_new 0) demo_attempt.2 _ cache_new p' t2 c' u Hr Et) as (_ & _ & [[-> _]|(Hu & _ & Hl)]).
  { assert (map ev_id demo_out = [1]) as H by (vm_compute; reflexivity). by rewrite Ho in H. }
  assert (tl_sent t2 = tl_sent demo_attempt.2) as Hsent by (unfold demo_turn in Et; exact (turn_sent _ _ _ _ _ _ _ _ _ _ _ Et)).
  pose proof (publishing_turn every tele_state (publisher_new 0) cache_new [] [] 0 1 8 4 op_app (sh_store tele_state) cap
    demo_attempt.2 p' t2 c' u Hp Ha Et) as Hpub.
  destruct (events_published_once every _ p' c' _ _ Hpub) as (Hc & _ & _ & Hall).
  { cbn [sh_store]. rewrite Hsent. vm_compute. reflexivity. }
  eexists p', t2, _. rewrite Ho. split; [exact Hc|]. split.
  - apply Hall. intros i Hi. destruct u as [u|]; [|discriminate Hu].
    rewrite Hl, (last_id _ _ _ He) in Hi. assert (i = 0%nat) as -> by (clear -Hi; lia). vm_compute. reflexivity.
  - rewrite <- Ho. vm_compute. reflexivity.
Defined.
