(* ===== verification/Runtime.v ===== *)
(** * Replacing the configuration while the router runs

    Models [src/src/runtime.rs] and [src/src/runtime/config.rs]: the listener
    generations, preparing a configuration (validation, certificates, bind
    addresses), publishing it, accepting connections, retiring generations that
    drained, shutdown, and the change requests of the configuration editor.

    A generation is shared by [Arc]: it has an identity, a number, and a place in
    a store ([w_gens]) that the active and draining lists, the bindings, the
    published application state and the connections refer to.  The counters that
    an upstream shares between generations have an identity as well: the
    generation that made them and the endpoint.

    Every file, name lookup, bind and clock reading is of the environment
    [RuntimeEnv] of the step that makes it.  What other tasks do between two
    awaits of a change, accepting and ending connections and recording
    observations, is a step of its own. *)

From S2P Require Import Prelude Wire Models Monitor Coverage View.
From S2P Require Import ApiRoute ApiPick ApiDirectory Abi Tls ApiFlow Config.

Definition SocketAddr : Type := string * Z.

(** What does not depend on the moment: the pure third-party functions. *)
Class RuntimeBase := {
  base : ConfigEnv;
  base_abi :: AbiEnv;
  json_from_str : string -> option JsonValue;
  json_to_pretty : JsonValue -> string;
  config_from_str : string -> option ServerConfig;
  hash_hex : string -> string;
}.

(** What a step finds: files, certificates when the configuration is checked and
    when they are loaded, the control token variable, name lookups and binds. *)
Class RuntimeEnv `{RuntimeBase} := {
  re_read : string -> option string;
  re_disk : @Disk (@cert base) (@private_key base) (@certified_key base);
  re_load_disk : @Disk (@cert base) (@private_key base) (@certified_key base);
  re_token : option string;
  re_lookup : string -> option (list SocketAddr);
  re_bind : list SocketAddr -> option SocketAddr;
  re_now : Z;
}.

(** The configuration checks, with the files of this moment. *)
#[export] Instance step_env `{RuntimeEnv} : ConfigEnv := {
  uri_parse := @uri_parse base;
  authority_parse := @authority_parse base;
  header_value_ok := @header_value_ok base;
  read_to_string := re_read;
  abi_from_json := @abi_from_json base;
  cert := @cert base; private_key := @private_key base; certified_key := @certified_key base;
  tls_disk := re_disk;
}.

Definition MAX_HTTP_CONNECTIONS : Z := 256.

(** ** Equality of configurations

    [ApiEndpoint] compares its host without case; every other type compares its
    fields. *)

#[export] Instance StitchingPolicy_eq_dec : EqDecision StitchingPolicy.
Proof. solve_decision. Defined.
#[export] Instance BlockFailureQuarantine_eq_dec : EqDecision BlockFailureQuarantine.
Proof. solve_decision. Defined.
#[export] Instance Server_eq_dec : EqDecision Server.
Proof. solve_decision. Defined.
#[export] Instance ChainApiCors_eq_dec : EqDecision ChainApiCors.
Proof. solve_decision. Defined.
#[export] Instance ChainApiConfig_eq_dec : EqDecision ChainApiConfig.
Proof. solve_decision. Defined.
#[export] Instance ResolvedListener_eq_dec : EqDecision ResolvedListener.
Proof. solve_decision. Defined.
#[export] Instance DashboardConfig_eq_dec : EqDecision DashboardConfig.
Proof. solve_decision. Defined.

Definition au_key (u : ApiUpstream) :=
  (au_index u, au_name u, au_endpoint u, au_role u, ae_key (au_api u), au_priority u, au_weight u, au_range u).

Definition chain_key (c : ResolvedChainApi) :=
  (ra_listener c, ra_listen_address c, ra_bind c, ra_cfg c, ra_push c, map au_key (ra_upstreams c), ra_tls c).

(** ** The data *)

Section data.
Context `{RuntimeBase}.

(** [Generation]; [ctx], [api] and [info] by the fields that differ.
    [g_permits] and [g_api_permits] are the available permits of the two
    connection semaphores. *)
Record Generation := mkGen {
  g_resolved : ResolvedListener;
  g_chain_config : option ResolvedChainApi;
  g_tls_config : option TlsConfig;
  g_static_config : StaticConfig;
  g_limits : ProxyLimits;
  g_live_lag : Z;
  g_revision : Z;
  g_tls : option (@CertStore (@certified_key base));
  g_api_tls : option (@CertStore (@certified_key base));
  g_states : gmap string ServerState;
  g_counters : gmap string (nat * string);
  g_hub : FleetHub;
  g_permits : Z;
  g_api_permits : Z;
  g_accepted : Z;
  g_rejected : Z;
  g_api_rejected : Z;
  g_started : bool;
}.

Inductive Binding := BShip (g : nat) | BChain (g : nat) | BDashboard.

(** [AppState], by the generations whose [info] it holds. *)
Record AppState := mkApp {
  ap_config_revision : Z;
  ap_draining : list nat;
  ap_listeners : list nat;
  ap_health : list nat;
  ap_dashboard : bool;
  ap_control_token : option string;
  ap_allowed_hosts : list string;
}.

Record Live := mkLive {
  lv_app : AppState;
  lv_bindings : gmap SocketAddr Binding;
  lv_draining : list nat;
}.

Record Engine := mkEngine {
  en_revision : Z;
  en_config : option ServerConfig;
  en_source : string;
  en_active : list nat;
  en_draining : list nat;
  en_sockets : gset SocketAddr;
  en_stopping : bool;
}.

(** The generations that are new come with the number they will have. *)
Record Prepared := mkPrepared {
  pr_config : ServerConfig;
  pr_token : option string;
  pr_active : list nat;
  pr_fresh : list (nat * Generation);
  pr_bindings : gmap SocketAddr Binding;
  pr_sockets : list SocketAddr;
}.

(** An established connection, which holds a permit of its generation (or an
    HTTP slot) until it ends. *)
Inductive Conn := CnShip (g : nat) | CnChain (g : nat) | CnDashboard.

(** Where a change of the configuration is, which holds the engine's lock:
    prepared ([save], the file's text when it was read, the new text), or
    published with the sockets and generations still to start. *)
Inductive Txn :=
| TxIdle
| TxPrepared (save : bool) (disk source : string) (p : Prepared)
| TxPublished (fresh : list nat) (sockets : list SocketAddr).

Record Runtime := mkRuntime {
  w_gens : gmap nat Generation;
  w_next : nat;
  w_live : Live;
  w_engine : Engine;
  w_http_slots : Z;
  w_conns : list Conn;
  w_txn : Txn;
  w_file : option string;
}.

Inductive RtError :=
| RtStopping
| RtInvalid (e : ConfigError)
| RtToken (e : Invalid)
| RtTls (e : TlsError)
| RtLookup (bind : string)
| RtBind (bind : string)
| RtMultiple (addr : SocketAddr).

(** *** Field updates *)

Definition g_set_states (states : gmap string ServerState) (counters : gmap string (nat * string)) (hub : FleetHub)
    (g : Generation) : Generation :=
  mkGen (g_resolved g) (g_chain_config g) (g_tls_config g) (g_static_config g) (g_limits g) (g_live_lag g)
    (g_revision g) (g_tls g) (g_api_tls g) states counters hub (g_permits g) (g_api_permits g) (g_accepted g)
    (g_rejected g) (g_api_rejected g) (g_started g).
Definition g_set_conns (permits api_permits accepted rejected api_rejected : Z) (g : Generation) : Generation :=
  mkGen (g_resolved g) (g_chain_config g) (g_tls_config g) (g_static_config g) (g_limits g) (g_live_lag g)
    (g_revision g) (g_tls g) (g_api_tls g) (g_states g) (g_counters g) (g_hub g) permits api_permits accepted
    rejected api_rejected (g_started g).
Definition g_set_started (g : Generation) : Generation :=
  mkGen (g_resolved g) (g_chain_config g) (g_tls_config g) (g_static_config g) (g_limits g) (g_live_lag g)
    (g_revision g) (g_tls g) (g_api_tls g) (g_states g) (g_counters g) (g_hub g) (g_permits g) (g_api_permits g)
    (g_accepted g) (g_rejected g) (g_api_rejected g) true.

Definition w_set_gens (gens : gmap nat Generation) (w : Runtime) : Runtime :=
  mkRuntime gens (w_next w) (w_live w) (w_engine w) (w_http_slots w) (w_conns w) (w_txn w) (w_file w).
Definition w_set_conns (slots : Z) (conns : list Conn) (w : Runtime) : Runtime :=
  mkRuntime (w_gens w) (w_next w) (w_live w) (w_engine w) slots conns (w_txn w) (w_file w).
Definition w_set_txn (t : Txn) (w : Runtime) : Runtime :=
  mkRuntime (w_gens w) (w_next w) (w_live w) (w_engine w) (w_http_slots w) (w_conns w) t (w_file w).
Definition w_set_file (f : option string) (w : Runtime) : Runtime :=
  mkRuntime (w_gens w) (w_next w) (w_live w) (w_engine w) (w_http_slots w) (w_conns w) (w_txn w) f.
Definition w_set_engine (live : Live) (e : Engine) (w : Runtime) : Runtime :=
  mkRuntime (w_gens w) (w_next w) live e (w_http_slots w) (w_conns w) (w_txn w) (w_file w).

(** ** Generations *)

(** [ListenerContext::name]. *)
Definition g_name (g : Generation) : string := default "default" (rl_name (g_resolved g)).

Definition g_max (g : Generation) : Z := rl_max_connections (g_resolved g).

(** [ChainApiCtx::max_connections] of the API, when there is one. *)
Definition g_api_max (g : Generation) : option Z := (fun c => ac_max_connections (ra_cfg c)) <$> g_chain_config g.

(** [FleetHub]'s part of [BuildCtx]. *)
Definition hub_ctx (r : ResolvedListener) : BuildCtx :=
  View.mkCtx (rl_topology r) (rl_expected_chain_id r) (abi_entry json_from_str <$> rl_abi_pin r)
    (abi_mismatch (rl_stitching r))
    (map (fun s => mkStatic (sv_endpoint s) (sv_name s) (ws_url s)) (shipped (rl_servers r))).

(** [FleetHub::new]: no tip is observed yet. *)
Definition no_tips (r : ResolvedListener) : Tips := map (fun _ => None) (shipped (rl_servers r)).

Definition hub_new (r : ResolvedListener) (states : gmap string ServerState) (now : Z) : FleetHub :=
  rebuild (hub_ctx r) states (no_tips r) now
    (mkHub (empty_view (rl_topology r) (rl_expected_chain_id r)) (new_memory now)).

Definition inherit_observations (now : Z) (g previous : Generation) : Generation :=
  let states := inherit_states (g_states previous) (g_states g) in
  let counters := map_imap (fun endpoint counter =>
      Some (default counter (g_counters previous !! endpoint))) (g_counters g) in
  g_set_states states counters
    (rebuild (hub_ctx (g_resolved g)) states (no_tips (g_resolved g)) now (g_hub g)) g.

(** [Generation::empty]. *)
Definition empty (g : Generation) : bool :=
  (g_permits g =? g_max g) && is_none_or (fun m => g_api_permits g =? m) (g_api_max g).

(** Connections open on a generation: the permits taken. *)
Definition ship_open (g : Generation) : Z := sat_sub (g_max g) (g_permits g).
Definition api_open (g : Generation) : Z := default 0 (g_api_max g) - g_api_permits g.

(** The generations of a list of numbers. *)
Definition gens_of (w : Runtime) (ids : list nat) : list Generation := omap (fun i => w_gens w !! i) ids.
End data.

(** ** Preparing a configuration *)

Section prepare.
Context `{RuntimeEnv}.

(** [Generation::new]; [id] is the number the generation will have. *)
Definition transpose {A E} (o : option (result A E)) : result (option A) E :=
  match o with
  | None => Ok None
  | Some (Ok a) => Ok (Some a)
  | Some (Err e) => Err e
  end.

Definition load_tls (tls : option TlsConfig) : result (option (@CertStore (@certified_key base))) RtError :=
  match transpose (from_config re_load_disk <$> tls) with
  | Ok t => Ok t
  | Err e => Err (RtTls e)
  end.

Definition generation_new (id : nat) (resolved : ResolvedListener) (chain_config : option ResolvedChainApi)
    (static_config : StaticConfig) (limits : ProxyLimits) (live_lag revision : Z) (tls_config : option TlsConfig)
  : result Generation RtError :=
  let? tls := load_tls tls_config in
  let states := build_state_db_with_chain_id (rl_servers resolved) (rl_expected_chain_id resolved)
                  (rl_require_chain_id resolved) in
  let hub := hub_new resolved states re_now in
  let? api_tls := match chain_config with Some c => load_tls (ra_tls c) | None => Ok None end in
  Ok (mkGen resolved chain_config tls_config static_config limits live_lag revision tls api_tls states
        (map_imap (fun endpoint _ => Some (id, endpoint)) states) hub (rl_max_connections resolved)
        (map_or 0 (fun c => ac_max_connections (ra_cfg c)) chain_config) 0 0 0 false).

Definition prepare_bind (engine : Engine) (p : Prepared) (bind : string) (target : Binding)
  : result Prepared RtError :=
  match re_lookup bind with
  | None => Err (RtLookup bind)
  | Some addresses =>
      let existing := List.find (fun addr => bool_decide (addr ∈ en_sockets engine)) addresses in
      let? (addr, p) :=
        match existing with
        | Some addr => Ok (addr, p)
        | None =>
            match re_bind addresses with
            | None => Err (RtBind bind)
            | Some addr =>
                Ok (addr, mkPrepared (pr_config p) (pr_token p) (pr_active p) (pr_fresh p) (pr_bindings p)
                            (pr_sockets p ++ [addr]))
            end
        end in
      let old := pr_bindings p !! addr in
      let p := mkPrepared (pr_config p) (pr_token p) (pr_active p) (pr_fresh p)
                 (<[addr := target]> (pr_bindings p)) (pr_sockets p) in
      if is_some old then Err (RtMultiple addr) else Ok p
  end.

Definition statics_of (c : ServerConfig) : StaticConfig :=
  mkStaticConfig (sc_upstream_reconnect_ms c) (sc_upstream_monitoring_ms c) (sc_upstream_status_ms c)
    (upstream_connect_timeout_ms c) (sc_max_message_bytes c).

(** A running generation with exactly this configuration. *)
Definition reusable (c : ServerConfig) (resolved : ResolvedListener) (tls_config : option TlsConfig)
    (chain : option ResolvedChainApi) (g : Generation) : bool :=
  bool_decide (g_resolved g = resolved)
  && bool_decide (g_tls_config g = tls_config)
  && bool_decide (chain_key <$> g_chain_config g = chain_key <$> chain)
  && bool_decide (g_static_config g = statics_of c)
  && bool_decide (g_limits g = proxy_limits c)
  && (g_live_lag g =? sc_live_lag_blocks c).

(** A generation of the same pool and chain rules, whose observations a new one
    takes over. *)
Definition same_pool (resolved : ResolvedListener) (g : Generation) : bool :=
  bool_decide (rl_name (g_resolved g) = rl_name resolved)
  && bool_decide (rl_expected_chain_id (g_resolved g) = rl_expected_chain_id resolved)
  && Bool.eqb (rl_require_chain_id (g_resolved g)) (rl_require_chain_id resolved).

(** The generation of a listener, reused or new. *)
Definition prepare_generation (w : Runtime) (p : Prepared) (resolved : ResolvedListener)
    (tls_config : option TlsConfig) (chain : option ResolvedChainApi) : result (nat * Prepared) RtError :=
  let engine := w_engine w in
  let c := pr_config p in
  match List.find (fun i => is_some_and (reusable c resolved tls_config chain) (w_gens w !! i))
          (en_active engine) with
  | Some i => Ok (i, p)
  | None =>
      let id := (w_next w + length (pr_fresh p))%nat in
      let? g := generation_new id resolved chain (statics_of c) (proxy_limits c) (sc_live_lag_blocks c)
                  (en_revision engine + 1) tls_config in
      let previous := List.filter (same_pool resolved) (gens_of w (en_draining engine ++ en_active engine)) in
      let g := foldl (inherit_observations re_now) g previous in
      Ok (id, mkPrepared c (pr_token p) (pr_active p) (pr_fresh p ++ [(id, g)]) (pr_bindings p) (pr_sockets p))
  end.

Definition prepare_listener (w : Runtime) (p : Prepared) (resolved : ResolvedListener)
    (tls_config : option TlsConfig) (chain : option ResolvedChainApi) : result Prepared RtError :=
  let? (i, p) := prepare_generation w p resolved tls_config chain in
  let? p := prepare_bind (w_engine w) p (format_bind_addr (rl_listen_address resolved) (rl_listen_port resolved))
              (BShip i) in
  let? p := match chain with
            | Some chain => prepare_bind (w_engine w) p (ra_bind chain) (BChain i)
            | None => Ok p
            end in
  Ok (mkPrepared (pr_config p) (pr_token p) (pr_active p ++ [i]) (pr_fresh p) (pr_bindings p) (pr_sockets p)).

Fixpoint prepare_listeners (w : Runtime) (p : Prepared)
    (ls : list (ResolvedListener * option TlsConfig * option ResolvedChainApi)) : result Prepared RtError :=
  match ls with
  | [] => Ok p
  | (resolved, tls_config, chain) :: ls =>
      let? p := prepare_listener w p resolved tls_config chain in
      prepare_listeners w p ls
  end.

Definition invalid_of {A E} (f : E -> RtError) (r : result A E) : result A RtError :=
  match r with Ok a => Ok a | Err e => Err (f e) end.

Definition prepare (w : Runtime) (config : ServerConfig) : result Prepared RtError :=
  let engine := w_engine w in
  if en_stopping engine then Err RtStopping
  else
    let? _ := invalid_of RtInvalid (validate config) in
    let? token := if db_enabled (sc_dashboard config)
                  then invalid_of RtToken (resolve_control_token (sc_dashboard config) re_token)
                  else Ok None in
    let p := mkPrepared config token [] [] ∅ [] in
    let? p := prepare_listeners w p
                (zip (zip (resolved_listeners config) (resolved_listener_tls config)) (resolved_chain_apis config)) in
    match resolved_metrics_host_port config with
    | Some (host, port) => prepare_bind engine p (format_bind_addr host port) BDashboard
    | None => Ok p
    end.
End prepare.

(** ** Publishing it *)

Section run.
Context `{RuntimeBase}.

Definition make_app (e : Engine) (config : ServerConfig) (control_token : option string) : AppState :=
  mkApp (en_revision e) (en_draining e) (en_active e) (en_active e) (db_enabled (sc_dashboard config)) control_token
    (map (fun s => to_ascii_lowercase (trim s)) (db_allowed_hosts (sc_dashboard config))).

(** A draining generation that still has connections. *)
Definition keeps_draining (gens : gmap nat Generation) (i : nat) : bool :=
  is_some_and (fun g => negb (empty g)) (gens !! i).

(** [commit], up to the publication of the routing table. *)
Definition commit_publish (p : Prepared) (source : string) (w : Runtime) : Runtime :=
  let e := w_engine w in
  let retired := List.filter (fun i => negb (bool_decide (i ∈ pr_active p))) (en_active e) in
  let gens := list_to_map (pr_fresh p) ∪ w_gens w in
  let draining := List.filter (keeps_draining gens) (en_draining e ++ retired) in
  let e := mkEngine (en_revision e + 1) (Some (pr_config p)) source (pr_active p) draining (en_sockets e)
             (en_stopping e) in
  mkRuntime gens (w_next w + length (pr_fresh p)) (mkLive (make_app e (pr_config p) (pr_token p)) (pr_bindings p) draining)
    e (w_http_slots w) (w_conns w) (TxPublished (map fst (pr_fresh p)) (pr_sockets p)) (w_file w).

(** The rest of [commit]: monitors start, new sockets accept, removed ones
    stop. *)
Definition commit_sockets (fresh : list nat) (sockets : list SocketAddr) (w : Runtime) : Runtime :=
  let e := w_engine w in
  let gens := foldr (alter g_set_started) (w_gens w) fresh in
  let all := en_sockets e ∪ list_to_set sockets in
  let kept := filter (fun addr => is_Some (lv_bindings (w_live w) !! addr)) all in
  mkRuntime gens (w_next w) (w_live w)
    (mkEngine (en_revision e) (en_config e) (en_source e) (en_active e) (en_draining e) kept (en_stopping e))
    (w_http_slots w) (w_conns w) TxIdle (w_file w).

(** ** Connections *)

(** Connections open on the draining generations of the same listener name. *)
Definition draining_open (open : Generation -> Z) (w : Runtime) (g : Generation) : Z :=
  fold_right Z.add 0
    (map open (List.filter (fun d => bool_decide (g_name d = g_name g)) (gens_of w (lv_draining (w_live w))))).

Definition update (i : nat) (f : Generation -> Generation) (w : Runtime) : Runtime :=
  w_set_gens (alter f i (w_gens w)) w.

Definition open_conn (c : Conn) (w : Runtime) : Runtime := w_set_conns (w_http_slots w) (w_conns w ++ [c]) w.

Definition reject_ship : Generation -> Generation :=
  fun g => g_set_conns (g_permits g) (g_api_permits g) (g_accepted g) (g_rejected g + 1) (g_api_rejected g) g.
Definition reject_api : Generation -> Generation :=
  fun g => g_set_conns (g_permits g) (g_api_permits g) (g_accepted g) (g_rejected g) (g_api_rejected g + 1) g.
Definition take_ship : Generation -> Generation :=
  fun g => g_set_conns (g_permits g - 1) (g_api_permits g) (g_accepted g + 1) (g_rejected g) (g_api_rejected g) g.
Definition take_api : Generation -> Generation :=
  fun g => g_set_conns (g_permits g) (g_api_permits g - 1) (g_accepted g) (g_rejected g) (g_api_rejected g) g.
Definition give_ship : Generation -> Generation :=
  fun g => g_set_conns (g_permits g + 1) (g_api_permits g) (g_accepted g) (g_rejected g) (g_api_rejected g) g.
Definition give_api : Generation -> Generation :=
  fun g => g_set_conns (g_permits g) (g_api_permits g + 1) (g_accepted g) (g_rejected g) (g_api_rejected g) g.

Definition accept_ship (i : nat) (w : Runtime) : Runtime :=
  match w_gens w !! i with
  | None => w
  | Some g =>
      let existing := ship_open g + draining_open ship_open w g in
      if g_max g <=? existing then update i reject_ship w
      else if g_permits g <=? 0 then update i reject_ship w
      else open_conn (CnShip i) (update i take_ship w)
  end.

(** Old generations without a chain API are left out of the sum. *)
Definition accept_chain (i : nat) (w : Runtime) : Runtime :=
  match w_gens w !! i with
  | None => w
  | Some g =>
      match g_api_max g with
      | None => w
      | Some max =>
          let open d := match g_api_max d with Some _ => api_open d | None => 0 end in
          let existing := max - g_api_permits g + draining_open open w g in
          if max <=? existing then update i reject_api w
          else if g_api_permits g <=? 0 then update i reject_api w
          else open_conn (CnChain i) (update i take_api w)
      end
  end.

Definition accept (addr : SocketAddr) (w : Runtime) : Runtime :=
  match lv_bindings (w_live w) !! addr with
  | Some (BShip i) => accept_ship i w
  | Some (BChain i) => accept_chain i w
  | Some BDashboard =>
      if w_http_slots w <=? 0 then w
      else w_set_conns (w_http_slots w - 1) (w_conns w ++ [CnDashboard]) w
  | None => w
  end.

(** The task of the connection at [k] ends and drops its permit. *)
Definition conn_end (k : nat) (w : Runtime) : Runtime :=
  match w_conns w !! k with
  | None => w
  | Some c =>
      let w' := w_set_conns (w_http_slots w) (delete k (w_conns w)) w in
      match c with
      | CnShip i => update i give_ship w'
      | CnChain i => update i give_api w'
      | CnDashboard => w_set_conns (w_http_slots w + 1) (w_conns w') w'
      end
  end.

(** ** Retiring and stopping *)

(** Without a configuration nothing was ever published, so nothing drains. *)
Definition reap (w : Runtime) : Runtime :=
  let e := w_engine w in
  if en_stopping e then w
  else
    let draining := List.filter (keeps_draining (w_gens w)) (en_draining e) in
    let e' := mkEngine (en_revision e) (en_config e) (en_source e) (en_active e) draining (en_sockets e)
                (en_stopping e) in
    match en_config e with
    | None => w
    | Some config =>
        if (length (en_draining e) =? length draining)%nat then w
        else
          w_set_engine (mkLive (make_app e' config (ap_control_token (lv_app (w_live w))))
                          (lv_bindings (w_live w)) draining) e' w
    end.

(** [ConfigStatus::from_app]: [counts] are the sessions by listener name and
    generation. *)
Record DrainStatus := mkDrain {
  ds_listener : string;
  ds_generation : Z;
  ds_sessions : Z;
  ds_chain_api_connections : Z;
}.

Definition drain_status (counts : gmap (string * Z) Z) (g : Generation) : DrainStatus :=
  mkDrain (g_name g) (g_revision g) (default 0 (counts !! (g_name g, g_revision g)))
    (map_or 0 (fun m => sat_sub m (g_api_permits g)) (g_api_max g)).

Definition config_status (w : Runtime) (counts : gmap (string * Z) Z) : Z * list DrainStatus :=
  let app := lv_app (w_live w) in
  (ap_config_revision app, map (drain_status counts) (gens_of w (ap_draining app))).

Definition shutdown (w : Runtime) : Runtime :=
  let e := w_engine w in
  w_set_engine (w_live w)
    (mkEngine (en_revision e) (en_config e) (en_source e) (en_active e) (en_draining e) ∅ true) w.
End run.

(** ** The configuration editor ([runtime/config.rs]) *)

Section token.
Context `{AbiEnv}.

(** [pointer("/dashboard/control_token")], and an assignment there when it
    exists. *)
Definition control_token_of (v : JsonValue) : option JsonValue := jv_get "dashboard" v ≫= jv_get "control_token".

Definition set_member (key : string) (f : JsonValue -> JsonValue) (v : JsonValue) : JsonValue :=
  match v with
  | JvObject members =>
      JvObject (map (fun kv : string * JsonValue => if decide (kv.1 = key) then (kv.1, f kv.2) else kv) members)
  | _ => v
  end.

Definition set_control_token (token v : JsonValue) : JsonValue :=
  set_member "dashboard" (set_member "control_token" (fun _ => token)) v.

Definition is_string (v : JsonValue) : bool := is_some (jv_str v).
End token.

Section editor.
Context `{RuntimeBase}.

Definition MAX_SOURCE : Z := 1024 * 1024.
Definition KEEP_SECRET : string := "__FLEET_ROUTER_KEEP_SECRET__".

Definition source_len (s : string) : Z := Z.of_nat (String.length s).

(** The file's text, when it can be read and is not too long. *)
Definition read_source (file : option string) : option string :=
  source ← file; if MAX_SOURCE <? source_len source then None else Some source.

Definition disk_revision (source : string) : string := hash_hex source.

Definition newline : string := String (Ascii.ascii_of_nat 10) EmptyString.

Definition redact (source : string) : option string :=
  value ← json_from_str source;
  Some (json_to_pretty (if is_some_and is_string (control_token_of value)
                        then set_control_token (JvString KEEP_SECRET) value else value)).

Definition restore_secret (source previous : string) : option string :=
  value ← json_from_str source;
  value ← (if decide (control_token_of value ≫= jv_str = Some KEEP_SECRET)
           then old ← json_from_str previous;
                secret ← control_token_of old;
                if is_string secret then Some (set_control_token secret value) else None
           else Some value);
  Some (String.append (json_to_pretty value) newline).

Record Change := mkChange {
  ch_expected_revision : Z;
  ch_expected_disk_revision : string;
  ch_source : option string;
}.

(** The answers: 409, 413 and 400. *)
Inductive ChangeError := CeConflict | CeTooLarge | CeBadRequest.

Definition ok_or {A E} (e : E) (o : option A) : result A E := match o with Some a => Ok a | None => Err e end.

(** The text a change applies. *)
Definition change_source (running disk : string) (request : Change) (save validate_only : bool)
  : result string ChangeError :=
  match ch_source request with
  | Some source =>
      if save || validate_only then
        if MAX_SOURCE <? source_len source then Err CeTooLarge
        else
          let previous := if is_some (json_from_str disk) then disk else running in
          ok_or CeBadRequest (restore_secret source previous)
      else Err CeBadRequest
  | None => if negb save then Ok disk else Err CeBadRequest
  end.

(** [document]: what the editor is shown. *)
Record Document := mkDocument {
  dc_revision : Z;
  dc_disk_revision : string;
  dc_source : string;
  dc_disk_error : bool;
  dc_disk_matches_running : bool;
}.

Definition document (file : option string) (e : Engine) : option Document :=
  disk ← read_source file;
  '(source, error) ← (match redact disk with
                      | Some source => Some (source, false)
                      | None => (fun s => (s, true)) <$> redact (en_source e)
                      end);
  Some (mkDocument (en_revision e) (disk_revision disk) source error (bool_decide (disk = en_source e))).
End editor.

Section change.
Context `{RuntimeEnv}.

(** [change], up to the preparation: the text that was on disk, the new text and
    what was prepared. *)
Definition change_begin (w : Runtime) (request : Change) (save validate_only : bool)
  : result (string * string * Prepared) ChangeError :=
  let e := w_engine w in
  let? disk := ok_or CeBadRequest (read_source (w_file w)) in
  if negb (en_revision e =? ch_expected_revision request)
     || negb (bool_decide (disk_revision disk = ch_expected_disk_revision request))
  then Err CeConflict
  else
    let? source := change_source (en_source e) disk request save validate_only in
    let? config := ok_or CeBadRequest (config_from_str source) in
    match prepare w config with
    | Ok p => Ok (disk, source, p)
    | Err _ => Err CeBadRequest
    end.

(** The rest of [change], up to the publication: the file is read again ([seen]);
    to save it, the temporary file is written ([written]), the file is read once
    more and replaced ([persisted]). *)
Definition change_finish (w : Runtime) (save : bool) (disk source : string) (p : Prepared) (seen : option string)
    (written persisted : bool) : result Runtime ChangeError :=
  let? again := ok_or CeBadRequest (read_source seen) in
  if negb (bool_decide (again = disk)) then Err CeConflict
  else
    let? _ := ok_or CeBadRequest (redact source) in
    let? w :=
      if save then
        if negb written then Err CeBadRequest
        else
          let? again := ok_or CeBadRequest (read_source (w_file w)) in
          if negb (bool_decide (again = disk)) then Err CeConflict
          else if negb persisted then Err CeBadRequest
          else Ok (w_set_file (Some source) w)
      else Ok w in
    Ok (commit_publish p source w).
End change.

(** ** The process *)

Section process.
Context `{RuntimeBase}.

(** [drain_connections]: what is still open on the generations of the shutdown, at
    each look; [elapsed] is the time at the look [k]. *)
Definition remaining (ids : list nat) (w : Runtime) : Z :=
  fold_right Z.add 0
    (map (fun g => ship_open g + match g_api_max g with Some m => sat_sub m (g_api_permits g) | None => 0 end)
       (gens_of w ids)).

Fixpoint drain_connections (fuel : nat) (left_ elapsed : nat -> Z) (grace_ms : Z) (k : nat) : option nat :=
  match fuel with
  | O => None
  | S fuel =>
      if left_ k =? 0 then Some k
      else if grace_ms <=? elapsed k then Some k
      else drain_connections fuel left_ elapsed grace_ms (S k)
  end.

(** [Runtime::start] before its first preparation. *)
Definition start (file : option string) : Runtime :=
  mkRuntime ∅ 0 (mkLive (mkApp 0 [] [] [] false None []) ∅ [])
    (mkEngine 0 None EmptyString [] [] ∅ false) MAX_HTTP_CONNECTIONS [] TxIdle file.

(** What may happen next.  The engine is locked while a change is under way:
    another change, the reaper and the shutdown wait for it.  Accepts, ends of
    connections, observations and edits of the file by others do not. *)
Inductive step : Runtime -> Runtime -> Prop :=
| step_start (RE : RuntimeEnv) w source config p :
    w_txn w = TxIdle -> en_revision (w_engine w) = 0 ->
    read_source (w_file w) = Some source -> config_from_str source = Some config ->
    prepare w config = Ok p ->
    step w (commit_publish p source w)
| step_begin (RE : RuntimeEnv) w request save disk source p :
    w_txn w = TxIdle ->
    change_begin w request save false = Ok (disk, source, p) ->
    step w (w_set_txn (TxPrepared save disk source p) w)
| step_finish w save disk source p seen written persisted w' :
    w_txn w = TxPrepared save disk source p ->
    change_finish w save disk source p seen written persisted = Ok w' ->
    step w w'
| step_abandon w save disk source p seen written persisted e :
    w_txn w = TxPrepared save disk source p ->
    change_finish w save disk source p seen written persisted = Err e ->
    step w (w_set_txn TxIdle w)
| step_sockets w fresh sockets :
    w_txn w = TxPublished fresh sockets -> step w (commit_sockets fresh sockets w)
| step_accept w addr : addr ∈ en_sockets (w_engine w) -> step w (accept addr w)
| step_conn_end w k : (k < length (w_conns w))%nat -> step w (conn_end k w)
| step_observe w i states hub :
    step w (update i (fun g => g_set_states states (g_counters g) hub g) w)
| step_edit w file : step w (w_set_file file w)
| step_reap w : w_txn w = TxIdle -> step w (reap w)
| step_shutdown w : w_txn w = TxIdle -> step w (shutdown w).
End process.
