(* ===== verification/RuntimeSpec.v ===== *)
(** * What holds while configurations are replaced

    The invariant of the runtime (Runtime.v) over every interleaving of changes,
    accepts, ends of connections, observations, edits of the file, the reaper and
    the shutdown:

    - an established connection's generation is active or draining until the
      connection ends, and its configuration never changes;
    - the permits of a generation are its limit less its open connections, and an
      accepted connection never takes a listener, old generations counted, above
      its limit;
    - the sockets that accept are those of the published routing table, every
      entry leads to an active generation, every active listener has its entries;
    - a listener whose configuration did not change keeps its generation;
    - a change of the configuration is applied whole or not at all, and never over
      a file or a configuration that changed since it was read;
    - the editor never shows the control token, and a document sent back as it was
      shown restores it. *)

From S2P Require Import Prelude Wire Models Monitor Coverage View.
From S2P Require Import ApiRoute ApiPick ApiDirectory Abi Tls ApiFlow Config ConfigSpec Runtime.

#[export] Instance Conn_eq_dec : EqDecision Conn.
Proof. solve_decision. Defined.

(** ** The listeners of a configuration *)

Section names.
Context `{ConfigEnv}.

(** The listeners of a configuration, with what each of them runs. *)
Definition planned (c : ServerConfig) : list (ResolvedListener * option TlsConfig * option ResolvedChainApi) :=
  zip (zip (resolved_listeners c) (resolved_listener_tls c)) (resolved_chain_apis c).

Definition label (l : ResolvedListener * option TlsConfig * option ResolvedChainApi) : string :=
  default "default" (rl_name l.1.1).

Lemma planned_listeners c : map (fun l => l.1.1) (planned c) = resolved_listeners c.
Proof.
  unfold planned. rewrite <-(map_map fst fst). change (map fst ?l) with (fst <$> l).
  rewrite fst_zip, fst_zip; [done| |];
    unfold resolved_listeners, resolved_listener_tls, resolved_chain_apis, listener_binds;
    destruct (sc_listeners c) as [|l ls]; cbn; rewrite ?length_zip, ?length_map, ?length_zip_with; cbn;
    rewrite ?length_map; try lia.
  all: by destruct (resolve_stitching _ _ _) as [[? ?] ?]; cbn; lia.
Qed.

Lemma planned_names c : validate c = Ok tt -> NoDup (map label (planned c)).
Proof.
  intros Hv%validate_ok.
  assert (map label (planned c) = map (fun r => default "default" (rl_name r)) (resolved_listeners c)) as ->.
  { rewrite <-planned_listeners, map_map. done. }
  unfold resolved_listeners. destruct (sc_listeners c) as [|l ls] eqn:E.
  { destruct (resolve_stitching _ _ _) as [[? ?] ?]. cbn. apply NoDup_singleton. }
  destruct (ok_multi _ Hv) as (_ & _ & Hn); [congruence|]. rewrite E in Hn.
  rewrite map_map. rewrite (map_ext _ (fun l => trim (lc_name l))); [exact Hn|].
  intros x. by destruct (resolve_stitching (lc_topology x) (lc_stitching x) (lc_servers x)) as [[? ?] ?].
Qed.
End names.

(** ** Preparing *)

Section prepare.
Context `{RuntimeEnv}.

(** The generation a number will have once [p] is published. *)
Definition gen_in (w : Runtime) (p : Prepared) (i : nat) : option Generation :=
  (list_to_map (pr_fresh p) ∪ w_gens w : gmap nat Generation) !! i.

(** A generation without connections, of the revision to come. *)
Definition brand_new (w : Runtime) (g : Generation) : Prop :=
  g_revision g = en_revision (w_engine w) + 1 /\ g_permits g = g_max g
  /\ g_api_permits g = default 0 (g_api_max g).

(** What never changes in a generation. *)
Definition g_static (g : Generation) :=
  (g_resolved g, g_chain_config g, g_tls_config g, g_static_config g, g_limits g, g_live_lag g, g_revision g,
   g_tls g, g_api_tls g).

(** A generation runs a listener as configured. *)
Definition runs (c : ServerConfig) (l : ResolvedListener * option TlsConfig * option ResolvedChainApi)
    (g : Generation) : Prop :=
  g_resolved g = l.1.1 /\ g_tls_config g = l.1.2 /\ chain_key <$> g_chain_config g = chain_key <$> l.2
  /\ g_static_config g = statics_of c /\ g_limits g = proxy_limits c /\ g_live_lag g = sc_live_lag_blocks c.

Definition target_in (ids : list nat) (b : Binding) : Prop :=
  match b with BShip i | BChain i => i ∈ ids | BDashboard => True end.

(** The entries of a generation. *)
Definition bound (bindings : gmap SocketAddr Binding) (i : nat) (g : Generation) : Prop :=
  (exists a, bindings !! a = Some (BShip i))
  /\ (is_Some (g_chain_config g) -> exists a, bindings !! a = Some (BChain i)).

(** What holds of [p] once the listeners [ls] of [c] are prepared. *)
Record prepared_for (w : Runtime) (c : ServerConfig)
    (ls : list (ResolvedListener * option TlsConfig * option ResolvedChainApi)) (p : Prepared) : Prop := {
  pf_config : pr_config p = c;
  pf_ids : map fst (pr_fresh p) = seq (w_next w) (length (pr_fresh p));
  pf_fresh : forall i g, (i, g) ∈ pr_fresh p -> brand_new w g /\ i ∈ pr_active p;
  pf_active : Forall2 (fun i l => exists g, gen_in w p i = Some g /\ runs c l g) (pr_active p) ls;
  pf_old : forall i, i ∈ pr_active p -> i ∈ en_active (w_engine w) \/ i ∈ map fst (pr_fresh p);
  pf_targets : forall a b, pr_bindings p !! a = Some b -> target_in (pr_active p) b;
  pf_bound : forall i g, i ∈ pr_active p -> gen_in w p i = Some g -> bound (pr_bindings p) i g;
  pf_sockets : forall a, is_Some (pr_bindings p !! a) -> a ∈ en_sockets (w_engine w) \/ a ∈ pr_sockets p;
}.

Lemma prepare_bind_ok e p bind target p' :
  prepare_bind e p bind target = Ok p' ->
  exists addr, pr_bindings p !! addr = None
    /\ (addr ∈ en_sockets e \/ addr ∈ pr_sockets p')
    /\ (forall a, a ∈ pr_sockets p -> a ∈ pr_sockets p')
    /\ p' = mkPrepared (pr_config p) (pr_token p) (pr_active p) (pr_fresh p)
              (<[addr := target]> (pr_bindings p)) (pr_sockets p').
Proof.
  unfold prepare_bind. destruct (re_lookup bind) as [addresses|]; [|done].
  destruct (List.find _ addresses) as [addr|] eqn:E; cbn.
  - apply List.find_some in E as [_ Hs%bool_decide_eq_true].
    destruct (pr_bindings p !! addr) eqn:Eb; cbn; [done|]. intros [= <-]. exists addr. cbn. eauto.
  - destruct (re_bind addresses) as [addr|]; cbn; [|done].
    destruct (pr_bindings p !! addr) eqn:Eb; cbn; [done|]. intros [= <-]. exists addr. cbn.
    split_and!; [done|right; set_solver|set_solver|done].
Qed.

(** *** The generation of a listener *)

Definition ids_below (w : Runtime) : Prop := forall i, is_Some (w_gens w !! i) -> (i < w_next w)%nat.

Lemma runs_static c l g g' : g_static g = g_static g' -> runs c l g -> runs c l g'.
Proof. unfold g_static, runs. intros [=]. congruence. Qed.

Lemma inherit_all now g previous :
  let g' := foldl (inherit_observations now) g previous in
  g_static g' = g_static g /\ g_permits g' = g_permits g /\ g_api_permits g' = g_api_permits g.
Proof.
  revert g. induction previous as [|p l IH]; intros g; cbn; [done|].
  destruct (IH (inherit_observations now g p)) as (-> & -> & ->). done.
Qed.

Lemma generation_new_ok w id resolved chain c tls g :
  generation_new id resolved chain (statics_of c) (proxy_limits c) (sc_live_lag_blocks c)
    (en_revision (w_engine w) + 1) tls = Ok g ->
  runs c (resolved, tls, chain) g /\ brand_new w g.
Proof.
  unfold generation_new. destruct (load_tls tls) as [t|]; cbn; [|done].
  destruct (match chain with Some c => _ | None => _ end) as [t'|]; cbn; [|done].
  intros [= <-]. unfold runs, brand_new, g_max, g_api_max. cbn. by destruct chain.
Qed.

Lemma gen_in_push w p p' id g j :
  ids_below w -> map fst (pr_fresh p) = seq (w_next w) (length (pr_fresh p)) ->
  id = (w_next w + length (pr_fresh p))%nat -> pr_fresh p' = pr_fresh p ++ [(id, g)] ->
  gen_in w p' j = if decide (j = id) then Some g else gen_in w p j.
Proof.
  intros Hlt Hids -> Hf. unfold gen_in. rewrite Hf, list_to_map_snoc.
  - destruct (decide (j = _)) as [->|Hne].
    + rewrite <-insert_union_l. by rewrite lookup_insert_eq.
    + rewrite <-insert_union_l. by rewrite lookup_insert_ne.
  - change (fst <$> pr_fresh p) with (map fst (pr_fresh p)). rewrite Hids.
    intros Hin%elem_of_seq. lia.
Qed.

Lemma gen_in_none w p j :
  ids_below w -> map fst (pr_fresh p) = seq (w_next w) (length (pr_fresh p)) ->
  j = (w_next w + length (pr_fresh p))%nat -> gen_in w p j = None.
Proof.
  intros Hlt Hids ->. unfold gen_in. apply lookup_union_None. split.
  - apply not_elem_of_list_to_map. change (fst <$> pr_fresh p) with (map fst (pr_fresh p)).
    rewrite Hids. intros Hin%elem_of_seq. lia.
  - destruct (w_gens w !! _) eqn:E; [|done]. specialize (Hlt _ (mk_is_Some _ _ E)). lia.
Qed.

(** Preparing the generation adds at most one, whose number is new. *)
Lemma prepare_generation_ok w c ls p resolved tls chain i p' :
  ids_below w -> (forall j, j ∈ en_active (w_engine w) -> is_Some (w_gens w !! j)) ->
  prepared_for w c ls p ->
  prepare_generation w p resolved tls chain = Ok (i, p') ->
  (exists g, gen_in w p' i = Some g /\ runs c (resolved, tls, chain) g)
  /\ (i ∈ en_active (w_engine w) \/ i ∈ map fst (pr_fresh p'))
  /\ (forall j g, gen_in w p j = Some g -> gen_in w p' j = Some g)
  /\ map fst (pr_fresh p') = seq (w_next w) (length (pr_fresh p'))
  /\ (forall j g, (j, g) ∈ pr_fresh p' -> brand_new w g /\ (j ∈ pr_active p \/ j = i))
  /\ (forall j, j ∈ map fst (pr_fresh p) -> j ∈ map fst (pr_fresh p'))
  /\ p' = mkPrepared (pr_config p) (pr_token p) (pr_active p) (pr_fresh p') (pr_bindings p) (pr_sockets p).
Proof.
  intros Hlt Hg Hp. unfold prepare_generation.
  rewrite (pf_config _ _ _ _ Hp).
  destruct (List.find _ (en_active (w_engine w))) as [k|] eqn:E.
  - intros [= <- <-]. apply List.find_some in E as [Hin%list_elem_of_In Hr].
    destruct (w_gens w !! k) as [g|] eqn:Eg; [|done]. cbn in Hr. unfold reusable in Hr. bools.
    assert (gen_in w p k = Some g) as Hk.
    { unfold gen_in. apply lookup_union_Some_raw. right. split; [|done].
      apply not_elem_of_list_to_map. change (fst <$> pr_fresh p) with (map fst (pr_fresh p)).
      rewrite (pf_ids _ _ _ _ Hp). intros Hs%elem_of_seq. specialize (Hlt k (mk_is_Some _ _ Eg)). lia. }
    split_and!; [|by left|done|apply Hp| |done|rewrite <-(pf_config _ _ _ _ Hp); by destruct p].
    + exists g. split; [done|]. unfold runs. cbn. by split_and!.
    + intros j g' Hj. destruct (pf_fresh _ _ _ _ Hp j g' Hj). auto.
  - destruct (generation_new _ _ _ _ _ _ _ _) as [g|e] eqn:Eg; cbn; [|done].
    apply generation_new_ok in Eg as [Hr Hb]. intros [= <- <-].
    set (prev := List.filter _ _). destruct (inherit_all re_now g prev) as (Hst & Hpe & Hap).
    set (g' := foldl _ g prev) in *. set (id := (w_next w + length (pr_fresh p))%nat).
    pose proof (pf_ids _ _ _ _ Hp) as Hids.
    assert (forall p' j, pr_fresh p' = pr_fresh p ++ [(id, g')] ->
              gen_in w p' j = if decide (j = id) then Some g' else gen_in w p j) as Hpush.
    { intros p' j Hf. by eapply gen_in_push. }
    assert (brand_new w g') as Hb'.
    { unfold brand_new, g_max, g_api_max, g_static in *. destruct Hb as (? & ? & ?). injection Hst as -> -> _ _ _ _ -> _ _.
      rewrite Hpe, Hap. auto. }
    cbn [pr_fresh pr_active pr_bindings pr_sockets pr_config pr_token]. split_and!.
    + exists g'. rewrite Hpush by done. rewrite decide_True by done. split; [done|]. by apply (runs_static _ _ g).
    + right. rewrite map_app. cbn. set_solver.
    + intros j gj Hj. rewrite Hpush by done. destruct (decide (j = id)) as [->|]; [|done].
      by rewrite (gen_in_none w p id) in Hj.
    + rewrite map_app, length_app, Hids, seq_app. done.
    + intros j gj [Hj|Hj%list_elem_of_singleton]%elem_of_app.
      * destruct (pf_fresh _ _ _ _ Hp j gj Hj). auto.
      * injection Hj as -> ->. auto.
    + intros j Hj. rewrite map_app. set_solver.
    + done.
Qed.

(** *** The entries of a listener *)

(** Entries only come in addition, at addresses that were free. *)
Definition extends (e : Engine) (p p' : Prepared) (targets : list Binding) : Prop :=
  pr_config p' = pr_config p /\ pr_active p' = pr_active p /\ pr_fresh p' = pr_fresh p
  /\ (forall a b, pr_bindings p !! a = Some b -> pr_bindings p' !! a = Some b)
  /\ (forall a b, pr_bindings p' !! a = Some b -> pr_bindings p !! a = Some b \/ b ∈ targets)
  /\ (forall b, b ∈ targets -> exists a, pr_bindings p' !! a = Some b)
  /\ (forall a, is_Some (pr_bindings p' !! a) ->
        is_Some (pr_bindings p !! a) \/ a ∈ en_sockets e \/ a ∈ pr_sockets p')
  /\ (forall a, a ∈ pr_sockets p -> a ∈ pr_sockets p').

Lemma bind_extends e p bind target p' :
  prepare_bind e p bind target = Ok p' -> extends e p p' [target].
Proof.
  intros (addr & Hn & Ha & Hs & ->)%prepare_bind_ok. unfold extends. cbn in *. split_and!; try done.
  - intros a b Hb. rewrite lookup_insert_ne; [done|]. by intros ->; congruence.
  - intros a b [[-> ->]|[_ Hb]]%lookup_insert_Some; [right; set_solver|by left].
  - intros b ->%list_elem_of_singleton. exists addr. by rewrite lookup_insert_eq.
  - intros a [b [[-> _]|[_ Hb]]%lookup_insert_Some]; [by right|left; eauto].
Qed.

Lemma extends_nil e p : extends e p p [].
Proof. unfold extends. split_and!; try done; [by left|set_solver|by left]. Qed.

Lemma extends_trans e p p' p'' ts ts' :
  extends e p p' ts -> extends e p' p'' ts' -> extends e p p'' (ts ++ ts').
Proof.
  intros (? & ? & ? & Hi & Ho & Ht & Hs & Hk) (? & ? & ? & Hi' & Ho' & Ht' & Hs' & Hk').
  unfold extends. split_and!; try congruence.
  - auto.
  - intros a b [Hb|]%Ho'; [apply Ho in Hb as [|]; [by left|]|]; right; set_solver.
  - intros b [Hb|Hb]%elem_of_app; [|auto]. destruct (Ht b Hb) as [a Ha]. eauto.
  - intros a [Ha|]%Hs'; [|by right]. apply Hs in Ha as [|[|]]; auto.
  - auto.
Qed.

Lemma prepare_listener_ok w c ls p resolved tls chain p' :
  ids_below w -> (forall j, j ∈ en_active (w_engine w) -> is_Some (w_gens w !! j)) ->
  prepared_for w c ls p -> prepare_listener w p resolved tls chain = Ok p' ->
  prepared_for w c (ls ++ [(resolved, tls, chain)]) p'.
Proof.
  intros Hlt Hg Hp. unfold prepare_listener.
  destruct (prepare_generation _ _ _ _ _) as [[i p1]|] eqn:E; cbn; [|done].
  apply (prepare_generation_ok w c ls) in E as ((g & Hgi & Hr) & Hi & Hkeep & Hids & Hfr & Hmem & Hp1); [|done..].
  destruct (prepare_bind _ p1 _ _) as [p2|] eqn:E2; cbn; [|done]. apply bind_extends in E2.
  destruct (match chain with Some ch => _ | None => _ end) as [p3|] eqn:E3; cbn; [|done].
  assert (extends (w_engine w) p2 p3 (if chain then [BChain i] else [])) as E3'.
  { destruct chain; [by apply bind_extends in E3|]. injection E3 as <-. apply extends_nil. }
  pose proof (extends_trans _ _ _ _ _ _ E2 E3') as (Hc & Ha & Hf & Hin & Hout & Ht & Hso & Hsk). clear E2 E3 E3' p2.
  intros [= <-]. rewrite Hp1 in Hc, Ha, Hout, Hin, Hso, Hsk. cbn in Hc, Ha, Hin, Hout, Hso, Hsk.
  assert (forall q j, pr_fresh q = pr_fresh p1 -> gen_in w q j = gen_in w p1 j) as Hgen.
  { intros q j Hq. unfold gen_in. by rewrite Hq. }
  constructor; cbn [pr_config pr_active pr_fresh pr_bindings pr_sockets]; rewrite ?Hf, ?Ha.
  - rewrite Hc. apply Hp.
  - done.
  - intros j gj Hj. destruct (Hfr j gj Hj) as [Hb [Hj'| ->]]; (split; [done|]); rewrite elem_of_app; [by left|right].
    by apply list_elem_of_singleton.
  - apply Forall2_app; [|constructor; [|constructor]].
    + eapply Forall2_impl; [apply Hp|]. intros j l (gj & Hj & Hrj). exists gj. rewrite Hgen by done. auto.
    + exists g. by rewrite Hgen by done.
  - intros j [Hj| ->%list_elem_of_singleton]%elem_of_app; [|done].
    destruct (pf_old _ _ _ _ Hp j Hj); [by left|right; auto].
  - intros a b Hb. apply Hout in Hb as [Hb|Hb].
    + apply (pf_targets _ _ _ _ Hp) in Hb. destruct b; cbn [target_in] in *; rewrite ?elem_of_app; auto.
    + assert (b = BShip i \/ b = BChain i) as [-> | ->].
      { apply elem_of_cons in Hb as [Hb|Hb]; [by left|right].
        destruct chain; [by apply list_elem_of_singleton in Hb|by apply elem_of_nil in Hb]. }
      all: cbn [target_in]; rewrite elem_of_app, list_elem_of_singleton; by right.
  - intros j gj Hj Hgj. rewrite Hgen in Hgj by done. apply elem_of_app in Hj as [Hj|Hj].
    + apply list_elem_of_lookup in Hj as [k Hk].
      destruct (Forall2_lookup_l _ _ _ _ _ (pf_active _ _ _ _ Hp) Hk) as (l & _ & g0 & Hg0 & _).
      pose proof (Hkeep _ _ Hg0) as Hg1. rewrite Hgj in Hg1. injection Hg1 as ->.
      destruct (pf_bound _ _ _ _ Hp j g0 (list_elem_of_lookup_2 _ _ _ Hk) Hg0) as [[a Hb1] Hb2].
      split; [eauto|]. intros Hch. destruct (Hb2 Hch) as [a' ?]. eauto.
    + apply list_elem_of_singleton in Hj as ->. rewrite Hgi in Hgj. injection Hgj as <-.
      destruct Hr as (_ & _ & Hck & _). cbn in Hck. split; [apply Ht, elem_of_cons; by left|].
      intros Hch. apply Ht. destruct chain; [apply elem_of_cons; right; by apply list_elem_of_singleton|]. cbn in Hck. destruct Hch as [x Hx]. by rewrite Hx in Hck.
  - intros a Hb. apply Hso in Hb as [Hb|Hb]; [|done]. apply (pf_sockets _ _ _ _ Hp) in Hb as [|]; auto.
Qed.

Lemma prepare_listeners_ok w c ls done_ p p' :
  ids_below w -> (forall j, j ∈ en_active (w_engine w) -> is_Some (w_gens w !! j)) ->
  prepared_for w c done_ p -> prepare_listeners w p ls = Ok p' -> prepared_for w c (done_ ++ ls) p'.
Proof.
  intros Hlt Hg. revert done_ p. induction ls as [|[[r t] ch] ls IH]; intros done_ p Hp; cbn.
  { intros [= <-]. by rewrite app_nil_r. }
  destruct (prepare_listener _ _ _ _ _) as [p1|] eqn:E; cbn; [|done]. intros Hl.
  apply (prepare_listener_ok w c done_) in E; [|done..]. apply (IH _ _ E) in Hl. by rewrite <-app_assoc in Hl.
Qed.

(** A successful preparation: the checks passed, every listener and then the
    metrics socket were prepared. *)
Lemma prepare_inv w c p :
  prepare w c = Ok p ->
  en_stopping (w_engine w) = false /\ validate c = Ok tt
  /\ exists token p1, prepare_listeners w (mkPrepared c token [] [] ∅ []) (planned c) = Ok p1
     /\ (p = p1 \/ exists bind, prepare_bind (w_engine w) p1 bind BDashboard = Ok p).
Proof.
  unfold prepare. destruct (en_stopping _); [done|].
  destruct (validate c) as [[]|] eqn:Ev; cbn [invalid_of rbind]; [|done].
  destruct (if db_enabled _ then _ else _) as [token|]; cbn [rbind]; [|done].
  destruct (prepare_listeners _ _ _) as [p1|] eqn:E; cbn [rbind]; [|done].
  intros Hr. split_and!; [done..|]. exists token, p1. split; [done|].
  destruct (resolved_metrics_host_port c) as [[host port]|]; [eauto|left; congruence].
Qed.

Lemma prepare_ok w c p :
  ids_below w -> (forall j, j ∈ en_active (w_engine w) -> is_Some (w_gens w !! j)) ->
  prepare w c = Ok p ->
  en_stopping (w_engine w) = false /\ validate c = Ok tt /\ prepared_for w c (planned c) p.
Proof.
  intros Hlt Hg (Hst & Hv & token & p1 & E & Hr)%prepare_inv.
  apply (prepare_listeners_ok w c _ []) in E; [|done..|].
  2: { constructor; cbn [pr_config pr_active pr_fresh pr_bindings pr_sockets map].
       1,2: done. 1: by intros ? ? ?%elem_of_nil. 1: constructor. 1: by intros ? ?%elem_of_nil.
       - intros a b. by rewrite lookup_empty.
       - by intros ? ? ?%elem_of_nil.
       - intros a [b Hb]. by rewrite lookup_empty in Hb. }
  cbn [app] in E. split_and!; [done..|]. destruct Hr as [->|[bind Hr]]; [done|].
  apply bind_extends in Hr as (Hc & Ha & Hf & Hin & Hout & _ & Hso & Hsk).
  assert (forall j, gen_in w p j = gen_in w p1 j) as Hgen by (intros j; unfold gen_in; by rewrite Hf).
  destruct E. constructor; rewrite ?Hc, ?Ha, ?Hf; try done.
  - eapply Forall2_impl; [done|]. intros j l (gj & Hj & Hrj). exists gj. by rewrite Hgen.
  - intros a b [Hb|Hb]%Hout; [by eapply pf_targets0|]. apply list_elem_of_singleton in Hb as ->. done.
  - intros j gj Hj Hgj. rewrite Hgen in Hgj. destruct (pf_bound0 j gj Hj Hgj) as [[a Hb] Hb2].
    split; [eauto|]. intros Hch. destruct (Hb2 Hch) as [a' ?]. eauto.
  - intros a [Hb|]%Hso; [|done]. apply pf_sockets0 in Hb as [|]; auto.
Qed.
End prepare.

(** ** The invariant *)

Section invariant.
Context `{RuntimeBase}.

Definition ready (w : Runtime) (p : Prepared) : Prop :=
  exists c ls, prepared_for w c ls p /\ NoDup (map label ls).

(** All generations with connections or listeners. *)
Definition in_service (w : Runtime) : list nat := en_active (w_engine w) ++ en_draining (w_engine w).

(** What is published is what the engine holds. *)
Definition published (w : Runtime) : Prop :=
  let e := w_engine w in
  let app := lv_app (w_live w) in
  lv_draining (w_live w) = en_draining e /\ ap_draining app = en_draining e /\ ap_listeners app = en_active e
  /\ ap_health app = en_active e /\ ap_config_revision app = en_revision e.

Definition listening (w : Runtime) : Prop := en_sockets (w_engine w) = dom (lv_bindings (w_live w)).

Definition txn_ok (w : Runtime) : Prop :=
  match w_txn w with
  | TxIdle => if en_stopping (w_engine w) then en_sockets (w_engine w) = ∅ else listening w
  | TxPrepared _ _ _ p => en_stopping (w_engine w) = false /\ listening w /\ ready w p
  | TxPublished _ sockets =>
      en_stopping (w_engine w) = false
      /\ dom (lv_bindings (w_live w)) ⊆ en_sockets (w_engine w) ∪ list_to_set sockets
  end.

Record structure (w : Runtime) : Prop := {
  st_ids : ids_below w;
  st_gens : forall i, i ∈ in_service w -> is_Some (w_gens w !! i);
  st_nodup : NoDup (in_service w);
  st_names : forall i j g g', i ∈ en_active (w_engine w) -> j ∈ en_active (w_engine w) ->
    w_gens w !! i = Some g -> w_gens w !! j = Some g' -> g_name g = g_name g' -> i = j;
  st_revisions : forall i g, w_gens w !! i = Some g -> g_revision g <= en_revision (w_engine w);
  st_keys : forall i j g g', i ∈ in_service w -> j ∈ in_service w ->
    w_gens w !! i = Some g -> w_gens w !! j = Some g' -> g_name g = g_name g' -> g_revision g = g_revision g' -> i = j;
  st_published : published w;
  st_targets : forall a b, lv_bindings (w_live w) !! a = Some b -> target_in (en_active (w_engine w)) b;
  st_bound : forall i g, i ∈ en_active (w_engine w) -> w_gens w !! i = Some g -> bound (lv_bindings (w_live w)) i g;
  st_config : en_config (w_engine w) = None -> en_draining (w_engine w) = [];
  st_txn : txn_ok w;
}.

(** How many connections of a kind are open. *)
Definition open_of (c : Conn) (conns : list Conn) : Z := count_if (fun x => bool_decide (x = c)) conns.

Record accounting (w : Runtime) : Prop := {
  ac_kept : forall i, CnShip i ∈ w_conns w \/ CnChain i ∈ w_conns w -> i ∈ in_service w;
  ac_chain : forall i g, CnChain i ∈ w_conns w -> w_gens w !! i = Some g -> is_Some (g_api_max g);
  ac_ship : forall i g, w_gens w !! i = Some g -> g_permits g + open_of (CnShip i) (w_conns w) = g_max g;
  ac_api : forall i g, w_gens w !! i = Some g ->
    g_api_permits g + open_of (CnChain i) (w_conns w) = default 0 (g_api_max g);
  ac_http : w_http_slots w + open_of CnDashboard (w_conns w) = MAX_HTTP_CONNECTIONS;
  ac_new : forall i, (w_next w <= i)%nat -> CnShip i ∉ w_conns w /\ CnChain i ∉ w_conns w;
}.

(** *** Counting *)

Lemma open_of_app c l l' : open_of c (l ++ l') = open_of c l + open_of c l'.
Proof. unfold open_of, count_if. rewrite List.filter_app, length_app. lia. Qed.

Lemma open_of_cons c x l : open_of c (x :: l) = (if decide (x = c) then 1 else 0) + open_of c l.
Proof.
  unfold open_of, count_if. cbn [List.filter]. case_bool_decide; destruct (decide (x = c)); try done.
  cbn [length]. lia.
Qed.

Lemma open_of_snoc c conns c' : open_of c (conns ++ [c']) = open_of c conns + (if decide (c' = c) then 1 else 0).
Proof. rewrite open_of_app, open_of_cons. assert (open_of c [] = 0) as -> by done. lia. Qed.

Lemma open_of_delete c conns k c' :
  conns !! k = Some c' -> open_of c (delete k conns) = open_of c conns - (if decide (c' = c) then 1 else 0).
Proof.
  intros Hk. pose proof (take_drop_middle conns k c' Hk) as E. rewrite delete_take_drop.
  generalize dependent (take k conns). generalize (drop (S k) conns). intros l2 l1 <-.
  rewrite !open_of_app, open_of_cons. lia.
Qed.

Lemma open_of_nonneg c conns : 0 <= open_of c conns.
Proof. unfold open_of, count_if. lia. Qed.

Lemma open_of_pos c conns : c ∈ conns <-> 0 < open_of c conns.
Proof.
  induction conns as [|x l IH].
  { split; [by intros ?%elem_of_nil|done]. }
  rewrite elem_of_cons, open_of_cons, IH. pose proof (open_of_nonneg c l).
  destruct (decide (x = c)) as [->|]; [split; [lia|by left]|]. split; [intros [?|?]; [congruence|lia]|right; lia].
Qed.

(** *** Changes that leave the configuration of every generation alone *)

Definition gens_rel (R : Generation -> Generation -> Prop) (m m' : gmap nat Generation) : Prop :=
  forall i, option_Forall2 R (m !! i) (m' !! i).

Definition same_static (g g' : Generation) : Prop := g_static g' = g_static g.
Definition same_permits (g g' : Generation) : Prop :=
  same_static g g' /\ g_permits g' = g_permits g /\ g_api_permits g' = g_api_permits g.

Lemma gens_rel_r R m m' i g' : gens_rel R m m' -> m' !! i = Some g' -> exists g, m !! i = Some g /\ R g g'.
Proof. intros Hr E. specialize (Hr i). rewrite E in Hr. inversion Hr. eauto. Qed.

Lemma gens_rel_l R m m' i g : gens_rel R m m' -> m !! i = Some g -> exists g', m' !! i = Some g' /\ R g g'.
Proof. intros Hr E. specialize (Hr i). rewrite E in Hr. inversion Hr. eauto. Qed.

Lemma gens_rel_alter R m f i :
  (forall g, R g g) -> (forall g, R g (f g)) -> gens_rel R m (alter f i m).
Proof.
  intros Hrefl Hf j. destruct (decide (j = i)) as [->|Hne].
  - rewrite lookup_alter_eq. destruct (m !! i); cbn; constructor. apply Hf.
  - rewrite lookup_alter_ne by done. destruct (m !! j); constructor. apply Hrefl.
Qed.

Lemma gens_rel_refl R m : (forall g, R g g) -> gens_rel R m m.
Proof. intros Hrefl i. destruct (m !! i); constructor. apply Hrefl. Qed.

Lemma static_fields g g' :
  same_static g g' ->
  g_name g' = g_name g /\ g_max g' = g_max g /\ g_api_max g' = g_api_max g /\ g_revision g' = g_revision g
  /\ g_chain_config g' = g_chain_config g.
Proof. unfold same_static, g_static, g_name, g_max, g_api_max. intros [=]. by split_and!; congruence. Qed.

Lemma gen_in_static w w' p i :
  gens_rel same_static (w_gens w) (w_gens w') -> option_Forall2 same_static (gen_in w p i) (gen_in w' p i).
Proof.
  intros Hr. unfold gen_in. rewrite !lookup_union. specialize (Hr i).
  destruct ((list_to_map (pr_fresh p) : gmap nat Generation) !! i); [rewrite !union_Some_l; by constructor|].
  by rewrite !(left_id_L None _).
Qed.

Lemma ready_static w w' p :
  w_next w' = w_next w -> w_engine w' = w_engine w -> gens_rel same_static (w_gens w) (w_gens w') ->
  ready w p -> ready w' p.
Proof.
  intros Hn He Hr (c & ls & Hp & Hl). exists c, ls. split; [|done]. destruct Hp.
  constructor; unfold brand_new in *; rewrite ?Hn, ?He; try done.
  - eapply Forall2_impl; [done|]. intros i l (g & Hg & Hrun).
    destruct (gen_in_static w w' p i Hr) as [g0 g' Hs|]; simplify_eq. exists g'. split; [done|].
    by apply (runs_static _ _ g).
  - intros i g Hi Hg. pose proof (gen_in_static w w' p i Hr) as Hs. rewrite Hg in Hs.
    inversion Hs as [g0 ? Hs0 Hg0|]; subst. destruct (static_fields _ _ Hs0) as (_ & _ & _ & _ & Hc).
    unfold bound. rewrite Hc. by apply (pf_bound0 i g0).
Qed.

(** The structure does not depend on permits, connections and observations. *)
Lemma structure_static w w' :
  w_next w' = w_next w -> w_engine w' = w_engine w -> w_live w' = w_live w -> w_txn w' = w_txn w ->
  gens_rel same_static (w_gens w) (w_gens w') -> structure w -> structure w'.
Proof.
  intros Hn He Hl Ht Hr []. constructor; unfold in_service, published, listening in *; rewrite ?He, ?Hl; try done.
  - intros i [g Hg]. rewrite Hn. destruct (gens_rel_r _ _ _ _ _ Hr Hg) as (g0 & Hg0 & _). eauto.
  - intros i Hi. destruct (st_gens0 i Hi) as [g Hg]. destruct (gens_rel_l _ _ _ _ _ Hr Hg) as (g' & Hg' & _). eauto.
  - intros i j g g' Hi Hj Hg Hg'. destruct (gens_rel_r _ _ _ _ _ Hr Hg) as (g0 & Hg0 & (-> & _)%static_fields).
    destruct (gens_rel_r _ _ _ _ _ Hr Hg') as (g1 & Hg1 & (-> & _)%static_fields). eauto.
  - intros i g Hg. destruct (gens_rel_r _ _ _ _ _ Hr Hg) as (g0 & Hg0 & (_ & _ & _ & -> & _)%static_fields). eauto.
  - intros i j g g' Hi Hj Hg Hg'.
    destruct (gens_rel_r _ _ _ _ _ Hr Hg) as (g0 & Hg0 & (-> & _ & _ & -> & _)%static_fields).
    destruct (gens_rel_r _ _ _ _ _ Hr Hg') as (g1 & Hg1 & (-> & _ & _ & -> & _)%static_fields). eauto.
  - intros i g Hi Hg. destruct (gens_rel_r _ _ _ _ _ Hr Hg) as (g0 & Hg0 & (_ & _ & _ & _ & Hc)%static_fields).
    unfold bound. rewrite Hc. by apply (st_bound0 i g0).
  - unfold txn_ok, listening in *. rewrite Ht, He, Hl. destruct (w_txn w); [done| |done].
    destruct st_txn0 as (? & ? & Hrd). split_and!; [done..|]. by apply (ready_static w).
Qed.

(** Accounting only looks at permits and connections. *)
Lemma accounting_same w w' :
  w_next w' = w_next w -> w_conns w' = w_conns w -> w_http_slots w' = w_http_slots w ->
  gens_rel same_permits (w_gens w) (w_gens w') ->
  (forall i, CnShip i ∈ w_conns w \/ CnChain i ∈ w_conns w -> i ∈ in_service w -> i ∈ in_service w') ->
  accounting w -> accounting w'.
Proof.
  intros Hn Hc Hh Hr Hs []. constructor; rewrite ?Hn, ?Hc, ?Hh; try done.
  - intros i Hi. by apply Hs, ac_kept0.
  - intros i g Hi Hg. destruct (gens_rel_r _ _ _ _ _ Hr Hg) as (g0 & Hg0 & (_ & _ & -> & _)%static_fields & _). eauto.
  - intros i g Hg. destruct (gens_rel_r _ _ _ _ _ Hr Hg) as (g0 & Hg0 & (_ & -> & _)%static_fields & -> & _). eauto.
  - intros i g Hg. destruct (gens_rel_r _ _ _ _ _ Hr Hg) as (g0 & Hg0 & (_ & _ & -> & _)%static_fields & _ & ->). eauto.
Qed.

(** *** Publishing *)

Lemma gen_in_old w c ls p i : prepared_for w c ls p -> (i < w_next w)%nat -> gen_in w p i = w_gens w !! i.
Proof.
  intros Hp Hi. unfold gen_in. rewrite lookup_union_r; [done|]. apply not_elem_of_list_to_map.
  change (fst <$> pr_fresh p) with (map fst (pr_fresh p)). rewrite (pf_ids _ _ _ _ Hp). intros Hs%elem_of_seq. lia.
Qed.

Lemma gen_in_fresh w c ls p i g :
  prepared_for w c ls p -> gen_in w p i = Some g -> (i, g) ∈ pr_fresh p \/ w_gens w !! i = Some g.
Proof.
  intros Hp. unfold gen_in. intros [Hf|[_ Hg]]%lookup_union_Some_raw; [left|by right].
  by apply elem_of_list_to_map_2.
Qed.

(** A generation with a connection does not retire. *)
Lemma busy_keeps w i g :
  accounting w -> w_gens w !! i = Some g -> CnShip i ∈ w_conns w \/ CnChain i ∈ w_conns w -> empty g = false.
Proof.
  intros Ha Hg [Hc|Hc]; pose proof Hc as Hc'; apply open_of_pos in Hc'; unfold empty.
  - pose proof (ac_ship _ Ha i g Hg). rewrite (proj2 (Z.eqb_neq _ _)) by lia. done.
  - pose proof (ac_api _ Ha i g Hg) as Hm. destruct (ac_chain _ Ha i g Hc Hg) as [m Em]. rewrite Em in *.
    cbn in *. rewrite (proj2 (Z.eqb_neq (g_api_permits g) m)) by lia. apply andb_false_r.
Qed.

Lemma filter_same_length {A} (f : A -> bool) l : length (List.filter f l) = length l -> List.filter f l = l.
Proof.
  induction l as [|x l IH]; cbn [List.filter]; [done|]. destruct (f x); cbn [length].
  - intros [= E]. by rewrite IH.
  - intros E. pose proof (filter_length f l). lia.
Qed.

(** The active generations are distinct, by name. *)
Lemma prepared_names w c ls p i j g g' :
  prepared_for w c ls p -> NoDup (map label ls) -> forall m n,
  pr_active p !! m = Some i -> pr_active p !! n = Some j -> gen_in w p i = Some g -> gen_in w p j = Some g' ->
  g_name g = g_name g' -> m = n.
Proof.
  intros Hp Hn m n Hi Hj Hg Hg' E.
  destruct (Forall2_lookup_l _ _ _ _ _ (pf_active _ _ _ _ Hp) Hi) as (l & Hl & g0 & Hg0 & Hr & _).
  destruct (Forall2_lookup_l _ _ _ _ _ (pf_active _ _ _ _ Hp) Hj) as (l' & Hl' & g1 & Hg1 & Hr' & _).
  simplify_eq. apply (NoDup_lookup (map label ls) m n (label l)); [done| |];
    change (map label ls) with (label <$> ls); rewrite list_lookup_fmap; [by rewrite Hl|rewrite Hl'].
  cbn. unfold label, g_name in *. congruence.
Qed.

Lemma prepared_nodup w p : ready w p -> NoDup (pr_active p).
Proof.
  intros (c & ls & Hp & Hn). apply NoDup_alt. intros m n i Hm Hn'.
  destruct (Forall2_lookup_l _ _ _ _ _ (pf_active _ _ _ _ Hp) Hm) as (l & Hl & g & Hg & _).
  by apply (prepared_names w c ls p i i g g).
Qed.

(** Those that stay in service after a publication. *)
Definition survives (w : Runtime) (p : Prepared) (i : nat) : Prop :=
  i ∈ in_service w /\ i ∉ pr_active p /\ keeps_draining (w_gens w) i = true.

Lemma publish_draining w p source i :
  structure w -> ready w p ->
  i ∈ en_draining (w_engine (commit_publish p source w)) <-> survives w p i.
Proof.
  intros Hw (c & ls & Hp & Hn). cbn. rewrite elem_of_List_filter, elem_of_app, elem_of_List_filter.
  unfold survives, in_service. rewrite negb_true_iff, bool_decide_eq_false, elem_of_app.
  assert (forall j, j ∈ in_service w ->
    keeps_draining (list_to_map (pr_fresh p) ∪ w_gens w) j = keeps_draining (w_gens w) j) as Hk.
  { intros j [g Hg]%(st_gens _ Hw). unfold keeps_draining. fold (gen_in w p j).
    by rewrite (gen_in_old _ _ _ _ _ Hp) by (apply (st_ids _ Hw); eauto). }
  unfold in_service in Hk. split.
  - intros [Hi Hb]. rewrite Hk in Hb by (rewrite elem_of_app; tauto). split_and!; [tauto| |done].
    destruct Hi as [Hi|[_ Hi]]; [|done]. intros Hin. apply (pf_old _ _ _ _ Hp) in Hin as [Hin|Hin].
    + pose proof (st_nodup _ Hw) as Hnd. apply NoDup_app in Hnd as (_ & Hnd & _). by apply (Hnd i).
    + rewrite (pf_ids _ _ _ _ Hp) in Hin. apply elem_of_seq in Hin.
      assert (i < w_next w)%nat; [|lia]. apply (st_ids _ Hw), (st_gens _ Hw). apply elem_of_app. by right.
  - intros (Hi & Hin & Hb). rewrite Hk by (rewrite elem_of_app; tauto). tauto.
Qed.

Lemma publish_service w p source i :
  structure w -> ready w p ->
  i ∈ in_service (commit_publish p source w) <-> i ∈ pr_active p \/ survives w p i.
Proof. intros Hw Hp. unfold in_service at 1. by rewrite elem_of_app, (publish_draining w p source i Hw Hp). Qed.

Lemma publish_structure w p source :
  structure w -> en_stopping (w_engine w) = false -> listening w -> ready w p ->
  structure (commit_publish p source w).
Proof.
  intros Hw Hst Hli Hrd. pose proof Hrd as (c & ls & Hp & Hn).
  assert (forall i g, gen_in w p i = Some g -> i ∈ in_service w -> w_gens w !! i = Some g) as Hold.
  { intros i g Hg Hi. rewrite (gen_in_old _ _ _ _ _ Hp) in Hg; [done|]. by apply (st_ids _ Hw), (st_gens _ Hw). }
  assert (forall i, i ∈ pr_active p -> is_Some (gen_in w p i)) as Hex.
  { intros i [k Hk]%list_elem_of_lookup.
    destruct (Forall2_lookup_l _ _ _ _ _ (pf_active _ _ _ _ Hp) Hk) as (l & _ & g & Hg & _). eauto. }
  assert (forall i j g g', i ∈ pr_active p -> j ∈ pr_active p -> gen_in w p i = Some g -> gen_in w p j = Some g' ->
            g_name g = g_name g' -> i = j) as Hnames.
  { intros i j g g' [m Hi]%list_elem_of_lookup [n Hj]%list_elem_of_lookup Hg Hg' E.
    assert (m = n) as <- by (by eapply (prepared_names w c ls p i j g g')). congruence. }
  constructor.
  - intros i [g Hg]. cbn. change (gen_in w p i = Some g) in Hg.
    destruct (gen_in_fresh _ _ _ _ _ _ Hp Hg) as [Hf|Ho].
    + apply (list_elem_of_fmap_2 fst) in Hf. change (fst <$> pr_fresh p) with (map fst (pr_fresh p)) in Hf.
      rewrite (pf_ids _ _ _ _ Hp) in Hf. apply elem_of_seq in Hf. cbn in Hf. lia.
    + assert (i < w_next w)%nat by (apply (st_ids _ Hw); eauto). lia.
  - intros i Hi. apply (publish_service w p source i Hw Hrd) in Hi as [Hi|(Hi & _ & _)]; [by apply Hex|].
    change (is_Some (gen_in w p i)). destruct (st_gens _ Hw i Hi) as [g Hg].
    rewrite (gen_in_old _ _ _ _ _ Hp) by (apply (st_ids _ Hw); eauto). eauto.
  - unfold in_service. apply NoDup_app. split_and!.
    + by apply (prepared_nodup w).
    + intros i Hi Hd. by apply (publish_draining w p source i Hw Hrd) in Hd as (_ & Hd & _).
    + cbn. apply NoDup_lfilter. pose proof (st_nodup _ Hw) as (Ha & Hd & Hb)%NoDup_app. apply NoDup_app.
      split_and!; [done| |by apply NoDup_lfilter].
      intros i Hi [Hi' _]%elem_of_List_filter. by apply (Hd i).
  - intros i j g g' Hi Hj Hg Hg'. by apply Hnames.
  - intros i g Hg. cbn. change (gen_in w p i = Some g) in Hg.
    destruct (gen_in_fresh _ _ _ _ _ _ Hp Hg) as [Hf|Ho].
    + destruct (pf_fresh _ _ _ _ Hp i g Hf) as [[-> _] _]. lia.
    + pose proof (st_revisions _ Hw i g Ho). lia.
  - intros i j g g' Hi Hj Hg Hg' E Er. change (gen_in w p i = Some g) in Hg. change (gen_in w p j = Some g') in Hg'.
    apply (publish_service w p source i Hw Hrd) in Hi. apply (publish_service w p source j Hw Hrd) in Hj.
    assert (forall k gk, gen_in w p k = Some gk -> k ∈ pr_active p \/ survives w p k ->
              (k ∈ pr_active p /\ g_revision gk = en_revision (w_engine w) + 1)
              \/ (k ∈ in_service w /\ w_gens w !! k = Some gk)) as Hcase.
    { intros k gk Hk [Hka|(Hks & _ & _)]; [|right; auto]. destruct (gen_in_fresh _ _ _ _ _ _ Hp Hk) as [Hf|Ho].
      - left. split; [done|]. by destruct (pf_fresh _ _ _ _ Hp k gk Hf) as [[? _] _].
      - right. split; [|done]. destruct (pf_old _ _ _ _ Hp k Hka) as [?|Hin]; [apply elem_of_app; by left|].
        rewrite (pf_ids _ _ _ _ Hp) in Hin. apply elem_of_seq in Hin.
        assert (k < w_next w)%nat by (apply (st_ids _ Hw); eauto). lia. }
    destruct (Hcase i g Hg Hi) as [[Hia Hir]|[His Hig]], (Hcase j g' Hg' Hj) as [[Hja Hjr]|[Hjs Hjg]].
    + by apply (Hnames i j g g').
    + pose proof (st_revisions _ Hw j g' Hjg). lia.
    + pose proof (st_revisions _ Hw i g Hig). lia.
    + by apply (st_keys _ Hw i j g g').
  - done.
  - intros a b Hb. by apply (pf_targets _ _ _ _ Hp a b).
  - intros i g Hi Hg. by apply (pf_bound _ _ _ _ Hp i g).
  - done.
  - split; [done|]. cbn. intros a Ha%elem_of_dom. apply (pf_sockets _ _ _ _ Hp) in Ha as [|]; set_solver.
Qed.

Lemma publish_accounting w p source :
  structure w -> ready w p -> accounting w -> accounting (commit_publish p source w).
Proof.
  intros Hw Hrd Ha. pose proof Hrd as (c & ls & Hp & Hn).
  assert (forall i g, gen_in w p i = Some g ->
    (i, g) ∈ pr_fresh p /\ open_of (CnShip i) (w_conns w) = 0 /\ open_of (CnChain i) (w_conns w) = 0
    \/ w_gens w !! i = Some g) as Hcase.
  { intros i g Hg. destruct (gen_in_fresh _ _ _ _ _ _ Hp Hg) as [Hf|Ho]; [left|by right].
    assert (w_next w <= i)%nat as Hi.
    { apply (list_elem_of_fmap_2 fst) in Hf. change (fst <$> pr_fresh p) with (map fst (pr_fresh p)) in Hf.
      rewrite (pf_ids _ _ _ _ Hp) in Hf. apply elem_of_seq in Hf. cbn in Hf. lia. }
    destruct (ac_new _ Ha i Hi) as [H1 H2]. rewrite open_of_pos in H1, H2.
    pose proof (open_of_nonneg (CnShip i) (w_conns w)). pose proof (open_of_nonneg (CnChain i) (w_conns w)).
    split_and!; [done|lia|lia]. }
  constructor.
  - intros i Hi. pose proof (ac_kept _ Ha i Hi) as Hs. apply (publish_service w p source i Hw Hrd).
    destruct (decide (i ∈ pr_active p)); [by left|right]. split_and!; [done..|].
    destruct (st_gens _ Hw i Hs) as [g Hg]. unfold keeps_draining. rewrite Hg. cbn.
    by rewrite (busy_keeps w i g Ha Hg Hi).
  - intros i g Hi Hg. destruct (Hcase i g Hg) as [(_ & _ & H2)|Ho]; [|by apply (ac_chain _ Ha i)].
    apply open_of_pos in Hi. cbn in Hi. lia.
  - intros i g Hg. destruct (Hcase i g Hg) as [(Hf & H1 & _)|Ho]; [|by apply (ac_ship _ Ha)]. cbn.
    destruct (pf_fresh _ _ _ _ Hp i g Hf) as [(_ & ? & _) _]. lia.
  - intros i g Hg. destruct (Hcase i g Hg) as [(Hf & _ & H1)|Ho]; [|by apply (ac_api _ Ha)]. cbn.
    destruct (pf_fresh _ _ _ _ Hp i g Hf) as [(_ & _ & ?) _]. lia.
  - apply Ha.
  - intros i Hi. cbn in *. apply (ac_new _ Ha). lia.
Qed.

(** *** The other steps *)

Lemma started_permits m fresh : gens_rel same_permits m (foldr (alter g_set_started) m fresh).
Proof.
  induction fresh as [|i fresh IH]; cbn; [by apply gens_rel_refl|]. intros j. specialize (IH j).
  destruct (decide (j = i)) as [->|Hne]; [rewrite lookup_alter_eq|by rewrite lookup_alter_ne].
  destruct IH as [g g' (H1 & H2 & H3)|]; constructor. done.
Qed.

Lemma permits_static m m' : gens_rel same_permits m m' -> gens_rel same_static m m'.
Proof. intros Hr i. destruct (Hr i) as [g g' [Hs _]|]; by constructor. Qed.

Lemma sockets_structure w fresh sockets :
  w_txn w = TxPublished fresh sockets -> structure w -> structure (commit_sockets fresh sockets w).
Proof.
  intros Ht Hw. pose proof (st_txn _ Hw) as Hx. unfold txn_ok in Hx. rewrite Ht in Hx. destruct Hx as [Hst Hd].
  set (w1 := mkRuntime (foldr (alter g_set_started) (w_gens w) fresh) (w_next w) (w_live w) (w_engine w)
    (w_http_slots w) (w_conns w) (w_txn w) (w_file w)).
  assert (structure w1) as H1.
  { apply (structure_static w); try done. apply permits_static, started_permits. }
  destruct H1. constructor; try done. unfold txn_ok, listening. cbn. rewrite Hst.
  apply set_eq. intros a. rewrite elem_of_filter, elem_of_union, elem_of_list_to_set, elem_of_dom.
  split; [tauto|]. intros Hb. split; [done|]. apply elem_of_dom, Hd in Hb. set_solver.
Qed.

Lemma update_structure w i f : (forall g, same_static g (f g)) -> structure w -> structure (update i f w).
Proof. intros Hf. apply structure_static; try done. by apply gens_rel_alter. Qed.

Lemma update_accounting w i f : (forall g, same_permits g (f g)) -> accounting w -> accounting (update i f w).
Proof. intros Hf. apply accounting_same; try done. by apply gens_rel_alter. Qed.

(** A connection that opens takes a permit, one that ends gives it back. *)
Definition kind_of (c : Conn) (i : nat) : Prop := c = CnShip i \/ c = CnChain i.

Lemma conns_accounting w i f conns d c :
  kind_of c i -> i ∈ in_service w ->
  (forall c', open_of c' conns = open_of c' (w_conns w) + (if decide (c = c') then d else 0)) ->
  (forall g, same_static g (f g)
     /\ g_permits (f g) = g_permits g - (if decide (c = CnShip i) then d else 0)
     /\ g_api_permits (f g) = g_api_permits g - (if decide (c = CnChain i) then d else 0)) ->
  (forall g, c = CnChain i -> w_gens w !! i = Some g -> is_Some (g_api_max g)) ->
  (i < w_next w)%nat ->
  accounting w -> accounting (w_set_conns (w_http_slots w) conns (update i f w)).
Proof.
  intros Hk Hs Hc Hf Hapi Hlt Ha.
  assert (forall c', c' ∈ conns -> c' ∈ w_conns w \/ c' = c) as Hin.
  { intros c' Hc'. apply open_of_pos in Hc'. rewrite Hc in Hc'. destruct (decide (c = c')) as [->|]; [by right|left].
    apply open_of_pos. lia. }
  assert (forall j g', alter f i (w_gens w) !! j = Some g' -> exists g, w_gens w !! j = Some g
    /\ same_static g g'
    /\ g_permits g' = g_permits g - (if decide (c = CnShip j) then d else 0)
    /\ g_api_permits g' = g_api_permits g - (if decide (c = CnChain j) then d else 0)) as Hg.
  { intros j g'. destruct (decide (j = i)) as [->|Hne].
    - rewrite lookup_alter_eq. intros (g & Hg & ->)%fmap_Some. exists g. split; [done|]. apply Hf.
    - rewrite lookup_alter_ne by done. intros Hg. exists g'. split; [done|].
      rewrite !decide_False by (destruct Hk as [-> | ->]; congruence). split_and!; [done|lia|lia]. }
  constructor; cbn.
  - intros j Hj. assert (j = i \/ (CnShip j ∈ w_conns w \/ CnChain j ∈ w_conns w)) as [->|Hj'].
    { destruct Hj as [Hj|Hj]; apply Hin in Hj as [Hj|Hj]; [by auto| |by auto|];
        left; destruct Hk as [-> | ->]; congruence. }
    + done.
    + by apply (ac_kept _ Ha).
  - intros j g' Hj Hg'. destruct (Hg j g' Hg') as (g & Hgj & (_ & _ & -> & _)%static_fields & _).
    apply Hin in Hj as [Hj|Hj]; [by apply (ac_chain _ Ha j)|].
    assert (j = i) as -> by (destruct Hk as [-> | ->]; congruence). by apply (Hapi g).
  - intros j g' Hg'. destruct (Hg j g' Hg') as (g & Hgj & (_ & -> & _)%static_fields & -> & _).
    rewrite Hc. pose proof (ac_ship _ Ha j g Hgj). lia.
  - intros j g' Hg'. destruct (Hg j g' Hg') as (g & Hgj & (_ & _ & -> & _)%static_fields & _ & ->).
    rewrite Hc. pose proof (ac_api _ Ha j g Hgj). lia.
  - rewrite Hc, decide_False by (destruct Hk as [-> | ->]; done). pose proof (ac_http _ Ha). lia.
  - intros j Hj. destruct (ac_new _ Ha j Hj). split; intros [|]%Hin; try done;
      (assert (j = i) by (destruct Hk as [-> | ->]; congruence)); lia.
Qed.

Lemma dash_accounting w conns d :
  (forall c', open_of c' conns = open_of c' (w_conns w) + (if decide (CnDashboard = c') then d else 0)) ->
  accounting w -> accounting (w_set_conns (w_http_slots w - d) conns w).
Proof.
  intros Hc Ha.
  assert (forall c', c' <> CnDashboard -> open_of c' conns = open_of c' (w_conns w)) as Hc'.
  { intros c' Hne. rewrite Hc, decide_False by congruence. lia. }
  assert (forall c', c' <> CnDashboard -> c' ∈ conns <-> c' ∈ w_conns w) as Hin.
  { intros c' Hne. by rewrite !open_of_pos, Hc'. }
  destruct Ha. constructor; cbn.
  - intros i. rewrite !Hin by done. apply ac_kept0.
  - intros i g. rewrite Hin by done. apply ac_chain0.
  - intros i g. rewrite Hc' by done. apply ac_ship0.
  - intros i g. rewrite Hc' by done. apply ac_api0.
  - rewrite Hc, decide_True by done. lia.
  - intros i. rewrite !Hin by done. apply ac_new0.
Qed.

Definition good (w : Runtime) : Prop := structure w /\ accounting w.

Lemma active_ids w i : structure w -> i ∈ en_active (w_engine w) -> i ∈ in_service w /\ (i < w_next w)%nat.
Proof.
  intros Hw Hi. assert (i ∈ in_service w) by (apply elem_of_app; by left). split; [done|].
  by apply (st_ids _ Hw), (st_gens _ Hw).
Qed.

(** What an accepted socket leads to. *)
Inductive accepted (w : Runtime) (addr : SocketAddr) : Runtime -> Prop :=
| acc_none : accepted w addr w
| acc_reject i f : (forall g, same_permits g (f g)) -> accepted w addr (update i f w)
| acc_ship i g :
    lv_bindings (w_live w) !! addr = Some (BShip i) -> w_gens w !! i = Some g ->
    ship_open g + draining_open ship_open w g < g_max g -> 0 < g_permits g ->
    accepted w addr (open_conn (CnShip i) (update i take_ship w))
| acc_chain i g max :
    lv_bindings (w_live w) !! addr = Some (BChain i) -> w_gens w !! i = Some g -> g_api_max g = Some max ->
    max - g_api_permits g
      + draining_open (fun d => match g_api_max d with Some _ => api_open d | None => 0 end) w g < max ->
    0 < g_api_permits g ->
    accepted w addr (open_conn (CnChain i) (update i take_api w))
| acc_dash :
    lv_bindings (w_live w) !! addr = Some BDashboard -> 0 < w_http_slots w ->
    accepted w addr (w_set_conns (w_http_slots w - 1) (w_conns w ++ [CnDashboard]) w).

Lemma accept_cases w addr : accepted w addr (accept addr w).
Proof.
  unfold accept. destruct (lv_bindings (w_live w) !! addr) as [[i|i|]|] eqn:Eb; [..|constructor].
  - unfold accept_ship. destruct (w_gens w !! i) as [g|] eqn:Eg; [|constructor].
    destruct (Z.leb_spec (g_max g) (ship_open g + draining_open ship_open w g)); [by apply acc_reject|].
    destruct (Z.leb_spec (g_permits g) 0); [by apply acc_reject|]. by eapply acc_ship.
  - unfold accept_chain. destruct (w_gens w !! i) as [g|] eqn:Eg; [|constructor].
    destruct (g_api_max g) as [m|] eqn:Em; [|constructor].
    match goal with |- context [if ?b then _ else _] => destruct b eqn:E1 end; [by apply acc_reject|].
    destruct (Z.leb_spec (g_api_permits g) 0); [by apply acc_reject|]. apply Z.leb_gt in E1.
    by eapply acc_chain.
  - destruct (Z.leb_spec (w_http_slots w) 0); [constructor|by apply acc_dash].
Qed.

Lemma accept_good w addr : good w -> good (accept addr w).
Proof.
  intros [Hw Ha]. pose proof (accept_cases w addr) as Hc. destruct Hc as [|i f Hf|i g Hb Hg _ Hp|i g m Hb Hg Hm _ Hp|Hb Hp].
  - done.
  - split; [apply update_structure; [apply Hf|done]|by apply update_accounting].
  - apply (st_targets _ Hw) in Hb as Hin. cbn in Hin. destruct (active_ids w i Hw Hin). split.
    + apply (structure_static w); try done. by apply gens_rel_alter.
    + apply (conns_accounting w i take_ship _ 1 (CnShip i)); try done; [by left|..].
      * intros c'. by rewrite open_of_snoc.
      * intros g'. rewrite decide_True, decide_False by done. cbn. split_and!; [done|lia|lia].
  - apply (st_targets _ Hw) in Hb as Hin. cbn in Hin. destruct (active_ids w i Hw Hin). split.
    + apply (structure_static w); try done. by apply gens_rel_alter.
    + apply (conns_accounting w i take_api _ 1 (CnChain i)); try done; [by right|..].
      * intros c'. by rewrite open_of_snoc.
      * intros g'. rewrite decide_False, decide_True by done. cbn. split_and!; [done|lia|lia].
      * intros g' _ Hg'. simplify_eq. eauto.
  - split; [by apply (structure_static w); try done; apply gens_rel_refl|].
    apply dash_accounting; [|done]. intros c'. by rewrite open_of_snoc.
Qed.

Lemma conn_end_good w k : good w -> good (conn_end k w).
Proof.
  intros [Hw Ha]. unfold conn_end. destruct (w_conns w !! k) as [c|] eqn:Ek; [|done].
  pose proof (list_elem_of_lookup_2 _ _ _ Ek) as Hin.
  assert (forall c', open_of c' (delete k (w_conns w)) = open_of c' (w_conns w) + (if decide (c = c') then -1 else 0)) as Hc.
  { intros c'. rewrite (open_of_delete c' _ k c Ek). destruct (decide _); lia. }
  destruct c as [i|i|].
  - assert (i ∈ in_service w) as Hs by (apply (ac_kept _ Ha); auto). split.
    + apply (structure_static w); try done. by apply gens_rel_alter.
    + apply (conns_accounting w i give_ship _ (-1) (CnShip i)); try done; [by left| |by apply (st_ids _ Hw), (st_gens _ Hw)].
      intros g'. rewrite decide_True, decide_False by done. cbn. split_and!; [done|lia|lia].
  - assert (i ∈ in_service w) as Hs by (apply (ac_kept _ Ha); auto). split.
    + apply (structure_static w); try done. by apply gens_rel_alter.
    + apply (conns_accounting w i give_api _ (-1) (CnChain i)); try done;
        [by right| |intros g' _ Hg'; by apply (ac_chain _ Ha i)|by apply (st_ids _ Hw), (st_gens _ Hw)].
      intros g'. rewrite decide_False, decide_True by done. cbn. split_and!; [done|lia|lia].
  - split; [by apply (structure_static w); try done; apply gens_rel_refl|].
    change (accounting (w_set_conns (w_http_slots w + 1) (delete k (w_conns w)) w)).
    replace (w_http_slots w + 1) with (w_http_slots w - -1) by lia. by apply dash_accounting.
Qed.

Lemma prepare_ready (RE : RuntimeEnv) w c p :
  structure w -> prepare w c = Ok p -> en_stopping (w_engine w) = false /\ ready w p.
Proof.
  intros Hw Hp. apply prepare_ok in Hp as (Hst & Hv & Hp).
  - split; [done|]. exists c, (planned c). split; [done|]. by apply planned_names.
  - apply Hw.
  - intros j Hj. apply (st_gens _ Hw), elem_of_app. by left.
Qed.

Lemma publish_good w p source :
  good w -> en_stopping (w_engine w) = false -> listening w -> ready w p -> good (commit_publish p source w).
Proof. intros [Hw Ha] Hst Hl Hr. split; [by apply publish_structure|by apply publish_accounting]. Qed.

Lemma txn_good w t :
  good w -> txn_ok (w_set_txn t w) -> good (w_set_txn t w).
Proof. intros [[] []] Ht. split; [|by constructor]. by constructor. Qed.

Lemma file_good w f : good w -> good (w_set_file f w).
Proof.
  intros [Hw []]. split; [|by constructor]. apply (structure_static w); try done. by apply gens_rel_refl.
Qed.

Lemma reap_good w : w_txn w = TxIdle -> good w -> good (reap w).
Proof.
  intros Ht [Hw Ha]. unfold reap. destruct (en_stopping (w_engine w)) eqn:Es; [done|].
  destruct (en_config (w_engine w)) as [c|]; [|done].
  destruct (length (en_draining (w_engine w)) =? _)%nat eqn:El; [done|].
  match goal with |- good ?x => set (w' := x) end.
  assert (forall i, i ∈ in_service w' -> i ∈ in_service w) as Hsub.
  { intros i. unfold in_service. cbn. rewrite !elem_of_app, elem_of_List_filter. tauto. }
  split.
  - pose proof (st_txn _ Hw) as Hx. destruct Hw. constructor; try done.
    + intros i Hi. by apply st_gens0, Hsub.
    + unfold in_service in *. cbn. apply NoDup_app in st_nodup0 as (Hn1 & Hn2 & Hn3).
      apply NoDup_app. split_and!; [done| |by apply NoDup_lfilter].
      intros i Hi [Hi' _]%elem_of_List_filter. by apply (Hn2 i).
    + intros i j g g' Hi Hj. apply st_keys0; by apply Hsub.
    + unfold txn_ok, listening in *. cbn. by rewrite Ht, Es in *.
  - apply (accounting_same w); try done; [by apply gens_rel_refl|].
    intros i Hc Hi. unfold in_service in *. cbn. rewrite elem_of_app in *. destruct Hi as [|Hi]; [by left|right].
    apply elem_of_List_filter. split; [done|]. unfold keeps_draining.
    destruct (st_gens _ Hw i) as [g Hg]; [apply elem_of_app; by right|]. rewrite Hg. cbn.
    by rewrite (busy_keeps w i g Ha Hg Hc).
Qed.

Lemma shutdown_good w : w_txn w = TxIdle -> good w -> good (shutdown w).
Proof.
  intros Ht [[] []]. split; [|by constructor]. constructor; try done. unfold txn_ok. cbn. by rewrite Ht.
Qed.

Lemma start_good file : good (start file).
Proof.
  split; constructor; unfold ids_below, in_service, published, txn_ok, listening; cbn [start w_gens w_engine w_live
    w_txn w_conns en_active en_draining en_stopping en_sockets lv_bindings app].
  all: try by intros ? [? Hx]; rewrite lookup_empty in Hx.
  all: try by intros ? ?; rewrite lookup_empty.
  all: try by intros; exfalso; eapply not_elem_of_nil.
  - constructor.
  - done.
  - done.
  - by rewrite dom_empty_L.
  - intros i [?%elem_of_nil|?%elem_of_nil]; done.
  - done.
  - intros i _. split; apply not_elem_of_nil.
Qed.

Lemma finish_cases w save disk source p seen written persisted w' :
  change_finish w save disk source p seen written persisted = Ok w' ->
  exists file, w' = commit_publish p source (w_set_file file w)
    /\ seen = Some disk /\ source_len disk <= MAX_SOURCE
    /\ (if save then w_file w = Some disk /\ file = Some source else file = w_file w).
Proof.
  assert (forall f d, read_source f = Some d -> f = Some d /\ source_len d <= MAX_SOURCE) as Hread.
  { unfold read_source. intros [t|] d; cbn; [|done]. destruct (Z.ltb_spec MAX_SOURCE (source_len t)); [done|].
    by intros [= <-]. }
  unfold change_finish. destruct (read_source seen) as [again|] eqn:E1; cbn; [|done]. apply Hread in E1 as [-> Hlen].
  case_bool_decide as Ea; cbn; [subst again|done]. destruct (redact source); cbn; [|done].
  destruct save.
  - destruct written; cbn; [|done]. destruct (read_source (w_file w)) as [again|] eqn:E2; cbn; [|done].
    apply Hread in E2 as [Hf _]. case_bool_decide as Ea2; cbn; [subst again|done]. destruct persisted; cbn; [|done]. intros [= <-]. eauto 10.
  - cbn. intros [= <-]. exists (w_file w). by destruct w.
Qed.

Lemma step_good w w' : step w w' -> good w -> good w'.
Proof.
  intros Hs Hg. pose proof (st_txn _ (proj1 Hg)) as Hx. unfold txn_ok in Hx.
  destruct Hs as [RE w source config p Ht _ _ _ Hp|RE w request save disk source p Ht Hb|
    w save disk source p seen written persisted w' Ht Hf|w save disk source p seen written persisted e Ht _|w fresh sockets Ht|
    w addr _|w k _|w i states hub|w file|w Ht|w Ht].
  - destruct (prepare_ready RE w config p (proj1 Hg) Hp) as [Hst Hr]. rewrite Ht, Hst in Hx. by apply publish_good.
  - unfold change_begin in Hb. destruct (read_source (w_file w)); cbn in Hb; [|done].
    destruct (_ || _); [done|]. destruct (change_source _ _ _ _ _); cbn in Hb; [|done].
    destruct (config_from_str _); cbn in Hb; [|done]. destruct (prepare w _) as [q|] eqn:Hp; [|done].
    injection Hb as <- <- <-.
    destruct (prepare_ready RE w _ q (proj1 Hg) Hp) as [Hst Hr]. rewrite Ht, Hst in Hx.
    apply txn_good; [done|]. unfold txn_ok. cbn. split_and!; [done..|].
    apply (ready_static w); try done. by apply gens_rel_refl.
  - rewrite Ht in Hx. destruct Hx as (Hst & Hl & Hr). apply finish_cases in Hf as (file & -> & _).
    apply publish_good; [by apply file_good|done|done|]. apply (ready_static w); try done. by apply gens_rel_refl.
  - rewrite Ht in Hx. destruct Hx as (Hst & Hl & Hr). apply txn_good; [done|]. unfold txn_ok. cbn. by rewrite Hst.
  - destruct Hg as [Hw Ha]. split; [by apply sockets_structure|].
    apply (accounting_same w); try done. apply started_permits.
  - by apply accept_good.
  - by apply conn_end_good.
  - destruct Hg. split; [by apply update_structure|by apply update_accounting].
  - by apply file_good.
  - by apply reap_good.
  - by apply shutdown_good.
Qed.

Definition reachable (w : Runtime) : Prop := exists file, rtc step (start file) w.

Lemma reachable_good w : reachable w -> good w.
Proof.
  intros [file Hr]. revert Hr. apply (rtc_ind_r good); [apply start_good|]. intros x y _ Hs Hg. by apply (step_good x).
Qed.
End invariant.

(** ** Established connections *)

Section kept.
Context `{RuntimeBase}.

(** Numbers are never used again: a generation keeps its configuration. *)
Definition gens_kept (m m' : gmap nat Generation) : Prop :=
  forall i g, m !! i = Some g -> exists g', m' !! i = Some g' /\ same_static g g'.

Lemma rel_kept R m m' : (forall g g', R g g' -> same_static g g') -> gens_rel R m m' -> gens_kept m m'.
Proof. intros HR Hr i g Hg. destruct (gens_rel_l _ _ _ _ _ Hr Hg) as (g' & Hg' & Hs). eauto. Qed.

Lemma kept_refl m : gens_kept m m.
Proof. intros i g Hg. exists g. done. Qed.

Lemma kept_trans m1 m2 m3 : gens_kept m1 m2 -> gens_kept m2 m3 -> gens_kept m1 m3.
Proof.
  intros H1 H2 i g Hg. destruct (H1 i g Hg) as (g' & Hg' & Hs). destruct (H2 i g' Hg') as (g'' & Hg'' & Hs').
  exists g''. split; [done|]. unfold same_static in *. congruence.
Qed.

Lemma publish_kept w p source : structure w -> ready w p -> gens_kept (w_gens w) (w_gens (commit_publish p source w)).
Proof.
  intros Hw (c & ls & Hp & _) i g Hg. exists g. split; [|done]. change (gen_in w p i = Some g).
  by rewrite (gen_in_old _ _ _ _ _ Hp) by (apply (st_ids _ Hw); eauto).
Qed.

Lemma update_kept w i f : (forall g, same_static g (f g)) -> gens_kept (w_gens w) (w_gens (update i f w)).
Proof. intros Hf. apply (rel_kept same_static); [done|]. by apply gens_rel_alter. Qed.

Lemma step_kept w w' : step w w' -> good w -> gens_kept (w_gens w) (w_gens w').
Proof.
  intros Hs Hg. pose proof (st_txn _ (proj1 Hg)) as Hx. unfold txn_ok in Hx.
  destruct Hs as [RE w source config p Ht _ _ _ Hp|RE w request save disk source p Ht Hb|
    w save disk source p seen written persisted w' Ht Hf|w save disk source p seen written persisted e Ht _|w fresh sockets Ht|
    w addr _|w k _|w i states hub|w file|w Ht|w Ht]; try apply kept_refl.
  - apply publish_kept; [apply Hg|]. apply (prepare_ready RE w config p (proj1 Hg) Hp).
  - rewrite Ht in Hx. destruct Hx as (_ & _ & Hr). apply finish_cases in Hf as (file & -> & _).
    change (w_gens w) with (w_gens (w_set_file file w)).
    apply publish_kept; [apply (file_good w file Hg)|]. apply (ready_static w); try done. by apply gens_rel_refl.
  - apply (rel_kept same_permits); [by intros ? ? [? _]|]. apply started_permits.
  - destruct (accept_cases w addr); try apply kept_refl; cbn; apply update_kept; try done. apply H0.
  - unfold conn_end. destruct (w_conns w !! k) as [[i|i|]|]; try apply kept_refl; cbn; by apply update_kept.
  - by apply update_kept.
  - unfold reap. destruct (en_stopping (w_engine w)), (en_config (w_engine w)); try apply kept_refl.
    destruct (_ =? _)%nat; apply kept_refl.
Qed.

Lemma run_kept w w' : good w -> rtc step w w' -> good w' /\ gens_kept (w_gens w) (w_gens w').
Proof.
  intros Hg. apply (rtc_ind_r (fun w' => good w' /\ gens_kept (w_gens w) (w_gens w'))).
  - split; [done|apply kept_refl].
  - intros x y _ Hs [Hx Hk]. split; [by apply (step_good x)|]. eapply kept_trans; [done|]. by apply step_kept.
Qed.

(** C16: Whatever configurations are applied, connections open and end, files
    change and the reaper does: the generation of an established client or chain
    API connection is active or draining, so its monitors run, and its
    configuration is the one it had when the connection was accepted and stays so;
    the permits of every generation are its limits less its open connections. *)
Theorem established_kept w :
  reachable w ->
  (forall i, CnShip i ∈ w_conns w \/ CnChain i ∈ w_conns w ->
     (i ∈ en_active (w_engine w) \/ i ∈ en_draining (w_engine w))
     /\ exists g, w_gens w !! i = Some g
        /\ forall w', rtc step w w' -> exists g', w_gens w' !! i = Some g' /\ g_static g' = g_static g)
  /\ (forall i g, w_gens w !! i = Some g ->
        g_permits g = g_max g - open_of (CnShip i) (w_conns w)
        /\ g_api_permits g = default 0 (g_api_max g) - open_of (CnChain i) (w_conns w))
  /\ w_http_slots w = MAX_HTTP_CONNECTIONS - open_of CnDashboard (w_conns w).
Proof.
  intros Hg%reachable_good. pose proof Hg as [Hw Ha]. split_and!.
  - intros i Hi. pose proof (ac_kept _ Ha i Hi) as Hs. split; [by apply elem_of_app|].
    destruct (st_gens _ Hw i Hs) as [g Hgi]. exists g. split; [done|]. intros w' Hr.
    destruct (run_kept w w' Hg Hr) as [_ Hk]. apply (Hk i g Hgi).
  - intros i g Hgi. pose proof (ac_ship _ Ha i g Hgi). pose proof (ac_api _ Ha i g Hgi). lia.
  - pose proof (ac_http _ Ha). lia.
Qed.

(** C24: What is published is what runs: except while the service stops and between the
    publication of a change and the switch of its sockets, sockets accept at exactly
    the addresses of the routing table; in that moment every address of the table is
    accepted on already or its socket is bound and about to be; once stopping, no
    socket is left.  Always, every entry of the table leads to an active generation, and every active
    generation has its SHiP entry and, with a chain API, that one too; the lists
    the dashboard shows are the engine's; and no two generations in service have
    the same name and revision, the key sessions are counted by. *)
Theorem table_exact w :
  reachable w ->
  (en_stopping (w_engine w) = false -> (forall f s, w_txn w <> TxPublished f s) ->
     en_sockets (w_engine w) = dom (lv_bindings (w_live w)))
  /\ (forall fresh sockets, w_txn w = TxPublished fresh sockets ->
        dom (lv_bindings (w_live w)) ⊆ en_sockets (w_engine w) ∪ list_to_set sockets)
  /\ (en_stopping (w_engine w) = true -> en_sockets (w_engine w) = ∅)
  /\ (forall a i, lv_bindings (w_live w) !! a = Some (BShip i) \/ lv_bindings (w_live w) !! a = Some (BChain i) ->
        i ∈ en_active (w_engine w))
  /\ (forall i g, i ∈ en_active (w_engine w) -> w_gens w !! i = Some g -> bound (lv_bindings (w_live w)) i g)
  /\ published w
  /\ (forall i j g g', i ∈ in_service w -> j ∈ in_service w -> w_gens w !! i = Some g -> w_gens w !! j = Some g' ->
        (g_name g, g_revision g) = (g_name g', g_revision g') -> i = j).
Proof.
  intros [Hw Ha]%reachable_good. pose proof (st_txn _ Hw) as Hx. unfold txn_ok in Hx. split_and!.
  - intros Hst Ht. rewrite Hst in Hx. destruct (w_txn w) as [|? ? ? p|f s]; [done|tauto|by destruct (Ht f s)].
  - intros fresh sockets Ht. rewrite Ht in Hx. by destruct Hx.
  - intros Hst. rewrite Hst in Hx. destruct (w_txn w); [done|by destruct Hx..].
  - intros a i [Hb|Hb]; by apply (st_targets _ Hw) in Hb.
  - apply Hw.
  - apply Hw.
  - intros i j g g' Hi Hj Hg Hg' [= E1 E2]. by apply (st_keys _ Hw i j g g').
Qed.

(** The reaper retires exactly the draining generations that have no
    connection left. *)
Theorem reap_exact w i :
  reachable w -> w_txn w = TxIdle -> en_stopping (w_engine w) = false ->
  i ∈ en_draining (w_engine (reap w))
  <-> i ∈ en_draining (w_engine w) /\ (CnShip i ∈ w_conns w \/ CnChain i ∈ w_conns w).
Proof.
  intros Hr Ht Hst. pose proof (reachable_good _ Hr) as [Hw Ha].
  assert (forall j, j ∈ en_draining (w_engine w) ->
    keeps_draining (w_gens w) j = true <-> CnShip j ∈ w_conns w \/ CnChain j ∈ w_conns w) as Hk.
  { intros j Hj. destruct (st_gens _ Hw j) as [g Hg]; [apply elem_of_app; by right|].
    unfold keeps_draining. rewrite Hg. cbn. split; [|intros Hc; by rewrite (busy_keeps w j g Ha Hg Hc)].
    rewrite negb_true_iff. unfold empty. intros [Hp|Hp]%andb_false_iff.
    - left. apply open_of_pos. pose proof (ac_ship _ Ha j g Hg). pose proof (open_of_nonneg (CnShip j) (w_conns w)).
      apply Z.eqb_neq in Hp. lia.
    - right. apply open_of_pos. pose proof (ac_api _ Ha j g Hg). pose proof (open_of_nonneg (CnChain j) (w_conns w)).
      destruct (g_api_max g); [|done]. cbn in *. apply Z.eqb_neq in Hp. lia. }
  assert (forall j, j ∈ List.filter (keeps_draining (w_gens w)) (en_draining (w_engine w))
    <-> j ∈ en_draining (w_engine w) /\ (CnShip j ∈ w_conns w \/ CnChain j ∈ w_conns w)) as Hf.
  { intros j. rewrite elem_of_List_filter. split; intros [Hj Hb]; (split; [done|]); by apply Hk. }
  unfold reap. rewrite Hst. destruct (en_config (w_engine w)) eqn:Ec.
  - destruct (length _ =? length _)%nat eqn:El; [|apply Hf].
    apply Nat.eqb_eq in El. rewrite <-Hf. by rewrite (filter_same_length _ _ (eq_sym El)).
  - rewrite (st_config _ Hw Ec). split; [by intros ?%elem_of_nil|by intros [?%elem_of_nil _]].
Qed.
End kept.

(** ** A run

    One client is connected when the limit of the listener is changed. *)

Section scenario.
Context `{RuntimeEnv}.

Definition is_ok {A E} (r : result A E) : bool := match r with Ok _ => true | Err _ => false end.
Definition is_idle (t : Txn) : bool := match t with TxIdle => true | _ => false end.

Lemma idle_eq t : is_idle t = true -> t = TxIdle.
Proof. by destruct t. Qed.

Definition started (source : string) (c : ServerConfig) (w : Runtime) : Runtime :=
  match prepare w c with Ok p => commit_publish p source w | Err _ => w end.
Definition begun (request : Change) (save : bool) (w : Runtime) : Runtime :=
  match change_begin w request save false with
  | Ok (disk, source, p) => w_set_txn (TxPrepared save disk source p) w
  | Err _ => w
  end.
Definition finished (seen : option string) (w : Runtime) : Runtime :=
  match w_txn w with
  | TxPrepared save disk source p =>
      match change_finish w save disk source p seen true true with Ok w' => w' | Err _ => w end
  | _ => w
  end.
Definition listens (w : Runtime) : Runtime :=
  match w_txn w with TxPublished fresh sockets => commit_sockets fresh sockets w | _ => w end.

Lemma started_step source c w :
  is_idle (w_txn w) = true -> en_revision (w_engine w) = 0 -> read_source (w_file w) = Some source ->
  config_from_str source = Some c -> is_ok (prepare w c) = true -> step w (started source c w).
Proof.
  intros Ht%idle_eq Hr Hf Hc Hp. unfold started. destruct (prepare w c) as [p|] eqn:E; [|done].
  by apply (step_start _ w source c p).
Qed.

Lemma begun_step request save w :
  is_idle (w_txn w) = true -> is_ok (change_begin w request save false) = true -> step w (begun request save w).
Proof.
  intros Ht%idle_eq Hb. unfold begun. destruct (change_begin _ _ _ _) as [[[disk source] p]|] eqn:E; [|done].
  by apply (step_begin _ w request).
Qed.

Definition is_prepared (t : Txn) : bool := match t with TxPrepared _ _ _ _ => true | _ => false end.
Definition is_published (t : Txn) : bool := match t with TxPublished _ _ => true | _ => false end.

Lemma finished_step seen w :
  is_prepared (w_txn w) = true -> is_published (w_txn (finished seen w)) = true -> step w (finished seen w).
Proof.
  unfold finished. destruct (w_txn w) as [|save disk source p|] eqn:Et; [done| |done]. intros _.
  destruct (change_finish _ _ _ _ _ _ _ _) as [w'|] eqn:E; [|by rewrite Et].
  intros _. by apply (step_finish w save disk source p seen true true).
Qed.

Lemma listens_step w : is_published (w_txn w) = true -> step w (listens w).
Proof. unfold listens. destruct (w_txn w) as [| |f s] eqn:Et; [done..|]. intros _. by apply step_sockets. Qed.
End scenario.

Definition two_clients (c : ServerConfig) (max : Z) : ServerConfig := {|
  sc_listen_address := sc_listen_address c; sc_listen_port := sc_listen_port c;
  sc_upstream_reconnect_ms := sc_upstream_reconnect_ms c; sc_upstream_monitoring_ms := sc_upstream_monitoring_ms c;
  sc_upstream_status_ms := sc_upstream_status_ms c; sc_servers := sc_servers c; sc_chain_id := sc_chain_id c;
  sc_require_chain_id := sc_require_chain_id c; sc_block_failure_quarantine := sc_block_failure_quarantine c;
  sc_topology := sc_topology c; sc_stitching := sc_stitching c; sc_chain_api := sc_chain_api c; sc_tls := sc_tls c;
  sc_listeners := sc_listeners c; sc_max_connections := max; sc_handshake_timeout_ms := sc_handshake_timeout_ms c;
  sc_idle_timeout_ms := sc_idle_timeout_ms c;
  sc_upstream_liveness_timeout_ms := sc_upstream_liveness_timeout_ms c;
  sc_max_message_bytes := sc_max_message_bytes c; sc_max_client_message_bytes := sc_max_client_message_bytes c;
  sc_shutdown_grace_ms := sc_shutdown_grace_ms c; sc_upstream_stall_timeout_ms := sc_upstream_stall_timeout_ms c;
  sc_live_lag_blocks := sc_live_lag_blocks c; sc_metrics_address := sc_metrics_address c;
  sc_metrics_port := sc_metrics_port c; sc_dashboard := sc_dashboard c |}.

(** A value is printed as the token it holds. *)
Definition token_doc (token : string) : @JsonValue abi_env_ex :=
  JvObject [("dashboard", JvObject [("enabled", JvBool true); ("control_token", JvString token)])].
Definition sample_json (s : string) : option (@JsonValue abi_env_ex) :=
  if decide (s = "two") then Some JvNull
  else if decide (s = "one" \/ s = "secret" \/ s = String.append "secret" newline) then Some (token_doc "secret")
  else if decide (s = KEEP_SECRET) then Some (token_doc KEEP_SECRET)
  else None.

#[export] Instance sample_base : RuntimeBase := {
  base := sample_env;
  base_abi := abi_env_ex;
  json_from_str := sample_json;
  json_to_pretty := fun v => default "null" (control_token_of v ≫= jv_str);
  config_from_str := fun s =>
    if decide (s = "one") then Some (two_clients sample_config 2)
    else if decide (s = "two") then Some (two_clients sample_config 1) else None;
  hash_hex := fun s => s;
}.

#[export] Instance sample_moment : RuntimeEnv := {
  re_read := fun _ => None;
  re_disk := @tls_disk sample_env;
  re_load_disk := @tls_disk sample_env;
  re_token := None;
  re_lookup := fun bind => Some [(bind, 0)];
  re_bind := head;
  re_now := 0;
}.

Definition ship_addr : SocketAddr := ("0.0.0.0:8080"%string, 0).

(** Started with a limit of two, with one client. *)
Definition run_zero : Runtime := start (Some "one"%string).
Definition run_published : Runtime := started "one" (two_clients sample_config 2) run_zero.
Definition run_one : Runtime := listens run_published.
Definition run_client : Runtime := accept ship_addr run_one.
(** The file changes, and is loaded. *)
Definition run_edit : Runtime := w_set_file (Some "two"%string) run_client.
Definition run_change : Change := mkChange 1 "two" None.
Definition run_begun : Runtime := begun run_change false run_edit.
Definition run_finished : Runtime := finished (Some "two"%string) run_begun.
Definition run_two : Runtime := listens run_finished.

Lemma reachable_step w w' : reachable w -> step w w' -> reachable w'.
Proof. intros [file Hr] Hs. exists file. by eapply rtc_r. Qed.

Lemma run_zero_reachable : reachable run_zero.
Proof. exists (Some "one"%string). apply rtc_refl. Qed.

Lemma run_one_reachable : reachable run_one.
Proof.
  refine (reachable_step run_published _ _ (listens_step run_published _)); [|vm_compute; reflexivity].
  refine (reachable_step run_zero _ run_zero_reachable (started_step "one" (two_clients sample_config 2) run_zero _ _ _ _ _));
    vm_compute; reflexivity.
Qed.

Lemma run_client_reachable : reachable run_client.
Proof.
  refine (reachable_step run_one _ run_one_reachable (step_accept run_one ship_addr _)).
  apply (bool_decide_unpack _). vm_compute. exact I.
Qed.

Lemma run_edit_reachable : reachable run_edit.
Proof. exact (reachable_step run_client _ run_client_reachable (step_edit run_client _)). Qed.

Lemma run_begun_reachable : reachable run_begun.
Proof.
  refine (reachable_step run_edit _ run_edit_reachable (begun_step run_change false run_edit _ _));
    vm_compute; reflexivity.
Qed.

Lemma run_two_reachable : reachable run_two.
Proof.
  refine (reachable_step run_finished _ _ (listens_step run_finished _)); [|vm_compute; reflexivity].
  refine (reachable_step run_begun _ run_begun_reachable (finished_step (Some "two"%string) run_begun _ _));
    vm_compute; reflexivity.
Qed.

Lemma established_kept_witness :
  w_conns run_two = [CnShip 0] /\ en_active (w_engine run_two) = [1%nat] /\ 0%nat ∈ en_draining (w_engine run_two).
Proof.
  split_and!; [vm_compute; reflexivity..|].
  destruct (established_kept run_two run_two_reachable) as (H1 & _ & _).
  destruct (H1 0%nat) as [[Ha|Hd] _]; [left; vm_compute; by left| |exact Hd].
  exfalso. vm_compute in Ha. inversion Ha as [|? ? ? Hn]. inversion Hn.
Defined.

Lemma table_exact_witness : en_sockets (w_engine run_two) = dom (lv_bindings (w_live run_two)).
Proof.
  refine (proj1 (table_exact run_two run_two_reachable) _ _); [vm_compute; reflexivity|].
  intros f s E. apply (f_equal is_published) in E. vm_compute in E. discriminate E.
Defined.

Lemma reap_exact_witness : 0%nat ∈ en_draining (w_engine (reap run_two)).
Proof.
  apply (reap_exact run_two 0%nat run_two_reachable); [apply idle_eq; vm_compute; reflexivity|vm_compute; reflexivity|].
  split; [vm_compute; by left|left; vm_compute; by left].
Defined.
