(* ===== verification/RuntimeProps.v ===== *)
(** * Limits, changes and secrets of the running configuration

    Further properties of Runtime.v: connection limits hold across generations,
    unchanged listeners keep their generation, a change is applied whole or not at
    all, a new generation takes over what was observed, and the editor keeps the
    control token to itself. *)

From S2P Require Import Prelude Wire Models Monitor Coverage View.
From S2P Require Import ApiRoute ApiPick ApiDirectory Abi Tls ApiFlow Config ConfigSpec Runtime RuntimeSpec.

(** ** Limits *)

Section limits.
Context `{RuntimeBase}.

Definition ship_id (c : Conn) : option nat := match c with CnShip i => Some i | _ => None end.
Definition chain_id_of (c : Conn) : option nat := match c with CnChain i => Some i | _ => None end.

(** The generation [i] is of the listener [name]. *)
Definition named (w : Runtime) (name : string) (i : nat) : bool :=
  is_some_and (fun g => bool_decide (g_name g = name)) (w_gens w !! i).

(** The open connections of a listener, of whichever generation. *)
Definition total (id : Conn -> option nat) (w : Runtime) (name : string) : Z :=
  count_if (fun c => is_some_and (named w name) (id c)) (w_conns w).

Definition total_of (l : list Z) : Z := fold_right Z.add 0 l.

Lemma total_app l l' : total_of (l ++ l') = total_of l + total_of l'.
Proof. apply sum_app. Qed.

Lemma sum_zero {A} (f : A -> Z) l : (forall x, x ∈ l -> f x = 0) -> total_of (map f l) = 0.
Proof.
  unfold total_of in *. induction l as [|x l IH]; intros Hf; cbn [map fold_right]; [done|]. rewrite IH, (Hf x); [done|by left|].
  intros y Hy. apply Hf. by right.
Qed.

Lemma sum_add {A} (f g : A -> Z) l : total_of (map (fun x => f x + g x) l) = total_of (map f l) + total_of (map g l).
Proof. unfold total_of. induction l as [|x l IH]; cbn [map fold_right]; lia. Qed.

Lemma sum_ext {A} (f g : A -> Z) l : (forall x, x ∈ l -> f x = g x) -> total_of (map f l) = total_of (map g l).
Proof.
  unfold total_of in *. induction l as [|x l IH]; intros Hf; cbn [map fold_right]; [done|]. rewrite IH, (Hf x); [done|by left|].
  intros y Hy. apply Hf. by right.
Qed.

(** One of distinct numbers. *)
Lemma sum_one (i : nat) l : NoDup l -> total_of (map (fun j => if decide (i = j) then 1 else 0) l) = if decide (i ∈ l) then 1 else 0.
Proof.
  induction 1 as [|x l Hx Hn IH]; [done|]. cbn [map]. change (total_of (?a :: ?b)) with (a + total_of b). rewrite IH.
  destruct (decide (i = x)) as [->|Hne].
  - rewrite decide_False by done. rewrite decide_True by set_solver. done.
  - destruct (decide (i ∈ l)); [rewrite decide_True by set_solver|rewrite decide_False by set_solver]; done.
Qed.

(** A count by listener is the sum of the counts by generation. *)
Lemma count_by_gen (id : Conn -> option nat) (k : nat -> Conn) P conns l :
  (forall c i, id c = Some i <-> c = k i) -> NoDup l ->
  (forall c i, c ∈ conns -> id c = Some i -> i ∈ l) ->
  count_if (fun c => is_some_and P (id c)) conns = total_of (map (fun i => open_of (k i) conns) (List.filter P l)).
Proof.
  intros Hid Hn. induction conns as [|c conns IH]; intros Hin.
  { cbn. rewrite sum_zero; done. }
  assert (forall i, open_of (k i) (c :: conns) = (if decide (id c = Some i) then 1 else 0) + open_of (k i) conns) as Ho.
  { intros i. rewrite open_of_cons. f_equal. destruct (decide (c = k i)) as [E|E].
    - rewrite decide_True; [done|]. by apply Hid.
    - rewrite decide_False; [done|]. by rewrite Hid. }
  rewrite (map_ext _ _ Ho), (sum_add (fun i => if decide (id c = Some i) then 1 else 0)). rewrite <-IH.
  2: { intros c' i Hc'. apply Hin. by right. }
  assert (count_if (fun c => is_some_and P (id c)) (c :: conns)
    = (if is_some_and P (id c) then 1 else 0) + count_if (fun c => is_some_and P (id c)) conns) as ->.
  { unfold count_if. cbn [List.filter]. destruct (is_some_and P (id c)); cbn [length]; lia. }
  f_equal. destruct (id c) as [i|] eqn:Ei; cbn.
  - rewrite (sum_ext _ (fun j => if decide (i = j) then 1 else 0)).
    2: { intros j _. destruct (decide (i = j)) as [->|]; [by rewrite decide_True|]. rewrite decide_False; [done|congruence]. }
    rewrite sum_one by (by apply NoDup_lfilter).
    assert (i ∈ l) as Hi by (apply (Hin c); [by left|done]).
    destruct (P i) eqn:EP; [rewrite decide_True by (by apply elem_of_List_filter)|rewrite decide_False]; [done|done|].
    rewrite elem_of_List_filter, EP. by intros [_ ?].
  - rewrite sum_zero; [done|]. intros j _. by rewrite decide_False.
Qed.

(** The count over the draining generations that an accept makes. *)
Lemma draining_count w g (id : Conn -> option nat) (k : nat -> Conn) open :
  good w -> (forall c i, id c = Some i <-> c = k i) ->
  (forall i d, w_gens w !! i = Some d -> i ∈ in_service w -> open d = open_of (k i) (w_conns w)) ->
  draining_open open w g
  = total_of (map (fun i => open_of (k i) (w_conns w)) (List.filter (named w (g_name g)) (en_draining (w_engine w)))).
Proof.
  intros [Hw Ha] Hid Hop. unfold draining_open. destruct (st_published _ Hw) as (-> & _).
  assert (forall i, i ∈ en_draining (w_engine w) -> i ∈ in_service w) as Hs by (intros; apply elem_of_app; by right).
  pose proof (st_gens _ Hw) as Hgn. unfold total_of, gens_of.
  induction (en_draining (w_engine w)) as [|i l IH]; [done|]. cbn [omap list_omap].
  assert (i ∈ in_service w) as Hi by (apply Hs; by left). destruct (Hgn i Hi) as [d Hd]. rewrite Hd.
  cbn [List.filter]. unfold named at 1. rewrite Hd. cbn [is_some_and].
  assert (forall j, j ∈ l -> j ∈ in_service w) as Hl by (intros; apply Hs; by right).
  destruct (bool_decide (g_name d = g_name g)); cbn [map fold_right]; rewrite (IH Hl); [|done].
  by rewrite (Hop i d Hd Hi).
Qed.

Lemma filter_unique (P : nat -> bool) l i :
  NoDup l -> i ∈ l -> (forall j, j ∈ l -> P j = true <-> j = i) -> List.filter P l = [i].
Proof.
  induction 1 as [|x l Hx Hn IH]; intros Hi HP; [by apply elem_of_nil in Hi|]. cbn [List.filter].
  assert (forall j, j ∈ l -> P j = true <-> j = i) as HP' by (intros; apply HP; by right).
  destruct (P x) eqn:Ex.
  - apply HP in Ex as ->; [|by left]. f_equal. destruct (List.filter P l) as [|y l'] eqn:E; [done|].
    assert (y ∈ List.filter P l) as Hy by (rewrite E; by left). apply elem_of_List_filter in Hy as [Hy Hp].
    apply HP' in Hp as ->; done.
  - apply elem_of_cons in Hi as [->|Hi]; [|by apply IH]. assert (P x = true); [apply HP; [by left|done]|congruence].
Qed.

Lemma active_named w i g :
  structure w -> i ∈ en_active (w_engine w) -> w_gens w !! i = Some g ->
  List.filter (named w (g_name g)) (en_active (w_engine w)) = [i].
Proof.
  intros Hw Hi Hg. apply filter_unique; [apply (NoDup_app (en_active (w_engine w)) (en_draining (w_engine w))), Hw|done|].
  intros j Hj. unfold named. destruct (st_gens _ Hw j) as [gj Hgj]; [apply elem_of_app; by left|]. rewrite Hgj. cbn.
  rewrite bool_decide_eq_true. split; [by apply (st_names _ Hw j i gj g)|]. intros ->. congruence.
Qed.

(** What an accept counts is every open connection of the listener. *)
Lemma total_counted w i g (id : Conn -> option nat) (k : nat -> Conn) open :
  good w -> (forall c i, id c = Some i <-> c = k i) ->
  (forall j, k j ∈ w_conns w -> j ∈ in_service w) ->
  (forall j d, w_gens w !! j = Some d -> j ∈ in_service w -> open d = open_of (k j) (w_conns w)) ->
  i ∈ en_active (w_engine w) -> w_gens w !! i = Some g ->
  total id w (g_name g) = open_of (k i) (w_conns w) + draining_open open w g.
Proof.
  intros Hg Hid Hin Hop Hi Hgi. unfold total.
  rewrite (count_by_gen id k (named w (g_name g)) (w_conns w) (in_service w)); [|done|apply Hg|].
  2: { intros c j Hc Hj. apply Hid in Hj as ->. by apply Hin. }
  unfold in_service. rewrite List.filter_app, map_app, total_app, (active_named w i g) by (try done; apply Hg).
  rewrite (draining_count w g id k open) by done. unfold total_of at 1. cbn [map fold_right]. lia.
Qed.

Lemma ship_counted w j d :
  good w -> w_gens w !! j = Some d -> ship_open d = open_of (CnShip j) (w_conns w).
Proof.
  intros [_ Ha] Hd. pose proof (ac_ship _ Ha j d Hd). pose proof (open_of_nonneg (CnShip j) (w_conns w)).
  unfold ship_open, sat_sub. lia.
Qed.

Definition chain_open (d : Generation) : Z := match g_api_max d with Some _ => api_open d | None => 0 end.

Lemma chain_counted w j d :
  good w -> w_gens w !! j = Some d -> chain_open d = open_of (CnChain j) (w_conns w).
Proof.
  intros [_ Ha] Hd. pose proof (ac_api _ Ha j d Hd). unfold chain_open, api_open.
  destruct (g_api_max d) as [m|] eqn:Em; [lia|]. pose proof (open_of_nonneg (CnChain j) (w_conns w)).
  destruct (decide (0 < open_of (CnChain j) (w_conns w))) as [Hp|Hp]; [|lia].
  apply open_of_pos in Hp. destruct (ac_chain _ Ha j d Hp Hd) as [m Hm]. congruence.
Qed.

Lemma draining_nonneg w g (id : Conn -> option nat) (k : nat -> Conn) open :
  good w -> (forall c i, id c = Some i <-> c = k i) ->
  (forall i d, w_gens w !! i = Some d -> i ∈ in_service w -> open d = open_of (k i) (w_conns w)) ->
  0 <= draining_open open w g.
Proof.
  intros Hg Hid Hop. rewrite (draining_count w g id k open Hg Hid Hop). unfold total_of.
  induction (List.filter _ _) as [|j l IH]; cbn [map fold_right]; [done|].
  pose proof (open_of_nonneg (k j) (w_conns w)). lia.
Qed.

Lemma ship_ids c i : ship_id c = Some i <-> c = CnShip i.
Proof. destruct c; cbn; split; congruence. Qed.
Lemma chain_ids c i : chain_id_of c = Some i <-> c = CnChain i.
Proof. destruct c; cbn; split; congruence. Qed.

(** C17: An accepted client or chain API socket becomes a connection exactly when
    the listener it came in on, its draining generations counted, has fewer open
    connections than its limit; so a replaced configuration never lets a listener
    pass its limit, and never refuses below it.  A socket without an entry in the
    routing table is dropped. *)
Theorem accept_exact w addr i g :
  reachable w -> w_gens w !! i = Some g ->
  (lv_bindings (w_live w) !! addr = Some (BShip i) ->
     w_conns (accept addr w)
     = if total ship_id w (g_name g) <? g_max g then w_conns w ++ [CnShip i] else w_conns w)
  /\ (lv_bindings (w_live w) !! addr = Some (BChain i) -> forall max, g_api_max g = Some max ->
     w_conns (accept addr w)
     = if total chain_id_of w (g_name g) <? max then w_conns w ++ [CnChain i] else w_conns w)
  /\ (lv_bindings (w_live w) !! addr = None -> accept addr w = w).
Proof.
  intros Hg%reachable_good Hgi. pose proof Hg as [Hw Ha]. unfold accept. split_and!.
  - intros Hb. rewrite Hb. apply (st_targets _ Hw) in Hb. cbn in Hb. unfold accept_ship. rewrite Hgi.
    rewrite (total_counted w i g ship_id CnShip ship_open); try done; [|apply ship_ids|..].
    2: { intros j Hj. apply (ac_kept _ Ha). by left. }
    2: { intros j d Hd _. by apply ship_counted. }
    rewrite (ship_counted w i g Hg Hgi). pose proof (ac_ship _ Ha i g Hgi).
    assert (0 <= draining_open ship_open w g) as Hd.
    { apply (draining_nonneg w g ship_id CnShip); [done|apply ship_ids|]. intros j d Hd _. by apply ship_counted. }
    destruct (Z.leb_spec (g_max g) (open_of (CnShip i) (w_conns w) + draining_open ship_open w g)),
      (Z.ltb_spec (open_of (CnShip i) (w_conns w) + draining_open ship_open w g) (g_max g)); try lia; [done|].
    destruct (Z.leb_spec (g_permits g) 0); [lia|done].
  - intros Hb max Hm. rewrite Hb. apply (st_targets _ Hw) in Hb. cbn in Hb. unfold accept_chain. rewrite Hgi, Hm.
    rewrite (total_counted w i g chain_id_of CnChain chain_open); try done; [|apply chain_ids|..].
    2: { intros j Hj. apply (ac_kept _ Ha). by right. }
    2: { intros j d Hd _. by apply chain_counted. }
    change (fun d => match g_api_max d with Some _ => api_open d | None => 0 end) with chain_open.
    pose proof (ac_api _ Ha i g Hgi) as Hap. rewrite Hm in Hap. cbn in Hap.
    assert (0 <= draining_open chain_open w g) as Hd.
    { apply (draining_nonneg w g chain_id_of CnChain); [done|apply chain_ids|]. intros j d Hd _. by apply chain_counted. }
    replace (max - g_api_permits g) with (open_of (CnChain i) (w_conns w)) by lia.
    destruct (Z.leb_spec max (open_of (CnChain i) (w_conns w) + draining_open chain_open w g)),
      (Z.ltb_spec (open_of (CnChain i) (w_conns w) + draining_open chain_open w g) max); try lia; [done|].
    destruct (Z.leb_spec (g_api_permits g) 0); [lia|done].
  - by intros ->.
Qed.
End limits.

(** ** Listeners that did not change *)

Section unchanged.
Context `{RuntimeEnv}.

(** The running generation a listener is served by when it is configured as
    before. *)
Definition serves_as_before (w : Runtime) (c : ServerConfig)
    (l : ResolvedListener * option TlsConfig * option ResolvedChainApi) (i : nat) : Prop :=
  i ∈ en_active (w_engine w) /\ exists g, w_gens w !! i = Some g /\ reusable c l.1.1 l.1.2 l.2 g = true.

Lemma bind_active e p bind target p' : prepare_bind e p bind target = Ok p' -> pr_active p' = pr_active p /\ pr_config p' = pr_config p.
Proof. by intros (addr & _ & _ & _ & ->)%prepare_bind_ok. Qed.

Lemma prepare_listener_active w p r t ch p' :
  prepare_listener w p r t ch = Ok p' ->
  pr_config p' = pr_config p
  /\ exists i, pr_active p' = pr_active p ++ [i]
  /\ forall j, List.find (fun i => is_some_and (reusable (pr_config p) r t ch) (w_gens w !! i)) (en_active (w_engine w)) = Some j
       -> i = j.
Proof.
  unfold prepare_listener. destruct (prepare_generation w p r t ch) as [[i p1]|] eqn:E; cbn; [|done].
  assert (pr_active p1 = pr_active p /\ pr_config p1 = pr_config p
    /\ forall j, List.find (fun i => is_some_and (reusable (pr_config p) r t ch) (w_gens w !! i)) (en_active (w_engine w)) = Some j
       -> i = j) as (Ha & Hc & Hj).
  { unfold prepare_generation in E. destruct (List.find _ _) as [k|]; [injection E as <- <-; naive_solver|].
    destruct (generation_new _ _ _ _ _ _ _ _); cbn in E; [|done]. injection E as <- <-. done. }
  destruct (prepare_bind _ p1 _ _) as [p2|] eqn:E2; cbn; [|done]. apply bind_active in E2 as [Ha2 Hc2].
  destruct (match ch with Some c => _ | None => _ end) as [p3|] eqn:E3; cbn; [|done].
  assert (pr_active p3 = pr_active p2 /\ pr_config p3 = pr_config p2) as [Ha3 Hc3].
  { destruct ch; [by apply bind_active in E3|]. by injection E3 as <-. }
  intros [= <-]. cbn. split; [congruence|]. exists i. split; [congruence|done].
Qed.

Lemma prepare_listeners_config w ls p p' : prepare_listeners w p ls = Ok p' -> pr_config p' = pr_config p.
Proof.
  revert p. induction ls as [|[[r t] ch] ls IH]; intros p; cbn [prepare_listeners]; [by intros [= <-]|].
  destruct (prepare_listener w p r t ch) as [p1|] eqn:E; cbn; [|done].
  apply prepare_listener_active in E as (Hc & _). intros Hr. rewrite <-Hc. by apply IH.
Qed.

Lemma prepare_listeners_reuse w ls p p' l j :
  prepare_listeners w p ls = Ok p' ->
  (forall i, i ∈ pr_active p -> i ∈ pr_active p')
  /\ (l ∈ ls ->
      List.find (fun i => is_some_and (reusable (pr_config p) l.1.1 l.1.2 l.2) (w_gens w !! i)) (en_active (w_engine w)) = Some j ->
      j ∈ pr_active p').
Proof.
  revert p. induction ls as [|[[r t] ch] ls IH]; intros p; cbn [prepare_listeners].
  { intros [= <-]. split_and!; [done..|by intros ?%elem_of_nil]. }
  destruct (prepare_listener w p r t ch) as [p1|] eqn:E; cbn; [|done].
  apply prepare_listener_active in E as (Hc & i & Ha & Hj). intros Hr. destruct (IH p1 Hr) as (Hin & Hl).
  split.
  - intros k Hk. apply Hin. rewrite Ha. apply elem_of_app. by left.
  - intros [->|Hin']%elem_of_cons; cbn.
    + intros Hf. rewrite <-(Hj j Hf). apply Hin. rewrite Ha. apply elem_of_app. right. by apply list_elem_of_singleton.
    + rewrite Hc in Hl. by apply Hl.
Qed.

(** A listener that a new configuration leaves as it was keeps its
    generation: the same one, with its monitors, observations, permits and
    counters, stays active, with its entries in the routing table, through the
    publication and the start of the new sockets. *)
Theorem unchanged_listener_kept w c p source l i :
  reachable w -> w_txn w = TxIdle -> prepare w c = Ok p -> l ∈ planned c -> serves_as_before w c l i ->
  let w1 := commit_publish p source w in
  let w2 := commit_sockets (map fst (pr_fresh p)) (pr_sockets p) w1 in
  i ∈ en_active (w_engine w2) /\ w_gens w2 !! i = w_gens w !! i /\ w_conns w2 = w_conns w
  /\ forall g, w_gens w !! i = Some g -> bound (lv_bindings (w_live w2)) i g.
Proof.
  intros Hr Ht Hp Hl (Hi & g & Hg & Hre) w1 w2. pose proof (reachable_good _ Hr) as Hgood. pose proof (proj1 Hgood) as Hw.
  assert (i ∈ pr_active p) as Hin.
  { destruct (prepare_inv w c p Hp) as (_ & _ & token & p1 & E & Hm).
    assert (pr_active p = pr_active p1) as ->.
    { destruct Hm as [->|[bind Hm]]; [done|]. by apply bind_active in Hm as [-> _]. }
    destruct (List.find (fun i => is_some_and (reusable c l.1.1 l.1.2 l.2) (w_gens w !! i)) (en_active (w_engine w)))
      as [j|] eqn:Ef.
    - destruct (prepare_listeners_reuse w _ _ _ l j E) as (_ & Hj). specialize (Hj Hl Ef).
      apply List.find_some in Ef as [Hja Hjr]. apply list_elem_of_In in Hja.
      destruct (w_gens w !! j) as [gj|] eqn:Egj; [|done]. cbn in Hjr. unfold reusable in Hjr, Hre. bools.
      assert (i = j) as ->; [|done]. apply (st_names _ Hw i j g gj); try done. unfold g_name. congruence.
    - apply list_elem_of_In in Hi. apply (List.find_none _ _ Ef i) in Hi. rewrite Hg in Hi. cbn in Hi. congruence. }
  destruct (prepare_ready _ w c p Hw Hp) as [Hst Hrd]. pose proof Hrd as (c' & ls & Hpf & _).
  assert (i < w_next w)%nat as Hlt by (apply (st_ids _ Hw); eauto).
  assert (w_gens w2 !! i = w_gens w !! i) as Hg2.
  { cbn. rewrite <-(gen_in_old w c' ls p i Hpf Hlt). change (gen_in w p i) with (w_gens w1 !! i).
    pose proof (pf_ids _ _ _ _ Hpf) as Hids.
    assert (i ∉ map fst (pr_fresh p)) as Hni by (rewrite Hids; intros ?%elem_of_seq; lia). clear - Hni. subst w1. cbn.
    induction (map fst (pr_fresh p)) as [|j l IH]; cbn; [done|]. rewrite lookup_alter_ne by set_solver. apply IH. set_solver. }
  split_and!; [done..|]. intros g' Hg'. apply (pf_bound _ _ _ _ Hpf i g' Hin).
  by rewrite (gen_in_old w c' ls p i Hpf Hlt).
Qed.
End unchanged.

(** ** Changes *)

Section change.
Context `{RuntimeBase}.

(** What the other tasks do while a change is prepared. *)
Definition quiet (w w' : Runtime) : Prop := step w w' /\ w_txn w' = w_txn w.

Lemma quiet_engine w w' save disk source p :
  quiet w w' -> w_txn w = TxPrepared save disk source p -> w_engine w' = w_engine w /\ w_live w' = w_live w.
Proof.
  intros [Hs He] Ht. destruct Hs as [RE w ? ? q Ht'|RE w ? ? ? ? q Ht'|w ? ? ? ? ? ? ? w' Ht' Hf|w ? ? ? ? ? ? ? e Ht' _|
    w fresh sockets Ht'|w addr _|w k _|w i states hub|w file|w Ht'|w Ht']; try congruence; try done.
  - apply finish_cases in Hf as (file & -> & _). rewrite Ht in He. done.
  - by destruct (accept_cases w addr).
  - unfold conn_end. by destruct (w_conns w !! k) as [[]|].
Qed.

Lemma quiet_run w w' save disk source p :
  rtc quiet w w' -> w_txn w = TxPrepared save disk source p ->
  w_engine w' = w_engine w /\ w_live w' = w_live w /\ w_txn w' = TxPrepared save disk source p.
Proof.
  induction 1 as [w|w w1 w2 Hq _ IH]; [done|]. intros Ht. pose proof Hq as [_ Ht1].
  destruct (quiet_engine _ _ _ _ _ _ Hq Ht) as [<- <-]. apply IH. congruence.
Qed.

(** C18: A change of the configuration is applied whole or not at all.  It begins
    only when the running revision and the text on disk are the ones the request
    names; whatever other tasks do meanwhile, they leave the running configuration
    and the routing table alone; it is published only if the file still had that
    text when it was read again and, when it saves, right before it is replaced;
    then revision, source, configuration, listeners, routing table and (saving)
    file change together; otherwise everything stays as it is. *)
Theorem change_exact (RE : RuntimeEnv) w request save disk source p w1 seen written persisted :
  change_begin w request save false = Ok (disk, source, p) ->
  rtc quiet (w_set_txn (TxPrepared save disk source p) w) w1 ->
  (w_file w = Some disk /\ disk_revision disk = ch_expected_disk_revision request
   /\ en_revision (w_engine w) = ch_expected_revision request)
  /\ (w_engine w1 = w_engine w /\ w_live w1 = w_live w)
  /\ match change_finish w1 save disk source p seen written persisted with
     | Ok w2 =>
         seen = Some disk /\ (save = true -> w_file w1 = Some disk)
         /\ en_revision (w_engine w2) = ch_expected_revision request + 1
         /\ en_source (w_engine w2) = source
         /\ (exists c, config_from_str source = Some c /\ en_config (w_engine w2) = Some c /\ validate c = Ok tt)
         /\ en_active (w_engine w2) = pr_active p /\ lv_bindings (w_live w2) = pr_bindings p
         /\ w_file w2 = (if save then Some source else w_file w1) /\ w_conns w2 = w_conns w1
     | Err e => forall w2, step w1 w2 -> w_txn w2 = TxIdle -> w2 = w_set_txn TxIdle w1
     end.
Proof.
  intros Hb Hq. unfold change_begin in Hb. destruct (read_source (w_file w)) as [d|] eqn:Er; cbn in Hb; [|done].
  destruct (_ || _) eqn:Ec; [done|]. destruct (change_source _ _ _ _ _) as [src|] eqn:Es; cbn in Hb; [|done].
  destruct (config_from_str src) as [c|] eqn:Ecf; cbn in Hb; [|done].
  destruct (prepare w c) as [q|] eqn:Hp; [|done]. injection Hb as <- <- <-. bools.
  assert (w_file w = Some d) as Hf.
  { unfold read_source in Er. destruct (w_file w) as [t|]; cbn in Er; [|done]. by destruct (MAX_SOURCE <? _). }
  destruct (quiet_run _ _ _ _ _ _ Hq eq_refl) as (He & Hl & Ht). cbn in He, Hl. split_and!; [done..|].
  assert (pr_config q = c /\ validate c = Ok tt) as [Hc Hv].
  { destruct (prepare_inv w c q Hp) as (_ & Hv & token & p1 & E & Hm). split; [|done].
    apply prepare_listeners_config in E. cbn in E. destruct Hm as [->|[bind Hm]]; [done|].
    by apply bind_active in Hm as [_ ->]. }
  destruct (change_finish w1 save d src q seen written persisted) as [w2|e] eqn:Hfin.
  - apply finish_cases in Hfin as (file & -> & -> & _ & Hfile). cbn. rewrite He.
    split_and!; try done; [by destruct save; [intros; apply Hfile|]| |by exists c; rewrite Hc|].
    + congruence.
    + destruct save; [apply Hfile|done].
  - intros w2 Hs2 Ht2. destruct Hs2 as [RE' w1 ? ? ? Ht'|RE' w1 ? ? ? ? ? Ht'|w1 ? ? ? ? ? ? ? w2 Ht' Hf2|w1 ? ? ? ? ? ? ? e' Ht' _|
      w1 fresh sockets Ht'|w1 addr _|w1 k _|w1 i states hub|w1 file|w1 Ht'|w1 Ht']; try congruence; try done.
    + apply finish_cases in Hf2 as (file & -> & _). done.
    + destruct (accept_cases w1 addr); cbn in Ht2; congruence.
    + unfold conn_end in Ht2. destruct (w_conns w1 !! k) as [[]|]; cbn in Ht2; congruence.
    + cbn in Ht2. congruence.
    + cbn in Ht2. congruence.
Qed.
End change.

(** ** The control token *)

Section secret.
Context `{RuntimeBase}.

(** No object has a key twice, at any level. *)
Fixpoint distinct_keys (v : JsonValue) : Prop :=
  match v with
  | JvObject members => NoDup (map fst members) /\ fold_right (fun kv acc => distinct_keys kv.2 /\ acc) True members
  | JvArray items => fold_right (fun x acc => distinct_keys x /\ acc) True items
  | _ => True
  end.

Lemma distinct_get key v x : distinct_keys v -> jv_get key v = Some x -> distinct_keys x.
Proof.
  destruct v as [| | | | |members]; try done. cbn. intros [_ Hd]. induction members as [|[k y] l IH]; cbn in *; [done|].
  destruct Hd as [Hy Hd]. case_bool_decide; cbn; [by intros [= <-]|by apply IH].
Qed.

Lemma get_set key f v : jv_get key (set_member key f v) = f <$> jv_get key v.
Proof.
  destruct v as [| | | | |members]; try done. cbn. induction members as [|[k y] l IH]; cbn; [done|].
  destruct (decide (k = key)) as [->|Hne]; cbn; [by rewrite !bool_decide_true|].
  rewrite !bool_decide_false by done. apply IH.
Qed.

Lemma set_set key f g v : set_member key g (set_member key f v) = set_member key (fun x => g (f x)) v.
Proof.
  destruct v as [| | | | |members]; try done. cbn. f_equal. rewrite map_map. apply map_ext. intros [k y]. cbn.
  destruct (decide (k = key)) as [->|Hne]; cbn; [by rewrite decide_True|by rewrite decide_False].
Qed.

Lemma set_same key f v x : distinct_keys v -> jv_get key v = Some x -> f x = x -> set_member key f v = v.
Proof.
  destruct v as [| | | | |members]; try done. cbn. intros [Hn _] Hg Hf. f_equal.
  induction members as [|[k y] l IH]; cbn in *; [done|]. apply NoDup_cons in Hn as [Hk Hn].
  destruct (decide (k = key)) as [->|Hne].
  - rewrite bool_decide_true in Hg by done. cbn in Hg. injection Hg as ->. rewrite Hf. f_equal.
    rewrite <-(map_id l) at 2. apply map_ext_in. intros [k' y'] Hin. cbn. rewrite decide_False; [done|].
    intros ->. apply Hk. apply list_elem_of_In in Hin. by apply (list_elem_of_fmap_2 fst) in Hin.
  - rewrite bool_decide_false in Hg by done. f_equal. by apply IH.
Qed.

Lemma token_get_set t v : control_token_of (set_control_token t v) = (fun _ => t) <$> control_token_of v.
Proof.
  unfold control_token_of, set_control_token. rewrite get_set. destruct (jv_get "dashboard" v) as [d|]; cbn; [|done].
  by rewrite get_set.
Qed.

Lemma token_set_set t t' v : set_control_token t' (set_control_token t v) = set_control_token t' v.
Proof.
  unfold set_control_token. rewrite set_set. destruct v as [| | | | |members]; try done. cbn. f_equal.
  apply map_ext. intros [k y]. cbn. destruct (decide (k = "dashboard")); [|done]. by rewrite set_set.
Qed.

Lemma token_set_same t v : distinct_keys v -> control_token_of v = Some t -> set_control_token t v = v.
Proof.
  unfold control_token_of, set_control_token. intros Hd Ht. destruct (jv_get "dashboard" v) as [d|] eqn:E; [|done]. cbn in Ht.
  apply (set_same _ _ v d Hd E). apply (set_same _ _ d t); [by apply (distinct_get "dashboard" v)|done|done].
Qed.

(** What the editor is shown of a document. *)
Definition shown (v : JsonValue) : JsonValue :=
  if is_some_and is_string (control_token_of v) then set_control_token (JvString KEEP_SECRET) v else v.

(** The editor is shown the document with a placeholder for the control token,
    the same for every token; and the document sent back as it was shown, or with
    other changes that keep the placeholder, is saved with the token that was in
    the file: the unchanged document comes back as the same configuration. *)
Theorem token_kept_secret source v :
  json_from_str source = Some v -> distinct_keys v ->
  json_from_str (json_to_pretty (shown v)) = Some (shown v) ->
  json_from_str (String.append (json_to_pretty v) newline) = Some v ->
  redact source = Some (json_to_pretty (shown v))
  /\ (forall source2 t, json_from_str source2 = Some (set_control_token (JvString t) v) ->
        is_some_and is_string (control_token_of v) = true -> redact source2 = redact source)
  /\ (exists back, restore_secret (json_to_pretty (shown v)) source = Some back /\ json_from_str back = Some v)
  /\ (forall edited e, json_from_str edited = Some e -> control_token_of e = Some (JvString KEEP_SECRET) ->
        forall t, control_token_of v = Some (JvString t) ->
        restore_secret edited source
        = Some (String.append (json_to_pretty (set_control_token (JvString t) e)) newline)).
Proof.
  intros Hv Hd Hshown Hback. split_and!.
  - unfold redact. rewrite Hv. done.
  - intros source2 t Hs2 Hstr. unfold redact. rewrite Hv, Hs2. cbn. rewrite token_get_set, Hstr.
    destruct (control_token_of v); [|done]. cbn. by rewrite token_set_set.
  - exists (String.append (json_to_pretty v) newline). split; [|done]. unfold restore_secret. rewrite Hshown, Hv. cbn.
    unfold shown. destruct (is_some_and is_string (control_token_of v)) eqn:Es.
    + destruct (control_token_of v) as [t|] eqn:Et; [|done]. cbn in Es. rewrite token_get_set, Et. cbn.
      rewrite decide_True by done. rewrite Es. cbn. rewrite token_set_set. by rewrite (token_set_same t v Hd Et).
    + rewrite decide_False; [done|]. destruct (control_token_of v) as [t|]; [|done]. cbn in *. unfold is_string in Es.
      by destruct (jv_str t).
  - intros edited e He Hk t Ht. unfold restore_secret. rewrite He, Hv. cbn. rewrite Hk. cbn. rewrite decide_True by done.
    rewrite Ht. done.
Qed.
End secret.

(** ** What a new generation takes over *)

Section inherit.
Context `{RuntimeBase}.

(** What the newest of the earlier generations that has the upstream has of it. *)
Definition newest {A} (has : Generation -> option A) (previous : list Generation) : option A := last (omap has previous).

Lemma newest_snoc {A} (has : Generation -> option A) previous p :
  newest has (previous ++ [p]) = match has p with Some a => Some a | None => newest has previous end.
Proof.
  unfold newest. rewrite omap_app. cbn. destruct (has p); [by rewrite last_snoc|by rewrite app_nil_r].
Qed.

(** A new generation takes over, for each of its upstreams, everything the
    newest earlier generation of the pool knew of the upstream but what the
    configuration sets, and shares its connection counters, so that the limit on
    sessions holds across generations; an upstream no earlier one had starts
    afresh; no upstream is added or lost. *)
Theorem inherit_exact now g previous endpoint :
  let g' := foldl (inherit_observations now) g previous in
  g_states g' !! endpoint
  = (fun st => match newest (fun p => g_states p !! endpoint) previous with
               | Some sample => keep_configured st sample
               | None => st
               end) <$> g_states g !! endpoint
  /\ g_counters g' !! endpoint
     = (fun own => default own (newest (fun p => g_counters p !! endpoint) previous)) <$> g_counters g !! endpoint.
Proof.
  cbv zeta. induction previous as [|p previous IH] using rev_ind.
  { cbn. split; [by destruct (g_states g !! endpoint)|by destruct (g_counters g !! endpoint)]. }
  rewrite foldl_snoc, !newest_snoc. destruct IH as [IHs IHc].
  set (g1 := foldl (inherit_observations now) g previous) in *. cbn [inherit_observations g_set_states g_states g_counters].
  unfold inherit_states. rewrite !map_lookup_imap, IHs, IHc. split.
  - destruct (g_states g !! endpoint), (g_states p !! endpoint); cbn; try done. by destruct (newest _ previous).
  - by destruct (g_counters g !! endpoint), (g_counters p !! endpoint).
Qed.
End inherit.

(** ** Shutdown *)

Section drain.
Context `{RuntimeBase}.

(** What the shutdown waits for are the open client and chain API connections. *)
Lemma remaining_exact w :
  reachable w ->
  remaining (in_service w) w = count_if (fun c => is_some (ship_id c) || is_some (chain_id_of c)) (w_conns w).
Proof.
  intros Hg%reachable_good. pose proof Hg as [Hw Ha].
  assert (count_if (fun c => is_some (ship_id c) || is_some (chain_id_of c)) (w_conns w)
    = count_if (fun c => is_some_and (fun _ => true) (ship_id c)) (w_conns w)
      + count_if (fun c => is_some_and (fun _ => true) (chain_id_of c)) (w_conns w)) as ->.
  { unfold count_if. induction (w_conns w) as [|[] l IH]; cbn [List.filter ship_id chain_id_of is_some is_some_and orb length] in *; lia. }
  rewrite (count_by_gen ship_id CnShip (fun _ => true) (w_conns w) (in_service w)); [|apply ship_ids|apply Hw|].
  2: { intros c i Hc ->%ship_ids. apply (ac_kept _ Ha). by left. }
  rewrite (count_by_gen chain_id_of CnChain (fun _ => true) (w_conns w) (in_service w)); [|apply chain_ids|apply Hw|].
  2: { intros c i Hc ->%chain_ids. apply (ac_kept _ Ha). by right. }
  assert (forall l : list nat, List.filter (fun _ => true) l = l) as Hall.
  { induction l as [|x l IH]; cbn; [done|by rewrite IH]. }
  rewrite Hall, <-sum_add. unfold remaining, total_of, gens_of. pose proof (st_gens _ Hw) as Hgn.
  induction (in_service w) as [|i l IH]; [done|].
  destruct (Hgn i) as [g Hgi]; [by left|]. cbn [omap list_omap]. rewrite Hgi. cbn [map fold_right].
  rewrite IH by (intros; apply Hgn; by right). rewrite (ship_counted w i g Hg Hgi), <-(chain_counted w i g Hg Hgi).
  pose proof (chain_counted w i g Hg Hgi) as Hc. pose proof (open_of_nonneg (CnChain i) (w_conns w)).
  unfold chain_open, api_open, sat_sub in *. destruct (g_api_max g); cbn in *; lia.
Qed.

Lemma drain_loop left_ elapsed grace_ms fuel k :
  (forall j, 50 * Z.of_nat j <= elapsed j) -> grace_ms <= 50 * (Z.of_nat k + Z.of_nat fuel - 1) -> (0 < fuel)%nat ->
  exists n, drain_connections fuel left_ elapsed grace_ms k = Some n /\ (k <= n)%nat
    /\ (left_ n = 0 \/ grace_ms <= elapsed n)
    /\ forall j, (k <= j < n)%nat -> left_ j <> 0 /\ elapsed j < grace_ms.
Proof.
  intros He. revert k. induction fuel as [|fuel IH]; intros k Hg Hf; [lia|]. cbn [drain_connections].
  destruct (Z.eqb_spec (left_ k) 0) as [E|E]; [exists k; split_and!; [done|lia|by left|lia]|].
  destruct (Z.leb_spec grace_ms (elapsed k)) as [Hle|Hlt]; [exists k; split_and!; [done|lia|by right|lia]|].
  specialize (He k) as Hk. destruct (IH (S k)) as (n & Hn & Hkn & Hend & Hbefore); [lia..|].
  exists n. split_and!; [done|lia|done|]. intros j Hj. destruct (decide (j = k)) as [->|]; [done|]. apply Hbefore. lia.
Qed.

(** The shutdown ends: at the first look that finds nothing open or the grace
    period over, with looks at least 50 ms apart. *)
Theorem drain_ends left_ elapsed grace_ms :
  0 <= grace_ms -> (forall j, 50 * Z.of_nat j <= elapsed j) ->
  exists n, drain_connections (Z.to_nat (grace_ms / 50 + 2)) left_ elapsed grace_ms 0 = Some n
    /\ (left_ n = 0 \/ grace_ms <= elapsed n)
    /\ forall j, (j < n)%nat -> left_ j <> 0 /\ elapsed j < grace_ms.
Proof.
  intros Hg He.
  assert (0 <= grace_ms / 50) as Hd by (by apply Z.div_pos).
  pose proof (Z.mul_succ_div_gt grace_ms 50 ltac:(lia)).
  destruct (drain_loop left_ elapsed grace_ms (Z.to_nat (grace_ms / 50 + 2)) 0 He) as (n & Hn & _ & Hend & Hb); [lia..|].
  exists n. split_and!; [done..|]. intros j Hj. apply Hb. lia.
Qed.
End drain.

(** ** On the run *)

Lemma is_ok_ex {A E} (r : result A E) : is_ok r = true -> exists a, r = Ok a.
Proof. destruct r; [eauto|done]. Qed.

(** The replaced generation's client counts against the new limit of one. *)
Lemma accept_exact_witness :
  exists g, w_gens run_two !! 1%nat = Some g /\ w_conns (accept ship_addr run_two) = [CnShip 0].
Proof.
  destruct (is_some_ex (w_gens run_two !! 1%nat)) as [g E]; [vm_compute; reflexivity|].
  exists g. split; [exact E|].
  assert (lv_bindings (w_live run_two) !! ship_addr = Some (BShip 1)) as Hb by (vm_compute; reflexivity).
  pose proof (proj1 (accept_exact run_two ship_addr 1 g run_two_reachable E) Hb) as Hc.
  assert (g_name g = "default"%string /\ g_max g = 1) as [E1 E2].
  { apply (f_equal (fmap (fun g => (g_name g, g_max g)))) in E. vm_compute in E. injection E as E1 E2.
    split; symmetry; assumption. }
  rewrite E1, E2 in Hc. rewrite Hc. vm_compute. reflexivity.
Defined.

Lemma unchanged_listener_kept_witness :
  exists p, prepare run_client (two_clients sample_config 2) = Ok p
    /\ 0%nat ∈ en_active (w_engine (commit_sockets (map fst (pr_fresh p)) (pr_sockets p) (commit_publish p "one" run_client))).
Proof.
  destruct (is_ok_ex (prepare run_client (two_clients sample_config 2))) as [p E]; [vm_compute; reflexivity|].
  exists p. split; [exact E|].
  destruct (is_some_ex (head (planned (two_clients sample_config 2)))) as [l El]; [vm_compute; reflexivity|].
  destruct (is_some_ex (w_gens run_client !! 0%nat)) as [g Eg]; [vm_compute; reflexivity|].
  refine (proj1 (unchanged_listener_kept run_client _ p "one" l 0 run_client_reachable _ E _ _)).
  - apply idle_eq. vm_compute. reflexivity.
  - apply head_Some_elem_of. exact El.
  - split; [vm_compute; by left|]. exists g. split; [exact Eg|].
    assert (is_some_and (fun l => is_some_and (reusable (two_clients sample_config 2) l.1.1 l.1.2 l.2)
              (w_gens run_client !! 0%nat)) (head (planned (two_clients sample_config 2))) = true) as Hre
      by (vm_compute; reflexivity).
    rewrite El, Eg in Hre. exact Hre.
Defined.

Lemma change_exact_witness :
  exists disk source p, change_begin run_edit run_change false false = Ok (disk, source, p)
    /\ w_file run_edit = Some disk /\ en_revision (w_engine run_edit) = 1.
Proof.
  destruct (is_ok_ex (change_begin run_edit run_change false false)) as [[[disk source] p] E]; [vm_compute; reflexivity|].
  exists disk, source, p. split; [exact E|].
  destruct (change_exact _ run_edit run_change false disk source p _ (Some disk) true true E (rtc_refl quiet _)) as ((Hf & _ & Hr) & _).
  split; [exact Hf|exact Hr].
Defined.

Lemma token_kept_secret_witness : redact "one" = Some KEEP_SECRET.
Proof.
  refine (proj1 (token_kept_secret "one" (token_doc "secret") eq_refl _ eq_refl eq_refl)).
  cbn. split_and!; try exact I; [apply NoDup_singleton|]. apply NoDup_cons. split; [set_solver|apply NoDup_singleton].
Defined.
