(* ===== verification/SessionState.v ===== *)
(** * The session actor: its state

    Models the state of [Session] in [src/src/session/mod.rs] and the helpers
    every handler uses: the phase, the hold, the standby link, the time limits,
    and the small operations that close a link or drop a standby.

    Handlers run in a state monad [M]; what a session does to others is the list
    [s_out] of outputs, in order: frames to the client or the upstream, close
    frames, and the changes it asks of the hub.  What it reads of the rest of the
    process is the environment [SessionEnv]: the clock of the handler, and, for
    the k-th read of the session ([s_reads]), a newly published view, the fleet
    tip, the connection counters and whether a write succeeds.  Nothing relates
    one read to the next, so whatever other tasks do in between is covered.

    Counters, the session registry and log lines are left out.  [jitter]
    multiplies a duration by an [f64]; it is a function of the environment. *)

From S2P Require Import Prelude Wire Models Coverage View Planner Failover Link Client Status Stream.

Definition MONITOR_OFFLINE_SILENCE : Z := from_secs 5.
Definition OFFLINE_PROBE : Z := from_secs 1.
Definition SOLE_STALL_FACTOR : Z := 3.
Definition STALL_RECHECK : Z := from_secs 1.
Definition DEFAULT_STATUS_WAIT : Z := from_secs 10.
Definition LINGER : Z := from_secs 30.
Definition STANDBY_LINGER : Z := from_secs 60.
Definition WAIT_RECHECK : Z := from_secs 5.
Definition BLOCKLESS_RECHECK : Z := from_secs 1.
Definition MAX_DIAL_ATTEMPTS : Z := 3.

(** ** The configuration and the environment *)

(** What a session reads of its [ListenerCtx], and its own id. *)
Class SessionCfg := {
  cfg_topology : ResolvedTopology;
  cfg_stitching : StitchingPolicy;
  cfg_limits : ProxyLimits;
  cfg_live_lag_blocks : Z;
  cfg_id : Z;
}.

Class SessionEnv := {
  env_now : Z;
  env_view : nat -> option FleetView;
  env_tip : nat -> FleetView -> option BlockPos * option BlockPos;
  env_conns : nat -> Z -> Z;
  env_client_ok : nat -> bool;
  env_up_ok : nat -> bool;
  env_read_ms : Z;
  env_epoch : Z;
  env_jitter : Z -> Z -> Z;
  env_wrap : nat;
}.

Definition stitched `{SessionCfg} : bool := bool_decide (cfg_topology = RStitched).

(** ** Links and dials *)

Record Link := mkLink { lk_endpoint : string; lk_name : string; lk_st : LinkState }.

Definition lk_set_st (st : LinkState) (l : Link) : Link := mkLink (lk_endpoint l) (lk_name l) st.

Definition lk_up (l : Link) : Z := l_up (lk_st l).

Record DialTarget := mkTargetOf {
  dt_up : Z;
  dt_endpoint : string;
  dt_name : string;
  dt_role : Role;
}.

Definition target_of (u : UpstreamView) : DialTarget :=
  mkTargetOf (u_index u) (u_endpoint u) (u_name u) (u_role u).

(** [Established]: the ABI the upstream sent and its fingerprint. *)
Record Established := mkEstablished { est_abi : string; est_fp : Z; est_activity : Z }.

Inductive DialError := DialBusy | DialUnreachable | DialHandshake | DialAbiTimeout | DialAbiInvalid.

Definition new_link (t : DialTarget) (est : Established) (now : Z) : Link :=
  mkLink (dt_endpoint t) (dt_name t)
    (l_set_data_ms (est_activity est) (new_link_state (dt_up t) (dt_role t) now)).

Definition l_set_close_code (v : option Z) (st : LinkState) : LinkState :=
  mkLinkState (l_up st) (l_role st) (l_req st) (l_up_cursor st) (l_first_result_pending st)
    (l_resume_floor st) (l_expect_ids_from st) (l_keepalives_seen st) (l_last_head st)
    (l_last_lib st) v (l_unknown_forwarded_at st) (l_became_owed_at st) (l_was_owed st)
    (l_stall_recheck st) (l_stall_kept st) (l_frames st) (l_linger_until st) (l_ping_at st)
    (l_probe_until st) (l_data_ms st) (l_pong_ms st) (l_upstream_online st)
    (l_blockless_checked st).
Definition l_set_unknown_forwarded_at (v : option Z) (st : LinkState) : LinkState :=
  mkLinkState (l_up st) (l_role st) (l_req st) (l_up_cursor st) (l_first_result_pending st)
    (l_resume_floor st) (l_expect_ids_from st) (l_keepalives_seen st) (l_last_head st)
    (l_last_lib st) (l_close_code st) v (l_became_owed_at st) (l_was_owed st) (l_stall_recheck st)
    (l_stall_kept st) (l_frames st) (l_linger_until st) (l_ping_at st) (l_probe_until st)
    (l_data_ms st) (l_pong_ms st) (l_upstream_online st) (l_blockless_checked st).
Definition l_set_was_owed (v : bool) (st : LinkState) : LinkState :=
  mkLinkState (l_up st) (l_role st) (l_req st) (l_up_cursor st) (l_first_result_pending st)
    (l_resume_floor st) (l_expect_ids_from st) (l_keepalives_seen st) (l_last_head st)
    (l_last_lib st) (l_close_code st) (l_unknown_forwarded_at st) (l_became_owed_at st) v
    (l_stall_recheck st) (l_stall_kept st) (l_frames st) (l_linger_until st) (l_ping_at st)
    (l_probe_until st) (l_data_ms st) (l_pong_ms st) (l_upstream_online st)
    (l_blockless_checked st).
Definition l_set_stall_recheck (v : option Z) (st : LinkState) : LinkState :=
  mkLinkState (l_up st) (l_role st) (l_req st) (l_up_cursor st) (l_first_result_pending st)
    (l_resume_floor st) (l_expect_ids_from st) (l_keepalives_seen st) (l_last_head st)
    (l_last_lib st) (l_close_code st) (l_unknown_forwarded_at st) (l_became_owed_at st)
    (l_was_owed st) v (l_stall_kept st) (l_frames st) (l_linger_until st) (l_ping_at st)
    (l_probe_until st) (l_data_ms st) (l_pong_ms st) (l_upstream_online st)
    (l_blockless_checked st).
Definition l_set_stall_kept (v : option Z) (st : LinkState) : LinkState :=
  mkLinkState (l_up st) (l_role st) (l_req st) (l_up_cursor st) (l_first_result_pending st)
    (l_resume_floor st) (l_expect_ids_from st) (l_keepalives_seen st) (l_last_head st)
    (l_last_lib st) (l_close_code st) (l_unknown_forwarded_at st) (l_became_owed_at st)
    (l_was_owed st) (l_stall_recheck st) v (l_frames st) (l_linger_until st) (l_ping_at st)
    (l_probe_until st) (l_data_ms st) (l_pong_ms st) (l_upstream_online st)
    (l_blockless_checked st).
Definition l_set_upstream_online (v : bool) (st : LinkState) : LinkState :=
  mkLinkState (l_up st) (l_role st) (l_req st) (l_up_cursor st) (l_first_result_pending st)
    (l_resume_floor st) (l_expect_ids_from st) (l_keepalives_seen st) (l_last_head st)
    (l_last_lib st) (l_close_code st) (l_unknown_forwarded_at st) (l_became_owed_at st)
    (l_was_owed st) (l_stall_recheck st) (l_stall_kept st) (l_frames st) (l_linger_until st)
    (l_ping_at st) (l_probe_until st) (l_data_ms st) (l_pong_ms st) v (l_blockless_checked st).

(** ** Phases *)

Inductive Phase :=
| PhIdle
| PhStreaming
| PhDialing (purpose : Purpose) (step : option ServeStep)
| PhBackoff (until : Z) (purpose : Purpose)
| PhHolding (next_retry : Z) (purpose : Purpose)
| PhWaiting (block recheck : Z) (purpose : Purpose).

Record HoldInfo := mkHold {
  h_block : Z;
  h_why : HoldWhy;
  h_since : Z;
  h_deadline : option Z;
  h_attempt : Z;
  h_last_try : bool;
}.

Record Standby := mkStandby { sb_link : Link; sb_until : Z }.

Inductive Left := LeftFailover (reason : FailoverReason) | LeftReroute.

#[export] Instance ViolationKind_eq_dec : EqDecision ViolationKind.
Proof. solve_decision. Defined.
#[export] Instance UpEnd_eq_dec : EqDecision UpEnd.
Proof. solve_decision. Defined.
#[export] Instance FailoverReason_eq_dec : EqDecision FailoverReason.
Proof. solve_decision. Defined.
#[export] Instance Left_eq_dec : EqDecision Left.
Proof. solve_decision. Defined.

(** ** Outputs *)

Inductive Out :=
| OClient (frame : list Z)
| OAbi (abi : string)
| OClose (code : Z) (reason : string)
| OUpstream (endpoint : string) (frame : list Z)
| OPing (endpoint : string)
| ODial (target : DialTarget)
| OObserve (up : Z) (head lib : BlockPos)
| OStrike (endpoint : string) (block : Z)
| OMarkOffline (endpoint : string)
| ONoBlockLog (endpoint : string).

Record Session := mkSession {
  s_view : FleetView;
  s_c : ClientSide;
  s_link : option Link;
  s_retired : option Z;
  s_dial : option DialTarget;
  s_dial_attempts : Z;
  s_phase : Phase;
  s_stuck_at : option (Z * Z);
  s_ex : Excludes;
  s_busy : list (string * Z);
  s_status : StatusFlow;
  s_pending : Pending.t (Message := list Z);
  s_standby : option Standby;
  s_standby_dial : option DialTarget;
  s_dial_was_predial : bool;
  s_predial_for : option Z;
  s_hold : option HoldInfo;
  s_handoff_started : option Z;
  s_handoff_from : option Z;
  s_moved_from : option (string * Left);
  s_moved_off : option string;
  s_view_unseen : bool;
  s_blockless_moves : Z;
  s_blockless_moved_at : option Z;
  s_seam_excluded : list string;
  s_client_seen : Z;
  s_reads : nat;
  s_out : list Out;
}.

Definition set_s_view (v : FleetView) (s : Session) : Session :=
  mkSession v (s_c s) (s_link s) (s_retired s) (s_dial s) (s_dial_attempts s) (s_phase s)
    (s_stuck_at s) (s_ex s) (s_busy s) (s_status s) (s_pending s) (s_standby s) (s_standby_dial s)
    (s_dial_was_predial s) (s_predial_for s) (s_hold s) (s_handoff_started s) (s_handoff_from s)
    (s_moved_from s) (s_moved_off s) (s_view_unseen s) (s_blockless_moves s)
    (s_blockless_moved_at s) (s_seam_excluded s) (s_client_seen s) (s_reads s) (s_out s).
Definition set_s_c (v : ClientSide) (s : Session) : Session :=
  mkSession (s_view s) v (s_link s) (s_retired s) (s_dial s) (s_dial_attempts s) (s_phase s)
    (s_stuck_at s) (s_ex s) (s_busy s) (s_status s) (s_pending s) (s_standby s) (s_standby_dial s)
    (s_dial_was_predial s) (s_predial_for s) (s_hold s) (s_handoff_started s) (s_handoff_from s)
    (s_moved_from s) (s_moved_off s) (s_view_unseen s) (s_blockless_moves s)
    (s_blockless_moved_at s) (s_seam_excluded s) (s_client_seen s) (s_reads s) (s_out s).
Definition set_s_link (v : option Link) (s : Session) : Session :=
  mkSession (s_view s) (s_c s) v (s_retired s) (s_dial s) (s_dial_attempts s) (s_phase s)
    (s_stuck_at s) (s_ex s) (s_busy s) (s_status s) (s_pending s) (s_standby s) (s_standby_dial s)
    (s_dial_was_predial s) (s_predial_for s) (s_hold s) (s_handoff_started s) (s_handoff_from s)
    (s_moved_from s) (s_moved_off s) (s_view_unseen s) (s_blockless_moves s)
    (s_blockless_moved_at s) (s_seam_excluded s) (s_client_seen s) (s_reads s) (s_out s).
Definition set_s_retired (v : option Z) (s : Session) : Session :=
  mkSession (s_view s) (s_c s) (s_link s) v (s_dial s) (s_dial_attempts s) (s_phase s)
    (s_stuck_at s) (s_ex s) (s_busy s) (s_status s) (s_pending s) (s_standby s) (s_standby_dial s)
    (s_dial_was_predial s) (s_predial_for s) (s_hold s) (s_handoff_started s) (s_handoff_from s)
    (s_moved_from s) (s_moved_off s) (s_view_unseen s) (s_blockless_moves s)
    (s_blockless_moved_at s) (s_seam_excluded s) (s_client_seen s) (s_reads s) (s_out s).
Definition set_s_dial (v : option DialTarget) (s : Session) : Session :=
  mkSession (s_view s) (s_c s) (s_link s) (s_retired s) v (s_dial_attempts s) (s_phase s)
    (s_stuck_at s) (s_ex s) (s_busy s) (s_status s) (s_pending s) (s_standby s) (s_standby_dial s)
    (s_dial_was_predial s) (s_predial_for s) (s_hold s) (s_handoff_started s) (s_handoff_from s)
    (s_moved_from s) (s_moved_off s) (s_view_unseen s) (s_blockless_moves s)
    (s_blockless_moved_at s) (s_seam_excluded s) (s_client_seen s) (s_reads s) (s_out s).
Definition set_s_dial_attempts (v : Z) (s : Session) : Session :=
  mkSession (s_view s) (s_c s) (s_link s) (s_retired s) (s_dial s) v (s_phase s) (s_stuck_at s)
    (s_ex s) (s_busy s) (s_status s) (s_pending s) (s_standby s) (s_standby_dial s)
    (s_dial_was_predial s) (s_predial_for s) (s_hold s) (s_handoff_started s) (s_handoff_from s)
    (s_moved_from s) (s_moved_off s) (s_view_unseen s) (s_blockless_moves s)
    (s_blockless_moved_at s) (s_seam_excluded s) (s_client_seen s) (s_reads s) (s_out s).
Definition set_s_phase (v : Phase) (s : Session) : Session :=
  mkSession (s_view s) (s_c s) (s_link s) (s_retired s) (s_dial s) (s_dial_attempts s) v
    (s_stuck_at s) (s_ex s) (s_busy s) (s_status s) (s_pending s) (s_standby s) (s_standby_dial s)
    (s_dial_was_predial s) (s_predial_for s) (s_hold s) (s_handoff_started s) (s_handoff_from s)
    (s_moved_from s) (s_moved_off s) (s_view_unseen s) (s_blockless_moves s)
    (s_blockless_moved_at s) (s_seam_excluded s) (s_client_seen s) (s_reads s) (s_out s).
Definition set_s_stuck_at (v : option (Z * Z)) (s : Session) : Session :=
  mkSession (s_view s) (s_c s) (s_link s) (s_retired s) (s_dial s) (s_dial_attempts s) (s_phase s)
    v (s_ex s) (s_busy s) (s_status s) (s_pending s) (s_standby s) (s_standby_dial s)
    (s_dial_was_predial s) (s_predial_for s) (s_hold s) (s_handoff_started s) (s_handoff_from s)
    (s_moved_from s) (s_moved_off s) (s_view_unseen s) (s_blockless_moves s)
    (s_blockless_moved_at s) (s_seam_excluded s) (s_client_seen s) (s_reads s) (s_out s).
Definition set_s_ex (v : Excludes) (s : Session) : Session :=
  mkSession (s_view s) (s_c s) (s_link s) (s_retired s) (s_dial s) (s_dial_attempts s) (s_phase s)
    (s_stuck_at s) v (s_busy s) (s_status s) (s_pending s) (s_standby s) (s_standby_dial s)
    (s_dial_was_predial s) (s_predial_for s) (s_hold s) (s_handoff_started s) (s_handoff_from s)
    (s_moved_from s) (s_moved_off s) (s_view_unseen s) (s_blockless_moves s)
    (s_blockless_moved_at s) (s_seam_excluded s) (s_client_seen s) (s_reads s) (s_out s).
Definition set_s_busy (v : list (string * Z)) (s : Session) : Session :=
  mkSession (s_view s) (s_c s) (s_link s) (s_retired s) (s_dial s) (s_dial_attempts s) (s_phase s)
    (s_stuck_at s) (s_ex s) v (s_status s) (s_pending s) (s_standby s) (s_standby_dial s)
    (s_dial_was_predial s) (s_predial_for s) (s_hold s) (s_handoff_started s) (s_handoff_from s)
    (s_moved_from s) (s_moved_off s) (s_view_unseen s) (s_blockless_moves s)
    (s_blockless_moved_at s) (s_seam_excluded s) (s_client_seen s) (s_reads s) (s_out s).
Definition set_s_status (v : StatusFlow) (s : Session) : Session :=
  mkSession (s_view s) (s_c s) (s_link s) (s_retired s) (s_dial s) (s_dial_attempts s) (s_phase s)
    (s_stuck_at s) (s_ex s) (s_busy s) v (s_pending s) (s_standby s) (s_standby_dial s)
    (s_dial_was_predial s) (s_predial_for s) (s_hold s) (s_handoff_started s) (s_handoff_from s)
    (s_moved_from s) (s_moved_off s) (s_view_unseen s) (s_blockless_moves s)
    (s_blockless_moved_at s) (s_seam_excluded s) (s_client_seen s) (s_reads s) (s_out s).
Definition set_s_pending (v : Pending.t (Message := list Z)) (s : Session) : Session :=
  mkSession (s_view s) (s_c s) (s_link s) (s_retired s) (s_dial s) (s_dial_attempts s) (s_phase s)
    (s_stuck_at s) (s_ex s) (s_busy s) (s_status s) v (s_standby s) (s_standby_dial s)
    (s_dial_was_predial s) (s_predial_for s) (s_hold s) (s_handoff_started s) (s_handoff_from s)
    (s_moved_from s) (s_moved_off s) (s_view_unseen s) (s_blockless_moves s)
    (s_blockless_moved_at s) (s_seam_excluded s) (s_client_seen s) (s_reads s) (s_out s).
Definition set_s_standby (v : option Standby) (s : Session) : Session :=
  mkSession (s_view s) (s_c s) (s_link s) (s_retired s) (s_dial s) (s_dial_attempts s) (s_phase s)
    (s_stuck_at s) (s_ex s) (s_busy s) (s_status s) (s_pending s) v (s_standby_dial s)
    (s_dial_was_predial s) (s_predial_for s) (s_hold s) (s_handoff_started s) (s_handoff_from s)
    (s_moved_from s) (s_moved_off s) (s_view_unseen s) (s_blockless_moves s)
    (s_blockless_moved_at s) (s_seam_excluded s) (s_client_seen s) (s_reads s) (s_out s).
Definition set_s_standby_dial (v : option DialTarget) (s : Session) : Session :=
  mkSession (s_view s) (s_c s) (s_link s) (s_retired s) (s_dial s) (s_dial_attempts s) (s_phase s)
    (s_stuck_at s) (s_ex s) (s_busy s) (s_status s) (s_pending s) (s_standby s) v
    (s_dial_was_predial s) (s_predial_for s) (s_hold s) (s_handoff_started s) (s_handoff_from s)
    (s_moved_from s) (s_moved_off s) (s_view_unseen s) (s_blockless_moves s)
    (s_blockless_moved_at s) (s_seam_excluded s) (s_client_seen s) (s_reads s) (s_out s).
Definition set_s_dial_was_predial (v : bool) (s : Session) : Session :=
  mkSession (s_view s) (s_c s) (s_link s) (s_retired s) (s_dial s) (s_dial_attempts s) (s_phase s)
    (s_stuck_at s) (s_ex s) (s_busy s) (s_status s) (s_pending s) (s_standby s) (s_standby_dial s)
    v (s_predial_for s) (s_hold s) (s_handoff_started s) (s_handoff_from s) (s_moved_from s)
    (s_moved_off s) (s_view_unseen s) (s_blockless_moves s) (s_blockless_moved_at s)
    (s_seam_excluded s) (s_client_seen s) (s_reads s) (s_out s).
Definition set_s_predial_for (v : option Z) (s : Session) : Session :=
  mkSession (s_view s) (s_c s) (s_link s) (s_retired s) (s_dial s) (s_dial_attempts s) (s_phase s)
    (s_stuck_at s) (s_ex s) (s_busy s) (s_status s) (s_pending s) (s_standby s) (s_standby_dial s)
    (s_dial_was_predial s) v (s_hold s) (s_handoff_started s) (s_handoff_from s) (s_moved_from s)
    (s_moved_off s) (s_view_unseen s) (s_blockless_moves s) (s_blockless_moved_at s)
    (s_seam_excluded s) (s_client_seen s) (s_reads s) (s_out s).
Definition set_s_hold (v : option HoldInfo) (s : Session) : Session :=
  mkSession (s_view s) (s_c s) (s_link s) (s_retired s) (s_dial s) (s_dial_attempts s) (s_phase s)
    (s_stuck_at s) (s_ex s) (s_busy s) (s_status s) (s_pending s) (s_standby s) (s_standby_dial s)
    (s_dial_was_predial s) (s_predial_for s) v (s_handoff_started s) (s_handoff_from s)
    (s_moved_from s) (s_moved_off s) (s_view_unseen s) (s_blockless_moves s)
    (s_blockless_moved_at s) (s_seam_excluded s) (s_client_seen s) (s_reads s) (s_out s).
Definition set_s_handoff_started (v : option Z) (s : Session) : Session :=
  mkSession (s_view s) (s_c s) (s_link s) (s_retired s) (s_dial s) (s_dial_attempts s) (s_phase s)
    (s_stuck_at s) (s_ex s) (s_busy s) (s_status s) (s_pending s) (s_standby s) (s_standby_dial s)
    (s_dial_was_predial s) (s_predial_for s) (s_hold s) v (s_handoff_from s) (s_moved_from s)
    (s_moved_off s) (s_view_unseen s) (s_blockless_moves s) (s_blockless_moved_at s)
    (s_seam_excluded s) (s_client_seen s) (s_reads s) (s_out s).
Definition set_s_handoff_from (v : option Z) (s : Session) : Session :=
  mkSession (s_view s) (s_c s) (s_link s) (s_retired s) (s_dial s) (s_dial_attempts s) (s_phase s)
    (s_stuck_at s) (s_ex s) (s_busy s) (s_status s) (s_pending s) (s_standby s) (s_standby_dial s)
    (s_dial_was_predial s) (s_predial_for s) (s_hold s) (s_handoff_started s) v (s_moved_from s)
    (s_moved_off s) (s_view_unseen s) (s_blockless_moves s) (s_blockless_moved_at s)
    (s_seam_excluded s) (s_client_seen s) (s_reads s) (s_out s).
Definition set_s_moved_from (v : option (string * Left)) (s : Session) : Session :=
  mkSession (s_view s) (s_c s) (s_link s) (s_retired s) (s_dial s) (s_dial_attempts s) (s_phase s)
    (s_stuck_at s) (s_ex s) (s_busy s) (s_status s) (s_pending s) (s_standby s) (s_standby_dial s)
    (s_dial_was_predial s) (s_predial_for s) (s_hold s) (s_handoff_started s) (s_handoff_from s) v
    (s_moved_off s) (s_view_unseen s) (s_blockless_moves s) (s_blockless_moved_at s)
    (s_seam_excluded s) (s_client_seen s) (s_reads s) (s_out s).
Definition set_s_moved_off (v : option string) (s : Session) : Session :=
  mkSession (s_view s) (s_c s) (s_link s) (s_retired s) (s_dial s) (s_dial_attempts s) (s_phase s)
    (s_stuck_at s) (s_ex s) (s_busy s) (s_status s) (s_pending s) (s_standby s) (s_standby_dial s)
    (s_dial_was_predial s) (s_predial_for s) (s_hold s) (s_handoff_started s) (s_handoff_from s)
    (s_moved_from s) v (s_view_unseen s) (s_blockless_moves s) (s_blockless_moved_at s)
    (s_seam_excluded s) (s_client_seen s) (s_reads s) (s_out s).
Definition set_s_view_unseen (v : bool) (s : Session) : Session :=
  mkSession (s_view s) (s_c s) (s_link s) (s_retired s) (s_dial s) (s_dial_attempts s) (s_phase s)
    (s_stuck_at s) (s_ex s) (s_busy s) (s_status s) (s_pending s) (s_standby s) (s_standby_dial s)
    (s_dial_was_predial s) (s_predial_for s) (s_hold s) (s_handoff_started s) (s_handoff_from s)
    (s_moved_from s) (s_moved_off s) v (s_blockless_moves s) (s_blockless_moved_at s)
    (s_seam_excluded s) (s_client_seen s) (s_reads s) (s_out s).
Definition set_s_blockless_moves (v : Z) (s : Session) : Session :=
  mkSession (s_view s) (s_c s) (s_link s) (s_retired s) (s_dial s) (s_dial_attempts s) (s_phase s)
    (s_stuck_at s) (s_ex s) (s_busy s) (s_status s) (s_pending s) (s_standby s) (s_standby_dial s)
    (s_dial_was_predial s) (s_predial_for s) (s_hold s) (s_handoff_started s) (s_handoff_from s)
    (s_moved_from s) (s_moved_off s) (s_view_unseen s) v (s_blockless_moved_at s)
    (s_seam_excluded s) (s_client_seen s) (s_reads s) (s_out s).
Definition set_s_blockless_moved_at (v : option Z) (s : Session) : Session :=
  mkSession (s_view s) (s_c s) (s_link s) (s_retired s) (s_dial s) (s_dial_attempts s) (s_phase s)
    (s_stuck_at s) (s_ex s) (s_busy s) (s_status s) (s_pending s) (s_standby s) (s_standby_dial s)
    (s_dial_was_predial s) (s_predial_for s) (s_hold s) (s_handoff_started s) (s_handoff_from s)
    (s_moved_from s) (s_moved_off s) (s_view_unseen s) (s_blockless_moves s) v (s_seam_excluded s)
    (s_client_seen s) (s_reads s) (s_out s).
Definition set_s_seam_excluded (v : list string) (s : Session) : Session :=
  mkSession (s_view s) (s_c s) (s_link s) (s_retired s) (s_dial s) (s_dial_attempts s) (s_phase s)
    (s_stuck_at s) (s_ex s) (s_busy s) (s_status s) (s_pending s) (s_standby s) (s_standby_dial s)
    (s_dial_was_predial s) (s_predial_for s) (s_hold s) (s_handoff_started s) (s_handoff_from s)
    (s_moved_from s) (s_moved_off s) (s_view_unseen s) (s_blockless_moves s)
    (s_blockless_moved_at s) v (s_client_seen s) (s_reads s) (s_out s).
Definition set_s_client_seen (v : Z) (s : Session) : Session :=
  mkSession (s_view s) (s_c s) (s_link s) (s_retired s) (s_dial s) (s_dial_attempts s) (s_phase s)
    (s_stuck_at s) (s_ex s) (s_busy s) (s_status s) (s_pending s) (s_standby s) (s_standby_dial s)
    (s_dial_was_predial s) (s_predial_for s) (s_hold s) (s_handoff_started s) (s_handoff_from s)
    (s_moved_from s) (s_moved_off s) (s_view_unseen s) (s_blockless_moves s)
    (s_blockless_moved_at s) (s_seam_excluded s) v (s_reads s) (s_out s).
Definition set_s_reads (v : nat) (s : Session) : Session :=
  mkSession (s_view s) (s_c s) (s_link s) (s_retired s) (s_dial s) (s_dial_attempts s) (s_phase s)
    (s_stuck_at s) (s_ex s) (s_busy s) (s_status s) (s_pending s) (s_standby s) (s_standby_dial s)
    (s_dial_was_predial s) (s_predial_for s) (s_hold s) (s_handoff_started s) (s_handoff_from s)
    (s_moved_from s) (s_moved_off s) (s_view_unseen s) (s_blockless_moves s)
    (s_blockless_moved_at s) (s_seam_excluded s) (s_client_seen s) v (s_out s).
Definition set_s_out (v : list Out) (s : Session) : Session :=
  mkSession (s_view s) (s_c s) (s_link s) (s_retired s) (s_dial s) (s_dial_attempts s) (s_phase s)
    (s_stuck_at s) (s_ex s) (s_busy s) (s_status s) (s_pending s) (s_standby s) (s_standby_dial s)
    (s_dial_was_predial s) (s_predial_for s) (s_hold s) (s_handoff_started s) (s_handoff_from s)
    (s_moved_from s) (s_moved_off s) (s_view_unseen s) (s_blockless_moves s)
    (s_blockless_moved_at s) (s_seam_excluded s) (s_client_seen s) (s_reads s) v.

(** ** The monad *)

Definition M (A : Type) : Type := Session -> A * Session.

#[export] Instance M_ret : MRet M := fun A a s => (a, s).
#[export] Instance M_bind : MBind M := fun A B k m s => let '(a, s) := m s in k a s.

Definition gets {A} (f : Session -> A) : M A := fun s => (f s, s).
Definition modify (f : Session -> Session) : M unit := fun s => (tt, f s).

Inductive Flow := Continue | Stop.
#[export] Instance Flow_eq_dec : EqDecision Flow.
Proof. solve_decision. Defined.

(** [if let Flow::Stop = m.await { return Flow::Stop }]. *)
Definition or_stop (m : M Flow) (k : M Flow) : M Flow :=
  f ← m; match f with Stop => mret Stop | Continue => k end.

Definition when (b : bool) (m : M unit) : M unit := if b then m else mret tt.

(** One read of the environment. *)
Definition reading {A} (f : nat -> A) : M A := fun s => (f (s_reads s), set_s_reads (S (s_reads s)) s).

Definition output (o : Out) : M unit := modify (fun s => set_s_out (s_out s ++ [o]) s).

Section helpers.
Context `{SessionCfg, SessionEnv}.

(** Write to the client; [false] when the write fails. *)
Definition send_client (frame : list Z) : M bool :=
  ok ← reading env_client_ok; output (OClient frame);; mret ok.

(** Write to an upstream. *)
Definition send_upstream (endpoint : string) (frame : list Z) : M bool :=
  ok ← reading env_up_ok; output (OUpstream endpoint frame);; mret ok.

Definition close_client (code : Z) (reason : string) : M unit := output (OClose code reason).

Definition set_phase (p : Phase) : M unit := modify (set_s_phase p).

Definition sync_view : M unit :=
  new ← reading env_view;
  match new with
  | Some v => modify (fun s => set_s_view_unseen true (set_s_view v s))
  | None => mret tt
  end.

Definition fresh_tip_now : M (option BlockPos * option BlockPos) :=
  v ← gets s_view; reading (fun k => env_tip k v).

(** The connection counters a view points at, read now. *)
Definition set_conns (n : Z) (u : UpstreamView) : UpstreamView :=
  mkUp (u_index u) (u_endpoint u) (u_name u) (u_url u) (u_role u) (u_enabled u)
    (u_operator_disabled u) (u_online u) (u_stale u) (u_known u) (u_trace u)
    (u_chain_state u) (u_finality u) (u_head u) (u_lib u) n (u_max_sessions u) (u_priority u)
    (u_weight u) (u_quarantines u) (u_abi_fp u) (u_abi_ok u) (u_legacy_status u)
    (u_monitor_offline_since u) (u_no_block_log u).

Definition with_conns (conns : Z -> Z) (v : FleetView) : FleetView :=
  mkView (v_generation v) (v_topology v) (v_chain_id v) (v_head v) (v_lib v) (v_trace v)
    (v_chain_state v) (v_finality v) (v_ids v)
    (map (fun u => set_conns (conns (u_index u)) u) (v_upstreams v)) (v_abi v) (v_abi_source v)
    (v_frozen_unknown v) (v_status_ready v) (v_live_configured v) (v_online v) (v_live_online v)
    (v_live_overlap v) (v_anchors v).

(** The view with the counters as a planner call reads them. *)
Definition seen_view : M FleetView :=
  v ← gets s_view; reading (fun k => with_conns (env_conns k) v).

(** ** Limits *)

Definition idle_timeout : option Z :=
  if 0 <? idle_timeout_ms cfg_limits then Some (from_millis (idle_timeout_ms cfg_limits)) else None.
Definition stall_timeout : option Z :=
  if 0 <? stall_timeout_ms cfg_limits then Some (from_millis (stall_timeout_ms cfg_limits)) else None.
Definition liveness_timeout : option Z :=
  if 0 <? upstream_liveness_timeout_ms cfg_limits
  then Some (from_millis (upstream_liveness_timeout_ms cfg_limits)) else None.
Definition status_wait : Z :=
  if handshake_timeout_ms cfg_limits =? 0 then DEFAULT_STATUS_WAIT
  else from_millis (handshake_timeout_ms cfg_limits).

(** ** Links *)

Definition up_of (s : Session) (i : Z) : option UpstreamView := up (s_view s) i.

Definition on_link (f : LinkState -> LinkState) (s : Session) : Session :=
  set_s_link ((fun l => lk_set_st (f (lk_st l)) l) <$> s_link s) s.

(** [retire_link]: the slot of the old link is kept in [s_retired] or freed. *)
Definition retire_link (keep_slot : bool) : M unit :=
  l ← gets s_link;
  match l with
  | None => mret tt
  | Some l =>
      modify (fun s =>
        let s := set_s_link None s in
        let s := set_s_retired (if keep_slot then Some (lk_up l) else None) s in
        set_s_status (link_ended env_now status_wait (s_status s)) s)
  end.

Definition legacy_of (s : Session) (l : Link) : bool :=
  is_some_and u_legacy_status (up_of s (lk_up l)).

Definition link_quiescent (s : Session) (l : Link) (pre_credit : Z) : bool :=
  quiescent (lk_st l) pre_credit (legacy_of s l).

Definition link_settled (s : Session) (l : Link) : bool := settled (lk_st l) (legacy_of s l).

Definition release_move_exclusion : M bool :=
  off ← gets s_moved_off;
  match off with
  | None => mret false
  | Some from =>
      modify (fun s =>
        let s := set_s_moved_off None s in
        set_s_ex (mkExcludes (ex_soft (s_ex s))
          (List.filter (fun eu : string * Z => negb (bool_decide (eu.1 = from))) (ex_hard (s_ex s)))) s);;
      mret true
  end.

Definition discard_standby : M unit :=
  modify (fun s => set_s_standby_dial None (set_s_standby None s)).

Definition check_standby : M unit :=
  s ← gets id;
  match or_else (lk_up ∘ sb_link <$> s_standby s) (dt_up <$> s_standby_dial s) with
  | None => mret tt
  | Some i =>
      if is_some_and (fun u => u_routable u && u_online u && u_abi_ok u) (up_of s i)
      then mret tt else discard_standby
  end.

(** The upstream of every connection slot a session holds. *)
Definition own_slots (s : Session) : list Z :=
  omap id [lk_up <$> s_link s; dt_up <$> s_dial s; (lk_up ∘ sb_link) <$> s_standby s;
           dt_up <$> s_standby_dial s].

End helpers.

Definition c_set_abi_fp (v : Z) (c : ClientSide) : ClientSide :=
  mkClient (c_req c) (c_credit c) (c_cursor c) (c_delivered_for_request c) (c_head_sent c)
    (c_lib_sent c) (c_delivered c) (c_irr_hwm c) (c_last c) v.

(** [Session::new]: nothing is asked, dialed or linked. *)
Definition new_session (v : FleetView) (now : Z) : Session :=
  mkSession v new_client None None None 0 PhIdle None (mkExcludes None []) [] new_flow Pending.new
    None None false None None None None None None false 0 None [] now 0 [].
