(* ===== verification/SessionPlan.v ===== *)
(** * The session actor: requests, link ends, plans and dials

    Models of [src/src/session/mod.rs] the part of [Session] that decides where
    a request goes: the request a link is sent, the end of a link, the dials,
    and, for a stitched listener, the plan from the client's cursor, the step it
    leads to, handoffs, pre-dials, holds and waits.  Each definition is one
    method; see SessionState.v for the state and the monad. *)

From S2P Require Import Prelude Wire Models Coverage View Planner Failover Link Client Status Stream.
From S2P Require Import SessionState.

(** Close codes. *)
Definition CLOSE_NORMAL : Z := 1000.
Definition CLOSE_AWAY : Z := 1001.
Definition CLOSE_UNSUPPORTED : Z := 1003.
Definition CLOSE_INVALID : Z := 1007.
Definition CLOSE_POLICY : Z := 1008.
Definition CLOSE_ERROR : Z := 1011.

Definition is_serve (st : Step) : bool := match st with Serve _ => true | _ => false end.
Definition is_hold (st : Step) : bool := match st with Hold _ _ _ => true | _ => false end.
Definition is_streaming (p : Phase) : bool := match p with PhStreaming => true | _ => false end.

Section plan.
Context `{SessionCfg, SessionEnv}.

(** ** Link ends *)

Definition exclude (e : Exclusion) (endpoint : string) (ex : Excludes) : Excludes :=
  match e with
  | ExNone => mkExcludes None (ex_hard ex)
  | ExSoft => mkExcludes (Some endpoint) (ex_hard ex)
  | ExHard ttl => add_hard (mkExcludes None (ex_hard ex)) endpoint ttl env_now
  end.

(** The failover branch of a link end. *)
Definition fail_over (endpoint : string) (k : Z) (strike budget : bool) (delay : Z)
    (exclusion : Exclusion) (reason : FailoverReason) : M Flow :=
  req ← gets (fun s => c_req (s_c s));
  let block := if is_some req then Some k else None in
  (match strike, block with
   | true, Some block => output (OStrike endpoint block)
   | _, _ => mret tt
   end);;
  stuck ← gets s_stuck_at;
  let '(plan, stuck) := plan_same_block_failover stuck budget block delay in
  modify (set_s_stuck_at stuck);;
  match close_reason plan with
  | Some reason => close_client CLOSE_ERROR reason;; mret Stop
  | None =>
      modify (fun s =>
        set_s_moved_from (Some (endpoint, LeftFailover reason))
          (set_s_ex (exclude exclusion endpoint (s_ex s)) s));;
      set_phase (PhBackoff (env_now + env_jitter (plan_delay plan) (plan_failures plan)) PFailover);;
      mret Continue
  end.

Definition on_link_end (end_ : UpEnd) : M Flow :=
  s ← gets id;
  match s_link s with
  | None => mret Continue
  | Some link =>
      let k := c_cursor (s_c s) in
      let st := lk_st link in
      let facts := mkEndFacts (l_role st) (l_unknown_forwarded_at st) in
      let finished := link_finished (l_role st) (in_progress (s_c s)) (leg_done st) in
      if stitched && finished && quiet_end end_ then
        when (bool_decide (end_ = Moved))
          (modify (fun s => set_s_ex (mkExcludes (Some (lk_endpoint link)) (ex_hard (s_ex s))) s));;
        retire_link false;;
        phase ← gets s_phase;
        when (is_streaming phase) (set_phase PhIdle);;
        mret Continue
      else
        retire_link true;;
        match classify end_ facts k env_now with
        | CloseClient code reason _ => close_client code reason;; mret Stop
        | FailoverTo strike budget delay exclusion reason =>
            fail_over (lk_endpoint link) k strike budget delay exclusion reason
        end
  end.

(** What the handler reads of a link that ended. *)
Definition seen_end (s : Session) (link : Link) (end_ : UpEnd) : EndSeen :=
  let st := lk_st link in
  mkEndSeen end_ (mkEndFacts (l_role st) (l_unknown_forwarded_at st)) (in_progress (s_c s))
    (leg_done st) (c_cursor (s_c s))
    (if is_some (c_req (s_c s)) then Some (c_cursor (s_c s)) else None) env_now.

(** The handler plans what [plan_of_end] says: the budget after it is that of
    the plan, a plan that closes ends the session with its reason, and any other
    plan goes on. *)
Lemma on_link_end_budget (end_ : UpEnd) (s : Session) (link : Link) :
  s_link s = Some link ->
  let '(flow, s') := on_link_end end_ s in
  let '(plan, stuck_at) := plan_of_end stitched (s_stuck_at s) (seen_end s link end_) in
  s_stuck_at s' = stuck_at
  /\ match plan with
     | Some plan =>
         match close_reason plan with
         | Some reason => flow = Stop /\ last (s_out s') = Some (OClose CLOSE_ERROR reason)
         | None => flow = Continue
         end
     | None => True
     end.
Proof.
  intros Hl. unfold plan_of_end, dropped_quietly, on_link_end, mbind, M_bind, gets. cbn. rewrite Hl.
  destruct (stitched && _ && quiet_end end_); cbn.
  - unfold when, retire_link, mbind, M_bind, gets, modify.
    destruct (bool_decide _); cbn; rewrite Hl; cbn; by destruct (is_streaming _).
  - unfold retire_link, mbind, M_bind, gets, modify. cbn. rewrite Hl. cbn.
    destruct (classify end_ _ _ _) as [|strike budget delay ex reason]; cbn; [done|].
    unfold fail_over, mbind, M_bind, gets, modify. cbn.
    destruct strike, (c_req (s_c s)); cbn;
      destruct (plan_same_block_failover _ _ _ _) as [plan stuck]; cbn;
      destruct (close_reason plan); cbn; rewrite ?last_snoc; done.
Qed.

(** ** Requests *)

Definition send_request (end_ : Z) (purpose : Purpose) : M Flow :=
  s ← gets id;
  match c_req (s_c s), s_link s with
  | Some creq, Some link =>
      let target := mkTarget cfg_topology (up_of s (lk_up link) ≫= ids_begin) in
      let '(req, st) := build_request (s_c s) creq (lk_st link) end_ purpose target env_now in
      modify (set_s_link (Some (lk_set_st st link)));;
      ok ← send_upstream (lk_endpoint link) (encode_blocks_request req);
      if ok : bool then
        modify (set_s_hold None);;
        c ← gets s_c;
        set_phase (if in_progress c then PhStreaming else PhIdle);;
        mret Continue
      else on_link_end (if l_frames st =? 0 then SendFailed else Unclean)
  | _, _ => mret Continue
  end.

(** ** Dials *)

(** [spawn_dial]: a dial task holds a slot on its upstream. *)
Definition spawn_dial (up : Z) : M (option DialTarget) :=
  s ← gets id;
  match up_of s up with
  | None => mret None
  | Some u => output (ODial (target_of u));; mret (Some (target_of u))
  end.

Definition start_dial (up : Z) (purpose : Purpose) (step : option ServeStep) : M bool :=
  task ← spawn_dial up;
  match task with
  | None => mret false
  | Some t =>
      modify (fun s => set_s_dial_was_predial false (set_s_dial (Some t) s));;
      set_phase (PhDialing purpose step);;
      mret true
  end.

Definition note_link_up : M unit :=
  s ← gets id;
  match s_link s with
  | None => mret tt
  | Some l =>
      modify (on_link (l_set_upstream_online (is_some_and u_online (up_of s (lk_up l)))));;
      release_move_exclusion;;
      modify (set_s_moved_from None)
  end.

Definition adopt_link (target : DialTarget) (est : Established) : M unit :=
  modify (fun s =>
    set_s_link (Some (new_link target est env_now)) (set_s_dial_attempts 0 (set_s_retired None s)));;
  note_link_up.

Definition failover_unavailable : M Flow :=
  close_client CLOSE_ERROR "no upstream available";; mret Stop.

Definition pool_pick_now (route : option (Need * Z)) (failover : bool) : M (option Z) :=
  v ← seen_view; ex ← gets s_ex;
  mret (pool_pick v route ex failover cfg_id cfg_live_lag_blocks env_now).

Definition pool_pick_for (route : option (Need * Z)) (failover : bool) : M (option Z) :=
  pick ← pool_pick_now route failover;
  match pick with
  | Some up => mret (Some up)
  | None =>
      released ← release_move_exclusion;
      if released : bool then pool_pick_now route failover else mret None
  end.

Definition pick_for_failover (route : option (Need * Z)) : M (option Z) :=
  pick ← pool_pick_for route true;
  match pick with
  | Some up => mret (Some up)
  | None =>
      retired ← gets s_retired;
      if is_some retired then modify (set_s_retired None);; pool_pick_for route true
      else mret None
  end.

(** ** Plans *)

Definition next_step_for (sh : Shape) (from : Z) (ex : Excludes) (allow_offline : bool) : M Step :=
  tip ← fresh_tip_now; v ← seen_view; own ← gets own_slots;
  mret (next_step v tip sh from ex own cfg_id cfg_stitching cfg_live_lag_blocks allow_offline env_now).

(** A hold at capacity that only the slot of the link that just ended causes is
    planned again without it. *)
Definition without_retired (sh : Shape) (from : Z) (allow_offline : bool) (step : Step) : M Step :=
  retired ← gets s_retired;
  match step with
  | Hold _ WhyAtCapacity _ =>
      if is_some retired then
        modify (set_s_retired None);;
        ex ← gets s_ex; next_step_for sh from ex allow_offline
      else mret step
  | _ => mret step
  end.

(** A hold blamed on exclusions is busy only while an upstream that answered 503
    is among them. *)
Definition busy_or_offline (step : Step) : M Step :=
  match step with
  | Hold block WhyBusy bounded =>
      modify (fun s => set_s_busy (List.filter (fun eu : string * Z => env_now <? eu.2) (s_busy s)) s);;
      busy ← gets s_busy;
      mret (match busy with [] => Hold block WhyOffline bounded | _ => step end)
  | _ => mret step
  end.

Definition plan (from : Z) (allow_offline : bool) : M Step :=
  req ← gets (fun s => c_req (s_c s));
  match req with
  | None => mret StepDone
  | Some r =>
      let sh := shape_of r in
      ex ← gets s_ex;
      step ← next_step_for sh from ex allow_offline;
      released ← (if is_hold step then release_move_exclusion else mret false);
      step ← (if released : bool
              then ex ← gets s_ex; next_step_for sh from ex allow_offline
              else mret step);
      step ← without_retired sh from allow_offline step;
      busy_or_offline step
  end.

Definition dialed_leg (cur : ServeStep) : M (option ServeStep) :=
  tip ← fresh_tip_now; s ← gets id;
  mret (match c_req (s_c s) with
        | None => None
        | Some r =>
            serve_on (s_view s) tip (shape_of r) (c_cursor (s_c s)) (ss_up cur) (s_ex s) env_now
        end).

(** The exclusions of [online_instead_of]: the upstream a failover under way is
    leaving counts as hard. *)
Definition leaving_hard (s : Session) : Excludes :=
  match ex_soft (s_ex s) with
  | Some soft =>
      if bool_decide (fst <$> s_moved_from s = Some soft)
      then add_hard (mkExcludes None (ex_hard (s_ex s))) soft duration_max env_now
      else s_ex s
  | None => s_ex s
  end.

Definition online_instead_of (cur : ServeStep) : M (option Step) :=
  s ← gets id;
  if is_some_and u_online (up_of s (ss_up cur)) then mret None
  else
    match c_req (s_c s) with
    | None => mret None
    | Some r =>
        step ← next_step_for (shape_of r) (c_cursor (s_c s)) (leaving_hard s) false;
        mret (match step with
              | Serve st => if ss_up st =? ss_up cur then None else Some step
              | _ => None
              end)
    end.

(** ** Steps *)

Definition keep_link_if_settled : M unit :=
  s ← gets id;
  match s_link s with
  | None => mret tt
  | Some link =>
      if link_settled s link
      then modify (on_link (fun st => l_set_linger_until (Some (default (env_now + LINGER) (l_linger_until st))) st))
      else retire_link false
  end.

(** A leg served from another upstream than the one whose leg ended is a handoff. *)
Definition note_handoff (st : ServeStep) : M unit :=
  from ← gets s_handoff_from;
  match from with
  | None => mret tt
  | Some from =>
      modify (set_s_handoff_from None);;
      when (negb (from =? ss_up st)) (modify (set_s_handoff_started (Some env_now)))
  end.

Definition to_target (up : Z) (t : option DialTarget) : bool := is_some_and (fun t => dt_up t =? up) t.

(** The standby link to an upstream. *)
Definition standby_to (up : Z) (s : Session) : option Link :=
  s_standby s ≫= fun sb => if lk_up (sb_link sb) =? up then Some (sb_link sb) else None.

Definition serve (st : ServeStep) (purpose : Purpose) (pre : Z) : M Flow :=
  let up := ss_up st in
  modify (set_s_predial_for None);;
  s ← gets id;
  if is_some_and (fun l => (lk_up l =? up) && link_quiescent s l pre) (s_link s) then
    modify (set_s_dial None);; discard_standby;;
    send_request (ss_req_end st) purpose
  else
    retire_link false;;
    s ← gets id;
    match standby_to up s with
    | Some link =>
        modify (fun s =>
          set_s_link (Some link) (set_s_dial_attempts 0 (set_s_retired None
            (set_s_standby_dial None (set_s_dial None (set_s_standby None s))))));;
        note_link_up;;
        send_request (ss_req_end st) purpose
    | None =>
        if to_target up (s_dial s) then
          discard_standby;; set_phase (PhDialing purpose (Some st));; mret Continue
        else if to_target up (s_standby_dial s) then
          modify (fun s =>
            set_s_dial_was_predial true (set_s_standby_dial None (set_s_dial (s_standby_dial s) s)));;
          discard_standby;; set_phase (PhDialing purpose (Some st));; mret Continue
        else
          discard_standby;;
          ok ← start_dial up purpose (Some st);
          if ok : bool then mret Continue else failover_unavailable
    end.

(** The hold a [Hold] step starts or goes on with. *)
Definition next_hold (old : option HoldInfo) (block : Z) (why : HoldWhy) (bounded : bool) : HoldInfo :=
  let '(since, attempt, last_try) :=
    match old with
    | Some h =>
        if h_block h =? block then (h_since h, sat_add u32_max (h_attempt h) 1, h_last_try h)
        else (env_now, 0, false)
    | None => (env_now, 0, false)
    end in
  let deadline := if bounded then Some (since + from_millis (gap_wait_ms cfg_stitching)) else None in
  mkHold block why since deadline attempt last_try.

Definition for_capacity (why : HoldWhy) : bool :=
  match why with WhyAtCapacity | WhyBusy => true | WhyOffline | WhyQuarantined => false end.

Definition apply_step (step : Step) (purpose : Purpose) (pre : Z) : M Flow :=
  match step with
  | Serve st =>
      when (bool_decide (purpose = PHandoff)) (note_handoff st);;
      serve st purpose pre
  | StepDone =>
      modify (fun s => set_s_hold None (set_s_handoff_started None (set_s_handoff_from None
        (set_s_dial None (set_s_retired None s)))));;
      discard_standby;; keep_link_if_settled;; set_phase PhIdle;; mret Continue
  | Gap block => close_client CLOSE_ERROR (block_unavailable_reason block);; mret Stop
  | Wait block =>
      modify (fun s => set_s_hold None (set_s_handoff_started None (set_s_dial None (set_s_retired None s))));;
      discard_standby;; keep_link_if_settled;;
      set_phase (PhWaiting block (env_now + WAIT_RECHECK) purpose);; mret Continue
  | Hold block why bounded =>
      modify (fun s => set_s_dial None (set_s_retired None (set_s_dial_attempts 0 s)));;
      discard_standby;;
      (if for_capacity why then retire_link false else keep_link_if_settled);;
      old ← gets s_hold;
      let h := next_hold old block why bounded in
      modify (set_s_hold (Some h));;
      set_phase (PhHolding (env_now + env_jitter (hold_backoff (h_attempt h)) (h_attempt h)) purpose);;
      mret Continue
  end.

Definition plan_and_apply (from : Z) (allow_offline : bool) (purpose : Purpose) : M Flow :=
  step ← plan from allow_offline;
  credit ← gets (fun s => c_credit (s_c s));
  apply_step step purpose credit.

Definition replan (purpose : Purpose) : M Flow :=
  c ← gets s_c;
  if negb (in_progress c) then modify (set_s_hold None);; set_phase PhIdle;; mret Continue
  else plan_and_apply (c_cursor c) false purpose.

(** ** Handoffs and pre-dials *)

Definition handoff : M Flow :=
  modify (fun s => set_s_handoff_from (lk_up <$> s_link s) s);;
  c ← gets s_c;
  plan_and_apply (c_cursor c) false PHandoff.

Definition predial_now (up end_ : Z) : M unit :=
  modify (set_s_predial_for (Some end_));;
  step ← plan end_ false;
  match step with
  | Serve st =>
      if ss_up st =? up then mret tt
      else
        task ← spawn_dial (ss_up st);
        match task with Some t => modify (set_s_standby_dial (Some t)) | None => mret tt end
  | _ => mret tt
  end.

Definition maybe_predial : M unit :=
  let window := predial_blocks cfg_stitching in
  s ← gets id;
  if (window =? 0) || is_some (s_standby s) || is_some (s_standby_dial s) then mret tt
  else
    match s_link s with
    | None => mret tt
    | Some l =>
        match l_req (lk_st l) with
        | None => mret tt
        | Some r =>
            if negb (lr_clamped r) then mret tt
            else if (window <? sat_sub (lr_end r) (c_cursor (s_c s)))
                    || bool_decide (s_predial_for s = Some (lr_end r)) then mret tt
            else predial_now (lk_up l) (lr_end r)
        end
    end.

(** [leg] is the end of the link's request before the result, and whether it was
    clamped. *)
Definition after_stitched_result (leg : option (Z * bool)) (role : Role) : M Flow :=
  s ← gets id;
  if negb (in_progress (s_c s)) then
    when (is_streaming (s_phase s)) (set_phase PhIdle);;
    when (bool_decide (role = Frozen)) (modify (on_link (l_set_linger_until (Some (env_now + LINGER)))));;
    mret Continue
  else
    match leg with
    | Some (end_, true) =>
        if end_ <=? c_cursor (s_c s) then handoff else maybe_predial;; mret Continue
    | _ => maybe_predial;; mret Continue
    end.

(** ** Dials that finish *)

Definition disabled_while_dialing (target : DialTarget) : M bool :=
  sync_view;;
  s ← gets id;
  mret (negb (is_some_and u_routable (up_of s (dt_up target)))).

Definition on_dial_failed (target : DialTarget) (error : DialError) : M unit :=
  modify (fun s => set_s_ex (add_hard (s_ex s) (dt_endpoint target) DIAL_EXCLUSION env_now) s);;
  when (match error with DialBusy => false | _ => bool_decide (dt_role target = Live) end)
    (output (OMarkOffline (dt_endpoint target)));;
  sync_view.

Definition is_busy (error : DialError) : bool := match error with DialBusy => true | _ => false end.

Definition note_busy (target : DialTarget) : M unit :=
  modify (fun s => set_s_busy (s_busy s ++ [(dt_endpoint target, env_now + DIAL_EXCLUSION)]) s).

Definition excluded_abi (target : DialTarget) : M unit :=
  modify (fun s => set_s_ex (add_hard (s_ex s) (dt_endpoint target) ABI_EXCLUSION env_now) s).

(** After a stitched dial is up and its leg checked: the ABI, the link, the
    leg. *)
Definition use_stitched_link (target : DialTarget) (est : Established) (purpose : Purpose)
    (step : option ServeStep) : M Flow :=
  c ← gets s_c;
  if negb (est_fp est =? c_client_abi_fp c) && bool_decide (abi_mismatch cfg_stitching = AbiExclude) then
    excluded_abi target;; replan purpose
  else
    adopt_link target est;;
    match step, in_progress c with
    | Some st, true => send_request (ss_req_end st) purpose
    | _, _ =>
        modify (on_link (l_set_linger_until (Some (env_now + LINGER))));;
        set_phase PhIdle;; mret Continue
    end.

Definition plan_held (purpose : Purpose) : M Flow :=
  s ← gets id;
  plan_and_apply (c_cursor (s_c s)) (is_some (s_hold s)) purpose.

Definition on_stitched_dial (target : DialTarget) (outcome : result Established DialError)
    (purpose : Purpose) (step : option ServeStep) : M Flow :=
  modify (set_s_dial_was_predial false);;
  match outcome with
  | Ok est =>
      disabled ← disabled_while_dialing target;
      s ← gets id;
      let busy := in_progress (s_c s) in
      if negb disabled && busy then
        match step with
        | Some cur =>
            leg ← dialed_leg cur;
            match leg with
            | Some st => use_stitched_link target est purpose (Some st)
            | None => plan_held purpose
            end
        | None => use_stitched_link target est purpose None
        end
      else if busy then
        next ← plan (c_cursor (s_c s)) (is_some (s_hold s));
        if is_serve next then
          credit ← gets (fun s => c_credit (s_c s)); apply_step next purpose credit
        else use_stitched_link target est purpose step
      else use_stitched_link target est purpose step
  | Err error =>
      on_dial_failed target error;;
      when (is_busy error) (note_busy target);;
      modify (fun s => set_s_dial_attempts (s_dial_attempts s + 1) s);;
      s ← gets id;
      if s_dial_attempts s <? MAX_DIAL_ATTEMPTS then plan_held purpose
      else
        let block := c_cursor (s_c s) in
        apply_step (Hold block (if is_busy error then WhyBusy else WhyOffline)
                      (negb (tip_region (s_view s) block))) purpose (c_credit (s_c s))
  end.

(** The pre-dial finished. *)
Definition on_standby (outcome : result Established DialError) : M Flow :=
  s ← gets id;
  match s_standby_dial s with
  | None => mret Continue
  | Some target =>
      modify (set_s_standby_dial None);;
      match outcome with
      | Ok est =>
          if negb (est_fp est =? c_client_abi_fp (s_c s))
             && bool_decide (abi_mismatch cfg_stitching = AbiExclude)
          then excluded_abi target;; mret Continue
          else
            modify (set_s_standby (Some (mkStandby (new_link target est env_now)
                                           (env_now + STANDBY_LINGER))));;
            mret Continue
      | Err error =>
          when (is_busy error) (note_busy target);;
          modify (fun s => set_s_ex (add_hard (s_ex s) (dt_endpoint target) DIAL_EXCLUSION env_now) s);;
          mret Continue
      end
  end.
End plan.
