(* ===== verification/SessionActor.v ===== *)
(** * The session actor: the client and the upstream

    Models of [src/src/session/mod.rs] the handlers of [Session] for what its
    client sends (status requests, [get_blocks], acks, other frames) and what its
    upstream sends (results, status replies, the end of the stream).  See
    SessionState.v for the state and the monad, SessionPlan.v for the decisions,
    SessionLoop.v for dials, timers and the loop. *)

From S2P Require Import Prelude Wire Models Coverage View Planner Failover Link Client Status Stream.
From S2P Require Import SessionState SessionPlan.

Section actor.
Context `{SessionCfg, SessionEnv}.

(** ** Status *)

Definition can_relay (s : Session) : bool := bool_decide (cfg_topology = RPool) && is_some (s_link s).

(** The loop of [drive_status]; each turn takes one request off the queue. *)
Fixpoint drive_loop (fuel : nat) : M Flow :=
  match fuel with
  | O => mret Continue
  | S fuel =>
      tip ← fresh_tip_now; s ← gets id;
      let '(step, flow) := next (status_ready (s_view s) tip) (can_relay s) (s_status s) in
      modify (set_s_status flow);;
      match step with
      | None => mret Continue
      | Some (SReply v1) =>
          let '(reply, c) := router_status (s_view s) tip v1 (s_c s) in
          modify (set_s_c c);;
          match reply with
          | None => mret Continue
          | Some r =>
              ok ← send_client (rs_bytes r);
              if ok : bool then drive_loop fuel else mret Stop
          end
      | Some (SRelay v1) =>
          match s_link s with
          | None => mret Continue
          | Some l =>
              ok ← send_upstream (lk_endpoint l) (encode_status_request v1);
              if ok : bool then drive_loop fuel else mret Continue
          end
      end
  end.

Definition drive_status : M Flow :=
  f ← gets s_status; drive_loop (S (length (Status.hold f))).

Definition on_status_request (v1 : bool) : M Flow :=
  f ← gets s_status;
  let '(ok, f) := push v1 env_now status_wait f in
  if ok then modify (set_s_status f);; drive_status
  else close_client CLOSE_POLICY "too many queued status requests";; mret Stop.

(** Report a live frame's head and LIB to the fleet tip. *)
Definition observe_tip (up : Z) (role : Role) (head lib : BlockPos) : M unit :=
  when (bool_decide (role = Live)) (output (OObserve up head lib)).

Definition relay_status_reply (frame : list Z) : M Flow :=
  s ← gets id;
  let '(v1, f) := reply_arrived (s_status s) in
  modify (set_s_status f);;
  match v1, s_link s with
  | Some _, Some l =>
      (match read_head_lib frame with
       | Some (head, lib) => observe_tip (lk_up l) Live head lib
       | None => mret tt
       end);;
      let '(out, c, _) := on_status_reply cfg_topology cfg_stitching (lk_up l) frame (s_c s) [] in
      modify (set_s_c c);;
      ok ← send_client out;
      mret (if ok : bool then Continue else Stop)
  | _, _ => mret Continue
  end.

(** ** The client *)

Definition client_ack (n : Z) : M Flow :=
  s ← gets id;
  let '(fwd, c) := on_client_ack n (lk_st <$> s_link s) (s_c s) in
  modify (set_s_c c);;
  match fwd, s_link s with
  | Some raised, Some l => send_upstream (lk_endpoint l) (encode_ack raised);; mret Continue
  | _, _ => mret Continue
  end.

Definition frame_len (frame : list Z) : Z := zlen frame.

Definition buffer_client_frame (payload : list Z) : M Flow :=
  p ← gets s_pending;
  let '(ok, p) := Pending.try_push frame_len payload p in
  if ok then modify (set_s_pending p);; mret Continue
  else close_client CLOSE_POLICY "pending client buffer exceeded";; mret Stop.

Definition on_unknown_variant (variant : Z) (payload : list Z) : M Flow :=
  if stitched then
    close_client CLOSE_UNSUPPORTED (String.append "unsupported request variant " (show_u32 variant));;
    mret Stop
  else
    s ← gets id;
    match s_link s with
    | Some l =>
        ok ← send_upstream (lk_endpoint l) payload;
        if ok : bool
        then modify (on_link (l_set_unknown_forwarded_at (Some env_now)));; mret Continue
        else buffer_client_frame payload
    | None => buffer_client_frame payload
    end.

(** The loop of [flush_pending]. *)
Fixpoint flush_loop (fuel : nat) : M unit :=
  match fuel with
  | O => mret tt
  | S fuel =>
      s ← gets id;
      let '(frame, p) := Pending.pop_front frame_len (s_pending s) in
      modify (set_s_pending p);;
      match frame, s_link s with
      | Some frame, Some l =>
          ok ← send_upstream (lk_endpoint l) frame;
          if ok : bool
          then modify (on_link (l_set_unknown_forwarded_at (Some env_now)));; flush_loop fuel
          else mret tt
      | _, _ => mret tt
      end
  end.

Definition flush_pending : M unit :=
  p ← gets s_pending; flush_loop (S (length (Pending.frames p))).

(** ** New requests *)

(** An empty request stops the link's old one. *)
Definition on_empty_request (r : BlocksRequest) (pre : Z) : M Flow :=
  s ← gets id;
  match s_link s with
  | Some l =>
      if is_some (l_req (lk_st l)) then
        if link_quiescent s l pre then send_request (br_end r) PInitial
        else
          retire_link false;;
          ok ← start_dial (lk_up l) PInitial None;
          if ok : bool then mret Continue else failover_unavailable
      else set_phase PhIdle;; mret Continue
  | None => mret Continue
  end.

(** How well an upstream serves a request: [None], or whether it covers the start
    and whether it does not lag; ordered as [Option<(bool, bool)>]. *)
Definition suits (v : FleetView) (r : BlocksRequest) (up_ : Z) : option (bool * bool) :=
  (fun u => (eligible v u (need_of r) (br_start r) Online env_now,
             negb (lagging_for v u (br_start r) cfg_live_lag_blocks))) <$> up v up_.

Definition suits_rank (o : option (bool * bool)) : Z :=
  match o with None => 0 | Some (a, b) => 1 + 2 * u8_of_bool a + u8_of_bool b end.

Definition current_up (s : Session) : option Z :=
  or_else (lk_up <$> s_link s) (dt_up <$> s_dial s).

(** The upstream a new pool request goes to. *)
Definition request_target (s : Session) (r : BlocksRequest) (pick : option Z) : option Z :=
  match current_up s, pick with
  | Some cur, Some p =>
      if suits_rank (suits (s_view s) r cur) <? suits_rank (suits (s_view s) r p) then Some p else Some cur
  | Some cur, None => Some cur
  | None, p => p
  end.

Definition pick_for_request (s : Session) (r : BlocksRequest) : M (option Z) :=
  if bool_decide (current_up s ≫= suits (s_view s) r = Some (true, true)) then mret None
  else pool_pick_now (Some (need_of r, br_start r)) (is_none (s_link s)).

Definition dial_or_close (up : Z) (purpose : Purpose) : M Flow :=
  ok ← start_dial up purpose None;
  if ok : bool then mret Continue else failover_unavailable.

Definition on_pool_request (r : BlocksRequest) (pre : Z) : M Flow :=
  s ← gets id;
  pick ← pick_for_request s r;
  match request_target s r pick with
  | None =>
      match s_phase s with
      | PhBackoff until _ => set_phase (PhBackoff until PInitial);; mret Continue
      | _ => failover_unavailable
      end
  | Some target =>
      let rerouted := is_some_and (fun cur => negb (cur =? target)) (current_up s) in
      let purpose := if rerouted then PReroute else PInitial in
      match s_link s with
      | Some l =>
          when rerouted (modify (set_s_moved_from (Some (lk_endpoint l, LeftReroute))));;
          if negb rerouted && link_quiescent s l pre then send_request (br_end r) PInitial
          else retire_link false;; dial_or_close target purpose
      | None =>
          match s_phase s, rerouted with
          | PhDialing _ _, false => set_phase (PhDialing purpose None);; mret Continue
          | PhBackoff until _, _ => set_phase (PhBackoff until PInitial);; mret Continue
          | _, _ => dial_or_close target purpose
          end
      end
  end.

(** An empty stitched request: the link keeps the linger it had, or starts one. *)
Definition on_empty_stitched (r : BlocksRequest) (pre : Z) : M Flow :=
  modify (set_s_dial None);; discard_standby;;
  s ← gets id;
  match s_link s with
  | Some l =>
      if is_some (l_req (lk_st l)) then
        if link_quiescent s l pre then
          flow ← send_request (br_end r) PInitial;
          modify (on_link (l_set_linger_until (Some (default (env_now + LINGER) (l_linger_until (lk_st l))))));;
          mret flow
        else retire_link false;; set_phase PhIdle;; mret Continue
      else set_phase PhIdle;; mret Continue
  | None => set_phase PhIdle;; mret Continue
  end.

Definition on_stitched_request (r : BlocksRequest) (pre : Z) : M Flow :=
  modify (fun s => set_s_hold None (set_s_handoff_started None (set_s_handoff_from None
    (set_s_dial_attempts 0 s))));;
  if request_is_empty r then on_empty_stitched r pre
  else step ← plan (br_start r) false; apply_step step PInitial pre.

Definition on_client_request (r : BlocksRequest) : M Flow :=
  c ← gets s_c;
  let '(pre, c) := new_request r c in
  modify (fun s => on_link (l_set_resume_floor None) (set_s_stuck_at None (set_s_c c s)));;
  sync_view;;
  if stitched then on_stitched_request r pre
  else if request_is_empty r then on_empty_request r pre
  else on_pool_request r pre.

(** A client frame: a message, a close, a control frame, or the stream's end. *)
Inductive ClientEvent := CePayload (payload : list Z) | CeControl | CeClose | CeEnd.

Definition on_client (e : ClientEvent) : M Flow :=
  match e with
  | CeEnd => mret Stop
  | _ =>
      modify (set_s_client_seen env_now);;
      match e with
      | CePayload payload =>
          match decode_client payload with
          | Ok (CStatus v1) => on_status_request v1
          | Ok (CAck n) => client_ack n
          | Ok (CBlocks r) => on_client_request r
          | Err (UnknownVariant variant) => on_unknown_variant variant payload
          | Err _ => close_client CLOSE_INVALID "invalid request";; mret Stop
          end
      | CeControl => mret Continue
      | CeClose | CeEnd => mret Stop
      end
  end.

(** ** The upstream *)

(** Whether another upstream than [endpoint] could serve block [k] now. *)
Definition alternative_for (s : Session) (tip : option BlockPos * option BlockPos) (v : FleetView)
    (k : Z) (creq : BlocksRequest) (endpoint : string) : bool :=
  if stitched then
    let ex := add_hard (s_ex s) endpoint (from_secs 60) env_now in
    is_serve (next_step v tip (shape_of creq) k ex (own_slots s) cfg_id cfg_stitching
                cfg_live_lag_blocks false env_now)
  else
    existsb (fun u =>
      negb (bool_decide (u_endpoint u = endpoint)) && u_routable u && u_online u
      && negb (hard_active (s_ex s) (u_endpoint u) env_now) && negb (at_capacity u)
      && eligible v u (need_of creq) k Online env_now) (v_upstreams v).

Definition on_discontinuity : M Flow :=
  s ← gets id;
  match s_link s with
  | None => mret Continue
  | Some l =>
      flow ← on_link_end Discontinuity;
      modify (fun s => set_s_seam_excluded
        (seam_after_discontinuity (lk_endpoint l) env_now (s_ex s) (s_seam_excluded s)) s);;
      mret flow
  end.

Definition drop_replay (advance_to : option Z) : M Flow :=
  s ← gets id;
  match s_link s with
  | None => mret Continue
  | Some l =>
      let '(n, st) := drop_duplicate advance_to env_now (lk_st l) in
      modify (set_s_link (Some (lk_set_st st l)));;
      send_upstream (lk_endpoint l) (encode_ack n);; mret Continue
  end.

(** What a forwarded result changes besides the client and the link. *)
Definition after_forward (fw : Forward) (first : bool) (s : Session) : Session :=
  let s := set_s_stuck_at (stuck_after_result (s_stuck_at s) (cl_n (fw_cls fw))) s in
  if first then set_s_handoff_started None s else s.

(** [forward_result]; a client write that fails ends the session. *)
Definition forward (frame : list Z) (h : ResultHead) (fw : Forward) : M Flow :=
  s ← gets id;
  match s_link s with
  | None => mret Continue
  | Some l =>
      let st := lk_st l in
      let '(ex, seam) := seam_after_result fw (s_ex s) (s_seam_excluded s) in
      modify (fun s => set_s_seam_excluded seam (set_s_ex ex s));;
      observe_tip (l_up st) (l_role st) (rh_head h) (rh_lib h);;
      fleet ← (match l_role st with Frozen => fresh_tip_now | Live => mret (None, None) end);
      let '(out, c, st', _) :=
        forward_result cfg_topology cfg_stitching fleet env_now frame h fw (s_c s) st [] in
      ok ← send_client out;
      if negb ok then mret Stop
      else
        modify (fun s => after_forward fw (l_first_result_pending st)
          (set_s_link (Some (lk_set_st st' l)) (set_s_c c s)));;
        if stitched then
          after_stitched_result ((fun r => (lr_end r, lr_clamped r)) <$> l_req st) (l_role st)
        else
          s ← gets id;
          when (negb (in_progress (s_c s)) && is_streaming (s_phase s)) (set_phase PhIdle);;
          mret Continue
  end.

(** The upstream a failover off the archive [endpoint] would serve block [k]
    from, when that is another one not known to lack a block log. *)
Definition block_holder_for (k : Z) (endpoint : string) : M (option Z) :=
  tip ← fresh_tip_now; v ← seen_view; s ← gets id;
  mret (match c_req (s_c s) with
        | None => None
        | Some creq =>
            let ex := mkExcludes (Some endpoint) (ex_hard (s_ex s)) in
            match next_step v tip (shape_of creq) k ex (own_slots s) cfg_id cfg_stitching
                    cfg_live_lag_blocks false env_now with
            | Serve st =>
                if negb (bool_decide (ss_endpoint st = endpoint))
                   && is_some_and (fun u => negb (u_no_block_log u)) (up_of s (ss_up st))
                then Some (ss_up st) else None
            | _ => None
            end
        end).

Definition blockless_until (s : Session) (up_ k : Z) : Z :=
  match c_req (s_c s), up_of s up_ with
  | Some creq, Some u => run_end (s_view s) u (need_of creq) k env_now
  | _, _ => u32_max
  end.

(** The move off an archive without a block log that is due, if any. *)
Definition blockless_due (s : Session) (l : Link) : bool :=
  is_none_or (fun c => due c (v_generation (s_view s)) (c_cursor (s_c s)) env_now)
    (l_blockless_checked (lk_st l))
  && is_none_or (fun at_ => at_ + blockless_move_backoff (s_blockless_moves s) <=? env_now)
       (s_blockless_moved_at s).

Definition forward_without_block (frame : list Z) (h : ResultHead) (fw : Forward) : M Flow :=
  s ← gets id;
  match s_link s with
  | None => mret Continue
  | Some l =>
      let block := c_cursor (s_c s) in
      (if is_some_and u_no_block_log (up_of s (lk_up l)) then mret tt
       else output (ONoBlockLog (lk_endpoint l));; sync_view);;
      s ← gets id;
      if blockless_due s l then
        holder ← block_holder_for block (lk_endpoint l);
        match holder with
        | Some _ =>
            modify (fun s => set_s_blockless_moved_at (Some env_now)
              (set_s_blockless_moves (sat_add u32_max (s_blockless_moves s) 1) s));;
            on_link_end NoBlockLog
        | None =>
            modify (fun s => on_link (l_set_blockless_checked
              (Some (mkBlockless (v_generation (s_view s)) (blockless_until s (lk_up l) block)
                       (env_now + BLOCKLESS_RECHECK)))) s);;
            forward frame h fw
        end
      else forward frame h fw
  end.

(** How a result is judged; [None] without a request. *)
Definition judge_result (frame : list Z) (h : ResultHead) : M (option Judgement) :=
  tip ← fresh_tip_now; v ← seen_view; s ← gets id;
  mret (match s_link s, c_req (s_c s) with
        | Some l, Some creq =>
            (fun lr => judge env_wrap (s_c s) (lk_st l) creq lr h
               (lacks (up_of s (lk_up l)) creq frame h)
               (fun k => alternative_for s tip v k creq (lk_endpoint l))) <$> l_req (lk_st l)
        | _, _ => None
        end).

Definition on_block_result (frame : list Z) (h : ResultHead) : M Flow :=
  j ← judge_result frame h;
  match j with
  | None =>
      s ← gets id;
      if is_some_and (fun l => bool_decide (l_role (lk_st l) = Frozen)) (s_link s)
      then on_link_end (Violation VVariant) else mret Continue
  | Some (JEnd Discontinuity) => on_discontinuity
  | Some (JEnd e) => on_link_end e
  | Some (JDuplicate advance_to) => drop_replay advance_to
  | Some (JForward fw) =>
      if fw_no_block fw then forward_without_block frame h fw
      else modify (set_s_blockless_moves 0);; forward frame h fw
  end.

Definition on_upstream_binary (frame : list Z) : M Flow :=
  s ← gets id;
  match s_link s with
  | None => mret Continue
  | Some l =>
      let frozen := bool_decide (l_role (lk_st l) = Frozen) in
      match classify_upstream frame with
      | UBlocks h => on_block_result frame h
      | UStatus _ =>
          if frozen then on_link_end (Violation VVariant)
          else if stitched then mret Continue
          else relay_status_reply frame
      | UOther =>
          if frozen then on_link_end (Violation VVariant)
          else if stitched then mret Continue
          else ok ← send_client frame; mret (if ok : bool then Continue else Stop)
      end
  end.

(** An upstream frame, or the end of its stream. *)
Inductive UpEvent :=
| UeBinary (frame : list Z)
| UeCloseFrame (code : option Z)
| UeOther (liveness_pong : bool)
| UeTooLong
| UeEnd.

Definition on_upstream (e : UpEvent) : M Flow :=
  s ← gets id;
  match s_link s with
  | None => mret Continue
  | Some l =>
      let noted pong := modify (on_link (note_frame env_read_ms pong)) in
      match e with
      | UeTooLong => on_link_end TooLarge
      | UeEnd => on_link_end (end_kind (lk_st l))
      | UeBinary frame => noted false;; on_upstream_binary frame
      | UeCloseFrame code =>
          noted false;;
          modify (on_link (l_set_close_code (Some (default 1005 code))));; mret Continue
      | UeOther pong => noted pong;; mret Continue
      end
  end.
End actor.

(** ** The loops end *)

Section loops.
Context `{SessionCfg, SessionEnv}.

Lemma next_takes ready relay f st f' :
  next ready relay f = (Some st, f') -> length (Status.hold f) = S (length (Status.hold f')).
Proof.
  unfold next. destruct (Status.hold f) as [|v rest]; [done|].
  destruct (_ || _); [destruct (negb relay)|]; intros ?; by simplify_eq.
Qed.

Lemma drive_loop_enough fuel k s :
  (length (Status.hold (s_status s)) < fuel)%nat -> drive_loop (fuel + k) s = drive_loop fuel s.
Proof.
  revert s. induction fuel as [|fuel IH]; intros s Hlt; [lia|]. cbn [drive_loop Nat.add].
  unfold fresh_tip_now, send_client, send_upstream, output, mbind, M_bind, gets, reading, modify, mret, M_ret, id.
  cbn.
  destruct (next _ _ _) as [[st|] f'] eqn:En; [|done].
  apply next_takes in En.
  destruct st as [v1|v1].
  - destruct (router_status _ _ _ _) as [[r|] c]; [|done]. cbn.
    destruct (env_client_ok _); [|done]. apply IH. cbn. lia.
  - cbn. destruct (s_link s) as [l|]; [|done]. cbn. destruct (env_up_ok _); [|done]. apply IH. cbn. lia.
Qed.

Lemma flush_loop_enough fuel k s :
  (length (Pending.frames (s_pending s)) < fuel)%nat -> flush_loop (fuel + k) s = flush_loop fuel s.
Proof.
  revert s. induction fuel as [|fuel IH]; intros s Hlt; [lia|]. cbn [flush_loop Nat.add].
  unfold send_upstream, output, mbind, M_bind, gets, reading, modify, mret, M_ret, id, Pending.pop_front. cbn.
  destruct (Pending.frames (s_pending s)) as [|m rest]; [done|]. cbn. destruct (s_link s) as [l|]; [|done].
  cbn. destruct (env_up_ok _); [|done]. apply IH. cbn in *. lia.
Qed.
End loops.

(** C22: The loops that answer waiting status requests and forward buffered client
    frames end by themselves: with one turn more than there are requests or
    frames the bound on them is never reached, so any larger one gives the same
    result. *)
Theorem queues_drain (cfg : SessionCfg) (env : SessionEnv) (s : Session) (k : nat) :
  drive_loop (S (length (Status.hold (s_status s))) + k) s = drive_status s
  /\ flush_loop (S (length (Pending.frames (s_pending s))) + k) s = flush_pending s.
Proof. split; [apply drive_loop_enough|apply flush_loop_enough]; lia. Qed.
