(* ===== verification/SessionLoop.v ===== *)
(** * The session actor: dials, timers and the loop

    Models of [src/src/session/mod.rs] the handlers a finished dial, a timer, a
    view change and an operator start, and the loop of [Session::run]: [loop_top]
    is what a pass does before it waits, [handle_event] one arm of its [select!],
    [enabled] whether the arm may be taken; [start] is what happens before
    it ([connect_first] or [send_canonical_abi]), [finish_session] what follows it.  See
    SessionActor.v for the client and the upstream. *)

From S2P Require Import Prelude Wire Models Coverage View Planner Failover Link Client Status Stream.
From S2P Require Import SessionState SessionPlan SessionActor.

Section loop.
Context `{SessionCfg, SessionEnv}.

(** ** Dials that finish *)

Definition route_now (s : Session) : option (Need * Z) :=
  (fun r => (need_of r, c_cursor (s_c s))) <$> c_req (s_c s).

(** The request a new pool link is sent: every request but an empty one. *)
Definition resume_on_link (purpose : Purpose) : M Flow :=
  s ← gets id;
  match c_req (s_c s) with
  | Some r =>
      if request_is_empty r then set_phase PhIdle;; mret Continue
      else send_request (br_end r) purpose
  | None => set_phase PhIdle;; mret Continue
  end.

Definition use_pool_link (target : DialTarget) (est : Established) (purpose : Purpose) : M Flow :=
  adopt_link target est;;
  or_stop (resume_on_link purpose) (
    l ← gets s_link;
    if is_none l then mret Continue
    else or_stop drive_status (flush_pending;; mret Continue)).

Definition on_pool_dial (target : DialTarget) (outcome : result Established DialError)
    (purpose : Purpose) : M Flow :=
  let failover := negb (bool_decide (purpose = PInitial)) in
  match outcome with
  | Ok est =>
      disabled ← disabled_while_dialing target;
      other ← (if disabled : bool then s ← gets id; pool_pick_for (route_now s) failover else mret None);
      match other with
      | Some up => dial_or_close up purpose
      | None => use_pool_link target est purpose
      end
  | Err error =>
      on_dial_failed target error;;
      modify (fun s => set_s_dial_attempts (s_dial_attempts s + 1) s);;
      s ← gets id;
      next ← (if s_dial_attempts s <? MAX_DIAL_ATTEMPTS then pool_pick_for (route_now s) failover
              else mret None);
      dialing ← (match next with Some up => start_dial up purpose None | None => mret false end);
      if dialing : bool then mret Continue
      else modify (set_s_dial_attempts 0);; failover_unavailable
  end.

Definition dialing_for (p : Phase) : Purpose * option ServeStep :=
  match p with PhDialing purpose step => (purpose, step) | _ => (PFailover, None) end.

Definition on_dial (outcome : result Established DialError) : M Flow :=
  s ← gets id;
  match s_dial s with
  | None => mret Continue
  | Some target =>
      modify (set_s_dial None);;
      let '(purpose, step) := dialing_for (s_phase s) in
      if stitched then on_stitched_dial target outcome purpose step
      else on_pool_dial target outcome purpose
  end.

Definition on_backoff_expired (purpose : Purpose) : M Flow :=
  sync_view;;
  if stitched then replan purpose
  else
    s ← gets id;
    pick ← pick_for_failover (route_now s);
    match pick with
    | Some up => dial_or_close up purpose
    | None => failover_unavailable
    end.

(** ** Silence and liveness *)

(** Ping the link's upstream now and give it [OFFLINE_PROBE] to answer. *)
Definition on_upstream_offline : M unit :=
  s ← gets id;
  match s_link s with
  | None => mret tt
  | Some l =>
      if is_none (l_probe_until (lk_st l)) then
        modify (on_link (fun st =>
          l_set_ping_at (Some env_now) (l_set_probe_until (Some (env_now + OFFLINE_PROBE)) st)));;
        output (OPing (lk_endpoint l))
      else mret tt
  end.

Definition probe_if_lost : M unit :=
  s ← gets id;
  match s_link s with
  | None => mret tt
  | Some l =>
      let online := is_some_and u_online (up_of s (lk_up l)) in
      let lost := l_upstream_online (lk_st l) && negb online in
      modify (on_link (l_set_upstream_online online));;
      when (lost && is_some liveness_timeout) on_upstream_offline
  end.

Definition on_silent : M Flow :=
  s ← gets id;
  match s_link s with
  | None => mret Continue
  | Some l =>
      (if bool_decide (l_role (lk_st l) = Live)
       then output (OMarkOffline (lk_endpoint l));; sync_view else mret tt);;
      on_link_end Silent
  end.

(** The fleet's head, or its LIB for an irreversible request. *)
Definition fleet_gate (tip : option BlockPos * option BlockPos) (irreversible_only : bool) : option Z :=
  num <$> (if irreversible_only then tip.2 else tip.1).

Definition update_owed : M unit :=
  tip ← fresh_tip_now; s ← gets id;
  match s_link s with
  | None => mret tt
  | Some l =>
      let is_owed := owed (lk_st l) (c_credit (s_c s)) (fleet_gate tip) in
      modify (on_link (fun st =>
        l_set_was_owed is_owed
          (if is_owed && negb (l_was_owed st) then l_set_became_owed_at env_now st else st)))
  end.

Definition silence_from (l : Link) : Z :=
  Z.max (env_epoch + from_millis (data_activity_ms (lk_st l) env_read_ms)) (l_became_owed_at (lk_st l)).

Definition liveness_deadline (l : Link) : option Z :=
  limit ← liveness_timeout;
  let last_read := env_epoch + from_millis env_read_ms in
  let at_ := match l_ping_at (lk_st l) with
             | None => last_read + limit / 2
             | Some ping => Z.max (last_read + limit) (ping + limit / 2)
             end in
  Some (match l_probe_until (lk_st l) with
        | None => at_
        | Some probe => Z.min (Z.max probe (last_read + OFFLINE_PROBE)) at_
        end).

(** Whether a stall failover off [l] would move the session to another upstream
    that covers the cursor. *)
Definition stall_can_move (s : Session) (tip : option BlockPos * option BlockPos) (v : FleetView)
    (l : Link) : bool :=
  match l_role (lk_st l) with
  | Frozen => true
  | Live =>
      match c_req (s_c s) with
      | None => false
      | Some creq =>
          let k := c_cursor (s_c s) in
          let ex := mkExcludes (Some (lk_endpoint l)) (ex_hard (s_ex s)) in
          if stitched then
            match next_step v tip (shape_of creq) k ex
                    (omap id [(lk_up ∘ sb_link) <$> s_standby s]) cfg_id cfg_stitching
                    cfg_live_lag_blocks false env_now with
            | Serve st => negb (ss_up st =? lk_up l)
            | _ => false
            end
          else
            is_some_and (fun pick : Z * Z =>
              negb (pick.1 =? lk_up l)
              && is_some_and (fun u => eligible v u (need_of creq) k Online env_now) (up v pick.1))
              (pool_rank v (Some (need_of creq, k)) ex false cfg_id cfg_live_lag_blocks env_now)
      end
  end.

(** When each silence limit of an owed link is due, in the order they are
    checked.  The sums stay below the range of an instant. *)
Definition silence_deadlines (s : Session) (l : Link) : list (Z * UpEnd) :=
  let from := silence_from l in
  let offline := is_some_and (fun u => is_some (u_monitor_offline_since u)) (up_of s (lk_up l)) in
  omap id
    [ (fun limit => (from + limit, EndIdle)) <$> idle_timeout;
      (fun limit => (Z.max (from + limit) (default (from + limit) (l_stall_recheck (lk_st l))), Stall))
        <$> stall_timeout;
      if offline then Some (from + MONITOR_OFFLINE_SILENCE, MonitorOffline) else None ].

(** The loop of [silence_due]: the end that is due, and whether a stall was
    kept. *)
Fixpoint due_loop (keep : UpEnd -> bool) (ds : list (Z * UpEnd)) (kept : bool) : bool * option UpEnd :=
  match ds with
  | [] => (kept, None)
  | (at_, e) :: ds =>
      if env_now <? at_ then due_loop keep ds kept
      else if keep e then due_loop keep ds true
      else (kept, Some e)
  end.

Definition sole_limit : Z := Z.min (default duration_max stall_timeout * SOLE_STALL_FACTOR) duration_max.

Definition silence_due : M (option UpEnd) :=
  tip ← fresh_tip_now; v ← seen_view; s ← gets id;
  match s_link s with
  | None => mret None
  | Some l =>
      if negb (l_was_owed (lk_st l)) then mret None
      else
        let from := silence_from l in
        let keep e :=
          bool_decide (e = Stall) && (sat_sub env_now from <? sole_limit)
          && negb (stall_can_move s tip v l) in
        let '(kept, due) := due_loop keep (silence_deadlines s l) false in
        when (kept && is_none due)
          (modify (on_link (fun st =>
             l_set_stall_kept (Some from)
               (l_set_stall_recheck (Some (Z.min (from + sole_limit) (env_now + STALL_RECHECK))) st))));;
        mret due
  end.

(** The earliest of what the session waits for. *)
Definition earliest (ds : list Z) : option Z :=
  match ds with [] => None | d :: ds => Some (foldr Z.min d ds) end.

Definition phase_deadline (p : Phase) : option Z :=
  match p with
  | PhBackoff until _ => Some until
  | PhHolding next_retry _ => Some next_retry
  | PhWaiting _ recheck _ => Some recheck
  | PhIdle | PhStreaming | PhDialing _ _ => None
  end.

Definition client_deadline (s : Session) : option Z := (fun idle => s_client_seen s + idle) <$> idle_timeout.

Definition owed_deadline (s : Session) : option Z :=
  s_link s ≫= fun l =>
    if l_was_owed (lk_st l) then earliest (fst <$> silence_deadlines s l) else None.

Definition next_deadline (s : Session) : option Z :=
  earliest (omap id
    [ client_deadline s; Status.deadline (s_status s); phase_deadline (s_phase s);
      s_hold s ≫= h_deadline; owed_deadline s; s_link s ≫= (l_linger_until ∘ lk_st);
      sb_until <$> s_standby s; s_link s ≫= liveness_deadline ]).

(** ** Timers *)

Definition hold_expired (h : HoldInfo) : M Flow :=
  close_client CLOSE_ERROR (hold_close_reason (h_why h) (h_block h));; mret Stop.

Definition passed (at_ : option Z) : bool := is_some_and (fun t => t <=? env_now) at_.

(** The purpose of the leg a hold is for. *)
Definition holding (p : Phase) : option Purpose :=
  match p with PhHolding _ purpose | PhDialing purpose _ => Some purpose | _ => None end.

Definition h_trying (h : HoldInfo) : HoldInfo :=
  mkHold (h_block h) (h_why h) (h_since h) None (h_attempt h) true.

(** The hold is on its last try. *)
Definition last_try : M unit := modify (fun s => set_s_hold (h_trying <$> s_hold s) s).

(** A hold at its deadline: one last try, then the client is closed. *)
Definition on_hold_due (h : HoldInfo) : M Flow :=
  s ← gets id;
  match holding (s_phase s), h_last_try h with
  | Some purpose, false =>
      dialed ← (match s_phase s with PhDialing _ (Some cur) => dialed_leg cur | _ => mret None end);
      match dialed with
      | Some st =>
          last_try;;
          other ← online_instead_of st;
          match other with
          | Some step => apply_step step purpose (c_credit (s_c s))
          | None => set_phase (PhDialing purpose (Some st));; mret Continue
          end
      | None =>
          step ← plan (c_cursor (s_c s)) true;
          if is_serve step then last_try;; apply_step step purpose (c_credit (s_c s))
          else hold_expired h
      end
  | _, _ => hold_expired h
  end.

(** The part of [on_timer] that acts on the phase; [None] goes on. *)
Definition on_phase_due : M (option Flow) :=
  s ← gets id;
  match s_phase s with
  | PhBackoff until purpose =>
      if until <=? env_now then flow ← on_backoff_expired purpose; mret (Some flow) else mret None
  | PhHolding next_retry purpose =>
      if next_retry <=? env_now
      then flow ← plan_and_apply (c_cursor (s_c s)) true purpose; mret (Some flow) else mret None
  | PhWaiting _ recheck purpose =>
      if recheck <=? env_now then flow ← replan purpose; mret (Some flow) else mret None
  | _ => mret None
  end.

(** The lingering link and the unused standby at the end of [on_timer]. *)
Definition drop_unused : M Flow :=
  s ← gets id;
  (if passed (s_link s ≫= (l_linger_until ∘ lk_st)) then retire_link false else mret tt);;
  (if passed (sb_until <$> s_standby s) then discard_standby else mret tt);;
  mret Continue.

(** The liveness check of [on_timer]: a ping, or the end of the link. *)
Definition on_liveness : M (option Flow) :=
  s ← gets id;
  match s_link s with
  | Some l =>
      if passed (liveness_deadline l) then
        if is_none (l_ping_at (lk_st l)) && is_none (l_probe_until (lk_st l)) then
          modify (on_link (l_set_ping_at (Some env_now)));;
          output (OPing (lk_endpoint l));; mret None
        else flow ← on_silent; mret (Some flow)
      else mret None
  | None => mret None
  end.

(** [return] out of a handler, or go on. *)
Definition or_return (m : M (option Flow)) (k : M Flow) : M Flow :=
  r ← m; match r with Some flow => mret flow | None => k end.

(** A hold at its deadline, if the session has one. *)
Definition on_hold_timer : M (option Flow) :=
  h ← gets s_hold;
  match h with
  | Some h => if passed (h_deadline h) then flow ← on_hold_due h; mret (Some flow) else mret None
  | None => mret None
  end.

Definition on_silence_timer : M (option Flow) :=
  e ← silence_due;
  match e with
  | Some e => flow ← on_link_end e; mret (Some flow)
  | None => mret None
  end.

Definition on_timer : M Flow :=
  s ← gets id;
  if passed (client_deadline s) then mret Stop
  else if passed (Status.deadline (s_status s)) then
    close_client CLOSE_ERROR "fleet status unavailable";; mret Stop
  else
    or_return on_hold_timer (or_return on_silence_timer (or_return on_liveness
      (or_return on_phase_due drop_unused))).

(** ** Views *)

(** A leg that is being dialed, under a new view. *)
Definition on_view_dialing (purpose : Purpose) (cur : ServeStep) : M Flow :=
  leg ← dialed_leg cur;
  match leg with
  | Some st =>
      other ← online_instead_of cur;
      match other with
      | Some step => credit ← gets (fun s => c_credit (s_c s)); apply_step step purpose credit
      | None =>
          when (negb (ss_req_end st =? ss_req_end cur)) (set_phase (PhDialing purpose (Some st)));;
          mret Continue
      end
  | None =>
      s ← gets id;
      step ← plan (c_cursor (s_c s)) (is_some (s_hold s));
      if is_hold step
         && is_some_and (fun u => u_enabled u && u_operator_disabled u) (up_of s (ss_up cur))
      then mret Continue
      else apply_step step purpose (c_credit (s_c s))
  end.

Definition on_view_stitched : M Flow :=
  check_standby;;
  s ← gets id;
  match s_phase s with
  | PhWaiting _ _ purpose => replan purpose
  | PhHolding _ purpose =>
      step ← plan (c_cursor (s_c s)) false;
      if is_hold step then mret Continue else apply_step step purpose (c_credit (s_c s))
  | PhDialing purpose (Some cur) =>
      if in_progress (s_c s) then on_view_dialing purpose cur else mret Continue
  | _ => mret Continue
  end.

Definition on_view_change : M Flow :=
  modify (fun s => on_link (l_set_stall_recheck None) (set_s_view_unseen false s));;
  probe_if_lost;;
  or_stop drive_status (if stitched then on_view_stitched else mret Continue).

(** ** The operator *)

Definition on_shutdown : M Flow := close_client CLOSE_AWAY "server shutting down";; mret Stop.

(** Whether another upstream can take the session over now. *)
Definition move_possible (endpoint : string) : M bool :=
  tip ← fresh_tip_now; v ← seen_view; s ← gets id;
  let next_block := if is_some (c_req (s_c s)) then Some (c_cursor (s_c s)) else None in
  let any_other :=
    existsb (fun u => negb (bool_decide (u_endpoint u = endpoint))
                      && negb (hard_active (s_ex s) (u_endpoint u) env_now)
                      && can_take_over u next_block env_now) (v_upstreams v) in
  mret (match c_req (s_c s) with
        | Some creq =>
            if in_progress (s_c s) then alternative_for s tip v (c_cursor (s_c s)) creq endpoint
            else any_other
        | None => any_other
        end).

Definition on_operator_move : M Flow :=
  s ← gets id;
  match s_link s with
  | None => mret Continue
  | Some l =>
      let endpoint := lk_endpoint l in
      sync_view;;
      other ← move_possible endpoint;
      if negb other then mret Continue
      else
        flow ← on_link_end Moved;
        moved ← gets s_moved_from;
        when (bool_decide (moved = Some (endpoint, LeftFailover ROperator)))
          (modify (fun s => set_s_moved_off (Some endpoint)
             (set_s_ex (add_hard (s_ex s) endpoint MOVE_EXCLUSION env_now) s)));;
        mret flow
  end.

(** [on_control]: whether a close and whether a move is asked. *)
Definition on_control (close move : bool) : M Flow :=
  if close then close_client CLOSE_NORMAL "closed by operator";; mret Stop
  else if move then on_operator_move
  else mret Continue.

(** ** The loop *)

(** The arms of the [select!]. *)
Inductive Event :=
| EvShutdown
| EvClient (e : ClientEvent)
| EvControl (close move : bool)
| EvDial (outcome : result Established DialError)
| EvStandby (outcome : result Established DialError)
| EvUpstream (e : UpEvent)
| EvOffline
| EvView (v : FleetView)
| EvViewClosed
| EvTimer.

Definition waits_on_view (s : Session) : bool :=
  waiting (s_status s)
  || is_some_and (fun l => is_some (l_req (lk_st l)) && (0 <? c_credit (s_c s))) (s_link s)
  || match s_phase s with
     | PhWaiting _ _ _ | PhHolding _ _ | PhDialing _ (Some _) => true
     | _ => false
     end
  || is_some (s_standby s) || is_some (s_standby_dial s).

(** Whether an arm is enabled: its guard, and for the timer its deadline. *)
Definition enabled (s : Session) (e : Event) : bool :=
  match e with
  | EvShutdown | EvClient _ | EvControl _ _ => true
  | EvDial _ => is_some (s_dial s)
  | EvStandby _ => is_some (s_standby_dial s)
  | EvUpstream _ => is_some (s_link s)
  | EvOffline =>
      is_some liveness_timeout && is_some_and (fun l => is_none (l_probe_until (lk_st l))) (s_link s)
  | EvView _ | EvViewClosed => waits_on_view s
  | EvTimer => passed (next_deadline s)
  end.

Definition handle_event (e : Event) : M Flow :=
  match e with
  | EvShutdown => on_shutdown
  | EvClient e => on_client e
  | EvControl close move => on_control close move
  | EvDial outcome => on_dial outcome
  | EvStandby outcome => on_standby outcome
  | EvUpstream e => on_upstream e
  | EvOffline => on_upstream_offline;; mret Continue
  | EvView v => modify (set_s_view v);; on_view_change
  | EvViewClosed => mret Continue
  | EvTimer => on_timer
  end.

(** What the loop does before it waits. *)
Definition loop_top : M Flow :=
  s ← gets id;
  new ← reading (fun k => is_some (env_view k));
  or_stop (if s_view_unseen s || new then sync_view;; on_view_change else mret Continue)
    (update_owed;; mret Continue).

(** ** Before the loop *)

Definition no_upstream : M Flow := close_client CLOSE_ERROR "No upstream server available";; mret Stop.

(** The ABI goes to the client as a text message. *)
Definition send_abi (fp : Z) (abi : string) : M bool :=
  modify (fun s => set_s_c (c_set_abi_fp fp (s_c s)) s);;
  ok ← reading env_client_ok; output (OAbi abi);; mret ok.

(** The loop of [connect_first]; [outcome i] is how the dial of attempt [i]
    ends. *)
Fixpoint connect_loop (outcome : Z -> result Established DialError) (fuel : nat)
  : M (option (DialTarget * Established)) :=
  match fuel with
  | O => mret None
  | S fuel =>
      modify (fun s => set_s_dial_attempts (s_dial_attempts s + 1) s);;
      sync_view;;
      pick ← pool_pick_now None false;
      task ← (match pick with Some up => spawn_dial up | None => mret None end);
      match task with
      | None => mret None
      | Some t =>
          attempt ← gets s_dial_attempts;
          match outcome attempt with
          | Ok est => mret (Some (t, est))
          | Err error => on_dial_failed t error;; connect_loop outcome fuel
          end
      end
  end.

Definition connect_first (outcome : Z -> result Established DialError) : M Flow :=
  set_phase (PhDialing PInitial None);;
  modify (set_s_dial_attempts 0);;
  established ← connect_loop outcome (Z.to_nat MAX_DIAL_ATTEMPTS);
  match established with
  | None => no_upstream
  | Some (target, est) =>
      ok ← send_abi (est_fp est) (est_abi est);
      if negb ok then mret Stop
      else adopt_link target est;; set_phase PhIdle;; mret Continue
  end.

(** What wakes the wait of [send_canonical_abi] before its deadline. *)
Inductive AbiWait := AwShutdown | AwView | AwViewClosed.

(** [send_canonical_abi]; [waits] are the wake-ups, its end the deadline. *)
Fixpoint send_canonical_abi (waits : list AbiWait) : M Flow :=
  new ← reading env_view;
  (match new with Some v => modify (set_s_view v) | None => mret tt end);;
  v ← gets s_view;
  match (if 0 <? v_online v then v_abi v else None), waits with
  | Some abi, _ =>
      ok ← send_abi (abi_fp abi) (abi_text abi);
      if negb ok then mret Stop else set_phase PhIdle;; mret Continue
  | None, AwShutdown :: _ => on_shutdown
  | None, AwView :: waits => send_canonical_abi waits
  | None, (AwViewClosed :: _ | []) => no_upstream
  end.

Definition start (outcome : Z -> result Established DialError) (waits : list AbiWait) : M Flow :=
  or_stop (if stitched then send_canonical_abi waits else connect_first outcome)
    (modify (set_s_client_seen env_now);; mret Continue).

(** [finish]: links and dials are dropped. *)
Definition finish_session : M unit :=
  modify (fun s => set_s_standby_dial None (set_s_dial None (set_s_retired None
    (set_s_standby None (set_s_link None s))))).
End loop.
