(* ===== verification/SessionInv.v ===== *)
(** * The session actor never forgets a request

    The invariant of the session of SessionState.v, SessionPlan.v, SessionActor.v
    and SessionLoop.v, and its preservation by every handler.  Handlers are
    reasoned about with weakest preconditions ([wp]); most of what they do leaves
    the parts of the state the invariant speaks of ([core]) alone ([Quiet]). *)

From S2P Require Import Prelude Wire Models Coverage View Planner Failover Link Client Status Stream.
From S2P Require Import SessionState SessionPlan SessionActor SessionLoop.

(** ** Weakest preconditions *)

Definition wp {A} (m : M A) (s : Session) (Q : A -> Session -> Prop) : Prop := Q (m s).1 (m s).2.

Lemma wp_ret {A} (a : A) s Q : Q a s -> wp (mret a) s Q.
Proof. done. Qed.

Lemma wp_bind {A B} (m : M A) (k : A -> M B) s Q :
  wp m s (fun a s' => wp (k a) s' Q) -> wp (m ≫= k) s Q.
Proof. unfold wp, mbind, M_bind. by destruct (m s). Qed.

Lemma wp_gets {A} (f : Session -> A) s Q : Q (f s) s -> wp (gets f) s Q.
Proof. done. Qed.

Lemma wp_gets_id s (Q : Session -> Session -> Prop) : Q s s -> wp (gets id) s Q.
Proof. done. Qed.

Lemma wp_modify f s Q : Q tt (f s) -> wp (modify f) s Q.
Proof. done. Qed.

Lemma wp_mono {A} (m : M A) s (P Q : A -> Session -> Prop) :
  wp m s P -> (forall a s', P a s' -> Q a s') -> wp m s Q.
Proof. unfold wp. auto. Qed.

(** ** What the invariant speaks of *)

Record LinkKey := mkLinkKey {
  lk_role : Role;
  lk_req : option LinkReq;
  lk_cursor : UpCursor;
  lk_linger : option Z;
  lk_lib : option BlockPos;
}.

Record Core := mkCore {
  k_req : option BlocksRequest;
  k_cursor : Z;
  k_count : Z;
  k_link : option LinkKey;
  k_dialing : bool;
  k_phase : Phase;
}.

Definition key_of (st : LinkState) : LinkKey :=
  mkLinkKey (l_role st) (l_req st) (l_up_cursor st) (l_linger_until st) (l_last_lib st).

Definition core (s : Session) : Core :=
  mkCore (c_req (s_c s)) (c_cursor (s_c s)) (c_delivered_for_request (s_c s))
    ((fun l => key_of (lk_st l)) <$> s_link s) (is_some (s_dial s)) (s_phase s).

(** What is kept on the side: the view is sound, and only a stitched session
    holds. *)
Definition Side `{SessionCfg} (s : Session) : Prop :=
  SoundView (s_view s) /\ (stitched = false -> s_hold s = None).

Section quiet.
Context `{SessionCfg}.

(** A computation that leaves the core alone. *)
Definition same (s s' : Session) : Prop := core s' = core s /\ (Side s -> Side s').

#[export] Instance same_preorder : PreOrder same.
Proof. split; [by intros s|]. intros s1 s2 s3 [H1 H2] [H3 H4]. split; [congruence|auto]. Qed.

Class Quiet {A} (m : M A) : Prop := quiet_same : forall s, same s (m s).2.

Lemma wp_quiet {A} (m : M A) `{!Quiet m} s (Q : A -> Session -> Prop) :
  (forall a s', same s s' -> Q a s') -> wp m s Q.
Proof. intros HQ. apply HQ, quiet_same. Qed.

#[export] Instance quiet_ret {A} (a : A) : Quiet (mret a).
Proof. by intros s. Qed.
#[export] Instance quiet_gets {A} (f : Session -> A) : Quiet (gets f).
Proof. by intros s. Qed.
#[export] Instance quiet_reading {A} (f : nat -> A) : Quiet (reading f).
Proof. by intros s. Qed.
#[export] Instance quiet_output o : Quiet (output o).
Proof. by intros s. Qed.
Lemma quiet_bind {A B} (m : M A) (k : A -> M B) : Quiet m -> (forall a, Quiet (k a)) -> Quiet (m ≫= k).
Proof.
  intros Hm Hk s. unfold mbind, M_bind. specialize (Hm s). destruct (m s) as [a s1].
  etrans; [exact Hm|apply Hk].
Qed.
Lemma quiet_modify f : (forall s, same s (f s)) -> Quiet (modify f).
Proof. by intros Hf s. Qed.
#[export] Instance quiet_if {A} (b : bool) (m1 m2 : M A) :
  Quiet m1 -> Quiet m2 -> Quiet (if b then m1 else m2).
Proof. by destruct b. Qed.
#[export] Instance quiet_when b m : Quiet m -> Quiet (when b m).
Proof. intros Hm. unfold when. apply _. Qed.

End quiet.

(** Shows a computation quiet by its shape; [lia]-free updates of fields outside
    the core are the same by computation. *)
Ltac quiet_step :=
  lazymatch goal with
  | |- Quiet (mbind _ _) => apply quiet_bind; [|intros ?]
  | |- Quiet (when _ _) => apply quiet_when
  | |- Quiet (modify _) =>
      apply quiet_modify; intros ?; (split; [reflexivity|]); solve [intros []; split; auto]
  | |- Quiet (match _ with _ => _ end) => case_match
  | |- Quiet _ => solve [apply _]
  end.
Ltac quiet := repeat quiet_step.

(** Runs a computation: binds, reads and writes of the state, and [Quiet]
    computations, which leave [same] of their start behind. *)
Ltac wp_step :=
  lazymatch goal with
  | |- wp (mbind _ _) _ _ => apply wp_bind
  | |- wp (mret _) _ _ => apply wp_ret
  | |- wp (gets id) _ _ => apply wp_gets_id
  | |- wp (gets _) _ _ => apply wp_gets
  | |- wp (modify _) _ _ => apply wp_modify
  | |- wp (when ?b _) _ _ => unfold when; destruct b eqn:?
  | |- wp (match ?x with _ => _ end) _ _ => destruct x eqn:?
  | |- wp ?m ?s _ => apply (wp_quiet m); intros ? ? ?
  end.
Ltac wp_run := repeat (wp_step; cbn beta iota zeta).

Section same.
Context `{SessionCfg}.

Lemma quiet_wp {A} (m : M A) : (forall s, wp m s (fun _ s' => same s s')) -> Quiet m.
Proof. intros Hm s. exact (Hm s). Qed.

(** Changes of the client and the link that the core does not see. *)
Definition client_key (c : ClientSide) : option BlocksRequest * Z * Z :=
  (c_req c, c_cursor c, c_delivered_for_request c).

Lemma same_client s0 s c : same s0 s -> client_key c = client_key (s_c s0) -> same s0 (set_s_c c s).
Proof.
  intros [Hc Hv] Hk. split; [|done]. unfold core in *. unfold client_key in Hk. cbn.
  injection Hk as -> -> ->. injection Hc as _ _ _ -> -> ->. done.
Qed.

Lemma same_link s0 s f :
  same s0 s -> (forall st, key_of (f st) = key_of st) -> same s0 (on_link f s).
Proof.
  intros Hs Hf. etrans; [exact Hs|]. split; [|done]. unfold core. cbn.
  destruct (s_link s) as [l|]; [|done]. cbn. by rewrite Hf.
Qed.

End same.

(** Chains the [same] steps of a run. *)
Ltac same_step :=
  match goal with
  | |- same ?s ?s => reflexivity
  | H : same _ ?s |- same _ ?s => etrans; [|exact H]; clear H
  | |- same _ (set_s_c _ _) => apply same_client
  | |- same _ (on_link _ _) => apply same_link; [|intros ?]
  | H : same ?s0 _ |- same ?s0 _ => exact H
  | |- same ?s0 (_ _ ?s) => change (same s0 s)
  | |- same ?s _ => change (same s s); reflexivity
  end.
Ltac sames := repeat same_step; try reflexivity.

(** What a sound environment is: every view the hub publishes is sound. *)
Class SoundEnv `{SessionEnv} : Prop := env_view_sound : forall k v, env_view k = Some v -> SoundView v.

Lemma with_conns_sound conns v : SoundView v -> SoundView (with_conns conns v).
Proof.
  intros [Hc Hi].
  assert (forall log n, upstream_covers (with_conns conns v) log n <-> upstream_covers v log n) as Hu.
  { intros log n. unfold upstream_covers. split.
    - intros (u & Hin & H1 & H2 & H3). cbn in Hin. apply list_elem_of_fmap in Hin as (w & -> & Hin).
      by exists w.
    - intros (w & Hin & H1 & H2 & H3). exists (set_conns (conns (u_index w)) w). split_and!; [|done..].
      cbn. apply list_elem_of_fmap. eauto. }
  split.
  - intros log n. rewrite Hu, <-Hc. by destruct log.
  - intros n. cbn [with_conns v_ids]. rewrite Hi. by setoid_rewrite Hu.
Qed.

Section quiet_helpers.
Context `{SessionCfg, SessionEnv} {Hsound : SoundEnv}.

#[export] Instance quiet_send_client f : Quiet (send_client f).
Proof. unfold send_client. quiet. Qed.
#[export] Instance quiet_send_upstream e f : Quiet (send_upstream e f).
Proof. unfold send_upstream. quiet. Qed.
#[export] Instance quiet_close_client c r : Quiet (close_client c r).
Proof. unfold close_client. quiet. Qed.
#[export] Instance quiet_sync_view : Quiet sync_view.
Proof.
  intros s. unfold sync_view, mbind, M_bind, reading, modify.
  destruct (env_view (s_reads s)) as [v|] eqn:E; [|done]. split; [done|]. intros [_ ?]. split; [by eapply env_view_sound|done].
Qed.
#[export] Instance quiet_fresh_tip : Quiet fresh_tip_now.
Proof. unfold fresh_tip_now. quiet. Qed.
#[export] Instance quiet_seen_view : Quiet seen_view.
Proof. unfold seen_view. quiet. Qed.
#[export] Instance quiet_release : Quiet release_move_exclusion.
Proof. unfold release_move_exclusion. quiet. Qed.
#[export] Instance quiet_discard : Quiet discard_standby.
Proof. unfold discard_standby. quiet. Qed.
#[export] Instance quiet_check_standby : Quiet check_standby.
Proof. unfold check_standby. quiet. Qed.
#[export] Instance quiet_spawn_dial u : Quiet (spawn_dial u).
Proof. unfold spawn_dial. quiet. Qed.
#[export] Instance quiet_pool_pick_now r f : Quiet (pool_pick_now r f).
Proof. unfold pool_pick_now. quiet. Qed.
#[export] Instance quiet_pool_pick_for r f : Quiet (pool_pick_for r f).
Proof. unfold pool_pick_for. quiet. Qed.
#[export] Instance quiet_pick_for_failover r : Quiet (pick_for_failover r).
Proof. unfold pick_for_failover. quiet. Qed.
#[export] Instance quiet_next_step_for sh from ex off : Quiet (next_step_for sh from ex off).
Proof. unfold next_step_for. quiet. Qed.
#[export] Instance quiet_without_retired sh from off st : Quiet (without_retired sh from off st).
Proof. unfold without_retired. quiet. Qed.
#[export] Instance quiet_busy_or_offline st : Quiet (busy_or_offline st).
Proof. unfold busy_or_offline. quiet. Qed.
#[export] Instance quiet_plan from off : Quiet (plan from off).
Proof. unfold plan. quiet. Qed.
#[export] Instance quiet_dialed_leg c : Quiet (dialed_leg c).
Proof. unfold dialed_leg. quiet. Qed.
#[export] Instance quiet_online_instead_of c : Quiet (online_instead_of c).
Proof. unfold online_instead_of. quiet. Qed.
#[export] Instance quiet_note_handoff st : Quiet (note_handoff st).
Proof. unfold note_handoff. quiet. Qed.
#[export] Instance quiet_predial_now u e : Quiet (predial_now u e).
Proof. unfold predial_now. quiet. Qed.
#[export] Instance quiet_maybe_predial : Quiet maybe_predial.
Proof. unfold maybe_predial. quiet. Qed.
#[export] Instance quiet_disabled t : Quiet (disabled_while_dialing t).
Proof. unfold disabled_while_dialing. quiet. Qed.
#[export] Instance quiet_on_dial_failed t e : Quiet (on_dial_failed t e).
Proof. unfold on_dial_failed. quiet. Qed.
#[export] Instance quiet_note_busy t : Quiet (note_busy t).
Proof. unfold note_busy. quiet. Qed.
#[export] Instance quiet_excluded_abi t : Quiet (excluded_abi t).
Proof. unfold excluded_abi. quiet. Qed.
#[export] Instance quiet_on_standby o : Quiet (on_standby o).
Proof. unfold on_standby. quiet. Qed.
#[export] Instance quiet_failover_unavailable : Quiet failover_unavailable.
Proof. unfold failover_unavailable. quiet. Qed.
#[export] Instance quiet_observe_tip u r h l : Quiet (observe_tip u r h l).
Proof. unfold observe_tip. quiet. Qed.
#[export] Instance quiet_block_holder k e : Quiet (block_holder_for k e).
Proof. unfold block_holder_for. quiet. Qed.
#[export] Instance quiet_judge_result f h : Quiet (judge_result f h).
Proof. unfold judge_result. quiet. Qed.
#[export] Instance quiet_move_possible e : Quiet (move_possible e).
Proof. unfold move_possible. quiet. Qed.
#[export] Instance quiet_last_try : Quiet last_try.
Proof.
  apply quiet_modify. intros s. split; [done|]. intros [? Hh]. split; [done|]. cbn. intros E. by rewrite (Hh E).
Qed.
#[export] Instance quiet_hold_expired h : Quiet (hold_expired h).
Proof. unfold hold_expired. quiet. Qed.

Lemma router_status_key view tip v1 c : client_key (router_status view tip v1 c).2 = client_key c.
Proof. unfold router_status. by destruct tip as [[?|] [?|]]. Qed.

Lemma on_status_reply_key t p up f c tips :
  client_key (on_status_reply t p up f c tips).1.2 = client_key c.
Proof.
  unfold on_status_reply, apply_head_lib, head_lib_for. destruct (read_head_lib f) as [[h l]|]; [|done].
  by repeat case_match.
Qed.

Lemma ack_key n l c : client_key (on_client_ack n l c).2 = client_key c.
Proof. unfold on_client_ack. done. Qed.

Lemma same_key s s' : same s s' -> client_key (s_c s') = client_key (s_c s).
Proof. intros [Hc _]. unfold core in Hc. unfold client_key. by injection Hc as -> -> ->. Qed.

Lemma key_snd {A} (p : A * ClientSide) a c k : p = (a, c) -> client_key p.2 = k -> client_key c = k.
Proof. by intros ->. Qed.

Lemma quiet_drive_loop fuel : Quiet (drive_loop fuel).
Proof.
  induction fuel as [|fuel IH]; [apply _|]. apply quiet_wp. intros s. cbn [drive_loop]. wp_run; sames.
  all: erewrite <-same_key by done; (eapply key_snd; [done|apply router_status_key]).
Qed.
#[export] Instance quiet_drive_status : Quiet drive_status.
Proof. unfold drive_status. apply quiet_bind; [apply _|]. intros. apply quiet_drive_loop. Qed.
#[export] Instance quiet_on_status_request v1 : Quiet (on_status_request v1).
Proof. apply quiet_wp. intros s. unfold on_status_request. wp_run; sames. Qed.
#[export] Instance quiet_relay f : Quiet (relay_status_reply f).
Proof.
  apply quiet_wp. intros s. unfold relay_status_reply. wp_run; sames.
  all: match goal with H : on_status_reply ?t ?p ?u ?f ?c ?x = (_, _, _) |- _ =>
    pose proof (on_status_reply_key t p u f c x) as Hk; rewrite H in Hk; exact Hk end.
Qed.
#[export] Instance quiet_client_ack n : Quiet (client_ack n).
Proof.
  apply quiet_wp. intros s. unfold client_ack. wp_run; sames.
  all: by eapply key_snd; [done|apply ack_key].
Qed.
#[export] Instance quiet_buffer p : Quiet (buffer_client_frame p).
Proof. apply quiet_wp. intros s. unfold buffer_client_frame. wp_run; sames. Qed.
#[export] Instance quiet_unknown v p : Quiet (on_unknown_variant v p).
Proof. apply quiet_wp. intros s. unfold on_unknown_variant. wp_run; sames. Qed.
Lemma quiet_flush_loop fuel : Quiet (flush_loop fuel).
Proof.
  induction fuel as [|fuel IH]; [apply _|]. apply quiet_wp. intros s. cbn [flush_loop]. wp_run; sames.
Qed.
#[export] Instance quiet_flush_pending : Quiet flush_pending.
Proof. unfold flush_pending. apply quiet_bind; [apply _|]. intros. apply quiet_flush_loop. Qed.
#[export] Instance quiet_upstream_offline : Quiet on_upstream_offline.
Proof. apply quiet_wp. intros s. unfold on_upstream_offline. wp_run; sames. Qed.
#[export] Instance quiet_probe_if_lost : Quiet probe_if_lost.
Proof. apply quiet_wp. intros s. unfold probe_if_lost. wp_run; sames. Qed.
#[export] Instance quiet_update_owed : Quiet update_owed.
Proof. apply quiet_wp. intros s. unfold update_owed. wp_run; sames. by destruct (_ && _). Qed.
#[export] Instance quiet_silence_due : Quiet silence_due.
Proof. apply quiet_wp. intros s. unfold silence_due. wp_run; sames. Qed.
#[export] Instance quiet_note_link_up : Quiet note_link_up.
Proof. apply quiet_wp. intros s. unfold note_link_up. wp_run; sames. Qed.
Lemma quiet_note_frame ms pong : Quiet (modify (on_link (note_frame ms pong))).
Proof. apply quiet_modify. intros s. sames. by destruct pong. Qed.
End quiet_helpers.

(** ** The invariant *)

(** [in_progress], on the core. *)
Definition asked (k : Core) : bool :=
  is_some_and (fun r => negb (request_is_empty r) && (k_cursor k <? br_end r)) (k_req k).

(** The phases with no timer and no dial of their own. *)
Definition still (p : Phase) : bool := match p with PhIdle | PhStreaming => true | _ => false end.

Definition dials (p : Phase) : bool := match p with PhDialing _ _ => true | _ => false end.

(** The phases that may have a link. *)
Definition linked (p : Phase) : bool :=
  match p with PhDialing _ _ | PhBackoff _ _ => false | _ => true end.

(** The phases of a stitched session only. *)
Definition parks (p : Phase) : bool :=
  match p with PhHolding _ _ | PhWaiting _ _ _ => true | _ => false end.

(** A link that may be closed after a while: its upstream has nothing more to
    send that could move the cursor back. *)
Definition spent (lk : LinkKey) : Prop :=
  lk_req lk = None \/ lk_role lk = Frozen
  \/ exists r u lib, lk_req lk = Some r /\ lk_cursor lk = Exact u /\ lr_end r <= u
       /\ lk_lib lk = Some lib /\ lr_end r <= num lib + 1.

(** A frozen leg under way: its upstream is at or before the cursor, and the leg
    ends after it. *)
Definition under_way (k : Core) (lk : LinkKey) : Prop :=
  exists r u, lk_req lk = Some r /\ lk_cursor lk = Exact u /\ u <= k_cursor k < lr_end r
    /\ (lr_clamped r = true \/ forall q, k_req k = Some q -> br_end q <= lr_end r).

Record Base (k : Core) : Prop := {
  b_range : forall r, k_req k = Some r -> br_end r <= u32_max;
  b_count : 0 <= k_count k;
  b_start : forall r, k_req k = Some r -> k_count k = 0 -> k_cursor k = br_start r;
}.

Record Inv (stitch : bool) (k : Core) : Prop := {
  i_base : Base k;
  i_dial : k_dialing k = dials (k_phase k);
  i_step : stitch = true -> forall p st, k_phase k = PhDialing p st ->
    asked k = true /\ exists cur, st = Some cur /\ k_cursor k < ss_req_end cur;
  i_link : forall lk, k_link k = Some lk -> linked (k_phase k) = true;
  i_parks : parks (k_phase k) = true -> stitch = true;
  i_asked : asked k = true -> still (k_phase k) = true ->
    exists lk r, k_link k = Some lk /\ lk_req lk = Some r;
  i_frozen : stitch = true -> asked k = true -> still (k_phase k) = true ->
    forall lk, k_link k = Some lk -> lk_role lk = Frozen -> under_way k lk;
  i_linger : forall lk, k_link k = Some lk -> is_some (lk_linger lk) = true ->
    (spent lk \/ exists r, k_req k = Some r /\ request_is_empty r = true)
    /\ (still (k_phase k) = true -> asked k = false);
  i_hold : forall t p r, k_phase k = PhHolding t p -> k_req k = Some r -> request_is_empty r = true ->
    k_link k = None /\ br_end r <= k_cursor k;
}.

Definition with_link (x : option LinkKey) (k : Core) : Core :=
  mkCore (k_req k) (k_cursor k) (k_count k) x (k_dialing k) (k_phase k).
Definition with_dial (b : bool) (k : Core) : Core :=
  mkCore (k_req k) (k_cursor k) (k_count k) (k_link k) b (k_phase k).
Definition with_phase (p : Phase) (k : Core) : Core :=
  mkCore (k_req k) (k_cursor k) (k_count k) (k_link k) (k_dialing k) p.

Lemma asked_empty k r : k_req k = Some r -> request_is_empty r = true -> asked k = false.
Proof. unfold asked. intros -> He. cbn. by rewrite He. Qed.

Lemma asked_some k : asked k = true -> exists r, k_req k = Some r /\ request_is_empty r = false
  /\ k_cursor k < br_end r.
Proof. unfold asked. destruct (k_req k) as [r|]; [|done]. cbn. intros ?. bools. eauto. Qed.

(** The three shapes the handlers leave: no link and no dial, a dial, a link. *)
Lemma inv_no_link stitch k :
  Base k -> k_link k = None -> k_dialing k = false -> dials (k_phase k) = false ->
  (parks (k_phase k) = true -> stitch = true) ->
  (asked k = true -> still (k_phase k) = false) ->
  (forall t p r, k_phase k = PhHolding t p -> k_req k = Some r -> request_is_empty r = true ->
     br_end r <= k_cursor k) ->
  Inv stitch k.
Proof.
  intros Hb Hl Hd Hp Hk Ha Hh. split; try congruence; try done.
  - intros _ p st E. by rewrite E in Hp.
  - intros H1 H2. rewrite Ha in H2; done.
  - intros. split; eauto.
Qed.

Lemma inv_dialing stitch k p st :
  Base k -> k_link k = None -> k_dialing k = true -> k_phase k = PhDialing p st ->
  (stitch = true -> asked k = true /\ exists cur, st = Some cur /\ k_cursor k < ss_req_end cur) ->
  Inv stitch k.
Proof.
  intros Hb Hl Hd Hp Hs. split; rewrite ?Hp in *; try congruence; try done.
  intros ? p' st' [= <- <-]. by apply Hs.
Qed.

Lemma linked_dials p : linked p = true -> dials p = false.
Proof. by destruct p. Qed.

Lemma inv_link stitch k lk :
  Base k -> k_link k = Some lk -> k_dialing k = false -> linked (k_phase k) = true ->
  (parks (k_phase k) = true -> stitch = true) ->
  (asked k = true -> still (k_phase k) = true -> exists r, lk_req lk = Some r) ->
  (stitch = true -> asked k = true -> still (k_phase k) = true -> lk_role lk = Frozen -> under_way k lk) ->
  (is_some (lk_linger lk) = true ->
    (spent lk \/ exists r, k_req k = Some r /\ request_is_empty r = true)
    /\ (still (k_phase k) = true -> asked k = false)) ->
  (forall t p r, k_phase k = PhHolding t p -> k_req k = Some r -> request_is_empty r = false) ->
  Inv stitch k.
Proof.
  intros Hb Hl Hd Hp Hk Ha Hf Hg Hh. split; try congruence; try done.
  - by rewrite (linked_dials _ Hp).
  - intros _ p st E. by rewrite E in Hp.
  - intros H1 H2. destruct (Ha H1 H2) as [r ?]. eauto.
  - intros ? ? ? lk' E. rewrite Hl in E. injection E as <-. auto.
  - intros lk' E. rewrite Hl in E. injection E as <-. auto.
  - intros t p r Hp' Hr He. by rewrite (Hh t p r Hp' Hr) in He.
Qed.

Lemma inv_linked stitch k lk :
  Inv stitch k -> k_link k = Some lk ->
  linked (k_phase k) = true /\ dials (k_phase k) = false /\ k_dialing k = false.
Proof.
  intros Hi Hl. pose proof (i_link _ _ Hi lk Hl) as Hk. rewrite (i_dial _ _ Hi).
  by rewrite (linked_dials _ Hk).
Qed.

Section inv.
Context `{SessionCfg, SessionEnv} {Hsound : SoundEnv}.

Definition Good (s : Session) : Prop := Side s /\ Inv stitched (core s).

(** A handler that goes on leaves the invariant. *)
Definition Kept (f : Flow) (s : Session) : Prop := f = Continue -> Good s.

Lemma side_hold s h : stitched = true -> Side s -> Side (set_s_hold h s).
Proof. intros Hs [? _]. split; [done|]. congruence. Qed.

Lemma side_no_hold s : Side s -> Side (set_s_hold None s).
Proof. by intros []. Qed.

Lemma good_same s s' : same s s' -> Good s -> Good s'.
Proof. intros [Hc Hv] [H1 H2]. split; [auto|]. by rewrite Hc. Qed.

Lemma wp_retire keep s (Q : unit -> Session -> Prop) :
  (forall s', core s' = with_link None (core s) -> (Side s -> Side s') -> Q tt s') ->
  wp (retire_link keep) s Q.
Proof.
  intros HQ. unfold retire_link. wp_run; apply HQ; try done.
  unfold core, with_link. cbn. match goal with E : s_link s = None |- _ => rewrite E end. done.
Qed.

Lemma settled_spent st legacy : settled st legacy = true -> spent (key_of st).
Proof.
  unfold settled, spent, key_of. cbn. intros Hs. destruct (l_req st) as [r|]; [|by left]. right.
  destruct (l_up_cursor st) as [u|]; [|done]. destruct (lr_end r <=? u) eqn:E; [|done].
  destruct (l_role st); [|by left]. bools. right.
  destruct (l_last_lib st) as [lib|]; [|done]. cbn in *. bools. exists r, u, lib. done.
Qed.

Lemma wp_keep_settled s (Q : unit -> Session -> Prop) :
  (forall s' x, core s' = with_link x (core s) -> (Side s -> Side s') ->
     (forall lk, x = Some lk -> spent lk) -> Q tt s') ->
  wp keep_link_if_settled s Q.
Proof.
  intros HQ. unfold keep_link_if_settled. wp_step. wp_step. cbn beta. destruct (s_link s) as [l|] eqn:El.
  2: { wp_step. apply (HQ _ None); [|done..]. unfold core, with_link. cbn in *. by rewrite El. }
  destruct (link_settled _ _) eqn:Es.
  - wp_step. eapply HQ; [|done|].
    + unfold core, on_link, with_link. cbn in *. rewrite El. done.
    + cbn. intros lk [= <-]. by apply settled_spent in Es.
  - apply wp_retire. intros s' Hc Hv. by apply (HQ _ None).
Qed.

Lemma wp_fail_over endpoint k strike budget delay ex reason s (Q : Flow -> Session -> Prop) :
  (forall s', Q Stop s') ->
  (forall s' until, core s' = with_phase (PhBackoff until PFailover) (core s) ->
     (Side s -> Side s') -> Q Continue s') ->
  wp (fail_over endpoint k strike budget delay ex reason) s Q.
Proof.
  intros HS HC. unfold fail_over, set_phase, close_client, output. wp_run; try apply HS.
  all: eapply HC; [reflexivity|done].
Qed.

Lemma base_with_phase p k : Base (with_phase p k) <-> Base k.
Proof. split; intros []; split; done. Qed.
Lemma base_with_link x k : Base (with_link x k) <-> Base k.
Proof. split; intros []; split; done. Qed.
Lemma base_with_dial b k : Base (with_dial b k) <-> Base k.
Proof. split; intros []; split; done. Qed.

(** What the end of a link needs: a frozen leg that serves is not done. *)
Record EndReady (k : Core) : Prop := {
  er_base : Base k;
  er_dial : k_dialing k = false;
  er_leg : stitched = true -> asked k = true -> still (k_phase k) || dials (k_phase k) = true ->
    forall lk, k_link k = Some lk -> lk_role lk = Frozen ->
      exists r u, lk_req lk = Some r /\ lk_cursor lk = Exact u /\ u < lr_end r;
  er_dials : stitched = true -> dials (k_phase k) = true -> asked k = true;
  er_hold : forall t p r, k_phase k = PhHolding t p -> k_req k = Some r -> request_is_empty r = true ->
    br_end r <= k_cursor k;
}.

Lemma good_end_ready s l : Good s -> s_link s = Some l -> EndReady (core s).
Proof.
  intros [_ Hi] Hl. destruct (inv_linked _ _ (key_of (lk_st l)) Hi) as (_ & Hp & Hd).
  { unfold core. cbn. by rewrite Hl. }
  split; [apply Hi|done|..].
  - intros Hs Ha Hst lk Hlk Hr. rewrite Hp, orb_false_r in Hst.
    destruct (i_frozen _ _ Hi Hs Ha Hst lk Hlk Hr) as (r & u & ? & ? & ? & _). exists r, u. split_and!; [done..|lia].
  - by rewrite Hp.
  - intros t p r H1 H2 H3. by destruct (i_hold _ _ Hi t p r H1 H2 H3).
Qed.

(** A link that ends with nothing owed is dropped. *)
Lemma dropped_inv k st :
  EndReady k -> k_link k = Some (key_of st) -> stitched = true ->
  negb (asked k) || (bool_decide (l_role st = Frozen) && leg_done st) = true ->
  Inv stitched (with_phase (if is_streaming (k_phase k) then PhIdle else k_phase k) (with_link None k)).
Proof.
  intros He Hl Hs Hf.
  assert (asked k = true -> still (k_phase k) || dials (k_phase k) = false) as Hfin.
  { intros Ha. rewrite Ha in Hf. cbn in Hf. bools. destruct (still _ || dials _) eqn:E; [|done].
    destruct (er_leg _ He Hs Ha E _ Hl) as (r & u & Hr & Hu & Hlt); [done|]. cbn in Hr, Hu.
    unfold leg_done in *. rewrite Hr, Hu in *. bools. lia. }
  assert (dials (k_phase k) = false) as Hnd.
  { destruct (dials _) eqn:E; [|done]. rewrite (er_dials _ He) in Hfin by done.
    specialize (Hfin eq_refl). by destruct (still _). }
  rewrite Hnd, orb_false_r in Hfin. apply inv_no_link; cbn.
  - apply base_with_phase, base_with_link, He.
  - done.
  - apply He.
  - by destruct (is_streaming _).
  - done.
  - intros Ha. specialize (Hfin Ha). by destruct (k_phase k).
  - intros t p r E. apply (er_hold _ He t p r). by destruct (k_phase k).
Qed.

Lemma wp_if_streaming s (Q : unit -> Session -> Prop) :
  (forall s', core s' = with_phase (if is_streaming (s_phase s) then PhIdle else s_phase s) (core s) ->
     (Side s -> Side s') -> Q tt s') ->
  wp (when (is_streaming (s_phase s)) (set_phase PhIdle)) s Q.
Proof. intros HQ. unfold set_phase. wp_run; apply HQ; cbn; by rewrite ?Heqb. Qed.

Lemma backoff_inv k until :
  EndReady k -> Inv stitched (with_phase (PhBackoff until PFailover) (with_link None k)).
Proof.
  intros He. apply inv_no_link; try done; [apply base_with_phase, base_with_link, He|apply He].
Qed.

Lemma on_link_end_kept e s :
  Side s -> EndReady (core s) -> is_some (s_link s) = true -> wp (on_link_end e) s Kept.
Proof.
  intros Hv He Hl. unfold on_link_end. wp_step. wp_step. cbn beta zeta.
  destruct (s_link s) as [l|] eqn:El; [|done].
  assert (k_link (core s) = Some (key_of (lk_st l))) as Hk by (unfold core; cbn; by rewrite El).
  destruct (stitched && _ && quiet_end e) eqn:Ef.
  - bools. wp_step.
    apply (wp_mono _ _ (fun _ s' => core s' = core s /\ (Side s -> Side s'))); [by wp_run|].
    intros _ s1 [H1c H1v]. wp_step. apply wp_retire. intros s2 H2c H2v. wp_step. wp_step. wp_step.
    apply wp_if_streaming. intros s3 H3c H3v. wp_step. intros _. split; [auto|].
    rewrite H3c, H2c, H1c. replace (s_phase s2) with (k_phase (core s)).
    + by eapply dropped_inv.
    + change (s_phase s2) with (k_phase (core s2)). by rewrite H2c, H1c.
  - wp_step. apply wp_retire. intros s1 H1c H1v. wp_step; [by wp_run|].
    apply wp_fail_over; [done|]. intros s2 until H2c H2v _. split; [auto|].
    rewrite H2c, H1c. by apply backoff_inv.
Qed.

Lemma build_request_key c r st end_ p tg now :
  let lk := key_of (build_request c r st end_ p tg now).2 in
  let start := if c_delivered_for_request c =? 0 then br_start r else c_cursor c in
  lk_role lk = l_role st /\ lk_linger lk = None
  /\ (exists q, lk_req lk = Some q /\ lr_end q = end_ /\ lr_clamped q = (end_ <? br_end r))
  /\ (l_role st = Frozen -> lk_cursor lk = Exact start).
Proof.
  unfold build_request. cbn. split_and!; [done|done|by eexists|].
  intros ->. cbn. done.
Qed.

(** What a request to a link needs. *)
Record SendReady (k : Core) (end_ : Z) : Prop := {
  sr_base : Base k;
  sr_dial : k_dialing k = false;
  sr_end : stitched = true -> asked k = true -> k_cursor k < end_;
  sr_dials : stitched = true -> dials (k_phase k) = true -> asked k = true;
  sr_hold : forall t p r, k_phase k = PhHolding t p -> k_req k = Some r -> request_is_empty r = true ->
    br_end r <= k_cursor k;
}.

(** The leg a link is sent, at the cursor. *)
Lemma sent_under_way k c r st end_ p tg now :
  Base k -> k_req k = Some r -> c_req c = k_req k -> c_cursor c = k_cursor k ->
  c_delivered_for_request c = k_count k -> k_cursor k < end_ -> l_role st = Frozen ->
  under_way k (key_of (build_request c r st end_ p tg now).2).
Proof.
  intros Hb Hr Hcr Hcc Hcn Hlt Hf.
  destruct (build_request_key c r st end_ p tg now) as (_ & _ & (q & Hq & He & Hc) & Hu).
  specialize (Hu Hf). exists q. eexists. split_and!; [done|exact Hu|..]; rewrite ?He; try done.
  - rewrite Hcc, Hcn. destruct (k_count k =? 0) eqn:E; bools; [|lia]. rewrite (b_start _ Hb r Hr E). lia.
  - rewrite Hc. destruct (end_ <? br_end r) eqn:E; [by left|right]. bools. intros ? E'.
    rewrite Hr in E'. injection E' as <-. lia.
Qed.

(** A link that has just been sent its request. *)
Record Sent (k : Core) (lk : LinkKey) : Prop := {
  st_linger : lk_linger lk = None;
  st_req : exists r, lk_req lk = Some r;
  st_leg : stitched = true -> asked k = true -> lk_role lk = Frozen -> under_way k lk;
}.

Lemma sent_inv k lk end_ :
  SendReady k end_ -> Sent k lk ->
  Inv stitched (with_phase (if asked k then PhStreaming else PhIdle) (with_link (Some lk) k)).
Proof.
  intros Hr [Hl (q & Hq) Hs]. apply (inv_link _ _ lk); cbn.
  - apply base_with_phase, base_with_link, Hr.
  - done.
  - apply Hr.
  - by destruct (asked k).
  - by destruct (asked k).
  - eauto.
  - auto.
  - by rewrite Hl.
  - by destruct (asked k).
Qed.

Lemma sent_end_ready k lk end_ : SendReady k end_ -> Sent k lk -> EndReady (with_link (Some lk) k).
Proof.
  intros Hr [Hl (q & Hq) Hs]. split; cbn; try apply Hr.
  - apply base_with_link, Hr.
  - intros Hst Ha _ lk' [= <-] Hf. destruct (Hs Hst Ha Hf) as (r & u & ? & ? & ? & _).
    exists r, u. split_and!; [done..|lia].
Qed.

Lemma build_sent k c r st end_ p tg now :
  SendReady k end_ -> k_req k = Some r -> c_req c = k_req k -> c_cursor c = k_cursor k ->
  c_delivered_for_request c = k_count k ->
  Sent k (key_of (build_request c r st end_ p tg now).2).
Proof.
  intros Hr Hq H1 H2 H3. pose proof (build_request_key c r st end_ p tg now) as (Hrole & Hl & (q & Hlr & _) & _).
  split; [done|eauto|]. intros Hs Ha Hf. rewrite Hrole in Hf.
  apply sent_under_way; try done; [apply Hr|by apply Hr].
Qed.

Lemma send_request_kept end_ p s l r :
  Side s -> SendReady (core s) end_ -> s_link s = Some l -> c_req (s_c s) = Some r ->
  wp (send_request end_ p) s Kept.
Proof.
  intros Hv Hr Hl Hq. unfold send_request. wp_step. wp_step. cbn beta. rewrite Hq, Hl. cbv zeta.
  set (tg := mkTarget _ _).
  pose proof (build_sent (core s) (s_c s) r (lk_st l) end_ p tg env_now Hr Hq eq_refl eq_refl eq_refl) as Hst.
  destruct (build_request _ _ _ _ _ _ _) as [req st]. cbn [snd] in Hst.
  do 4 wp_step. destruct H1 as [Hc Hv2]. change (core s' = with_link (Some (key_of st)) (core s)) in Hc.
  wp_step.
  - unfold set_phase. wp_run. intros _. split; [by apply (side_no_hold s'), Hv2|].
    change (Inv stitched (with_phase (if asked (core s') then PhStreaming else PhIdle) (core s'))).
    rewrite Hc. by eapply (sent_inv (core s)).
  - apply on_link_end_kept; [by apply Hv2|rewrite Hc; by eapply sent_end_ready|].
    apply (f_equal k_link) in Hc. cbn in Hc. by destruct (s_link s').
Qed.

(** ** Plans *)

(** A step taken at the cursor: done exactly when nothing is asked. *)
Definition step_ok (k : Core) (step : Step) : Prop :=
  match step with
  | StepDone => asked k = false
  | Serve st => asked k = true /\ k_cursor k < ss_req_end st
  | Gap _ | Wait _ | Hold _ _ _ => asked k = true
  end.

(** An empty request is at its end. *)
Definition at_end (k : Core) : Prop :=
  forall r, k_req k = Some r -> request_is_empty r = true -> br_end r <= k_cursor k.

Lemma next_step_ok k v tip r ex own off :
  SoundView v -> Base k -> at_end k -> k_req k = Some r ->
  step_ok k (next_step v tip (shape_of r) (k_cursor k) ex own cfg_id cfg_stitching cfg_live_lag_blocks
               off env_now).
Proof.
  intros Hv Hb He Hr. set (step := next_step _ _ _ _ _ _ _ _ _ _ _).
  assert (asked k = (k_cursor k <? br_end r)) as Ha.
  { unfold asked. rewrite Hr. cbn. destruct (request_is_empty r) eqn:E; [|done]. cbn.
    specialize (He r Hr E). symmetry. apply Z.ltb_ge. lia. }
  assert (step <> StepDone -> asked k = true) as Hne.
  { intros Hs. rewrite Ha. apply Z.ltb_lt. subst step. unfold next_step in Hs.
    change (sh_end (shape_of r)) with (br_end r) in Hs. destruct (_ <=? _) eqn:E; [done|]. by bools. }
  destruct step as [st| | | |] eqn:Es; cbn; try (apply Hne; done).
  - split; [by apply Hne|]. subst step.
    apply serve_inv in Es as (Hf & Hs & u & Hu & Hc & Ho & _).
    apply outcome_serves in Ho as (_ & _ & _ & Hg).
    eapply candidate_range in Hg as (? & _); [lia|done|done| |done|done]. by apply (b_range _ Hb).
  - rewrite Ha. subst step. unfold next_step in Es. change (sh_end (shape_of r)) with (br_end r) in Es.
    destruct (_ <=? _) eqn:E; [|by repeat case_match]. bools. apply Z.ltb_ge. lia.
Qed.

Lemma wp_seen_view s (Q : FleetView -> Session -> Prop) :
  (forall conns s', same s s' -> Q (with_conns conns (s_view s)) s') -> wp seen_view s Q.
Proof. intros HQ. unfold seen_view. wp_step. wp_step. unfold reading. apply HQ. done. Qed.

(** What a plan at the cursor needs. *)
Record PlanReady (s : Session) : Prop := {
  pr_view : Side s;
  pr_base : Base (core s);
  pr_end : at_end (core s);
}.

Lemma plan_ready_same s s' : same s s' -> PlanReady s -> PlanReady s'.
Proof. intros [Hc Hv] []. split; [auto|by rewrite Hc|by rewrite Hc]. Qed.

Lemma wp_next_step_for r ex off s (Q : Step -> Session -> Prop) :
  PlanReady s -> c_req (s_c s) = Some r ->
  (forall step s', same s s' -> step_ok (core s) step -> Q step s') ->
  wp (next_step_for (shape_of r) (c_cursor (s_c s)) ex off) s Q.
Proof.
  intros Hr Hq HQ. unfold next_step_for. wp_step. wp_step. wp_step. apply wp_seen_view.
  intros conns s2 H2. wp_run. apply HQ.
  - by etrans.
  - apply (next_step_ok (core s)); try done; try apply Hr. apply with_conns_sound. by apply H1, Hr.
Qed.

Lemma same_req s s' r : same s s' -> c_req (s_c s) = Some r -> c_req (s_c s') = Some r.
Proof. intros [Hc _] Hr. apply (f_equal k_req) in Hc. cbn in Hc. congruence. Qed.

Lemma same_cursor s s' : same s s' -> c_cursor (s_c s') = c_cursor (s_c s).
Proof. intros [Hc _]. by apply (f_equal k_cursor) in Hc. Qed.

Lemma wp_without_retired r off step s (Q : Step -> Session -> Prop) :
  PlanReady s -> c_req (s_c s) = Some r -> step_ok (core s) step ->
  (forall step s', same s s' -> step_ok (core s) step -> Q step s') ->
  wp (without_retired (shape_of r) (c_cursor (s_c s)) off step) s Q.
Proof.
  intros Hr Hq Hs HQ. unfold without_retired. wp_step. wp_step. cbn beta.
  destruct step as [|? [] ?| | |]; try by wp_step; apply HQ.
  cbv beta iota. destruct (is_some (s_retired s)); [|by wp_step; apply HQ]. do 4 wp_step.
  apply (wp_next_step_for r _ _ (set_s_retired None s)); [by apply (plan_ready_same s)|done|]. intros step' s' Hs' Hok. by apply HQ.
Qed.

Lemma wp_busy_or_offline step s (Q : Step -> Session -> Prop) :
  step_ok (core s) step -> (forall step s', same s s' -> step_ok (core s) step -> Q step s') ->
  wp (busy_or_offline step) s Q.
Proof.
  intros Hs HQ. unfold busy_or_offline. destruct step as [|? [] ?| | |]; try by wp_step; apply HQ.
  do 5 wp_step. cbn beta. destruct (s_busy _); by apply HQ.
Qed.

Lemma wp_plan off s (Q : Step -> Session -> Prop) :
  PlanReady s -> (forall step s', same s s' -> step_ok (core s) step -> Q step s') ->
  wp (plan (c_cursor (s_c s)) off) s Q.
Proof.
  intros Hr HQ. unfold plan. wp_step. wp_step. cbn beta. destruct (c_req (s_c s)) as [r|] eqn:Er.
  2: { wp_step. apply HQ; [done|]. cbn. unfold asked. cbn. by rewrite Er. }
  cbv zeta. do 3 wp_step. apply wp_next_step_for; [done|done|]. intros st1 s1 Hs1 Hok1.
  wp_step. apply (wp_quiet (if is_hold st1 then release_move_exclusion else mret false)).
  intros rel s2 Hs2.
  assert (same s s2) as Hs by by etrans.
  rewrite <-(same_cursor _ _ Hs). wp_step.
  apply (wp_mono _ _ (fun st s' => same s s' /\ step_ok (core s) st)).
  { destruct rel; [|by wp_step]. do 2 wp_step. cbn beta. apply wp_next_step_for.
    - by eapply plan_ready_same.
    - by eapply same_req.
    - intros st3 s3 Hs3 Hok3. split; [by etrans|]. by rewrite <-(proj1 Hs). }
  intros st3 s3 [Hs3 Hok3]. rewrite (same_cursor _ _ Hs), <-(same_cursor _ _ Hs3). wp_step.
  apply wp_without_retired.
  - by eapply plan_ready_same.
  - by eapply same_req.
  - by rewrite (proj1 Hs3).
  - intros st4 s4 Hs4 Hok4. apply wp_busy_or_offline; [by rewrite (proj1 Hs4)|].
    intros st5 s5 Hs5 Hok5. apply HQ; [by do 2 (etrans; [|done])|].
    by rewrite <-(proj1 Hs3), <-(proj1 Hs4).
Qed.

(** ** Steps *)

Lemma core_link s lk : k_link (core s) = Some lk -> exists l, s_link s = Some l.
Proof. cbn. destruct (s_link s); [eauto|done]. Qed.

Lemma asked_req s : asked (core s) = true -> exists r, c_req (s_c s) = Some r.
Proof. intros Ha. destruct (asked_some _ Ha) as (r & Hr & _). eauto. Qed.

(** A send at the cursor of a request in progress. *)
Lemma asked_send_ready k end_ :
  Base k -> k_dialing k = false -> asked k = true -> k_cursor k < end_ -> SendReady k end_.
Proof.
  intros Hb Hd Ha Hlt. split; try done. intros t p r _ Hr He. by rewrite (asked_empty k r Hr He) in Ha.
Qed.

Lemma wp_start_dial up p st s (Q : bool -> Session -> Prop) :
  (forall s', core s' = with_phase (PhDialing p st) (with_dial true (core s)) -> (Side s -> Side s') ->
     Q true s') ->
  (forall s', Q false s') ->
  wp (start_dial up p st) s Q.
Proof.
  intros HT HF. unfold start_dial, spawn_dial, set_phase, output. wp_run; [by apply HT|by apply HF].
Qed.

(** A dial under way for a leg at the cursor. *)
Lemma dialing_good s k p st :
  Side s -> core s = with_phase (PhDialing p (Some st)) (with_dial true (with_link None k)) ->
  Base k -> asked k = true -> k_cursor k < ss_req_end st -> Good s.
Proof.
  intros Hv Hc Hb Ha Hlt. split; [done|]. rewrite Hc.
  apply (inv_dialing _ _ p (Some st)); try done.
  - by apply base_with_phase, base_with_dial, base_with_link.
  - intros _. split; [done|]. eauto.
Qed.

(** A leg sent to a link, for a request in progress. *)
Lemma send_leg_kept end_ p s k lk :
  core s = with_link (Some lk) (with_dial false k) -> Side s -> Base k -> asked k = true ->
  k_cursor k < end_ -> wp (send_request end_ p) s Kept.
Proof.
  intros Hc Hv Hb Ha Hlt. destruct (core_link s lk) as [l Hl]; [by rewrite Hc|].
  destruct (asked_req s) as [r Hr]; [by rewrite Hc|].
  apply (send_request_kept _ _ _ l r); try done. rewrite Hc.
  apply asked_send_ready; try done. by apply base_with_link, base_with_dial.
Qed.

Lemma serve_kept st p pre s :
  Side s -> Base (core s) -> asked (core s) = true -> k_cursor (core s) < ss_req_end st ->
  wp (serve st p pre) s Kept.
Proof.
  intros Hv Hb Ha Hlt. unfold serve. do 4 wp_step. cbn beta.
  set (s0 := set_s_predial_for None s). change (core s) with (core s0) in *. change (Side s) with (Side s0) in Hv.
  clearbody s0. clear s. rename s0 into s. destruct (is_some_and _ (s_link s)) eqn:El.
  { destruct (s_link s) as [l|] eqn:El'; [|done]. do 4 wp_step.
    destruct H1 as [Hc Hv1]. eapply (send_leg_kept _ _ _ (core s)); try done; [|by apply Hv1].
    rewrite Hc. unfold core, with_link, with_dial. cbn. by rewrite El'. }
  wp_step. apply wp_retire. intros s1 Hc1 Hv1. do 2 wp_step. cbn beta.
  destruct (standby_to _ s1) as [l|].
  { do 4 wp_step. destruct H1 as [Hc2 Hv2]. eapply (send_leg_kept _ _ _ (core s)); try done.
    - rewrite Hc2. unfold core, with_link, with_dial in *. cbn in *. by injection Hc1 as -> -> -> _ _ ->.
    - by apply Hv2, Hv1. }
  destruct (to_target _ (s_dial s1)) eqn:Ed.
  { wp_step. wp_step. unfold set_phase. wp_run. intros _. destruct H1 as [Hc2 Hv2].
    apply (dialing_good _ (core s) p st); try done; [by apply Hv2, Hv1|].
    change (with_phase (PhDialing p (Some st)) (core s')
            = with_phase (PhDialing p (Some st)) (with_dial true (with_link None (core s)))).
    f_equal. rewrite Hc2, <-Hc1. unfold with_dial, core. cbn. by destruct (s_dial s1). }
  destruct (to_target _ (s_standby_dial s1)) eqn:Esd.
  { do 4 wp_step. unfold set_phase. wp_run. intros _. destruct H1 as [Hc2 Hv2].
    apply (dialing_good _ (core s) p st); try done; [by apply Hv2, Hv1|].
    change (with_phase (PhDialing p (Some st)) (core s')
            = with_phase (PhDialing p (Some st)) (with_dial true (with_link None (core s)))).
    f_equal. rewrite Hc2, <-Hc1. unfold with_dial, core. cbn. by destruct (s_standby_dial s1). }
  do 3 wp_step. destruct H1 as [Hc2 Hv2]. apply wp_start_dial; [|by wp_run].
  intros s3 Hc3 Hv3. wp_step. intros _. apply (dialing_good _ (core s) p st); try done.
  - by apply Hv3, Hv2, Hv1.
  - by rewrite Hc3, Hc2, Hc1.
Qed.

(** Done, waiting or holding: any link left is spent. *)
Lemma parked_inv k x p :
  stitched = true -> Base k -> (forall lk, x = Some lk -> spent lk) -> linked p = true ->
  (asked k = true -> still p = false) -> (forall t q, p = PhHolding t q -> asked k = true) ->
  Inv stitched (with_phase p (with_link x (with_dial false k))).
Proof.
  intros Hs Hb Hx Hd Ha Hh.
  assert (Base (with_phase p (with_link x (with_dial false k)))) as Hb'
    by by apply base_with_phase, base_with_link, base_with_dial.
  assert (forall t q r, p = PhHolding t q -> k_req k = Some r -> request_is_empty r = true -> False) as Hne.
  { intros t q r E Hr He. specialize (Hh t q E). by rewrite (asked_empty k r Hr He) in Hh. }
  destruct x as [lk|].
  - apply (inv_link _ _ lk); try done; cbn.
    + intros H1 H2. by rewrite (Ha H1) in H2.
    + intros _ H1 H2. by rewrite (Ha H1) in H2.
    + intros _. split; [left; auto|]. intros Hst. destruct (asked k) eqn:E; [by rewrite Ha in Hst|exact E].
    + intros t q r E Hr. destruct (request_is_empty r) eqn:Ee; [|done]. by destruct (Hne t q r).
  - apply inv_no_link; try done; cbn; [by apply linked_dials|]. intros t q r E Hr Ee. by destruct (Hne t q r).
Qed.

Lemma parked_good s k x p :
  stitched = true -> Side s -> core s = with_phase p (with_link x (with_dial false k)) ->
  Base k -> (forall lk, x = Some lk -> spent lk) -> linked p = true ->
  (asked k = true -> still p = false) -> (forall t q, p = PhHolding t q -> asked k = true) -> Good s.
Proof. intros Hs Hv Hc ? ? ? ? ?. split; [done|]. rewrite Hc. by apply parked_inv. Qed.

(** Drops the dial and the standby, and keeps the link only when it is spent. *)
Lemma wp_park {A} (f : Session -> Session) m (rest : M A) s (Q : A -> Session -> Prop) :
  core (f s) = with_dial false (core s) -> (Side s -> Side (f s)) ->
  m = keep_link_if_settled \/ m = retire_link false ->
  (forall s' x, core s' = with_link x (with_dial false (core s)) ->
     (Side s -> Side s') -> (forall lk, x = Some lk -> spent lk) ->
     wp rest s' Q) ->
  wp (modify f;; discard_standby;; m;; rest) s Q.
Proof.
  intros Hc Hv Hm HQ. do 5 wp_step. destruct H1 as [Hc1 Hv1]. rewrite Hc in Hc1.
  destruct Hm as [->| ->].
  - apply wp_keep_settled. intros s2 x Hc2 Hv2 Hx. apply (HQ s2 x); [by rewrite Hc2, Hc1|by auto|done].
  - apply wp_retire. intros s2 Hc2 Hv2. apply (HQ s2 None); [by rewrite Hc2, Hc1|by auto|done].
Qed.

Lemma apply_step_kept step p pre s :
  stitched = true -> Side s -> Base (core s) -> step_ok (core s) step -> wp (apply_step step p pre) s Kept.
Proof.
  intros Hs Hv Hb Hok. destruct step as [st|block why bounded|block|block|]; cbn [apply_step].
  - destruct Hok as [Ha Hlt]. wp_step. apply (wp_quiet (when _ _)). intros [] s1 [Hc1 Hv1].
    apply serve_kept; rewrite ?Hc1; auto.
  - apply wp_park; [done|done|by destruct (for_capacity why); auto|]. intros s1 x Hc1 Hv1 Hx.
    unfold set_phase. wp_run. intros _.
    match goal with |- Good (set_s_phase ?q _) => apply (parked_good _ (core s) x q) end; try done;
      [by apply (side_hold s1), Hv1|by rewrite <-Hc1].
  - apply wp_park; [done|exact (side_no_hold s)|by auto|]. intros s1 x Hc1 Hv1 Hx.
    unfold set_phase. wp_run. intros _.
    match goal with |- Good (set_s_phase ?q _) => apply (parked_good _ (core s) x q) end; try done;
      [by apply Hv1|by rewrite <-Hc1].
  - by wp_run.
  - apply wp_park; [done|exact (side_no_hold s)|by auto|]. intros s1 x Hc1 Hv1 Hx.
    unfold set_phase. wp_run. intros _. cbn in Hok.
    apply (parked_good _ (core s) x PhIdle); try done; [by apply Hv1|by rewrite <-Hc1|congruence].
Qed.

Lemma plan_and_apply_kept off p s :
  stitched = true -> PlanReady s -> wp (plan_and_apply (c_cursor (s_c s)) off p) s Kept.
Proof.
  intros Hs Hr. unfold plan_and_apply. wp_step. apply wp_plan; [done|]. intros step s1 [Hc Hv] Hok.
  do 2 wp_step. apply apply_step_kept; rewrite ?Hc; [done|apply Hv, Hr|apply Hr|done].
Qed.

Lemma asked_plan_ready s : Side s -> Base (core s) -> asked (core s) = true -> PlanReady s.
Proof.
  intros Hv Hb Ha. split; try done. intros r Hr He. by rewrite (asked_empty _ _ Hr He) in Ha.
Qed.

(** Nothing asked, nothing dialed: the session may rest. *)
Lemma idle_good s :
  Side s -> Base (core s) -> k_dialing (core s) = false -> k_phase (core s) = PhIdle ->
  asked (core s) = false ->
  (forall lk, k_link (core s) = Some lk -> is_some (lk_linger lk) = true ->
     spent lk \/ exists r, k_req (core s) = Some r /\ request_is_empty r = true) ->
  Good s.
Proof.
  intros Hv Hb Hd Hp Ha Hl. split; [done|]. destruct (k_link (core s)) as [lk|] eqn:E.
  - apply (inv_link _ _ lk); rewrite ?Hp, ?Ha; try done. intros ?. split; [by apply Hl|done].
  - apply inv_no_link; rewrite ?Hp, ?Ha; done.
Qed.

Lemma replan_kept p s :
  stitched = true -> Side s -> Base (core s) -> k_dialing (core s) = false ->
  (forall lk, k_link (core s) = Some lk -> is_some (lk_linger lk) = true ->
     spent lk \/ exists r, k_req (core s) = Some r /\ request_is_empty r = true) ->
  wp (replan p) s Kept.
Proof.
  intros Hs Hv Hb Hd Hl. unfold replan. do 2 wp_step. cbn beta.
  destruct (in_progress (s_c s)) eqn:Ea; cbn [negb].
  - by apply plan_and_apply_kept, asked_plan_ready.
  - unfold set_phase. wp_run. intros _. apply idle_good; try done.
    + by apply (side_no_hold s).
    + by apply (base_with_phase PhIdle (core s)).
Qed.

Lemma handoff_kept s :
  stitched = true -> Side s -> Base (core s) -> asked (core s) = true -> wp handoff s Kept.
Proof.
  intros Hs Hv Hb Ha. unfold handoff. do 4 wp_step. cbn beta.
  set (s1 := set_s_handoff_from _ s). change (c_cursor (s_c s1)) with (c_cursor (s_c s1)).
  by apply plan_and_apply_kept, asked_plan_ready.
Qed.
End inv.
