(* ===== verification/SessionKept.v ===== *)
(** * The session actor never forgets a request: results

    The handlers of upstream messages preserve the invariant of SessionInv.v, for
    upstreams that conform ([conforming_result]): a result that is forwarded or
    dropped as a replay moves the client's cursor and the link's together, and one
    that ends a leg leads to the next plan. *)

From S2P Require Import Prelude Wire Models Coverage View Planner Failover Link Client Status Stream.
From S2P Require Import SessionState SessionPlan SessionActor SessionLoop SessionInv.

(** ** Results *)

(** What a node does: it reports a LIB that never goes back, replaces no block at
    or below it, and sends no block at or past the end of a request. *)
Definition conforming_result (lk : LinkKey) (h : ResultHead) : Prop :=
  lk_role lk = Live ->
  forall lib, lk_lib lk = Some lib ->
    num lib <= num (rh_lib h)
    /\ forall p r u, this_block h = Some p -> lk_req lk = Some r -> lk_cursor lk = Exact u ->
         num p < lr_end r /\ (num p < u -> num lib < num p).

(** The core after a forwarded result. *)
Definition advanced (k : Core) (lk : LinkKey) (h : ResultHead) (cls : Classified) : Core :=
  let '(cursor, up) :=
    match cl_advance cls, cl_n cls with
    | true, Some n => (sat_add u32_max n 1, Exact (sat_add u32_max n 1))
    | _, _ => (k_cursor k, lk_cursor lk)
    end in
  mkCore (k_req k) cursor (k_count k + 1)
    (Some (mkLinkKey (lk_role lk) (lk_req lk) up (lk_linger lk) (Some (rh_lib h))))
    (k_dialing k) (k_phase k).

Lemma commit_core h fw c st :
  let '(c', st') := commit h fw c st in
  let k := mkCore (c_req c) (c_cursor c) (c_delivered_for_request c) None false PhIdle in
  let k' := advanced k (key_of st) h (fw_cls fw) in
  client_key c' = (k_req k', k_cursor k', k_count k') /\ k_link k' = Some (key_of st').
Proof.
  unfold commit, advanced. destruct (fw_fork fw), (cl_n (fw_cls fw)) as [n|], (cl_advance (fw_cls fw)),
    (this_block h) as [p|]; cbn; repeat (case_match; cbn in *); simplify_eq/=; split; reflexivity.
Qed.

Lemma forward_result_core topology stitching fleet now frame h fw c st tips :
  let '(_, c', st', _) := forward_result topology stitching fleet now frame h fw c st tips in
  let k := mkCore (c_req c) (c_cursor c) (c_delivered_for_request c) None false PhIdle in
  let k' := advanced k (key_of st) h (fw_cls fw) in
  client_key c' = (k_req k', k_cursor k', k_count k') /\ k_link k' = Some (key_of st').
Proof.
  unfold forward_result. destruct (charge c) as [over c1] eqn:Ec.
  assert (client_key c1 = client_key c) as Hk1.
  { destruct (charge_keeps c) as [E|[_ E]]; rewrite Ec in E; cbn in E; by subst c1. }
  set (fr := match l_role st with Frozen => _ | Live => _ end).
  pose proof (apply_head_lib_client topology stitching fleet (l_up st) (l_role st) fr (rh_head h) (rh_lib h)
    c1 tips) as Ha. destruct (tip_for _ _ _ _) as [h0 l0].
  destruct (apply_head_lib _ _ _ _ _ _ _ _ _ _) as [[out c2] tips2]. cbn in Ha.
  pose proof (commit_core h fw c2 st) as Hc. destruct (commit h fw c2 st) as [c3 st3].
  assert (client_key c2 = client_key c) as Hk2 by (subst c2; done).
  injection Hk2 as E1 E2 E3. by rewrite E1, E2, E3 in Hc.
Qed.

Lemma judge_forward_cls wrap c st creq lr h lacks alt fw :
  judge wrap c st creq lr h lacks alt = JForward fw ->
  fw_cls fw = classify_result h (l_up_cursor st) lr
  /\ (l_role st = Frozen -> cl_n (fw_cls fw) = Some (c_cursor c) /\ cl_advance (fw_cls fw) = true).
Proof.
  intros Hj. assert (fw_cls fw = classify_result h (l_up_cursor st) lr) as Hcls.
  { unfold judge in Hj. cbv zeta in Hj. destruct (if bool_decide _ then _ else _) as [?|nb]; [done|].
    set (held := held_against c st lr) in Hj.
    destruct (cl_n _); destruct held; repeat case_match; by simplify_eq. }
  split; [done|]. intros Hf. rewrite Hcls.
  destruct (classify_result_spec h (l_up_cursor st) lr) as (_ & _ & Hn & _).
  unfold judge in Hj. cbv zeta in Hj. rewrite bool_decide_true in Hj by done.
  destruct (frozen_check _ _ _ _ _) as [?|nb] eqn:Ec; [done|].
  apply frozen_check_ok in Ec as (_ & _ & Hk1 & Hk2 & _).
  destruct Hn as (n & Hn & Hadv). { destruct (cl_kind _); auto; done. }
  rewrite Hn in *. split; [|done]. f_equal. set (held := held_against c st lr) in Hj.
  destruct (n <? c_cursor c) eqn:E1; [by repeat case_match|].
  destruct (c_cursor c <? n) eqn:E2; [by repeat case_match|]. bools. lia.
Qed.

Section results.
Context `{SessionCfg}.

(** The core right after a forwarded result: what the invariant needs, but for a
    frozen leg that may be at its end. *)
Record Mid (k : Core) (lk : LinkKey) (lr : LinkReq) : Prop := {
  m_base : Base k;
  m_link : k_link k = Some lk;
  m_req : lk_req lk = Some lr;
  m_dial : k_dialing k = false;
  m_linked : linked (k_phase k) = true;
  m_parks : parks (k_phase k) = true -> stitched = true;
  m_frozen : stitched = true -> asked k = true -> still (k_phase k) = true -> lk_role lk = Frozen ->
    under_way k lk \/ lr_clamped lr = true /\ lr_end lr <= k_cursor k;
  m_linger : is_some (lk_linger lk) = true ->
    (spent lk \/ exists r, k_req k = Some r /\ request_is_empty r = true)
    /\ (still (k_phase k) = true -> asked k = false);
  m_hold : forall t p r, k_phase k = PhHolding t p -> k_req k = Some r -> request_is_empty r = false;
}.

(** A result on a spent link changes nothing that matters. *)
Lemma spent_advanced k lk lr h :
  spent lk -> lk_req lk = Some lr -> lk_role lk = Live -> conforming_result lk h ->
  let k' := advanced k lk h (classify_result h (lk_cursor lk) lr) in
  k_cursor k' = k_cursor k /\ forall lk', k_link k' = Some lk' -> spent lk'.
Proof.
  intros Hs Hr Hl Hc. destruct Hs as [?|[?|(r & u & lib & Hr' & Hu & Hle & Hlib & Hend)]]; [congruence..|].
  rewrite Hr in Hr'. injection Hr' as <-. destruct (Hc Hl lib Hlib) as [Hm Hp].
  unfold advanced, classify_result. rewrite Hu. destruct (this_block h) as [p|].
  { destruct (Hp p lr u eq_refl Hr Hu) as [H1 H2]. lia. }
  assert (u <? lr_end lr = false) as -> by (apply Z.ltb_ge; lia). rewrite andb_false_r. cbn.
  split; [done|]. intros lk' [= <-]. right. right. exists lr, u, (rh_lib h). cbn. split_and!; try done. lia.
Qed.

Lemma advanced_fields k lk h cls :
  k_req (advanced k lk h cls) = k_req k /\ k_phase (advanced k lk h cls) = k_phase k
  /\ k_dialing (advanced k lk h cls) = k_dialing k /\ k_count (advanced k lk h cls) = k_count k + 1.
Proof. unfold advanced. by destruct (cl_advance cls), (cl_n cls). Qed.

Lemma asked_monotone k k' :
  k_req k' = k_req k -> k_cursor k <= k_cursor k' -> asked k' = true -> asked k = true.
Proof.
  intros Hr Hc. unfold asked. rewrite Hr. destruct (k_req k) as [r|]; [|done]. cbn. intros ?. bools.
  apply andb_true_iff. split; [by apply negb_true_iff|]. apply Z.ltb_lt. lia.
Qed.

(** A frozen result moves the cursor and its upstream's together. *)
Lemma frozen_advanced k lk h cls :
  Base k -> cl_n cls = Some (k_cursor k) -> cl_advance cls = true ->
  let k' := advanced k lk h cls in
  (forall lk', k_link k' = Some lk' -> lk_cursor lk' = Exact (k_cursor k'))
  /\ (asked k' = true -> asked k = true /\ k_cursor k' = k_cursor k + 1).
Proof.
  intros Hb Hn Ha. unfold advanced. rewrite Hn, Ha. cbn. split; [by intros lk' [= <-]|].
  unfold asked. cbn. destruct (k_req k) as [r|] eqn:Er; [|done]. cbn. intros ?. bools.
  pose proof (b_range _ Hb r Er). unfold sat_add in *. split; [|lia].
  apply andb_true_iff. split; [by apply negb_true_iff|]. apply Z.ltb_lt. lia.
Qed.

Lemma advanced_frozen_leg k lk lr h cls lk' :
  Inv stitched k -> k_link k = Some lk -> lk_req lk = Some lr -> lk_role lk = Frozen ->
  cl_n cls = Some (k_cursor k) -> cl_advance cls = true ->
  let k' := advanced k lk h cls in
  k_link k' = Some lk' -> lk_req lk' = Some lr ->
  stitched = true -> asked k' = true -> still (k_phase k') = true ->
  under_way k' lk' \/ lr_clamped lr = true /\ lr_end lr <= k_cursor k'.
Proof.
  intros Hi Hl Hr Hf Hn Ha k' Hl' Hr' Hs Has Hst.
  destruct (frozen_advanced k lk h cls (i_base _ _ Hi) Hn Ha) as [Hc Hm]. fold k' in Hc, Hm.
  destruct (Hm Has) as [Hask Hcur]. destruct (advanced_fields k lk h cls) as (Hq & Hp & _). fold k' in Hq, Hp.
  rewrite Hp in Hst. destruct (i_frozen _ _ Hi Hs Hask Hst lk Hl Hf) as (r & u & Er & _ & Hlt & Hcl).
  rewrite Hr in Er. injection Er as <-. destruct (decide (k_cursor k' < lr_end lr)) as [Hle|Hle].
  - left. exists lr, (k_cursor k'). rewrite Hq. split_and!; [done|by apply Hc|lia|lia|done].
  - right. split; [|lia]. destruct Hcl as [?|Hcl]; [done|].
    destruct (asked_some _ Has) as (q & Eq & _ & ?). rewrite Hq in Eq. specialize (Hcl q Eq). lia.
Qed.

Lemma advanced_linger k lk lr h cls lk' :
  Inv stitched k -> k_link k = Some lk -> lk_req lk = Some lr -> conforming_result lk h ->
  cls = classify_result h (lk_cursor lk) lr ->
  (lk_role lk = Frozen -> cl_n cls = Some (k_cursor k) /\ cl_advance cls = true) ->
  let k' := advanced k lk h cls in
  k_link k' = Some lk' -> is_some (lk_linger lk') = true ->
  (spent lk' \/ exists r, k_req k' = Some r /\ request_is_empty r = true)
  /\ (still (k_phase k') = true -> asked k' = false).
Proof.
  intros Hi Hl Hr Hcf Hcls Hfz k' Hl' Hlg.
  destruct (advanced_fields k lk h cls) as (Hq & Hp & _). fold k' in Hq, Hp.
  assert (lk_linger lk' = lk_linger lk /\ lk_role lk' = lk_role lk) as [El Erole].
  { subst k'. unfold advanced in Hl'. by destruct (cl_advance cls), (cl_n cls); cbn in Hl'; injection Hl' as <-. }
  rewrite El in Hlg. destruct (i_linger _ _ Hi lk Hl Hlg) as [Hsp Hna]. rewrite Hp, Hq.
  destruct Hsp as [Hsp|(r & Er & He)].
  2: { split; [right; eauto|]. intros _. eapply asked_empty; [by rewrite Hq|done]. }
  destruct (lk_role lk) eqn:Er.
  - subst k' cls. destruct (spent_advanced k lk lr h Hsp Hr Er Hcf) as [Hc Hs].
    split; [left; by apply Hs|]. intros Hst. specialize (Hna Hst). unfold asked in *. by rewrite Hq, Hc.
  - destruct (Hfz eq_refl) as [Hn Ha]. split; [left; right; left; congruence|]. intros Hst.
    destruct (asked k') eqn:E; [|done]. destruct (frozen_advanced k lk h cls (i_base _ _ Hi) Hn Ha) as [_ Hm].
    destruct (Hm E) as [? _]. specialize (Hna Hst). congruence.
Qed.

Lemma forwarded_mid k lk lr h cls :
  Inv stitched k -> k_link k = Some lk -> lk_req lk = Some lr -> conforming_result lk h ->
  cls = classify_result h (lk_cursor lk) lr ->
  (lk_role lk = Frozen -> cl_n cls = Some (k_cursor k) /\ cl_advance cls = true) ->
  let k' := advanced k lk h cls in
  exists lk', Mid k' lk' lr /\ lk_role lk' = lk_role lk.
Proof.
  intros Hi Hl Hr Hcf Hcls Hfz k'. destruct (advanced_fields k lk h cls) as (Hq & Hp & Hd & Hn).
  fold k' in Hq, Hp, Hd, Hn.
  assert (exists lk', k_link k' = Some lk' /\ lk_role lk' = lk_role lk /\ lk_req lk' = Some lr) as (lk' & Hl' & Ero & Ere).
  { subst k'. unfold advanced. destruct (cl_advance cls), (cl_n cls); eexists; split_and!; reflexivity || done. }
  exists lk'. split; [|done].
  destruct (inv_linked _ _ lk Hi Hl) as (Hlk & _ & Hnd).
  split; try done.
  - pose proof (i_base _ _ Hi) as []. split; rewrite ?Hq, ?Hn; [done|lia|lia].
  - by rewrite Hd.
  - by rewrite Hp.
  - rewrite Hp. apply Hi.
  - intros Hs Ha Hst Hf. rewrite Ero in Hf. destruct (Hfz Hf). by eapply advanced_frozen_leg.
  - by eapply advanced_linger.
  - intros t p r. rewrite Hp, Hq. intros Ep Er. destruct (request_is_empty r) eqn:E; [|done].
    destruct (i_hold _ _ Hi t p r Ep Er E). congruence.
Qed.
End results.

Section handlers.
Context `{SessionCfg, SessionEnv} {Hsound : SoundEnv}.

Lemma mid_inv k lk lr :
  Mid k lk lr ->
  (stitched = true -> asked k = true -> ~ (lr_clamped lr = true /\ lr_end lr <= k_cursor k)) ->
  Inv stitched k.
Proof.
  intros Hm Hne. apply (inv_link _ _ lk); try apply Hm.
  - intros _ _. exists lr. apply Hm.
  - intros Hs Ha Hst Hf. destruct (m_frozen _ _ _ Hm Hs Ha Hst Hf) as [?|?]; [done|]. by destruct (Hne Hs Ha).
Qed.

Lemma core_linger s lk t :
  k_link (core s) = Some lk ->
  core (on_link (l_set_linger_until t) s)
  = with_link (Some (mkLinkKey (lk_role lk) (lk_req lk) (lk_cursor lk) t (lk_lib lk))) (core s).
Proof.
  unfold core, with_link. cbn. destruct (s_link s) as [l|]; [|done]. cbn. by intros [= <-].
Qed.

(** Nothing asked: a link stays, for a while when it is spent. *)
Lemma rest_inv k lk p x :
  Base k -> k_dialing k = false -> asked k = false -> linked p = true ->
  (parks p = true -> stitched = true) ->
  (forall t q r, p = PhHolding t q -> k_req k = Some r -> request_is_empty r = false) ->
  (is_some x = true -> spent lk \/ exists r, k_req k = Some r /\ request_is_empty r = true) ->
  Inv stitched (with_phase p (with_link
    (Some (mkLinkKey (lk_role lk) (lk_req lk) (lk_cursor lk) x (lk_lib lk))) k)).
Proof.
  intros Hb Hd Ha Hp Hk Hh Hx. eapply inv_link; cbn; try done.
  - by apply base_with_phase, base_with_link.
  - intros E. change (asked k = true) in E. congruence.
  - intros _ E. change (asked k = true) in E. congruence.
  - intros Hl. split; [by apply Hx|done].
Qed.

Lemma after_stitched_result_kept role s lk lr :
  stitched = true -> Side s -> Mid (core s) lk lr -> role = lk_role lk ->
  wp (after_stitched_result (Some (lr_end lr, lr_clamped lr)) role) s Kept.
Proof.
  intros Hs Hv Hm ->. unfold after_stitched_result. do 2 wp_step. cbn beta.
  change (in_progress (s_c s)) with (asked (core s)). destruct (asked (core s)) eqn:Ea; cbn [negb].
  - destruct (lr_clamped lr) eqn:Ec.
    + destruct (lr_end lr <=? c_cursor (s_c s)) eqn:Ee.
      * apply handoff_kept; [done|done|apply Hm|done].
      * wp_run. intros _. eapply good_same; [done|]. split; [done|]. apply (mid_inv _ lk lr); [done|].
        intros _ _ [_ Hle]. bools. cbn in Hle. lia.
    + wp_run. intros _. eapply good_same; [done|]. split; [done|]. apply (mid_inv _ lk lr); [done|].
      intros _ _ [? _]. congruence.
  - wp_step. apply wp_if_streaming. intros s1 Hc1 Hv1.
    set (p := if is_streaming (s_phase s) then PhIdle else s_phase s) in *.
    assert (forall x, (is_some x = true -> spent lk \/ exists r, k_req (core s) = Some r /\ request_is_empty r = true)
      -> Inv stitched (with_phase p (with_link
           (Some (mkLinkKey (lk_role lk) (lk_req lk) (lk_cursor lk) x (lk_lib lk))) (core s)))) as HI.
    { intros x Hx. apply rest_inv; [apply Hm|apply Hm|done| |done| |exact Hx].
      - pose proof (m_linked _ _ _ Hm) as Hd. cbn in Hd. subst p. by destruct (is_streaming _).
      - intros t q r E. apply (m_hold _ _ _ Hm t q). cbn. subst p. by destruct (s_phase s). }
    wp_step. wp_step; wp_run; intros _; (split; [by apply Hv1|]).
    + rewrite (core_linger s1 lk) by (rewrite Hc1; apply Hm). rewrite Hc1. apply (HI (Some _)).
      intros _. left. right. left. by bools.
    + rewrite Hc1. specialize (HI (lk_linger lk) (fun Hl => proj1 (m_linger _ _ _ Hm Hl))).
      destruct lk. cbn in HI. rewrite <-(m_link _ _ _ Hm) in HI. exact HI.
Qed.

(** What a result on a link is about. *)
Record ResultReady (s : Session) (l : Link) (lr : LinkReq) (h : ResultHead) : Prop := {
  rr_good : Good s;
  rr_link : s_link s = Some l;
  rr_req : l_req (lk_st l) = Some lr;
  rr_conforms : conforming_result (key_of (lk_st l)) h;
}.

(** A result [judge] lets through, from its classification. *)
Definition passes (s : Session) (l : Link) (lr : LinkReq) (h : ResultHead) (fw : Forward) : Prop :=
  fw_cls fw = classify_result h (l_up_cursor (lk_st l)) lr
  /\ (l_role (lk_st l) = Frozen ->
      cl_n (fw_cls fw) = Some (c_cursor (s_c s)) /\ cl_advance (fw_cls fw) = true).

Lemma good_link s l : s_link s = Some l -> k_link (core s) = Some (key_of (lk_st l)).
Proof. intros E. unfold core. cbn. by rewrite E. Qed.

Lemma result_mid s l lr h fw :
  ResultReady s l lr h -> passes s l lr h fw ->
  exists lk', Mid (advanced (core s) (key_of (lk_st l)) h (fw_cls fw)) lk' lr
    /\ lk_role lk' = l_role (lk_st l).
Proof.
  intros [[_ Hi] Hl Hr Hc] [Hcls Hf].
  exact (forwarded_mid (core s) (key_of (lk_st l)) lr h (fw_cls fw) Hi (good_link _ _ Hl) Hr Hc Hcls Hf).
Qed.

Lemma advanced_core s1 s l c' st' h cls :
  core s1 = core s -> s_link s = Some l ->
  let k := mkCore (c_req (s_c s)) (c_cursor (s_c s)) (c_delivered_for_request (s_c s)) None false PhIdle in
  let k' := advanced k (key_of (lk_st l)) h cls in
  client_key c' = (k_req k', k_cursor k', k_count k') -> k_link k' = Some (key_of st') ->
  core (set_s_link (Some (lk_set_st st' l)) (set_s_c c' s1))
  = advanced (core s) (key_of (lk_st l)) h cls.
Proof.
  intros Hc Hl k k' Hk Hl'. injection Hc as _ _ _ _ Hd Hp. injection Hk as E1 E2 E3.
  unfold core. cbn. rewrite E1, E2, E3, Hd, Hp, <-Hl'. subst k k'. unfold advanced.
  destruct (cl_advance cls), (cl_n cls); reflexivity.
Qed.

(** A pool session that owes nothing more is idle. *)
Lemma pool_rest_kept s :
  Good s -> stitched = false ->
  wp (when (negb (in_progress (s_c s)) && is_streaming (s_phase s)) (set_phase PhIdle);; mret Continue) s Kept.
Proof.
  intros [Hv Hi] Hs. unfold set_phase. wp_run; intros _; [|by split]. bools.
  apply idle_good; try done.
  - by apply (base_with_phase PhIdle (core s)), Hi.
  - change (k_dialing (core s) = false). rewrite (i_dial _ _ Hi). cbn. by destruct (s_phase s).
  - intros lk Hl Hg. apply (i_linger _ _ Hi lk Hl Hg).
Qed.

Lemma forward_kept frame h fw s l lr :
  ResultReady s l lr h -> passes s l lr h fw -> wp (forward frame h fw) s Kept.
Proof.
  intros Hr Hp. destruct (result_mid _ _ _ _ _ Hr Hp) as (lk' & Hm & Hrole).
  pose proof Hr as [[Hv _] Hl Hq _]. unfold forward. do 2 wp_step. cbn beta. rewrite Hl. cbv zeta.
  destruct (seam_after_result _ _ _) as [ex seam]. do 4 wp_step. cbn beta. wp_step.
  apply (@wp_quiet H); [destruct (l_role _); apply _|]. intros fleet s3 Hs3. cbn beta.
  pose proof (forward_result_core cfg_topology cfg_stitching fleet env_now frame h fw (s_c s) (lk_st l) []) as Hc.
  destruct (forward_result _ _ _ _ _ _ _ _ _ _) as [[[out c'] st'] tips']. destruct Hc as [Hck Hsk].
  do 2 wp_step. assert (same s s'0) as [Hc4 Hv4].
  { etrans; [|exact H2]. etrans; [|exact Hs3]. etrans; [|exact H1]. done. }
  wp_step; [by wp_step|]. do 2 wp_step.
  set (s5 := after_forward _ _ _).
  assert (core s5 = advanced (core s) (key_of (lk_st l)) h (fw_cls fw)) as Hc5.
  { rewrite <-(advanced_core s'0 s l c' st' h (fw_cls fw)) by done. subst s5. unfold after_forward.
    by destruct (l_first_result_pending _). }
  assert (Side s5) as Hv5.
  { subst s5. unfold after_forward. destruct (l_first_result_pending _); by apply Hv4. }
  rewrite Hq. cbn [fmap option_fmap option_map]. destruct stitched eqn:Es.
  - eapply after_stitched_result_kept; [done|done|by rewrite Hc5|done].
  - assert (Good s5) as Hg5.
    { split; [done|]. rewrite Hc5. apply (mid_inv _ lk' lr); [done|congruence]. }
    wp_step. wp_step. cbn beta. apply (pool_rest_kept s5); [done|by rewrite Es].
Qed.

Lemma same_has_link s s' l :
  same s s' -> s_link s = Some l -> exists l', s_link s' = Some l' /\ key_of (lk_st l') = key_of (lk_st l).
Proof.
  intros [Hc _] Hl. apply (f_equal k_link) in Hc. cbn in Hc. rewrite Hl in Hc.
  destruct (s_link s') as [l'|]; [|done]. injection Hc as Hk. exists l'. split; [done|]. unfold key_of. congruence.
Qed.

Lemma ready_same s s' l lr h fw :
  same s s' -> ResultReady s l lr h -> passes s l lr h fw ->
  exists l', ResultReady s' l' lr h /\ passes s' l' lr h fw.
Proof.
  intros Hs [Hg Hl Hr Hc] [Hcls Hf]. destruct (same_has_link _ _ _ Hs Hl) as (l' & Hl' & Hk).
  exists l'. split; [split; [by eapply good_same|done| |by rewrite Hk]|].
  - injection Hk as _ -> _ _ _. done.
  - unfold passes. injection Hk as -> _ -> _ _. split; [done|]. by rewrite (same_cursor _ _ Hs).
Qed.

Lemma good_link_end e s l : Good s -> s_link s = Some l -> wp (on_link_end e) s Kept.
Proof.
  intros Hg Hl. apply on_link_end_kept; [apply Hg|by eapply good_end_ready|by rewrite Hl].
Qed.

Lemma forward_without_block_kept frame h fw s l lr :
  ResultReady s l lr h -> passes s l lr h fw -> wp (forward_without_block frame h fw) s Kept.
Proof.
  intros Hr Hp. pose proof Hr as [Hg Hl _ _]. unfold forward_without_block. do 2 wp_step. cbn beta.
  rewrite Hl. cbv zeta. wp_step. apply (@wp_quiet H); [apply quiet_if; [apply _|quiet]|]. intros [] s1 Hs1.
  destruct (ready_same _ _ _ _ _ _ Hs1 Hr Hp) as (l1 & Hr1 & Hp1). do 2 wp_step. cbn beta.
  destruct (blockless_due s1 l); [|by eapply forward_kept].
  do 2 wp_step. cbn beta. destruct (ready_same _ _ _ _ _ _ H1 Hr1 Hp1) as (l2 & Hr2 & Hp2).
  destruct a as [up|].
  - do 2 wp_step. eapply (good_link_end _ _ l2); [|apply Hr2]. by apply (good_same s'), Hr2.
  - do 2 wp_step. set (s3 := on_link _ _).
    assert (same s' s3) as Hs3 by (subst s3; sames).
    destruct (ready_same _ _ _ _ _ _ Hs3 Hr2 Hp2) as (l3 & Hr3 & Hp3). by eapply forward_kept.
Qed.

Lemma judge_duplicate_next wrap c st creq lr h lacks alt advance_to :
  judge wrap c st creq lr h lacks alt = JDuplicate advance_to ->
  exists n, cl_n (classify_result h (l_up_cursor st) lr) = Some n /\ n < c_cursor c
    /\ forall next, advance_to = Some next -> next = sat_add u32_max n 1.
Proof.
  unfold judge. cbv zeta. destruct (if bool_decide _ then _ else _) as [kind|nb]; [done|].
  set (held := held_against c st lr). destruct (cl_n _) as [n|].
  2: { destruct held; repeat case_match; done. }
  destruct (n <? c_cursor c) eqn:E1.
  - destruct (_ && is_dup _ _ _ _).
    + intros [= <-]. bools. exists n. split_and!; [done|done|]. by destruct (cl_advance _); intros next [= <-].
    + destruct held; repeat case_match; done.
  - destruct held; repeat case_match; done.
Qed.

(** A spent live link gets no numbered result. *)
Lemma spent_no_number lk lr h n :
  spent lk -> lk_req lk = Some lr -> lk_role lk = Live -> conforming_result lk h ->
  cl_n (classify_result h (lk_cursor lk) lr) = Some n -> False.
Proof.
  intros Hs Hr Hl Hc. destruct Hs as [?|[?|(r & u & lib & Hr' & Hu & Hle & Hlib & Hend)]]; [congruence..|].
  rewrite Hr in Hr'. injection Hr' as <-. destruct (Hc Hl lib Hlib) as [Hm Hp].
  unfold classify_result. rewrite Hu. destruct (this_block h) as [p|].
  { destruct (Hp p lr u eq_refl Hr Hu) as [H1 H2]. lia. }
  assert (u <? lr_end lr = false) as -> by (apply Z.ltb_ge; lia). by rewrite andb_false_r.
Qed.

Lemma replay_inv k lk lr h n next :
  Inv stitched k -> k_link k = Some lk -> lk_req lk = Some lr -> conforming_result lk h ->
  cl_n (classify_result h (lk_cursor lk) lr) = Some n -> n < k_cursor k -> next <= k_cursor k ->
  Inv stitched (with_link
    (Some (mkLinkKey (lk_role lk) (lk_req lk) (Exact next) (lk_linger lk) (lk_lib lk))) k).
Proof.
  intros Hi Hl Hr Hc Hn Hlt Hnx.
  destruct (inv_linked _ _ lk Hi Hl) as (Hlk & _ & Hnd).
  eapply inv_link; cbn; try done.
  - by apply base_with_link, Hi.
  - apply Hi.
  - eauto.
  - intros Hs Ha Hst Hf. destruct (i_frozen _ _ Hi Hs Ha Hst lk Hl Hf) as (r & u & Er & _ & Hu & Hcl).
    exists r, next. cbn. split_and!; try done; lia.
  - intros Hg. destruct (i_linger _ _ Hi lk Hl Hg) as [Hsp Hna]. split; [|done].
    destruct Hsp as [Hsp|?]; [left|by right]. destruct (lk_role lk) eqn:Er; [|by right; left].
    by destruct (spent_no_number lk lr h n).
  - intros t p r Ep Eq. destruct (request_is_empty r) eqn:E; [|done].
    destruct (i_hold _ _ Hi t p r Ep Eq E). congruence.
Qed.

Lemma drop_replay_kept advance_to h n s l lr :
  ResultReady s l lr h -> cl_n (classify_result h (l_up_cursor (lk_st l)) lr) = Some n ->
  n < c_cursor (s_c s) -> (forall next, advance_to = Some next -> next = sat_add u32_max n 1) ->
  wp (drop_replay advance_to) s Kept.
Proof.
  intros Hr Hn Hlt Hadv. pose proof Hr as [[Hv Hi] Hl Hq Hc]. unfold drop_replay. do 2 wp_step. cbn beta.
  rewrite Hl. destruct advance_to as [next|]; cbn [drop_duplicate]; wp_run; intros _; eapply good_same; try done.
  - split; [done|]. rewrite (Hadv next eq_refl).
    apply (replay_inv (core s) (key_of (lk_st l)) lr h n); try done; [by apply good_link|].
    cbn. unfold sat_add. lia.
  - split; [done|]. unfold core in *. cbn. rewrite Hl in Hi. exact Hi.
Qed.

Lemma wp_judge_result frame h s (Q : option Judgement -> Session -> Prop) :
  (forall j s', same s s' ->
     (forall jj, j = Some jj -> exists l lr creq lacks alt,
        s_link s' = Some l /\ l_req (lk_st l) = Some lr
        /\ judge env_wrap (s_c s') (lk_st l) creq lr h lacks alt = jj) -> Q j s') ->
  wp (judge_result frame h) s Q.
Proof.
  intros HQ. unfold judge_result. do 6 wp_step. wp_step. apply HQ; [by etrans|]. intros jj Hj.
  destruct (s_link s'0) as [l|]; [|done]. destruct (c_req (s_c s'0)) as [creq|]; [|done].
  destruct (l_req (lk_st l)) as [lr|] eqn:E; [|done]. injection Hj as <-. by do 5 eexists.
Qed.

Lemma on_discontinuity_kept s l : Good s -> s_link s = Some l -> wp on_discontinuity s Kept.
Proof.
  intros Hg Hl. unfold on_discontinuity. do 2 wp_step. cbn beta. rewrite Hl. wp_step.
  eapply wp_mono; [by eapply good_link_end|]. intros f s1 Hk. wp_run. intros E. specialize (Hk E). done.
Qed.

Lemma on_block_result_kept frame h s l :
  Good s -> s_link s = Some l -> conforming_result (key_of (lk_st l)) h ->
  wp (on_block_result frame h) s Kept.
Proof.
  intros Hg Hl Hc. unfold on_block_result. wp_step. apply wp_judge_result. intros j s1 Hs1 Hj.
  assert (Good s1) as Hg1 by by eapply good_same.
  destruct (same_has_link _ _ _ Hs1 Hl) as (l1 & Hl1 & Hk1). rewrite <-Hk1 in Hc.
  destruct j as [jj|].
  2: { do 2 wp_step. cbn beta. rewrite Hl1. destruct (is_some_and _ _); [by eapply good_link_end|by wp_step; intros _]. }
  destruct (Hj jj eq_refl) as (l2 & lr & creq & lk & alt & Hl2 & Hlr & Hjj).
  rewrite Hl1 in Hl2. injection Hl2 as <-.
  assert (ResultReady s1 l1 lr h) as Hr by by split.
  destruct jj as [fw|adv|e].
  - apply judge_forward_cls in Hjj. fold (passes s1 l1 lr h fw) in Hjj. destruct (fw_no_block fw).
    + by eapply forward_without_block_kept.
    + do 2 wp_step. assert (same s1 (set_s_blockless_moves 0 s1)) as Hs2 by done.
      destruct (ready_same _ _ _ _ _ _ Hs2 Hr Hjj) as (l3 & Hr3 & Hp3). by eapply forward_kept.
  - apply judge_duplicate_next in Hjj as (n & Hn & Hlt & Hadv). by eapply drop_replay_kept.
  - destruct e; try (by eapply good_link_end). by eapply on_discontinuity_kept.
Qed.

(** What the upstream sends a link conforms. *)
Definition conforms (s : Session) (e : UpEvent) : Prop :=
  forall frame h l, e = UeBinary frame -> classify_upstream frame = UBlocks h -> s_link s = Some l ->
    conforming_result (key_of (lk_st l)) h.

Lemma on_upstream_binary_kept frame s l :
  Good s -> s_link s = Some l ->
  (forall h, classify_upstream frame = UBlocks h -> conforming_result (key_of (lk_st l)) h) ->
  wp (on_upstream_binary frame) s Kept.
Proof.
  intros Hg Hl Hc. unfold on_upstream_binary. do 2 wp_step. cbn beta. rewrite Hl. cbv zeta.
  destruct (classify_upstream frame) as [v1|h|] eqn:E.
  - destruct (bool_decide _); [by eapply good_link_end|]. wp_run; intros ?; [exact Hg|by eapply good_same].
  - eapply on_block_result_kept; eauto.
  - destruct (bool_decide _); [by eapply good_link_end|].
    wp_run; intros ?; first [exact Hg | by eapply good_same].
Qed.

Lemma on_upstream_kept e s : Good s -> conforms s e -> wp (on_upstream e) s Kept.
Proof.
  intros Hg Hc. unfold on_upstream. do 2 wp_step. cbn beta. destruct (s_link s) as [l|] eqn:El; [|by wp_step; intros _].
  cbv zeta. destruct e as [frame|code|pong| |]; try (by eapply good_link_end).
  - wp_step. apply (wp_quiet _ (Quiet0 := quiet_note_frame _ _)). intros [] s1 Hs1.
    destruct (same_has_link _ _ _ Hs1 El) as (l1 & Hl1 & Hk1).
    eapply on_upstream_binary_kept; [by eapply good_same|done|]. intros h Hh. rewrite Hk1. by eapply Hc.
  - wp_step. apply (wp_quiet _ (Quiet0 := quiet_note_frame _ _)). intros [] s1 Hs1.
    wp_run. intros _. eapply good_same; [|done]. sames. 
  - wp_step. apply (wp_quiet _ (Quiet0 := quiet_note_frame _ _)). intros [] s1 Hs1.
    wp_run. intros _. by eapply good_same.
Qed.
End handlers.
