(* ===== verification/SessionTurn.v ===== *)
(** * The session actor never forgets a request: a turn of the loop

    The handlers of client requests, finished dials, timers, views and operator
    requests preserve the invariant of SessionInv.v (SessionKept.v has those of
    the upstream), and with them one pass of the loop and what comes before it. *)

From S2P Require Import Prelude Wire Models Coverage View Planner Failover Link Client Status Stream.
From S2P Require Import SessionState SessionPlan SessionActor SessionLoop SessionInv SessionKept.

Lemma wp_and {A} (m : M A) s (P Q : A -> Session -> Prop) :
  wp m s P -> wp m s Q -> wp m s (fun a s' => P a s' /\ Q a s').
Proof. by split. Qed.

Section client.
Context `{SessionCfg, SessionEnv} {Hsound : SoundEnv}.

(** ** New requests *)

(** The core once a request is taken. *)
Definition requested (k : Core) (r : BlocksRequest) : Core :=
  mkCore (Some r) (br_start r) 0 (k_link k) (k_dialing k) (k_phase k).

Lemma requested_base k r : br_end r <= u32_max -> Base (requested k r).
Proof. intros Hr. split; [|done|]; by intros ? [= <-]. Qed.

Lemma empty_at_end r : request_is_empty r = true -> br_end r <= br_start r.
Proof. unfold request_is_empty. intros ?. by bools. Qed.

(** What is known while a request is taken: the new request, and a phase that may
    have a link where there is one. *)
Record Taken (s : Session) (r : BlocksRequest) : Prop := {
  tk_view : Side s;
  tk_req : k_req (core s) = Some r;
  tk_cursor : k_cursor (core s) = br_start r;
  tk_base : Base (core s);
  tk_parks : parks (k_phase (core s)) = true -> stitched = true;
  tk_link : forall lk, k_link (core s) = Some lk -> linked (k_phase (core s)) = true;
}.

Lemma taken_same s s' r : same s s' -> Taken s r -> Taken s' r.
Proof. intros [Hc Hv] []. split; rewrite ?Hc; auto. Qed.

Definition KeepsReq (s : Session) (f : Flow) (s' : Session) : Prop :=
  f = Continue -> k_req (core s') = k_req (core s).

Lemma on_link_end_req e s : wp (on_link_end e) s (KeepsReq s).
Proof.
  unfold on_link_end. do 2 wp_step. cbn beta zeta. destruct (s_link s) as [l|]; [|by wp_step].
  destruct (_ && _ && _).
  - wp_step. apply (wp_mono _ _ (fun _ s' => core s' = core s)); [by wp_run|]. intros _ s1 H1c.
    wp_step. apply wp_retire. intros s2 H2c _. do 3 wp_step. apply wp_if_streaming.
    intros s3 H3c _. wp_step. intros _. by rewrite H3c, H2c, H1c.
  - wp_step. apply wp_retire. intros s1 H1c _. wp_step; [by wp_run|].
    apply wp_fail_over; [done|]. intros s2 until H2c _ _. by rewrite H2c, H1c.
Qed.

Lemma send_request_req end_ p s : wp (send_request end_ p) s (KeepsReq s).
Proof.
  unfold send_request. do 2 wp_step. cbn beta. destruct (c_req (s_c s)) as [r|] eqn:Er; [|by wp_step].
  destruct (s_link s) as [l|]; [|by wp_step]. cbv zeta. destruct (build_request _ _ _ _ _ _ _) as [req st].
  do 4 wp_step. destruct H1 as [Hc _]. wp_step.
  - unfold set_phase. wp_run. intros _. apply (f_equal k_req) in Hc. exact Hc.
  - eapply wp_mono; [apply on_link_end_req|]. intros f s2 Hk E. rewrite (Hk E). by apply (f_equal k_req) in Hc.
Qed.

(** A link kept for a while under an empty request. *)
Lemma lingering_good s r t :
  Good s -> k_req (core s) = Some r -> request_is_empty r = true ->
  Good (on_link (l_set_linger_until t) s).
Proof.
  intros [Hv Hi] Hr He. split; [done|]. destruct (k_link (core s)) as [lk|] eqn:El.
  - rewrite (core_linger s lk t El). pose proof (asked_empty _ _ Hr He) as Ha.
    destruct (inv_linked _ _ lk Hi El) as (Hl & _ & Hd).
    change (with_link _ (core s)) with (with_phase (k_phase (core s)) (with_link
      (Some (mkLinkKey (lk_role lk) (lk_req lk) (lk_cursor lk) t (lk_lib lk))) (core s))).
    apply rest_inv; try done; [apply Hi|apply Hi| |by right; exists r].
    intros t' q r' Ep Er. destruct (request_is_empty r') eqn:E; [|done].
    destruct (i_hold _ _ Hi t' q r' Ep Er E). congruence.
  - replace (core (on_link _ s)) with (core s); [done|]. unfold core in *. cbn in *. by destruct (s_link s).
Qed.

(** An empty request leaves nothing asked. *)
Lemma taken_idle s r :
  Taken s r -> request_is_empty r = true -> k_dialing (core s) = false -> Good (set_s_phase PhIdle s).
Proof.
  intros [Hv Hr Hc Hb _ Hl] He Hnd. apply idle_good; try done.
  - by apply (base_with_phase PhIdle (core s)).
  - by apply (asked_empty _ r).
  - intros lk _ _. right. by exists r.
Qed.

Lemma taken_link s r l : Taken s r -> s_link s = Some l -> linked (s_phase s) = true.
Proof. intros Ht Hl. apply (tk_link _ _ Ht (key_of (lk_st l))). by apply good_link. Qed.

(** An empty request may be sent to a link. *)
Lemma empty_send_ready s r l end_ :
  Taken s r -> request_is_empty r = true -> k_dialing (core s) = false -> s_link s = Some l ->
  SendReady (core s) end_.
Proof.
  intros Ht He Hd Hl. pose proof (asked_empty _ _ (tk_req _ _ Ht) He) as Ha.
  pose proof (taken_link _ _ _ Ht Hl) as Hk. split; try done; rewrite ?Ha; try done.
  - apply Ht.
  - cbn. by rewrite (linked_dials _ Hk).
  - intros t p q _ Hq _. rewrite (tk_req _ _ Ht) in Hq. injection Hq as <-.
    rewrite (tk_cursor _ _ Ht). by apply empty_at_end.
Qed.

Lemma taken_dropped s s' r :
  core s' = with_dial false (core s) -> (Side s -> Side s') -> Taken s r -> Taken s' r.
Proof. intros Hc Hv []. split; rewrite ?Hc; auto. by apply base_with_dial. Qed.

Lemma taken_retired s s' r :
  core s' = with_link None (core s) -> (Side s -> Side s') -> Taken s r -> Taken s' r.
Proof. intros Hc Hv []. split; rewrite ?Hc; auto; [by apply base_with_link|done]. Qed.

Lemma on_empty_stitched_kept r pre s :
  Taken s r -> request_is_empty r = true -> wp (on_empty_stitched r pre) s Kept.
Proof.
  intros Ht He. unfold on_empty_stitched. do 4 wp_step. destruct H1 as [Hc Hv].
  change (core s' = with_dial false (core s)) in Hc.
  apply (taken_dropped _ _ _ Hc Hv) in Ht. assert (k_dialing (core s') = false) as Hd by by rewrite Hc.
  clear s Hc Hv. rename s' into s. do 2 wp_step. cbn beta.
  assert (wp (set_phase PhIdle;; mret Continue) s Kept) as Hidle.
  { unfold set_phase. wp_run. intros _. by eapply taken_idle. }
  destruct (s_link s) as [l|] eqn:El; [|done]. destruct (is_some (l_req _)); [|done].
  destruct (link_quiescent s l pre).
  - wp_step. eapply wp_mono.
    { apply wp_and; [|apply send_request_req].
      apply (send_request_kept _ _ _ l r); [apply Ht|by eapply empty_send_ready|done|apply Ht]. }
    intros f s1 [Hk Hq]. wp_run. intros E. apply (lingering_good _ r); [by apply Hk| |done].
    rewrite (Hq E). apply Ht.
  - wp_step. apply wp_retire. intros s1 Hc Hv. unfold set_phase. wp_run. intros _.
    apply (taken_idle _ r); [by eapply taken_retired|done|by rewrite Hc].
Qed.

Lemma on_stitched_request_kept r pre s : stitched = true -> Taken s r -> wp (on_stitched_request r pre) s Kept.
Proof.
  intros Hs Ht. unfold on_stitched_request. do 2 wp_step. set (s1 := set_s_hold None _).
  assert (Taken s1 r) as Ht1 by (apply (taken_same s); [split; [done|exact (side_no_hold s)]|done]). destruct (request_is_empty r) eqn:Ee.
  - by apply on_empty_stitched_kept.
  - wp_step. rewrite <-(tk_cursor _ _ Ht1). apply wp_plan.
    + split; [apply Ht1|apply Ht1|]. intros q Hq He. rewrite (tk_req _ _ Ht1) in Hq. congruence.
    + intros step s2 [Hc Hv] Hok. apply apply_step_kept; rewrite ?Hc; [done|apply Hv, Ht1|apply Ht1|done].
Qed.

(** *** Pool sessions *)

Lemma pool_dialing_good s k p st :
  stitched = false -> Side s -> Base k -> k_link k = None ->
  core s = with_phase (PhDialing p st) (with_dial true k) -> Good s.
Proof.
  intros Hs Hv Hb Hl Hc. split; [done|]. rewrite Hc. apply (inv_dialing _ _ p st); try done.
  - by apply base_with_phase, base_with_dial.
  - congruence.
Qed.

Lemma dial_or_close_kept up p s :
  stitched = false -> Side s -> Base (core s) -> k_link (core s) = None ->
  wp (dial_or_close up p) s Kept.
Proof.
  intros Hs Hv Hb Hl. unfold dial_or_close. wp_step. apply wp_start_dial; [|done].
  intros s1 Hc Hv1. wp_step. intros _. apply (pool_dialing_good _ (core s) p None); auto.
Qed.

(** A backoff goes on for the new request. *)
Lemma backoff_good s until p :
  Side s -> Base (core s) -> k_link (core s) = None -> k_dialing (core s) = false ->
  Good (set_s_phase (PhBackoff until p) s).
Proof.
  intros Hv Hb Hl Hd. split; [done|]. apply inv_no_link; try done. by apply (base_with_phase _ (core s)).
Qed.

Lemma unlinked s r : Taken s r -> linked (s_phase s) = false -> k_link (core s) = None.
Proof.
  intros Ht Hp. destruct (k_link (core s)) as [lk|] eqn:E; [|done].
  pose proof (tk_link _ _ Ht lk E) as Hl. cbn in Hl. congruence.
Qed.

Lemma on_empty_request_kept r pre s :
  stitched = false -> Taken s r -> k_dialing (core s) = dials (k_phase (core s)) ->
  request_is_empty r = true -> wp (on_empty_request r pre) s Kept.
Proof.
  intros Hs Ht Hd He. unfold on_empty_request. do 2 wp_step. cbn beta.
  destruct (s_link s) as [l|] eqn:El.
  - pose proof (taken_link _ _ _ Ht El) as Hl.
    assert (k_dialing (core s) = false) as Hnd by (rewrite Hd; by apply linked_dials).
    destruct (is_some (l_req _)).
    + destruct (link_quiescent s l pre).
      * apply (send_request_kept _ _ _ l r); [apply Ht|by eapply empty_send_ready|done|apply Ht].
      * wp_step. apply wp_retire. intros s1 Hc Hv. apply (taken_retired _ _ _ Hc Hv) in Ht.
        apply (dial_or_close_kept (lk_up l) PInitial s1); [done|apply Ht|apply Ht|by rewrite Hc].
    + unfold set_phase. wp_run. intros _. by eapply taken_idle.
  - wp_step. intros _. assert (k_link (core s) = None) as Hl by (cbn; by rewrite El).
    split; [apply Ht|]. destruct (dials (k_phase (core s))) eqn:Ed.
    + destruct (k_phase (core s)) as [| |p st| | |] eqn:Ep; try done.
      apply (inv_dialing _ _ p st); try done; [apply Ht|congruence].
    + apply inv_no_link; try done; [apply Ht|apply Ht|by rewrite (asked_empty _ r (tk_req _ _ Ht) He)|].
      intros t p q _ Hq _. rewrite (tk_req _ _ Ht) in Hq. injection Hq as <-.
      rewrite (tk_cursor _ _ Ht). by apply empty_at_end.
Qed.

#[export] Instance quiet_pick_for_request s r : Quiet (pick_for_request s r).
Proof. unfold pick_for_request. apply _. Qed.

(** A pool request may go to any link. *)
Lemma pool_send_ready s r l end_ :
  stitched = false -> Taken s r -> k_dialing (core s) = dials (k_phase (core s)) ->
  request_is_empty r = false -> s_link s = Some l -> SendReady (core s) end_.
Proof.
  intros Hs Ht Hd He Hl. split; try congruence; [apply Ht| |].
  - rewrite Hd. by apply linked_dials, (taken_link _ _ _ Ht Hl).
  - intros t p q _ Hq. rewrite (tk_req _ _ Ht) in Hq. congruence.
Qed.

(** A request for a target, without a link. *)
Lemma unlinked_request_kept r target (rerouted : bool) purpose s :
  stitched = false -> Taken s r -> k_dialing (core s) = dials (k_phase (core s)) -> k_link (core s) = None ->
  wp (match s_phase s, rerouted with
      | PhDialing _ _, false => set_phase (PhDialing purpose None);; mret Continue
      | PhBackoff until _, _ => set_phase (PhBackoff until PInitial);; mret Continue
      | _, _ => dial_or_close target purpose
      end) s Kept.
Proof.
  intros Hs Ht Hd Hl.
  assert (wp (dial_or_close target purpose) s Kept) as Hdial
    by (apply dial_or_close_kept; try done; apply Ht).
  destruct (s_phase s) as [| |p st|until p| |] eqn:Ep; try (by destruct rerouted).
  - destruct rerouted; [done|]. unfold set_phase. wp_run. intros _.
    apply (pool_dialing_good _ (core s) purpose None); try done; try apply Ht.
    unfold core, with_phase, with_dial in *. cbn in *. by rewrite Hd, Ep.
  - unfold set_phase. assert (k_dialing (core s) = false) by (rewrite Hd; cbn; by rewrite Ep).
    destruct rerouted; wp_run; intros _; apply backoff_good; try done; apply Ht.
Qed.

Lemma on_pool_request_kept r pre s :
  stitched = false -> Taken s r -> k_dialing (core s) = dials (k_phase (core s)) ->
  request_is_empty r = false -> wp (on_pool_request r pre) s Kept.
Proof.
  intros Hs Ht Hd He. unfold on_pool_request. do 4 wp_step. cbn beta.
  pose proof (taken_same _ _ _ H1 Ht) as Ht1. rename s' into s1, a into pick.
  assert (k_dialing (core s1) = dials (k_phase (core s1))) as Hd1 by (destruct H1 as [-> _]; done).
  assert (s_phase s1 = s_phase s) as Hp1 by (by destruct H1 as [[=] _]).
  destruct (request_target s r pick) as [target|]; [cbv zeta|].
  2: { destruct (s_phase s) as [| | |until p| |] eqn:Ep; try done.
       unfold set_phase. wp_run. intros _. apply backoff_good; try apply Ht1.
       - apply (unlinked _ r Ht1). by rewrite Hp1.
       - rewrite Hd1. cbn. by rewrite Hp1. }
  set (rerouted := is_some_and _ _). set (purpose := if rerouted then _ else _).
  destruct (s_link s) as [l|] eqn:El.
  - wp_step. apply (@wp_quiet H); [quiet|]. intros [] s2 Hs2. pose proof (taken_same _ _ _ Hs2 Ht1) as Ht2.
    assert (same s s2) as Hss by by etrans. destruct (same_has_link _ _ _ Hss El) as (l2 & Hl2 & _).
    assert (k_dialing (core s2) = dials (k_phase (core s2))) as Hd2 by (destruct Hs2 as [-> _]; done).
    destruct (_ && _).
    + apply (send_request_kept _ _ _ l2 r); [apply Ht2|by eapply pool_send_ready|done|apply Ht2].
    + wp_step. apply wp_retire. intros s3 Hc3 Hv3. apply (taken_retired _ _ _ Hc3 Hv3) in Ht2.
      apply dial_or_close_kept; [done|apply Ht2|apply Ht2|by rewrite Hc3].
  - rewrite <-Hp1. apply (unlinked_request_kept r); try done.
    destruct H1 as [-> _]. cbn. by rewrite El.
Qed.

Lemma on_client_request_kept r s : Good s -> br_end r <= u32_max -> wp (on_client_request r) s Kept.
Proof.
  intros [Hv Hi] Hr. unfold on_client_request. do 2 wp_step. cbn beta.
  destruct (new_request r (s_c s)) as [pre c] eqn:En. do 2 wp_step.
  set (s1 := on_link _ _).
  assert (core s1 = requested (core s) r) as Hc1.
  { injection En as _ <-. subst s1. unfold core, requested. cbn. by destruct (s_link s). }
  do 2 wp_step. assert (Taken s' r /\ k_dialing (core s') = dials (k_phase (core s'))) as [Ht Hd].
  { destruct H1 as [Hc Hv1]. rewrite Hc1 in Hc. rewrite Hc. split; [|apply Hi].
    split; rewrite ?Hc; try done; [by apply Hv1|by apply requested_base|apply Hi|apply Hi]. }
  destruct stitched eqn:Es; [by apply on_stitched_request_kept|].
  destruct (request_is_empty r) eqn:Ee; [by apply on_empty_request_kept|by apply on_pool_request_kept].
Qed.

(** The bytes of a client message. *)
Definition client_ok (e : ClientEvent) : Prop := forall payload, e = CePayload payload -> message_ok payload.

Lemma on_client_kept e s : Good s -> client_ok e -> wp (on_client e) s Kept.
Proof.
  intros Hg He. unfold on_client. destruct e as [payload| | |]; try (by wp_run).
  - do 2 wp_step. set (s1 := set_s_client_seen _ s). assert (Good s1) as Hg1 by by apply (good_same s).
    destruct (decode_client payload) as [[v1|r|n]|err] eqn:Ed.
    + wp_run. intros _. by eapply good_same.
    + apply on_client_request_kept; [done|]. apply decode_client_yields in Ed as [Hok _]; [|by apply He].
      apply Hok.
    + wp_run. intros _. by eapply good_same.
    + destruct err; try (by wp_run). wp_run. intros _. by eapply good_same.
  - do 2 wp_step. wp_step. intros _. by apply (good_same s).
Qed.
End client.

(** ** Dials that finish *)

Section dials.
Context `{SessionCfg, SessionEnv} {Hsound : SoundEnv}.

(** A dial has just finished. *)
Record DialDone (s : Session) : Prop := {
  dd_view : Side s;
  dd_base : Base (core s);
  dd_dial : k_dialing (core s) = false;
  dd_link : k_link (core s) = None;
}.

Lemma dial_done_same s s' : same s s' -> DialDone s -> DialDone s'.
Proof. intros [Hc Hv] []. split; rewrite ?Hc; auto. Qed.

Lemma serve_on_end v tip sh from i ex now st :
  serve_on v tip sh from i ex now = Some st -> from < ss_req_end st.
Proof.
  unfold serve_on. destruct (_ <=? _); [done|]. destruct (_ || _); [done|]. destruct (up v i) as [u|]; [|done].
  cbn. destruct (negb _); [done|]. destruct (gated_end _ _ _ _ _) as [e|]; [|done]. cbn.
  destruct (from <? e) eqn:E; [|done]. intros [= <-]. by bools.
Qed.

Lemma wp_dialed_leg cur s (Q : option ServeStep -> Session -> Prop) :
  (forall leg s', same s s' -> (forall st, leg = Some st -> k_cursor (core s') < ss_req_end st) -> Q leg s') ->
  wp (dialed_leg cur) s Q.
Proof.
  intros HQ. unfold dialed_leg. do 4 wp_step. wp_step. apply HQ; [done|]. intros st Hst.
  destruct (c_req _); [|done]. by apply serve_on_end in Hst.
Qed.

Lemma wp_adopt target est s (Q : unit -> Session -> Prop) :
  (forall s' lk, core s' = with_link (Some lk) (core s) -> (Side s -> Side s') ->
     Q tt s') ->
  wp (adopt_link target est) s Q.
Proof. intros HQ. unfold adopt_link. do 3 wp_step. destruct a, H1 as [Hc Hv]. eapply HQ; [exact Hc|exact Hv]. Qed.

Lemma with_link_dial x k : k_dialing k = false -> with_link x k = with_link x (with_dial false k).
Proof. unfold with_link, with_dial. cbn. by intros ->. Qed.

Lemma dial_done_no_linger s lk : DialDone s -> k_link (core s) = Some lk -> False.
Proof. intros Hd Hl. rewrite (dd_link _ Hd) in Hl. done. Qed.

Lemma use_stitched_link_kept target est p st s :
  stitched = true -> DialDone s -> asked (core s) = true -> k_cursor (core s) < ss_req_end st ->
  wp (use_stitched_link target est p (Some st)) s Kept.
Proof.
  intros Hs Hd Ha Hlt. unfold use_stitched_link. do 2 wp_step. cbn beta.
  change (in_progress (s_c s)) with (asked (core s)). rewrite Ha. destruct (_ && _).
  - do 2 wp_step. pose proof (dial_done_same _ _ H1 Hd) as Hd1. apply replan_kept; try done; try apply Hd1.
    intros lk Hl. by destruct (dial_done_no_linger _ _ Hd1 Hl).
  - wp_step. apply wp_adopt. intros s1 lk Hc Hv. apply (send_leg_kept _ _ _ (core s) lk); try done.
    + by rewrite Hc, with_link_dial by apply Hd.
    + apply Hv, Hd.
    + apply Hd.
Qed.

Lemma plan_held_kept p s :
  stitched = true -> Side s -> Base (core s) -> asked (core s) = true -> wp (plan_held p) s Kept.
Proof. intros Hs Hv Hb Ha. unfold plan_held. do 2 wp_step. by apply plan_and_apply_kept, asked_plan_ready. Qed.

Lemma on_stitched_dial_kept target outcome p st s :
  stitched = true -> DialDone s -> asked (core s) = true -> k_cursor (core s) < ss_req_end st ->
  wp (on_stitched_dial target outcome p (Some st)) s Kept.
Proof.
  intros Hs Hd Ha Hlt. unfold on_stitched_dial. do 2 wp_step. set (s1 := set_s_dial_was_predial false s).
  assert (DialDone s1) as Hd1 by by apply (dial_done_same s). destruct outcome as [est|error].
  - do 2 wp_step. pose proof (dial_done_same _ _ H1 Hd1) as Hd2. destruct H1 as [Hc2 Hv2].
    rename s' into s2. change (core s2 = core s) in Hc2. rewrite <-Hc2 in Ha, Hlt.
    do 2 wp_step. cbn beta zeta. change (in_progress (s_c s2)) with (asked (core s2)). rewrite Ha.
    destruct a; cbn [negb andb].
    + wp_step. apply wp_plan; [by apply asked_plan_ready; try apply Hd2|]. intros step s3 Hs3 Hok.
      pose proof (dial_done_same _ _ Hs3 Hd2) as Hd3. destruct Hs3 as [Hc3 _]. rewrite <-Hc3 in Ha, Hlt, Hok.
      destruct (is_serve step); [do 2 wp_step; by apply apply_step_kept; try apply Hd3|].
      by apply use_stitched_link_kept.
    + wp_step. apply wp_dialed_leg. intros leg s3 Hs3 Hleg. pose proof (dial_done_same _ _ Hs3 Hd2) as Hd3.
      destruct Hs3 as [Hc3 _]. rewrite <-Hc3 in Ha. destruct leg as [st'|].
      * apply use_stitched_link_kept; auto.
      * apply plan_held_kept; try done; apply Hd3.
  - do 3 wp_step. apply (@wp_quiet H); [apply _|]. intros [] s3 Hs3. do 2 wp_step.
    set (s4 := set_s_dial_attempts _ s3).
    assert (same s s4) as Hs4. { etrans; [|exact Hs3]. exact H1. }
    pose proof (dial_done_same _ _ Hs4 Hd) as Hd4. rewrite <-(proj1 Hs4) in Ha. do 2 wp_step. cbn beta.
    destruct (_ <? _); [apply plan_held_kept; try done; apply Hd4|].
    by apply apply_step_kept; try apply Hd4.
Qed.

Lemma wp_or_stop m k s (Q : Flow -> Session -> Prop) :
  wp m s (fun f s' => match f with Stop => Q Stop s' | Continue => wp k s' Q end) -> wp (or_stop m k) s Q.
Proof. intros Hm. unfold or_stop. wp_step. eapply wp_mono; [exact Hm|]. by intros [] s'. Qed.

(** A handler that goes on after another that kept the invariant. *)
Lemma or_stop_kept m k s :
  wp m s Kept -> (forall s', Good s' -> wp k s' Kept) -> wp (or_stop m k) s Kept.
Proof.
  intros Hm Hk. apply wp_or_stop. eapply wp_mono; [exact Hm|]. intros [] s' Hg; [by apply Hk, Hg|done].
Qed.

Lemma quiet_kept (m : M Flow) `{!Quiet m} s : Good s -> wp m s Kept.
Proof. intros Hg. wp_step. intros _. by eapply good_same. Qed.

Lemma resume_on_link_kept p s lk :
  stitched = false -> k_link (core s) = Some lk -> Side s -> Base (core s) ->
  k_dialing (core s) = false -> lk_linger lk = None -> wp (resume_on_link p) s Kept.
Proof.
  intros Hs Hc Hv Hb Hd Hg. unfold resume_on_link. do 2 wp_step. cbn beta.
  assert (asked (core s) = false -> wp (set_phase PhIdle;; mret Continue) s Kept) as Hidle.
  { intros Ha. unfold set_phase. wp_run. intros _. apply idle_good; try done.
    - by apply (base_with_phase PhIdle (core s)).
    - intros lk' Hl. change (k_link (core s) = Some lk') in Hl. rewrite Hc in Hl. injection Hl as <-.
      by rewrite Hg. }
  destruct (c_req (s_c s)) as [r|] eqn:Er.
  2: { apply Hidle. unfold asked. cbn. by rewrite Er. }
  destruct (request_is_empty r) eqn:Ee; [apply Hidle; by apply (asked_empty _ r)|].
  destruct (core_link s lk) as [l Hl]; [done|].
  apply (send_request_kept _ _ _ l r); try done. split; try congruence.
  intros t q r' _ Hr'. cbn in Hr'. congruence.
Qed.

Lemma new_link_linger t est now : lk_linger (key_of (lk_st (new_link t est now))) = None.
Proof. done. Qed.

Lemma use_pool_link_kept target est p s :
  stitched = false -> DialDone s -> wp (use_pool_link target est p) s Kept.
Proof.
  intros Hs Hd. unfold use_pool_link. wp_step. unfold adopt_link. do 3 wp_step. destruct a, H1 as [Hc Hv].
  apply or_stop_kept.
  - eapply resume_on_link_kept; [done|by rewrite Hc|apply Hv, Hd| | |apply new_link_linger].
    + rewrite Hc. apply (base_with_link _ (core s)), Hd.
    + rewrite Hc. apply Hd.
  - intros s1 Hg. do 2 wp_step. cbn beta. destruct (is_none _); [by wp_step; intros _|].
    apply or_stop_kept; [by apply quiet_kept; [apply _|]|]. intros s2 Hg2. wp_run. intros _. by eapply good_same.
Qed.

Lemma on_pool_dial_kept target outcome p s :
  stitched = false -> DialDone s -> wp (on_pool_dial target outcome p) s Kept.
Proof.
  intros Hs Hd. unfold on_pool_dial. destruct outcome as [est|error].
  - do 2 wp_step. wp_step. apply (@wp_quiet H); [quiet|]. intros other s2 Hs2.
    assert (DialDone s2) as Hd2 by (eapply dial_done_same; [|done]; by etrans).
    destruct other as [up|]; [apply dial_or_close_kept; try done; apply Hd2|by apply use_pool_link_kept].
  - do 4 wp_step. set (s2 := set_s_dial_attempts _ s'). assert (same s s2) as Hs2 by exact H1.
    do 3 wp_step. apply (@wp_quiet H); [quiet|]. intros next s3 Hs3.
    assert (DialDone s3) as Hd3 by (eapply dial_done_same; [|done]; by etrans). wp_step.
    destruct next as [up|]; [|done].
    apply wp_start_dial; [|done]. intros s4 Hc Hv. wp_step. intros _.
    apply (pool_dialing_good _ (core s3) p None); try done; try apply Hd3. apply Hv, Hd3.
Qed.

Lemma on_dial_kept outcome s : Good s -> wp (on_dial outcome) s Kept.
Proof.
  intros [Hv Hi]. unfold on_dial. do 2 wp_step. cbn beta. destruct (s_dial s) as [target|] eqn:Ed; [|by wp_step].
  assert (dials (k_phase (core s)) = true) as Hdi by (rewrite <-(i_dial _ _ Hi); cbn; by rewrite Ed).
  do 2 wp_step. assert (DialDone (set_s_dial None s)) as Hd.
  { split; try done; [apply (base_with_dial false (core s)), Hi|].
    change (k_link (core s) = None). destruct (k_link (core s)) as [lk|] eqn:E; [|done].
    pose proof (i_link _ _ Hi lk E) as Hl. by apply linked_dials in Hl; congruence. }
  destruct (s_phase s) as [| |p st| | |] eqn:Ep; cbn in Hdi; rewrite Ep in Hdi; try done. cbn [dialing_for].
  destruct stitched eqn:Es; [|by apply on_pool_dial_kept].
  destruct (i_step _ _ Hi eq_refl p st Ep) as (Ha & cur & -> & Hlt). by apply on_stitched_dial_kept.
Qed.
End dials.

(** ** Timers, views and the operator *)

Section timers.
Context `{SessionCfg, SessionEnv} {Hsound : SoundEnv}.

Lemma good_plan_ready s : Good s -> parks (s_phase s) || dials (s_phase s) = true -> stitched = true -> 
  (forall t b p, s_phase s <> PhWaiting t b p) -> PlanReady s.
Proof.
  intros [Hv Hi] Hp Hs Hw. split; [done|apply Hi|]. intros r Hr He.
  destruct (s_phase s) as [| |p st| |t p|b t p] eqn:Ep; try done.
  - destruct (i_step _ _ Hi Hs p st Ep) as [Ha _]. by rewrite (asked_empty _ _ Hr He) in Ha.
  - by destruct (i_hold _ _ Hi t p r Ep Hr He).
  - by destruct (Hw b t p).
Qed.

Lemma good_linger s lk :
  Good s -> k_link (core s) = Some lk -> is_some (lk_linger lk) = true ->
  spent lk \/ exists r, k_req (core s) = Some r /\ request_is_empty r = true.
Proof. intros [_ Hi] Hl Hg. apply (i_linger _ _ Hi lk Hl Hg). Qed.

(** A re-plan from a backoff or a wait. *)
Lemma good_replan_kept p s :
  stitched = true -> Good s -> dials (s_phase s) = false -> wp (replan p) s Kept.
Proof.
  intros Hs Hg Hp. pose proof Hg as [Hv Hi]. apply replan_kept; try done; [apply Hi|by rewrite (i_dial _ _ Hi)|].
  intros lk. by apply good_linger.
Qed.

Lemma on_backoff_expired_kept p s until q :
  Good s -> s_phase s = PhBackoff until q -> wp (on_backoff_expired p) s Kept.
Proof.
  intros Hg Hp. unfold on_backoff_expired. do 2 wp_step. pose proof (good_same _ _ H1 Hg) as Hg1.
  assert (s_phase s' = PhBackoff until q) as Hp1 by (rewrite <-Hp; by destruct H1 as [[=] _]).
  destruct stitched eqn:Es; [apply good_replan_kept; try done; by rewrite Hp1|].
  do 4 wp_step. pose proof (good_same _ _ H2 Hg1) as Hg2. destruct a0 as [up|]; [|done].
  apply dial_or_close_kept; try done; try apply Hg2. destruct H2 as [-> _].
  destruct (k_link (core s')) as [lk|] eqn:E; [|done]. pose proof (i_link _ _ (proj2 Hg1) lk E) as Hl.
  cbn in Hl. by rewrite Hp1 in Hl.
Qed.

Lemma wp_online_instead_of cur s (Q : option Step -> Session -> Prop) :
  PlanReady s ->
  (forall o s', same s s' -> (forall step, o = Some step -> step_ok (core s) step) -> Q o s') ->
  wp (online_instead_of cur) s Q.
Proof.
  intros Hr HQ. unfold online_instead_of. do 2 wp_step. cbn beta.
  destruct (is_some_and _ _); [by wp_step; apply HQ|].
  destruct (c_req (s_c s)) as [r|] eqn:Er; [|by wp_step; apply HQ].
  wp_step. apply wp_next_step_for; [done|done|]. intros step s1 Hs1 Hok. wp_step. apply HQ; [done|].
  intros step' E. destruct step; try done. by destruct (_ =? _); simplify_eq.
Qed.

(** A dialed leg that may have changed its end. *)
Lemma redialed_good s p q st0 st :
  Good s -> s_phase s = PhDialing q st0 -> k_cursor (core s) < ss_req_end st ->
  Good (set_s_phase (PhDialing p (Some st)) s).
Proof.
  intros [Hv Hi] Hp Hlt. split; [done|].
  assert (k_dialing (core s) = true) as Hd by (rewrite (i_dial _ _ Hi); cbn; by rewrite Hp).
  apply (inv_dialing _ _ p (Some st)); try done.
  - apply (base_with_phase _ (core s)), Hi.
  - change (k_link (core s) = None). destruct (k_link (core s)) as [lk|] eqn:E; [|done].
    pose proof (i_link _ _ Hi lk E) as Hl. cbn in Hl. by rewrite Hp in Hl.
  - intros Hs. destruct (i_step _ _ Hi Hs q st0 Hp) as [Ha _]. split; [done|]. eauto.
Qed.

Lemma good_apply_step_kept step p pre s :
  stitched = true -> Good s -> step_ok (core s) step -> wp (apply_step step p pre) s Kept.
Proof. intros Hs [Hv Hi] Hok. apply apply_step_kept; try done. apply Hi. Qed.

Lemma on_hold_due_kept h s : stitched = true -> Good s -> wp (on_hold_due h) s Kept.
Proof.
  intros Hs Hg. unfold on_hold_due. do 2 wp_step. cbn beta.
  destruct (holding (s_phase s)) as [p|] eqn:Eh; [|done]. destruct (h_last_try h); [done|].
  assert (forall s', same s s' -> PlanReady s') as Hr.
  { intros s' Hss. eapply plan_ready_same; [done|]. apply good_plan_ready; try done; by destruct (s_phase s). }
  wp_step.
  apply (wp_mono _ _ (fun leg s' => same s s' /\ forall st, leg = Some st ->
    k_cursor (core s') < ss_req_end st /\ exists q st0, s_phase s = PhDialing q st0)).
  { destruct (s_phase s) as [| |q [cur|]| | |] eqn:Ep; try by wp_step.
    apply wp_dialed_leg. intros leg s' Hss Hleg. split; [done|]. intros st E. split; [auto|eauto]. }
  intros leg s1 [Hs1 Hleg]. destruct leg as [st|].
  - destruct (Hleg st eq_refl) as (Hlt & q & st0 & Ep). do 2 wp_step.
    assert (same s s') as Hs2 by by etrans. wp_step. apply wp_online_instead_of; [by apply Hr|].
    intros other s3 Hs3 Hok. assert (same s s3) as Hss by by etrans. pose proof (good_same _ _ Hss Hg) as Hg3.
    destruct other as [step|].
    + apply good_apply_step_kept; try done. rewrite (proj1 Hs3). by apply Hok.
    + unfold set_phase. wp_run. intros _. apply (redialed_good _ _ q st0); [done| |].
      * rewrite <-Ep. by destruct Hss as [[=] _].
      * rewrite (proj1 Hs3), (proj1 H1). exact Hlt.
  - wp_step. rewrite <-(same_cursor _ _ Hs1). apply wp_plan; [by apply Hr|]. intros step s2 Hs2 Hok.
    destruct (is_serve step); [|done]. do 2 wp_step. assert (same s1 s') as Hs3 by by etrans.
    apply good_apply_step_kept; [done| |by rewrite (proj1 Hs3)]. apply (good_same s); [by etrans|done].
Qed.

Definition KeptOpt (r : option Flow) (s : Session) : Prop :=
  match r with Some f => Kept f s | None => Good s end.

Lemma or_return_kept m k s :
  wp m s KeptOpt -> (forall s', Good s' -> wp k s' Kept) -> wp (or_return m k) s Kept.
Proof.
  intros Hm Hk. unfold or_return. wp_step. eapply wp_mono; [exact Hm|]. intros [f|] s' Hg; [done|by apply Hk].
Qed.

Lemma some_kept (m : M Flow) s : wp m s Kept -> wp (flow ← m; mret (Some flow)) s KeptOpt.
Proof. intros Hm. wp_step. eapply wp_mono; [exact Hm|]. intros f s' Hk. by wp_step. Qed.

Lemma any_link_end e s : Good s -> wp (on_link_end e) s Kept.
Proof.
  intros Hg. destruct (s_link s) as [l|] eqn:El; [by eapply good_link_end|].
  unfold on_link_end. do 2 wp_step. cbn beta. rewrite El. wp_step. by intros _.
Qed.

Lemma on_hold_timer_kept s : Good s -> wp on_hold_timer s KeptOpt.
Proof.
  intros Hg. unfold on_hold_timer. do 2 wp_step. cbn beta. destruct (s_hold s) as [h|] eqn:Eh; [|by wp_step].
  destruct (passed _); [|by wp_step]. apply some_kept, on_hold_due_kept; [|done].
  destruct stitched eqn:E; [done|]. destruct Hg as [[_ Hh] _]. by rewrite Hh in Eh.
Qed.

Lemma on_silence_timer_kept s : Good s -> wp on_silence_timer s KeptOpt.
Proof.
  intros Hg. unfold on_silence_timer. do 2 wp_step. pose proof (good_same _ _ H1 Hg).
  destruct a as [e|]; [by apply some_kept, any_link_end|by wp_step].
Qed.

Lemma on_silent_kept s : Good s -> wp on_silent s Kept.
Proof.
  intros Hg. unfold on_silent. do 2 wp_step. cbn beta. destruct (s_link s) as [l|]; [|by wp_step; intros _].
  wp_step. apply (@wp_quiet H); [quiet|]. intros [] s1 Hs1. by apply any_link_end, (good_same s).
Qed.

Lemma on_liveness_kept s : Good s -> wp on_liveness s KeptOpt.
Proof.
  intros Hg. unfold on_liveness. do 2 wp_step. cbn beta. destruct (s_link s) as [l|]; [|by wp_step].
  destruct (passed _); [|by wp_step]. destruct (_ && _); [|by apply some_kept, on_silent_kept].
  do 4 wp_step. wp_step. apply (good_same s); [|done]. etrans; [|exact H1]. sames.
Qed.

Lemma on_phase_due_kept s : Good s -> wp on_phase_due s KeptOpt.
Proof.
  intros Hg. unfold on_phase_due. do 2 wp_step. cbn beta. pose proof (i_parks _ _ (proj2 Hg)) as Hk. cbn in Hk.
  destruct (s_phase s) as [| | |until p|t p|b t p] eqn:Ep; try by wp_step.
  - destruct (_ <=? _); [by eapply some_kept, on_backoff_expired_kept|by wp_step].
  - destruct (_ <=? _); [|by wp_step]. apply some_kept, plan_and_apply_kept; [by apply Hk|].
    apply good_plan_ready; rewrite ?Ep; auto.
  - destruct (_ <=? _); [|by wp_step]. apply some_kept, good_replan_kept; [by apply Hk|done|by rewrite Ep].
Qed.

(** A link whose time is up owes nothing. *)
Lemma linger_over s s' l :
  Good s -> s_link s = Some l -> is_some (l_linger_until (lk_st l)) = true ->
  core s' = with_link None (core s) -> (Side s -> Side s') -> Good s'.
Proof.
  intros [Hv Hi] Hl Hg Hc Hv'. split; [by apply Hv'|]. rewrite Hc.
  pose proof (good_link _ _ Hl) as Hk. destruct (inv_linked _ _ _ Hi Hk) as (_ & Hp & Hd).
  apply inv_no_link; cbn; try done; [by apply base_with_link, Hi|apply Hi| |].
  - intros Ha. destruct (i_linger _ _ Hi _ Hk Hg) as [_ Hna]. destruct (still (s_phase s)) eqn:E; [|done].
    specialize (Hna E). change (asked (core s) = true) in Ha. congruence.
  - intros t p r E1 E2 E3. by destruct (i_hold _ _ Hi t p r E1 E2 E3).
Qed.

Lemma drop_unused_kept s : Good s -> wp drop_unused s Kept.
Proof.
  intros Hg. unfold drop_unused. do 3 wp_step. cbn beta.
  apply (wp_mono _ _ (fun _ => Good)).
  - destruct (passed _) eqn:Ep; [|by wp_step]. apply wp_retire. intros s1 Hc Hv.
    destruct (s_link s) as [l|] eqn:El; [|done]. cbn in Ep.
    eapply (linger_over s s1 l); try done. by destruct (l_linger_until _).
  - intros _ s1 Hg1. wp_run; intros _; [by eapply good_same|done].
Qed.

Lemma on_timer_kept s : Good s -> wp on_timer s Kept.
Proof.
  intros Hg. unfold on_timer. do 2 wp_step. cbn beta. destruct (passed _); [done|].
  destruct (passed _); [by wp_run|].
  apply or_return_kept; [by apply on_hold_timer_kept|]. intros s1 Hg1.
  apply or_return_kept; [by apply on_silence_timer_kept|]. intros s2 Hg2.
  apply or_return_kept; [by apply on_liveness_kept|]. intros s3 Hg3.
  apply or_return_kept; [by apply on_phase_due_kept|]. apply drop_unused_kept.
Qed.

(** *** Views *)

Lemma on_view_dialing_kept p cur s q st0 :
  stitched = true -> Good s -> s_phase s = PhDialing q st0 -> wp (on_view_dialing p cur) s Kept.
Proof.
  intros Hs Hg Ep. unfold on_view_dialing. wp_step. apply wp_dialed_leg. intros leg s1 Hs1 Hleg.
  assert (forall s', same s s' -> PlanReady s') as Hr.
  { intros s' Hss. eapply plan_ready_same; [done|]. apply good_plan_ready; rewrite ?Ep; done. }
  pose proof (good_same _ _ Hs1 Hg) as Hg1. destruct leg as [st|].
  - wp_step. apply wp_online_instead_of; [by apply Hr|]. intros other s2 Hs2 Hok.
    pose proof (good_same _ _ Hs2 Hg1) as Hg2. destruct other as [step|].
    + do 2 wp_step. apply good_apply_step_kept; try done. rewrite (proj1 Hs2). by apply Hok.
    + unfold set_phase. wp_run; intros _; [|done]. apply (redialed_good _ _ q st0); [done| |].
      * rewrite <-Ep. assert (same s s2) as Hss by by etrans. by destruct Hss as [[=] _].
      * rewrite (proj1 Hs2). by apply Hleg.
  - do 3 wp_step. apply wp_plan; [by apply Hr|]. intros step s2 Hs2 Hok.
    pose proof (good_same _ _ Hs2 Hg1) as Hg2. destruct (_ && _); [by wp_step; intros _|].
    apply good_apply_step_kept; try done. by rewrite (proj1 Hs2).
Qed.

Lemma on_view_stitched_kept s : stitched = true -> Good s -> wp on_view_stitched s Kept.
Proof.
  intros Hs Hg0. unfold on_view_stitched. do 4 wp_step. cbn beta. pose proof (good_same _ _ H1 Hg0) as Hg.
  clear H1 Hg0 s. rename s' into s. destruct (s_phase s) as [| |p [cur|]| |t p|b t p] eqn:Ep; try (by wp_step; intros _).
  - destruct (in_progress _); [by eapply on_view_dialing_kept|by wp_step; intros _].
  - wp_step. apply wp_plan; [apply good_plan_ready; rewrite ?Ep; done|]. intros step s1 Hs1 Hok.
    pose proof (good_same _ _ Hs1 Hg) as Hg1. destruct (is_hold step); [by wp_step; intros _|].
    apply good_apply_step_kept; try done. by rewrite (proj1 Hs1).
  - apply good_replan_kept; [done|done|by rewrite Ep].
Qed.

Lemma on_view_change_kept s : Good s -> wp on_view_change s Kept.
Proof.
  intros Hg. unfold on_view_change. do 2 wp_step. set (s1 := on_link _ _).
  assert (same s s1) as Hs1 by (subst s1; sames). do 2 wp_step.
  apply or_stop_kept; [apply quiet_kept; [apply _|]; apply (good_same s); [by etrans|done]|].
  intros s2 Hg2. destruct stitched eqn:Es; [by apply on_view_stitched_kept|by wp_step; intros _].
Qed.

(** *** The operator *)

Lemma on_operator_move_kept s : Good s -> wp on_operator_move s Kept.
Proof.
  intros Hg. unfold on_operator_move. do 2 wp_step. cbn beta. destruct (s_link s) as [l|]; [|by wp_step; intros _].
  cbv zeta. do 4 wp_step. assert (Good s'0) as Hg1 by (apply (good_same s); [by etrans|done]).
  destruct (negb _); [by wp_step; intros _|]. wp_step. eapply wp_mono; [by apply any_link_end|].
  intros f s1 Hk. wp_run; intros E; by apply Hk.
Qed.

Lemma on_control_kept close move s : Good s -> wp (on_control close move) s Kept.
Proof.
  intros Hg. unfold on_control. destruct close; [by wp_run|].
  destruct move; [by apply on_operator_move_kept|by wp_step; intros _].
Qed.
End timers.

(** ** The states a session reaches *)

(** What is assumed of an event: messages are bytes, views are sound, upstreams
    conform. *)
Definition event_ok `{SessionCfg} (s : Session) (e : Event) : Prop :=
  match e with
  | EvClient e => client_ok e
  | EvUpstream e => conforms s e
  | EvView v => SoundView v
  | _ => True
  end.

Section loop.
Context `{SessionCfg, SessionEnv} {Hsound : SoundEnv}.

Lemma good_view v s : SoundView v -> Good s -> Good (set_s_view v s).
Proof. intros Hv [[_ Hh] Hi]. by split. Qed.

Lemma handle_event_kept e s : Good s -> event_ok s e -> wp (handle_event e) s Kept.
Proof.
  intros Hg He. destruct e as [|e|close move|o|o|e| |v| |]; cbn [handle_event].
  - unfold on_shutdown. by wp_run.
  - by apply on_client_kept.
  - by apply on_control_kept.
  - by apply on_dial_kept.
  - by apply quiet_kept; [apply _|].
  - by apply on_upstream_kept.
  - wp_run. intros _. by eapply good_same.
  - do 2 wp_step. by apply on_view_change_kept, good_view.
  - wp_step. by intros _.
  - by apply on_timer_kept.
Qed.

Lemma loop_top_kept s : Good s -> wp loop_top s Kept.
Proof.
  intros Hg. unfold loop_top. do 4 wp_step. cbn beta. pose proof (good_same _ _ H1 Hg) as Hg1. apply or_stop_kept.
  - destruct (_ || _); [|by wp_step; intros _]. do 2 wp_step. by apply on_view_change_kept, (good_same s').
  - intros s1 Hg2. wp_run. intros _. by eapply good_same.
Qed.

Lemma quiet_connect_loop outcome fuel : Quiet (connect_loop outcome fuel).
Proof. induction fuel as [|fuel IH]; [apply _|]. cbn [connect_loop]. quiet. Qed.

Lemma quiet_send_abi fp abi : Quiet (send_abi fp abi).
Proof. apply quiet_wp. intros s. unfold send_abi. wp_run; sames. Qed.

(** A session before its loop. *)
Record Unasked (s : Session) : Prop := {
  un_side : Side s;
  un_req : k_req (core s) = None;
  un_count : 0 <= k_count (core s);
  un_dial : k_dialing (core s) = false;
  un_link : forall lk, k_link (core s) = Some lk -> lk_linger lk = None;
}.

Lemma unasked_same s s' : same s s' -> Unasked s -> Unasked s'.
Proof. intros [Hc Hv] []. split; rewrite ?Hc; auto. Qed.

Lemma unasked_idle s : Unasked s -> Good (set_s_phase PhIdle s).
Proof.
  intros [Hs Hr Hn Hd Hl]. apply idle_good; try done.
  - apply (base_with_phase PhIdle (core s)). split; [|done|]; intros r; by rewrite Hr.
  - change (asked (core s) = false). unfold asked. by rewrite Hr.
  - intros lk Hk. change (k_link (core s) = Some lk) in Hk. by rewrite (Hl lk Hk).
Qed.

Lemma connect_first_kept outcome s : Unasked s -> wp (connect_first outcome) s Kept.
Proof.
  intros Hu. unfold connect_first, set_phase. do 5 wp_step.
  apply (@wp_quiet _ _ _ (quiet_connect_loop _ _)). intros est s1 Hs1.
  assert (Unasked s1) as Hu1.
  { eapply unasked_same; [exact Hs1|]. destruct Hu. by split. }
  destruct est as [[target est]|]; [|done]. wp_step.
  apply (@wp_quiet _ _ _ (quiet_send_abi _ _)). intros ok s2 Hs2. pose proof (unasked_same _ _ Hs2 Hu1) as Hu2.
  destruct ok; cbn [negb]; [|done]. wp_step. unfold adopt_link. do 3 wp_step. destruct a, H1 as [Hc Hv].
  wp_run. intros _. apply unasked_idle. split; rewrite ?Hc; try apply Hu2; [apply Hv, Hu2|].
  by intros lk [= <-].
Qed.

Lemma send_canonical_abi_kept waits s : Unasked s -> wp (send_canonical_abi waits) s Kept.
Proof.
  revert s. induction waits as [|w waits IH]; intros s Hu; cbn [send_canonical_abi].
  all: wp_step; apply (wp_mono _ _ (fun new s' => same s s' /\ forall v, new = Some v -> SoundView v));
    [unfold reading; split; [done|intros v; apply env_view_sound]|]; intros new s1 [Hs1 Hn];
    pose proof (unasked_same _ _ Hs1 Hu) as Hu1; wp_step;
    apply (wp_mono _ _ (fun _ => Unasked));
    [destruct new as [v|]; wp_step; [|done]; destruct Hu1 as [[_ Hh] ? ? ? ?]; split; try done; split; [by apply Hn|done]|];
    intros _ s2 Hu2; do 2 wp_step; cbn beta; destruct (if 0 <? _ then _ else _) as [abi|];
    [wp_step; apply (@wp_quiet _ _ _ (quiet_send_abi _ _)); intros ok s3 Hs3; destruct ok; cbn [negb]; [|done];
     unfold set_phase; wp_run; intros _; by apply unasked_idle, (unasked_same s2)|].
  - done.
  - destruct w; [done|by apply IH|done].
Qed.

Lemma start_kept outcome waits v now :
  SoundView v -> wp (start outcome waits) (new_session v now) Kept.
Proof.
  intros Hv. assert (Unasked (new_session v now)) as Hu by by split.
  unfold start. apply or_stop_kept.
  - destruct stitched; [by apply send_canonical_abi_kept|by apply connect_first_kept].
  - intros s Hg. wp_run. intros _. by apply (good_same s).
Qed.
End loop.
