(* ===== verification/SessionProps.v ===== *)
(** * The session actor: what its clients can rely on

    The properties of every state a session of SessionLoop.v reaches, from the
    invariant of SessionInv.v, SessionKept.v and SessionTurn.v: a session that
    owes its client blocks has something that wakes it for them; its phase, dial
    and link agree; a stitched session reads a frozen upstream at or before the
    client's next block; the loops that drain its queues end. *)

From S2P Require Import Prelude Wire Models Coverage View Planner Failover Link Client Status Stream.
From S2P Require Import SessionState SessionPlan SessionActor SessionLoop SessionInv SessionKept SessionTurn.

(** ** The states reached *)

(** The states between two passes of the loop. *)
Inductive reach `{SessionCfg} : Session -> Prop :=
| reach_start (env : SessionEnv) outcome waits v now s :
    SoundEnv -> SoundView v -> start outcome waits (new_session v now) = (Continue, s) -> reach s
| reach_turn (top arm : SessionEnv) s s1 e s2 :
    reach s -> SoundEnv (H := top) -> loop_top (H0 := top) s = (Continue, s1) ->
    SoundEnv (H := arm) -> enabled (H0 := arm) s1 e = true -> event_ok s1 e ->
    handle_event (H0 := arm) e s1 = (Continue, s2) -> reach s2.

Lemma wp_run_to `{SessionCfg} (m : M Flow) s s' : wp m s Kept -> m s = (Continue, s') -> Good s'.
Proof. unfold wp. intros Hk E. rewrite E in Hk. by apply Hk. Qed.

Lemma reach_good `{SessionCfg} s : reach s -> Good s.
Proof.
  induction 1 as [env outcome waits v now s He Hv Hs|top arm s s1 e s2 _ IH Ht Hl Ha _ Hok Hh].
  - eapply wp_run_to; [|exact Hs]. by apply (@start_kept _ env He).
  - eapply wp_run_to; [|exact Hh]. apply (@handle_event_kept _ arm Ha); [|done].
    eapply wp_run_to; [|exact Hl]. by apply (@loop_top_kept _ top Ht).
Qed.

(** ** A request in progress is never forgotten *)

Lemma earliest_le ds d : d ∈ ds -> exists at_, earliest ds = Some at_ /\ at_ <= d.
Proof.
  destruct ds as [|x ds]; [by intros ?%elem_of_nil|]. intros Hin. cbn [earliest]. eexists. split; [done|].
  revert d Hin. induction ds as [|y ds IH]; intros d Hin; cbn [foldr].
  - apply list_elem_of_singleton in Hin as ->. lia.
  - rewrite !elem_of_cons in Hin. destruct Hin as [->|[->|Hin]].
    + specialize (IH x ltac:(by left)). lia.
    + lia.
    + specialize (IH d ltac:(by right)). lia.
Qed.

Lemma phase_deadline_due `{SessionCfg, SessionEnv} s d :
  phase_deadline (s_phase s) = Some d -> exists at_, next_deadline s = Some at_ /\ at_ <= d.
Proof.
  intros Hd. apply earliest_le. apply list_elem_of_omap. exists (Some d). split; [|done].
  rewrite Hd. by do 2 right; left.
Qed.

Lemma top_good `{SessionCfg} (top : SessionEnv) s s1 :
  reach s -> SoundEnv -> loop_top s = (Continue, s1) -> Good s1.
Proof. intros Hr He Hl. eapply wp_run_to; [|exact Hl]. by apply loop_top_kept, reach_good. Qed.

(** A session that neither dials nor waits for a time has a link to serve it. *)
Lemma serving_link `{SessionCfg} s :
  Good s -> in_progress (s_c s) = true -> still (s_phase s) = true ->
  exists l r, s_link s = Some l /\ l_req (lk_st l) = Some r
    /\ (stitched = true -> l_role (lk_st l) = Frozen ->
        exists u, l_up_cursor (lk_st l) = Exact u /\ u <= c_cursor (s_c s) < lr_end r).
Proof.
  intros [_ Hi] Ha Hs. destruct (i_asked _ _ Hi Ha Hs) as (lk & r & Hk & Hq).
  destruct (core_link s lk Hk) as [l Hl]. pose proof (good_link s l Hl) as Hk'. rewrite Hk in Hk'.
  injection Hk' as ->. exists l, r. split_and!; [done|done|]. intros Hst Hf.
  destruct (i_frozen _ _ Hi Hst Ha Hs _ Hk Hf) as (r' & u & Hr' & Hu & Hlt & _).
  rewrite Hq in Hr'. injection Hr' as <-. exists u. done.
Qed.

(** C1: A session never forgets a request. Whenever it waits for its next event
    with blocks its client asked for still to come, whatever the client, the
    hub, the operator, the dials and conforming upstreams did before: a dial is
    under way, whose outcome it waits for; or it waits for a time and its timer
    fires no later than that; or it has a link with a request, and, when that
    link is a stitched session's frozen one, with blocks of it still to come. *)
Theorem request_never_forgotten (cfg : SessionCfg) (top : SessionEnv) (s s1 : Session) :
  reach s -> SoundEnv -> loop_top s = (Continue, s1) -> in_progress (s_c s1) = true ->
  (forall outcome, enabled s1 (EvDial outcome) = true)
  \/ (exists d at_, phase_deadline (s_phase s1) = Some d /\ next_deadline s1 = Some at_ /\ at_ <= d)
  \/ (exists l r, s_link s1 = Some l /\ l_req (lk_st l) = Some r
        /\ (stitched = true -> l_role (lk_st l) = Frozen -> leg_done (lk_st l) = false)).
Proof.
  intros Hr He Hl Ha. pose proof (top_good top s s1 Hr He Hl) as Hg.
  destruct (still (s_phase s1)) eqn:Es.
  - right. right. destruct (serving_link s1 Hg Ha Es) as (l & r & H1 & H2 & H3). exists l, r.
    split_and!; [done|done|]. intros Hst Hf. destruct (H3 Hst Hf) as (u & Hu & Hlt).
    unfold leg_done. rewrite H2, Hu. apply Z.leb_gt. lia.
  - destruct (s_phase s1) as [| |p st|until p|t p|b t p] eqn:Ep; try done.
    { left. intros o. change (k_dialing (core s1) = true). rewrite (i_dial _ _ (proj2 Hg)). cbn. by rewrite Ep. }
    all: right; left; eexists; edestruct phase_deadline_due as (at_ & ? & ?); [by rewrite Ep|eauto].
Qed.

(** ** The state is consistent *)

(** C2: In every state a session reaches, a dial is under way exactly when its
    phase says so; with a link there is no dial, and the session is not in a
    failover backoff; a pool session never holds or waits for the fleet; and the
    dial of a stitched session is for a leg that ends after the client's next
    block, of a request still in progress. *)
Theorem session_consistent (cfg : SessionCfg) (s : Session) :
  reach s ->
  (is_some (s_dial s) = true <-> exists p st, s_phase s = PhDialing p st)
  /\ (forall l, s_link s = Some l -> s_dial s = None /\ forall until p, s_phase s <> PhBackoff until p)
  /\ (stitched = false -> s_hold s = None /\ phase_deadline (s_phase s) =
        match s_phase s with PhBackoff until _ => Some until | _ => None end)
  /\ (stitched = true -> forall p st, s_phase s = PhDialing p st ->
        in_progress (s_c s) = true /\ exists cur, st = Some cur /\ c_cursor (s_c s) < ss_req_end cur).
Proof.
  intros Hr. destruct (reach_good s Hr) as [[_ Hh] Hi].
  pose proof (i_dial _ _ Hi) as Hd. pose proof (i_parks _ _ Hi) as Hp. cbn in Hd, Hp. split_and!.
  - rewrite Hd. destruct (s_phase s); cbn; split; try done; try (by intros (? & ? & ?)). eauto.
  - intros l Hl. destruct (inv_linked _ _ _ Hi (good_link s l Hl)) as (Hk & _ & Hn). cbn in Hk, Hn.
    split; [by destruct (s_dial s)|]. intros at_ p E. by rewrite E in Hk.
  - intros Hs. split; [by apply Hh|]. rewrite Hs in Hp. destruct (s_phase s); try done; by specialize (Hp eq_refl).
  - intros Hs p st E. apply (i_step _ _ Hi Hs p st E).
Qed.

(** C3: A stitched session reads a frozen upstream in step with its client: in
    every state it reaches where it streams blocks from a frozen upstream, the
    upstream is at or before the client's next block and its leg ends after it,
    so no block the client waits for is skipped. *)
Theorem frozen_leg_in_step (cfg : SessionCfg) (s : Session) (l : Link) :
  reach s -> stitched = true -> in_progress (s_c s) = true -> still (s_phase s) = true ->
  s_link s = Some l -> l_role (lk_st l) = Frozen ->
  exists r u, l_req (lk_st l) = Some r /\ l_up_cursor (lk_st l) = Exact u
    /\ u <= c_cursor (s_c s) < lr_end r.
Proof.
  intros Hr Hst Ha Hs Hl Hf. destruct (serving_link s (reach_good s Hr) Ha Hs) as (l' & r & Hl' & Hq & Hu).
  rewrite Hl in Hl'. injection Hl' as <-. destruct (Hu Hst Hf) as (u & ? & ?). eauto.
Qed.

(** ** Witnesses *)

(** A pool of two live upstreams, and a stitched fleet of a frozen upstream with
    blocks 2 to 60 and a live one. *)
Definition quiet_env : SessionEnv := {|
  env_now := 0;
  env_view _ := None;
  env_tip _ v := (v_head v, v_lib v);
  env_conns _ _ := 0;
  env_client_ok _ := true;
  env_up_ok _ := true;
  env_read_ms := 0;
  env_epoch := 0;
  env_jitter d _ := d;
  env_wrap := 0;
|}.
#[export] Existing Instance quiet_env.

Lemma quiet_env_sound : SoundEnv.
Proof. done. Qed.

Definition sample_limits : ProxyLimits := mkLimits 10000 60000 10000 16777216 1048576 30000 10000.
Definition pool_cfg : SessionCfg := Build_SessionCfg RPool default_stitching sample_limits 0 7.
Definition stitched_cfg : SessionCfg := Build_SessionCfg RStitched default_stitching sample_limits 0 7.

Definition sample_est : Established := mkEstablished "abi" 5 0.
Definition sample_blocks : BlocksRequest :=
  mkBlocksRequest true 10 50 5 [] false true true false false.

Definition frozen_online : ServerState := set_online true (frozen_state 0 2 61).
Definition stitched_states : gmap string ServerState :=
  <["a"%string := frozen_online]> (<["b"%string := live_state 1 100 90 true]> ∅).
Definition stitched_view : FleetView :=
  (build_view (mkCtx RStitched None (Some (mkAbi "abi" 5 true)) AbiWarn []) stitched_states [] 0 (new_memory 0)).1.

Lemma run_eq {A} (m : M A) s a : (m s).1 = a -> m s = (a, (m s).2).
Proof. intros <-. by destruct (m s). Qed.

(** The client asks for blocks 10 to 50. *)
Definition pool_started : Session :=
  (start (H := pool_cfg) (fun _ => Ok sample_est) [] (new_session sample_view 0)).2.
Definition pool_waiting : Session := (loop_top (H := pool_cfg) pool_started).2.
Definition pool_streaming : Session :=
  (handle_event (H := pool_cfg) (EvClient (CePayload (encode_blocks_request sample_blocks))) pool_waiting).2.

Example pool_streams : s_phase pool_streaming = PhStreaming.
Proof. vm_compute. reflexivity. Qed.

Definition stitched_started : Session :=
  (start (H := stitched_cfg) (fun _ => Ok sample_est) [] (new_session stitched_view 0)).2.
Definition stitched_waiting : Session := (loop_top (H := stitched_cfg) stitched_started).2.
Definition stitched_dialing : Session :=
  (handle_event (H := stitched_cfg) (EvClient (CePayload (encode_blocks_request sample_blocks))) stitched_waiting).2.
Definition stitched_up : Session :=
  (handle_event (H := stitched_cfg) (EvDial (Ok sample_est)) (loop_top (H := stitched_cfg) stitched_dialing).2).2.

Example stitched_dials :
  match s_phase stitched_dialing with PhDialing PInitial (Some st) => ss_up st = 0 /\ ss_req_end st = 50 | _ => False end
  /\ s_phase stitched_up = PhStreaming
  /\ (l_role ∘ lk_st <$> s_link stitched_up) = Some Frozen.
Proof. vm_compute. auto. Qed.

(** The payload is a message of bytes. *)
Lemma sample_blocks_ok : client_ok (CePayload (encode_blocks_request sample_blocks)).
Proof. intros p [= <-]. split; [u8s|vm_compute; discriminate]. Qed.

Lemma pool_streaming_reach : reach (H := pool_cfg) pool_streaming.
Proof.
  apply (reach_turn (H := pool_cfg) quiet_env quiet_env pool_started pool_waiting
    (EvClient (CePayload (encode_blocks_request sample_blocks)))); try apply quiet_env_sound.
  - apply (reach_start (H := pool_cfg) quiet_env (fun _ => Ok sample_est) [] sample_view 0);
      [apply quiet_env_sound|unfold sample_view; apply _|].
    unfold pool_started. apply run_eq. vm_compute. reflexivity.
  - unfold pool_waiting. apply run_eq. vm_compute. reflexivity.
  - reflexivity.
  - apply sample_blocks_ok.
  - unfold pool_streaming. apply run_eq. vm_compute. reflexivity.
Qed.

Lemma stitched_dialing_reach : reach (H := stitched_cfg) stitched_dialing.
Proof.
  apply (reach_turn (H := stitched_cfg) quiet_env quiet_env stitched_started stitched_waiting
    (EvClient (CePayload (encode_blocks_request sample_blocks)))); try apply quiet_env_sound.
  - apply (reach_start (H := stitched_cfg) quiet_env (fun _ => Ok sample_est) [] stitched_view 0);
      [apply quiet_env_sound|unfold stitched_view; apply _|].
    unfold stitched_started. apply run_eq. vm_compute. reflexivity.
  - unfold stitched_waiting. apply run_eq. vm_compute. reflexivity.
  - reflexivity.
  - apply sample_blocks_ok.
  - unfold stitched_dialing. apply run_eq. vm_compute. reflexivity.
Qed.

Lemma stitched_up_reach : reach (H := stitched_cfg) stitched_up.
Proof.
  apply (reach_turn (H := stitched_cfg) quiet_env quiet_env stitched_dialing
    (loop_top (H := stitched_cfg) stitched_dialing).2 (EvDial (Ok sample_est)));
    try apply quiet_env_sound.
  - apply stitched_dialing_reach.
  - apply run_eq. vm_compute. reflexivity.
  - vm_compute. reflexivity.
  - exact I.
  - unfold stitched_up. apply run_eq. vm_compute. reflexivity.
Qed.

Lemma request_never_forgotten_witness :
  exists l r, s_link (loop_top (H := pool_cfg) pool_streaming).2 = Some l /\ l_req (lk_st l) = Some r.
Proof.
  destruct (request_never_forgotten pool_cfg quiet_env pool_streaming (loop_top (H := pool_cfg) pool_streaming).2
    pool_streaming_reach quiet_env_sound) as [Hd|[(d & at_ & Hd & _)|(l & r & Hl & Hr & _)]].
  - apply run_eq. vm_compute. reflexivity.
  - vm_compute. reflexivity.
  - specialize (Hd (Ok sample_est)). vm_compute in Hd. discriminate.
  - vm_compute in Hd. discriminate.
  - exists l, r. split; [exact Hl|exact Hr].
Defined.

Lemma session_consistent_witness :
  exists cur, s_phase stitched_dialing = PhDialing PInitial (Some cur)
    /\ c_cursor (s_c stitched_dialing) < ss_req_end cur.
Proof.
  destruct (session_consistent stitched_cfg stitched_dialing stitched_dialing_reach) as (_ & _ & _ & Hs).
  destruct (s_phase stitched_dialing) as [| |p st| | |] eqn:E; try (vm_compute in E; discriminate).
  destruct (Hs ltac:(reflexivity) p st eq_refl) as (_ & cur & -> & Hlt).
  exists cur. split; [|exact Hlt]. f_equal. vm_compute in E. congruence.
Defined.

Lemma frozen_leg_in_step_witness :
  exists r u, l_up_cursor <$> (lk_st <$> s_link stitched_up) = Some (Exact u)
    /\ u <= c_cursor (s_c stitched_up) < lr_end r.
Proof.
  destruct (s_link stitched_up) as [l|] eqn:El; [|vm_compute in El; discriminate].
  destruct (frozen_leg_in_step stitched_cfg stitched_up l stitched_up_reach) as (r & u & _ & Hu & Hlt).
  - reflexivity.
  - vm_compute. reflexivity.
  - vm_compute. reflexivity.
  - exact El.
  - vm_compute in El. injection El as <-. reflexivity.
  - exists r, u. split; [|exact Hlt]. cbn. by rewrite Hu.
Defined.
