(* ===== verification/MockProtocol.v ===== *)
(** * The protocol of the mock node

    Models [src/mock-ship/src/protocol.rs], the other side of the wire: a node
    written apart from the router, with encoders for what a node sends, and two
    decoders for what it is sent: a strict one, written after the node software's
    [fc::raw::unpack], and the lenient one of the first mock.  A pair of a block number
    and an id is a [BlockPos].

    "The node" is this mock here.  It is not the node software in one respect: a
    varuint32 with bits above 32, which [fc] reads by dropping them (ship/wire.rs says
    so), the mock's strict decoder refuses, as the router does
    ([overlong_refused]).

    The theorems: the mock's strict decoder and the router's agree on every message,
    errors included; the lenient decoder agrees with them on every message they accept; what
    a node encodes the router reads back, field by field; and the two encoders of a
    status give the same bytes. *)

From S2P Require Import Prelude Wire.

Module Mock.

(** ** Encoding *)

(** The [loop] of [encode_varuint64]; a [u64] is done within ten turns. *)
Fixpoint encode_varuint_loop (fuel : nat) (buf : list Z) (val : Z) : list Z :=
  match fuel with
  | O => buf
  | S fuel =>
      let b := Z.land val 0x7f in
      let val := Z.shiftr val 7 in
      let b := if 0 <? val then Z.lor b 0x80 else b in
      let buf := buf ++ [b] in
      if val =? 0 then buf else encode_varuint_loop fuel buf val
  end.

Definition encode_varuint64 (val : Z) : list Z := encode_varuint_loop 10 [] val.

Definition encode_varuint32 (val : Z) : list Z := encode_varuint64 val.

(** [u32::checked_shl(shift).unwrap_or(0)] *)
Definition shl_or_zero (w x shift : Z) : Z := if shift <? w then Z.shiftl x shift mod 2 ^ w else 0.

Fixpoint decode_varuint32_loop (data : list Z) (val shift i : Z) : Z * Z :=
  match data with
  | [] => (val, i)
  | byte :: data =>
      let val := Z.lor val (shl_or_zero 32 (Z.land byte 0x7f) shift) in
      if Z.land byte 0x80 =? 0 then (val, i + 1)
      else decode_varuint32_loop data val (shift + 7) (i + 1)
  end.

(** The value and the bytes consumed; a message that ends early ends the number. *)
Definition decode_varuint32 (data : list Z) : Z * Z := decode_varuint32_loop data 0 0 0.

Definition wrapping_mul (a b : Z) : Z := (a * b) mod 2 ^ 32.
Definition wrapping_add (a b : Z) : Z := (a + b) mod 2 ^ 32.

Definition fake_block_id (block_num : Z) : list Z :=
  le_bytes 4 block_num
  ++ map (fun i => Z.land (wrapping_add (wrapping_mul block_num 31) i) 0xff) (seqZ 4 28).

Definition fake_block_id_seeded (block_num seed : Z) : list Z :=
  let id := fake_block_id block_num in
  take 4 id ++ map (fun byte => Z.lxor byte seed) (drop 4 id).

Definition encode_block_position (p : BlockPos) : list Z := le_bytes 4 (num p) ++ block_id p.

Record NodeStatus := mkNodeStatus {
  sf_head : BlockPos;
  sf_lib : BlockPos;
  sf_trace : Range;
  sf_chain_state : Range;
  sf_chain_id : list Z;
  sf_finality : Range;
}.

Definition encode_node_status (v1 : bool) (s : NodeStatus) : list Z :=
  let buf := encode_varuint32 (if v1 then 3 else 0) in
  let buf := buf ++ encode_block_position (sf_head s) in
  let buf := buf ++ encode_block_position (sf_lib s) in
  let buf := foldl (fun buf value => buf ++ le_bytes 4 value) buf
    [rbegin (sf_trace s); rend (sf_trace s); rbegin (sf_chain_state s); rend (sf_chain_state s)] in
  let buf := buf ++ sf_chain_id s in
  if v1 then (buf ++ le_bytes 4 (rbegin (sf_finality s))) ++ le_bytes 4 (rend (sf_finality s))
  else buf.

Definition fake_pos (n : Z) : BlockPos := mkPos n (fake_block_id n).

Definition encode_status_result_v0 (head_block lib_block : Z) (chain_id : list Z)
    (trace_begin trace_end : Z) : list Z :=
  encode_node_status false (mkNodeStatus (fake_pos head_block) (fake_pos lib_block)
    (mkRange trace_begin trace_end) (mkRange trace_begin trace_end) chain_id (mkRange 0 0)).

Definition encode_status_result_v1 (head_block lib_block : Z) (chain_id : list Z)
    (trace_begin trace_end finality_begin finality_end : Z) : list Z :=
  encode_node_status true (mkNodeStatus (fake_pos head_block) (fake_pos lib_block)
    (mkRange trace_begin trace_end) (mkRange trace_begin trace_end) chain_id
    (mkRange finality_begin finality_end)).

Record BlockFields := mkBlockFields {
  bf_v1 : bool;
  bf_head : BlockPos;
  bf_lib : BlockPos;
  bf_this_block : option BlockPos;
  bf_prev_block : option BlockPos;
  bf_block : option (list Z);
  bf_traces : option (list Z);
  bf_deltas : option (list Z);
  bf_finality : option (list Z);
}.

Definition encode_optional_bytes (buf : list Z) (data : option (list Z)) : list Z :=
  match data with
  | Some d => ((buf ++ [1]) ++ encode_varuint32 (as_u32 (zlen d))) ++ d
  | None => buf ++ [0]
  end.

Definition encode_optional_log_entry (buf : list Z) (data : option (list Z)) : list Z :=
  match data with
  | Some d => ((buf ++ [1]) ++ encode_varuint64 (zlen d)) ++ d
  | None => buf ++ [0]
  end.

Definition encode_blocks_result (r : BlockFields) : list Z :=
  let buf := encode_varuint32 (if bf_v1 r then 2 else 1) in
  let buf := buf ++ encode_block_position (bf_head r) in
  let buf := buf ++ encode_block_position (bf_lib r) in
  let buf := foldl (fun buf position =>
      match position with
      | Some p => (buf ++ [1]) ++ encode_block_position p
      | None => buf ++ [0]
      end) buf [bf_this_block r; bf_prev_block r] in
  let buf := encode_optional_bytes buf (bf_block r) in
  let buf := encode_optional_log_entry buf (bf_traces r) in
  let buf := encode_optional_log_entry buf (bf_deltas r) in
  if bf_v1 r then encode_optional_log_entry buf (bf_finality r) else buf.

Definition encode_blocks_result_v0_with_data (head_block lib_block this_block_num : Z)
    (block_data traces deltas : option (list Z)) : list Z :=
  let prev_num := sat_sub this_block_num 1 in
  encode_blocks_result (mkBlockFields false (fake_pos head_block) (fake_pos lib_block)
    (Some (fake_pos this_block_num)) (Some (fake_pos prev_num)) block_data traces deltas None).

Definition generate_fake_data (block_num size : Z) : list Z :=
  let seed := Z.land (wrapping_mul block_num 7) 0xff in
  let data := repeat seed (Z.to_nat size) in
  if 4 <=? size then le_bytes 4 block_num ++ drop 4 data else data.

(** ** Decoding requests *)

Inductive ShipRequest :=
| GetStatusV0
| GetStatusV1
| GetBlocksV0 (start_block_num end_block_num max_messages_in_flight : Z)
    (have_positions : list BlockPos) (irreversible_only fetch_block fetch_traces fetch_deltas : bool)
| GetBlocksV1 (start_block_num end_block_num max_messages_in_flight : Z)
    (have_positions : list BlockPos) (irreversible_only fetch_block fetch_traces fetch_deltas
     fetch_finality_data : bool)
| GetBlocksAckV0 (num_messages : Z)
| Unknown (variant : Z).

Inductive NodeError :=
| Empty
| BadVarint
| Truncated
| BadBool (b : Z)
| UnknownVariant (i : Z).

Definition read_position (raw : list Z) : BlockPos := mkPos (from_le (take 4 raw)) (take 32 (drop 4 raw)).

(** [as_chunks::<N>().0]: the complete chunks. *)
Fixpoint as_chunks (fuel : nat) (n : nat) (l : list Z) : list (list Z) :=
  match fuel with
  | O => []
  | S fuel => if (length l <? n)%nat then [] else take n l :: as_chunks fuel n (drop n l)
  end.

(** A slice read of bytes that were checked to be there. *)
Definition u32_at (payload : list Z) (i : nat) : Z := from_le (take 4 (drop i payload)).

Definition decode_blocks_lenient (payload : list Z) (v1 : bool) : option ShipRequest :=
  if zlen payload <? 12 then None
  else
    let start := u32_at payload 0 in
    let end_ := u32_at payload 4 in
    let max_msg := u32_at payload 8 in
    let '(count, pos_consumed) := decode_varuint32 (drop 12 payload) in
    let positions_at := 12 + pos_consumed in
    let rest := drop (Z.to_nat (Z.min positions_at (zlen payload))) payload in
    let complete := as_chunks (length rest) 36 rest in
    let have_positions := map read_position (take (Z.to_nat count) complete) in
    let bool_offset := sat_add usize_max positions_at (Z.min (count * 36) usize_max) in
    let flag i := negb (default 0 (payload !! Z.to_nat (sat_add usize_max bool_offset i)) =? 0) in
    Some (if v1
          then GetBlocksV1 start end_ max_msg have_positions (flag 0) (flag 1) (flag 2) (flag 3) (flag 4)
          else GetBlocksV0 start end_ max_msg have_positions (flag 0) (flag 1) (flag 2) (flag 3)).

Definition decode_request (data : list Z) : ShipRequest :=
  match data with
  | [] => Unknown u32_max
  | _ =>
      let '(variant_index, consumed) := decode_varuint32 data in
      let payload := drop (Z.to_nat consumed) data in
      if variant_index =? 0 then GetStatusV0
      else if (variant_index =? 1) || (variant_index =? 3) then
        default (Unknown variant_index) (decode_blocks_lenient payload (variant_index =? 3))
      else if variant_index =? 2 then
        if 4 <=? zlen payload then GetBlocksAckV0 (u32_at payload 0) else Unknown 2
      else if variant_index =? 4 then GetStatusV1
      else Unknown variant_index
  end.

(** ** The strict decoder *)

Module NodeReader.

Record t := mk { data : list Z; pos : Z }.

Definition M (A : Type) : Type := t -> result (A * t) NodeError.

#[global] Instance M_ret : MRet M := fun A a r => Ok (a, r).
#[global] Instance M_bind : MBind M := fun A B k m r =>
  match m r with Ok (a, r') => k a r' | Err e => Err e end.
Definition throw {A} (e : NodeError) : M A := fun _ => Err e.

Definition new (data : list Z) : t := mk data 0.

Definition remaining : M Z := fun r => Ok (zlen (data r) - pos r, r).

Definition take (n : Z) : M (list Z) := fun r =>
  if zlen (data r) - pos r <? n then Err Truncated
  else Ok (firstn (Z.to_nat n) (skipn (Z.to_nat (pos r)) (data r)), mk (data r) (pos r + n)).

Definition u8 : M Z := out ← take 1; mret (nth 0 out 0).

Definition u32 : M Z := out ← take 4; mret (from_le out).

Definition bool : M bool :=
  b ← u8;
  if b =? 0 then mret false
  else if b =? 1 then mret true
  else throw (BadBool b).

Definition position : M BlockPos := raw ← take 36; mret (read_position raw).

(** The turns of [varuint] from the [i]-th on, [n] of them left. *)
Fixpoint varuint_from (n : nat) (i value : Z) : M Z :=
  match n with
  | O => throw BadVarint
  | S n =>
      byte ← u8;
      let value := Z.lor value (shl_or_zero 64 (Z.land byte 0x7f) (7 * i)) in
      if Z.land byte 0x80 =? 0 then mret value else varuint_from n (i + 1) value
  end.

Definition varuint (max_bytes : nat) : M Z := varuint_from max_bytes 0 0.

Definition varuint32 : M Z :=
  value ← varuint 5;
  if u32_max <? value then throw BadVarint else mret value.

Definition varuint64 : M Z := varuint 10.

End NodeReader.

Fixpoint read_positions (count : nat) : NodeReader.M (list BlockPos) :=
  match count with
  | O => mret []
  | S count => raw ← NodeReader.take 36; ps ← read_positions count; mret (read_position raw :: ps)
  end.

Definition decode_blocks_strict (variant : Z) : NodeReader.M ShipRequest :=
  start_block_num ← NodeReader.u32;
  end_block_num ← NodeReader.u32;
  max_messages_in_flight ← NodeReader.u32;
  count ← NodeReader.varuint32;
  left ← NodeReader.remaining;
  if left <? Z.min (count * 36) usize_max then NodeReader.throw Truncated
  else
    have_positions ← read_positions (Z.to_nat count);
    irreversible_only ← NodeReader.bool;
    fetch_block ← NodeReader.bool;
    fetch_traces ← NodeReader.bool;
    fetch_deltas ← NodeReader.bool;
    if variant =? 1 then
      mret (GetBlocksV0 start_block_num end_block_num max_messages_in_flight have_positions
        irreversible_only fetch_block fetch_traces fetch_deltas)
    else
      fetch_finality_data ← NodeReader.bool;
      mret (GetBlocksV1 start_block_num end_block_num max_messages_in_flight have_positions
        irreversible_only fetch_block fetch_traces fetch_deltas fetch_finality_data).

Definition decode_strict_body : NodeReader.M ShipRequest :=
  variant ← NodeReader.varuint32;
  if variant =? 0 then mret GetStatusV0
  else if variant =? 4 then mret GetStatusV1
  else if variant =? 2 then num_messages ← NodeReader.u32; mret (GetBlocksAckV0 num_messages)
  else if (variant =? 1) || (variant =? 3) then decode_blocks_strict variant
  else NodeReader.throw (UnknownVariant variant).

Definition decode_request_strict (data : list Z) : result ShipRequest NodeError :=
  match data with
  | [] => Err Empty
  | _ => rmap fst (decode_strict_body (NodeReader.new data))
  end.

End Mock.

(** ** The two decoders agree *)

(** The node's name of an error of the router; the node has no bound on the number
    of positions. *)
Definition node_error (e : DecodeError) : option Mock.NodeError :=
  match e with
  | Empty => Some Mock.Empty
  | BadVarint => Some Mock.BadVarint
  | Truncated => Some Mock.Truncated
  | BadBool b => Some (Mock.BadBool b)
  | UnknownVariant i => Some (Mock.UnknownVariant i)
  | TooManyPositions _ => None
  end.

(** The node's value of a client message. *)
Definition node_request (m : ClientMsg) : Mock.ShipRequest :=
  match m with
  | CStatus false => Mock.GetStatusV0
  | CStatus true => Mock.GetStatusV1
  | CAck n => Mock.GetBlocksAckV0 n
  | CBlocks r =>
      if br_v1 r
      then Mock.GetBlocksV1 (br_start r) (br_end r) (max_in_flight r) (have_positions r)
        (irreversible_only r) (fetch_block r) (fetch_traces r) (fetch_deltas r) (fetch_finality_data r)
      else Mock.GetBlocksV0 (br_start r) (br_end r) (max_in_flight r) (have_positions r)
        (irreversible_only r) (fetch_block r) (fetch_traces r) (fetch_deltas r)
  end.

(** [agrees R p q]: from the same place of the same message, where the router's [p]
    reads a value the node's [q] reads a related one and stops at the same byte, and
    where [p] fails, [q] fails with the same error. *)
Definition agrees {A B} (R : A -> B -> Prop) (p : Reader.M A) (q : Mock.NodeReader.M B) : Prop :=
  forall b n, message_ok b -> 0 <= n <= zlen b ->
    match p (Reader.mk b n) with
    | Ok (a, r) => exists x, q (Mock.NodeReader.mk b n) = Ok (x, Mock.NodeReader.mk b (Reader.pos r))
        /\ R a x /\ Reader.buf r = b /\ n <= Reader.pos r <= zlen b
    | Err e => forall e', node_error e = Some e' -> q (Mock.NodeReader.mk b n) = Err e'
    end.

Lemma agrees_ret {A B} (R : A -> B -> Prop) a x : R a x -> agrees R (mret a) (mret x).
Proof. intros HR b n _ Hn. exists x. split_and!; cbn; done || lia. Qed.

Lemma agrees_throw {A B} (R : A -> B -> Prop) e e' :
  node_error e = Some e' -> agrees R (Reader.throw e) (Mock.NodeReader.throw e').
Proof. intros He b n _ _ e2 He2. cbn in *. by simplify_eq. Qed.

Lemma agrees_bind {A B C D} (R : A -> B -> Prop) (S : C -> D -> Prop) p q k j :
  agrees R p q -> (forall a x, R a x -> agrees S (k a) (j x)) ->
  agrees S (a ← p; k a) (x ← q; j x).
Proof.
  intros Hp Hk b n Hb Hn. specialize (Hp b n Hb Hn).
  unfold mbind, Reader.M_bind, Mock.NodeReader.M_bind.
  destruct (p _) as [[a r]|e].
  - destruct Hp as (x & -> & HR & Hbuf & Hpos). destruct r as [b' n']. cbn in Hbuf, Hpos. subst b'.
    pose proof (Hk a x HR b n' Hb ltac:(lia)) as Hk'. cbn [Reader.pos].
    destruct (k a _) as [[c r]|e]; [|done].
    destruct Hk' as (y & ? & ? & ? & ?). exists y. split_and!; done || lia.
  - intros e' He. by rewrite (Hp e' He).
Qed.

(** Where the bytes are there, [array] takes them. *)
Lemma array_at b n m :
  zlen b <= isize_max -> 0 <= n <= zlen b -> 0 <= m <= isize_max ->
  Reader.array m (Reader.mk b n)
  = if zlen b - n <? m then Err Truncated
    else Ok (take (Z.to_nat m) (drop (Z.to_nat n) b), Reader.mk b (n + m)).
Proof.
  intros Hb Hn Hm. unfold Reader.array, mbind, Reader.M_bind, Reader.take, checked_add.
  cbn [Reader.pos Reader.buf]. rewrite (proj2 (Z.leb_le _ _)) by mlia.
  destruct (Z.ltb_spec (zlen b - n) m).
  - by rewrite slice_get_none by lia.
  - rewrite slice_get_some by lia. replace (Z.to_nat (n + m - n)) with (Z.to_nat m) by lia.
    rewrite (proj2 (Z.eqb_eq _ _)); [done|]. rewrite length_take, length_drop. lia.
Qed.

Lemma agrees_array m :
  0 <= m <= isize_max ->
  agrees (fun a x => a = x /\ zlen a = m /\ Forall is_u8 a) (Reader.array m) (Mock.NodeReader.take m).
Proof.
  intros Hm b n [Hu Hb] Hn. rewrite array_at by done. unfold Mock.NodeReader.take.
  cbn [Mock.NodeReader.pos Mock.NodeReader.data]. destruct (Z.ltb_spec (zlen b - n) m).
  - intros e' [= <-]. done.
  - eexists. split; [reflexivity|]. cbn. rewrite length_take, length_drop.
    split_and!; [done|lia|by apply Forall_take, Forall_drop|done|lia|lia].
Qed.

Lemma agrees_u8 : agrees (fun a x => a = x /\ is_u8 a) Reader.u8 Mock.NodeReader.u8.
Proof.
  eapply agrees_bind; [apply agrees_array; mlia|]. intros a x (<- & Hl & Hu).
  destruct a as [|y [|]]; cbn in Hl; [lia| |lia]. apply agrees_ret. by inversion Hu.
Qed.

Lemma agrees_u32 : agrees eq Reader.u32 Mock.NodeReader.u32.
Proof. eapply agrees_bind; [apply agrees_array; mlia|]. intros a x (<- & _). by apply agrees_ret. Qed.

Lemma agrees_bool : agrees eq Reader.bool Mock.NodeReader.bool.
Proof.
  eapply agrees_bind; [apply agrees_u8|]. intros a x [<- _].
  destruct (a =? 0); [by apply agrees_ret|]. destruct (a =? 1); [by apply agrees_ret|by apply agrees_throw].
Qed.

Lemma agrees_position : agrees eq Reader.block_pos Mock.NodeReader.position.
Proof.
  intros b n [Hu Hb] Hn. unfold Reader.block_pos, Reader.u32, Mock.NodeReader.position, Mock.NodeReader.take.
  unfold mbind, Reader.M_bind, Mock.NodeReader.M_bind. cbn [Mock.NodeReader.pos Mock.NodeReader.data].
  rewrite array_at by mlia. destruct (Z.ltb_spec (zlen b - n) 4).
  { rewrite (proj2 (Z.ltb_lt _ _)) by lia. intros e' [= <-]. done. }
  unfold mret, Reader.M_ret. rewrite array_at by mlia.
  destruct (Z.ltb_spec (zlen b - (n + 4)) 32).
  { rewrite (proj2 (Z.ltb_lt _ _)) by lia. intros e' [= <-]. done. }
  rewrite (proj2 (Z.ltb_ge _ _)) by lia. cbn [Reader.pos Reader.buf].
  replace (n + 4 + 32) with (n + 36) by lia. eexists. split; [reflexivity|].
  split_and!; [|done|lia|lia]. unfold Mock.read_position. f_equal.
  - by rewrite take_take.
  - change (Z.to_nat 36) with (4 + 32)%nat. rewrite skipn_firstn_comm, drop_drop.
    replace (Z.to_nat (n + 4)) with (Z.to_nat n + 4)%nat by lia. by rewrite take_take.
Qed.

Lemma agrees_positions count : agrees eq (block_positions count) (Mock.read_positions count).
Proof.
  induction count as [|count IH]; cbn [block_positions Mock.read_positions]; [by apply agrees_ret|].
  intros b n Hb Hn. pose proof agrees_position as Hp.
  assert (agrees eq (p ← Reader.block_pos; ps ← block_positions count; mret (p :: ps))
    (p ← Mock.NodeReader.position; ps ← Mock.read_positions count; mret (p :: ps))) as H.
  { eapply agrees_bind; [exact Hp|]. intros p ? <-. eapply agrees_bind; [exact IH|].
    intros ps ? <-. by apply agrees_ret. }
  specialize (H b n Hb Hn). revert H. unfold Mock.NodeReader.position, mbind, Mock.NodeReader.M_bind.
  by destruct (Mock.NodeReader.take 36 _) as [[raw r]|e].
Qed.

Lemma agrees_assoc {A B C D} (R : A -> D -> Prop) (p : Reader.M A) (q : Mock.NodeReader.M B)
    (k : B -> Mock.NodeReader.M C) (j : C -> Mock.NodeReader.M D) :
  agrees R p (x ← q; y ← k x; j y) -> agrees R p (y ← (x ← q; k x); j y).
Proof.
  intros H b n Hb Hn. specialize (H b n Hb Hn). revert H. unfold mbind, Mock.NodeReader.M_bind.
  destruct (q _) as [[x r]|e]; [|done]. by destruct (k x r) as [[y r']|e].
Qed.

(** A turn of the two loops adds the same bits. *)
Lemma turn_bits w i value byte :
  0 <= 7 * i -> 7 * i + 7 <= w -> 0 <= value < 2 ^ (7 * i) ->
  Z.lor value (Reader.shl w (Z.land byte 0x7f) (7 * i)) = value + byte mod 128 * 2 ^ (7 * i)
  /\ Z.lor value (Mock.shl_or_zero w (Z.land byte 0x7f) (7 * i)) = value + byte mod 128 * 2 ^ (7 * i)
  /\ 0 <= value + byte mod 128 * 2 ^ (7 * i) < 2 ^ (7 * (i + 1)).
Proof.
  intros Hi Hw Hv. unfold Mock.shl_or_zero, Reader.shl. rewrite (proj2 (Z.ltb_lt _ _)) by lia.
  rewrite land_7f. pose proof (Z.mod_pos_bound byte 128 eq_refl).
  assert (2 ^ (7 * (i + 1)) = 128 * 2 ^ (7 * i)) as Hp.
  { replace (7 * (i + 1)) with (7 + 7 * i) by lia. by rewrite Z.pow_add_r by lia. }
  assert (2 ^ (7 * (i + 1)) <= 2 ^ w) by (apply Z.pow_le_mono_r; lia).
  rewrite Z.mod_small by (rewrite Z.shiftl_mul_pow2 by lia; nia).
  rewrite lor_shiftl_add by lia. split_and!; try done; nia.
Qed.

Definition node_u32 (value : Z) : Mock.NodeReader.M Z :=
  if u32_max <? value then Mock.NodeReader.throw Mock.BadVarint else mret value.

Lemma agrees_last_byte value :
  0 <= value < 2 ^ 28 ->
  agrees eq (Reader.varuint_loop 32 0x0f 28 [] value) (x ← Mock.NodeReader.varuint_from 1 4 value; node_u32 x).
Proof.
  intros Hv. cbn [Reader.varuint_loop Mock.NodeReader.varuint_from]. apply agrees_assoc.
  eapply agrees_bind; [apply agrees_u8|]. intros a x [<- Hb].
  destruct (turn_bits 64 4 value a) as (_ & Hn & Hlt); [lia|lia|done|]. rewrite Hn.
  rewrite land_80 by done. pose proof (Z.mod_pos_bound a 128 eq_refl).
  destruct (Z.ltb_spec a 128) as [Hlow|Hhigh].
  - rewrite Z.mod_small in Hn, Hlt |- * by mlia. change (7 * 4) with 28 in *.
    destruct (Z.ltb_spec 0x0f a) as [Hbig|Hsmall].
    + intros b n Hb2 Hn2 e' [= <-]. unfold mbind, Mock.NodeReader.M_bind, mret, Mock.NodeReader.M_ret, node_u32.
      rewrite (proj2 (Z.ltb_lt _ _)); [done|]. unfold u32_max. lia.
    + intros b n Hb2 Hn2. unfold mbind, Mock.NodeReader.M_bind, mret, Mock.NodeReader.M_ret, Reader.M_ret, node_u32.
      rewrite (proj2 (Z.ltb_ge _ _)) by (unfold u32_max; lia).
      unfold Reader.shl. rewrite Z.mod_small by (rewrite Z.shiftl_mul_pow2 by lia; mlia).
      rewrite lor_shiftl_add by lia. eexists. split_and!; try done; cbn; lia.
  - rewrite (proj2 (Z.ltb_lt 0x0f a)) by lia. intros b n Hb2 Hn2 e' [= <-]. done.
Qed.

Lemma agrees_varuint_loop shifts i value :
  steps (7 * i) shifts 28 -> 0 <= i -> 0 <= value < 2 ^ (7 * i) ->
  agrees eq (Reader.varuint_loop 32 0x0f 28 shifts value)
    (x ← Mock.NodeReader.varuint_from (S (length shifts)) i value; node_u32 x).
Proof.
  revert i value. induction shifts as [|s shifts IH]; intros i value Hs Hi Hv.
  { cbn in Hs. assert (i = 4) as -> by lia. by apply agrees_last_byte. }
  destruct Hs as [-> Hs]. pose proof (steps_le _ _ _ Hs).
  cbn [Reader.varuint_loop length Mock.NodeReader.varuint_from]. apply agrees_assoc.
  eapply agrees_bind; [apply agrees_u8|]. intros a x [<- Hb].
  destruct (turn_bits 32 i value a) as (Hr & _ & Hlt); [lia|lia|done|].
  destruct (turn_bits 64 i value a) as (_ & Hn & _); [lia|lia|done|]. rewrite Hr, Hn.
  destruct (Z.land a 0x80 =? 0).
  - assert (2 ^ (7 * (i + 1)) <= 2 ^ 28) by (apply Z.pow_le_mono_r; lia).
    intros b n Hb2 Hn2. unfold mbind, Mock.NodeReader.M_bind, mret, Mock.NodeReader.M_ret, Reader.M_ret, node_u32.
    rewrite (proj2 (Z.ltb_ge _ _)) by (unfold u32_max; lia). eexists. split_and!; try done; cbn; lia.
  - apply IH; [by replace (7 * (i + 1)) with (7 * i + 7) by lia|lia|done].
Qed.

Lemma agrees_varuint32 : agrees (fun a x => a = x /\ is_u32 a) Reader.varuint32 Mock.NodeReader.varuint32.
Proof.
  intros b n Hb Hn.
  pose proof (agrees_varuint_loop [0; 7; 14; 21] 0 0 ltac:(cbn; lia) ltac:(lia) ltac:(cbn; lia) b n Hb Hn) as H.
  pose proof (yields_varuint32 b Hb n) as Hy. unfold Reader.varuint32 in *.
  destruct (Reader.varuint_loop _ _ _ _ _ _) as [[a r]|e]; [|exact H].
  destruct H as (x & Hx & <- & ? & ?). destruct (Hy a r Hn eq_refl) as [? _]. exists a. split; [exact Hx|]. split; [done|]. split; [done|lia].
Qed.

Create HintDb agree.
#[local] Hint Resolve agrees_u32 agrees_bool : agree.

(** The next field of both, read alike. *)
Ltac field := eapply agrees_bind; [solve [eauto with agree]|]; intros ? ? <-.

(** The two checks of the number of positions are one. *)
Lemma agrees_checked {B} (S : BlocksRequest -> B -> Prop) count k j :
  is_u32 count -> (forall ps, agrees S (k ps) (j ps)) ->
  agrees S (ps ← positions_checked count; k ps)
    (left ← Mock.NodeReader.remaining;
     if left <? Z.min (count * 36) usize_max then Mock.NodeReader.throw Mock.Truncated
     else ps ← Mock.read_positions (Z.to_nat count); j ps).
Proof.
  intros Hc Hk b n Hb Hn. unfold positions_checked.
  assert (Z.min (count * 36) usize_max = count * 36) as Hm by mlia.
  destruct (Z.ltb_spec MAX_POSITIONS count); [by intros e'|].
  pose proof (agrees_bind eq S (block_positions (Z.to_nat count)) _ k j
    (agrees_positions _) ltac:(by intros ? ? <-) b n Hb Hn) as H'.
  revert H'. unfold mbind, Reader.M_bind, Mock.NodeReader.M_bind, Reader.remaining, Mock.NodeReader.remaining.
  cbn [Reader.buf Reader.pos Mock.NodeReader.data Mock.NodeReader.pos]. rewrite Hm.
  unfold sat_sub, POS_LEN. rewrite Z.max_r by lia.
  destruct (Z.ltb_spec (zlen b - n) (count * 36)) as [Hs|Hs].
  - rewrite (proj2 (Z.ltb_lt _ _)) by (apply Z.div_lt_upper_bound; lia). intros _ e' [= <-]. done.
  - rewrite (proj2 (Z.ltb_ge _ _)) by (apply Z.div_le_lower_bound; lia). done.
Qed.

Lemma agrees_blocks v1 variant :
  variant = (if v1 : bool then 3 else 1) ->
  agrees (fun r q => node_request (CBlocks r) = q) (decode_blocks_request v1) (Mock.decode_blocks_strict variant).
Proof.
  intros ->. unfold decode_blocks_request, Mock.decode_blocks_strict. do 3 field.
  eapply agrees_bind; [apply agrees_varuint32|]. intros count ? [<- Hc].
  apply agrees_checked; [done|]. intros ps. do 4 field.
  destruct v1; cbn [Z.eqb Pos.eqb]; [field|]; by apply agrees_ret.
Qed.

Lemma agrees_map {A B C} (S : C -> B -> Prop) (f : A -> C) p q :
  agrees (fun a x => S (f a) x) p q -> agrees S (a ← p; mret (f a)) q.
Proof.
  intros H b n Hb Hn. specialize (H b n Hb Hn). unfold mbind, Reader.M_bind. by destruct (p _) as [[a r]|e].
Qed.

Lemma agrees_variant : agrees (fun m q => node_request m = q) decode_variant Mock.decode_strict_body.
Proof.
  eapply agrees_bind; [apply agrees_varuint32|]. intros i ? [<- _].
  unfold REQ_STATUS_V0, REQ_BLOCKS_V0, REQ_ACK, REQ_BLOCKS_V1, REQ_STATUS_V1.
  destruct (Z.eqb_spec i 0) as [->|]; [by apply agrees_ret|].
  destruct (Z.eqb_spec i 1) as [->|]; [by apply agrees_map, agrees_blocks|].
  destruct (Z.eqb_spec i 2) as [->|]; [cbn [Z.eqb Pos.eqb orb]; field; by apply agrees_ret|].
  destruct (Z.eqb_spec i 3) as [->|]; [by apply agrees_map, agrees_blocks|].
  destruct (Z.eqb_spec i 4) as [->|]; [by apply agrees_ret|by apply agrees_throw].
Qed.

(** A varuint32 with bit 32 set, [4] without it, is refused by both decoders, while a
    reader that drops the bits above 32 takes the message for a status request. *)
Lemma overlong_refused :
  let b := [0x84; 0x80; 0x80; 0x80; 0x10] in
  decode_client b = Err BadVarint /\ Mock.decode_request_strict b = Err Mock.BadVarint
  /\ foldr (fun x v => Z.lor (Z.land x 0x7f) (Z.shiftl v 7)) 0 b = 2 ^ 32 + 4.
Proof. vm_compute. done. Qed.

(** C21: The router and the mock node read the same messages: what the router accepts
    from a client the mock's strict decoder accepts with the same fields, and what the
    router refuses the mock refuses with the same error, but for a request with more
    positions than the router takes.  Both refuse a varuint32 with bits above 32, where
    the node software drops them. *)
Theorem decoders_agree (b : list Z) :
  message_ok b ->
  match decode_client b with
  | Ok m => Mock.decode_request_strict b = Ok (node_request m)
  | Err e => forall e', node_error e = Some e' -> Mock.decode_request_strict b = Err e'
  end.
Proof.
  intros Hb. pose proof (agrees_variant b 0 Hb ltac:(lia)) as H.
  unfold decode_client, Mock.decode_request_strict. destruct b as [|x b]; [by intros e' [= <-]|].
  unfold Reader.new, Mock.NodeReader.new, rmap. destruct (decode_variant _) as [[m r]|e].
  - by destruct H as (q & -> & <- & _).
  - intros e' He. by rewrite (H e' He).
Qed.

(** ** The lenient decoder *)

Lemma node_bind_inv {A B} s (q : Mock.NodeReader.M A) (k : A -> Mock.NodeReader.M B) b r :
  (a ← q; k a) s = Ok (b, r) -> exists a s', q s = Ok (a, s') /\ k a s' = Ok (b, r).
Proof. unfold mbind, Mock.NodeReader.M_bind. destruct (q _) as [[a r']|]; [eauto|done]. Qed.

Lemma node_take_inv b n m a r :
  0 <= n -> 0 <= m -> Mock.NodeReader.take m (Mock.NodeReader.mk b n) = Ok (a, r) ->
  a = take (Z.to_nat m) (drop (Z.to_nat n) b) /\ r = Mock.NodeReader.mk b (n + m) /\ n + m <= zlen b.
Proof.
  intros Hn Hm. unfold Mock.NodeReader.take. cbn [Mock.NodeReader.data Mock.NodeReader.pos].
  destruct (Z.ltb_spec (zlen b - n) m); [done|]. intros [= <- <-]. split_and!; done || lia.
Qed.

Lemma node_u8_inv b n a r :
  0 <= n -> Mock.NodeReader.u8 (Mock.NodeReader.mk b n) = Ok (a, r) ->
  drop (Z.to_nat n) b = a :: drop (Z.to_nat (n + 1)) b /\ r = Mock.NodeReader.mk b (n + 1) /\ n + 1 <= zlen b.
Proof.
  intros Hn (out & r' & Ht & Hr)%node_bind_inv. apply node_take_inv in Ht as (-> & -> & Hl); [|done|lia].
  injection Hr as <- <-. split_and!; [|done|done].
  replace (Z.to_nat (n + 1)) with (S (Z.to_nat n)) by lia.
  destruct (lookup_lt_is_Some_2 b (Z.to_nat n)) as [x Hx]; [lia|].
  by rewrite (drop_S b x) by done.
Qed.

Lemma node_u32_inv b n a r :
  0 <= n -> Mock.NodeReader.u32 (Mock.NodeReader.mk b n) = Ok (a, r) ->
  a = Mock.u32_at (drop (Z.to_nat n) b) 0 /\ r = Mock.NodeReader.mk b (n + 4) /\ n + 4 <= zlen b.
Proof.
  intros Hn (out & r' & Ht & Hr)%node_bind_inv. apply node_take_inv in Ht as (-> & -> & Hl); [|done|lia].
  by injection Hr as <- <-.
Qed.

Lemma node_bool_inv b n a r :
  0 <= n -> Mock.NodeReader.bool (Mock.NodeReader.mk b n) = Ok (a, r) ->
  a = negb (default 0 (b !! Z.to_nat n) =? 0) /\ r = Mock.NodeReader.mk b (n + 1) /\ n + 1 <= zlen b.
Proof.
  intros Hn (x & r' & Hx & Hr)%node_bind_inv. apply node_u8_inv in Hx as (Hd & -> & Hl); [|done].
  assert (b !! Z.to_nat n = Some x) as ->.
  { rewrite <- (Nat.add_0_r (Z.to_nat n)), <- lookup_drop. by rewrite Hd. }
  revert Hr. change (default 0 (Some x)) with x.
  destruct (x =? 0); [by intros [= <- <-]|]. by destruct (x =? 1); [intros [= <- <-]|].
Qed.

Lemma lor_mod a c k : 0 <= k -> Z.lor a c mod 2 ^ k = Z.lor (a mod 2 ^ k) (c mod 2 ^ k).
Proof. intros Hk. by rewrite <- !Z.land_ones, Z.land_lor_distr_l by done. Qed.

(** The 64-bit shift seen in 32 bits. *)
Lemma shl_narrow x s : 0 <= s -> Mock.shl_or_zero 64 x s mod 2 ^ 32 = Mock.shl_or_zero 32 x s.
Proof.
  intros Hs. unfold Mock.shl_or_zero. destruct (Z.ltb_spec s 64), (Z.ltb_spec s 32); try lia; [..|done].
  - by rewrite <- Znumtheory.Zmod_div_mod by (done || (exists (2 ^ 32); done)).
  - rewrite <- Znumtheory.Zmod_div_mod by (done || (exists (2 ^ 32); done)).
    rewrite Z.shiftl_mul_pow2 by lia. replace s with ((s - 32) + 32) by lia.
    rewrite Z.pow_add_r, Z.mul_assoc by lia. by apply Z.mod_mul.
Qed.

Lemma lenient_varuint k i value b n v r j :
  0 <= n -> 0 <= i -> Mock.NodeReader.varuint_from k i value (Mock.NodeReader.mk b n) = Ok (v, r) ->
  exists m, r = Mock.NodeReader.mk b m /\ n < m <= zlen b
    /\ Mock.decode_varuint32_loop (drop (Z.to_nat n) b) (value mod 2 ^ 32) (7 * i) j = (v mod 2 ^ 32, j + (m - n)).
Proof.
  revert i value n j. induction k as [|k IH]; intros i value n j Hn Hi; [done|].
  cbn [Mock.NodeReader.varuint_from]. intros (byte & r' & Hb & Hr)%node_bind_inv.
  apply node_u8_inv in Hb as (Hd & -> & Hl); [|done]. rewrite Hd. cbn [Mock.decode_varuint32_loop].
  rewrite <- (shl_narrow _ (7 * i)), <- lor_mod by lia. destruct (_ =? 0).
  - injection Hr as <- <-. exists (n + 1). split_and!; [done|lia|lia|]. f_equal. lia.
  - apply (IH _ _ _ (j + 1)) in Hr as (m & -> & Hm & He); [|lia|lia]. exists m.
    split_and!; [done|lia|lia|]. replace (7 * i + 7) with (7 * (i + 1)) by lia. rewrite He. f_equal. lia.
Qed.

Lemma varuint_nonneg k i value s v r :
  0 <= value -> Mock.NodeReader.varuint_from k i value s = Ok (v, r) -> 0 <= v.
Proof.
  revert i value s. induction k as [|k IH]; intros i value s Hv; [done|].
  cbn [Mock.NodeReader.varuint_from]. intros (byte & s' & _ & Hr)%node_bind_inv.
  assert (0 <= Z.lor value (Mock.shl_or_zero 64 (Z.land byte 0x7f) (7 * i))) as Hn.
  { apply Z.lor_nonneg. split; [done|]. unfold Mock.shl_or_zero. destruct (_ <? _); [|lia].
    apply Z.mod_pos_bound; lia. }
  destruct (_ =? 0); [by injection Hr as <- <-|by eapply IH].
Qed.

Lemma lenient_varuint32 b n v r :
  0 <= n -> Mock.NodeReader.varuint32 (Mock.NodeReader.mk b n) = Ok (v, r) ->
  exists m, r = Mock.NodeReader.mk b m /\ n < m <= zlen b
    /\ Mock.decode_varuint32 (drop (Z.to_nat n) b) = (v, m - n) /\ 0 <= v.
Proof.
  intros Hn (x & r' & Hx & Hr)%node_bind_inv. pose proof (varuint_nonneg _ _ _ _ _ _ (Z.le_refl 0) Hx). apply (lenient_varuint _ _ _ _ _ _ _ 0) in Hx as (m & -> & Hm & He);
    [|done|lia]. destruct (Z.ltb_spec u32_max x); [done|]. injection Hr as <- <-. exists m.
  split_and!; [done|lia|lia| |lia]. unfold Mock.decode_varuint32. change (Mock.decode_varuint32_loop (drop (Z.to_nat n) b) 0 0 0)
    with (Mock.decode_varuint32_loop (drop (Z.to_nat n) b) (0 mod 2 ^ 32) (7 * 0) 0).
  rewrite He, Z.mod_small by mlia. f_equal; lia.
Qed.

Lemma lenient_positions count b n ps r fuel :
  0 <= n -> (length (drop (Z.to_nat n) b) <= fuel)%nat ->
  Mock.read_positions count (Mock.NodeReader.mk b n) = Ok (ps, r) ->
  r = Mock.NodeReader.mk b (n + 36 * Z.of_nat count)
  /\ ps = map Mock.read_position (take count (Mock.as_chunks fuel 36 (drop (Z.to_nat n) b))).
Proof.
  revert n ps fuel. induction count as [|count IH]; intros n ps fuel Hn Hf.
  { intros [= <- <-]. split; [f_equal; lia|done]. }
  cbn [Mock.read_positions]. intros (raw & r' & Ht & (ps' & r2 & Hp & Hr)%node_bind_inv)%node_bind_inv.
  apply node_take_inv in Ht as (-> & -> & Hl); [|done|lia]. injection Hr as <- <-.
  destruct fuel as [|fuel]; [rewrite length_drop in Hf; lia|].
  assert (drop (Z.to_nat (n + 36)) b = drop 36 (drop (Z.to_nat n) b)) as Hd
    by (rewrite drop_drop; f_equal; lia).
  apply (IH _ _ fuel) in Hp as [-> ->]; [|lia|rewrite Hd, length_drop; lia].
  split; [f_equal; lia|]. cbn [Mock.as_chunks]. rewrite (proj2 (Nat.ltb_ge _ _)) by (rewrite length_drop; lia).
  cbn [take map]. by rewrite Hd.
Qed.

(** A field of the strict decoder that was read, as the lenient one finds it. *)
Ltac was_read lem H x :=
  let r := fresh in let Hx := fresh in
  apply node_bind_inv in H as (x & r & Hx & H); apply lem in Hx as (-> & -> & ?); [|lia].

Lemma u32_at_drop b n k : Mock.u32_at (drop (n + k) b) 0 = Mock.u32_at (drop n b) k.
Proof. unfold Mock.u32_at. by rewrite !drop_drop, Nat.add_0_r. Qed.

Lemma lenient_blocks v1 b c q r :
  0 <= c -> zlen b <= isize_max ->
  Mock.decode_blocks_strict (if v1 : bool then 3 else 1) (Mock.NodeReader.mk b c) = Ok (q, r) ->
  Mock.decode_blocks_lenient (drop (Z.to_nat c) b) v1 = Some q.
Proof.
  intros Hc Hl H. unfold Mock.decode_blocks_strict in H.
  was_read node_u32_inv H start. was_read node_u32_inv H end_. was_read node_u32_inv H mm.
  apply node_bind_inv in H as (count & r1 & Hv & H).
  apply lenient_varuint32 in Hv as (m & -> & Hm & Hv & Hcount); [|lia].
  unfold mbind at 1, Mock.NodeReader.M_bind at 1, Mock.NodeReader.remaining in H.
  cbn [Mock.NodeReader.data Mock.NodeReader.pos] in H.
  destruct (Z.ltb_spec (zlen b - m) (Z.min (count * 36) usize_max)) as [|Hfits]; [done|].
  assert (count * 36 <= zlen b - m) by mlia.
  apply node_bind_inv in H as (ps & r2 & Hp & H).
  apply (lenient_positions _ _ _ _ _ (length (drop (Z.to_nat m) b))) in Hp as [-> Hps]; [|lia|lia].
  rewrite Z2Nat.id in H by lia.
  was_read node_bool_inv H irr. was_read node_bool_inv H fb. was_read node_bool_inv H ft.
  was_read node_bool_inv H fd.
  unfold Mock.decode_blocks_lenient. rewrite (proj2 (Z.ltb_ge _ _)) by (rewrite length_drop; lia).
  rewrite drop_drop. replace (Z.to_nat c + 12)%nat with (Z.to_nat (c + 4 + 4 + 4)) by lia. rewrite Hv.
  assert (12 + (m - (c + 4 + 4 + 4)) = m - c) as -> by lia.
  rewrite Z.min_l by (rewrite length_drop; lia).
  rewrite drop_drop. replace (Z.to_nat c + Z.to_nat (m - c))%nat with (Z.to_nat m) by lia.
  rewrite <- Hps, <- (u32_at_drop b _ 4), <- (u32_at_drop b _ 8).
  replace (Z.to_nat c + 4)%nat with (Z.to_nat (c + 4)) by lia.
  replace (Z.to_nat c + 8)%nat with (Z.to_nat (c + 4 + 4)) by lia.
  assert (sat_add usize_max (m - c) (Z.min (count * 36) usize_max) = m + 36 * count - c) as -> by mlia.
  assert (forall i, 0 <= i <= 8 -> drop (Z.to_nat c) b !! Z.to_nat (sat_add usize_max (m + 36 * count - c) i)
    = b !! Z.to_nat (m + 36 * count + i)) as Hat.
  { intros i Hi. rewrite lookup_drop. f_equal. mlia. }
  rewrite !Hat by lia. rewrite Z.add_0_r.
  destruct v1; cbn [Z.eqb Pos.eqb] in H; [was_read node_bool_inv H ff|]; injection H as <- <-;
    by rewrite ?Zplus_assoc_reverse.
Qed.

(** The lenient decoder reads every request the strict one accepts, alike. *)
Lemma lenient_exact (b : list Z) (q : Mock.ShipRequest) :
  message_ok b -> Mock.decode_request_strict b = Ok q -> Mock.decode_request b = q.
Proof.
  intros [_ Hl]. unfold Mock.decode_request_strict, Mock.decode_request.
  destruct b as [|x b]; [done|]. set (data := x :: b) in *. clearbody data.
  unfold rmap. destruct (Mock.decode_strict_body _) as [[q' r]|e] eqn:H; [|done]. intros [= <-].
  apply node_bind_inv in H as (v & r' & Hv & H).
  apply lenient_varuint32 in Hv as (m & -> & Hm & Hv & Hpos); [|lia].
  change (drop (Z.to_nat 0) data) with data in Hv. rewrite Hv, Z.sub_0_r. cbn [fst].
  destruct (Z.eqb_spec v 0) as [->|]; [by injection H as <- <-|].
  destruct (Z.eqb_spec v 4) as [->|]; [by injection H as <- <-|].
  destruct (Z.eqb_spec v 2) as [->|].
  { was_read node_u32_inv H acked. injection H as <- <-. cbn [Z.eqb Pos.eqb orb].
    rewrite (proj2 (Z.leb_le _ _)); [done|]. rewrite length_drop. lia. }
  destruct (Z.eqb_spec v 1) as [->|]; [|destruct (Z.eqb_spec v 3) as [->|]; [|done]]; cbn [Z.eqb Pos.eqb orb] in *.
  - by rewrite (lenient_blocks false data m _ _ ltac:(lia) Hl H).
  - by rewrite (lenient_blocks true data m _ _ ltac:(lia) Hl H).
Qed.

(** ** The router reads what a node sends *)

Lemma encode_loop_put fuel buf v :
  0 <= v -> Mock.encode_varuint_loop fuel buf v = put_varuint32_loop fuel buf v.
Proof.
  revert buf v. induction fuel as [|fuel IH]; intros buf v Hv; [done|].
  cbn [Mock.encode_varuint_loop put_varuint32_loop].
  assert (0 <= Z.shiftr v 7) by (by apply Z.shiftr_nonneg).
  destruct (Z.eqb_spec (Z.shiftr v 7) 0) as [->|]; [done|].
  rewrite (proj2 (Z.ltb_lt _ _)) by lia. by apply IH.
Qed.

(** Turns past the last one are not taken. *)
Lemma put_loop_enough fuel k out v :
  0 <= v < 128 ^ Z.of_nat fuel -> (0 < fuel)%nat ->
  put_varuint32_loop (fuel + k) out v = put_varuint32_loop fuel out v.
Proof.
  revert out v. induction fuel as [|fuel IH]; intros out v Hv Hf; [lia|].
  cbn [put_varuint32_loop Nat.add]. destruct (Z.eqb_spec (Z.shiftr v 7) 0) as [|Hne]; [done|].
  rewrite Z.shiftr_div_pow2 in Hne |- * by lia. change (2 ^ 7) with 128 in *.
  rewrite Nat2Z.inj_succ, Z.pow_succ_r in Hv by lia.
  assert (0 <= v / 128 < 128 ^ Z.of_nat fuel).
  { split; [apply Z.div_pos; lia|apply Z.div_lt_upper_bound; lia]. }
  destruct fuel as [|fuel]; [cbn in *; lia|]. apply IH; [done|lia].
Qed.

Lemma reads_varuint64 xs v :
  Forall is_u8 xs -> leb_encodes 10 u64_max xs v -> reads Reader.varuint64 xs v.
Proof.
  intros Hu (Hs & Hl & Hv & ->).
  pose proof (reads_varuint_loop 64 63 ltac:(lia) ltac:(lia) [0; 7; 14; 21; 28; 35; 42; 49; 56] 0 0 xs) as H.
  cbn [Z.add] in H. rewrite Z.pow_0_r, Z.mul_1_r in H. apply H; try done.
  change (2 ^ (64 - 0)) with 18446744073709551616. mlia.
Qed.

Lemma reads_node_varuint64 v : is_u64 v -> reads Reader.varuint64 (Mock.encode_varuint64 v) v.
Proof.
  intros Hv. unfold Mock.encode_varuint64. rewrite encode_loop_put by mlia.
  destruct (put_varuint32_loop_spec 10 [] v) as (xs & -> & Hu & Hs & Hl & Hle & Hval).
  { change (128 ^ Z.of_nat 10) with 1180591620717411303424. mlia. }
  { lia. }
  apply reads_varuint64; [done|]. unfold leb_encodes. split_and!; try done. cbn [app]. mlia.
Qed.

Lemma node_varuint32_put v : is_u32 v -> Mock.encode_varuint32 v = put_varuint32 [] v.
Proof.
  intros Hv. unfold Mock.encode_varuint32, Mock.encode_varuint64. rewrite encode_loop_put by mlia.
  apply (put_loop_enough 5 5); [|lia]. change (128 ^ Z.of_nat 5) with 34359738368. mlia.
Qed.

Lemma reads_node_varuint32 v : is_u32 v -> reads Reader.varuint32 (Mock.encode_varuint32 v) v.
Proof.
  intros Hv. rewrite node_varuint32_put by done.
  by destruct (put_varuint32_spec [] v Hv) as (xs & -> & _ & _ & Hr).
Qed.

(** What the Rust types enforce of a payload: its length. *)
Definition payload_ok (max : Z) (data : option (list Z)) : Prop :=
  match data with Some d => zlen d <= max | None => True end.

Definition payload_bytes (w : LenWidth) (data : option (list Z)) : list Z :=
  match data with
  | Some d => [1] ++ match w with LU32 => Mock.encode_varuint32 (zlen d) | LU64 => Mock.encode_varuint64 (zlen d) end ++ d
  | None => [0]
  end.

Lemma optional_bytes_flat buf data :
  payload_ok u32_max data -> Mock.encode_optional_bytes buf data = buf ++ payload_bytes LU32 data.
Proof.
  intros H. destruct data as [d|]; [|done]. cbn in H |- *.
  unfold as_u32. rewrite Z.mod_small by mlia. by rewrite <- !app_assoc.
Qed.

Lemma log_entry_flat buf data :
  Mock.encode_optional_log_entry buf data = buf ++ payload_bytes LU64 data.
Proof. destruct data as [d|]; [|done]. cbn. by rewrite <- !app_assoc. Qed.

Lemma reads_payload w data :
  payload_ok (match w with LU32 => u32_max | LU64 => isize_max end) data ->
  reads (Reader.optional_bytes w) (payload_bytes w data) (is_some data).
Proof.
  intros Hok. unfold Reader.optional_bytes. destruct data as [d|]; cbn [payload_bytes is_some].
  - eapply reads_bind; [apply (reads_bool true)|]. cbn [negb].
    eapply reads_bind with (a := zlen d).
    { destruct w; [apply reads_node_varuint32|apply reads_node_varuint64]; cbn in Hok; mlia. }
    rewrite (proj2 (Z.ltb_ge _ _)) by (destruct w; cbn in Hok; mlia).
    eapply reads_bind_nil; [by apply reads_take|apply reads_ret].
  - eapply (reads_bind_nil _ _ [0]); [apply (reads_bool false)|apply reads_ret].
Qed.

Definition fields_ok (r : Mock.BlockFields) : Prop :=
  pos_ok (Mock.bf_head r) /\ pos_ok (Mock.bf_lib r)
  /\ opt_ok (Mock.bf_this_block r) /\ opt_ok (Mock.bf_prev_block r)
  /\ payload_ok u32_max (Mock.bf_block r) /\ payload_ok isize_max (Mock.bf_traces r)
  /\ payload_ok isize_max (Mock.bf_deltas r) /\ payload_ok isize_max (Mock.bf_finality r).

(** The head the router should read of a node's result. *)
Definition node_head (r : Mock.BlockFields) : ResultHead :=
  mkResultHead (Mock.bf_v1 r) (Mock.bf_head r) (Mock.bf_lib r) (Mock.bf_this_block r) (Mock.bf_prev_block r)
    (1 + POS_LEN + POS_LEN + zlen (opt_bytes (Mock.bf_this_block r)) + zlen (opt_bytes (Mock.bf_prev_block r))).

Definition node_presence (r : Mock.BlockFields) : Presence :=
  mkPresence (is_some (Mock.bf_block r)) (is_some (Mock.bf_traces r)) (is_some (Mock.bf_deltas r))
    (Mock.bf_v1 r && is_some (Mock.bf_finality r)).

Definition payloads (r : Mock.BlockFields) : list Z :=
  payload_bytes LU32 (Mock.bf_block r) ++ payload_bytes LU64 (Mock.bf_traces r)
  ++ payload_bytes LU64 (Mock.bf_deltas r)
  ++ (if Mock.bf_v1 r then payload_bytes LU64 (Mock.bf_finality r) else []).

Definition node_index (r : Mock.BlockFields) : Z := if Mock.bf_v1 r then RES_BLOCKS_V1 else RES_BLOCKS_V0.

Lemma encode_blocks_flat r :
  payload_ok u32_max (Mock.bf_block r) ->
  Mock.encode_blocks_result r = head_bytes (node_index r) (node_head r) ++ payloads r.
Proof.
  intros Hb. unfold Mock.encode_blocks_result, payloads, head_bytes, node_index.
  rewrite !log_entry_flat, optional_bytes_flat by done. cbn [foldl].
  assert (forall buf o, match o with
      | Some p => (buf ++ [1]) ++ Mock.encode_block_position p
      | None => buf ++ [0]
      end = buf ++ opt_bytes o) as Ho.
  { intros buf [p|]; [|done]. by rewrite <- app_assoc. }
  rewrite !Ho. unfold Mock.encode_block_position.
  destruct r as [[] ? ? ? ? ? ? ? ?]; cbn -[app payload_bytes]; rewrite <- ?app_assoc, ?app_nil_r; done.
Qed.

Lemma node_head_ok r : fields_ok r -> head_ok (node_index r) (node_head r).
Proof.
  intros (Hh & Hl & Ht & Hp & _). unfold head_ok, node_index. split_and!; try done.
  - unfold node_head. cbn [rh_v1]. by destruct (Mock.bf_v1 r).
  - unfold head_bytes, node_head. cbn [rh_head rh_lib this_block prev_block fields_at].
    rewrite !length_app, !pos_bytes_length by done. cbn [length]. unfold POS_LEN. lia.
Qed.

Lemma reads_presence r :
  fields_ok r -> reads (presence_body (Mock.bf_v1 r)) (payloads r) (node_presence r).
Proof.
  intros (_ & _ & _ & _ & Hb & Ht & Hd & Hf). unfold presence_body, payloads, node_presence.
  do 3 (eapply reads_bind; [by apply reads_payload|]).
  destruct (Mock.bf_v1 r); (eapply reads_bind_nil; [by apply reads_payload || apply reads_ret|apply reads_ret]).
Qed.

Lemma node_result_classified (r : Mock.BlockFields) :
  fields_ok r -> zlen (Mock.encode_blocks_result r) <= isize_max ->
  classify_upstream (Mock.encode_blocks_result r) = UBlocks (node_head r).
Proof.
  intros Hr Hl. pose proof Hr as (_ & _ & _ & _ & Hb & _).
  rewrite encode_blocks_flat in Hl |- * by done.
  apply classify_blocks_fwd; [by apply node_head_ok| |done]. unfold node_index. destruct (Mock.bf_v1 r); auto.
Qed.

(** C38: The router reads a node's result: its head and LIB, the block it is about and the
    one before, and which payloads it carries, whatever the payloads are. *)
Theorem node_result_read (r : Mock.BlockFields) :
  fields_ok r -> zlen (Mock.encode_blocks_result r) <= isize_max ->
  classify_upstream (Mock.encode_blocks_result r) = UBlocks (node_head r)
  /\ result_presence (Mock.encode_blocks_result r) (node_head r) = Ok (node_presence r).
Proof.
  intros Hr Hl. split; [by apply node_result_classified|].
  pose proof Hr as (_ & _ & _ & _ & Hb & _). rewrite encode_blocks_flat in Hl |- * by done.
  destruct (reads_presence r Hr) as [Hp _]. destruct (node_head_ok r Hr) as (_ & _ & _ & _ & _ & Hat).
  specialize (Hp (head_bytes (node_index r) (node_head r)) []). rewrite app_nil_r in Hp.
  unfold result_presence, Reader.new. rewrite Hat. cbn [node_head rh_v1]. by rewrite Hp.
Qed.

(** The length of a result, from those of its payloads. *)
Lemma varuint64_short v : is_u64 v -> zlen (Mock.encode_varuint64 v) <= 10.
Proof.
  intros Hv. unfold Mock.encode_varuint64. rewrite encode_loop_put by mlia.
  destruct (put_varuint32_loop_spec 10 [] v) as (xs & -> & _ & _ & Hl & _).
  { change (128 ^ Z.of_nat 10) with 1180591620717411303424. mlia. }
  { lia. }
  cbn [app]. lia.
Qed.

Lemma payload_short w data :
  payload_ok u32_max data -> zlen (payload_bytes w data) <= 11 + u32_max.
Proof.
  intros H. destruct data as [d|]; cbn [payload_bytes payload_ok] in *; [|cbn; mlia].
  pose proof (varuint64_short (zlen d) ltac:(mlia)). unfold Mock.encode_varuint32.
  destruct w; rewrite !length_app; cbn [length]; lia.
Qed.

Lemma result_short (r : Mock.BlockFields) :
  fields_ok r -> payload_ok u32_max (Mock.bf_traces r) -> payload_ok u32_max (Mock.bf_deltas r) ->
  payload_ok u32_max (Mock.bf_finality r) -> zlen (Mock.encode_blocks_result r) <= isize_max.
Proof.
  intros Hr Ht Hd Hf. pose proof Hr as (Hh & Hl & Hto & Hpo & Hb & _).
  rewrite encode_blocks_flat by done. unfold payloads, head_bytes, node_head.
  cbn [rh_head rh_lib this_block prev_block]. rewrite !length_app, !pos_bytes_length by done. cbn [length].
  pose proof (payload_short LU32 _ Hb). pose proof (payload_short LU64 _ Ht).
  pose proof (payload_short LU64 _ Hd). pose proof (payload_short LU64 _ Hf).
  assert (forall o, opt_ok o -> zlen (opt_bytes o) <= 37) as Ho.
  { intros [p|] Hp; cbn [opt_bytes length]; [rewrite pos_bytes_length by done|]; lia. }
  pose proof (Ho _ Hto). pose proof (Ho _ Hpo).
  destruct (Mock.bf_v1 r); cbn [length]; mlia.
Qed.

(** Made-up ids are ids. *)
Lemma fake_id_ok n seed : is_u8 seed -> length (Mock.fake_block_id_seeded n seed) = 32%nat
  /\ Forall is_u8 (Mock.fake_block_id_seeded n seed).
Proof.
  intros Hs. unfold Mock.fake_block_id_seeded, Mock.fake_block_id.
  rewrite take_app_length', drop_app_length' by (by rewrite length_le_bytes). split.
  - rewrite length_app, !length_map, length_le_bytes. done.
  - apply Forall_app. split; [apply le_bytes_u8|]. rewrite map_map. apply Forall_map, Forall_forall.
    intros i _. cbv beta. rewrite Z.land_ones with (n := 8) by lia.
    set (x := _ mod 2 ^ 8). assert (0 <= x < 2 ^ 8) by (by apply Z.mod_pos_bound).
    split; [apply Z.lxor_nonneg; mlia|]. apply Zlt_succ_le. change (Z.succ u8_max) with (2 ^ 8).
    destruct (decide (Z.lxor x seed = 0)) as [->|]; [done|].
    apply Z.log2_lt_pow2; [pose proof (proj2 (Z.lxor_nonneg x seed)); mlia|].
    eapply Z.le_lt_trans; [apply Z.log2_lxor; mlia|]. apply Z.max_lub_lt.
    + destruct (decide (x = 0)) as [->|]; [done|]. apply Z.log2_lt_pow2; lia.
    + destruct (decide (seed = 0)) as [->|]; [done|]. apply Z.log2_lt_pow2; mlia.
Qed.

(** The status of a node, as the router's own encoder takes it. *)
Definition node_status (s : Mock.NodeStatus) : StatusBody :=
  mkStatusBody (Mock.sf_head s) (Mock.sf_lib s) (Mock.sf_trace s) (Mock.sf_chain_state s)
    (Mock.sf_finality s) (Mock.sf_chain_id s).

(** The node and the router encode a status alike. *)
Lemma status_encoders_agree (v1 : bool) (s : Mock.NodeStatus) :
  Mock.encode_node_status v1 s = encode_status v1 (node_status s).
Proof.
  unfold Mock.encode_node_status, encode_status, put_pos, put_u32, Mock.encode_block_position.
  destruct v1, s; cbn -[app le_bytes]; rewrite <- ?app_assoc; done.
Qed.

(** ** Witnesses *)

Definition sample_message : list Z := encode_client (CBlocks sample_request).

Lemma sample_message_ok : message_ok sample_message.
Proof. split; [vm_compute; u8s|vm_compute; congruence]. Qed.

Lemma decoders_agree_witness :
  Mock.decode_request_strict sample_message = Ok (node_request (CBlocks sample_request)).
Proof.
  pose proof (decoders_agree sample_message sample_message_ok) as H.
  assert (decode_client sample_message = Ok (CBlocks sample_request)) as E by (vm_compute; reflexivity).
  rewrite E in H. exact H.
Defined.

Definition sample_fields : Mock.BlockFields :=
  Mock.mkBlockFields true (sample_pos 1000) (sample_pos 990) (Some (sample_pos 500)) (Some (sample_pos 499))
    None (Some [9; 9]) None (Some []).

Lemma sample_fields_ok : fields_ok sample_fields.
Proof. split_and!; try (apply sample_pos_ok; mlia); try exact I; vm_compute; congruence. Qed.

Lemma node_result_read_witness :
  classify_upstream (Mock.encode_blocks_result sample_fields) = UBlocks (node_head sample_fields)
  /\ node_presence sample_fields = mkPresence false true false true.
Proof.
  destruct (node_result_read sample_fields sample_fields_ok) as [H _]; [vm_compute; congruence|].
  split; [exact H|reflexivity].
Defined.
