(* ===== verification/MockServer.v ===== *)
(** * The mock node

    Models [src/mock-ship/src/clock.rs] and, of [src/mock-ship/src/server.rs], the
    configuration, the shared state and the Spring session: a node that serves one
    request at a time, by a cursor and a credit, from a chain that grows and forks.
    It is the upstream the router is tested against, and here the upstream the
    theorems on sessions ask for.

    A turn of the session's loop applies the clock's changes, then handles a message
    that waits, or sends what is due.  The clock is read once a turn, and once more
    after the delay before a block if one is configured; other tasks change it
    between.  The outcome of a write is an argument.  Counters a test may attach are
    kept where the configuration asks for them ([Some]).  The legacy session, the
    listening socket, the throttle and the handle of the tests are not modelled.

    The theorems: results of this node conform, in the sense the session actor's
    invariant asks of live upstreams, as long as it forks above its LIB, at blocks whose
    ids it knows, and its LIB does not pass a fork within the delay before a block in
    which the fork happened (a lemma shows that this is needed); and it sends no more
    results than its client allowed. *)

From S2P Require Import Prelude Wire Models Coverage View Planner Failover Link Client Status Stream.
From S2P Require Import SessionState SessionPlan SessionActor SessionLoop SessionInv SessionKept MockProtocol.

Module Node.

(** ** The chain clock *)

(** [tip] is head and LIB in one word; [forks] in the order they happened. *)
Record ChainClock := mkClock { tip : Z; forks : list (Z * Z); generation : Z }.

Definition pack (head lib : Z) : Z := Z.lor (Z.shiftl head 32) lib.

Definition clock_new (head lib : Z) (fork : option (Z * Z)) : ChainClock :=
  mkClock (pack head lib) (option_list fork) 0.

Definition clock_head (c : ChainClock) : Z := as_u32 (Z.shiftr (tip c) 32).
Definition clock_lib (c : ChainClock) : Z := as_u32 (tip c).

Definition clock_id (c : ChainClock) (n : Z) : list Z :=
  let seed := map_or 0 snd (List.find (fun f => fst f <=? n) (reverse (forks c))) in
  Mock.fake_block_id_seeded n seed.

Definition changed (c : ChainClock) : ChainClock := mkClock (tip c) (forks c) ((generation c + 1) mod 2 ^ 64).

Definition clock_set (head lib : Z) (c : ChainClock) : ChainClock :=
  changed (mkClock (pack head lib) (forks c) (generation c)).

Definition clock_advance (n : Z) (c : ChainClock) : ChainClock :=
  changed (mkClock (pack (sat_add u32_max (clock_head c) n) (sat_add u32_max (clock_lib c) n))
    (forks c) (generation c)).

Definition clock_fork (from seed : Z) (c : ChainClock) : ChainClock :=
  changed (mkClock (tip c) (forks c ++ [(from, seed)]) (generation c)).

Definition forks_since (seen : nat) (c : ChainClock) : list Z * nat :=
  (map fst (drop seen (forks c)), length (forks c)).

(** ** Configuration *)

Inductive Fidelity := Legacy | Spring | Eosio2.
Inductive EndOfRange := Unbounded | Hold.

(** [Oversized] with the replies before it, the bytes of the frame and the delay. *)
Inductive StatusFault := Ignore | Oversized (after_replies frame_bytes delay : Z).

#[export] Instance Fidelity_eq_dec : EqDecision Fidelity.
Proof. solve_decision. Defined.
#[export] Instance EndOfRange_eq_dec : EqDecision EndOfRange.
Proof. solve_decision. Defined.

Record MockShipConfig := mkConfig {
  head_block : Z;
  lib_block : Z;
  blocks_to_stream : Z;
  block_delay : option Z;
  disconnect_after : option Z;
  chain_id : list Z;
  block_data_size : Z;
  trace_begin_block : Z;
  trace_end_block : Z;
  status_fault : option StatusFault;
  emit_status_v1 : bool;
  finality_data_begin_block : Z;
  finality_data_end_block : Z;
  corrupt_block : option Z;
  hold_at_block : option Z;
  fidelity : Fidelity;
  chain_state_begin_block : option Z;
  chain_state_end_block : option Z;
  first_available_jump : bool;
  end_of_range : EndOfRange;
  close_at_block : option (Z * Z);
  skip_at_block : option Z;
  headonly_at_block : option Z;
  omit_traces_at_block : option Z;
  max_sessions : option Z;
  fork : option (Z * Z);
  no_block_log : bool;
  omit_chain_id : bool;
}.

Definition default_config : MockShipConfig :=
  mkConfig 1000 990 100 None None (repeat 0 32) 0 1 0 None false 0 0 None None Legacy None None false
    Unbounded None None None None None None false false.

(** A frozen range server for [[begin, end_excl)]. *)
Definition frozen (begin end_excl : Z) : MockShipConfig :=
  let last := sat_sub end_excl 1 in
  mkConfig last last 0 None None (repeat 0 32) 0 begin end_excl None false 0 0 None None Spring None None
    false Hold None None None None None None false false.

(** A live node from [begin] on. *)
Definition live (begin head : Z) : MockShipConfig :=
  mkConfig head (sat_sub head 10) 0 None None (repeat 0 32) 0 begin 0 None false 0 0 None None Spring None
    None false Unbounded None None None None None None false false.

Record Ranges := mkRanges { trace : Range; chain_state : Range; finality : Range }.

Definition ranges (config : MockShipConfig) (head : Z) : Ranges :=
  let trace_end := if 0 <? trace_end_block config then trace_end_block config else sat_add u32_max head 1 in
  let trace := mkRange (trace_begin_block config) trace_end in
  let chain_state := mkRange (default (rbegin trace) (chain_state_begin_block config))
    (default (rend trace) (chain_state_end_block config)) in
  let b := finality_data_begin_block config in
  let e := finality_data_end_block config in
  let finality :=
    if (b =? 0) && (e =? 0) then mkRange 0 0
    else if e =? 0 then mkRange b (sat_add u32_max head 1)
    else mkRange b e in
  mkRanges trace chain_state finality.

Definition range_has (range : Range) (n : Z) : bool := (rbegin range <=? n) && (n <? rend range).

Definition non_empty (r : Range) : bool := rbegin r <? rend r.

Definition id_begin (r : Ranges) : Z :=
  default (rbegin (trace r)) (min_list (map rbegin (List.filter non_empty [trace r; chain_state r]))).

Definition id_known (r : Ranges) (n head : Z) : bool := (id_begin r <=? n) && (n <=? head).

Definition served_end (r : Ranges) : Z :=
  default 0 (max_list (map rend (List.filter non_empty [trace r; chain_state r; finality r]))).

(** ** The shared state of a server *)

Inductive Observed :=
| Accepted (session : Z)
| ObStatus (session : Z) (v1 : bool)
| ObBlocks (session : Z) (v1 : bool) (start end_ max_in_flight : Z) (have_positions : list BlockPos)
    (irreversible_only fetch_block fetch_traces fetch_deltas fetch_finality_data : bool)
| ObAck (session n : Z)
| ObUnknown (session variant : Z).

(** The counters a test attached. *)
Record Hits := mkHits {
  status_requests : option Z;
  max_status_per_session : option Z;
  corrupt_hits : option Z;
  hold_hits : option Z;
}.

Record NodeShared := mkNodeShared {
  config : MockShipConfig;
  clock : ChainClock;
  log : list Observed;
  accepted : Z;
  active : Z;
  hits : Hits;
}.

Definition shared_new (config : MockShipConfig) (hits : Hits) : NodeShared :=
  mkNodeShared config (clock_new (head_block config) (lib_block config) (fork config)) [] 0 0 hits.

Definition record (o : Observed) (sh : NodeShared) : NodeShared :=
  mkNodeShared (config sh) (clock sh) (log sh ++ [o]) (accepted sh) (active sh) (hits sh).

Definition set_hits (h : Hits) (sh : NodeShared) : NodeShared :=
  mkNodeShared (config sh) (clock sh) (log sh) (accepted sh) (active sh) h.

Definition set_clock (c : ChainClock) (sh : NodeShared) : NodeShared :=
  mkNodeShared (config sh) c (log sh) (accepted sh) (active sh) (hits sh).

(** Take a [max_sessions] slot. *)
Definition take_slot (sh : NodeShared) : bool * NodeShared :=
  let max := default u32_max (max_sessions (config sh)) in
  if active sh <? max
  then (true, mkNodeShared (config sh) (clock sh) (log sh) (accepted sh) (active sh + 1) (hits sh))
  else (false, sh).

(** The drop of a [Slot]. *)
Definition release_slot (sh : NodeShared) : NodeShared :=
  mkNodeShared (config sh) (clock sh) (log sh) (accepted sh) (active sh - 1) (hits sh).

Definition clock_pos (c : ChainClock) (n : Z) : BlockPos := mkPos n (clock_id c n).

Definition status_fields (spring : bool) (sh : NodeShared) : Mock.NodeStatus :=
  let c := clock sh in
  let rs := ranges (config sh) (clock_head c) in
  Mock.mkNodeStatus (clock_pos c (clock_head c)) (clock_pos c (clock_lib c)) (trace rs) (chain_state rs)
    (chain_id (config sh))
    (if spring then finality rs
     else mkRange (finality_data_begin_block (config sh)) (finality_data_end_block (config sh))).

Definition observe_status (session_status : Z) (sh : NodeShared) : NodeShared :=
  let h := hits sh in
  set_hits (mkHits (option_map (fun n => n + 1) (status_requests h))
    (option_map (fun n => Z.max n session_status) (max_status_per_session h)) (corrupt_hits h) (hold_hits h)) sh.

Definition corrupt_hit (sh : NodeShared) : NodeShared :=
  let h := hits sh in
  set_hits (mkHits (status_requests h) (max_status_per_session h)
    (option_map (fun n => n + 1) (corrupt_hits h)) (hold_hits h)) sh.

Definition hold_hit (sh : NodeShared) : NodeShared :=
  let h := hits sh in
  set_hits (mkHits (status_requests h) (max_status_per_session h) (corrupt_hits h)
    (option_map (fun n => n + 1) (hold_hits h))) sh.

(** ** The Spring session *)

Record GetBlocks := mkGet {
  g_v1 : bool;
  g_start : Z;
  g_end : Z;
  g_max_in_flight : Z;
  g_have_positions : list BlockPos;
  g_irreversible_only : bool;
  g_fetch_block : bool;
  g_fetch_traces : bool;
  g_fetch_deltas : bool;
  g_fetch_finality_data : bool;
}.

Definition from_request (request : Mock.ShipRequest) : option GetBlocks :=
  match request with
  | Mock.GetBlocksV0 s e m ps irr fb ft fd => Some (mkGet false s e m ps irr fb ft fd false)
  | Mock.GetBlocksV1 s e m ps irr fb ft fd ff => Some (mkGet true s e m ps irr fb ft fd ff)
  | _ => None
  end.

Definition observed (session : Z) (g : GetBlocks) : Observed :=
  ObBlocks session (g_v1 g) (g_start g) (g_end g) (g_max_in_flight g) (g_have_positions g)
    (g_irreversible_only g) (g_fetch_block g) (g_fetch_traces g) (g_fetch_deltas g) (g_fetch_finality_data g).

Record Current := mkCurrent {
  cu_v1 : bool;
  cu_end : Z;
  cu_irreversible_only : bool;
  cu_fetch_block : bool;
  cu_fetch_traces : bool;
  cu_fetch_deltas : bool;
  cu_fetch_finality_data : bool;
}.

Inductive Due := DueBlock (n : Z) | KeepAlive.

Record SpringSession := mkSession {
  session : Z;
  eosio2 : bool;
  current : option Current;
  cursor : Z;
  credit : Z;
  blocks_sent : Z;
  keepalive_due : bool;
  held : bool;
  seen_generation : Z;
  seen_forks : nat;
  status_seen : Z;
  status_replies : Z;
}.

Definition session_new (sh : NodeShared) (session : Z) : SpringSession :=
  mkSession session (bool_decide (fidelity (config sh) = Eosio2)) None 0 0 0 false false
    (generation (clock sh)) (forks_since 0 (clock sh)).2 0 0.

(** The fork points in turn: a cursor past one goes back to it. *)
Definition rewind (cursor : Z) (fork_points : list Z) : Z :=
  foldl (fun cursor from => if from <? cursor then from else cursor) cursor fork_points.

Definition sync_clock (c : ChainClock) (s : SpringSession) : SpringSession :=
  if generation c =? seen_generation s then s
  else
    let '(fork_points, total) := forks_since (seen_forks s) c in
    mkSession (session s) (eosio2 s) (current s) (rewind (cursor s) fork_points) (credit s) (blocks_sent s)
      (is_some (current s) || keepalive_due s) (held s) (generation c) total (status_seen s) (status_replies s).

Definition next_due (sh : NodeShared) (s : SpringSession) : option Due :=
  match current s with
  | None => None
  | Some cur =>
      if credit s =? 0 then None
      else
        let cfg := config sh in
        let head := clock_head (clock sh) in
        let gate := if cu_irreversible_only cur then clock_lib (clock sh) else head in
        if (cursor s <=? gate) && (cursor s <? cu_end cur) then
          let capped :=
            (negb (blocks_to_stream cfg =? 0) && (blocks_to_stream cfg <=? blocks_sent s))
            || (bool_decide (end_of_range cfg = Hold) && (served_end (ranges cfg head) <=? cursor s)) in
          if capped then None else Some (DueBlock (cursor s))
        else if eosio2 s && keepalive_due s then Some KeepAlive else None
  end.

(** What is handed to the socket. *)
Inductive NodeFrame := FAbi | FBinary (bytes : list Z) | FClose (code : option Z).

(** Whether the session goes on, what it wrote, the shared state and its own. *)
Abbreviation SessionOutcome := (bool * list NodeFrame * NodeShared * SpringSession)%type.

Definition set_status (seen replies : Z) (s : SpringSession) : SpringSession :=
  mkSession (session s) (eosio2 s) (current s) (cursor s) (credit s) (blocks_sent s) (keepalive_due s)
    (held s) (seen_generation s) (seen_forks s) seen replies.

Definition set_credit (credit : Z) (s : SpringSession) : SpringSession :=
  mkSession (session s) (eosio2 s) (current s) (cursor s) credit (blocks_sent s) (keepalive_due s)
    (held s) (seen_generation s) (seen_forks s) (status_seen s) (status_replies s).

Definition on_status (v1 write_ok : bool) (sh : NodeShared) (s : SpringSession) : SessionOutcome :=
  let cfg := config sh in
  let sh := record (ObStatus (session s) v1) sh in
  let s := set_status (status_seen s + 1) (status_replies s) s in
  let sh := observe_status (status_seen s) sh in
  if eosio2 s && v1 then (false, [], sh, s)
  else
    match status_fault cfg with
    | Some Ignore => (true, [], sh, s)
    | fault =>
        let reply := Mock.encode_node_status v1 (status_fields true sh) in
        let reply := if negb v1 && omit_chain_id cfg then take (length reply - 32) reply else reply in
        if negb write_ok then (false, [], sh, s)
        else
          let s := set_status (status_seen s) (status_replies s + 1) s in
          match fault with
          | Some (Oversized after_replies frame_bytes _) =>
              if after_replies <=? status_replies s
              then (false, [FBinary reply; FBinary (repeat 0xFF (Z.to_nat frame_bytes))], sh, s)
              else (true, [FBinary reply], sh, s)
          | _ => (true, [FBinary reply], sh, s)
          end
    end.

(** The start of a request: a position below it that the node does not have moves it
    down. *)
Definition start_from (rs : Ranges) (c : ChainClock) (head start : Z) (ps : list BlockPos) : Z :=
  foldl (fun start p =>
    if start <=? num p then start
    else if negb (id_known rs (num p) head) || negb (bool_decide (clock_id c (num p) = block_id p))
    then num p else start) start ps.

Definition on_blocks (get : GetBlocks) (sh : NodeShared) (s : SpringSession) : bool * NodeShared * SpringSession :=
  let sh := record (observed (session s) get) sh in
  if eosio2 s && g_v1 get then (false, sh, s)
  else
    let head := clock_head (clock sh) in
    let rs := ranges (config sh) head in
    let start := start_from rs (clock sh) head (g_start get) (g_have_positions get) in
    let start := if first_available_jump (config sh) then Z.max start (id_begin rs) else start in
    let cur := mkCurrent (g_v1 get) (g_end get) (g_irreversible_only get) (g_fetch_block get)
      (g_fetch_traces get) (g_fetch_deltas get) (g_fetch_finality_data get) in
    (true, sh, mkSession (session s) (eosio2 s) (Some cur) start (g_max_in_flight get) 0 true (held s)
       (seen_generation s) (seen_forks s) (status_seen s) (status_replies s)).

(** What the socket yields: a message, or its end. *)
Inductive NodeItem := IBinary (data : list Z) | IClose | IOther | IEnd.

Definition on_item (item : NodeItem) (write_ok : bool) (sh : NodeShared) (s : SpringSession) : SessionOutcome :=
  match item with
  | IClose | IEnd => (false, [], sh, s)
  | IOther => (true, [], sh, s)
  | IBinary data =>
      match Mock.decode_request_strict data with
      | Err _ =>
          let variant := match data with [] => u32_max | _ => (Mock.decode_varuint32 data).1 end in
          (false, [], record (ObUnknown (session s) variant) sh, s)
      | Ok Mock.GetStatusV0 => on_status false write_ok sh s
      | Ok Mock.GetStatusV1 => on_status true write_ok sh s
      | Ok (Mock.GetBlocksAckV0 n) =>
          (true, [], record (ObAck (session s) n) sh, set_credit (Mock.wrapping_add (credit s) n) s)
      | Ok (Mock.Unknown variant) => (false, [], record (ObUnknown (session s) variant) sh, s)
      | Ok blocks =>
          match from_request blocks with
          | Some get => let '(go, sh, s) := on_blocks get sh s in (go, [], sh, s)
          | None => (false, [], sh, s)
          end
      end
  end.

(** A payload: present when it is wanted of a block the node knows. *)
Definition payload (known : bool) (num size offset : Z) (wanted : bool) : option (list Z) :=
  if known && wanted then Some (Mock.generate_fake_data (Mock.wrapping_add num offset) size) else None.

Definition block_fields (cfg : MockShipConfig) (c : ChainClock) (cur : Current) (num : Z) (idless : bool)
    : Mock.BlockFields :=
  let head := clock_head c in
  let lib := clock_lib c in
  let rs := ranges cfg head in
  let known := negb idless && id_known rs num head in
  let size := Z.max (block_data_size cfg) 4 in
  let payload := payload known num size in
  Mock.mkBlockFields (cu_v1 cur) (clock_pos c head) (clock_pos c lib)
    (if known then Some (clock_pos c num) else None)
    (if known && (1 <? num) && negb (no_block_log cfg && (num =? id_begin rs))
     then Some (clock_pos c (num - 1)) else None)
    (payload 0 (cu_fetch_block cur && negb (no_block_log cfg)))
    (payload 1000 (cu_fetch_traces cur && range_has (trace rs) num
       && negb (bool_decide (omit_traces_at_block cfg = Some num))))
    (payload 2000 (cu_fetch_deltas cur && range_has (chain_state rs) num))
    (payload 3000 (cu_v1 cur && cu_fetch_finality_data cur && range_has (finality rs) num)).

Definition block_frame (cfg : MockShipConfig) (c : ChainClock) (cur : Current) (num : Z) (idless : bool)
    : list Z :=
  Mock.encode_blocks_result (block_fields cfg c cur num idless).

Definition keepalive_fields (c : ChainClock) : Mock.BlockFields :=
  Mock.mkBlockFields false (clock_pos c (clock_head c)) (clock_pos c (clock_lib c)) None None None None None None.

Definition keepalive_frame (c : ChainClock) : list Z := Mock.encode_blocks_result (keepalive_fields c).

(** The session after a result for [num], one credit less. *)
Definition after_block (num : Z) (s : SpringSession) : SpringSession :=
  mkSession (session s) (eosio2 s) (current s) (sat_add u32_max num 1) (credit s - 1)
    ((blocks_sent s + 1) mod 2 ^ 32) false (held s) (seen_generation s) (seen_forks s) (status_seen s)
    (status_replies s).

Definition after_keepalive (s : SpringSession) : SpringSession :=
  mkSession (session s) (eosio2 s) (current s) (cursor s) (credit s - 1) (blocks_sent s) false (held s)
    (seen_generation s) (seen_forks s) (status_seen s) (status_replies s).

Definition set_held (s : SpringSession) : SpringSession :=
  mkSession (session s) (eosio2 s) (current s) (cursor s) 0 (blocks_sent s) (keepalive_due s) true
    (seen_generation s) (seen_forks s) (status_seen s) (status_replies s).

(** [send] of what is due under the request [cur]; [later] is the clock after the
    delay before a block. *)
Definition send (d : Due) (cur : Current) (later : ChainClock) (write_ok : bool) (sh : NodeShared)
    (s : SpringSession) : SessionOutcome :=
  let cfg := config sh in
  match d with
  | KeepAlive =>
      (write_ok, if write_ok then [FBinary (keepalive_frame (clock sh))] else [], sh, after_keepalive s)
  | DueBlock n =>
      if is_some_and (fun limit => limit <=? blocks_sent s) (disconnect_after cfg) then (false, [], sh, s)
      else if bool_decide (corrupt_block cfg = Some n) then (false, [], corrupt_hit sh, s)
      else
        match (if is_some_and (fun at_code => fst at_code =? n) (close_at_block cfg)
               then option_map snd (close_at_block cfg) else None) with
        | Some code => (false, if write_ok then [FClose (Some code)] else [], sh, s)
        | None =>
            if bool_decide (hold_at_block cfg = Some n) then
              (true, [], if held s then sh else hold_hit sh, set_held s)
            else
              let sh := if is_some (block_delay cfg) then set_clock later sh else sh in
              let '(num, idless) :=
                if bool_decide (skip_at_block cfg = Some n) then (sat_add u32_max n 1, false)
                else (n, bool_decide (headonly_at_block cfg = Some n)) in
              if negb write_ok then (false, [], sh, s)
              else (true, [FBinary (block_frame cfg (clock sh) cur num idless)], sh, after_block num s)
        end
  end.

(** One turn of [run]: the clock's changes first, then a clean close that was asked
    for; a message that waits goes before what is due. *)
Definition turn (close_requested : bool) (waiting : option NodeItem) (later : ChainClock) (write_ok : bool)
    (sh : NodeShared) (s : SpringSession) : SessionOutcome :=
  let s := sync_clock (clock sh) s in
  if close_requested then (false, if write_ok then [FClose None] else [], sh, s)
  else
    match waiting, next_due sh s, current s with
    | Some item, _, _ => on_item item write_ok sh s
    | None, Some d, Some cur => send d cur later write_ok sh s
    | None, _, _ => (true, [], sh, s)
    end.

(** [run_session] up to the loop: the session is numbered, recorded, and sends the
    ABI. *)
Definition run_session (write_ok : bool) (sh : NodeShared) : SessionOutcome :=
  let number := (accepted sh + 1) mod 2 ^ 32 in
  let sh := mkNodeShared (config sh) (clock sh) (log sh ++ [Accepted number]) number (active sh) (hits sh) in
  (write_ok, if write_ok then [FAbi] else [], sh, session_new sh number).

End Node.

(** ** The clock *)

Section tip.
Context (head lib : Z) (Hh : is_u32 head) (Hl : is_u32 lib).

Lemma pack_value : Node.pack head lib = lib + head * 2 ^ 32.
Proof. unfold Node.pack. rewrite Z.lor_comm, lor_shiftl_add; mlia. Qed.

Lemma packed_head fs g : Node.clock_head (Node.mkClock (Node.pack head lib) fs g) = head.
Proof.
  unfold Node.clock_head, as_u32. cbn [Node.tip]. rewrite pack_value, Z.shiftr_div_pow2 by lia.
  rewrite Z.div_add, (Z.div_small lib), Z.mod_small by mlia. lia.
Qed.

Lemma packed_lib fs g : Node.clock_lib (Node.mkClock (Node.pack head lib) fs g) = lib.
Proof. unfold Node.clock_lib, as_u32. cbn [Node.tip]. rewrite pack_value, Z.mod_add, Z.mod_small by mlia. done. Qed.

End tip.

Lemma clock_head_u32 c : is_u32 (Node.clock_head c).
Proof. pose proof (Z.mod_pos_bound (Z.shiftr (Node.tip c) 32) (2 ^ 32) eq_refl). unfold Node.clock_head, as_u32. mlia. Qed.

Lemma clock_lib_u32 c : is_u32 (Node.clock_lib c).
Proof. pose proof (Z.mod_pos_bound (Node.tip c) (2 ^ 32) eq_refl). unfold Node.clock_lib, as_u32. mlia. Qed.

(** The chain grows: its LIB does not go back and stays at or below the head. *)
Inductive grows : Node.ChainClock -> Node.ChainClock -> Prop :=
| gr_set head lib c :
    is_u32 head -> is_u32 lib -> Node.clock_lib c <= lib <= head -> Node.generation c < u64_max ->
    grows c (Node.clock_set head lib c)
| gr_advance n c : is_u32 n -> Node.generation c < u64_max -> grows c (Node.clock_advance n c).

(** The node knows ids from [n] on. *)
Definition known_from (cfg : Node.MockShipConfig) (n : Z) : Prop :=
  forall head, is_u32 head -> Node.id_begin (Node.ranges cfg head) <= n.

(** The chain grows, or forks at a block above the LIB whose id the node knows. *)
Inductive chain_change (cfg : Node.MockShipConfig) : Node.ChainClock -> Node.ChainClock -> Prop :=
| cc_grow c c' : grows c c' -> chain_change cfg c c'
| cc_fork from seed c :
    is_u32 from -> is_u8 seed -> Node.clock_lib c < from -> known_from cfg from ->
    Node.generation c < u64_max -> chain_change cfg c (Node.clock_fork from seed c).

(** A clock as the chain leaves it. *)
Definition clock_ok (c : Node.ChainClock) : Prop :=
  Node.clock_lib c <= Node.clock_head c /\ 0 <= Node.generation c
  /\ Forall (fun f => is_u32 (fst f) /\ is_u8 (snd f)) (Node.forks c).

Lemma changed_generation c : 0 <= Node.generation c < u64_max ->
  Node.generation (Node.changed c) = Node.generation c + 1.
Proof. intros H. unfold Node.changed. cbn [Node.generation]. rewrite Z.mod_small; [done|]. mlia. Qed.

Lemma grows_spec c c' :
  grows c c' -> clock_ok c ->
  clock_ok c' /\ Node.clock_lib c <= Node.clock_lib c' /\ Node.forks c' = Node.forks c
  /\ Node.generation c' = Node.generation c + 1.
Proof.
  pose proof (clock_head_u32 c). pose proof (clock_lib_u32 c).
  destruct 1 as [head lib c Hh Hl Hle Hg|n c Hn Hg]; intros (Hlh & Hg0 & Hf).
  - unfold clock_ok, Node.clock_set. rewrite changed_generation by (cbn; lia).
    unfold Node.changed. cbn [Node.generation Node.forks Node.tip]. rewrite !packed_head, !packed_lib by done.
    split_and!; try done; lia.
  - unfold clock_ok, Node.clock_advance. rewrite changed_generation by (cbn; lia).
    unfold Node.changed. cbn [Node.generation Node.forks Node.tip].
    rewrite !packed_head, !packed_lib by mlia. split_and!; try done; mlia.
Qed.

(** What changes the chain during the delay before a block: as between turns, but the
    LIB does not pass a fork point in the same delay. *)
Definition delay_change (cfg : Node.MockShipConfig) (c later : Node.ChainClock) : Prop :=
  rtc (chain_change cfg) c later
  /\ Forall (fun f => Node.clock_lib later < fst f) (drop (length (Node.forks c)) (Node.forks later)).

Lemma delay_refl cfg c : delay_change cfg c c.
Proof. split; [apply rtc_refl|]. by rewrite drop_all. Qed.

Lemma change_spec cfg c c' :
  chain_change cfg c c' -> clock_ok c ->
  clock_ok c' /\ Node.clock_lib c <= Node.clock_lib c' /\ Node.generation c' = Node.generation c + 1
  /\ exists new, Node.forks c' = Node.forks c ++ new
       /\ Forall (fun f => known_from cfg (fst f) /\ Node.clock_lib c < fst f) new.
Proof.
  destruct 1 as [c0 c1 Hgr|from seed c0 Hfu Hsu Hab Hkn Hgl]; intros Hc.
  - destruct (grows_spec _ _ Hgr Hc) as (? & ? & -> & ?). split_and!; [done..|].
    exists []. by rewrite app_nil_r.
  - destruct Hc as (Hlh & Hg0 & Hfs).
    assert (Node.generation (Node.clock_fork from seed c0) = Node.generation c0 + 1) as Hgen
      by (apply (changed_generation (Node.mkClock (Node.tip c0) (Node.forks c0 ++ [(from, seed)]) (Node.generation c0))); cbn; lia).
    split_and!; [split_and!; [done|rewrite Hgen; lia|]|done|done|].
    + apply Forall_app. by split; [|constructor].
    + exists [(from, seed)]. split; [done|]. by constructor.
Qed.

Lemma changes_spec cfg c c' :
  rtc (chain_change cfg) c c' -> clock_ok c ->
  clock_ok c' /\ Node.clock_lib c <= Node.clock_lib c' /\ Node.generation c <= Node.generation c'
  /\ (c' = c \/ Node.generation c < Node.generation c')
  /\ exists new, Node.forks c' = Node.forks c ++ new /\ Forall (fun f => known_from cfg (fst f)) new.
Proof.
  induction 1 as [c|c c1 c2 H1 _ IH]; intros Hc.
  { split_and!; auto; [lia|lia|]. exists []. by rewrite app_nil_r. }
  apply change_spec in H1 as (Hok & Hl & Hg & new & Hf & Hn); [|done].
  destruct (IH Hok) as (? & ? & ? & ? & new' & Hf' & Hn'). split_and!; [done|lia|lia|right; lia|].
  exists (new ++ new'). rewrite app_assoc, <- Hf. split; [done|]. apply Forall_app. split; [|done].
  eapply Forall_impl; [exact Hn|]. by intros f [? _].
Qed.

Lemma clock_pos_ok c n : clock_ok c -> is_u32 n -> pos_ok (Node.clock_pos c n).
Proof.
  intros (_ & _ & Hf) Hn. unfold Node.clock_pos, pos_ok. cbn [num block_id]. split; [done|].
  apply fake_id_ok. destruct (List.find _ _) as [[from seed]|] eqn:E; cbn; [|mlia].
  apply List.find_some in E as [E _]. apply list_elem_of_In in E; rewrite elem_of_reverse in E.
  rewrite Forall_forall in Hf. by apply Hf in E as [_ ?].
Qed.

(** ** Results, as the router reads them *)

Lemma fake_data_length n size : 4 <= size -> zlen (Mock.generate_fake_data n size) = size.
Proof.
  intros Hs. unfold Mock.generate_fake_data. rewrite (proj2 (Z.leb_le _ _)) by done.
  rewrite length_app, length_le_bytes, length_drop, repeat_length. lia.
Qed.

Lemma payload_len known n size offset wanted :
  4 <= size <= u32_max -> payload_ok u32_max (Node.payload known n size offset wanted).
Proof.
  intros Hs. unfold Node.payload. destruct (_ && _); [|done]. cbn [payload_ok].
  rewrite fake_data_length by lia. lia.
Qed.

Lemma block_read cfg c cur n idless :
  clock_ok c -> is_u32 n -> Node.block_data_size cfg <= u32_max ->
  classify_upstream (Node.block_frame cfg c cur n idless)
  = UBlocks (node_head (Node.block_fields cfg c cur n idless)).
Proof.
  intros Hc Hn Hs. assert (4 <= Z.max (Node.block_data_size cfg) 4 <= u32_max) as Hz by mlia.
  assert (forall known n offset wanted, let p := Node.payload known n (Z.max (Node.block_data_size cfg) 4) offset wanted in
    payload_ok u32_max p /\ payload_ok isize_max p) as Hp.
  { intros known m offset wanted p. pose proof (payload_len known m _ offset wanted Hz) as H.
    split; [done|]. fold p in H. destruct p; [cbn in *; mlia|done]. }
  assert (fields_ok (Node.block_fields cfg c cur n idless)) as Hf.
  { unfold fields_ok, Node.block_fields.
    cbn [Mock.bf_head Mock.bf_lib Mock.bf_this_block Mock.bf_prev_block Mock.bf_block Mock.bf_traces
      Mock.bf_deltas Mock.bf_finality]. split_and!; try apply Hp.
    - by apply clock_pos_ok, clock_head_u32.
    - by apply clock_pos_ok, clock_lib_u32.
    - destruct (_ && _); [|done]. by apply clock_pos_ok.
    - destruct (_ && _ && _) eqn:E; [|done]. bools. apply clock_pos_ok; [done|]. mlia. }
  apply node_result_classified; [done|]. apply result_short; [done|apply Hp..].
Qed.

Lemma keepalive_read c :
  clock_ok c -> classify_upstream (Node.keepalive_frame c) = UBlocks (node_head (Node.keepalive_fields c)).
Proof.
  intros Hc. assert (fields_ok (Node.keepalive_fields c)) as Hf.
  { unfold fields_ok. cbn. split_and!; try done; apply clock_pos_ok; try done.
    - apply clock_head_u32.
    - apply clock_lib_u32. }
  apply node_result_classified; [done|]. by apply result_short.
Qed.

(** A status reply is not a result. *)
Lemma status_not_result v1 s b h :
  b = Mock.encode_node_status v1 s \/ b = take (length (Mock.encode_node_status v1 s) - 32) (Mock.encode_node_status v1 s) ->
  classify_upstream b <> UBlocks h.
Proof.
  intros Hb. rewrite status_encoders_agree in Hb. revert Hb. generalize (node_status s) as r. intros r Hb.
  assert (b = [] \/ exists rest, b = (if v1 then RES_STATUS_V1 else RES_STATUS_V0) :: rest) as [->|[rest ->]].
  { destruct v1; unfold encode_status, put_u32, put_pos in Hb; cbn [app] in Hb;
      (destruct Hb as [-> | ->]; [right; by eexists|]);
      match goal with |- context [take ?k _] => destruct k as [|k'] end; [by left|right; by eexists|by left|right; by eexists]. }
  { done. }
  unfold classify_upstream. destruct v1; unfold RES_STATUS_V1, RES_STATUS_V0, RES_BLOCKS_V0, RES_BLOCKS_V1;
    cbn [Z.eqb Pos.eqb andb orb]; case_match; done.
Qed.

(** ** A session and the link it serves *)

(** What the router's link remembers after a result, as [advanced] keeps it. *)
Definition link_after (h : ResultHead) (lk : LinkKey) : LinkKey :=
  match lk_req lk with
  | None => lk
  | Some r =>
      let cls := classify_result h (lk_cursor lk) r in
      mkLinkKey (lk_role lk) (lk_req lk)
        (match cl_advance cls, cl_n cls with
         | true, Some n => Exact (sat_add u32_max n 1)
         | _, _ => lk_cursor lk
         end) (lk_linger lk) (Some (rh_lib h))
  end.

Lemma link_after_advanced k h lk r :
  lk_req lk = Some r ->
  k_link (advanced k lk h (classify_result h (lk_cursor lk) r)) = Some (link_after h lk).
Proof.
  intros Hr. unfold advanced, link_after. rewrite Hr.
  by destruct (classify_result _ _ _) as [[n|] [] kind].
Qed.

Definition results (frames : list Node.NodeFrame) : list ResultHead :=
  omap (fun f => match f with
    | Node.FBinary b => match classify_upstream b with UBlocks h => Some h | _ => None end
    | _ => None
    end) frames.

(** The node's session, what the link that reads it remembers, the results sent for the
    current request and those the client allowed. *)
Record NodeWorld := mkNodeWorld {
  w_sh : Node.NodeShared;
  w_s : Node.SpringSession;
  w_link : LinkKey;
  w_sent : Z;
  w_granted : Z;
}.

Definition get_of (waiting : option Node.NodeItem) : option Node.GetBlocks :=
  match waiting with
  | Some (Node.IBinary data) =>
      match Mock.decode_request_strict data with Ok q => Node.from_request q | Err _ => None end
  | _ => None
  end.

Definition acked (waiting : option Node.NodeItem) : Z :=
  match waiting with
  | Some (Node.IBinary data) =>
      match Mock.decode_request_strict data with Ok (Mock.GetBlocksAckV0 n) => n | _ => 0 end
  | _ => 0
  end.

(** What the types of a request enforce. *)
Definition get_ok (g : Node.GetBlocks) : Prop :=
  is_u32 (Node.g_start g) /\ is_u32 (Node.g_end g) /\ is_u32 (Node.g_max_in_flight g)
  /\ Forall (fun p => is_u32 (num p)) (Node.g_have_positions g).

(** The link of a request: its end and gate are the request's, the LIB it has seen
    stays; it knows where the node starts, or does not say. *)
Definition link_requested (g : Node.GetBlocks) (start : Z) (lk lk' : LinkKey) : Prop :=
  lk_lib lk' = lk_lib lk
  /\ (exists r, lk_req lk' = Some r /\ lr_end r = Node.g_end g
        /\ lr_irreversible_only r = Node.g_irreversible_only g)
  /\ forall u, lk_cursor lk' = Exact u -> u <= start.

(** The steps of a session that goes on: a turn without a new request, one with it, and
    a change of the chain between turns. *)
Inductive node_step (cfg : Node.MockShipConfig) : NodeWorld -> NodeWorld -> Prop :=
| ns_turn waiting later write_ok w frames sh s :
    get_of waiting = None -> 0 <= acked waiting -> delay_change cfg (Node.clock (w_sh w)) later ->
    Node.turn false waiting later write_ok (w_sh w) (w_s w) = (true, frames, sh, s) ->
    node_step cfg w (mkNodeWorld sh s (foldl (fun lk h => link_after h lk) (w_link w) (results frames))
      (w_sent w + zlen (results frames)) (w_granted w + acked waiting))
| ns_request waiting g later write_ok w frames sh s lk :
    get_of waiting = Some g -> get_ok g ->
    Node.turn false waiting later write_ok (w_sh w) (w_s w) = (true, frames, sh, s) ->
    link_requested g (Node.cursor s) (w_link w) lk ->
    node_step cfg w (mkNodeWorld sh s lk 0 (Node.g_max_in_flight g))
| ns_chain w c :
    chain_change cfg (Node.clock (w_sh w)) c ->
    node_step cfg w (mkNodeWorld (Node.set_clock c (w_sh w)) (w_s w) (w_link w) (w_sent w) (w_granted w)).

(** A new session on a new link. *)
Definition opened (cfg : Node.MockShipConfig) (w : NodeWorld) : Prop :=
  exists hits write_ok frames,
    Node.run_session write_ok (Node.shared_new cfg hits) = (true, frames, w_sh w, w_s w)
    /\ lk_lib (w_link w) = None /\ w_sent w = 0 /\ w_granted w = 0.

(** A configuration without the faults that leave out blocks or ids, over a chain whose
    LIB is not past its head. *)
Definition sound_config (cfg : Node.MockShipConfig) : Prop :=
  is_u32 (Node.head_block cfg) /\ is_u32 (Node.lib_block cfg) /\ Node.lib_block cfg <= Node.head_block cfg
  /\ is_u32 (Node.trace_begin_block cfg) /\ map_or True is_u32 (Node.chain_state_begin_block cfg)
  /\ map_or True (fun f => is_u32 (fst f) /\ is_u8 (snd f)) (Node.fork cfg)
  /\ Node.block_data_size cfg <= u32_max
  /\ Node.skip_at_block cfg = None /\ Node.headonly_at_block cfg = None.

(** ** The invariant *)

(** The cursor of the node and what the link remembers: the node is at or past the
    block the link expects, or went back to a block above every LIB it has reported. *)
Definition in_track (cfg : Node.MockShipConfig) (end_ cursor : Z) (lk : LinkKey) : Prop :=
  forall u, lk_cursor lk = Exact u -> cursor < end_ ->
    u <= cursor \/ (known_from cfg cursor /\ forall lib, lk_lib lk = Some lib -> num lib < cursor).

Definition request_matches (cur : Node.Current) (lk : LinkKey) : Prop :=
  exists r, lk_req lk = Some r /\ lr_end r = Node.cu_end cur
    /\ lr_irreversible_only r = Node.cu_irreversible_only cur.

(** A fork the session has not seen is above every LIB reported, at a known block. *)
Definition fork_above (cfg : Node.MockShipConfig) (lk : LinkKey) (f : Z * Z) : Prop :=
  known_from cfg (fst f) /\ forall lib, lk_lib lk = Some lib -> num lib < fst f.

Record node_inv (cfg : Node.MockShipConfig) (w : NodeWorld) : Prop := {
  ni_config : Node.config (w_sh w) = cfg;
  ni_clock : clock_ok (Node.clock (w_sh w));
  ni_generation : Node.seen_generation (w_s w) <= Node.generation (Node.clock (w_sh w));
  ni_synced : Node.seen_generation (w_s w) = Node.generation (Node.clock (w_sh w)) ->
    Node.seen_forks (w_s w) = length (Node.forks (Node.clock (w_sh w)));
  ni_cursor : is_u32 (Node.cursor (w_s w));
  ni_credit : 0 <= w_sent w /\ 0 <= Node.credit (w_s w) /\ w_sent w + Node.credit (w_s w) <= w_granted w;
  ni_lib : forall lib, lk_lib (w_link w) = Some lib -> num lib <= Node.clock_lib (Node.clock (w_sh w));
  ni_forks : Forall (fork_above cfg (w_link w)) (drop (Node.seen_forks (w_s w)) (Node.forks (Node.clock (w_sh w))));
  ni_request : forall cur, Node.current (w_s w) = Some cur ->
    is_u32 (Node.cu_end cur) /\ request_matches cur (w_link w)
    /\ in_track cfg (Node.cu_end cur) (Node.cursor (w_s w)) (w_link w);
}.

Lemma rewind_spec cursor points :
  Node.rewind cursor points <= cursor
  /\ (Node.rewind cursor points = cursor \/ Node.rewind cursor points ∈ points).
Proof.
  unfold Node.rewind. revert cursor. induction points as [|p points IH]; intros cursor; cbn [foldl]; [split; [lia|by left]|].
  destruct (IH (if p <? cursor then p else cursor)) as [Hle Hin].
  destruct (Z.ltb_spec p cursor); (split; [lia|]); destruct Hin as [->|Hin]; set_solver.
Qed.

Definition with_session (s : Node.SpringSession) (w : NodeWorld) : NodeWorld :=
  mkNodeWorld (w_sh w) s (w_link w) (w_sent w) (w_granted w).

(** After the clock's changes were applied, the session has seen every fork. *)
Lemma sync_keeps cfg w :
  node_inv cfg w ->
  let s := Node.sync_clock (Node.clock (w_sh w)) (w_s w) in
  node_inv cfg (with_session s w)
  /\ Node.seen_generation s = Node.generation (Node.clock (w_sh w))
  /\ Node.current s = Node.current (w_s w) /\ Node.eosio2 s = Node.eosio2 (w_s w).
Proof.
  intros [Hcfg Hc Hg Hsy Hcu Hcr Hl Hf Hrq]. unfold Node.sync_clock.
  destruct (Z.eqb_spec (Node.generation (Node.clock (w_sh w))) (Node.seen_generation (w_s w))) as [He|Hne].
  { cbn zeta. split; [|done]. by split. }
  unfold Node.forks_since. cbn zeta iota beta. split; [|done].
  set (unseen := drop (Node.seen_forks (w_s w)) (Node.forks (Node.clock (w_sh w)))) in *.
  assert (forall x, x ∈ map fst unseen -> exists f, x = fst f /\ f ∈ unseen) as Hpts
    by (intros x Hx; by apply list_elem_of_fmap in Hx).
  assert (forall f, f ∈ unseen -> f ∈ Node.forks (Node.clock (w_sh w))) as Hsub.
  { intros f Hx. rewrite <- (take_drop (Node.seen_forks (w_s w)) (Node.forks (Node.clock (w_sh w)))).
    apply elem_of_app. by right. }
  set (pts := map fst unseen) in *. pose proof (rewind_spec (Node.cursor (w_s w)) pts) as [Hle Hin].
  split; cbn [with_session w_sh w_s w_link w_sent w_granted Node.seen_generation Node.seen_forks Node.cursor
    Node.credit Node.current]; try done.
  - destruct Hin as [->|Hin]; [done|]. apply Hpts in Hin as (f & -> & Hin).
    destruct Hc as (_ & _ & Hfs). rewrite Forall_forall in Hfs. by apply Hfs, Hsub.
  - by rewrite drop_all.
  - intros cur Hcur. destruct (Hrq cur Hcur) as (? & ? & Ht). split_and!; try done.
    intros u Hu Hend. destruct Hin as [He|Hin]; [rewrite He in *; by apply Ht|]. right.
    apply Hpts in Hin as (f & -> & Hin). rewrite Forall_forall in Hf. by apply Hf in Hin.
Qed.

(** ** What is due *)

Definition gate (c : Node.ChainClock) (cur : Node.Current) : Z :=
  if Node.cu_irreversible_only cur then Node.clock_lib c else Node.clock_head c.

Lemma due_spec sh s cur d :
  Node.current s = Some cur -> 0 <= Node.credit s -> Node.next_due sh s = Some d ->
  0 < Node.credit s
  /\ match d with
     | Node.DueBlock n => n = Node.cursor s /\ n < Node.cu_end cur
     | Node.KeepAlive => Node.cursor s < Node.cu_end cur -> gate (Node.clock sh) cur < Node.cursor s
     end.
Proof.
  intros Hcur Hcr. unfold Node.next_due. rewrite Hcur. fold (gate (Node.clock sh) cur).
  destruct (Z.eqb_spec (Node.credit s) 0); [done|].
  destruct ((Node.cursor s <=? gate _ _) && (Node.cursor s <? Node.cu_end cur)) eqn:E.
  - bools. destruct (_ || _); [done|]. intros [= <-]. split; [lia|done].
  - destruct (Node.eosio2 s && _); [|done]. intros [= <-]. split; [lia|]. intros Hend.
    apply andb_false_iff in E as [E|E]; bools; lia.
Qed.

(** One result, sent for the block at the cursor, read on the link. *)
Section result.
Context (cfg : Node.MockShipConfig) (c c' : Node.ChainClock) (cur : Node.Current) (lk : LinkKey) (n : Z).
Hypotheses (Hn : is_u32 n) (Hend : is_u32 (Node.cu_end cur)) (Hc : clock_ok c')
  (Hgrow : Node.clock_lib c <= Node.clock_lib c')
  (Hlib : forall lib, lk_lib lk = Some lib -> num lib <= Node.clock_lib c)
  (Hreq : request_matches cur lk) (Htrack : in_track cfg (Node.cu_end cur) n lk).

#[local] Abbreviation h := (node_head (Node.block_fields cfg c' cur n false)).

Lemma block_conforms : n < Node.cu_end cur -> conforming_result lk h.
Proof.
  intros Hlt _ lib Hl. pose proof (Hlib lib Hl). split; [cbn; lia|]. intros p r u Hp Hr Hu.
  destruct Hreq as (r' & Hr' & He & _). rewrite Hr' in Hr. injection Hr as <-.
  assert (num p = n) as ->.
  { unfold node_head, Node.block_fields in Hp. cbn in Hp. destruct (Node.id_known _ _ _); [|done].
    by injection Hp as <-. }
  split; [lia|]. intros Hback. destruct (Htrack u Hu Hlt) as [?|[_ Habove]]; [lia|]. by apply Habove.
Qed.

Lemma block_tracked : n < Node.cu_end cur -> in_track cfg (Node.cu_end cur) (sat_add u32_max n 1) (link_after h lk).
Proof.
  intros Hlt. destruct Hreq as (r & Hr & He & Hirr). unfold link_after. rewrite Hr.
  assert (sat_add u32_max n 1 = n + 1) as -> by mlia.
  intros u. unfold classify_result.
  unfold node_head, Node.block_fields. cbn [this_block Mock.bf_this_block negb andb rh_lib Mock.bf_lib lk_cursor lk_lib].
  destruct (Node.id_known _ _ _) eqn:Hk; cbn [cl_advance cl_n num Node.clock_pos].
  { intros [= <-] _. left. mlia. }
  assert (forall v, v <= sat_add u32_max n 1 \/ v = sat_add u32_max n 1 -> v <= n + 1) as Hsat by mlia.
  assert (forall v, lk_cursor lk = Exact v -> v <= n
    \/ (known_from cfg (n + 1) /\ Node.clock_lib c' < n + 1)) as Hold.
  { intros v Hv. destruct (Htrack v Hv Hlt) as [?|[Hkf _]]; [by left|right].
    split; [intros hd Hhd; specialize (Hkf hd Hhd); lia|].
    apply andb_false_iff in Hk as [Hk|Hk]; bools.
    - specialize (Hkf _ (clock_head_u32 c')). lia.
    - destruct Hc as (? & _). lia. }
  destruct (lk_cursor lk) as [v|lo hi] eqn:Ev; [|done].
  destruct (Hold v eq_refl) as [Hle|[Hkf Hll]].
  - destruct (_ && _); cbn [cl_advance cl_n]; intros [= <-] _; left; mlia.
  - intros _ _. right. split; [done|]. intros lib [= <-]. cbn. lia.
Qed.

End result.

Lemma keepalive_tracked cfg c cur lk n :
  clock_ok c -> request_matches cur lk -> (n < Node.cu_end cur -> gate c cur < n) ->
  in_track cfg (Node.cu_end cur) n lk ->
  in_track cfg (Node.cu_end cur) n (link_after (node_head (Node.keepalive_fields c)) lk).
Proof.
  intros (Hlh & _) (r & Hr & He & Hirr) Hgate Ht u. unfold link_after. rewrite Hr. cbn [lk_cursor lk_lib].
  unfold classify_result. cbn [this_block node_head Mock.bf_this_block Node.keepalive_fields rh_lib rh_head
    Mock.bf_lib Mock.bf_head].
  destruct (lk_cursor lk) as [v|lo hi] eqn:Ev; [|done]. intros Hu Hlt. specialize (Hgate Hlt).
  assert (Node.clock_lib c <= gate c cur) by (unfold gate; destruct (Node.cu_irreversible_only cur); lia).
  destruct (Ht v Ev Hlt) as [Hle|[Hkf _]].
  - left. revert Hu. rewrite Hirr. cbn [num Node.clock_pos]. fold (gate c cur).
    destruct ((v <=? gate c cur) && (v <? lr_end r)) eqn:E; cbn [cl_advance cl_n]; intros [= <-]; bools; mlia.
  - right. split; [done|]. intros lib [= <-]. cbn. lia.
Qed.

(** ** Every step keeps the invariant *)

(** Where only counters, the log and the credit changed. *)
Lemma inv_quiet cfg w sh s granted :
  node_inv cfg w ->
  Node.config sh = Node.config (w_sh w) -> Node.clock sh = Node.clock (w_sh w) ->
  Node.current s = Node.current (w_s w) -> Node.cursor s = Node.cursor (w_s w) ->
  Node.seen_generation s = Node.seen_generation (w_s w) -> Node.seen_forks s = Node.seen_forks (w_s w) ->
  0 <= Node.credit s <= Node.credit (w_s w) + (granted - w_granted w) ->
  node_inv cfg (mkNodeWorld sh s (w_link w) (w_sent w) granted).
Proof.
  intros [Hcfg Hc Hg Hsy Hcu Hcr Hl Hf Hrq] E1 E2 E3 E4 E5 E6 E7.
  split; cbn [w_sh w_s w_link w_sent w_granted]; rewrite ?E1, ?E2, ?E3, ?E4, ?E5, ?E6; try done. lia.
Qed.

(** A session in step with the clock after one result at [c'], at [cursor]. *)
Lemma inv_result cfg w sh s cur h :
  node_inv cfg w -> Node.seen_generation (w_s w) = Node.generation (Node.clock (w_sh w)) ->
  Node.current (w_s w) = Some cur ->
  Node.config sh = Node.config (w_sh w) -> delay_change cfg (Node.clock (w_sh w)) (Node.clock sh) ->
  Node.current s = Some cur -> is_u32 (Node.cursor s) ->
  Node.seen_generation s = Node.seen_generation (w_s w) -> Node.seen_forks s = Node.seen_forks (w_s w) ->
  0 < Node.credit (w_s w) -> Node.credit s = Node.credit (w_s w) - 1 ->
  num (rh_lib h) = Node.clock_lib (Node.clock sh) ->
  in_track cfg (Node.cu_end cur) (Node.cursor s) (link_after h (w_link w)) ->
  node_inv cfg (mkNodeWorld sh s (link_after h (w_link w)) (w_sent w + 1) (w_granted w)).
Proof.
  intros [Hcfg Hc Hg Hsy Hcu Hcr Hl Hf Hrq] Hgen Hcur E1 Hgr E3 E4 E5 E6 Hpos E7 Hh Ht.
  destruct Hgr as [Hgr Habove]. destruct (changes_spec _ _ _ Hgr Hc) as (Hc' & Hlib & Hgn & Hstep & new & Hfk & Hnew).
  rewrite Hfk, drop_app_length in Habove.
  destruct (Hrq cur Hcur) as (He & (r & Hr & Hre & Hri) & _).
  assert (lk_req (link_after h (w_link w)) = Some r /\ lk_lib (link_after h (w_link w)) = Some (rh_lib h))
    as [Hlr Hll] by (unfold link_after; by rewrite Hr).
  split; cbn [w_sh w_s w_link w_sent w_granted]; rewrite ?E1, ?E5, ?E6; try done.
  - lia.
  - intros Heq. destruct Hstep as [->|?]; [by apply Hsy|lia].
  - lia.
  - intros lib. rewrite Hll. intros [= <-]. lia.
  - rewrite Hfk, (Hsy Hgen), drop_app_length. rewrite Forall_forall in *. intros f Hin. split; [by apply Hnew|].
    intros lib. rewrite Hll. intros [= <-]. rewrite Hh. by apply Habove.
  - intros cur'. rewrite E3. intros [= <-]. split_and!; [done| |done]. by exists r.
Qed.

Lemma status_quiet v1 ok sh s go frames sh' s' :
  Node.on_status v1 ok sh s = (go, frames, sh', s') ->
  results frames = [] /\ Node.config sh' = Node.config sh /\ Node.clock sh' = Node.clock sh
  /\ Node.current s' = Node.current s /\ Node.cursor s' = Node.cursor s
  /\ Node.seen_generation s' = Node.seen_generation s /\ Node.seen_forks s' = Node.seen_forks s
  /\ Node.credit s' = Node.credit s.
Proof.
  unfold Node.on_status. set (fields := Node.status_fields true _).
  set (reply := if negb v1 && _ then _ else _).
  assert (forall h, classify_upstream reply <> UBlocks h) as Hno.
  { intros h. apply (status_not_result v1 fields). unfold reply. destruct (_ && _); auto. }
  assert (forall fs, results (Node.FBinary reply :: fs) = results fs) as Hskip.
  { intros fs. unfold results. cbn [omap list_omap]. destruct (classify_upstream reply) eqn:E; try done.
    by destruct (Hno h). }
  assert (forall k, results [Node.FBinary (repeat 0xFF k)] = []) as Hover by (by intros [|k]).
  assert (results [] = []) as Hnil by done.
  destruct (_ && v1); [intros [= <- <- <- <-]; done|].
  destruct (Node.status_fault _) as [[|after bytes delay]|]; [intros [= <- <- <- <-]; done|..];
    (destruct (negb ok); [intros [= <- <- <- <-]; done|]); [destruct (_ <=? _)|];
    intros [= <- <- <- <-]; rewrite Hskip, ?Hover; done.
Qed.

(** A message that is no request for blocks. *)
Lemma client_quiet item ok sh s go frames sh' s' :
  get_of (Some item) = None -> 0 <= Node.credit s -> 0 <= acked (Some item) ->
  Node.on_item item ok sh s = (go, frames, sh', s') ->
  results frames = [] /\ Node.config sh' = Node.config sh /\ Node.clock sh' = Node.clock sh
  /\ Node.current s' = Node.current s /\ Node.cursor s' = Node.cursor s
  /\ Node.seen_generation s' = Node.seen_generation s /\ Node.seen_forks s' = Node.seen_forks s
  /\ 0 <= Node.credit s' <= Node.credit s + acked (Some item).
Proof.
  intros Hget Hcr Hack. unfold Node.on_item, get_of, acked in *.
  destruct item as [data| | |]; try (intros [= <- <- <- <-]; split_and!; done || lia).
  destruct (Mock.decode_request_strict data) as [q|e]; [|intros [= <- <- <- <-]; split_and!; done || lia].
  destruct q; try discriminate Hget; try (intros [= <- <- <- <-]; split_and!; done || lia).
  - intros H. apply status_quiet in H as (? & ? & ? & ? & ? & ? & ? & ->). split_and!; done || lia.
  - intros H. apply status_quiet in H as (? & ? & ? & ? & ? & ? & ? & ->). split_and!; done || lia.
  - intros [= <- <- <- <-]. cbn [Node.credit Node.set_credit]. split_and!; try done; unfold Mock.wrapping_add.
    + by apply Z.mod_pos_bound.
    + apply Z.mod_le; lia.
Qed.

(** A request for blocks replaces the one before it. *)
Lemma client_request item g ok sh s frames sh' s' :
  get_of (Some item) = Some g -> get_ok g -> is_u32 (Node.trace_begin_block (Node.config sh)) ->
  map_or True is_u32 (Node.chain_state_begin_block (Node.config sh)) ->
  Node.on_item item ok sh s = (true, frames, sh', s') ->
  Node.config sh' = Node.config sh /\ Node.clock sh' = Node.clock sh
  /\ Node.seen_generation s' = Node.seen_generation s /\ Node.seen_forks s' = Node.seen_forks s
  /\ is_u32 (Node.cursor s') /\ Node.credit s' = Node.g_max_in_flight g
  /\ exists cur, Node.current s' = Some cur /\ Node.cu_end cur = Node.g_end g
       /\ Node.cu_irreversible_only cur = Node.g_irreversible_only g.
Proof.
  intros Hget (Hs & He & Hm & Hps) Htb Hcb. unfold Node.on_item, get_of in *.
  destruct item as [data| | |]; try done.
  destruct (Mock.decode_request_strict data) as [q|e]; [|done].
  assert (is_u32 (Node.start_from (Node.ranges (Node.config sh) (Node.clock_head (Node.clock sh))) (Node.clock sh)
    (Node.clock_head (Node.clock sh)) (Node.g_start g) (Node.g_have_positions g))) as Hstart.
  { unfold Node.start_from. revert Hps Hs. generalize (Node.g_start g) as start.
    induction (Node.g_have_positions g) as [|p ps IH]; intros start Hps Hs; cbn [foldl]; [done|].
    inversion Hps as [|? ? Hp Hps']; subst. apply IH; [done|].
    destruct (_ <=? _); [done|]. by destruct (_ || _). }
  assert (is_u32 (Node.id_begin (Node.ranges (Node.config sh) (Node.clock_head (Node.clock sh))))) as Hid.
  { unfold Node.id_begin, Node.ranges. cbn [Node.trace Node.chain_state rbegin].
    assert (is_u32 (default (Node.trace_begin_block (Node.config sh)) (Node.chain_state_begin_block (Node.config sh))))
      by (by destruct (Node.chain_state_begin_block _)).
    destruct (min_list _) as [m|] eqn:E; [|done]. apply min_list_some in E as [E _].
    apply list_elem_of_fmap in E as (x & -> & Hx). apply elem_of_List_filter in Hx as [Hx _].
    apply elem_of_cons in Hx as [->|Hx]; [done|]. by apply list_elem_of_singleton in Hx as ->. }
  destruct q; try discriminate Hget; rewrite Hget; unfold Node.on_blocks; (destruct (_ && _); [done|]);
    intros [= <- <- <-]; cbn [Node.config Node.clock Node.record Node.seen_generation Node.seen_forks Node.cursor
      Node.credit Node.current]; (split_and!; try done; [|by eexists]);
    destruct (Node.first_available_jump _); try done; mlia.
Qed.

(** What a turn's results do on the link, whether or not the session goes on. *)
Definition turn_ok (cfg : Node.MockShipConfig) (w : NodeWorld) (o : Node.SessionOutcome) : Prop :=
  let '(go, frames, sh, s) := o in
  (forall h, h ∈ results frames -> conforming_result (w_link w) h)
  /\ (go = true -> node_inv cfg (mkNodeWorld sh s (foldl (fun lk h => link_after h lk) (w_link w) (results frames))
        (w_sent w + zlen (results frames)) (w_granted w))).

Lemma results_one b h : classify_upstream b = UBlocks h -> results [Node.FBinary b] = [h].
Proof. intros E. unfold results. cbn. by rewrite E. Qed.

(** A turn that sends nothing and leaves the session where it was. *)
Lemma turn_silent cfg w go frames sh s :
  node_inv cfg w -> results frames = [] ->
  Node.config sh = Node.config (w_sh w) -> Node.clock sh = Node.clock (w_sh w) ->
  Node.current s = Node.current (w_s w) -> Node.cursor s = Node.cursor (w_s w) ->
  Node.seen_generation s = Node.seen_generation (w_s w) -> Node.seen_forks s = Node.seen_forks (w_s w) ->
  0 <= Node.credit s <= Node.credit (w_s w) ->
  turn_ok cfg w (go, frames, sh, s).
Proof.
  intros Hi Hr E1 E2 E3 E4 E5 E6 E7. unfold turn_ok. rewrite Hr. split; [set_solver|]. intros _.
  cbn [foldl length]. rewrite Z.add_0_r. by apply (inv_quiet cfg w); [..|lia].
Qed.

Ltac first_if := match goal with |- context [if ?b then _ else _] => destruct b end.

Lemma send_keeps cfg w cur d later ok :
  sound_config cfg -> node_inv cfg w ->
  Node.seen_generation (w_s w) = Node.generation (Node.clock (w_sh w)) ->
  Node.current (w_s w) = Some cur -> Node.next_due (w_sh w) (w_s w) = Some d ->
  delay_change cfg (Node.clock (w_sh w)) later ->
  turn_ok cfg w (Node.send d cur later ok (w_sh w) (w_s w)).
Proof.
  intros (_ & _ & _ & _ & _ & _ & Hsize & Hskip & Hheadonly) Hi Hgen Hcur Hdue Hgr.
  pose proof Hi as [Hcfg Hc _ _ Hcu (Hs0 & Hcr0 & Hcr) Hl _ Hrq].
  destruct (Hrq cur Hcur) as (He & Hm & Ht).
  destruct (due_spec _ _ _ _ Hcur Hcr0 Hdue) as [Hpos Hd]. unfold Node.send. rewrite Hcfg.
  destruct d as [n|].
  - destruct Hd as [-> Hlt].
    first_if; [by apply turn_silent; [..|lia]|].
    first_if; [by apply turn_silent; [..|lia]|].
    match goal with |- context [match ?o with Some _ => _ | None => _ end] => destruct o end;
      [by apply turn_silent; [|destruct ok|..|lia]|].
    first_if.
    { by apply turn_silent; [|done|destruct (Node.held (w_s w))..|cbn; lia]. }
    rewrite Hskip, Hheadonly. change (bool_decide (None = Some (Node.cursor (w_s w)))) with false. cbn iota zeta.
    set (sh := if is_some (Node.block_delay cfg) then Node.set_clock later (w_sh w) else w_sh w).
    assert (Node.config sh = Node.config (w_sh w) /\ delay_change cfg (Node.clock (w_sh w)) (Node.clock sh)) as [Hsc Hsg].
    { unfold sh. destruct (is_some _); [done|split; [done|apply delay_refl]]. }
    clearbody sh. destruct (changes_spec _ _ _ (proj1 Hsg) Hc) as (Hc' & Hlib & _).
    destruct (negb ok).
    { split; [set_solver|done]. }
    unfold turn_ok. erewrite results_one by (by apply block_read). cbn [foldl length]. split.
    + intros h ->%list_elem_of_singleton. by eapply block_conforms.
    + intros _. apply (inv_result cfg w sh _ cur); try done; cbn [Node.cursor Node.after_block]; [mlia|].
      by apply block_tracked.
  - destruct ok; [|split; [set_solver|done]].
    unfold turn_ok. erewrite results_one by (by apply keepalive_read). cbn [foldl length]. split.
    + intros h ->%list_elem_of_singleton. intros _ lib Hlb. specialize (Hl lib Hlb). split; [cbn; lia|done].
    + intros _. apply (inv_result cfg w (w_sh w) _ cur); try done; [apply delay_refl|]. by apply keepalive_tracked.
Qed.

Lemma turn_keeps cfg w close waiting later ok :
  sound_config cfg -> node_inv cfg w -> get_of waiting = None -> 0 <= acked waiting ->
  delay_change cfg (Node.clock (w_sh w)) later ->
  let '(go, frames, sh, s) := Node.turn close waiting later ok (w_sh w) (w_s w) in
  (forall h, h ∈ results frames -> conforming_result (w_link w) h)
  /\ (go = true -> node_inv cfg (mkNodeWorld sh s (foldl (fun lk h => link_after h lk) (w_link w) (results frames))
        (w_sent w + zlen (results frames)) (w_granted w + acked waiting))).
Proof.
  intros Hcfg Hi Hget Hack Hgr. destruct (sync_keeps cfg w Hi) as (Hi' & Hgen & Hcur & _).
  unfold Node.turn. set (s := Node.sync_clock _ _) in *.
  assert (acked None = 0) as Hzero by done.
  destruct close; [|destruct waiting as [item|]].
  - split; [destruct ok; set_solver|done].
  - destruct (Node.on_item item ok (w_sh w) s) as [[[go frames] sh'] s'] eqn:E.
    pose proof (ni_credit _ _ Hi') as (_ & Hcr & _). cbn [with_session w_s] in Hcr.
    destruct (client_quiet _ _ _ _ _ _ _ _ Hget Hcr Hack E) as (Hr & E1 & E2 & E3 & E4 & E5 & E6 & E7).
    rewrite Hr. split; [set_solver|]. intros _. cbn [foldl length]. rewrite Z.add_0_r.
    apply (inv_quiet cfg (with_session s w)); cbn [with_session w_sh w_s w_granted]; try done. lia.
  - rewrite Hzero, Z.add_0_r. destruct (Node.next_due (w_sh w) s) as [d|] eqn:Ed; [destruct (Node.current s) as [cur|] eqn:Ec|].
    + exact (send_keeps cfg (with_session s w) cur d later ok Hcfg Hi' Hgen Ec Ed Hgr).
    + split; [set_solver|]. intros _. cbn [results omap list_omap foldl length]. by rewrite Z.add_0_r.
    + split; [set_solver|]. intros _. cbn [results omap list_omap foldl length]. by rewrite Z.add_0_r.
Qed.

Lemma chain_keeps cfg w c :
  node_inv cfg w -> chain_change cfg (Node.clock (w_sh w)) c ->
  node_inv cfg (mkNodeWorld (Node.set_clock c (w_sh w)) (w_s w) (w_link w) (w_sent w) (w_granted w)).
Proof.
  intros [Hcfg Hc Hg Hsy Hcu Hcr Hl Hf Hrq] Hch.
  assert (clock_ok c /\ Node.clock_lib (Node.clock (w_sh w)) <= Node.clock_lib c
    /\ Node.generation c = Node.generation (Node.clock (w_sh w)) + 1
    /\ Forall (fork_above cfg (w_link w)) (drop (Node.seen_forks (w_s w)) (Node.forks c))) as (Hc' & Hlib & Hgen & Hf').
  { destruct (change_spec _ _ _ Hch Hc) as (? & ? & ? & new & -> & Hnew). split_and!; [done..|].
    rewrite drop_app. apply Forall_app. split; [done|]. apply Forall_drop. eapply Forall_impl; [exact Hnew|].
    intros f [Hk Hab]. split; [done|]. intros lib Hlb. specialize (Hl lib Hlb). lia. }
  split; cbn [w_sh w_s w_link w_sent w_granted Node.set_clock Node.config Node.clock]; try done; try lia.
  intros lib Hlb. specialize (Hl lib Hlb). lia.
Qed.

Lemma request_keeps cfg w waiting g later ok frames sh s lk :
  sound_config cfg -> node_inv cfg w -> get_of waiting = Some g -> get_ok g ->
  Node.turn false waiting later ok (w_sh w) (w_s w) = (true, frames, sh, s) ->
  link_requested g (Node.cursor s) (w_link w) lk ->
  node_inv cfg (mkNodeWorld sh s lk 0 (Node.g_max_in_flight g)).
Proof.
  intros (_ & _ & _ & Htb & Hcb & _) Hi Hget Hok. destruct (sync_keeps cfg w Hi) as (Hi' & _).
  unfold Node.turn. destruct waiting as [item|]; [|done].
  destruct Hi' as [Hcfg Hc Hg Hsy _ _ Hl Hf _]. cbn [with_session w_sh w_s w_link] in *. rewrite <- Hcfg in Htb, Hcb.
  intros H. apply client_request with (g := g) in H as (E1 & E2 & E3 & E4 & E5 & E6 & cur & E7 & E8 & E9); try done.
  intros (Hll & (r & Hr & Hre & Hri) & Hu). destruct Hok as (_ & He & Hm & _).
  split; cbn [w_sh w_s w_link w_sent w_granted]; rewrite ?E1, ?E2, ?E3, ?E4; try done.
  - mlia.
  - by rewrite Hll.
  - eapply Forall_impl; [exact Hf|]. intros f [Hk Ha]. split; [done|]. by rewrite Hll.
  - intros cur'. rewrite E7. intros [= <-]. rewrite E8. split_and!; [done| |].
    + exists r. split_and!; congruence.
    + intros u Hx _. left. by apply Hu.
Qed.

Lemma node_reachable cfg w0 w :
  sound_config cfg -> opened cfg w0 -> rtc (node_step cfg) w0 w -> node_inv cfg w.
Proof.
  intros Hcfg (hits & ok & frames & Ho & Hlk & Hs & Hgr) Hrtc.
  assert (node_inv cfg w0) as H0.
  { pose proof Hcfg as (Hh & Hl & Hle & _ & _ & Hf & _). unfold Node.run_session in Ho.
    injection Ho as _ _ Hsh Hse. split; rewrite <- ?Hsh, <- ?Hse;
      cbn [Node.config Node.clock Node.shared_new Node.session_new Node.seen_generation Node.seen_forks
        Node.forks_since snd Node.cursor Node.credit Node.current Node.generation Node.clock_new]; try done.
    - unfold clock_ok, Node.clock_new. rewrite packed_head, packed_lib by done. cbn [Node.generation Node.forks].
      split_and!; [done|done|]. destruct (Node.fork cfg); cbn; [|done]. by constructor.
    - rewrite Hs, Hgr. done.
    - by rewrite Hlk.
    - by rewrite drop_all. }
  clear Ho Hlk Hs Hgr. induction Hrtc as [w|w w1 w2 Hst _ IH]; [done|]. apply IH. clear IH.
  destruct Hst as [waiting later wok w fs sh s Hget Hack Hgrow Ht|waiting g later wok w fs sh s lk Hget Hok Ht Hreq|w c Hch].
  - pose proof (turn_keeps cfg w false waiting later wok Hcfg H0 Hget Hack Hgrow) as H. rewrite Ht in H. by apply H.
  - by eapply request_keeps.
  - by apply chain_keeps.
Qed.

(** ** What the router may rely on *)



(** The node keeps to its credit: over any run, the results sent for a request and the
    credit left are together at most what the request and the acks after it allowed. *)
Theorem node_within_credit (cfg : Node.MockShipConfig) (w0 w : NodeWorld) :
  sound_config cfg -> opened cfg w0 -> rtc (node_step cfg) w0 w ->
  0 <= w_sent w /\ 0 <= Node.credit (w_s w) /\ w_sent w + Node.credit (w_s w) <= w_granted w.
Proof. intros Hcfg Ho Hr. apply (ni_credit cfg). by eapply node_reachable. Qed.

(** ** Witnesses *)

Section demo.

#[local] Abbreviation cfg := (Node.live 1 100).
#[local] Abbreviation opening := (Node.run_session true (Node.shared_new cfg (Node.mkHits None None None None))).

Definition demo_message : list Z :=
  encode_blocks_request (mkBlocksRequest false 100 u32_max 5 [] false false true false false).

Definition demo_link (lib : option BlockPos) (cursor : UpCursor) : LinkKey :=
  mkLinkKey Live (Some (mkLinkReq 100 u32_max false false PInitial 0)) cursor None lib.

Definition demo_open : NodeWorld := mkNodeWorld opening.1.2 opening.2 (demo_link None (Exact 100)) 0 0.

Definition demo_node_turn (waiting : option Node.NodeItem) (w : NodeWorld) : Node.SessionOutcome :=
  Node.turn false waiting (Node.clock (w_sh w)) true (w_sh w) (w_s w).

Definition demo_asked : NodeWorld :=
  let o := demo_node_turn (Some (Node.IBinary demo_message)) demo_open in
  mkNodeWorld o.1.2 o.2 (demo_link None (Exact 100)) 0 5.

Definition demo_sent : NodeWorld :=
  let o := demo_node_turn None demo_asked in
  mkNodeWorld o.1.2 o.2 (foldl (fun lk h => link_after h lk) (w_link demo_asked) (results o.1.1.2))
    (w_sent demo_asked + zlen (results o.1.1.2)) (w_granted demo_asked + acked None).

Definition demo_grown : NodeWorld :=
  mkNodeWorld (Node.set_clock (Node.clock_advance 1 (Node.clock (w_sh demo_sent))) (w_sh demo_sent)) (w_s demo_sent)
    (w_link demo_sent) (w_sent demo_sent) (w_granted demo_sent).

Lemma outcome_eta (o : Node.SessionOutcome) : o.1.1.1 = true -> o = (true, o.1.1.2, o.1.2, o.2).
Proof. destruct o as [[[go frames] sh] s]. cbn. by intros ->. Qed.

Lemma demo_opened : opened cfg demo_open.
Proof.
  exists (Node.mkHits None None None None), true, [Node.FAbi]. by split_and!.
Qed.

Lemma demo_sound : sound_config cfg.
Proof. split_and!; cbn; done || mlia. Qed.

Lemma demo_run : rtc (node_step cfg) demo_open demo_grown.
Proof.
  eapply rtc_l; [|eapply rtc_l; [|eapply rtc_l; [|apply rtc_refl]]].
  - eapply (ns_request cfg (Some (Node.IBinary demo_message))
      (Node.mkGet false 100 u32_max 5 [] false false true false false)
      (Node.clock (w_sh demo_open)) true demo_open).
    + vm_compute. reflexivity.
    + split_and!; cbn; done || mlia.
    + apply outcome_eta. vm_compute. reflexivity.
    + split_and!; [done|by eexists|]. intros u [= <-]. vm_compute. congruence.
  - apply (ns_turn cfg None (Node.clock (w_sh demo_asked)) true demo_asked); [done|done|apply delay_refl|].
    apply outcome_eta. vm_compute. reflexivity.
  - apply (ns_chain cfg demo_sent), cc_grow, gr_advance; [mlia|vm_compute; reflexivity].
Qed.


(** Why the LIB may not pass a fork point within one delay: a node with a delay is about
    to send block 100; in the delay the chain forks at 95 and its LIB moves on to 110;
    block 100 reports that LIB, and the next result is block 95. *)
Definition delayed_cfg : Node.MockShipConfig :=
  Node.mkConfig 100 90 0 (Some 1) None (repeat 0 32) 0 1 0 None false 0 0 None None Node.Spring None None
    false Node.Unbounded None None None None None None false false.

Definition delayed_open : NodeWorld :=
  let o := Node.run_session true (Node.shared_new delayed_cfg (Node.mkHits None None None None)) in
  mkNodeWorld o.1.2 o.2 (demo_link None (Exact 100)) 0 0.

Definition delayed_asked : NodeWorld :=
  let o := demo_node_turn (Some (Node.IBinary demo_message)) delayed_open in
  mkNodeWorld o.1.2 o.2 (demo_link None (Exact 100)) 0 5.

Definition delayed_later : Node.ChainClock :=
  Node.clock_set 120 110 (Node.clock_fork 95 1 (Node.clock (w_sh delayed_asked))).

Definition delayed_sent : NodeWorld :=
  let o := Node.turn false None delayed_later true (w_sh delayed_asked) (w_s delayed_asked) in
  mkNodeWorld o.1.2 o.2 (foldl (fun lk h => link_after h lk) (w_link delayed_asked) (results o.1.1.2)) 1 5.

Lemma delayed_fork_breaks :
  rtc (chain_change delayed_cfg) (Node.clock (w_sh delayed_asked)) delayed_later
  /\ exists h, results (demo_node_turn None delayed_sent).1.1.2 = [h]
       /\ option_map num (this_block h) = Some 95 /\ option_map num (lk_lib (w_link delayed_sent)) = Some 110
       /\ ~ conforming_result (w_link delayed_sent) h.
Proof.
  split.
  { apply (rtc_l _ _ (Node.clock_fork 95 1 (Node.clock (w_sh delayed_asked)))); [|apply rtc_once].
    - apply cc_fork; [mlia|mlia|vm_compute; reflexivity| |vm_compute; reflexivity].
      intros head Hh. unfold Node.id_begin, Node.ranges. cbn. repeat case_match; cbn; lia.
    - apply cc_grow, gr_set; [mlia|mlia| |vm_compute; reflexivity]. vm_compute. split; discriminate. }
  set (cur := Node.mkCurrent false u32_max false false true false false).
  exists (node_head (Node.block_fields delayed_cfg (Node.clock (w_sh delayed_sent)) cur 95 false)).
  split; [vm_compute; reflexivity|]. split; [vm_compute; reflexivity|]. split; [vm_compute; reflexivity|].
  intros Hc. destruct (lk_lib (w_link delayed_sent)) as [lib|] eqn:El; [|vm_compute in El; discriminate El].
  destruct (Hc eq_refl lib El) as [_ Hb]. destruct (lk_req (w_link delayed_sent)) as [r|] eqn:Er; [|vm_compute in Er; discriminate Er].
  specialize (Hb _ r 101 eq_refl eq_refl eq_refl). vm_compute in El. injection El as <-. destruct Hb as [_ Hb].
  specialize (Hb eq_refl). vm_compute in Hb. discriminate Hb.
Qed.

Lemma node_within_credit_witness : w_sent demo_grown = 1 /\ w_granted demo_grown = 5 /\ Node.credit (w_s demo_grown) <= 4.
Proof.
  destruct (node_within_credit cfg demo_open demo_grown demo_sound demo_opened demo_run) as (_ & _ & H).
  assert (w_sent demo_grown = 1) as Hs by (vm_compute; reflexivity).
  assert (w_granted demo_grown = 5) as Hg by (vm_compute; reflexivity).
  split; [exact Hs|]. split; [exact Hg|]. rewrite Hs, Hg in H. clear -H. lia.
Defined.

End demo.
